(* ===== verification/_CoqProject ===== *)
-Q . S2P
Prelude.v
CharacterTypes.v
HashFunctions.v
Externals.v
Utf8.v
StringView.v
Kmp.v
CircularBuffer.v
CircularBufferCorrect.v
MemoryStream.v
MemoryStreamCorrect.v
LexicalPath.v
LexicalPathCorrect.v
Utf8View.v
Format.v
PercentEncoding.v
Ipv4.v
Ipv6.v
Host.v
PublicSuffix.v
TextCodec.v
Origin.v
Url.v
UrlParser.v
UrlWellFormed.v
UrlSerializer.v
UrlParserInvariant.v
UrlParserSteps.v
UrlParserCorrect.v
UrlOrigin.v
UrlSetters.v
InsertionSort.v
UrlSearchParams.v
UrlQuery.v
DomUrl.v
UrlPatternTokenizer.v
UrlPatternParts.v
UrlPatternParser.v
UrlPatternCanon.v
UrlPatternComponent.v
UrlPatternInit.v
UrlPatternConstructor.v
UrlPattern.v
Time.v
GenericLexer.v
DateFormat.v
DateFormatCorrect.v
Http.v
QuickSort.v
HttpHeader.v
HttpHeaderList.v
MimeType.v
MimeSniff.v
MimeSniffCorrect.v
HashTable.v
HashTableCorrect.v
HashMap.v
HttpCache.v
HttpCacheDirectives.v
HttpCacheCorrect.v
HttpCacheFreshness.v
MemoryCache.v
MemoryCacheCorrect.v
IpAddress.v
Cookie.v
ParsedCookie.v
ParsedCookieCorrect.v
CookieJar.v
CookieJarCorrect.v
CookieJarExpire.v
CookieJarPersistence.v
CookieJarHistory.v
CookieJarExamples.v
