(* ===== verification/Prelude.v ===== *)
(** * Ladybird: a verification library for the URL, header, cookie and cache core

    The development models the parts of Ladybird that decide what a URL is and
    what a server and a script may say about it: the URL library
    (src/Libraries/LibURL), the objects of the URL interface that scripts see
    (src/Libraries/LibWeb/DOMURL), HTTP headers and MIME types
    (src/Libraries/LibHTTP, src/Libraries/LibWeb/MimeSniff), and cookies, from
    the Set-Cookie parser to the cookie jar and its database
    (src/Libraries/LibHTTP/Cookie, src/Libraries/LibWebView), and what the HTTP
    cache keeps (src/Libraries/LibHTTP/Cache), with the AK strings, paths,
    numbers, times, lexers, sorts and hash tables they are built on.
    Every definition is executable; theorems are about these definitions and
    about nothing else.

    ** The parts of the program and how they interact

    A script calls [new URL(...)], a setter of the object or a method of its
    [searchParams].  The object ([DOMURL]) holds a URL record and the list of
    parameters of its query.  A setter runs the basic URL parser with a state
    override on the record; the parser calls the host parser, which calls the
    IPv4 and IPv6 parsers, the percent decoder and domain to ASCII (ICU), and
    it calls the percent encoder with the encoder of a text encoding for the
    query.  The record is printed by its serializers, and compared through its
    origin and its site, which need the public suffix list.  All of them work
    on UTF-8 strings through AK's string views and code point iterators.

    A script also creates a [URLPattern] from a constructor string or an init.
    The constructor string parser cuts the string into component patterns, the
    init is completed from its base URL, and each component pattern is
    tokenized, parsed to parts, with its texts canonicalized by a run of the URL
    parser, and compiled to a regular expression.  A match runs the eight
    expressions on the components of a URL.

    A response carries headers.  A [HeaderList] holds them in order; getting a
    header joins and splits values with a lexer that knows quoted strings, and
    sorting combines them through AK's quick sort.  A Content-Type is parsed to
    a [MimeType], and the first bytes of the body may decide another type
    ([Resource::sniff]).  A Set-Cookie string is parsed to a [ParsedCookie], with dates
    and ages made absolute by readings of the clock, and given to the jar.

    The [CookieJar] keeps the cookies in an AK hash map, keyed by name, domain
    and path, and a second map of those to be written.  [set_cookie] runs the
    checks of the RFC against the URL and the store, and tells the open views of
    changes; [get_cookie] collects and sorts the cookies of a URL; a timer writes
    the changed cookies to the database and forgets the expired ones; the
    constructor reads the database.  The hash map is a [HashTable] of entries,
    with open addressing, Robin Hood displacement and back-shifting removal.

    A fetch asks the [MemoryCache] for a response before it goes to the network.
    The cache finds entries by a key of URL and method and, among them, by a key
    of the request's headers that the response nominates; whether an entry may be
    used follows from its age, its lifetime and the directives of request and
    response.  A response that may be stored is kept without its body until it is
    finalized.

    ** Files

    - Prelude: outcomes (a value, a failed VERIFY, or no fuel), indexing,
      characters, tactics and list lemmas.
    - CharacterTypes: AK/CharacterTypes.h.
    - Externals: the third-party code (simdutf, fast_float, ICU, the generated
      public suffix table) as classes, with the laws that are relied on as
      separate classes; every class has an instance that satisfies its laws.
    - Utf8: AK/UnicodeUtils.h, AK/Utf8View.{h,cpp}, the conversions of
      AK/String.cpp; code point iterators are suffixes of the string.
    - StringView: AK/StringView.{h,cpp}, AK/StringUtils.cpp, AK/MemMem.h
      (bitap and Knuth-Morris-Pratt search), number parsing.
    - Format: AK/Format.cpp, printing of unsigned integers.
    - PercentEncoding: the percent-encode sets, percent_encode, percent_decode
      of LibURL/URL.cpp.
    - Ipv4, Ipv6, Host: the host parsers of LibURL/Parser.cpp and the
      serializers of LibURL/Host.cpp; domain to ASCII of LibUnicode/IDNA.cpp.
    - PublicSuffix: LibURL/Host.cpp, and the lookup code that
      Meta/Generators/generate_public_suffix_data.py generates.
    - TextCodec: encoding labels and the UTF-8 encoder of LibTextCodec.
    - Origin: LibURL/Origin.{h,cpp} and LibURL/Site.{h,cpp}, with hashing.
    - Url: the class [URL] of LibURL/URL.{h,cpp}: record, accessors, setters,
      serializers.
    - UrlParser: [Parser::basic_parse] of LibURL/Parser.cpp, one definition
      per state, and its loop.
    - UrlWellFormed, UrlSerializer, UrlParserInvariant, UrlParserSteps,
      UrlParserCorrect, UrlOrigin, UrlSetters: the invariant of URL records,
      the invariant of the parser's loop, one lemma per state, and what follows
      for the parser, the serializers, the origin and the runs with a state
      override.
    - InsertionSort: AK/InsertionSort.h.
    - UrlSearchParams, UrlQuery: LibWeb/DOMURL/URLSearchParams.{h,cpp} and the
      relation of its list with the query of the URL.
    - DomUrl: LibWeb/DOMURL/DOMURL.{h,cpp}: construction, getters, setters,
      and sequences of operations.
    - Utf8View: code point lengths and substrings of AK/Utf8View.{h,cpp}.
    - UrlPatternTokenizer, UrlPatternParts, UrlPatternParser: the tokenizer,
      the parts and pattern strings, and the parser of LibURL/Pattern
      (Tokenizer, Part, Options, String and PatternParser, .h and .cpp).
    - UrlPatternCanon: LibURL/Pattern/Canonicalization.cpp, the encoding
      callbacks, which run the URL parser on a dummy URL.
    - UrlPatternComponent: LibURL/Pattern/Component.{h,cpp}: compilation to a
      regular expression, execution and match results.
    - UrlPatternInit, UrlPatternConstructor, UrlPattern: LibURL/Pattern/Init,
      ConstructorStringParser and Pattern, .h and .cpp: the dictionary and its
      base URL, the state machine of constructor strings, and the creation and
      matching of patterns.
    - HashFunctions, Time, GenericLexer, QuickSort, IpAddress: AK/StringHash.h
      and AK/HashFunctions.h, AK/Time.{h,cpp}, AK/GenericLexer.h, AK/QuickSort.h,
      AK/IPv4Address.h and AK/IPv6Address.h.
    - Http, HttpHeader, HttpHeaderList: LibHTTP/HTTP, Method, Header and
      HeaderList, .h and .cpp; the list refines a map of names to values.
    - MimeType: LibWeb/MimeSniff/MimeType.{h,cpp}; MimeSniff, MimeSniffCorrect:
      LibWeb/MimeSniff/Resource.{h,cpp}, its byte patterns and rules.
    - Kmp: what the search of StringView finds (AK/MemMem.h), and
      Knuth-Morris-Pratt with its table of borders.
    - CircularBuffer, CircularBufferCorrect: AK/CircularBuffer.{h,cpp}, the base
      class, and the queue it implements.
    - MemoryStream, MemoryStreamCorrect: AK/MemoryStream.{h,cpp} and the loops of
      AK/Stream.{h,cpp}.  [InputStream] and [OutputStream] are the virtual
      functions of a stream, [InputStreamOk] and [OutputStreamOk] their laws,
      which the memory streams meet.
    - HashTable, HashTableCorrect, HashMap: AK/HashTable.h, its Robin Hood
      invariant with a lemma per loop, and AK/HashMap.h, which refines a finite
      map.  [HashTraits] and [KeyTraits] are the traits of an element and of a
      key, [HashTraitsOk] and [KeyTraitsOk] their laws.
    - Cookie, ParsedCookie, ParsedCookieCorrect: LibHTTP/Cookie/Cookie and
      ParsedCookie, .h and .cpp.  Readings of the clock are numbered: [Clock]
      gives the time of each.
    - CookieJar: LibWebView/CookieJar.{h,cpp}: modules [Transient], [Persisted]
      and [Jar].  [CookieDatabase] is the database, [CookieDatabaseOk] what its
      three statements do to the table, [Views] the open views.
    - CookieJarCorrect, CookieJarExpire, CookieJarPersistence, CookieJarHistory:
      setting and getting, the loop that expires accessed cookies, the timer, and
      whole histories; CookieJarExamples: a database, a clock and jars on which
      the theorems are applied.
    - LexicalPath, LexicalPathCorrect: AK/LexicalPath.{h,cpp}.
    - DateFormat, DateFormatCorrect: printing and reading times by a format
      (AK/Time.cpp), over the C library's [gmtime_r] and [timegm]; [TimeZone] is
      what depends on the zone of the process.
    - HttpCache: LibHTTP/Cache/Utilities.{h,cpp} and CacheMode.h, modules
      [CacheControl], [Vary], [CacheKeys], [Cacheability] and [Freshness]; [Sha1]
      is the digest.  HttpCacheDirectives, HttpCacheCorrect, HttpCacheFreshness:
      its directives, keys and stored fields, ages and lifetimes.
    - MemoryCache, MemoryCacheCorrect: LibHTTP/Cache/MemoryCache.{h,cpp} on the
      hash maps, and histories of its operations.

    ** What the theorems show

    - Safety and termination: the URL parser returns on every byte sequence,
      with or without a base URL and with every state override the setters use;
      no VERIFY fails, no index leaves its string, and the fuel suffices
      (basic_parse_wf, dom_operations_wf, parse_host_wf,
      parse_ipv6_address_total, url_origin_total).
    - Invariants: URLs that are parsed, or reached by any sequence of
      operations on a DOMURL, are well-formed; the list of search parameters is
      at every time the list the query decodes to; a setter changes its own
      component of the URL only (dom_search_params_in_sync,
      dom_operation_frame).
    - Round trips: hosts, IPv6 and IPv4 addresses, UTF-8, percent-encoding and
      the form-urlencoded format.
    - Equivalence with reference definitions: the IPv4 parser, the substring
      search, the longest run of zero pieces, the stable sort.
    - Relations: same origin, same origin-domain and same site.
    - Findings: a few inputs on which the code aborts or does not do what its
      comments say, each evaluated in the model.
    - URL patterns: the tokenizer equals a reference lexer and loses nothing
      (tokenize_reference, tokenize_covers); the pattern parser returns
      well-formed parts, whatever callback it is given that meets the class
      [EncodingCallbackOk], and the ten canonicalizers meet it
      (pattern_parse_wf, canonicalizers_total); an escaped text is parsed as
      itself; compiling a component, parsing a constructor string, creating a
      pattern and matching it return, under the hypotheses each theorem states,
      for every regular expression engine, matching for one whose capture slots
      lie in its input (component_compile_total,
      constructor_parse_total, pattern_create_total, pattern_match_total); an
      init that gives only a base URL matches as that URL
      (match_base_url_init).  What the hypotheses exclude are inputs on which
      the code aborts, which are findings with theorems of their own
      (constructor_bracket_aborts, pattern_create_aborts).
    - Containers and algorithms: an AK hash map refines a finite map
      (hash_map_refines); a circular buffer refines a queue with a bounded memory
      (circular_buffer_refines), and copying from that memory is the copy of
      Lempel-Ziv decoders (copy_from_seekback_correct); a memory stream refines a
      queue (memory_stream_refines); searching a string finds
      its first occurrence (memmem_correct, for needles whose positions are ints); the quick sort sorts (quick_sort_sorts); durations
      saturate and days are counted (duration_arithmetic_saturates,
      days_since_epoch_counts).
    - Headers and MIME types: splitting a value equals a reference scanner
      (header_split_reference); a header list refines a map from names to values
      (header_list_refines) and is sorted and combined without loss
      (sort_and_combine_correct); Content-Range values and MIME types survive
      printing and parsing (content_range_roundtrip, mime_type_roundtrip).
      Sniffing gives a resource a scriptable type only where it may
      (sniff_scriptable_safe).
    - Cookies: the Set-Cookie parser returns cookies within the limits of the
      RFC (parse_cookie_wf) and reads every date of the calendar (cookie_date_roundtrip); a
      cookie is sent exactly when the RFC says (cookie_matches_url_spec), in its
      order (get_cookie_correct), and set only when the rules of the code accept it (set_cookie_safe).
      Every history of a jar keeps its invariant (jar_history; the agreement with the
      database only until cookies are expired with a time offset), the timer leaves
      nothing to write (synchronization_completes) and a restart loses no cookie
      (restart_keeps_cookies).  Two defects are theorems of their own
      (expire_accessed_since_spec, http_only_cookie_overwritten).
    - Paths and dates: a canonicalized path leads where the path leads
      (canonicalized_path_correct) and a relative path leads from its prefix to
      its path (relative_path_correct); a time printed as an HTTP date is read
      back (http_date_roundtrip).
    - The HTTP cache: a directive is extracted as a reference scanner says
      (extract_directive_reference), file names keep their keys
      (cache_path_roundtrip), stored fields are replaced
      (update_fields_values), ages are those of RFC 9111
      (calculate_age_correct) and a response is fresh only when its
      directives allow it, and whenever they do but for an age of exactly a limit
      (fresh_status_safe).  Over every history of the memory
      cache an entry that is opened belongs to the request and may be used
      (memory_cache_history), and what was stored is found
      (stored_response_found).

    ** Bounds and fuel

    Loops that are structural recursions in the source's data (a list of
    tokens, the bytes of a string) are fixpoints on that data.  The others take
    fuel: [parse_fuel] is a bound on the measure that UrlParserInvariant shows
    every run of the switch to decrease, [constructor_fuel] is a bound on the
    measure of the constructor string parser (states left, then tokens left); the string loops get one more than the
    length of their string; number loops get the number of bits of the word.
    Every theorem that speaks of a result says that the computation returns it,
    so running out of fuel is excluded where it matters.  Integers are kept at
    their width where the source relies on it: the 32-bit hashes, the checked
    16-bit port, the 64-bit IPv4 numbers, the saturating 64-bit durations, the
    8-bit bucket states, the [int] indices of the quick sort. The probing
    loops of the hash table get one more than the number of its buckets: the
    load factor leaves a free one, which ends every probe. The quick sort gets
    two more than the length of the collection, since every part is shorter
    than the whole.

    ** What is not modelled

    - Messages: validation errors and debug output have no effect on results.
    - Legacy text encoders: they work on tables generated at build time, so
      what they emit is a parameter.
    - Storage: AK's strings and vectors are values; a failed allocation and
      copy-on-write sharing are not observable in the modelled code.
    - The blob URL store ([createObjectURL], [revokeObjectURL] and the parser
      that resolves a blob entry), which lives in other processes.
    - The regular expression engine, which is written in Rust: compilation and
      matching are a parameter, with the range of the capture slots that its
      header documents as the law relied on.
    - SQLite: executing a prepared statement is a parameter, whose law is the
      effect of the statement on the rows; it cannot fail.
    - Ordered hash tables (the buckets linked in the order of insertion): where
      one is used, for the parameters of a MIME type, an association list stands
      for it.
    - The views' side of notify_cookies_changed, dump_cookies, and the IPC
      encodings of headers and cookies.
    - SearchableCircularBuffer, which adds a table of hashes to the circular
      buffer.
    - The disk cache (files, an index in SQLite and the requests that wait for an
      entry) beyond the functions of Utilities.cpp, and the clocks: a reading of
      the time is an argument.
    - The rest of the browser: LibJS, layout, CSS, networking, media and the
      user interfaces. *)

From stdpp Require Export base list option strings sets.
From Stdlib Require Export ZArith Lia.

#[global] Open Scope Z_scope.

(** ** Bytes and literals

    AK's [StringView], [ByteString], [String] and [StringBuilder] (in its UTF-8
    mode) are all sequences of bytes; a byte is a [Z] in the range 0..255 and a
    code point (the source's [u32]) is a [Z]. *)
Notation bytes := (list Z).

(** A C++ string literal, as the bytes it denotes. *)
Definition sv (s : string) : bytes :=
  (λ a, Z.of_N (Ascii.N_of_ascii a)) <$> String.list_ascii_of_string s.

Definition is_byte (b : Z) : Prop := 0 ≤ b < 256.

(** ** Outcomes

    [VERIFY], an out-of-range [Vector]/[StringView] index, an empty [Optional]
    that is unwrapped and [MUST] on an error abort the process in the source:
    they are the outcome [VerifyFailed].  A loop that is run with fuel and
    does not finish is [OutOfFuel]. *)
Inductive outcome (A : Type) : Type :=
| Returned (a : A)
| VerifyFailed
| OutOfFuel.
Arguments Returned {A} a.
Arguments VerifyFailed {A}.
Arguments OutOfFuel {A}.

#[global] Instance outcome_ret : MRet outcome := λ A a, Returned a.
#[global] Instance outcome_bind : MBind outcome := λ A B f m,
  match m with
  | Returned a => f a
  | VerifyFailed => VerifyFailed
  | OutOfFuel => OutOfFuel
  end.
#[global] Instance outcome_fmap : FMap outcome := λ A B f m,
  match m with
  | Returned a => Returned (f a)
  | VerifyFailed => VerifyFailed
  | OutOfFuel => OutOfFuel
  end.

(** [VERIFY(b)] followed by the rest of the function. *)
Definition verify {A} (b : bool) (k : outcome A) : outcome A :=
  if b then k else VerifyFailed.

(** [MUST(optional)] and [optional.value()]. *)
Definition must {A} (o : option A) : outcome A :=
  match o with Some a => Returned a | None => VerifyFailed end.

(** [vector[i]], [array[i]] and [string_view[i]], all of which check the index. *)
Definition at_index {A} (l : list A) (i : nat) : outcome A := must (l !! i).

(** [array[i] = x]. *)
Definition set_index {A} (l : list A) (i : nat) (x : A) : outcome (list A) :=
  if (i <? length l)%nat then Returned (<[i:=x]> l) else VerifyFailed.

(** The wrap-around of [size_t] and [u32] arithmetic. *)
Definition wrap64 (z : Z) : Z := z mod 2 ^ 64.
Definition wrap32 (z : Z) : Z := z mod 2 ^ 32.

(** The computation returns normally. *)
Definition returns {A} (m : outcome A) : Prop := ∃ a, m = Returned a.

Lemma returns_intro {A} (a : A) : returns (Returned a).
Proof. by exists a. Qed.

Lemma bind_value {A B} (a : A) (f : A → outcome B) : Returned a ≫= f = f a.
Proof. done. Qed.

Lemma bind_returned {A B} (m : outcome A) (f : A → outcome B) b :
  m ≫= f = Returned b → ∃ a, m = Returned a ∧ f a = Returned b.
Proof. destruct m; naive_solver. Qed.

Lemma returns_bind {A B} (m : outcome A) (f : A → outcome B) :
  returns m → (∀ a, m = Returned a → returns (f a)) → returns (m ≫= f).
Proof. intros [a ->] Hf. simpl. auto. Qed.

Lemma verify_true {A} b (k : outcome A) : b = true → verify b k = k.
Proof. by intros ->. Qed.

Lemma at_index_lt {A} (l : list A) i x : l !! i = Some x → at_index l i = Returned x.
Proof. unfold at_index. by intros ->. Qed.

Lemma set_index_lt {A} (l : list A) i x : (i < length l)%nat → set_index l i x = Returned (<[i:=x]> l).
Proof. intros Hi. unfold set_index. by rewrite (proj2 (Nat.ltb_lt _ _)). Qed.

Lemma at_index_total {A} (l : list A) i : (i < length l)%nat → ∃ x, at_index l i = Returned x ∧ l !! i = Some x.
Proof. intros [x Hx]%lookup_lt_is_Some. exists x. by split; [apply at_index_lt|]. Qed.

Lemma wrap32_small z : 0 ≤ z < 2 ^ 32 → wrap32 z = z.
Proof. apply Z.mod_small. Qed.

Lemma wrap64_small z : 0 ≤ z < 2 ^ 64 → wrap64 z = z.
Proof. apply Z.mod_small. Qed.

(** ** Automation *)
Create HintDb ladybird.
#[export] Hint Resolve returns_intro : ladybird.

(** Turn the boolean tests of the source into propositions for [lia]. *)
Ltac bool_to_prop :=
  repeat match goal with
  | H : _ && _ = true |- _ => apply andb_prop in H as [? ?]
  | H : _ || _ = false |- _ => apply orb_false_elim in H as [? ?]
  | H : negb _ = true |- _ => apply negb_true_iff in H
  | H : negb _ = false |- _ => apply negb_false_iff in H
  | H : (_ =? _)%Z = true |- _ => apply Z.eqb_eq in H
  | H : (_ =? _)%Z = false |- _ => apply Z.eqb_neq in H
  | H : (_ <=? _)%Z = true |- _ => apply Z.leb_le in H
  | H : (_ <=? _)%Z = false |- _ => apply Z.leb_gt in H
  | H : (_ <? _)%Z = true |- _ => apply Z.ltb_lt in H
  | H : (_ <? _)%Z = false |- _ => apply Z.ltb_ge in H
  | H : (_ =? _)%nat = true |- _ => apply Nat.eqb_eq in H
  | H : (_ =? _)%nat = false |- _ => apply Nat.eqb_neq in H
  | H : (_ <=? _)%nat = true |- _ => apply Nat.leb_le in H
  | H : (_ <=? _)%nat = false |- _ => apply Nat.leb_gt in H
  | H : (_ <? _)%nat = true |- _ => apply Nat.ltb_lt in H
  | H : (_ <? _)%nat = false |- _ => apply Nat.ltb_ge in H
  | H : bool_decide _ = true |- _ => apply bool_decide_eq_true in H
  | H : bool_decide _ = false |- _ => apply bool_decide_eq_false in H
  end.

(** [lia] with quotients and remainders by constants. *)
Ltac div_lia := Z.to_euclidean_division_equations; lia.

(** Case on the test of an [if] or the scrutinee of a [match] in the goal. *)
Ltac case_goal :=
  match goal with
  | |- context [if ?b then _ else _] => let E := fresh "E" in destruct b eqn:E
  | |- context [match ?x with _ => _ end] => let E := fresh "E" in destruct x eqn:E
  end.

(** The same in a hypothesis. *)
Ltac case_hyp H :=
  match type of H with
  | context [if ?b then _ else _] => let E := fresh "E" in destruct b eqn:E
  | context [match ?x with _ => _ end] => let E := fresh "E" in destruct x eqn:E
  end.

(** ** Lists of bytes *)
Lemma sv_cons a s : sv (String a s) = Z.of_N (Ascii.N_of_ascii a) :: sv s.
Proof. done. Qed.

Lemma is_byte_ascii a : is_byte (Z.of_N (Ascii.N_of_ascii a)).
Proof. unfold is_byte. pose proof (Ascii.N_ascii_bounded a). lia. Qed.

Lemma sv_bytes s : Forall is_byte (sv s).
Proof.
  induction s; [constructor|]. rewrite sv_cons. constructor; [apply is_byte_ascii|done].
Qed.

Lemma forallb_Forall {A} (f : A → bool) l : forallb f l = true ↔ Forall (λ x, f x = true) l.
Proof. rewrite forallb_forall, List.Forall_forall. naive_solver. Qed.

Lemma forallb_ext {A} (f g : A → bool) l : (∀ x, f x = g x) → forallb f l = forallb g l.
Proof. intros Hfg. induction l; simpl; congruence. Qed.

Lemma existsb_false_Forall {A} (f : A → bool) l :
  existsb f l = false ↔ Forall (λ x, f x = false) l.
Proof.
  induction l as [|x l IH]; simpl; [done|].
  by rewrite orb_false_iff, Forall_cons, IH.
Qed.

(** ** Shifts and masks as division and remainder *)
Lemma land_ones_mod x n : 0 ≤ n → Z.land x (Z.ones n) = x mod 2 ^ n.
Proof. apply Z.land_ones. Qed.

Lemma lor_disjoint_add x y n :
  0 ≤ n → 0 ≤ x → 0 ≤ y < 2 ^ n → Z.lor (x * 2 ^ n) y = x * 2 ^ n + y.
Proof.
  intros Hn Hx Hy. symmetry. rewrite <-Z.add_lor_land, <-Z.shiftl_mul_pow2 by done.
  enough (Z.land (Z.shiftl x n) y = 0) as -> by lia.
  apply Z.bits_inj'; intros i Hi. rewrite Z.land_spec, Z.bits_0.
  destruct (Z.lt_ge_cases i n).
  - by rewrite Z.shiftl_spec_low.
  - rewrite <-(Z.mod_small y (2 ^ n)) by lia.
    rewrite Z.mod_pow2_bits_high by lia. apply andb_false_r.
Qed.

(** ** Character literals of the source *)
Notation c_tab := 0x09 (only parsing).
Notation c_lf := 0x0A (only parsing).
Notation c_vt := 0x0B (only parsing).
Notation c_ff := 0x0C (only parsing).
Notation c_cr := 0x0D (only parsing).
Notation c_space := 0x20 (only parsing).
Notation c_hash := 0x23 (only parsing).
Notation c_percent := 0x25 (only parsing).
Notation c_ampersand := 0x26 (only parsing).
Notation c_equals := 0x3D (only parsing).
Notation c_dollar := 0x24 (only parsing).
Notation c_lparen := 0x28 (only parsing).
Notation c_rparen := 0x29 (only parsing).
Notation c_asterisk := 0x2A (only parsing).
Notation c_plus := 0x2B (only parsing).
Notation c_minus := 0x2D (only parsing).
Notation c_dot := 0x2E (only parsing).
Notation c_slash := 0x2F (only parsing).
Notation c_0 := 0x30 (only parsing).
Notation c_7 := 0x37 (only parsing).
Notation c_9 := 0x39 (only parsing).
Notation c_colon := 0x3A (only parsing).
Notation c_question := 0x3F (only parsing).
Notation c_at := 0x40 (only parsing).
Notation c_A := 0x41 (only parsing).
Notation c_F := 0x46 (only parsing).
Notation c_Z := 0x5A (only parsing).
Notation c_lbracket := 0x5B (only parsing).
Notation c_backslash := 0x5C (only parsing).
Notation c_rbracket := 0x5D (only parsing).
Notation c_underscore := 0x5F (only parsing).
Notation c_a := 0x61 (only parsing).
Notation c_f := 0x66 (only parsing).
Notation c_z := 0x7A (only parsing).
Notation c_lbrace := 0x7B (only parsing).
Notation c_rbrace := 0x7D (only parsing).
Notation c_pipe := 0x7C (only parsing).
