(* ===== verification/CharacterTypes.v ===== *)
(** * AK/CharacterTypes.h: the code point predicates

    One definition per predicate or conversion of the header.  The digit
    parsers end in [VERIFY_NOT_REACHED], so they return an [outcome]. *)
From S2P Require Import Prelude.

Definition is_ascii (code_point : Z) : bool := code_point <? 0x80.

Definition is_ascii_digit (code_point : Z) : bool :=
  (c_0 <=? code_point) && (code_point <=? c_9).

Definition is_ascii_upper_alpha (code_point : Z) : bool :=
  (c_A <=? code_point) && (code_point <=? c_Z).

Definition is_ascii_lower_alpha (code_point : Z) : bool :=
  (c_a <=? code_point) && (code_point <=? c_z).

Definition is_ascii_alpha (code_point : Z) : bool :=
  is_ascii_lower_alpha code_point || is_ascii_upper_alpha code_point.

Definition is_ascii_alphanumeric (code_point : Z) : bool :=
  is_ascii_alpha code_point || is_ascii_digit code_point.

Definition is_ascii_octal_digit (code_point : Z) : bool :=
  (c_0 <=? code_point) && (code_point <=? c_7).

Definition is_ascii_uppercase_hex_digit (code_point : Z) : bool :=
  is_ascii_digit code_point || ((c_A <=? code_point) && (code_point <=? c_F)).

Definition is_ascii_hex_digit (code_point : Z) : bool :=
  is_ascii_uppercase_hex_digit code_point || ((c_a <=? code_point) && (code_point <=? c_f)).

Definition is_ascii_space (code_point : Z) : bool :=
  (code_point =? c_space) || (code_point =? c_tab) || (code_point =? c_lf)
  || (code_point =? c_vt) || (code_point =? c_ff) || (code_point =? c_cr).

Definition is_ascii_c0_control (code_point : Z) : bool := code_point <? 0x20.

Definition is_ascii_c0_control_or_space (code_point : Z) : bool := code_point <=? 0x20.

Definition is_unicode (code_point : Z) : bool := code_point <=? 0x10FFFF.

Definition is_unicode_surrogate (code_point : Z) : bool :=
  (0xD800 <=? code_point) && (code_point <=? 0xDFFF).

Definition is_unicode_scalar_value (code_point : Z) : bool :=
  is_unicode code_point && negb (is_unicode_surrogate code_point).

Definition is_unicode_noncharacter (code_point : Z) : bool :=
  is_unicode code_point
  && (((0xFDD0 <=? code_point) && (code_point <=? 0xFDEF))
      || (Z.land code_point 0xFFFE =? 0xFFFE)
      || (Z.land code_point 0xFFFF =? 0xFFFF)).

Definition to_ascii_lowercase (code_point : Z) : Z :=
  if is_ascii_upper_alpha code_point then code_point + 0x20 else code_point.

Definition to_ascii_uppercase (code_point : Z) : Z :=
  if is_ascii_lower_alpha code_point then code_point - 0x20 else code_point.

Definition parse_ascii_digit (code_point : Z) : outcome Z :=
  if is_ascii_digit code_point then Returned (code_point - c_0) else VerifyFailed.

Definition parse_ascii_hex_digit (code_point : Z) : outcome Z :=
  if is_ascii_digit code_point then parse_ascii_digit code_point
  else if (c_A <=? code_point) && (code_point <=? c_F) then Returned (code_point - c_A + 10)
  else if (c_a <=? code_point) && (code_point <=? c_f) then Returned (code_point - c_a + 10)
  else VerifyFailed.

(** A [char] is signed on the x86-64 targets: passed where a [u32] is expected,
    a byte above 0x7F is sign-extended. *)
Definition u32_of_char (b : Z) : Z := if b <? 0x80 then b else b + 0xFFFFFF00.

(** Unfold every predicate of this file, down to comparisons. *)
Ltac unfold_ctypes :=
  unfold is_ascii, is_ascii_alphanumeric, is_ascii_alpha, is_ascii_upper_alpha,
    is_ascii_lower_alpha, is_ascii_hex_digit, is_ascii_uppercase_hex_digit,
    is_ascii_octal_digit, is_ascii_digit, is_ascii_space, is_ascii_c0_control,
    is_ascii_c0_control_or_space, is_unicode_scalar_value, is_unicode_surrogate,
    is_unicode in *.

(** The predicates the library applies to a [char] do not see the sign
    extension, so the development passes bytes to them directly. *)
Lemma u32_of_char_predicates b :
  is_byte b →
  is_ascii_digit (u32_of_char b) = is_ascii_digit b
  ∧ is_ascii_hex_digit (u32_of_char b) = is_ascii_hex_digit b
  ∧ is_ascii_alpha (u32_of_char b) = is_ascii_alpha b
  ∧ is_ascii_c0_control (u32_of_char b) = is_ascii_c0_control b
  ∧ is_ascii_c0_control_or_space (u32_of_char b) = is_ascii_c0_control_or_space b.
Proof. unfold is_byte, u32_of_char. intros ?. unfold_ctypes. case_match; lia. Qed.

Lemma parse_ascii_digit_digit c :
  is_ascii_digit c = true → parse_ascii_digit c = Returned (c - c_0) ∧ 0 ≤ c - c_0 ≤ 9.
Proof. unfold parse_ascii_digit. intros H. rewrite H. unfold_ctypes. split; [done|lia]. Qed.

Lemma parse_ascii_hex_digit_digit c :
  is_ascii_hex_digit c = true →
  ∃ d, parse_ascii_hex_digit c = Returned d ∧ 0 ≤ d ≤ 15.
Proof.
  unfold parse_ascii_hex_digit, parse_ascii_digit. unfold_ctypes. intros H.
  repeat case_match; try lia; eexists; (split; [done|lia]).
Qed.

Lemma to_ascii_lowercase_idemp c : to_ascii_lowercase (to_ascii_lowercase c) = to_ascii_lowercase c.
Proof. unfold to_ascii_lowercase. unfold_ctypes. repeat case_match; lia. Qed.

Lemma to_ascii_lowercase_not_upper c : is_ascii_upper_alpha (to_ascii_lowercase c) = false.
Proof. unfold to_ascii_lowercase. unfold_ctypes. repeat case_match; lia. Qed.
