(* ===== verification/HashFunctions.v ===== *)
(** * AK/HashFunctions.h, AK/StringHash.h

    The hash functions, in 32- and 64-bit arithmetic with wrap-around. *)
From S2P Require Import Prelude CharacterTypes.

Definition shr (x n : Z) : Z := Z.shiftr x n.
Definition shl32 (x n : Z) : Z := wrap32 (Z.shiftl x n).

Definition u32_hash (key : Z) : Z :=
  let key := Z.lxor key (shr key 16) in
  let key := wrap32 (key * 0x85ebca6b) in
  let key := Z.lxor key (shr key 13) in
  let key := wrap32 (key * 0xc2b2ae35) in
  Z.lxor key (shr key 16).

Definition u64_hash (key : Z) : Z :=
  let key := Z.lxor key (shr key 33) in
  let key := wrap64 (key * 0xff51afd7ed558ccd) in
  let key := Z.lxor key (shr key 33) in
  let key := wrap64 (key * 0xc4ceb9fe1a85ec53) in
  wrap32 (Z.lxor key (shr key 33)).

Definition pair_int_hash (key1 key2 : Z) : Z := u64_hash (Z.lor (Z.shiftl key1 32) key2).

Definition hash_step (hash ch : Z) : Z :=
  let hash := wrap32 (hash + ch) in
  let hash := wrap32 (hash + shl32 hash 10) in
  Z.lxor hash (shr hash 6).

Definition hash_finish (hash : Z) : Z :=
  let hash := wrap32 (hash + shl32 hash 3) in
  let hash := Z.lxor hash (shr hash 11) in
  wrap32 (hash + shl32 hash 15).

Definition string_hash (characters : bytes) (seed : Z) : Z :=
  hash_finish (foldl (λ hash ch, hash_step hash (u32_of_char ch)) seed characters).

Definition case_insensitive_string_hash (characters : bytes) (seed : Z) : Z :=
  let to_lowercase ch := if (c_A <=? ch) && (ch <=? c_Z) then u32_of_char ch + 0x20 else u32_of_char ch in
  hash_finish (foldl (λ hash ch, hash_step hash (to_lowercase ch)) seed characters).

Lemma string_hash_range s seed : 0 ≤ string_hash s seed < 2 ^ 32.
Proof. unfold string_hash, hash_finish. apply Z.mod_pos_bound. lia. Qed.

Lemma u64_hash_range key : 0 ≤ u64_hash key < 2 ^ 32.
Proof. unfold u64_hash. apply Z.mod_pos_bound. lia. Qed.
