(* ===== verification/Externals.v ===== *)
(** * Third-party code the modelled sources call

    simdutf, fast_float, ICU and the generated public suffix table are not part
    of the repository.  Each is a class whose fields are the functions the
    sources call; what the sources rely on is a second class of laws, stated
    from the documentation of that library.  A theorem that needs a law takes
    the class as a binder; theorems that do not need it hold for every
    behaviour of the library. *)
From S2P Require Import Prelude CharacterTypes.

(** ** simdutf *)
Inductive simdutf_error :=
| SUCCESS
| HEADER_BITS
| TOO_SHORT
| TOO_LONG
| OVERLONG
| TOO_LARGE
| SURROGATE
| OTHER_ERROR.

#[global] Instance simdutf_error_eq_dec : EqDecision simdutf_error.
Proof. solve_decision. Defined.

Record simdutf_result := mk_simdutf_result { error : simdutf_error; count : nat }.

Class Simdutf := {
  validate_utf8_with_errors : bytes → simdutf_result;
  validate_ascii : bytes → bool;
  simdutf_find : bytes → Z → nat;
  count_utf8 : bytes → nat;
}.

(** Well-formed UTF-8 (Unicode, table 3-6): the encodings of scalar values. *)
Definition utf8_form (c : Z) : bytes :=
  if c <=? 0x7f then [c]
  else if c <=? 0x7ff then [0xC0 + c / 64; 0x80 + c mod 64]
  else if c <=? 0xffff then [0xE0 + c / 4096; 0x80 + (c / 64) mod 64; 0x80 + c mod 64]
  else [0xF0 + c / 262144; 0x80 + (c / 4096) mod 64; 0x80 + (c / 64) mod 64; 0x80 + c mod 64].

Definition is_scalar (c : Z) : Prop := 0 ≤ c ≤ 0x10FFFF ∧ is_unicode_surrogate c = false.

Definition valid_utf8 (s : bytes) : Prop := ∃ cps, Forall is_scalar cps ∧ s = flat_map utf8_form cps.

(** What the sources rely on: the validator accepts exactly well-formed UTF-8,
    ASCII text included, [validate_ascii] recognises exactly the 7-bit strings, the position of an error lies inside
    the input (a surrogate is three bytes), [find] gives the position of the
    first occurrence of a character, or the length, and [count_utf8] counts the
    code points of well-formed text. *)
Class SimdutfOk `{Simdutf} := {
  validate_utf8_ascii : ∀ s,
    forallb is_ascii s = true → error (validate_utf8_with_errors s) = SUCCESS;
  validate_utf8_spec : ∀ s, Forall is_byte s →
    (error (validate_utf8_with_errors s) = SUCCESS ↔ valid_utf8 s);
  validate_ascii_spec : ∀ s, validate_ascii s = forallb is_ascii s;
  validate_utf8_surrogate : ∀ s,
    error (validate_utf8_with_errors s) = SURROGATE →
    (count (validate_utf8_with_errors s) + 3 ≤ length s)%nat;
  simdutf_find_bound : ∀ s c, (simdutf_find s c ≤ length s)%nat;
  simdutf_find_none_before : ∀ s c i, (i < simdutf_find s c)%nat → s !! i ≠ Some c;
  simdutf_find_found : ∀ s c,
    (simdutf_find s c < length s)%nat → s !! simdutf_find s c = Some c;
  count_utf8_spec : ∀ cps, Forall is_scalar cps → count_utf8 (flat_map utf8_form cps) = length cps;
}.

(** The conversions between UTF-8 and UTF-16: the code units of a UTF-8 string, and
    the bytes written for code units, with the position of the first unpaired
    surrogate if there is one. *)
Class SimdutfUtf16 := {
  convert_utf8_to_utf16 : bytes → list Z;
  convert_utf16_to_utf8_with_errors : list Z → bytes * option nat;
}.

(** ** fast_float

    [from_chars max base s] is [fast_float::from_chars_advanced] at an unsigned
    type whose largest value is [max]: the value and the number of characters
    consumed, or [None] for an error code. *)
Class FastFloat := {
  from_chars : Z → Z → bytes → option (Z * nat);
}.

(** The value of a character as a digit in bases up to 36. *)
Definition digit_value (c : Z) : option Z :=
  if is_ascii_digit c then Some (c - c_0)
  else if is_ascii_lower_alpha c then Some (c - c_a + 10)
  else if is_ascii_upper_alpha c then Some (c - c_A + 10)
  else None.

Definition is_digit_in (base c : Z) : bool :=
  match digit_value c with Some d => d <? base | None => false end.

(** The number written by a string of digits, most significant first. *)
Fixpoint digits_value (base acc : Z) (s : bytes) : Z :=
  match s with
  | [] => acc
  | c :: s => digits_value base (acc * base + default 0 (digit_value c)) s
  end.

(** The documented behaviour of [from_chars] for unsigned integers: the longest
    prefix of digits is read; no digit and a value out of range are errors. *)
Class FastFloatOk `{FastFloat} := {
  from_chars_no_digit : ∀ max base c s, 2 ≤ base ≤ 36 →
    is_digit_in base c = false → from_chars max base (c :: s) = None;
  from_chars_empty : ∀ max base, 2 ≤ base ≤ 36 → from_chars max base [] = None;
  from_chars_in_range : ∀ max base ds s, 2 ≤ base ≤ 36 →
    ds ≠ [] → forallb (is_digit_in base) ds = true →
    match s with c :: _ => is_digit_in base c = false | [] => True end →
    digits_value base 0 ds ≤ max →
    from_chars max base (ds ++ s) = Some (digits_value base 0 ds, length ds);
  from_chars_out_of_range : ∀ max base ds s, 2 ≤ base ≤ 36 →
    ds ≠ [] → forallb (is_digit_in base) ds = true →
    max < digits_value base 0 ds →
    from_chars max base (ds ++ s) = None;
}.

(** ** ICU

    The option and error bits of unicode/uidna.h, and [name_to_ascii options
    name]: [icu::IDNA::nameToASCII_UTF8] on an instance created with the given
    options, [None] when ICU reports a failure status, otherwise the bytes
    written to the sink and the error bits. *)
Class Icu := {
  UIDNA_CHECK_BIDI : Z;
  UIDNA_CHECK_CONTEXTJ : Z;
  UIDNA_USE_STD3_RULES : Z;
  UIDNA_NONTRANSITIONAL_TO_ASCII : Z;
  UIDNA_NONTRANSITIONAL_TO_UNICODE : Z;
  UIDNA_ERROR_EMPTY_LABEL : Z;
  UIDNA_ERROR_LABEL_TOO_LONG : Z;
  UIDNA_ERROR_DOMAIN_NAME_TOO_LONG : Z;
  UIDNA_ERROR_LEADING_HYPHEN : Z;
  UIDNA_ERROR_TRAILING_HYPHEN : Z;
  UIDNA_ERROR_HYPHEN_3_4 : Z;
  UIDNA_ERROR_PUNYCODE : Z;
  name_to_ascii : Z → bytes → option (bytes * Z);
}.

(** The errors that do not concern the characters of a name. *)
Definition icu_length_and_hyphen_errors `{Icu} : Z :=
  Z.lor (Z.lor (Z.lor UIDNA_ERROR_HYPHEN_3_4 UIDNA_ERROR_LEADING_HYPHEN) UIDNA_ERROR_TRAILING_HYPHEN)
    (Z.lor (Z.lor UIDNA_ERROR_EMPTY_LABEL UIDNA_ERROR_LABEL_TOO_LONG) UIDNA_ERROR_DOMAIN_NAME_TOO_LONG).

(** A name that is converted without another error is ASCII. *)
Class IcuOk `{Icu} := {
  name_to_ascii_ascii : ∀ options name out errors,
    name_to_ascii options name = Some (out, errors) →
    Z.land errors (Z.lnot icu_length_and_hyphen_errors) = 0 →
    Forall (λ b, 0 ≤ b < 0x80) out;
}.

(** The properties of code points that identifiers are made of, [u_isIDStart]
    and [u_isIDPart] of unicode/uchar.h. *)
Class IcuProperties := {
  u_isIDStart : Z → bool;
  u_isIDPart : Z → bool;
}.

(** ** The regular expression engine

    [regex::ECMAScriptRegex] of LibRegex, a wrapper of an engine that is written in
    Rust: [compile] gives an error message or a compiled expression, [exec] the
    result and the capture slots it leaves, [test] the result alone. *)
Inductive MatchResult := Match | NoMatch | LimitExceeded.

#[global] Instance MatchResult_eq_dec : EqDecision MatchResult.
Proof. solve_decision. Defined.

Record ECMAScriptCompileFlags := mk_compile_flags {
  flag_global : bool;
  flag_ignore_case : bool;
  flag_multiline : bool;
  flag_dot_all : bool;
  flag_unicode : bool;
  flag_unicode_sets : bool;
  flag_sticky : bool;
  flag_has_indices : bool;
}.

Class RegexEngine := {
  ECMAScriptRegex : Type;
  regex_compile : bytes → ECMAScriptCompileFlags → bytes + ECMAScriptRegex;
  regex_exec : ECMAScriptRegex → list Z → nat → MatchResult * (nat → Z);
  regex_test : ECMAScriptRegex → list Z → nat → MatchResult;
}.

(** After a match "even slots are start positions, odd slots are end positions",
    and an unmatched capture has -1.  A slot is an [int]. *)
Class RegexEngineOk `{RegexEngine} := {
  capture_slot_is_int : ∀ regex input start slots slot,
    regex_exec regex input start = (Match, slots) → slots slot < 2 ^ 31;
  capture_slots_in_input : ∀ regex input start slots index,
    regex_exec regex input start = (Match, slots) →
    slots (2 * index)%nat < 0 ∨ slots (2 * index + 1)%nat < 0
    ∨ 0 ≤ slots (2 * index)%nat ≤ slots (2 * index + 1)%nat ≤ Z.of_nat (length input);
}.

(** ** The public suffix list

    [is_public_suffix] looks a suffix with its labels reversed up in the array
    that Meta/Generators/generate_public_suffix_data.py fills at build time. *)
Class PublicSuffixData := {
  is_public_suffix : bytes → bool;
}.
