(* ===== verification/Utf8.v ===== *)
(** * UTF-8: AK/UnicodeUtils.h, AK/Utf8View.h and AK/Utf8View.cpp

    A [Utf8CodePointIterator] is a pointer and the number of bytes after it, so
    it is modelled by the suffix of the string it points at; [done()] is
    emptiness of the suffix. *)
From S2P Require Import Prelude CharacterTypes Externals.

(** ** Encoding: AK/UnicodeUtils.h *)
Definition bytes_to_store_code_point_in_utf8 (code_point : Z) : Z :=
  if code_point <=? 0x7f then 1
  else if code_point <=? 0x7ff then 2
  else if code_point <=? 0xffff then 3
  else if code_point <=? 0x10ffff then 4
  else 0.

(** The bytes given to the callback, in order, and the returned count. *)
Definition code_point_to_utf8 (code_point : Z) : bytes * Z :=
  if code_point <=? 0x7f then ([code_point], 1)
  else if code_point <=? 0x07ff then
    ([Z.lor (Z.land (Z.shiftr code_point 6) 0x1f) 0xc0;
      Z.lor (Z.land (Z.shiftr code_point 0) 0x3f) 0x80], 2)
  else if code_point <=? 0xffff then
    ([Z.lor (Z.land (Z.shiftr code_point 12) 0x0f) 0xe0;
      Z.lor (Z.land (Z.shiftr code_point 6) 0x3f) 0x80;
      Z.lor (Z.land (Z.shiftr code_point 0) 0x3f) 0x80], 3)
  else if code_point <=? 0x10ffff then
    ([Z.lor (Z.land (Z.shiftr code_point 18) 0x07) 0xf0;
      Z.lor (Z.land (Z.shiftr code_point 12) 0x3f) 0x80;
      Z.lor (Z.land (Z.shiftr code_point 6) 0x3f) 0x80;
      Z.lor (Z.land (Z.shiftr code_point 0) 0x3f) 0x80], 4)
  else ([], -1).

Definition REPLACEMENT_CODE_POINT : Z := 0xfffd.
Definition FIRST_SUPPLEMENTARY_PLANE_CODE_POINT : Z := 0x10000.

(** The number of UTF-16 code units of a code point. *)
Definition code_unit_length_for_code_point (code_point : Z) : nat :=
  if code_point <? FIRST_SUPPLEMENTARY_PLANE_CODE_POINT then 1%nat else 2%nat.

(** [StringBuilder::append_code_point] in UTF-8 mode: the bytes appended. *)
Definition append_code_point (builder : bytes) (code_point : Z) : bytes :=
  if is_unicode code_point then builder ++ (code_point_to_utf8 code_point).1
  else builder ++ (code_point_to_utf8 REPLACEMENT_CODE_POINT).1.

(** ** Decoding: AK/Utf8View.h *)
Record Utf8EncodedByteData := mk_byte_data {
  byte_length : nat;
  encoding_bits : Z;
  encoding_mask : Z;
  first_code_point : Z;
  last_code_point : Z;
}.

Definition utf8_encoded_byte_data : list Utf8EncodedByteData :=
  [ mk_byte_data 1 0x00 0x80 0x0000 0x007F;
    mk_byte_data 2 0xC0 0xE0 0x0080 0x07FF;
    mk_byte_data 3 0xE0 0xF0 0x0800 0xFFFF;
    mk_byte_data 4 0xF0 0xF8 0x10000 0x10FFFF ].

(** [Some (byte_length, code_point_bits)] when [is_valid]. *)
Fixpoint decode_leading_byte_in (table : list Utf8EncodedByteData) (byte : Z) : option (nat * Z) :=
  match table with
  | [] => None
  | data :: table =>
      if negb (Z.land byte (encoding_mask data) =? encoding_bits data)
      then decode_leading_byte_in table byte
      else Some (byte_length data, Z.ldiff byte (encoding_mask data))
  end.

Definition decode_leading_byte (byte : Z) : option (nat * Z) :=
  decode_leading_byte_in utf8_encoded_byte_data byte.

Definition is_extension_byte (b : Z) : bool := Z.shiftr b 6 =? 2.

(** [underlying_code_point_length_in_bytes] past its [VERIFY(m_length > 0)]. *)
Definition code_point_length (p : bytes) : nat :=
  match decode_leading_byte (default 0 (head p)) with
  | None => 1
  | Some (len, _) =>
      if (length p <? len)%nat then 1
      else if forallb is_extension_byte (take (len - 1) (tail p)) then len
      else 1
  end.

Definition underlying_code_point_length_in_bytes (p : bytes) : outcome nat :=
  match p with [] => VerifyFailed | _ => Returned (code_point_length p) end.

(** [operator++] *)
Definition iterator_next (p : bytes) : outcome bytes :=
  match p with
  | [] => VerifyFailed
  | b :: rest =>
      if b <=? 0x7F then Returned rest
      else
        let n := code_point_length p in
        if (length p <? n)%nat then Returned rest else Returned (drop n p)
  end.

Fixpoint decode_extension_bytes (value : Z) (ext : bytes) : option Z :=
  match ext with
  | [] => Some value
  | b :: ext =>
      if is_extension_byte b
      then decode_extension_bytes (Z.lor (Z.shiftl value 6) (Z.land b 63)) ext
      else None
  end.

(** [operator*] *)
Definition iterator_deref (p : bytes) : outcome Z :=
  match p with
  | [] => VerifyFailed
  | b :: rest =>
      if b <=? 0x7F then Returned b
      else match decode_leading_byte b with
      | None => Returned 0xFFFD
      | Some (len, bits) =>
          if (length p <? len)%nat then Returned 0xFFFD
          else match decode_extension_bytes bits (take (len - 1) rest) with
          | None => Returned 0xFFFD
          | Some value => if 0x10FFFF <? value then Returned 0xFFFD else Returned value
          end
      end
  end.

(** [for (auto code_point : Utf8View { s })]: the code points in order. *)
Fixpoint code_points_fuel (fuel : nat) (p : bytes) : list Z :=
  match fuel, p with
  | S fuel, _ :: _ =>
      match iterator_deref p, iterator_next p with
      | Returned c, Returned p' => c :: code_points_fuel fuel p'
      | _, _ => []
      end
  | _, _ => []
  end.

Definition code_points (s : bytes) : list Z := code_points_fuel (length s) s.

Arguments decode_leading_byte : simpl never.
Arguments iterator_deref : simpl never.
Arguments iterator_next : simpl never.
Arguments code_point_length : simpl never.
Arguments code_point_to_utf8 : simpl never.

(** ** Validation: AK/Utf8View.cpp and AK/String.cpp *)
Inductive AllowLonelySurrogates := AllowNo | AllowYes.

#[global] Instance AllowLonelySurrogates_eq_dec : EqDecision AllowLonelySurrogates.
Proof. solve_decision. Defined.

Section Validation.
Context `{Simdutf}.

(** [Utf8View::validate]: the result and [valid_bytes]. *)
Fixpoint validate_fuel (fuel : nat) (s : bytes) (allow : AllowLonelySurrogates)
    : outcome (bool * nat) :=
  match fuel with
  | O => OutOfFuel
  | S fuel =>
      let result := validate_utf8_with_errors s in
      let valid_bytes := count result in
      if bool_decide (error result = SURROGATE) && bool_decide (allow = AllowYes) then
        let valid_bytes := (valid_bytes + 3)%nat in
        verify (valid_bytes <=? length s)%nat (
          '(is_valid, substring_valid_bytes) ← validate_fuel fuel (drop valid_bytes s) allow;
          Returned (is_valid, (valid_bytes + substring_valid_bytes)%nat))
      else Returned (bool_decide (error result = SUCCESS), valid_bytes)
  end.

Definition utf8_validate (s : bytes) (allow : AllowLonelySurrogates) : outcome bool :=
  fst <$> validate_fuel (S (length s)) s allow.

(** [String::from_utf8]: [None] is the error. *)
Definition from_utf8 (view : bytes) : outcome (option bytes) :=
  valid ← utf8_validate view AllowYes;
  Returned (if valid : bool then Some view else None).

(** [String::from_utf8_with_replacement_character] with [WithBOMHandling::No]. *)
Definition from_utf8_with_replacement_character (view : bytes) : outcome bytes :=
  valid ← utf8_validate view AllowNo;
  Returned (
    if valid : bool then view
    else foldl (λ builder code_point,
           if is_unicode_surrogate code_point
           then append_code_point builder REPLACEMENT_CODE_POINT
           else append_code_point builder code_point) [] (code_points view)).

End Validation.

(** ** Facts about single bytes, by enumeration *)
Definition for_all_bytes (f : Z → bool) : bool := forallb f (seqZ 0 256).

Lemma for_all_bytes_spec f b : for_all_bytes f = true → is_byte b → f b = true.
Proof.
  unfold for_all_bytes, is_byte. rewrite forallb_forall. intros Hf Hb.
  apply Hf, list_elem_of_In, elem_of_seqZ. lia.
Qed.

Definition leading_byte_reference (b : Z) : option (nat * Z) :=
  if b <? 0x80 then Some (1%nat, b)
  else if b <? 0xC0 then None
  else if b <? 0xE0 then Some (2%nat, b - 0xC0)
  else if b <? 0xF0 then Some (3%nat, b - 0xE0)
  else if b <? 0xF8 then Some (4%nat, b - 0xF0)
  else None.

Lemma decode_leading_byte_spec b :
  is_byte b → decode_leading_byte b = leading_byte_reference b.
Proof.
  intros Hb.
  eapply (for_all_bytes_spec (λ b,
    bool_decide (decode_leading_byte b = leading_byte_reference b))) in Hb.
  - by apply bool_decide_eq_true in Hb.
  - vm_compute. reflexivity.
Qed.

Lemma is_extension_byte_spec b :
  is_byte b → is_extension_byte b = (0x80 <=? b) && (b <? 0xC0).
Proof.
  intros Hb. apply eqb_prop. revert Hb.
  apply (for_all_bytes_spec (λ b, eqb (is_extension_byte b) ((0x80 <=? b) && (b <? 0xC0)))).
  vm_compute. reflexivity.
Qed.

Lemma decode_leading_byte_length b n v :
  decode_leading_byte b = Some (n, v) → (1 ≤ n ≤ 4)%nat.
Proof.
  unfold decode_leading_byte, utf8_encoded_byte_data. simpl.
  repeat case_match; naive_solver lia.
Qed.

(** ** The iterator always makes progress *)
Lemma code_point_length_bounds p :
  p ≠ [] → (1 ≤ code_point_length p ≤ length p)%nat.
Proof.
  intros Hp. assert (1 ≤ length p)%nat by (destruct p; simpl; [done|lia]).
  unfold code_point_length. destruct (decode_leading_byte _) as [[n v]|] eqn:E; [|lia].
  apply decode_leading_byte_length in E. repeat case_match; bool_to_prop; lia.
Qed.

(** The number of bytes [operator++] skips. *)
Definition iterator_step (p : bytes) : nat :=
  if default 0 (head p) <=? 0x7F then 1%nat else code_point_length p.

Lemma iterator_step_bounds p : p ≠ [] → (1 ≤ iterator_step p ≤ length p)%nat.
Proof.
  intros Hp. unfold iterator_step. pose proof (code_point_length_bounds p Hp).
  case_match; lia.
Qed.

Lemma iterator_next_drop p : p ≠ [] → iterator_next p = Returned (drop (iterator_step p) p).
Proof.
  intros Hp. pose proof (code_point_length_bounds p Hp). unfold iterator_next, iterator_step.
  destruct p as [|b p]; [done|]. simpl default. case_match; [done|].
  case_match; bool_to_prop; [lia|done].
Qed.

Lemma iterator_deref_returns p : p ≠ [] → returns (iterator_deref p).
Proof.
  intros Hp. destruct p as [|b p]; [done|]. unfold iterator_deref.
  repeat case_match; eauto with ladybird.
Qed.

Lemma code_points_fuel_enough fuel p :
  (length p ≤ fuel)%nat → code_points_fuel fuel p = code_points p.
Proof.
  unfold code_points. revert p.
  induction fuel as [fuel IH] using lt_wf_ind. intros p Hlen.
  destruct p as [|b p]; [by destruct fuel|].
  destruct fuel as [|fuel]; [simpl in Hlen; lia|].
  destruct (iterator_deref_returns (b :: p)) as [c Hc]; [done|].
  pose proof (iterator_step_bounds (b :: p)) as Hs.
  specialize (Hs ltac:(done)). simpl in Hs, Hlen.
  simpl length. simpl. rewrite Hc, iterator_next_drop by done.
  f_equal. assert (length (drop (iterator_step (b :: p)) (b :: p)) ≤ length p)%nat as Hd.
  { rewrite length_drop. simpl. lia. }
  rewrite (IH fuel) by lia. symmetry. apply IH; lia.
Qed.

(** Iterating a non-empty view yields the dereferenced code point and goes on
    after the bytes [operator++] skips. *)
Lemma code_points_unfold p c :
  p ≠ [] → iterator_deref p = Returned c →
  code_points p = c :: code_points (drop (iterator_step p) p).
Proof.
  intros Hp Hc. unfold code_points at 1. destruct p as [|b p]; [done|].
  simpl length. simpl. rewrite Hc, iterator_next_drop by done. f_equal.
  apply code_points_fuel_enough. rewrite length_drop.
  pose proof (iterator_step_bounds (b :: p) Hp). simpl in *. lia.
Qed.

Lemma code_points_length p : (length (code_points p) ≤ length p)%nat.
Proof.
  induction p as [p IH] using (induction_ltof1 _ (@length Z)). unfold ltof in IH.
  destruct p as [|b p]; [done|].
  destruct (iterator_deref_returns (b :: p)) as [c Hc]; [done|].
  rewrite (code_points_unfold (b :: p) c) by done.
  pose proof (iterator_step_bounds (b :: p) ltac:(done)) as Hs.
  specialize (IH (drop (iterator_step (b :: p)) (b :: p))).
  rewrite length_drop in IH. simpl in *. lia.
Qed.

(** ASCII text is iterated byte by byte. *)
Lemma code_points_ascii_cons b p :
  is_ascii b = true → code_points (b :: p) = b :: code_points p.
Proof.
  unfold is_ascii. intros Hb.
  assert (iterator_deref (b :: p) = Returned b) as Hd.
  { unfold iterator_deref. case_match; [done|lia]. }
  rewrite (code_points_unfold (b :: p) b) by done. f_equal.
  unfold iterator_step. simpl. case_match; [done|lia].
Qed.

Lemma code_points_ascii s : forallb is_ascii s = true → code_points s = s.
Proof.
  induction s as [|b s IH]; [done|]. simpl. intros [Hb Hs]%andb_prop.
  rewrite code_points_ascii_cons by done. by rewrite IH.
Qed.

(** ** Decoding what was encoded *)
Lemma utf8_tail_byte c k :
  0 ≤ c → 0 ≤ k → Z.lor (Z.land (Z.shiftr c k) 0x3f) 0x80 = 0x80 + (c / 2 ^ k) mod 64.
Proof.
  intros Hc Hk. rewrite Z.shiftr_div_pow2 by done.
  change 0x3f with (Z.ones 6). rewrite land_ones_mod by lia.
  rewrite Z.lor_comm. change 0x80 with (2 * 2 ^ 6).
  rewrite lor_disjoint_add; [done|lia..|]. apply Z.mod_pos_bound. lia.
Qed.

Lemma utf8_lead_byte c k n m :
  0 ≤ c → 0 ≤ k → 0 ≤ n → 0 ≤ m →
  Z.lor (Z.land (Z.shiftr c k) (Z.ones n)) (m * 2 ^ n) = m * 2 ^ n + (c / 2 ^ k) mod 2 ^ n.
Proof.
  intros. rewrite Z.shiftr_div_pow2, land_ones_mod by done.
  rewrite Z.lor_comm, lor_disjoint_add; [done|done..|].
  apply Z.mod_pos_bound. lia.
Qed.

(** The encoder as arithmetic. *)
Lemma code_point_to_utf8_arith c : 0 ≤ c ≤ 0x10FFFF → (code_point_to_utf8 c).1 = utf8_form c.
Proof.
  intros Hc. unfold code_point_to_utf8, utf8_form.
  destruct (c <=? 0x7f) eqn:E1; [done|].
  destruct (c <=? 0x7ff) eqn:E2; bool_to_prop.
  { cbn [fst]. rewrite utf8_tail_byte by lia. change 0x1f with (Z.ones 5).
    change 0xc0 with (6 * 2 ^ 5). rewrite utf8_lead_byte by lia.
    change (2 ^ 0) with 1. change (2 ^ 6) with 64. change (2 ^ 5) with 32.
    rewrite Z.div_1_r, (Z.mod_small (c / 64) 32) by div_lia. done. }
  destruct (c <=? 0xffff) eqn:E3; bool_to_prop.
  { cbn [fst]. rewrite !utf8_tail_byte by lia. change 0x0f with (Z.ones 4).
    change 0xe0 with (14 * 2 ^ 4). rewrite utf8_lead_byte by lia.
    change (2 ^ 0) with 1. change (2 ^ 6) with 64. change (2 ^ 12) with 4096.
    change (2 ^ 4) with 16. rewrite Z.div_1_r, (Z.mod_small (c / 4096) 16) by div_lia. done. }
  destruct (c <=? 0x10ffff) eqn:E4; bool_to_prop; [|lia].
  cbn [fst]. rewrite !utf8_tail_byte by lia. change 0x07 with (Z.ones 3).
  change 0xf0 with (30 * 2 ^ 3). rewrite utf8_lead_byte by lia.
  change (2 ^ 0) with 1. change (2 ^ 6) with 64. change (2 ^ 12) with 4096.
  change (2 ^ 18) with 262144. change (2 ^ 3) with 8.
  rewrite Z.div_1_r, (Z.mod_small (c / 262144) 8) by div_lia. done.
Qed.

Lemma shift_in_extension v b :
  0 ≤ v → 0x80 ≤ b < 0xC0 → Z.lor (Z.shiftl v 6) (Z.land b 63) = v * 64 + (b - 0x80).
Proof.
  intros Hv Hb. rewrite Z.shiftl_mul_pow2 by lia. change 63 with (Z.ones 6).
  rewrite land_ones_mod by lia. change (2 ^ 6) with 64.
  replace (b mod 64) with (b - 0x80) by div_lia. change 64 with (2 ^ 6).
  rewrite lor_disjoint_add; lia.
Qed.

Lemma decode_extension_bytes_cons v b ext :
  0 ≤ v → 0x80 ≤ b < 0xC0 →
  decode_extension_bytes v (b :: ext) = decode_extension_bytes (v * 64 + (b - 0x80)) ext.
Proof.
  intros. simpl. rewrite is_extension_byte_spec by (unfold is_byte; lia).
  rewrite shift_in_extension by lia. case_match; [done|lia].
Qed.

Lemma code_point_length_multibyte b rest n v :
  decode_leading_byte b = Some (n, v) → (n - 1 ≤ length rest)%nat →
  forallb is_extension_byte (take (n - 1) rest) = true →
  code_point_length (b :: rest) = n.
Proof.
  intros Hl Hlen Hext. pose proof (decode_leading_byte_length _ _ _ Hl).
  unfold code_point_length. simpl. rewrite Hl, Hext.
  case_match; bool_to_prop; simpl in *; [lia|done].
Qed.

Lemma iterator_deref_multibyte b rest n v value :
  0x7F < b → decode_leading_byte b = Some (n, v) → (n - 1 ≤ length rest)%nat →
  decode_extension_bytes v (take (n - 1) rest) = Some value → value ≤ 0x10FFFF →
  iterator_deref (b :: rest) = Returned value.
Proof.
  intros Hb Hl Hlen Hext Hv. pose proof (decode_leading_byte_length _ _ _ Hl).
  unfold iterator_deref. rewrite Hl, Hext.
  repeat case_match; bool_to_prop; simpl in *; try lia; done.
Qed.

Lemma decode_extension_bytes_ext v ext value :
  decode_extension_bytes v ext = Some value → forallb is_extension_byte ext = true.
Proof.
  revert v. induction ext as [|b ext IH]; [done|]. simpl. intros v.
  case_match; [by apply IH|done].
Qed.

(** The shared shape of the three multi-byte cases below. *)
Lemma decode_multibyte b ext rest n v value :
  0x7F < b → is_byte b → leading_byte_reference b = Some (n, v) → length ext = (n - 1)%nat →
  decode_extension_bytes v ext = Some value → value ≤ 0x10FFFF →
  iterator_deref (b :: ext ++ rest) = Returned value
  ∧ iterator_step (b :: ext ++ rest) = S (length ext).
Proof.
  intros Hb Hbyte Hl Hlen Hext Hv. rewrite <-decode_leading_byte_spec in Hl by done.
  pose proof (decode_leading_byte_length _ _ _ Hl).
  assert (take (n - 1) (ext ++ rest) = ext) as Htake by (rewrite <-Hlen; apply take_app_length).
  split.
  - eapply iterator_deref_multibyte; [done..| |rewrite Htake; done|done].
    rewrite length_app. lia.
  - unfold iterator_step. simpl. case_match; bool_to_prop; [lia|].
    erewrite code_point_length_multibyte; [..|done| |]; [lia|rewrite length_app; lia|].
    rewrite Htake. by eapply decode_extension_bytes_ext.
Qed.

Lemma decode_encoded c rest :
  0 ≤ c ≤ 0x10FFFF →
  iterator_deref ((code_point_to_utf8 c).1 ++ rest) = Returned c
  ∧ iterator_step ((code_point_to_utf8 c).1 ++ rest) = length (code_point_to_utf8 c).1.
Proof.
  intros Hc. rewrite code_point_to_utf8_arith by done. unfold utf8_form.
  destruct (c <=? 0x7f) eqn:E1; bool_to_prop.
  { unfold iterator_deref, iterator_step. simpl. case_match; [done|lia]. }
  destruct (c <=? 0x7ff) eqn:E2; bool_to_prop.
  { refine (decode_multibyte _ [_] rest 2 (c / 64) c _ _ _ _ _ _); [div_lia|unfold is_byte; div_lia| |done| |lia].
    - unfold leading_byte_reference. repeat case_match; bool_to_prop; try div_lia. do 2 f_equal; lia.
    - rewrite decode_extension_bytes_cons by div_lia. simpl. f_equal. div_lia. }
  destruct (c <=? 0xffff) eqn:E3; bool_to_prop.
  { refine (decode_multibyte _ [_; _] rest 3 (c / 4096) c _ _ _ _ _ _); [div_lia|unfold is_byte; div_lia| |done| |lia].
    - unfold leading_byte_reference. repeat case_match; bool_to_prop; try div_lia. do 2 f_equal; lia.
    - rewrite !decode_extension_bytes_cons by div_lia. simpl. f_equal. div_lia. }
  refine (decode_multibyte _ [_; _; _] rest 4 (c / 262144) c _ _ _ _ _ _); [div_lia|unfold is_byte; div_lia| |done| |lia].
  - unfold leading_byte_reference. repeat case_match; bool_to_prop; try div_lia. do 2 f_equal; lia.
  - rewrite !decode_extension_bytes_cons by div_lia. simpl. f_equal. div_lia.
Qed.

Lemma code_point_to_utf8_nonempty c : 0 ≤ c ≤ 0x10FFFF → (code_point_to_utf8 c).1 ≠ [].
Proof. intros Hc. rewrite code_point_to_utf8_arith by done. unfold utf8_form. repeat case_match; done. Qed.

Lemma code_points_encoded c rest :
  0 ≤ c ≤ 0x10FFFF →
  code_points ((code_point_to_utf8 c).1 ++ rest) = c :: code_points rest.
Proof.
  intros Hc. destruct (decode_encoded c rest Hc) as [Hd Hs].
  rewrite (code_points_unfold _ c); [|by intros [?%code_point_to_utf8_nonempty ?]%app_nil|done].
  by rewrite Hs, drop_app_length.
Qed.

(** The bytes [StringBuilder::append_code_point] writes for a sequence. *)
Definition utf8_encode (cps : list Z) : bytes := foldl append_code_point [] cps.

Lemma foldl_append_code_point cps acc :
  foldl append_code_point acc cps = acc ++ utf8_encode cps.
Proof.
  unfold utf8_encode. revert acc. induction cps as [|c cps IH]; intros acc; simpl.
  - by rewrite app_nil_r.
  - rewrite IH, (IH (append_code_point [] c)). unfold append_code_point.
    case_match; by rewrite <-app_assoc.
Qed.

Lemma utf8_encode_cons c cps :
  is_unicode c = true → utf8_encode (c :: cps) = (code_point_to_utf8 c).1 ++ utf8_encode cps.
Proof.
  intros Hc. unfold utf8_encode at 1. simpl. rewrite foldl_append_code_point.
  unfold append_code_point. by rewrite Hc.
Qed.

Lemma utf8_encode_form cps :
  Forall (λ c, 0 ≤ c ≤ 0x10FFFF) cps → utf8_encode cps = flat_map utf8_form cps.
Proof.
  induction 1 as [|c cps Hc Hcps IH]; [done|].
  rewrite utf8_encode_cons by (unfold is_unicode; lia).
  cbn [flat_map]. by rewrite code_point_to_utf8_arith, IH.
Qed.

Lemma code_points_utf8_form cps :
  Forall (λ c, 0 ≤ c ≤ 0x10FFFF) cps → code_points (flat_map utf8_form cps) = cps.
Proof.
  induction 1 as [|c cps Hc H IH]; [done|]. cbn [flat_map].
  by rewrite <-code_point_to_utf8_arith, code_points_encoded, IH.
Qed.

(** writing code points with [append_code_point] and reading the bytes back
    with [Utf8CodePointIterator] gives the same code points, for every sequence
    of code points up to U+10FFFF, surrogates included. *)
Theorem utf8_roundtrip (cps : list Z) (H : Forall (λ c, 0 ≤ c ≤ 0x10FFFF) cps) :
  code_points (utf8_encode cps) = cps.
Proof. by rewrite utf8_encode_form, code_points_utf8_form. Qed.

Lemma utf8_roundtrip_witness :
  Forall (λ c, 0 ≤ c ≤ 0x10FFFF) [0x41; 0xE9; 0x20AC; 0x1F41E; 0xD800]
  ∧ code_points (utf8_encode [0x41; 0xE9; 0x20AC; 0x1F41E; 0xD800])
    = [0x41; 0xE9; 0x20AC; 0x1F41E; 0xD800].
Proof. split; [repeat constructor; lia|]. apply utf8_roundtrip. repeat constructor; lia. Defined.

(** The iterator does not look at [first_code_point]/[last_code_point] of its
    table, so the overlong two-byte form of every ASCII character is decoded to
    that character, and [String::from_utf8_with_replacement_character] turns such
    an invalid input into the plain ASCII byte instead of U+FFFD. *)
Theorem overlong_form_becomes_ascii `{Simdutf} (c : Z) (Hc : 0 ≤ c < 0x80)
    (Hinvalid : error (validate_utf8_with_errors [0xC0 + c / 64; 0x80 + c mod 64]) = OVERLONG) :
  code_points [0xC0 + c / 64; 0x80 + c mod 64] = [c]
  ∧ from_utf8_with_replacement_character [0xC0 + c / 64; 0x80 + c mod 64] = Returned [c].
Proof.
  assert (iterator_deref [0xC0 + c / 64; 0x80 + c mod 64] = Returned c
    ∧ iterator_step [0xC0 + c / 64; 0x80 + c mod 64] = 2%nat) as [Hd Hs].
  { apply (decode_multibyte (0xC0 + c / 64) [0x80 + c mod 64] [] 2 (c / 64) c);
      [div_lia|unfold is_byte; div_lia| |done| |lia].
    - unfold leading_byte_reference. repeat case_match; bool_to_prop; try div_lia.
      do 2 f_equal; lia.
    - rewrite decode_extension_bytes_cons by div_lia. simpl. f_equal. div_lia. }
  assert (code_points [0xC0 + c / 64; 0x80 + c mod 64] = [c]) as Hcp.
  { by rewrite (code_points_unfold _ c), Hs. }
  split; [done|].
  unfold from_utf8_with_replacement_character, utf8_validate. simpl. rewrite Hinvalid. simpl.
  rewrite Hcp. simpl. unfold is_unicode_surrogate, append_code_point, is_unicode, code_point_to_utf8.
  repeat case_match; bool_to_prop; simpl; try lia; done.
Qed.

(** A validator that decodes its input and compares the code points' encodings
    with it. *)
Definition is_well_formed (s : bytes) : bool :=
  forallb (λ c, (0 <=? c) && (c <=? 0x10FFFF) && negb (is_unicode_surrogate c)) (code_points s)
  && bool_decide (flat_map utf8_form (code_points s) = s).

Definition simdutf_example : Simdutf := {|
  validate_utf8_with_errors s :=
    if forallb is_ascii s || is_well_formed s then mk_simdutf_result SUCCESS (length s)
    else mk_simdutf_result OVERLONG 0;
  validate_ascii s := forallb is_ascii s;
  simdutf_find s c := default (length s) (fst <$> list_find (c =.) s);
  count_utf8 s := length (code_points s);
|}.

Lemma is_well_formed_spec s : is_well_formed s = true ↔ valid_utf8 s.
Proof.
  unfold is_well_formed. rewrite andb_true_iff, bool_decide_eq_true, forallb_Forall. split.
  - intros [Hcps Hs]. exists (code_points s). split; [|done]. eapply Forall_impl; [done|].
    intros c Hc. cbv beta in Hc. unfold is_scalar. bool_to_prop. split; [lia|done].
  - intros (cps & Hcps & ->). rewrite code_points_utf8_form.
    2:{ eapply Forall_impl; [done|]. by intros c []. }
    split; [|done]. eapply Forall_impl; [done|]. intros c [Hc Hs]. cbv beta. rewrite Hs. lia.
Qed.

Lemma ascii_valid_utf8 s : Forall is_byte s → forallb is_ascii s = true → valid_utf8 s.
Proof.
  intros Hb Hs. exists s. rewrite forallb_Forall in Hs. split.
  - apply Forall_forall. intros c Hc. rewrite Forall_forall in Hb, Hs.
    specialize (Hb c Hc). specialize (Hs c Hc). unfold is_byte, is_scalar in *. unfold_ctypes. lia.
  - clear Hb. induction Hs as [|c s Hc Hs IH]; [done|]. cbn [flat_map]. rewrite <-IH.
    unfold utf8_form. unfold_ctypes. case_match; [done|lia].
Qed.

Lemma simdutf_example_ok : @SimdutfOk simdutf_example.
Proof.
  constructor; simpl.
  - intros s Hs. by rewrite Hs.
  - intros s Hb. destruct (forallb is_ascii s) eqn:Ea; cbn [orb].
    + split; [|done]. intros _. by apply ascii_valid_utf8.
    + rewrite <-is_well_formed_spec. by destruct (is_well_formed s).
  - done.
  - intros s. case_match; done.
  - intros s c. destruct (list_find _ s) as [[i x]|] eqn:E; simpl; [|lia].
    apply list_find_Some in E as (?%lookup_lt_Some & _). lia.
  - intros s c i Hi Hc. destruct (list_find _ s) as [[j x]|] eqn:E; simpl in Hi.
    + apply list_find_Some in E as (_ & _ & Hmin). by apply (Hmin i c).
    + apply list_find_None in E. rewrite Forall_lookup in E. by eapply E.
  - intros s c. destruct (list_find _ s) as [[j x]|] eqn:E; simpl; [|lia].
    apply list_find_Some in E as (? & -> & _). done.
  - intros cps Hcps. rewrite code_points_utf8_form; [done|].
    eapply Forall_impl; [done|]. by intros c [].
Qed.

Lemma overlong_form_becomes_ascii_witness :
  @from_utf8_with_replacement_character simdutf_example [0xC0; 0xAF] = Returned [c_slash].
Proof.
  apply (@overlong_form_becomes_ascii simdutf_example c_slash); [lia|].
  vm_compute. reflexivity.
Defined.

(** ** Validation of ASCII text *)
Section ValidateAscii.
Context `{SimdutfOk}.

Lemma utf8_validate_ascii s allow :
  forallb is_ascii s = true → utf8_validate s allow = Returned true.
Proof.
  intros Hs%validate_utf8_ascii. unfold utf8_validate. simpl. rewrite Hs. done.
Qed.

Lemma from_utf8_ascii s : forallb is_ascii s = true → from_utf8 s = Returned (Some s).
Proof. intros Hs. unfold from_utf8. by rewrite utf8_validate_ascii. Qed.

(** [Utf8View::validate] returns: the recursion past a surrogate consumes input. *)
Lemma validate_fuel_returns fuel s allow :
  (length s < fuel)%nat → returns (validate_fuel fuel s allow).
Proof.
  revert s. induction fuel as [|fuel IH]; intros s Hfuel; [lia|]. simpl.
  destruct (bool_decide (error _ = SURROGATE)) eqn:E; simpl; [|eauto with ladybird].
  apply bool_decide_eq_true in E. pose proof (validate_utf8_surrogate s E) as Hcount.
  case_match; [|eauto with ladybird]. unfold verify. case_match; bool_to_prop; [|lia].
  apply returns_bind; [apply IH; rewrite length_drop; lia|].
  intros [ok n] _. eauto with ladybird.
Qed.

Lemma from_utf8_with_replacement_character_returns s :
  returns (from_utf8_with_replacement_character s).
Proof.
  unfold from_utf8_with_replacement_character. apply returns_bind; [|eauto with ladybird].
  unfold utf8_validate. destruct (validate_fuel_returns (S (length s)) s AllowNo) as [r ->]; [lia|].
  eauto with ladybird.
Qed.

End ValidateAscii.

(** ** Well-formed text *)
Lemma utf8_form_shape c :
  0 ≤ c ≤ 0x10FFFF →
  ∃ b ext, utf8_form c = b :: ext ∧ is_byte b ∧ Forall (λ e, 0x80 ≤ e < 0xC0) ext
    ∧ (c < 0x80 → b = c ∧ ext = []) ∧ (0x80 ≤ c → 0xC0 ≤ b).
Proof.
  intros Hc. unfold utf8_form, is_byte. repeat case_match; bool_to_prop;
    (eexists _, _; split_and!; [done|div_lia|div_lia| |intros; split; [lia|done] || lia|intros; div_lia]).
  all: repeat constructor; div_lia.
Qed.

Lemma utf8_form_bytes cps : Forall (λ c, 0 ≤ c ≤ 0x10FFFF) cps → Forall is_byte (flat_map utf8_form cps).
Proof.
  induction 1 as [|c cps Hc Hcps IH]; [constructor|]. cbn [flat_map]. apply Forall_app. split; [|done].
  destruct (utf8_form_shape c Hc) as (b & ext & -> & Hb & Hext & _). constructor; [done|].
  eapply Forall_impl; [done|]. unfold is_byte. intros e ?. simpl in *. lia.
Qed.

Lemma is_scalar_range cps : Forall is_scalar cps → Forall (λ c, 0 ≤ c ≤ 0x10FFFF) cps.
Proof. intros Hcps. eapply Forall_impl; [done|]. by intros c []. Qed.

Lemma valid_utf8_bytes s : valid_utf8 s → Forall is_byte s.
Proof. intros (cps & Hcps & ->). by apply utf8_form_bytes, is_scalar_range. Qed.

Lemma valid_utf8_tail c s : c < 0x80 → valid_utf8 (c :: s) → valid_utf8 s.
Proof.
  intros Hc (cps & Hcps & Hs). destruct Hcps as [|x cps Hx Hcps]; [done|]. exists cps. split; [done|].
  cbn [flat_map] in Hs. destruct (utf8_form_shape x (proj1 Hx)) as (b & ext & Hf & _ & _ & Hlow & Hhigh).
  rewrite Hf in Hs. injection Hs as <- Hs. destruct (Z.lt_ge_cases x 0x80) as [Hl|Hl].
  - by destruct (Hlow Hl) as [_ ->].
  - specialize (Hhigh Hl). lia.
Qed.

Lemma valid_utf8_snoc s b : b < 0x80 → valid_utf8 (s ++ [b]) → valid_utf8 s.
Proof.
  intros Hb (cps & Hcps & Hs). destruct cps as [|c cps _] using rev_ind; [by destruct s|].
  apply Forall_app in Hcps as [Hcps [Hc _]%Forall_cons]. exists cps. split; [done|].
  rewrite flat_map_app in Hs. cbn [flat_map] in Hs. rewrite app_nil_r in Hs.
  apply (f_equal last) in Hs as Hl. rewrite last_snoc, last_app in Hl. assert (utf8_form c = [b]) as Hf.
  { revert Hl. unfold utf8_form. destruct (c <=? 0x7f); [by intros [= <-]|].
    destruct (c <=? 0x7ff); [|destruct (c <=? 0xffff)]; cbn [last]; intros [= Hl]; pose proof (Z.mod_pos_bound c 64); lia. }
  rewrite Hf in Hs. by apply app_inj_tail in Hs as [-> _].
Qed.

(** At every offset of well-formed text, also inside a sequence, a byte above
    0x7F is not decoded to an ASCII character. *)
Lemma valid_utf8_deref s i b c :
  valid_utf8 s → s !! i = Some b → iterator_deref (drop i s) = Returned c →
  (b < 0x80 ∧ c = b) ∨ (0x80 ≤ b ∧ 0x80 ≤ c ≤ 0x10FFFF).
Proof.
  intros (cps & Hcps%is_scalar_range & ->) Hb Hd.
  assert (is_byte b) as Hbyte.
  { eapply Forall_lookup_1; [by apply utf8_form_bytes|exact Hb]. }
  pose proof (drop_S _ _ _ Hb) as Hdrop. rewrite Hdrop in Hd.
  destruct (Z.lt_ge_cases b 0x80) as [Hlt|Hge].
  { left. split; [done|]. unfold iterator_deref in Hd.
    destruct (Z.leb_spec b 0x7F); [by injection Hd|lia]. }
  right. split; [done|]. rewrite <-Hdrop in Hd. clear Hdrop. revert i Hb Hd.
  induction Hcps as [|c0 cps Hc0 Hcps IH]; intros i Hb Hd; [done|]. cbn [flat_map] in Hb, Hd.
  destruct (utf8_form_shape c0 Hc0) as (b0 & ext & Hf & _ & Hext & Hlow & Hhigh).
  destruct (Nat.lt_ge_cases i (length (utf8_form c0))) as [Hi|Hi].
  - destruct i as [|i].
    + rewrite drop_0, <-code_point_to_utf8_arith in Hd by done.
      rewrite (proj1 (decode_encoded c0 _ Hc0)) in Hd. injection Hd as <-.
      rewrite Hf in Hb. injection Hb as ->.
      destruct (Z.lt_ge_cases c0 0x80) as [Hlt|]; [destruct (Hlow Hlt); lia|lia].
    + rewrite drop_app_le in Hd by lia. rewrite lookup_app_l in Hb by done. rewrite Hf in Hb, Hd.
      cbn [lookup list_lookup] in Hb. cbn [drop] in Hd.
      assert (0x80 ≤ b < 0xC0) as Hb' by (by eapply (Forall_lookup_1 (λ e, 0x80 ≤ e < 0xC0))).
      rewrite (drop_S _ _ _ Hb) in Hd. cbn [app] in Hd. unfold iterator_deref in Hd.
      rewrite decode_leading_byte_spec in Hd by done. unfold leading_byte_reference in Hd.
      repeat case_match; simplify_eq; bool_to_prop; lia.
  - apply (IH (i - length (utf8_form c0))%nat).
    + by rewrite lookup_app_r in Hb.
    + by rewrite drop_app_ge in Hd.
Qed.

(** No sequence extends over an ASCII byte. *)
Lemma code_point_length_ascii p k b :
  Forall is_byte p → p !! k = Some b → b < 0x80 → (code_point_length p ≤ Nat.max 1 k)%nat.
Proof.
  intros Hp Hk Hb. unfold code_point_length.
  destruct (decode_leading_byte _) as [[n v]|] eqn:E; [|lia].
  destruct (length p <? n)%nat; [lia|]. case_match eqn:Ext; [|lia].
  destruct p as [|x p]; [done|]. apply Forall_cons in Hp as [Hx Hp]. cbn [head default] in E. unfold id in E.
  destruct k as [|k]; cbn [lookup list_lookup tail] in *.
  - injection Hk as ->. rewrite decode_leading_byte_spec in E by done. unfold leading_byte_reference in E.
    destruct (Z.ltb_spec b 0x80); [simplify_eq; lia|lia].
  - destruct (Nat.le_gt_cases n (S k)) as [|Hn]; [lia|]. exfalso.
    rewrite forallb_forall in Ext. assert (b ∈ take (n - 1) p) as Hin.
    { apply (list_elem_of_lookup_2 _ k). by rewrite lookup_take_lt by lia. }
    apply list_elem_of_In, Ext in Hin.
    rewrite is_extension_byte_spec in Hin by (by eapply Forall_lookup_1). lia.
Qed.

(** [operator++] does not skip an ASCII byte. *)
Lemma iterator_step_ascii p k b :
  Forall is_byte p → p !! k = Some b → b < 0x80 → (0 < k)%nat → (iterator_step p ≤ k)%nat.
Proof.
  intros Hp Hk Hb Hk0. unfold iterator_step. case_match; [lia|].
  pose proof (code_point_length_ascii p k b Hp Hk Hb). lia.
Qed.

(** A code point that takes two UTF-16 code units takes several bytes. *)
Lemma code_point_length_units p c :
  p ≠ [] → Forall is_byte p → iterator_deref p = Returned c →
  (code_unit_length_for_code_point c ≤ code_point_length p)%nat.
Proof.
  intros Hp Hb Hd. pose proof (code_point_length_bounds p Hp). unfold code_unit_length_for_code_point.
  unfold FIRST_SUPPLEMENTARY_PLANE_CODE_POINT. destruct (Z.ltb_spec c 0x10000) as [|Hc]; [lia|].
  destruct p as [|b p]; [done|]. apply Forall_cons in Hb as [Hb _]. unfold is_byte in Hb.
  unfold iterator_deref in Hd.
  destruct (b <=? 0x7F) eqn:E7; bool_to_prop; [simplify_eq; lia|].
  unfold code_point_length. cbn [head default tail]. unfold id.
  destruct (decode_leading_byte b) as [[n v]|] eqn:El; [|simplify_eq; lia].
  destruct (length (b :: p) <? n)%nat; [simplify_eq; lia|].
  destruct (decode_extension_bytes v (take (n - 1) p)) as [value|] eqn:Ee; [|simplify_eq; lia].
  assert (forallb is_extension_byte (take (n - 1) p) = true) as ->.
  { clear -Ee. revert v Ee. generalize (take (n - 1) p). intros l. induction l as [|x l IH]; [done|].
    intros v. cbn [decode_extension_bytes forallb]. destruct (is_extension_byte x); [|done]. apply IH. }
  rewrite decode_leading_byte_spec in El by (unfold is_byte; lia). unfold leading_byte_reference in El.
  repeat case_match; simplify_eq; bool_to_prop; lia.
Qed.

Section ReplacementCharacter.
Context `{SimdutfOk}.

(** The result of the conversion is well-formed for every input. *)
Lemma from_utf8_with_replacement_character_valid s :
  Forall is_byte s → Forall (λ c, 0 ≤ c ≤ 0x10FFFF) (code_points s) →
  ∃ out, from_utf8_with_replacement_character s = Returned out ∧ valid_utf8 out.
Proof.
  intros Hb Hcps. unfold from_utf8_with_replacement_character, utf8_validate. simpl.
  rewrite andb_false_r. cbn [fmap outcome_fmap mbind outcome_bind fst].
  case_bool_decide as Hv; [by exists s; split; [|apply validate_utf8_spec]|].
  eexists. split; [done|].
  exists ((λ c, if is_unicode_surrogate c then REPLACEMENT_CODE_POINT else c) <$> code_points s). split.
  - apply Forall_fmap. eapply Forall_impl; [done|]. intros c Hc. unfold is_scalar. simpl.
    destruct (is_unicode_surrogate c) eqn:E; [by split|done].
  - rewrite <-utf8_encode_form.
    + unfold utf8_encode. generalize (@nil Z). induction Hcps as [|c cps Hc Hcps IH]; intros acc; [done|].
      cbn [foldl fmap list_fmap]. rewrite IH. by case_match.
    + apply Forall_fmap. eapply Forall_impl; [done|]. intros c Hc. simpl. by case_match.
Qed.

(** Removing ASCII characters keeps text well-formed. *)
Lemma valid_utf8_filter f s :
  (∀ c, 0x80 ≤ c → f c = true) → valid_utf8 s → valid_utf8 (List.filter f s).
Proof.
  intros Hf (cps & Hcps & ->). exists (List.filter f cps). split.
  { apply List.Forall_forall. intros c [Hc _]%filter_In. rewrite List.Forall_forall in Hcps. auto. }
  pose proof (is_scalar_range _ Hcps) as Hr. clear Hcps.
  induction Hr as [|c cps Hc Hr IH]; [done|]. cbn [flat_map List.filter]. rewrite List.filter_app, IH.
  destruct (utf8_form_shape c Hc) as (b & ext & Hform & _ & Hext & Hlow & Hhigh).
  destruct (Z.lt_ge_cases c 0x80) as [Hlt|Hge].
  - destruct (Hlow Hlt) as [-> ->]. rewrite Hform. cbn [List.filter]. destruct (f c); [|done].
    cbn [flat_map]. by rewrite Hform.
  - rewrite (Hf c) by done. cbn [flat_map]. f_equal. rewrite Hform. specialize (Hhigh Hge).
    cbn [List.filter]. rewrite Hf by lia. f_equal.
    clear -Hext Hf. induction Hext as [|e ext He Hext IH]; [done|]. cbn [List.filter].
    rewrite Hf by lia. by rewrite IH.
Qed.

Lemma from_utf8_with_replacement_character_id s :
  valid_utf8 s → from_utf8_with_replacement_character s = Returned s.
Proof.
  intros Hv. unfold from_utf8_with_replacement_character, utf8_validate. simpl. rewrite andb_false_r.
  cbn [fmap outcome_fmap mbind outcome_bind fst].
  by rewrite bool_decide_eq_true_2 by (apply validate_utf8_spec; [by apply valid_utf8_bytes|done]).
Qed.

Lemma from_utf8_valid s : valid_utf8 s → from_utf8 s = Returned (Some s).
Proof.
  intros Hv. unfold from_utf8, utf8_validate. simpl.
  rewrite (proj2 (validate_utf8_spec s (valid_utf8_bytes s Hv)) Hv). done.
Qed.

End ReplacementCharacter.
