(* ===== verification/StringView.v ===== *)
(** * AK/StringView, AK/StringUtils, AK/MemMem.h and AK/StringConversions.cpp

    The string operations the URL code calls.  [size_t] arithmetic is modelled
    on [nat]; where the source subtracts, [size_sub] checks that the
    subtraction does not wrap around, which is stricter than the source. *)
From S2P Require Import Prelude CharacterTypes Externals Utf8.

Definition size_sub (a b : nat) : outcome nat :=
  if (b <=? a)%nat then Returned (a - b)%nat else VerifyFailed.

(** [StringView::substring_view(start, length)] *)
Definition substring_view (s : bytes) (start length' : nat) : outcome bytes :=
  verify (start + length' <=? length s)%nat (Returned (take length' (drop start s))).

(** [StringView::substring_view(start)] *)
Definition substring_view_from (s : bytes) (start : nat) : outcome bytes :=
  verify (start <=? length s)%nat (substring_view s start (length s - start)).

(** ** AK/MemMem.h *)
Module MemMem.

(** The mask of the character [b]: bit [i] is cleared when [needle[i] = b]. *)
Fixpoint needle_mask (i : Z) (needle : bytes) (b : Z) (mask : Z) : Z :=
  match needle with
  | [] => mask
  | c :: needle =>
      needle_mask (i + 1) needle b
        (if c =? b then Z.land mask (Z.lxor 0xffffffff (Z.shiftl 1 i)) else mask)
  end.

(** The scan over the haystack; [i] is the index of its first character. *)
Fixpoint bitap_scan (needle : bytes) (lookup : Z) (i : nat) (haystack : bytes) : option nat :=
  match haystack with
  | [] => None
  | b :: haystack =>
      let lookup := Z.lor lookup (needle_mask 0 needle b 0xffffffff) in
      let lookup := Z.shiftl lookup 1 mod 2 ^ 32 in
      if Z.land lookup (Z.shiftl 1 (Z.of_nat (length needle))) =? 0
      then Some (i + 1 - length needle)%nat
      else bitap_scan needle lookup (i + 1) haystack
  end.

Definition bitap_bitwise (haystack needle : bytes) : outcome (option nat) :=
  verify (length needle <? 32)%nat (Returned (bitap_scan needle 0xfffffffe 0 haystack)).

(** [++i] on an [int]: overflow is undefined behaviour, an abort of the model. *)
Definition int_increment (i : Z) : outcome Z := verify (i <? 2 ^ 31 - 1) (Returned (i + 1)).

(** The KMP fallback: [candidate], [needle_index] and the table are of [int].  The inner [do ... while] of [prepare_kmp_partial_table]. *)
Fixpoint kmp_candidate (fuel : nat) (needle : bytes) (table : list Z) (position : nat)
    (candidate : Z) : outcome Z :=
  match fuel with
  | O => OutOfFuel
  | S fuel =>
      candidate ← at_index table (Z.to_nat candidate);
      if candidate <? 0 then Returned candidate
      else
        a ← at_index needle (Z.to_nat candidate);
        b ← at_index needle position;
        if a =? b then Returned candidate else kmp_candidate fuel needle table position candidate
  end.

Fixpoint kmp_table_loop (fuel : nat) (needle : bytes) (table : list Z) (position : nat)
    (candidate : Z) : outcome (list Z) :=
  match fuel with
  | O => OutOfFuel
  | S fuel =>
      if (position <? length needle)%nat then
        a ← at_index needle position;
        b ← at_index needle (Z.to_nat candidate);
        if a =? b then
          t ← at_index table (Z.to_nat candidate);
          table ← set_index table position t;
          candidate ← int_increment candidate;
          kmp_table_loop fuel needle table (position + 1) candidate
        else
          table ← set_index table position candidate;
          candidate ← kmp_candidate (S (length needle)) needle table position candidate;
          candidate ← int_increment candidate;
          kmp_table_loop fuel needle table (position + 1) candidate
      else Returned table
  end.

Definition prepare_kmp_partial_table (needle : bytes) : outcome (list Z) :=
  table ← set_index (replicate (length needle) 0) 0 (-1);
  kmp_table_loop (S (length needle)) needle table 1 0.

(** The search in a haystack of several chunks. *)
Fixpoint kmp_search_loop (fuel : nat) (haystack : list bytes) (needle : bytes) (table : list Z)
    (total_haystack_index current_haystack_index : nat) (needle_index : Z) : outcome (option nat) :=
  match fuel with
  | O => OutOfFuel
  | S fuel =>
      match haystack with
      | [] => Returned None
      | chunk :: next =>
          if (length chunk <=? current_haystack_index)%nat then
            kmp_search_loop fuel next needle table total_haystack_index 0 needle_index
          else
            n ← at_index needle (Z.to_nat needle_index);
            h ← at_index chunk current_haystack_index;
            if n =? h then
              needle_index ← int_increment needle_index;
              let current_haystack_index := (current_haystack_index + 1)%nat in
              let total_haystack_index := (total_haystack_index + 1)%nat in
              if needle_index =? Z.of_nat (length needle)
              then Returned (Some (total_haystack_index - Z.to_nat needle_index)%nat)
              else kmp_search_loop fuel haystack needle table total_haystack_index current_haystack_index needle_index
            else
              needle_index ← at_index table (Z.to_nat needle_index);
              if needle_index <? 0 then
                needle_index ← int_increment needle_index;
                kmp_search_loop fuel haystack needle table (total_haystack_index + 1) (current_haystack_index + 1) needle_index
              else kmp_search_loop fuel haystack needle table total_haystack_index current_haystack_index needle_index
      end
  end.

(** [memmem(begin, end, needle)] *)
Definition memmem_kmp (haystack : list bytes) (needle : bytes) : outcome (option nat) :=
  table ← prepare_kmp_partial_table needle;
  kmp_search_loop (2 * length (concat haystack) + length haystack + 1) haystack needle table 0 0 0.

Definition memmem_optional (haystack needle : bytes) : outcome (option nat) :=
  if (length needle =? 0)%nat then Returned (Some 0%nat)
  else if (length haystack <? length needle)%nat then Returned None
  else if (length haystack =? length needle)%nat then
    Returned (if bool_decide (haystack = needle) then Some 0%nat else None)
  else if (length needle <? 32)%nat then bitap_bitwise haystack needle
  else memmem_kmp [haystack] needle.

End MemMem.
Export MemMem.

(** ** AK/StringUtils.cpp and AK/StringView.cpp *)
Inductive CaseSensitivity := CaseSensitive | CaseInsensitive.

Inductive TrimMode := TrimLeft | TrimRight | TrimBoth.

(** [memchr(...) != nullptr] *)
Definition contains_char (s : bytes) (needle : Z) : bool := existsb (Z.eqb needle) s.

(** [StringUtils::contains], case-sensitive. *)
Definition stringutils_contains (str needle : bytes) : outcome bool :=
  match str with
  | [] => Returned false
  | _ =>
      if (length str <? length needle)%nat then Returned false
      else match needle with
      | [] => Returned true
      | _ => r ← memmem_optional str needle; Returned (bool_decide (is_Some r))
      end
  end.

(** [StringView::contains(StringView)] *)
Definition contains_view (str needle : bytes) : outcome bool :=
  match needle with
  | [c] => Returned (contains_char str c)
  | _ => stringutils_contains str needle
  end.

(** The inner loop of [StringUtils::contains] ignoring case: the whole needle matches,
    a character at some position of it does not, or the text ends first. *)
Inductive NeedleMatch := NeedleMatched | NeedleMismatch (ni : nat) | TextEnded.

Fixpoint match_needle (str needle : bytes) (ni : nat) : NeedleMatch :=
  match str, needle with
  | x :: str, y :: needle =>
      if negb (to_ascii_lowercase x =? to_ascii_lowercase y) then NeedleMismatch ni
      else match needle with [] => NeedleMatched | _ => match_needle str needle (S ni) end
  | _, _ => TextEnded
  end.

(** The outer loop, which skips [ni - 1] positions after a mismatch. *)
Fixpoint contains_scan (skip : nat) (needle_first : Z) (str needle : bytes) : bool :=
  match str with
  | [] => false
  | c :: rest =>
      match skip with
      | S skip => contains_scan skip needle_first rest needle
      | O =>
          if negb (to_ascii_lowercase c =? needle_first) then contains_scan 0 needle_first rest needle
          else
            match match_needle str needle 0 with
            | NeedleMatched => true
            | NeedleMismatch ni => contains_scan (ni - 1) needle_first rest needle
            | TextEnded => contains_scan 0 needle_first rest needle
            end
      end
  end.

(** [StringView::contains(StringView, CaseInsensitive)]; a needle of one character is
    looked for as it is. *)
Definition contains_ignoring_case (str needle : bytes) : bool :=
  match needle with
  | [c] => contains_char str c
  | _ =>
      if bool_decide (str = []) || (length str <? length needle)%nat then false
      else match needle with
      | [] => true
      | c :: _ => contains_scan 0 (to_ascii_lowercase c) str needle
      end
  end.

(** [StringView::contains(u32)] *)
Definition contains_code_point (str : bytes) (needle : Z) : outcome bool :=
  contains_view str (append_code_point [] needle).

Fixpoint equal_ignoring_case (a b : bytes) : bool :=
  match a, b with
  | [], [] => true
  | x :: a, y :: b =>
      if negb (to_ascii_lowercase x =? to_ascii_lowercase y) then false else equal_ignoring_case a b
  | _, _ => false
  end.

Definition equals_ignoring_ascii_case (a b : bytes) : bool :=
  if negb (length a =? length b)%nat then false else equal_ignoring_case a b.

Definition is_one_of_ignoring_ascii_case (s : bytes) (others : list bytes) : bool :=
  existsb (equals_ignoring_ascii_case s) others.

Definition starts_with (str start : bytes) (case_sensitivity : CaseSensitivity) : bool :=
  match start, str with
  | [], _ => true
  | _, [] => false
  | _, _ =>
      if (length str <? length start)%nat then false
      else match case_sensitivity with
      | CaseSensitive => bool_decide (take (length start) str = start)
      | CaseInsensitive => equal_ignoring_case (take (length start) str) start
      end
  end.

Definition starts_with_char (str : bytes) (ch : Z) : bool :=
  match str with [] => false | c :: _ => ch =? c end.

Definition ends_with_char (str : bytes) (ch : Z) : bool :=
  match last str with None => false | Some c => ch =? c end.

Definition ends_with (str end' : bytes) : bool :=
  match end', str with
  | [], _ => true
  | _, [] => false
  | _, _ =>
      if (length str <? length end')%nat then false
      else bool_decide (drop (length str - length end') str = end')
  end.

(** [StringUtils::find_last(haystack, char)] *)
Fixpoint find_last_from (haystack : bytes) (needle : Z) (i : nat) : option nat :=
  match i with
  | O => None
  | S i => if bool_decide (haystack !! i = Some needle) then Some i
           else find_last_from haystack needle i
  end.

Definition find_last (haystack : bytes) (needle : Z) : option nat :=
  find_last_from haystack needle (length haystack).

(** [StringUtils::find_any_of], forward. *)
Fixpoint find_any_of (haystack needles : bytes) : option nat :=
  match haystack with
  | [] => None
  | c :: haystack =>
      if contains_char needles c then Some 0%nat else S <$> find_any_of haystack needles
  end.

(** [StringUtils::trim] *)
Fixpoint trim_left (str characters : bytes) : bytes :=
  match str with
  | [] => []
  | c :: rest => if contains_char characters c then trim_left rest characters else str
  end.

Definition trim_right (str characters : bytes) : bytes :=
  rev (trim_left (rev str) characters).

Definition trim (str characters : bytes) (mode : TrimMode) : bytes :=
  match mode with
  | TrimLeft => trim_left str characters
  | TrimRight => trim_right str characters
  | TrimBoth => trim_right (trim_left str characters) characters
  end.

(** [for_each_split_view] without [KeepTrailingSeparator]. *)
Inductive SplitBehavior := SplitNothing | SplitKeepEmpty.

Definition keeps_empty (b : SplitBehavior) : bool :=
  match b with SplitKeepEmpty => true | SplitNothing => false end.

Fixpoint split_view_loop (fuel : nat) (view separator : bytes) (behavior : SplitBehavior)
    : outcome (list bytes) :=
  match fuel with
  | O => OutOfFuel
  | S fuel =>
      maybe_separator_index ← memmem_optional view separator;
      match maybe_separator_index with
      | Some separator_index =>
          part_with_separator ← substring_view view 0 (separator_index + length separator);
          part ← substring_view part_with_separator 0 separator_index;
          rest ← split_view_loop fuel (drop (length part_with_separator) view) separator behavior;
          Returned (if keeps_empty behavior || (0 <? separator_index)%nat then part :: rest else rest)
      | None =>
          Returned (if keeps_empty behavior || negb (bool_decide (view = [])) then [view] else [])
      end
  end.

Definition split_view (s separator : bytes) (behavior : SplitBehavior) : outcome (list bytes) :=
  verify (negb (bool_decide (separator = []))) (
    if bool_decide (s = []) then Returned []
    else split_view_loop (S (length s)) s separator behavior).

(** [StringUtils::replace] of a view, in [ReplaceMode::All]. *)
Fixpoint replace_loop (fuel : nat) (replaced_string remaining needle replacement : bytes) : outcome bytes :=
  match fuel with
  | O => OutOfFuel
  | S fuel =>
      if bool_decide (remaining = []) then Returned (replaced_string ++ remaining)
      else
        maybe_pos ← memmem_optional remaining needle;
        match maybe_pos with
        | None => Returned (replaced_string ++ remaining)
        | Some pos =>
            before ← substring_view remaining 0 pos;
            rest ← substring_view_from remaining (pos + length needle);
            replace_loop fuel (replaced_string ++ before ++ replacement) rest needle replacement
        end
  end.

Definition replace_into_builder (str needle replacement : bytes) (first_replacement_position : nat)
    : outcome bytes :=
  before ← substring_view str 0 first_replacement_position;
  remaining ← substring_view_from str (first_replacement_position + length needle);
  replace_loop (S (length str)) (before ++ replacement) remaining needle replacement.

Definition replace (str needle replacement : bytes) : outcome bytes :=
  if bool_decide (str = []) then Returned str
  else
    maybe_first ← memmem_optional str needle;
    match maybe_first with
    | None => Returned str
    | Some first => replace_into_builder str needle replacement first
    end.

Section WithLibraries.
Context `{Simdutf} `{FastFloat}.

(** [StringView::is_ascii] *)
Definition sv_is_ascii (s : bytes) : bool :=
  match s with [] => true | _ => validate_ascii s end.

(** [StringUtils::find(haystack, char)] *)
Definition find_char (haystack : bytes) (needle : Z) : option nat :=
  match haystack with
  | [] => None
  | _ =>
      let result := simdutf_find haystack needle in
      if (result =? length haystack)%nat then None else Some result
  end.

(** [StringView::to_ascii_lowercase_string] *)
Definition to_ascii_lowercase_string (s : bytes) : outcome bytes :=
  valid ← utf8_validate s AllowYes;
  verify valid (Returned (to_ascii_lowercase <$> s)).

(** [parse_number<T>(string, TrimWhitespace::No, base)] at an unsigned type
    whose largest value is [max]. *)
Definition parse_number (max base : Z) (string : bytes) : option Z :=
  match from_chars max base string with
  | None => None
  | Some (value, characters_parsed) =>
      if negb (characters_parsed =? length string)%nat then None else Some value
  end.

End WithLibraries.

(** ** Substrings in range *)
Lemma find_any_of_spec haystack needles :
  match find_any_of haystack needles with
  | Some k =>
      (∃ b, haystack !! k = Some b ∧ contains_char needles b = true)
      ∧ ∀ j b, (j < k)%nat → haystack !! j = Some b → contains_char needles b = false
  | None => ∀ j b, haystack !! j = Some b → contains_char needles b = false
  end.
Proof.
  induction haystack as [|c haystack IH]; [done|]. cbn [find_any_of].
  destruct (contains_char needles c) eqn:Ec.
  - split; [by exists c|]. intros j b Hj. lia.
  - destruct (find_any_of haystack needles) as [k|]; simpl.
    + destruct IH as [Hk Hj]. split; [done|]. intros [|j] b Hlt Hb; [by injection Hb as ->|].
      apply (Hj j); [lia|done].
    + intros [|j] b Hb; [by injection Hb as ->|by eapply IH].
Qed.

Lemma find_char_lt `{SimdutfOk} haystack needle k :
  find_char haystack needle = Some k → (k < length haystack)%nat.
Proof.
  pose proof (simdutf_find_bound haystack needle). unfold find_char. destruct haystack as [|c haystack]; [done|].
  destruct (Nat.eqb_spec (simdutf_find (c :: haystack) needle) (length (c :: haystack))); [done|].
  intros [= <-]. lia.
Qed.

(** The first occurrence of a character. *)
Lemma find_char_first `{SimdutfOk} before c after :
  c ∉ before → find_char (before ++ c :: after) c = Some (length before).
Proof.
  intros Hc. set (s := before ++ c :: after). pose proof (simdutf_find_bound s c) as Hb.
  assert (s !! length before = Some c) as Hl by (by apply list_lookup_middle).
  pose proof (lookup_lt_Some _ _ _ Hl) as Hlt.
  assert (simdutf_find s c = length before) as Hf.
  { destruct (Nat.lt_trichotomy (simdutf_find s c) (length before)) as [Hlo|[|Hhi]]; [|done|].
    - pose proof (simdutf_find_found s c ltac:(lia)) as Hfound. destruct Hc.
      apply (list_elem_of_lookup_2 _ (simdutf_find s c)). rewrite <-Hfound. symmetry. by apply lookup_app_l.
    - by apply simdutf_find_none_before in Hhi. }
  unfold find_char. rewrite Hf. destruct s eqn:Es; [by destruct before|].
  by rewrite (proj2 (Nat.eqb_neq _ _)) by lia.
Qed.

Lemma find_char_absent `{SimdutfOk} c (s : bytes) : c ∉ s → find_char s c = None.
Proof.
  intros Hc. unfold find_char. pose proof (simdutf_find_bound s c) as Hb. destruct (bool_decide (s = [])) eqn:Es.
  { apply bool_decide_eq_true in Es. by rewrite Es. }
  destruct (Nat.eqb_spec (simdutf_find s c) (length s)) as [|Hne]; [by destruct s|]. exfalso.
  apply Hc, (list_elem_of_lookup_2 _ (simdutf_find s c)), simdutf_find_found. lia.
Qed.

(** The last occurrence of a character. *)
Lemma find_last_from_spec s c i :
  (i ≤ length s)%nat →
  match find_last_from s c i with
  | Some k => (k < i)%nat ∧ s !! k = Some c ∧ c ∉ take (i - S k) (drop (S k) s)
  | None => c ∉ take i s
  end.
Proof.
  induction i as [|i IH]; intros Hi; [apply not_elem_of_nil|]. cbn [find_last_from]. case_bool_decide as E.
  - split_and!; [lia|done|]. rewrite Nat.sub_diag. apply not_elem_of_nil.
  - destruct (lookup_lt_is_Some_2 s i) as [x Hx]; [lia|]. specialize (IH ltac:(lia)).
    destruct (find_last_from s c i) as [k|].
    + destruct IH as (Hk & Hc & Hn). split_and!; [lia|done|]. replace (S i - S k)%nat with (S (i - S k)) by lia.
      rewrite (take_S_r _ _ x) by (rewrite lookup_drop; by replace (S k + (i - S k))%nat with i by lia).
      rewrite elem_of_app, list_elem_of_singleton. intros [?|<-]; congruence.
    + rewrite (take_S_r _ _ _ Hx), elem_of_app, list_elem_of_singleton. intros [?|<-]; congruence.
Qed.

Lemma find_last_split s c :
  match find_last s c with
  | Some k => ∃ pre post, s = pre ++ c :: post ∧ length pre = k ∧ c ∉ post
  | None => c ∉ s
  end.
Proof.
  unfold find_last. pose proof (find_last_from_spec s c (length s) ltac:(lia)) as H.
  destruct (find_last_from s c (length s)) as [k|]; [|by rewrite take_ge in H].
  destruct H as (Hk & Hc & Hn). exists (take k s), (drop (S k) s). split; [by rewrite take_drop_middle|].
  split; [rewrite length_take; lia|]. rewrite take_ge in Hn; [done|]. rewrite length_drop. lia.
Qed.

Lemma size_sub_le a b : (b ≤ a)%nat → size_sub a b = Returned (a - b)%nat.
Proof. intros Hb. unfold size_sub. by rewrite (proj2 (Nat.leb_le _ _)). Qed.

Lemma substring_view_in_range s start len :
  (start + len ≤ length s)%nat → substring_view s start len = Returned (take len (drop start s)).
Proof. intros. unfold substring_view. by rewrite verify_true by (apply Nat.leb_le; lia). Qed.

Lemma substring_view_from_in_range s start :
  (start ≤ length s)%nat → substring_view_from s start = Returned (drop start s).
Proof.
  intros. unfold substring_view_from. rewrite verify_true by (apply Nat.leb_le; lia).
  rewrite substring_view_in_range by lia. by rewrite take_ge by (rewrite length_drop; lia).
Qed.

(** ** The bitap scan finds the first occurrence *)

(** The reference search: the least index at which [needle] occurs. *)
Fixpoint first_occurrence (haystack needle : bytes) : option nat :=
  if bool_decide (take (length needle) haystack = needle) then Some 0%nat
  else match haystack with
  | [] => None
  | _ :: haystack => S <$> first_occurrence haystack needle
  end.

Definition occurs_at (haystack needle : bytes) (i : nat) : Prop :=
  take (length needle) (drop i haystack) = needle.

Lemma first_occurrence_some haystack needle i :
  occurs_at haystack needle i → (∀ k, (k < i)%nat → ¬ occurs_at haystack needle k) →
  (i ≤ length haystack)%nat → first_occurrence haystack needle = Some i.
Proof.
  revert i. induction haystack as [|c haystack IH]; intros i Hi Hmin Hlen; cbn [first_occurrence].
  - destruct i; [|simpl in Hlen; lia]. by rewrite bool_decide_eq_true_2.
  - destruct i as [|i].
    + by rewrite bool_decide_eq_true_2.
    + rewrite bool_decide_eq_false_2 by (apply (Hmin 0%nat); lia).
      rewrite (IH i); [done|done| |simpl in Hlen; lia].
      intros k Hk. apply (Hmin (S k)). lia.
Qed.

Lemma first_occurrence_none haystack needle :
  (∀ k, (k ≤ length haystack)%nat → ¬ occurs_at haystack needle k) →
  first_occurrence haystack needle = None.
Proof.
  induction haystack as [|c haystack IH]; intros Hno; cbn [first_occurrence];
    (rewrite bool_decide_eq_false_2 by (apply (Hno 0%nat); lia)); [done|].
  rewrite IH; [done|]. intros k Hk. apply (Hno (S k)). simpl. lia.
Qed.

Lemma needle_mask_testbit needle b i mask j :
  0 ≤ i ≤ j → j < 32 →
  Z.testbit (needle_mask i needle b mask) j =
    Z.testbit mask j && negb (bool_decide (needle !! Z.to_nat (j - i) = Some b)).
Proof.
  assert (Hbit : ∀ i j, 0 ≤ i → 0 ≤ j < 32 →
    Z.testbit (Z.lxor 0xffffffff (Z.shiftl 1 i)) j = negb (i =? j)).
  { intros i' j' ? ?. rewrite Z.lxor_spec. change 0xffffffff with (Z.ones 32).
    rewrite Z.ones_spec_low, Z.shiftl_1_l, Z.pow2_bits_eqb by lia. done. }
  assert (Hlow : ∀ needle i mask, 0 ≤ j < i → j < 32 →
    Z.testbit (needle_mask i needle b mask) j = Z.testbit mask j).
  { clear i mask needle. intros needle. induction needle as [|c needle IH]; intros i mask ? ?; [done|].
    simpl. rewrite IH by lia. case_match; [|done]. rewrite Z.land_spec, Hbit by lia.
    replace (i =? j) with false by lia. apply andb_true_r. }
  revert i mask. induction needle as [|c needle IH]; intros i mask Hij Hj; simpl.
  { by rewrite andb_true_r. }
  destruct (decide (i = j)) as [->|Hne].
  - rewrite Hlow, Z.sub_diag by lia. simpl. destruct (c =? b) eqn:E; bool_to_prop.
    + rewrite Z.land_spec, Hbit, Z.eqb_refl by lia. rewrite bool_decide_eq_true_2 by congruence.
      by rewrite !andb_false_r.
    + rewrite bool_decide_eq_false_2 by congruence. by rewrite andb_true_r.
  - rewrite IH by lia. replace (Z.to_nat (j - i)) with (S (Z.to_nat (j - (i + 1)))) by lia.
    simpl. f_equal. case_match; [|done]. rewrite Z.land_spec, Hbit by lia.
    replace (i =? j) with false by lia. apply andb_true_r.
Qed.

Lemma land_pow2_zero x m : 0 ≤ m → (Z.land x (Z.shiftl 1 m) =? 0) = negb (Z.testbit x m).
Proof.
  intros Hm. rewrite Z.shiftl_1_l.
  destruct (Z.testbit x m) eqn:E; simpl; [apply Z.eqb_neq|apply Z.eqb_eq].
  - intros Hz. assert (Z.testbit (Z.land x (2 ^ m)) m = false) as Hb by (rewrite Hz; apply Z.bits_0).
    rewrite Z.land_spec, E, Z.pow2_bits_true in Hb by lia. done.
  - apply Z.bits_inj'. intros j Hj. rewrite Z.land_spec, Z.bits_0, Z.pow2_bits_eqb by lia.
    destruct (Z.eqb_spec m j) as [<-|]; [by rewrite E|apply andb_false_r].
Qed.

(** What the scan keeps: bit [j] is clear exactly when the last [j] characters
    read are the first [j] of the needle. *)
Definition bitap_invariant (needle pre : bytes) (lookup : Z) : Prop :=
  ∀ j, (j ≤ length needle)%nat →
    Z.testbit lookup (Z.of_nat j) = false ↔ take j needle `suffix_of` pre.

Lemma take_suffix_snoc (needle pre : bytes) b j :
  (j < length needle)%nat →
  take (S j) needle `suffix_of` pre ++ [b]
    ↔ take j needle `suffix_of` pre ∧ needle !! j = Some b.
Proof.
  intros [x Hx]%lookup_lt_is_Some_2. rewrite (take_S_r _ _ _ Hx), Hx. split.
  - intros Hs. rewrite (suffix_snoc_inv_1 _ _ _ _ Hs). split; [|done].
    by eapply suffix_snoc_inv_2.
  - intros [Hs [= ->]]. destruct Hs as [k ->]. exists k. by rewrite app_assoc.
Qed.

Lemma bitap_step needle pre lookup b :
  (length needle < 32)%nat → bitap_invariant needle pre lookup →
  bitap_invariant needle (pre ++ [b])
    (Z.shiftl (Z.lor lookup (needle_mask 0 needle b 0xffffffff)) 1 mod 2 ^ 32).
Proof.
  intros Hm Hinv [|j] Hj.
  - rewrite Z.mod_pow2_bits_low, Z.shiftl_spec_low by lia. split; [|done].
    intros _. apply suffix_nil.
  - rewrite Z.mod_pow2_bits_low, Z.shiftl_spec by lia.
    replace (Z.of_nat (S j) - 1) with (Z.of_nat j) by lia.
    rewrite Z.lor_spec, orb_false_iff, needle_mask_testbit by lia.
    rewrite Z.sub_0_r, Nat2Z.id. change 0xffffffff with (Z.ones 32).
    rewrite Z.ones_spec_low by lia. assert (Hbit := Hinv j ltac:(lia)).
    rewrite take_suffix_snoc, Hbit by lia.
    rewrite andb_true_l, negb_false_iff, bool_decide_eq_true. done.
Qed.

Lemma suffix_occurs (needle pre rest : bytes) :
  needle `suffix_of` pre ↔
  (length needle ≤ length pre)%nat ∧ occurs_at (pre ++ rest) needle (length pre - length needle).
Proof.
  unfold occurs_at. split.
  - intros [k ->]. rewrite length_app. split; [lia|].
    replace (length k + length needle - length needle)%nat with (length k) by lia.
    rewrite <-app_assoc, drop_app_length. apply take_app_length.
  - intros [Hlen Hocc]. exists (take (length pre - length needle) pre).
    rewrite <-(take_drop (length pre - length needle) pre) at 1. f_equal.
    rewrite drop_app_le, take_app_le in Hocc by (rewrite ?length_drop; lia).
    rewrite <-Hocc at 2. rewrite take_ge; [done|]. rewrite length_drop. lia.
Qed.

Lemma bitap_scan_correct needle lookup pre haystack :
  needle ≠ [] → (length needle < 32)%nat → bitap_invariant needle pre lookup →
  (∀ k, (k + length needle ≤ length pre)%nat → ¬ occurs_at (pre ++ haystack) needle k) →
  bitap_scan needle lookup (length pre) haystack = first_occurrence (pre ++ haystack) needle.
Proof.
  intros Hne Hm. assert (1 ≤ length needle)%nat by (destruct needle; simpl; [done|lia]).
  revert lookup pre. induction haystack as [|b haystack IH]; intros lookup pre Hinv Hno.
  - cbn [bitap_scan]. symmetry. apply first_occurrence_none. intros k Hk Hocc.
    destruct (decide (k + length needle ≤ length pre)%nat); [by apply (Hno k)|].
    apply (f_equal length) in Hocc. rewrite length_take, length_drop in Hocc.
    rewrite length_app in Hk, Hocc. simpl in *. lia.
  - cbn [bitap_scan].
    pose proof (bitap_step needle pre lookup b Hm Hinv) as Hinv'.
    set (lookup' := Z.shiftl _ 1 mod 2 ^ 32) in *.
    rewrite land_pow2_zero by lia.
    destruct (Z.testbit lookup' (Z.of_nat (length needle))) eqn:E; cbn [negb].
    + replace (length pre + 1)%nat with (length (pre ++ [b])) by (rewrite length_app; done).
      rewrite IH; [by rewrite <-app_assoc|done|]. intros k Hk. rewrite <-app_assoc. simpl.
      destruct (decide (k + length needle ≤ length pre)%nat); [by apply Hno|].
      intros Hocc. enough (Z.testbit lookup' (Z.of_nat (length needle)) = false) by congruence.
      apply Hinv'; [lia|]. rewrite take_ge, suffix_occurs by lia.
      rewrite length_app in *. simpl in *. split; [lia|]. rewrite <-app_assoc.
      replace (length pre + 1 - length needle)%nat with k by lia. exact Hocc.
    + apply Hinv' in E; [|lia].
      rewrite take_ge, (suffix_occurs _ _ haystack) in E by lia.
      rewrite length_app, <-app_assoc in E. simpl in E. destruct E as [Hle Hocc].
      symmetry. apply first_occurrence_some; [done| |rewrite length_app; lia].
      intros k Hk. apply Hno. lia.
Qed.

Lemma bitap_invariant_init needle : (length needle < 32)%nat → bitap_invariant needle [] 0xfffffffe.
Proof.
  intros Hm j Hj. destruct j as [|j].
  - split; [intros _; apply suffix_nil|done].
  - change 0xfffffffe with (Z.lxor (Z.ones 32) (2 ^ 0)).
    rewrite Z.lxor_spec, Z.ones_spec_low, Z.pow2_bits_eqb by lia.
    destruct (Z.eqb_spec 0 (Z.of_nat (S j))); [lia|]. split; [done|].
    intros Hs%suffix_nil_inv. apply (f_equal length) in Hs. rewrite length_take in Hs.
    change (length (@nil Z)) with 0%nat in Hs. lia.
Qed.

Lemma bitap_first haystack needle :
  needle ≠ [] → (length needle < 32)%nat → bitap_bitwise haystack needle = Returned (first_occurrence haystack needle).
Proof.
  intros Hn Hm. unfold bitap_bitwise. rewrite verify_true by (by apply Nat.ltb_lt). f_equal.
  apply (bitap_scan_correct needle 0xfffffffe [] haystack); [done..|by apply bitap_invariant_init|].
  intros k Hk. simpl in Hk. destruct needle; [done|]. simpl in *. lia.
Qed.

Lemma memmem_shortcuts haystack needle :
  (needle ≠ [] →
   (if (length needle <? 32)%nat then bitap_bitwise haystack needle else memmem_kmp [haystack] needle)
   = Returned (first_occurrence haystack needle)) →
  memmem_optional haystack needle = Returned (first_occurrence haystack needle).
Proof.
  intros Hsearch. unfold memmem_optional. destruct needle as [|c needle]; [by destruct haystack|].
  remember (c :: needle) as n eqn:Hn. assert (n ≠ []) by naive_solver.
  destruct (Nat.eqb_spec (length n) 0); [by destruct n|].
  destruct (Nat.ltb_spec (length haystack) (length n)).
  { rewrite first_occurrence_none; [done|]. intros k Hk Hocc.
    apply (f_equal length) in Hocc. rewrite length_take, length_drop in Hocc. lia. }
  destruct (Nat.eqb_spec (length haystack) (length n)) as [Hlen|]; [|auto].
  f_equal. case_bool_decide as Heq.
  - rewrite (first_occurrence_some _ _ 0); [done| |lia|lia].
    unfold occurs_at. rewrite drop_0, take_ge by lia. done.
  - rewrite first_occurrence_none; [done|]. intros k Hk Hocc. destruct k as [|k].
    + apply Heq. unfold occurs_at in Hocc. by rewrite drop_0, take_ge in Hocc by lia.
    + apply (f_equal length) in Hocc. rewrite length_take, length_drop in Hocc. lia.
Qed.

Lemma memmem_first haystack needle :
  (length needle < 32)%nat →
  memmem_optional haystack needle = Returned (first_occurrence haystack needle).
Proof.
  intros Hm. apply memmem_shortcuts. intros Hn. rewrite (proj2 (Nat.ltb_lt _ _)) by done. by apply bitap_first.
Qed.

(** ** Splitting on one character *)
Fixpoint split_on (c : Z) (s : bytes) : list bytes :=
  match s with
  | [] => [[]]
  | x :: s =>
      if x =? c then [] :: split_on c s
      else match split_on c s with
           | [] => [[x]]
           | part :: parts => (x :: part) :: parts
           end
  end.

Lemma first_occurrence_char c s :
  first_occurrence s [c] = fst <$> list_find (c =.) s.
Proof.
  induction s as [|x s IH]; [done|]. cbn [first_occurrence list_find].
  change (length [c]) with 1%nat. cbn [take]. rewrite take_0.
  destruct (decide (c = x)) as [->|Hne].
  - by rewrite bool_decide_eq_true_2.
  - rewrite bool_decide_eq_false_2 by congruence. rewrite IH.
    by destruct (list_find _ s) as [[]|].
Qed.

Lemma split_on_nonempty c s : split_on c s ≠ [].
Proof. destruct s as [|x s]; simpl; [done|]. repeat case_match; done. Qed.

Lemma split_on_absent c s : c ∉ s → split_on c s = [s].
Proof.
  induction s as [|x s IH]; [done|]. rewrite not_elem_of_cons. intros [Hx Hs]. simpl.
  destruct (Z.eqb_spec x c); [congruence|]. by rewrite IH.
Qed.

Lemma split_on_app c part s : c ∉ part → split_on c (part ++ c :: s) = part :: split_on c s.
Proof.
  induction part as [|x part IH]; simpl; [by rewrite Z.eqb_refl|].
  rewrite not_elem_of_cons. intros [Hx Hs].
  destruct (Z.eqb_spec x c); [congruence|]. by rewrite IH.
Qed.

Lemma split_on_prefix c prefix s :
  c ∉ prefix →
  split_on c (prefix ++ s) = match split_on c s with [] => [prefix] | part :: parts => (prefix ++ part) :: parts end.
Proof.
  pose proof (split_on_nonempty c s) as Hne. induction prefix as [|x prefix IH]; simpl; [by case_match|].
  rewrite not_elem_of_cons. intros [Hx Hs]. destruct (Z.eqb_spec x c); [congruence|]. rewrite IH by done.
  by case_match.
Qed.

(** Cutting a string at the first separator. *)
Lemma first_occurrence_char_some c s i :
  first_occurrence s [c] = Some i →
  s = take i s ++ c :: drop (S i) s ∧ c ∉ take i s ∧ (i < length s)%nat.
Proof.
  rewrite first_occurrence_char. destruct (list_find _ s) as [[j x]|] eqn:E; [|done].
  intros [= ->]. apply list_find_Some in E as (Hx & <- & Hmin). split_and!.
  - symmetry. by apply take_drop_middle.
  - intros [k Hk]%list_elem_of_lookup. pose proof (lookup_lt_Some _ _ _ Hk) as Hlt.
    rewrite length_take in Hlt. rewrite lookup_take_lt in Hk by lia.
    apply (Hmin k c Hk); [lia|done].
  - by eapply lookup_lt_Some.
Qed.

Lemma first_occurrence_char_none c s : first_occurrence s [c] = None → c ∉ s.
Proof.
  rewrite first_occurrence_char. destruct (list_find _ s) as [[j x]|] eqn:E; [done|].
  apply list_find_None in E. intros _ Hc. rewrite Forall_forall in E.
  by apply (E c).
Qed.

Lemma split_view_loop_char fuel c s behavior :
  (length s < fuel)%nat →
  split_view_loop fuel s [c] behavior =
    Returned (match behavior with
      | SplitKeepEmpty => split_on c s
      | SplitNothing => filter (λ part, part ≠ []) (split_on c s)
      end).
Proof.
  revert s. induction fuel as [|fuel IH]; intros s Hfuel; [lia|].
  cbn [split_view_loop]. rewrite memmem_first by (simpl; lia). cbn [mbind outcome_bind].
  destruct (first_occurrence s [c]) as [i|] eqn:E.
  - apply first_occurrence_char_some in E as (Hs & Hc & Hi).
    set (part := take i s) in *. set (rest := drop (S i) s) in *.
    assert (length part = i) as Hpart by (unfold part; rewrite length_take; lia).
    assert (substring_view s 0 (i + length [c]) = Returned (part ++ [c])) as ->.
    { rewrite substring_view_in_range by (simpl; lia). rewrite drop_0. simpl length.
      rewrite Hs, (cons_middle c part rest), app_assoc.
      by rewrite take_app_length' by (rewrite length_app; simpl; lia). }
    cbn [mbind outcome_bind].
    assert (substring_view (part ++ [c]) 0 i = Returned part) as ->.
    { rewrite substring_view_in_range by (rewrite length_app; simpl; lia).
      by rewrite drop_0, take_app_length' by done. }
    cbn [mbind outcome_bind].
    replace (drop (length (part ++ [c])) s) with rest
      by (rewrite length_app, Hpart; simpl; unfold rest; f_equal; lia).
    rewrite IH by (unfold rest; rewrite length_drop; lia). cbn [mbind outcome_bind].
    rewrite Hs, split_on_app by done. destruct behavior; simpl; [|done].
    destruct (Nat.ltb_spec 0 i).
    + rewrite filter_cons_True; [done|]. intros Hnil. rewrite Hnil in Hpart. simpl in Hpart. lia.
    + rewrite filter_cons_False; [done|]. intros []. by apply nil_length_inv; lia.
  - apply first_occurrence_char_none in E. rewrite split_on_absent by done.
    destruct behavior; simpl; [|done]. case_bool_decide; simpl; simplify_eq/=; [done|].
    rewrite filter_cons_True; [done|done].
Qed.

(** Splitting a non-empty view on one character. *)
Lemma split_view_char s c behavior :
  s ≠ [] →
  split_view s [c] behavior =
    Returned (match behavior with
      | SplitKeepEmpty => split_on c s
      | SplitNothing => filter (λ part, part ≠ []) (split_on c s)
      end).
Proof.
  intros Hs. unfold split_view, verify. rewrite bool_decide_eq_false_2 by done. simpl negb.
  rewrite bool_decide_eq_false_2 by done. by apply split_view_loop_char; lia.
Qed.

Lemma split_on_parts_ascii c s :
  forallb is_ascii s = true → Forall (λ p, forallb is_ascii p = true) (split_on c s).
Proof.
  induction s as [|x s IH]; simpl; [by repeat constructor|].
  intros [Hx Hs]%andb_prop. specialize (IH Hs). case_match; [by constructor|].
  case_match; [by repeat constructor; simpl; rewrite Hx|].
  inversion IH; subst. constructor; [|done]. simpl. by rewrite Hx.
Qed.

Lemma split_on_Forall (P : Z → Prop) c s : Forall P s → Forall (Forall P) (split_on c s).
Proof.
  induction 1 as [|x s Hx Hs IH]; simpl; [by repeat constructor|].
  case_match; [by constructor|]. destruct IH; repeat constructor; done.
Qed.

(** ** Replacing one character *)
Definition replace_char (c d x : Z) : Z := if x =? c then d else x.

Lemma replace_char_absent c d (s : bytes) : c ∉ s → replace_char c d <$> s = s.
Proof.
  induction s as [|x s IH]; [done|]. rewrite not_elem_of_cons. intros [Hx Hs]. cbn [fmap list_fmap].
  rewrite IH by done. unfold replace_char. by destruct (Z.eqb_spec x c); [congruence|].
Qed.

(** Every [c] replaced by the string [r]. *)
Definition substitute (c : Z) (r s : bytes) : bytes := flat_map (λ x, if x =? c then r else [x]) s.

Lemma substitute_absent c r (s : bytes) : c ∉ s → substitute c r s = s.
Proof.
  induction s as [|x s IH]; [done|]. rewrite not_elem_of_cons. intros [Hx Hs]. cbn [substitute flat_map].
  fold (substitute c r s). rewrite IH by done. by destruct (Z.eqb_spec x c); [congruence|].
Qed.

Lemma substitute_char c d (s : bytes) : substitute c [d] s = replace_char c d <$> s.
Proof.
  induction s as [|x s IH]; [done|]. cbn [substitute flat_map fmap list_fmap]. fold (substitute c [d] s).
  rewrite IH. unfold replace_char at 2. by destruct (x =? c).
Qed.

(** The string before and after the first occurrence. *)
Lemma substitute_first c r (s : bytes) i :
  first_occurrence s [c] = Some i →
  (i < length s)%nat ∧ substring_view s 0 i = Returned (take i s)
  ∧ substring_view_from s (i + length [c]) = Returned (drop (S i) s)
  ∧ substitute c r s = take i s ++ r ++ substitute c r (drop (S i) s).
Proof.
  intros (Hs & Hc & Hi)%first_occurrence_char_some. split_and!; [done|..].
  - rewrite substring_view_in_range by lia. by rewrite drop_0.
  - rewrite substring_view_from_in_range by (simpl; lia). f_equal. f_equal. simpl. lia.
  - rewrite Hs at 1. unfold substitute. rewrite flat_map_app. fold (substitute c r).
    change (flat_map _ (take i s)) with (substitute c r (take i s)).
    rewrite substitute_absent by done. cbn [flat_map]. by rewrite Z.eqb_refl.
Qed.

Lemma replace_loop_char fuel acc (s : bytes) c r :
  (length s < fuel)%nat → replace_loop fuel acc s [c] r = Returned (acc ++ substitute c r s).
Proof.
  revert acc s. induction fuel as [|fuel IH]; intros acc s Hf; [lia|]. cbn [replace_loop].
  case_bool_decide as Hnil; [by rewrite Hnil|]. rewrite memmem_first by (simpl; lia). cbn [mbind outcome_bind].
  destruct (first_occurrence s [c]) as [i|] eqn:E.
  - destruct (substitute_first c r s i E) as (Hi & -> & -> & ->). cbn [mbind outcome_bind].
    rewrite IH by (rewrite length_drop; lia). by rewrite <-!app_assoc.
  - apply first_occurrence_char_none in E. by rewrite substitute_absent.
Qed.

Lemma replace_into_builder_char (s : bytes) c r i :
  first_occurrence s [c] = Some i → replace_into_builder s [c] r i = Returned (substitute c r s).
Proof.
  intros E. unfold replace_into_builder. destruct (substitute_first c r s i E) as (Hi & -> & -> & ->).
  cbn [mbind outcome_bind]. rewrite replace_loop_char by (rewrite length_drop; lia). by rewrite <-app_assoc.
Qed.

Lemma replace_one_char (s : bytes) c d : replace s [c] [d] = Returned (replace_char c d <$> s).
Proof.
  unfold replace. case_bool_decide as Hnil; [by rewrite Hnil|].
  rewrite memmem_first by (simpl; lia). cbn [mbind outcome_bind]. rewrite <-substitute_char.
  destruct (first_occurrence s [c]) as [i|] eqn:E.
  - by apply replace_into_builder_char.
  - apply first_occurrence_char_none in E. by rewrite substitute_absent.
Qed.

Notation lowercase_bytes := (map to_ascii_lowercase) (only parsing).

Lemma equals_ignoring_ascii_case_lowercase a b :
  equals_ignoring_ascii_case a b = true ↔ lowercase_bytes a = lowercase_bytes b.
Proof.
  unfold equals_ignoring_ascii_case. revert b. induction a as [|x a IH]; intros [|y b]; cbn; try done.
  specialize (IH b). destruct (Nat.eqb_spec (length a) (length b)) as [E|E]; cbn in *.
  - destruct (Z.eqb_spec (to_ascii_lowercase x) (to_ascii_lowercase y)) as [->|N]; cbn.
    + rewrite IH. split; [by intros ->|congruence].
    + split; [done|congruence].
  - split; [done|]. intros [= _ Hm]. apply (f_equal length) in Hm. rewrite !length_map in Hm. lia.
Qed.

Lemma starts_with_app s prefix : starts_with s prefix CaseSensitive = true ↔ ∃ rest, s = prefix ++ rest.
Proof.
  unfold starts_with. destruct prefix as [|c prefix]; [split; [by exists s|done]|].
  destruct s as [|a s]; [split; [done|by intros [r Hr]]|].
  destruct (Nat.ltb_spec (length (a :: s)) (length (c :: prefix))) as [Hl|Hl].
  - split; [done|]. intros [r Hr]. rewrite Hr, length_app in Hl. lia.
  - rewrite bool_decide_eq_true. split.
    + intros Ht. exists (drop (length (c :: prefix)) (a :: s)). rewrite <-Ht at 1. by rewrite take_drop.
    + intros [r Hr]. rewrite Hr. apply take_app_length.
Qed.
