(* ===== verification/Kmp.v ===== *)
(** * The Knuth-Morris-Pratt search of AK/MemMem.h

    [border n k i]: the first [k] characters of [n] are also the last [k] of its first
    [i].  An entry of the table is the longest border that does not go on with the
    character that failed; the search moves along these entries and so visits every
    position at which the needle can occur. *)
From S2P Require Import Prelude CharacterTypes Externals Utf8 StringView.

(** No index of the search overflows for a needle of less than [2 ^ 31] bytes. *)
Definition int_length (needle : bytes) : Prop := Z.of_nat (length needle) < 2 ^ 31.

Lemma int_increment_small i : i < 2 ^ 31 - 1 → int_increment i = Returned (i + 1).
Proof. intros Hi. unfold int_increment. by rewrite verify_true by (by apply Z.ltb_lt). Qed.

Section Needle.
Context (n : bytes) (Hint : int_length n).

Definition border (k i : nat) : Prop := (k < i)%nat ∧ ∀ j, (j < k)%nat → n !! j = n !! (i - k + j)%nat.

Definition longest_border (k i : nat) : Prop := border k i ∧ ∀ k', border k' i → (k' ≤ k)%nat.

(** The entry [t] of the table for a failure at [i]. *)
Definition failure (i : nat) (t : Z) : Prop :=
  (0 ≤ t → border (Z.to_nat t) i ∧ n !! Z.to_nat t ≠ n !! i) ∧ -1 ≤ t < Z.of_nat i
  ∧ ∀ k, t < Z.of_nat k → border k i → n !! k = n !! i.

Lemma border_zero i : (0 < i)%nat → border 0 i.
Proof. split; [done|lia]. Qed.

Lemma border_trans k c i : border k c → border c i → border k i.
Proof.
  intros [H1 E1] [H2 E2]. split; [lia|]. intros j Hj. rewrite E1 by done. rewrite E2 by lia. f_equal; lia.
Qed.

Lemma border_inner k c i : border k i → border c i → (k < c)%nat → border k c.
Proof.
  intros [H1 E1] [H2 E2] Hlt. split; [done|]. intros j Hj. rewrite E1 by done. rewrite (E2 (c - k + j)%nat) by lia. f_equal; lia.
Qed.

Lemma border_succ k i : border (S k) (S i) ↔ border k i ∧ n !! k = n !! i.
Proof.
  split.
  - intros [H E]. split.
    + split; [lia|]. intros j Hj. rewrite E by lia. f_equal; lia.
    + rewrite E by lia. f_equal; lia.
  - intros [[H E] Hn]. split; [lia|]. intros j Hj. destruct (decide (j = k)) as [->|].
    + rewrite Hn. f_equal; lia.
    + rewrite E by lia. f_equal; lia.
Qed.

(** ** The table *)
Definition table_ok (table : list Z) (p : nat) : Prop :=
  length table = length n ∧ ∀ i, (i < p)%nat → ∃ t, table !! i = Some t ∧ failure i t.

Lemma table_ok_insert table p t : (p < length n)%nat → table_ok table p → failure p t → table_ok (<[p := t]> table) (S p).
Proof.
  intros Hp [Hl Ht] Hf. split; [by rewrite length_insert|]. intros i Hi. destruct (decide (i = p)) as [->|].
  - exists t. split; [apply list_lookup_insert_eq; lia|done].
  - rewrite list_lookup_insert_ne by done. apply Ht. lia.
Qed.

Lemma longest_border_succ p (r : Z) :
  (0 < p)%nat → -1 ≤ r → (0 ≤ r → border (Z.to_nat r) p ∧ n !! Z.to_nat r = n !! p) →
  (∀ k, r < Z.of_nat k → border k p → n !! k ≠ n !! p) → longest_border (Z.to_nat (r + 1)) (S p).
Proof.
  intros Hp Hr Hb Hmax. destruct (decide (r = -1)) as [->|].
  - split; [apply border_zero; lia|]. intros [|k] Hk; [done|]. apply border_succ in Hk as [Hk Ek]. exfalso. by apply (Hmax k); [lia|..].
  - replace (Z.to_nat (r + 1)) with (S (Z.to_nat r)) by lia. split; [apply border_succ, Hb; lia|].
    intros [|k] Hk; [lia|]. apply border_succ in Hk as [Hk Ek]. destruct (decide (r < Z.of_nat k)); [|lia].
    exfalso. by apply (Hmax k).
Qed.

Lemma kmp_candidate_spec fuel table p c :
  table_ok table p → (p < length n)%nat → border c p → n !! c ≠ n !! p →
  (∀ k, (c < k)%nat → border k p → n !! k ≠ n !! p) → (c < fuel)%nat →
  ∃ r, kmp_candidate fuel n table p (Z.of_nat c) = Returned r ∧ -1 ≤ r
    ∧ (0 ≤ r → border (Z.to_nat r) p ∧ n !! Z.to_nat r = n !! p) ∧ (∀ k, r < Z.of_nat k → border k p → n !! k ≠ n !! p).
Proof.
  intros Ht Hp. revert c. induction fuel as [|fuel IH]; intros c Hc Hne Hmax Hf; [lia|]. cbn [kmp_candidate].
  destruct (proj2 Ht c) as (t & Et & Hft); [apply Hc|]. rewrite Nat2Z.id, (at_index_lt _ _ _ Et), bind_value.
  destruct Hft as (Htb & Hrange & Htmax).
  assert (∀ k, t < Z.of_nat k → border k p → n !! k ≠ n !! p) as Hmax'.
  { intros k Hk Hb. destruct (decide (c < k)%nat); [by apply Hmax|]. destruct (decide (k = c)) as [->|]; [done|].
    rewrite (Htmax k Hk); [done|]. apply (border_inner k c p); [done|done|lia]. }
  destruct (Z.ltb_spec t 0); [exists t; split_and!; [done|lia|lia|done]|].
  destruct (Htb ltac:(lia)) as [Hbt _]. pose proof (border_trans _ _ _ Hbt Hc) as Hbp.
  destruct (lookup_lt_is_Some_2 n (Z.to_nat t)) as [a Ea]; [destruct Hbp; lia|].
  destruct (lookup_lt_is_Some_2 n p Hp) as [b Eb].
  rewrite (at_index_lt _ _ _ Ea), bind_value, (at_index_lt _ _ _ Eb), bind_value.
  destruct (Z.eqb_spec a b) as [->|Hab].
  - exists t. split_and!; [done|lia| |done]. intros _. split; [done|congruence].
  - destruct (IH (Z.to_nat t)) as (r & Hr & Hrest); [done|congruence| |lia|].
    + intros k Hk. apply Hmax'. lia.
    + exists r. rewrite Z2Nat.id in Hr by lia. done.
Qed.

(** What the table holds for a failure at [p], given the longest border of [p]. *)
Lemma failure_same p c t : longest_border c p → n !! p = n !! c → failure c t → failure p t.
Proof.
  intros [Hc Hmax] E (Hb & Hr & Hm). split_and!.
  - intros Ht. destruct (Hb Ht) as [Hb' Hne]. split; [by eapply border_trans|congruence].
  - lia.
  - destruct Hc. lia.
  - intros k Hk Hbk. pose proof (Hmax k Hbk). destruct (decide (k = c)) as [->|]; [done|].
    rewrite E. apply Hm; [done|]. apply (border_inner k c p); [done|done|lia].
Qed.

Lemma failure_differs p c : longest_border c p → n !! p ≠ n !! c → failure p (Z.of_nat c).
Proof.
  intros [Hc Hmax] E. split_and!.
  - intros _. rewrite Nat2Z.id. done.
  - lia.
  - destruct Hc. lia.
  - intros k Hk Hb. pose proof (Hmax k Hb). lia.
Qed.

Lemma kmp_table_loop_spec fuel table p c :
  (0 < p ≤ length n)%nat → table_ok table p → longest_border c p → (length n - p < fuel)%nat →
  ∃ table', kmp_table_loop fuel n table p (Z.of_nat c) = Returned table' ∧ table_ok table' (length n).
Proof.
  revert table p c. induction fuel as [|fuel IH]; intros table p c Hp Ht Hc Hf; [lia|]. cbn [kmp_table_loop].
  destruct (Nat.ltb_spec p (length n)) as [Hlt|]; [|exists table; by replace (length n) with p by lia].
  destruct (lookup_lt_is_Some_2 n p Hlt) as [a Ea]. destruct (lookup_lt_is_Some_2 n c) as [b Eb]; [destruct Hc as [[? _] _]; lia|].
  rewrite (at_index_lt _ _ _ Ea), bind_value, Nat2Z.id, (at_index_lt _ _ _ Eb), bind_value.
  assert (length table = length n) as Hl by apply Ht. destruct (Z.eqb_spec a b) as [->|Hab].
  - destruct (proj2 Ht c) as (t & Et & Hft); [apply Hc|].
    rewrite (at_index_lt _ _ _ Et), bind_value, set_index_lt, bind_value by lia.
    rewrite int_increment_small, bind_value by (unfold int_length in Hint; destruct Hc as [[? _] _]; lia).
    replace (Z.of_nat c + 1) with (Z.of_nat (S c)) by lia. rewrite Nat.add_1_r. apply IH; [lia| | |lia].
    + apply table_ok_insert; [done..|]. apply (failure_same p c t); [done|congruence|done].
    + destruct Hc as [Hc Hmax]. split; [apply border_succ; split; [done|congruence]|].
      intros [|k] Hk; [lia|]. apply border_succ in Hk as [Hk _]. pose proof (Hmax k Hk). lia.
  - rewrite set_index_lt, bind_value by lia.
    assert (table_ok (<[p := Z.of_nat c]> table) (S p)) as Ht'.
    { apply table_ok_insert; [done..|]. apply failure_differs; [done|congruence]. }
    destruct (kmp_candidate_spec (S (length n)) (<[p := Z.of_nat c]> table) p c) as (r & Hr & Hr1 & Hr2 & Hr3);
      [split; [apply Ht'|intros i Hi; apply Ht'; lia]|done|apply Hc|congruence| |destruct Hc as [[? _] _]; lia|].
    { intros k Hk Hb. pose proof (proj2 Hc k Hb). lia. }
    assert (r < Z.of_nat p) as Hrp by (destruct (decide (0 ≤ r)) as [H0|]; [destruct (Hr2 H0) as [[? _] _]|]; lia).
    rewrite Hr, bind_value, int_increment_small, bind_value by (unfold int_length in Hint; lia). replace (r + 1) with (Z.of_nat (Z.to_nat (r + 1))) by lia. rewrite Nat.add_1_r.
    apply IH; [lia|done|apply longest_border_succ; [lia|done..]|lia].
Qed.

Lemma prepare_table_spec : n ≠ [] → ∃ table, prepare_kmp_partial_table n = Returned table ∧ table_ok table (length n).
Proof.
  intros Hn. assert (0 < length n)%nat as Hl by (destruct n; [done|cbn; lia]). unfold prepare_kmp_partial_table.
  rewrite set_index_lt, bind_value by (by rewrite length_replicate).
  apply (kmp_table_loop_spec (S (length n)) _ 1 0); [lia| | |lia].
  - split; [by rewrite length_insert, length_replicate|]. intros i Hi. replace i with 0%nat by lia. exists (-1).
    rewrite list_lookup_insert_eq by (rewrite length_replicate; lia). split; [done|]. split_and!; [lia..|].
    intros k _ [? _]. lia.
  - split; [apply border_zero; lia|]. intros k [? _]. lia.
Qed.

(** ** The search *)
Lemma occurs_at_lookup h s : occurs_at h n s ↔ ∀ j, (j < length n)%nat → n !! j = h !! (s + j)%nat.
Proof.
  unfold occurs_at. split.
  - intros E j Hj. rewrite <-E at 1. by rewrite lookup_take_lt, lookup_drop by done.
  - intros E. apply list_eq. intros j. destruct (decide (j < length n)%nat).
    + rewrite lookup_take_lt, lookup_drop by done. by rewrite E.
    + by rewrite lookup_take_ge, lookup_ge_None_2 by lia.
Qed.

(** [q] characters of the needle end at [i], and the needle occurs at no earlier position than
    theirs. *)
Record matched (h : bytes) (i q : nat) : Prop := mk_matched {
  matched_before : (q ≤ i)%nat;
  matched_text : ∀ j, (j < q)%nat → n !! j = h !! (i - q + j)%nat;
  matched_none : ∀ s, (s < i - q)%nat → ¬ occurs_at h n s;
}.

Lemma matched_next h i q : (q < length n)%nat → matched h i q → n !! q = h !! i → matched h (S i) (S q).
Proof.
  intros Hq [Hle Ht Hno] E. split; [lia| |done]. intros j Hj. destruct (decide (j = q)) as [->|].
  - rewrite E. f_equal. lia.
  - rewrite Ht by lia. f_equal.
Qed.

(** No occurrence starts after the entry [t] of the table and up to [i]. *)
Lemma matched_skip h i q t s :
  (q < length n)%nat → matched h i q → n !! q ≠ h !! i → failure q t →
  (s ≤ i)%nat → t < Z.of_nat (i - s) → ¬ occurs_at h n s.
Proof.
  intros Hq [Hle Ht Hno] E (_ & _ & Hmax) Hs Hts Hocc. destruct (decide (s < i - q)%nat); [by apply (Hno s)|].
  rewrite occurs_at_lookup in Hocc. destruct (decide (s = i - q)%nat) as [->|].
  { apply E. rewrite (Hocc q) by done. f_equal. lia. }
  apply E. rewrite <-(Hmax (i - s)%nat); [|done|].
  - rewrite Hocc by lia. f_equal. lia.
  - split; [lia|]. intros j Hj. rewrite Hocc by lia. rewrite (Ht (q - (i - s) + j)%nat) by lia. f_equal. lia.
Qed.

Lemma matched_fail h i q t :
  (q < length n)%nat → matched h i q → n !! q ≠ h !! i → failure q t → 0 ≤ t → matched h i (Z.to_nat t).
Proof.
  intros Hq Hm E Hf Ht. pose proof Hf as (Hb & Hr & _). destruct (Hb Ht) as [[Hlt Hbt] _]. pose proof Hm as [Hle Htext _]. split.
  - lia.
  - intros j Hj. rewrite Hbt, Htext by lia. f_equal. lia.
  - intros s Hs. apply (matched_skip h i q t s); [done..|lia|lia].
Qed.

Lemma matched_restart h i q :
  (q < length n)%nat → matched h i q → n !! q ≠ h !! i → failure q (-1) → matched h (S i) 0.
Proof.
  intros Hq Hm E Hf. split; [lia|lia|]. intros s Hs. apply (matched_skip h i q (-1) s); [done..|lia|lia].
Qed.

Lemma kmp_search_spec fuel haystack table pre cur q :
  let h := pre ++ concat haystack in
  let i := (length pre + cur)%nat in
  table_ok table (length n) → (q < length n)%nat → (cur ≤ length (default [] (head haystack)))%nat →
  matched h i q → (2 * (length h - i) + q + length haystack < fuel)%nat →
  kmp_search_loop fuel haystack n table i cur (Z.of_nat q) = Returned (first_occurrence h n).
Proof.
  intros h i Ht. unfold h, i. clear h i. revert haystack pre cur q.
  induction fuel as [|fuel IH]; intros haystack pre cur q Hq Hcur Hm Hf; [lia|]. cbn [kmp_search_loop].
  destruct haystack as [|chunk next].
  { cbn in Hcur. rewrite first_occurrence_none; [done|]. intros s Hs Hocc. cbn [concat] in *. rewrite app_nil_r in *.
    destruct (decide (s < length pre + cur - q)%nat); [by apply (matched_none _ _ _ Hm s)|].
    apply (f_equal length) in Hocc. rewrite length_take, length_drop in Hocc. lia. }
  cbn [head default from_option id] in Hcur. destruct (Nat.leb_spec (length chunk) cur) as [Hge|Hlt].
  { replace (length pre + cur)%nat with (length (pre ++ chunk) + 0)%nat by (rewrite length_app; lia).
    cbn [concat] in *. rewrite app_assoc in *. apply IH; [done|lia| |].
    - by replace (length (pre ++ chunk) + 0)%nat with (length pre + cur)%nat by (rewrite length_app; lia).
    - rewrite !length_app in *. cbn [length] in *. lia. }
  destruct (lookup_lt_is_Some_2 n q Hq) as [a Ea]. destruct (lookup_lt_is_Some_2 chunk cur Hlt) as [b Eb].
  rewrite Nat2Z.id, (at_index_lt _ _ _ Ea), bind_value, (at_index_lt _ _ _ Eb), bind_value.
  set (h := pre ++ concat (chunk :: next)) in *.
  assert (h !! (length pre + cur)%nat = Some b) as Eh.
  { unfold h. cbn [concat]. rewrite lookup_app_r by lia. rewrite lookup_app_l by lia. by replace (length pre + cur - length pre)%nat with cur by lia. }
  pose proof (lookup_lt_Some _ _ _ Eh) as Hih.
  destruct (Z.eqb_spec a b) as [->|Hab].
  - assert (matched h (S (length pre + cur)) (S q)) as Hm' by (apply matched_next; [done|done|congruence]).
    rewrite int_increment_small, bind_value by (unfold int_length in Hint; lia).
    destruct (Z.eqb_spec (Z.of_nat q + 1) (Z.of_nat (length n))) as [Eq|Hne].
    + rewrite (first_occurrence_some h n (S (length pre + cur) - S q)%nat); [do 2 f_equal; lia| |apply Hm'|lia].
      apply occurs_at_lookup. intros j Hj. apply (matched_text _ _ _ Hm'). lia.
    + replace (length pre + cur + 1)%nat with (length pre + (cur + 1))%nat by lia.
      replace (Z.of_nat q + 1) with (Z.of_nat (S q)) by lia. apply IH; [lia|cbn; lia| |fold h; cbn [length] in *; lia].
      fold h. by replace (length pre + (cur + 1))%nat with (S (length pre + cur)) by lia.
  - destruct (proj2 Ht q Hq) as (t & Et & Hft). rewrite (at_index_lt _ _ _ Et), bind_value.
    assert (n !! q ≠ h !! (length pre + cur)%nat) as Hne by congruence. pose proof Hft as (_ & Hr & _).
    destruct (Z.ltb_spec t 0).
    + assert (t = -1) as -> by lia. rewrite int_increment_small, bind_value by lia. replace (length pre + cur + 1)%nat with (length pre + (cur + 1))%nat by lia.
      apply (IH (chunk :: next) pre (cur + 1)%nat 0%nat); [lia|cbn; lia| |fold h; cbn [length] in *; lia].
      fold h. replace (length pre + (cur + 1))%nat with (S (length pre + cur)) by lia. by eapply matched_restart.
    + rewrite <-(Z2Nat.id t) by lia. apply IH; [lia|cbn; lia| |fold h; cbn [length] in *; lia]. fold h. by apply (matched_fail h _ q).
Qed.

Lemma memmem_kmp_spec haystack : n ≠ [] → memmem_kmp haystack n = Returned (first_occurrence (concat haystack) n).
Proof.
  intros Hn. unfold memmem_kmp. destruct (prepare_table_spec Hn) as (table & -> & Ht). rewrite bind_value.
  apply (kmp_search_spec _ haystack table [] 0 0); [done|destruct n; [done|cbn; lia]|cbn; lia|split; cbn; lia|cbn [app length]; lia].
Qed.

End Needle.

(** ** [memmem] *)
Lemma memmem_finds haystack needle :
  int_length needle → memmem_optional haystack needle = Returned (first_occurrence haystack needle).
Proof.
  intros Hint. apply memmem_shortcuts. intros Hn. destruct (Nat.ltb_spec (length needle) 32); [by apply bitap_first|].
  rewrite memmem_kmp_spec by done. cbn [concat]. by rewrite app_nil_r.
Qed.

(** C36: for a needle of less than [2 ^ 31] bytes, whose positions are [int]s, [memmem] returns the first position
    at which it occurs in the haystack, and nothing when it does not occur: by the shortcuts on
    the lengths, the bit-parallel bitap scan for needles of less than 32 bytes, and the
    Knuth-Morris-Pratt search for longer ones.  The search over a list of chunks gives the first
    position in the chunks one after the other, also where an occurrence spans several, for a
    needle that is not empty. *)
Theorem memmem_correct (needle : bytes) (Hint : int_length needle) :
  (∀ haystack, memmem_optional haystack needle = Returned (first_occurrence haystack needle))
  ∧ (needle ≠ [] → ∀ chunks, memmem_kmp chunks needle = Returned (first_occurrence (concat chunks) needle)).
Proof. split; intros; [by apply memmem_finds|by apply memmem_kmp_spec]. Qed.

Lemma memmem_correct_witness :
  int_length (sv "cabd") ∧ memmem_optional (sv "abcabcabd") (sv "cabd") = Returned (Some 5%nat)
  ∧ memmem_kmp [sv "abcab"; sv "ca"; sv "bd"] (sv "cabd") = Returned (Some 5%nat).
Proof.
  assert (int_length (sv "cabd")) as Hint by (vm_compute; reflexivity). split; [exact Hint|].
  destruct (memmem_correct (sv "cabd") Hint) as [Hone Hchunks]. rewrite Hone, Hchunks by discriminate. split; reflexivity.
Defined.

(** The search over chunks aborts on an empty needle: the table has no first entry. *)
Example memmem_kmp_empty_needle haystack : memmem_kmp haystack [] = VerifyFailed.
Proof. reflexivity. Qed.
