(* ===== verification/CircularBuffer.v ===== *)
(** * AK/CircularBuffer.cpp: circular buffers

    A buffer of a fixed capacity with a reading head, the number of bytes that are still
    to be read and the number of bytes before the writing head that may be read again.
    A span of the buffer is its offset and its size; a write whose source is a span of
    the same buffer reads the bytes that are there when each part is copied
    ([Span::copy_trimmed_to] is a [memmove]).  [size_t] is [nat]: capacities are below
    [2 ^ 62], so that no sum wraps around; a subtraction that would wrap and a remainder
    by zero are aborts.  A stream is the function it is read or written by. *)
From S2P Require Import Prelude CharacterTypes Externals Utf8 StringView Kmp.

Record CircularBuffer := mk_circular_buffer {
  m_buffer : bytes;
  m_reading_head : nat;
  m_used_space : nat;
  m_seekback_limit : nat;
}.

(** A span of a buffer: offset and size. *)
Record BufferSpan := mk_span { span_offset : nat; span_size : nat }.

(** [Span::slice(start, length)] on the whole buffer. *)
Definition buffer_slice (buffer : bytes) (start len : nat) : outcome BufferSpan :=
  verify (start + len <=? length buffer)%nat (Returned (mk_span start len)).

Definition span_bytes (buffer : bytes) (s : BufferSpan) : bytes := take (span_size s) (drop (span_offset s) buffer).

(** [a % b] on [size_t]. *)
Definition size_mod (a b : nat) : outcome nat := if (b =? 0)%nat then VerifyFailed else Returned (a mod b)%nat.

(** [memmove] into the buffer at an offset. *)
Definition overwrite (buffer : bytes) (start : nat) (data : bytes) : bytes :=
  take start buffer ++ data ++ drop (start + length data) buffer.

(** What a write copies from. *)
Inductive WriteSource := FromBytes (data : bytes) | FromBuffer (s : BufferSpan).

Definition source_size (source : WriteSource) : nat :=
  match source with FromBytes data => length data | FromBuffer s => span_size s end.

Definition source_bytes (buffer : bytes) (source : WriteSource) : bytes :=
  match source with FromBytes data => data | FromBuffer s => span_bytes buffer s end.

Module CircularBuffers.

(** [create_empty]: [uninitialized] is what the allocation holds. *)
Definition create_empty (uninitialized : bytes) : CircularBuffer := mk_circular_buffer uninitialized 0 0 0.

Definition create_initialized (buffer : bytes) : CircularBuffer := mk_circular_buffer buffer 0 (length buffer) 0.

Definition buffer_capacity (this : CircularBuffer) : nat := length (m_buffer this).

Definition empty_space (this : CircularBuffer) : outcome nat := size_sub (buffer_capacity this) (m_used_space this).

Definition is_wrapping_around (this : CircularBuffer) : bool :=
  (buffer_capacity this <=? m_reading_head this + m_used_space this)%nat.

Definition buffer_clear (this : CircularBuffer) : CircularBuffer := mk_circular_buffer (m_buffer this) 0 0 0.

Definition next_write_span (this : CircularBuffer) : outcome BufferSpan :=
  if is_wrapping_around this then
    start ← size_sub (m_reading_head this + m_used_space this) (buffer_capacity this);
    len ← size_sub (buffer_capacity this) (m_used_space this);
    buffer_slice (m_buffer this) start len
  else
    len ← size_sub (buffer_capacity this) (m_reading_head this + m_used_space this);
    buffer_slice (m_buffer this) (m_reading_head this + m_used_space this) len.

Definition next_read_span (this : CircularBuffer) (offset : nat) : outcome BufferSpan :=
  if (0 <? offset)%nat && (m_used_space this <=? offset)%nat then Returned (mk_span 0 0)
  else
    reading_head ←
      (if (0 <? offset)%nat then size_mod (m_reading_head this + offset) (buffer_capacity this)
       else Returned (m_reading_head this));
    used_space ← (if (0 <? offset)%nat then size_sub (m_used_space this) offset else Returned (m_used_space this));
    available ← size_sub (buffer_capacity this) reading_head;
    buffer_slice (m_buffer this) reading_head (min available used_space).

Definition next_seekback_span (this : CircularBuffer) (distance : nat) : outcome BufferSpan :=
  verify (m_seekback_limit this <=? buffer_capacity this)%nat (
    verify (distance <=? m_seekback_limit this)%nat (
      before ← size_sub (buffer_capacity this + m_reading_head this + m_used_space this) distance;
      read_offset ← size_mod before (buffer_capacity this);
      available ← size_sub (buffer_capacity this) read_offset;
      buffer_slice (m_buffer this) read_offset (min available distance))).

(** The heads after [written_bytes] more bytes are in the buffer. *)
Definition after_write (this : CircularBuffer) (buffer : bytes) (written_bytes : nat) : CircularBuffer :=
  let limit := (m_seekback_limit this + written_bytes)%nat in
  mk_circular_buffer buffer (m_reading_head this) (m_used_space this + written_bytes)
    (if (buffer_capacity this <? limit)%nat then buffer_capacity this else limit).

Fixpoint write_loop (fuel : nat) (this : CircularBuffer) (source : WriteSource) (remaining : nat)
    : outcome (CircularBuffer * nat) :=
  match fuel with
  | O => OutOfFuel
  | S fuel =>
      if (remaining =? 0)%nat then Returned (this, remaining)
      else
        next_span ← next_write_span this;
        if (span_size next_span =? 0)%nat then Returned (this, remaining)
        else
          let data := take (span_size next_span) (drop (source_size source - remaining) (source_bytes (m_buffer this) source)) in
          let written_bytes := length data in
          let this := after_write this (overwrite (m_buffer this) (span_offset next_span) data) written_bytes in
          remaining ← size_sub remaining written_bytes;
          write_loop fuel this source remaining
  end.

(** The buffer and the number of bytes written. *)
Definition write_from (this : CircularBuffer) (source : WriteSource) : outcome (CircularBuffer * nat) :=
  '(this, remaining) ← write_loop (S (source_size source)) this source (source_size source);
  written ← size_sub (source_size source) remaining;
  Returned (this, written).

Definition buffer_write (this : CircularBuffer) (data : bytes) : outcome (CircularBuffer * nat) := write_from this (FromBytes data).

(** The heads after [read_bytes] bytes were read. *)
Definition after_read (this : CircularBuffer) (read_bytes : nat) : outcome CircularBuffer :=
  used_space ← size_sub (m_used_space this) read_bytes;
  let reading_head := (m_reading_head this + read_bytes)%nat in
  Returned (mk_circular_buffer (m_buffer this)
    (if (buffer_capacity this <=? reading_head)%nat then reading_head - buffer_capacity this else reading_head)%nat
    used_space (m_seekback_limit this)).

Fixpoint read_loop (fuel : nat) (this : CircularBuffer) (remaining : nat) (out : bytes) : outcome (CircularBuffer * bytes) :=
  match fuel with
  | O => OutOfFuel
  | S fuel =>
      if (remaining =? 0)%nat then Returned (this, out)
      else
        next_span ← next_read_span this 0;
        if (span_size next_span =? 0)%nat then Returned (this, out)
        else
          let data := take remaining (span_bytes (m_buffer this) next_span) in
          this ← after_read this (length data);
          read_loop fuel this (remaining - length data) (out ++ data)
  end.

(** [read] into [size] bytes. *)
Definition buffer_read (this : CircularBuffer) (size : nat) : outcome (CircularBuffer * bytes) :=
  read_loop (S size) this size [].

Fixpoint seekback_loop (fuel : nat) (this : CircularBuffer) (remaining distance : nat) (out : bytes) : outcome bytes :=
  match fuel with
  | O => OutOfFuel
  | S fuel =>
      if (remaining =? 0)%nat then Returned out
      else
        next_span ← next_seekback_span this distance;
        if (span_size next_span =? 0)%nat then Returned out
        else
          let data := take remaining (span_bytes (m_buffer this) next_span) in
          distance ← size_sub distance (length data);
          seekback_loop fuel this (remaining - length data) distance (out ++ data)
  end.

(** [None] is the error. *)
Definition read_with_seekback (this : CircularBuffer) (size distance : nat) : outcome (option bytes) :=
  if (m_seekback_limit this <? distance)%nat then Returned None
  else out ← seekback_loop (S size) this size distance []; Returned (Some out).

Definition buffer_discard (this : CircularBuffer) (discarding_size : nat) : outcome (option CircularBuffer) :=
  if (m_used_space this <? discarding_size)%nat then Returned None
  else
    used_space ← size_sub (m_used_space this) discarding_size;
    reading_head ← size_mod (m_reading_head this + discarding_size) (buffer_capacity this);
    Returned (Some (mk_circular_buffer (m_buffer this) reading_head used_space (m_seekback_limit this))).

(** [read_some] is given the size of a span and returns the bytes it put there. *)
Definition fill_from_stream (this : CircularBuffer) (read_some : nat → option bytes) : outcome (option (CircularBuffer * nat)) :=
  next_span ← next_write_span this;
  if (span_size next_span =? 0)%nat then Returned (Some (this, 0%nat))
  else
    match read_some (span_size next_span) with
    | None => Returned None
    | Some data =>
        Returned (Some (after_write this (overwrite (m_buffer this) (span_offset next_span) data) (length data), length data))
    end.

(** [write_some] is given bytes and returns how many of them it took. *)
Definition flush_to_stream (this : CircularBuffer) (write_some : bytes → option nat) : outcome (option (CircularBuffer * nat)) :=
  next_span ← next_read_span this 0;
  if (span_size next_span =? 0)%nat then Returned (Some (this, 0%nat))
  else
    match write_some (span_bytes (m_buffer this) next_span) with
    | None => Returned None
    | Some written_bytes => this ← after_read this written_bytes; Returned (Some (this, written_bytes))
    end.

Fixpoint copy_loop (fuel : nat) (this : CircularBuffer) (distance remaining_length : nat) : outcome (CircularBuffer * nat) :=
  match fuel with
  | O => OutOfFuel
  | S fuel =>
      if (remaining_length =? 0)%nat then Returned (this, remaining_length)
      else
        space ← empty_space this;
        if (space =? 0)%nat then Returned (this, remaining_length)
        else
          next_span ← next_seekback_span this distance;
          if (span_size next_span =? 0)%nat then Returned (this, remaining_length)
          else
            '(this, length_written) ←
              write_from this (FromBuffer (mk_span (span_offset next_span) (min (span_size next_span) remaining_length)));
            remaining_length ← size_sub remaining_length length_written;
            let distance :=
              if (distance <? remaining_length)%nat && (length_written =? distance)%nat then (distance * 2)%nat else distance in
            copy_loop fuel this distance remaining_length
  end.

Definition copy_from_seekback (this : CircularBuffer) (distance len : nat) : outcome (option (CircularBuffer * nat)) :=
  if (m_seekback_limit this <? distance)%nat then Returned None
  else
    '(this, remaining_length) ← copy_loop (S len) this distance len;
    copied ← size_sub len remaining_length;
    Returned (Some (this, copied)).

(** The spans that [offset_of] searches. *)
Definition search_spans (this : CircularBuffer) (read_from read_until : nat) : outcome (list bytes) :=
  span0 ← next_read_span this 0;
  let original_span_0_size := span_size span0 in
  let skipped := min (span_size span0) read_from in
  let span0 := if (0 <? read_from)%nat then mk_span (span_offset span0 + skipped) (span_size span0 - skipped) else span0 in
  if (read_until <? span_size span0 + read_from)%nat then
    len ← size_sub read_until read_from;
    Returned [span_bytes (m_buffer this) (mk_span (span_offset span0) (min (span_size span0) len)); []]
  else if is_wrapping_around this then
    start ← size_sub (max original_span_0_size read_from) original_span_0_size;
    len ← size_sub (min read_until (m_used_space this)) original_span_0_size;
    span1 ← buffer_slice (m_buffer this) start len;
    Returned [span_bytes (m_buffer this) span0; span_bytes (m_buffer this) span1]
  else Returned [span_bytes (m_buffer this) span0; []].

Definition offset_of (this : CircularBuffer) (needle : bytes) (from until : option nat) : outcome (option nat) :=
  let read_from := default 0%nat from in
  let read_until := default (m_used_space this) until in
  verify (read_from <=? read_until)%nat (
    spans ← search_spans this read_from read_until;
    maybe_found ← memmem_kmp spans needle;
    Returned (match maybe_found with Some found => Some (found + read_from)%nat | None => None end)).

End CircularBuffers.
Export CircularBuffers.
