(* ===== verification/CircularBufferCorrect.v ===== *)
(** * Circular buffers refine byte queues with a history

    [written b] is the whole buffer in the order of writing, the oldest byte first.  Its
    last [m_used_space] bytes are still to be read ([content]) and its last
    [m_seekback_limit] bytes can be read again ([history]).  Every operation is a list
    operation on these. *)
From S2P Require Import Prelude CharacterTypes Externals Utf8 StringView Kmp CircularBuffer.

(** A position in the buffer that is at most once around. *)
Definition wrap (cap x : nat) : nat := if (x <? cap)%nat then x else (x - cap)%nat.

Ltac unfold_wrap := unfold wrap in *; repeat (match goal with |- context [(?a <? ?b)%nat] => destruct (Nat.ltb_spec a b)
  | H : context [(?a <? ?b)%nat] |- _ => destruct (Nat.ltb_spec a b) end).

Lemma mod_wrap cap x : (x < 2 * cap)%nat → (x mod cap)%nat = wrap cap x.
Proof.
  intros Hx. unfold wrap. destruct (Nat.ltb_spec x cap); [by apply Nat.mod_small|].
  symmetry. apply (Nat.mod_unique _ _ 1); lia.
Qed.

Lemma size_mod_pos a b : (0 < b)%nat → size_mod a b = Returned (a mod b)%nat.
Proof. intros Hb. unfold size_mod. by destruct (Nat.eqb_spec b 0); [lia|]. Qed.

Lemma buffer_slice_le buffer start len : (start + len ≤ length buffer)%nat → buffer_slice buffer start len = Returned (mk_span start len).
Proof. intros Hle. unfold buffer_slice. by rewrite verify_true by (by apply Nat.leb_le). Qed.

(** ** The bytes in the order of writing *)
Record buffer_wf (b : CircularBuffer) : Prop := mk_buffer_wf {
  head_in_range : (m_reading_head b < buffer_capacity b)%nat;
  used_in_range : (m_used_space b ≤ buffer_capacity b)%nat;
  limit_in_range : (m_seekback_limit b ≤ buffer_capacity b)%nat;
}.

Definition writing_head (b : CircularBuffer) : nat := wrap (buffer_capacity b) (m_reading_head b + m_used_space b).

Definition rotate (w : nat) (l : bytes) : bytes := drop w l ++ take w l.

Definition written (b : CircularBuffer) : bytes := rotate (writing_head b) (m_buffer b).
Definition content (b : CircularBuffer) : bytes := drop (buffer_capacity b - m_used_space b) (written b).
Definition history (b : CircularBuffer) : bytes := drop (buffer_capacity b - m_seekback_limit b) (written b).

Lemma writing_head_lt b : buffer_wf b → (writing_head b < buffer_capacity b)%nat.
Proof. intros [Hh Hu _]. unfold writing_head. unfold_wrap; lia. Qed.

Lemma length_written b : length (written b) = buffer_capacity b.
Proof. unfold written, rotate. rewrite length_app, length_drop, length_take. unfold buffer_capacity. lia. Qed.

Lemma length_content b : buffer_wf b → length (content b) = m_used_space b.
Proof. intros [_ Hu _]. unfold content. rewrite length_drop, length_written. lia. Qed.

Lemma length_history b : buffer_wf b → length (history b) = m_seekback_limit b.
Proof. intros [_ _ Hl]. unfold history. rewrite length_drop, length_written. lia. Qed.

Lemma written_lookup b i :
  buffer_wf b → (i < buffer_capacity b)%nat → written b !! i = m_buffer b !! wrap (buffer_capacity b) (writing_head b + i).
Proof.
  intros Hwf Hi. pose proof (writing_head_lt b Hwf) as Hw. unfold written, rotate. unfold buffer_capacity in *.
  set (w := writing_head b) in *. clearbody w. unfold wrap. destruct (Nat.ltb_spec (w + i) (length (m_buffer b))).
  - rewrite lookup_app_l by (rewrite length_drop; lia). by rewrite lookup_drop.
  - rewrite lookup_app_r by (rewrite length_drop; lia). rewrite length_drop, lookup_take_lt by lia. f_equal. lia.
Qed.

(** A span that does not cross the writing head. *)
Lemma span_written b s len i :
  buffer_wf b → s = wrap (buffer_capacity b) (writing_head b + i) → (i + len ≤ buffer_capacity b)%nat →
  (s + len ≤ buffer_capacity b)%nat → span_bytes (m_buffer b) (mk_span s len) = take len (drop i (written b)).
Proof.
  intros Hwf Es Hi Hs. unfold span_bytes. cbn [span_offset span_size]. apply list_eq. intros j.
  destruct (decide (j < len)%nat); [|by rewrite !lookup_take_ge by lia].
  rewrite !lookup_take_lt, !lookup_drop, written_lookup by (done || lia). f_equal.
  pose proof (writing_head_lt b Hwf). unfold_wrap; lia.
Qed.

(** ** Writing *)
Lemma rotate_overwrite w buffer data :
  (w < length buffer)%nat → (w + length data ≤ length buffer)%nat →
  rotate (wrap (length buffer) (w + length data)) (overwrite buffer w data) = drop (length data) (rotate w buffer) ++ data.
Proof.
  intros Hw Hl. unfold rotate, overwrite. rewrite (drop_app_le (drop w buffer)) by (rewrite length_drop; lia). rewrite drop_drop, <-app_assoc.
  unfold wrap. destruct (Nat.ltb_spec (w + length data) (length buffer)).
  - rewrite !app_assoc. rewrite drop_app_length', take_app_length' by (rewrite length_app, length_take; lia).
    by rewrite app_assoc.
  - replace (w + length data - length buffer)%nat with 0%nat by lia. rewrite drop_0, take_0, app_nil_r.
    by rewrite (drop_ge buffer (w + length data)), app_nil_r by lia.
Qed.

Lemma length_overwrite buffer w data : (w + length data ≤ length buffer)%nat → length (overwrite buffer w data) = length buffer.
Proof. intros Hl. unfold overwrite. rewrite !length_app, length_take, length_drop. lia. Qed.

(** [b'] is [b] after the first [k] bytes of [data] were written. *)
Record wrote (b : CircularBuffer) (data : bytes) (k : nat) (b' : CircularBuffer) : Prop := mk_wrote {
  wrote_capacity : buffer_capacity b' = buffer_capacity b;
  wrote_head : m_reading_head b' = m_reading_head b;
  wrote_used : m_used_space b' = (m_used_space b + k)%nat;
  wrote_room : (m_used_space b + k ≤ buffer_capacity b)%nat;
  wrote_limit : m_seekback_limit b' = min (buffer_capacity b) (m_seekback_limit b + k);
  wrote_written : written b' = drop k (written b) ++ take k data;
}.

Lemma wrote_wf b data k b' : buffer_wf b → wrote b data k b' → buffer_wf b'.
Proof. intros [Hh Hu Hl] [Ec Eh Eu Hr El _]. split; rewrite ?Ec, ?Eh, ?Eu, ?El; lia. Qed.

Lemma wrote_nothing b data : buffer_wf b → wrote b data 0 b.
Proof. intros [Hh Hu Hl]. split; try done; [lia..|]. by rewrite take_0, app_nil_r, drop_0. Qed.

Lemma wrote_content b data k b' : buffer_wf b → (k ≤ length data)%nat → wrote b data k b' → content b' = content b ++ take k data.
Proof.
  intros Hwf Hk [Ec _ Eu Hr _ Ew]. unfold content. rewrite Ec, Eu, Ew. pose proof (length_written b).
  rewrite drop_app_le by (rewrite length_drop; lia). rewrite drop_drop. do 2 f_equal. lia.
Qed.

Lemma wrote_history b data k b' :
  buffer_wf b → (k ≤ length data)%nat → wrote b data k b' →
  history b' = drop (length (history b ++ take k data) - min (buffer_capacity b) (m_seekback_limit b + k)) (history b ++ take k data).
Proof.
  intros Hwf Hk [Ec _ _ Hr El Ew]. pose proof (length_written b). pose proof (limit_in_range b Hwf).
  rewrite length_app, length_history, length_take by done. unfold history. rewrite Ec, El, Ew.
  rewrite !drop_app_le by (rewrite length_drop; lia). rewrite !drop_drop. do 2 f_equal. lia.
Qed.

Lemma next_write_span_spec b :
  buffer_wf b → ∃ len, next_write_span b = Returned (mk_span (writing_head b) len)
    ∧ (writing_head b + len ≤ buffer_capacity b)%nat ∧ (m_used_space b + len ≤ buffer_capacity b)%nat
    ∧ (len = 0 → m_used_space b = buffer_capacity b)%nat.
Proof.
  intros [Hh Hu Hl]. unfold next_write_span, is_wrapping_around, writing_head, wrap.
  destruct (Nat.leb_spec (buffer_capacity b) (m_reading_head b + m_used_space b)) as [Hle|Hlt].
  - rewrite (proj2 (Nat.ltb_ge _ _)) by done. rewrite !size_sub_le by lia. cbn [mbind outcome_bind].
    eexists. rewrite buffer_slice_le by (unfold buffer_capacity in *; lia). split_and!; [done|lia..].
  - rewrite (proj2 (Nat.ltb_lt _ _)) by done. rewrite size_sub_le, bind_value by lia.
    eexists. rewrite buffer_slice_le by (unfold buffer_capacity in *; lia). split_and!; [done|lia..].
Qed.

(** One part of a write. *)
Lemma wrote_step b data k b' m :
  buffer_wf b → wrote b data k b' → (k + m ≤ length data)%nat → (writing_head b' + m ≤ buffer_capacity b)%nat →
  (m_used_space b' + m ≤ buffer_capacity b)%nat →
  wrote b data (k + m) (after_write b' (overwrite (m_buffer b') (writing_head b') (take m (drop k data))) m).
Proof.
  intros Hwf Hw Hkm Hwm Hum. pose proof (wrote_wf _ _ _ _ Hwf Hw) as Hwf'. pose proof (writing_head_lt _ Hwf') as Hlt.
  destruct Hw as [Ec Eh Eu Hr El Ew]. assert (length (take m (drop k data)) = m) as Hlm by (rewrite length_take, length_drop; lia).
  assert (length (overwrite (m_buffer b') (writing_head b') (take m (drop k data))) = buffer_capacity b) as Ho.
  { rewrite length_overwrite by (rewrite Hlm; unfold buffer_capacity in *; lia). done. }
  set (b2 := after_write b' _ m). assert (buffer_capacity b2 = buffer_capacity b) as Ec2 by (unfold buffer_capacity at 1; done).
  split; [done|done|cbn; lia|lia| |].
  - unfold b2, after_write. cbn [m_seekback_limit]. rewrite Ec, El. destruct (Nat.ltb_spec (buffer_capacity b) (min (buffer_capacity b) (m_seekback_limit b + k) + m)); lia.
  - unfold written at 1. assert (writing_head b2 = wrap (length (m_buffer b')) (writing_head b' + length (take m (drop k data)))) as ->.
    { unfold writing_head at 1. rewrite Ec2, Hlm. change (length (m_buffer b')) with (buffer_capacity b'). cbn [m_reading_head m_used_space b2 after_write].
      pose proof (head_in_range _ Hwf') as Hh. unfold writing_head in *. rewrite Ec in *. unfold_wrap; lia. }
    cbn [m_buffer b2 after_write]. rewrite rotate_overwrite, Hlm by (rewrite ?Hlm; unfold buffer_capacity in *; lia).
    fold (written b'). rewrite Ew. pose proof (length_written b). rewrite drop_app_le by (rewrite length_drop; lia).
    rewrite drop_drop, <-app_assoc. by rewrite take_take_drop.
Qed.

(** The source of a write gives the same bytes while the write goes on. *)
Definition stable_source (b : CircularBuffer) (source : WriteSource) (data : bytes) : Prop :=
  length data = source_size source ∧
  ∀ k b', (k < length data)%nat → wrote b data k b' → drop k (source_bytes (m_buffer b') source) = drop k data.

Lemma write_loop_spec fuel b source data k b' :
  buffer_wf b → stable_source b source data → wrote b data k b' → (k ≤ length data)%nat → (length data - k < fuel)%nat →
  ∃ b'', write_loop fuel b' source (length data - k) = Returned (b'', length data - min (length data) (buffer_capacity b - m_used_space b))%nat
    ∧ wrote b data (min (length data) (buffer_capacity b - m_used_space b)) b''.
Proof.
  intros Hwf Hs. revert k b'. induction fuel as [|fuel IH]; intros k b' Hw Hk Hf; [lia|]. cbn [write_loop].
  pose proof (wrote_wf _ _ _ _ Hwf Hw) as Hwf'. pose proof (wrote_room _ _ _ _ Hw) as Hr.
  destruct (Nat.eqb_spec (length data - k) 0) as [E0|Hne].
  { exists b'. replace (min (length data) (buffer_capacity b - m_used_space b)) with k by lia. done. }
  destruct (next_write_span_spec b' Hwf') as (len & -> & Hwl & Hul & Hz). rewrite bind_value. cbn [span_size span_offset].
  rewrite (wrote_capacity _ _ _ _ Hw) in *. rewrite (wrote_used _ _ _ _ Hw) in *.
  destruct (Nat.eqb_spec len 0) as [->|Hlen].
  { exists b'. replace (min (length data) (buffer_capacity b - m_used_space b)) with k by lia. done. }
  rewrite <-(proj1 Hs). replace (length data - (length data - k))%nat with k by lia. rewrite (proj2 Hs k b') by (done || lia).
  rewrite length_take, length_drop. set (m := min len (length data - k)).
  replace (take len (drop k data)) with (take m (drop k data))
    by (unfold m; destruct (decide (len ≤ length data - k)%nat); [f_equal; lia|rewrite !take_ge by (rewrite length_drop; lia); done]).
  rewrite size_sub_le, bind_value by (unfold m; lia). replace (length data - k - m)%nat with (length data - (k + m))%nat by lia.
  apply IH; [|unfold m; lia..]. apply wrote_step; [done|done|unfold m; lia..|rewrite (wrote_used _ _ _ _ Hw); unfold m; lia].
Qed.

Lemma write_from_spec b source data :
  buffer_wf b → stable_source b source data →
  let n := min (length data) (buffer_capacity b - m_used_space b) in
  ∃ b', write_from b source = Returned (b', n) ∧ buffer_wf b' ∧ wrote b data n b'.
Proof.
  intros Hwf Hs n. unfold write_from. rewrite <-(proj1 Hs).
  destruct (write_loop_spec (S (length data)) b source data 0 b) as (b' & Hl & Hw);
    [done|done|by apply wrote_nothing|lia|lia|].
  rewrite Nat.sub_0_r in Hl. rewrite Hl, bind_value. rewrite size_sub_le, bind_value by lia. exists b'.
  split_and!; [do 2 f_equal; lia|by eapply wrote_wf|done].
Qed.

Lemma buffer_write_spec b data :
  buffer_wf b →
  let n := min (length data) (buffer_capacity b - m_used_space b) in
  ∃ b', buffer_write b data = Returned (b', n) ∧ buffer_wf b' ∧ wrote b data n b'.
Proof. intros Hwf. by apply write_from_spec. Qed.

(** ** Reading *)
Lemma after_read_spec b n :
  buffer_wf b → (n ≤ m_used_space b)%nat →
  ∃ b', after_read b n = Returned b' ∧ buffer_wf b' ∧ buffer_capacity b' = buffer_capacity b ∧ written b' = written b
    ∧ m_used_space b' = (m_used_space b - n)%nat ∧ m_seekback_limit b' = m_seekback_limit b.
Proof.
  intros Hwf Hn. destruct Hwf as [Hh Hu Hl]. unfold after_read. rewrite size_sub_le, bind_value by done.
  eexists. split; [done|]. split_and!; try done.
  - unfold buffer_capacity in *. split; unfold buffer_capacity; cbn [m_buffer m_reading_head m_used_space m_seekback_limit]; [|lia|done].
    destruct (Nat.leb_spec (length (m_buffer b)) (m_reading_head b + n)); lia.
  - unfold written. cbn [m_buffer]. f_equal. unfold writing_head, buffer_capacity in *. cbn [m_buffer m_reading_head m_used_space].
    destruct (Nat.leb_spec (length (m_buffer b)) (m_reading_head b + n)); unfold_wrap; lia.
Qed.

Lemma content_after_read b b' n :
  buffer_wf b → (n ≤ m_used_space b)%nat → buffer_capacity b' = buffer_capacity b → written b' = written b →
  m_used_space b' = (m_used_space b - n)%nat → content b' = drop n (content b).
Proof. intros [_ Hu _] Hn Ec Ew Eu. unfold content. rewrite Ec, Ew, Eu, drop_drop. f_equal. lia. Qed.

(** A span that starts [back] bytes before the writing head. *)
Lemma span_before b s len back :
  buffer_wf b → (back ≤ buffer_capacity b)%nat → s = wrap (buffer_capacity b) (writing_head b + (buffer_capacity b - back)) →
  len = min (buffer_capacity b - s) back →
  span_bytes (m_buffer b) (mk_span s len) = take len (drop (buffer_capacity b - back) (written b)).
Proof.
  intros Hwf Hb Es ->. pose proof (writing_head_lt b Hwf). apply span_written; [done|done|lia|].
  assert (s ≤ buffer_capacity b)%nat by (subst s; unfold_wrap; lia). lia.
Qed.

Lemma next_read_span_zero b :
  buffer_wf b → next_read_span b 0 = Returned (mk_span (m_reading_head b) (min (buffer_capacity b - m_reading_head b) (m_used_space b))).
Proof.
  intros [Hh Hu Hl]. unfold next_read_span. cbn [Nat.ltb Nat.leb andb]. rewrite !bind_value, size_sub_le, bind_value by lia.
  apply buffer_slice_le. unfold buffer_capacity in *. lia.
Qed.

Lemma next_read_span_spec b :
  buffer_wf b → ∃ len, next_read_span b 0 = Returned (mk_span (m_reading_head b) len)
    ∧ (len ≤ m_used_space b)%nat ∧ (len = 0 → m_used_space b = 0)%nat
    ∧ span_bytes (m_buffer b) (mk_span (m_reading_head b) len) = take len (content b).
Proof.
  intros Hwf. pose proof Hwf as [Hh Hu Hl]. rewrite next_read_span_zero by done.
  exists (min (buffer_capacity b - m_reading_head b) (m_used_space b)). split_and!; [done|lia|lia|].
  apply span_before; [done|done| |done]. unfold writing_head. unfold_wrap; lia.
Qed.

Lemma read_loop_spec fuel b remaining out :
  buffer_wf b → (remaining < fuel)%nat →
  ∃ b', read_loop fuel b remaining out = Returned (b', out ++ take remaining (content b)) ∧ buffer_wf b'
    ∧ buffer_capacity b' = buffer_capacity b ∧ written b' = written b
    ∧ m_used_space b' = (m_used_space b - remaining)%nat ∧ m_seekback_limit b' = m_seekback_limit b.
Proof.
  revert b remaining out. induction fuel as [|fuel IH]; intros b remaining out Hwf Hf; [lia|]. cbn [read_loop].
  destruct (Nat.eqb_spec remaining 0) as [->|Hne].
  { exists b. rewrite take_0, app_nil_r. split_and!; [done..|lia|done]. }
  destruct (next_read_span_spec b Hwf) as (len & -> & Hlen & Hz & Hs). rewrite bind_value. cbn [span_size].
  pose proof (length_content b Hwf) as Hlc. destruct (Nat.eqb_spec len 0) as [->|Hnz].
  { exists b. rewrite (take_ge (content b)), (nil_length_inv (content b)), app_nil_r by lia. split_and!; [done..|lia|done]. }
  rewrite Hs, take_take, length_take. set (m := min (min remaining len) (length (content b))).
  destruct (after_read_spec b m) as (b1 & -> & Hwf1 & Ec1 & Ew1 & Eu1 & El1); [done|unfold m; lia|]. rewrite bind_value.
  destruct (IH b1 (remaining - m)%nat (out ++ take (min remaining len) (content b))) as (b2 & -> & Hwf2 & Ec2 & Ew2 & Eu2 & El2);
    [done|unfold m; lia|].
  exists b2. split_and!; [|done|congruence|congruence|rewrite Eu2, Eu1; unfold m; lia|congruence].
  rewrite (content_after_read b b1 m), <-app_assoc by (done || unfold m; lia). do 3 f_equal.
  replace (min remaining len) with m by (unfold m; lia). rewrite take_take_drop. f_equal. unfold m. lia.
Qed.

(** ** Reading again *)
Lemma next_seekback_span_spec b distance :
  buffer_wf b → (distance ≤ m_seekback_limit b)%nat →
  ∃ s len, next_seekback_span b distance = Returned (mk_span s len)
    ∧ s = wrap (buffer_capacity b) (writing_head b + (buffer_capacity b - distance))
    ∧ (s + len ≤ buffer_capacity b)%nat ∧ (len ≤ distance)%nat ∧ (len = 0 → distance = 0)%nat
    ∧ span_bytes (m_buffer b) (mk_span s len) = take len (drop (m_seekback_limit b - distance) (history b)).
Proof.
  intros Hwf Hd. pose proof Hwf as [Hh Hu Hl]. pose proof (writing_head_lt b Hwf) as Hw. unfold next_seekback_span.
  rewrite !verify_true by (by apply Nat.leb_le). rewrite size_sub_le, bind_value, size_mod_pos, bind_value by lia.
  assert ((buffer_capacity b + m_reading_head b + m_used_space b - distance) mod buffer_capacity b
    = wrap (buffer_capacity b) (writing_head b + (buffer_capacity b - distance)))%nat as ->.
  { rewrite <-mod_wrap by lia. unfold writing_head, wrap. destruct (Nat.ltb_spec (m_reading_head b + m_used_space b) (buffer_capacity b)); [f_equal; lia|].
    replace (buffer_capacity b + m_reading_head b + m_used_space b - distance)%nat
      with (m_reading_head b + m_used_space b - buffer_capacity b + (buffer_capacity b - distance) + 1 * buffer_capacity b)%nat by lia.
    by rewrite Nat.Div0.mod_add. }
  set (s := wrap _ _). assert (s < buffer_capacity b)%nat as Hs by (unfold s; unfold_wrap; lia).
  rewrite size_sub_le, bind_value by lia. exists s, (min (buffer_capacity b - s) distance).
  rewrite buffer_slice_le by (unfold buffer_capacity in *; lia). split_and!; [done|done|lia..|].
  rewrite (span_before b s _ distance) by (done || lia). unfold history. rewrite drop_drop. do 2 f_equal. lia.
Qed.

Lemma seekback_loop_spec fuel b remaining distance out :
  buffer_wf b → (distance ≤ m_seekback_limit b)%nat → (remaining < fuel)%nat →
  seekback_loop fuel b remaining distance out = Returned (out ++ take remaining (drop (m_seekback_limit b - distance) (history b))).
Proof.
  intros Hwf. revert remaining distance out. induction fuel as [|fuel IH]; intros remaining distance out Hd Hf; [lia|]. cbn [seekback_loop].
  destruct (Nat.eqb_spec remaining 0) as [->|Hne]; [by rewrite take_0, app_nil_r|].
  destruct (next_seekback_span_spec b distance Hwf Hd) as (s & len & -> & _ & _ & Hlen & Hz & Hs). rewrite bind_value. cbn [span_size].
  pose proof (length_history b Hwf) as Hlh. set (h := drop (m_seekback_limit b - distance) (history b)) in *.
  assert (length h = distance) as Hl by (unfold h; rewrite length_drop; lia).
  destruct (Nat.eqb_spec len 0) as [->|Hnz].
  { rewrite (take_ge h), (nil_length_inv h), app_nil_r by lia. done. }
  rewrite Hs, take_take, length_take. set (m := min (min remaining len) (length h)).
  rewrite size_sub_le, bind_value, IH by (unfold m; lia). rewrite <-app_assoc. do 2 f_equal.
  replace (min remaining len) with m by (unfold m; lia).
  replace (drop (m_seekback_limit b - (distance - m)) (history b)) with (drop m h)
    by (unfold h; rewrite drop_drop; f_equal; unfold m; lia).
  rewrite take_take_drop. f_equal. unfold m. lia.
Qed.

Lemma read_with_seekback_spec b size distance :
  buffer_wf b →
  read_with_seekback b size distance
  = Returned (if (m_seekback_limit b <? distance)%nat then None
              else Some (take size (drop (length (history b) - distance) (history b)))).
Proof.
  intros Hwf. unfold read_with_seekback. destruct (Nat.ltb_spec (m_seekback_limit b) distance); [done|].
  rewrite seekback_loop_spec, bind_value, length_history by (done || lia). done.
Qed.

Lemma buffer_discard_spec b n :
  buffer_wf b →
  if (m_used_space b <? n)%nat then buffer_discard b n = Returned None
  else ∃ b', buffer_discard b n = Returned (Some b') ∧ buffer_wf b' ∧ content b' = drop n (content b) ∧ history b' = history b.
Proof.
  intros Hwf. pose proof Hwf as [Hh Hu Hl]. unfold buffer_discard. destruct (Nat.ltb_spec (m_used_space b) n) as [|Hn]; [done|].
  rewrite size_sub_le, bind_value, size_mod_pos, bind_value, mod_wrap by lia.
  destruct (after_read_spec b n Hwf Hn) as (b' & Hb & Hwf' & Ec & Ew & Eu & El). unfold after_read in Hb.
  rewrite size_sub_le, bind_value in Hb by done. injection Hb as Hb. exists b'. split; [|split_and!; [done| |]].
  - rewrite <-Hb. do 3 f_equal. unfold wrap. destruct (Nat.leb_spec (buffer_capacity b) (m_reading_head b + n)); unfold_wrap; lia.
  - by apply content_after_read.
  - unfold history. by rewrite Ec, Ew, El.
Qed.

(** ** Streams *)
Lemma fill_from_stream_spec b read_some :
  buffer_wf b → (∀ size data, read_some size = Some data → length data ≤ size)%nat →
  ∃ size, (size ≤ buffer_capacity b - length (content b))%nat ∧ (size = 0 → length (content b) = buffer_capacity b)%nat
  ∧ if (size =? 0)%nat then fill_from_stream b read_some = Returned (Some (b, 0%nat))
    else match read_some size with
    | None => fill_from_stream b read_some = Returned None
    | Some data => ∃ b', fill_from_stream b read_some = Returned (Some (b', length data)) ∧ buffer_wf b'
        ∧ content b' = content b ++ data
        ∧ history b' = drop (length (history b) + length data - buffer_capacity b) (history b ++ data)
    end.
Proof.
  intros Hwf Hr. unfold fill_from_stream. destruct (next_write_span_spec b Hwf) as (len & -> & Hwl & Hul & Hz). rewrite bind_value.
  cbn [span_size span_offset]. pose proof (length_content b Hwf) as Hlc. pose proof (length_history b Hwf) as Hlh.
  exists len. split_and!; [lia|lia|]. destruct (Nat.eqb_spec len 0); [done|].
  destruct (read_some len) as [data|] eqn:E; [|done]. pose proof (Hr _ _ E) as Hlen. eexists. split; [done|].
  assert (wrote b data (0 + length data) (after_write b (overwrite (m_buffer b) (writing_head b) (take (length data) (drop 0 data))) (length data))) as Hw.
  { apply wrote_step; [done|by apply wrote_nothing|lia..]. }
  rewrite drop_0, take_ge in Hw by done. cbn [Nat.add] in Hw. split_and!; [by eapply wrote_wf| |].
  - rewrite (wrote_content _ _ _ _ Hwf (Nat.le_refl _) Hw). by rewrite firstn_all.
  - rewrite (wrote_history _ _ _ _ Hwf (Nat.le_refl _) Hw). rewrite firstn_all, length_app. f_equal. lia.
Qed.

Lemma flush_to_stream_spec b write_some :
  buffer_wf b → (∀ data n, write_some data = Some n → n ≤ length data)%nat →
  ∃ sent, sent `prefix_of` content b ∧ (sent = [] → content b = [])
  ∧ if bool_decide (sent = []) then flush_to_stream b write_some = Returned (Some (b, 0%nat))
    else match write_some sent with
    | None => flush_to_stream b write_some = Returned None
    | Some n => ∃ b', flush_to_stream b write_some = Returned (Some (b', n)) ∧ buffer_wf b'
        ∧ content b' = drop n (content b) ∧ history b' = history b
    end.
Proof.
  intros Hwf Hw. unfold flush_to_stream. destruct (next_read_span_spec b Hwf) as (len & -> & Hlen & Hz & Hs). rewrite bind_value.
  cbn [span_size]. pose proof (length_content b Hwf) as Hlc. rewrite Hs. exists (take len (content b)).
  assert (length (take len (content b)) = len) as Hl by (rewrite length_take; lia). split; [apply prefix_take|].
  destruct (Nat.eqb_spec len 0) as [->|Hnz].
  { split; [|done]. intros _. apply nil_length_inv. rewrite Hlc. auto. }
  assert (take len (content b) ≠ []) as Hne by (intros Hnil%(f_equal length); cbn in Hnil; lia).
  split; [done|]. rewrite bool_decide_eq_false_2 by done.
  destruct (write_some (take len (content b))) as [n|] eqn:E; [|done]. pose proof (Hw _ _ E) as Hn.
  destruct (after_read_spec b n) as (b' & -> & Hwf' & Ec & Ew & Eu & El); [done|lia|]. rewrite bind_value.
  exists b'. split_and!; [done|done|apply content_after_read; [done|lia|done..]|]. unfold history. by rewrite Ec, Ew, El.
Qed.


(** ** Copying from the history

    The reference copies byte by byte, as a decompressor of Lempel-Ziv does: each byte is
    the one [d] before the end of what has been written so far. *)
Fixpoint lz_copy (d n : nat) (h : bytes) : bytes :=
  match n with
  | O => h
  | S n => lz_copy d n (h ++ take 1 (drop (length h - d) h))
  end.

Lemma lz_copy_chunk d m n h :
  (m ≤ d)%nat → (d ≤ length h)%nat → lz_copy d (m + n) h = lz_copy d n (h ++ take m (drop (length h - d) h)).
Proof.
  revert h. induction m as [|m IH]; intros h Hm Hd; [by rewrite take_0, app_nil_r|]. cbn [Nat.add lz_copy].
  destruct (drop (length h - d) h) as [|c rest] eqn:E; [apply (f_equal length) in E; rewrite length_drop in E; cbn in E; lia|].
  cbn [take]. rewrite take_0. assert (length h - d < length h)%nat as Hlt by lia.
  assert (drop (S (length h - d)) h = rest) as Er by (change (S (length h - d)) with (1 + (length h - d))%nat; by rewrite Nat.add_comm, <-drop_drop, E).
  rewrite IH by (rewrite ?length_app; cbn; lia). rewrite length_app. cbn [length].
  replace (length h + 1 - d)%nat with (S (length h - d)) by lia. rewrite drop_app_le, Er by lia.
  assert (length rest = (d - 1)%nat) as Hrest by (rewrite <-Er, length_drop; lia).
  rewrite take_app_le by lia. by rewrite <-app_assoc.
Qed.

Lemma lz_copy_block d m h : (m ≤ d)%nat → (d ≤ length h)%nat → lz_copy d m h = h ++ take m (drop (length h - d) h).
Proof. intros Hm Hd. pose proof (lz_copy_chunk d m 0 h Hm Hd) as E. by rewrite Nat.add_0_r in E. Qed.

Lemma lz_copy_add d m n h : lz_copy d (m + n) h = lz_copy d n (lz_copy d m h).
Proof. revert h. induction m as [|m IH]; intros h; [done|]. apply IH. Qed.

(** After a whole block was repeated, copying from twice the distance is the same. *)
Lemma lz_copy_double d n p l : length l = d → (0 < d)%nat → lz_copy d n (p ++ l ++ l) = lz_copy (d * 2) n (p ++ l ++ l).
Proof.
  revert p l. induction n as [|n IH]; intros p l Hl Hd; [done|]. cbn [lz_copy]. destruct l as [|c l]; [cbn in Hl; lia|].
  assert (length (p ++ (c :: l) ++ c :: l) = length p + d + d)%nat as -> by (rewrite !length_app; lia).
  rewrite (app_assoc p) at 2. rewrite drop_app_ge by (rewrite length_app; lia). rewrite length_app.
  replace (length p + d + d - d - (length p + length (c :: l)))%nat with 0%nat by lia. rewrite drop_0.
  rewrite (drop_app_ge p ((c :: l) ++ c :: l)) by lia. replace (length p + d + d - d * 2 - length p)%nat with 0%nat by lia.
  cbn [drop app take]. rewrite !take_0.
  specialize (IH (p ++ [c]) (l ++ [c])). rewrite length_app in IH. cbn [length] in *.
  replace ((p ++ c :: l ++ c :: l) ++ [c]) with ((p ++ [c]) ++ (l ++ [c]) ++ l ++ [c]); [apply IH; lia|].
  rewrite <-!app_assoc. cbn [app]. rewrite <-!app_assoc. done.
Qed.

Lemma seekback_stable b distance s len m :
  buffer_wf b → (distance ≤ buffer_capacity b)%nat →
  s = wrap (buffer_capacity b) (writing_head b + (buffer_capacity b - distance)) →
  (s + len ≤ buffer_capacity b)%nat → (len ≤ distance)%nat → (m ≤ len)%nat →
  stable_source b (FromBuffer (mk_span s m)) (take m (drop (buffer_capacity b - distance) (written b))).
Proof.
  intros Hwf Hd Es Hs Hlen Hm. pose proof (length_written b) as Hlw.
  split; [cbn; rewrite length_take, length_drop; lia|]. rewrite length_take, length_drop. intros k b' Hk Hw.
  pose proof (wrote_wf _ _ _ _ Hwf Hw) as Hwf'. pose proof Hw as [Ec Eh Eu Hr _ Ew]. cbn [source_bytes].
  assert (drop k (span_bytes (m_buffer b') (mk_span s m)) = span_bytes (m_buffer b') (mk_span (s + k) (m - k))) as ->.
  { unfold span_bytes. cbn [span_offset span_size]. by rewrite skipn_firstn_comm, drop_drop. }
  rewrite (span_written b' _ _ (buffer_capacity b - distance)); [|done| |lia..].
  - rewrite Ew, drop_app_le by (rewrite length_drop; lia). rewrite take_app_le by (rewrite !length_drop; lia).
    rewrite skipn_firstn_comm, !drop_drop. do 2 f_equal. lia.
  - pose proof (head_in_range b Hwf) as Hh. unfold writing_head in *. rewrite Ec, Eh, Eu. unfold_wrap; lia.
Qed.

(** One round of the loop. *)
Lemma copy_round b distance r :
  buffer_wf b → (0 < distance ≤ m_seekback_limit b)%nat → (0 < r ≤ buffer_capacity b - m_used_space b)%nat →
  ∃ s m b', next_seekback_span b distance = Returned s ∧ (span_size s =? 0)%nat = false
    ∧ write_from b (FromBuffer (mk_span (span_offset s) (min (span_size s) r))) = Returned (b', m)
    ∧ (0 < m ≤ distance)%nat ∧ (m ≤ r)%nat ∧ buffer_wf b'
    ∧ wrote b (take m (drop (length (history b) - distance) (history b))) m b'.
Proof.
  intros Hwf Hd Hr. destruct (next_seekback_span_spec b distance Hwf) as (s & len & Hn & Es & Hsl & Hlen & Hz & _); [lia|].
  pose proof (limit_in_range b Hwf) as Hl. pose proof (length_written b) as Hlw.
  exists (mk_span s len), (min len r). cbn [span_size span_offset].
  assert (stable_source b (FromBuffer (mk_span s (min len r))) (take (min len r) (drop (buffer_capacity b - distance) (written b)))) as Hst
    by (apply (seekback_stable b distance s len); [done|lia|done|lia..]).
  destruct (write_from_spec b _ _ Hwf Hst) as (b' & Hb & Hwf' & Hw). rewrite length_take, length_drop, Hlw in Hb, Hw.
  replace (min (min (min len r) (buffer_capacity b - (buffer_capacity b - distance))) (buffer_capacity b - m_used_space b))
    with (min len r) in Hb, Hw by lia.
  exists b'. split_and!; [done|apply Nat.eqb_neq; lia|done|lia|lia|lia|done|].
  unfold history at 2. rewrite drop_drop. rewrite length_history by done.
  by replace (buffer_capacity b - m_seekback_limit b + (m_seekback_limit b - distance))%nat with (buffer_capacity b - distance)%nat by lia.
Qed.

(** The history is the end of the stream [h] of all bytes. *)
Definition history_of (b : CircularBuffer) (h : bytes) : Prop :=
  (m_seekback_limit b ≤ length h)%nat ∧ history b = drop (length h - m_seekback_limit b) h.

Lemma history_of_wrote b h data m b' :
  buffer_wf b → history_of b h → length data = m → wrote b data m b' → history_of b' (h ++ data).
Proof.
  intros Hwf [Hl Hh] Hm Hw. assert (m ≤ length data)%nat as Hle by lia. pose proof (wrote_history b data m b' Hwf Hle Hw) as E.
  pose proof (wrote_limit _ _ _ _ Hw) as El. pose proof (length_history b Hwf) as Hlh. rewrite take_ge in E by lia.
  split; rewrite length_app; [lia|]. rewrite E, length_app, Hlh, Hh, El, <-drop_app_le, drop_drop by lia. f_equal. lia.
Qed.

(** The distance may be doubled after a whole block was copied. *)
Lemma copy_distance d distance m r h data :
  (0 < distance)%nat → (m ≤ distance ≤ length h)%nat → data = take m (drop (length h - distance) h) →
  (∀ n, lz_copy distance n h = lz_copy d n h) →
  let distance' := if (distance <? r - m)%nat && (m =? distance)%nat then (distance * 2)%nat else distance in
  ∀ n, lz_copy distance' n (h ++ data) = lz_copy d n (h ++ data).
Proof.
  intros Hd Hm Ed Heq distance' n. assert (lz_copy distance n (h ++ data) = lz_copy d n (h ++ data)) as E1.
  { rewrite Ed, <-lz_copy_block, <-lz_copy_add by lia. by rewrite !Heq, lz_copy_add. }
  unfold distance'. destruct (Nat.ltb_spec distance (r - m)), (Nat.eqb_spec m distance) as [->|]; cbn [andb]; try apply E1.
  rewrite <-E1. assert (length data = distance) as Hl by (rewrite Ed, length_take, length_drop; lia).
  assert (h = take (length h - distance) h ++ data) as Esplit.
  { rewrite Ed, (take_ge (drop _ _)) by (rewrite length_drop; lia). by rewrite take_drop. }
  rewrite Esplit, <-app_assoc. symmetry. by apply lz_copy_double.
Qed.

Lemma copy_loop_spec fuel b d distance r h :
  buffer_wf b → (0 < distance ≤ m_seekback_limit b)%nat → (r ≤ buffer_capacity b - m_used_space b)%nat → (r < fuel)%nat →
  history_of b h → (∀ n, lz_copy distance n h = lz_copy d n h) →
  ∃ b' ext, copy_loop fuel b distance r = Returned (b', 0%nat) ∧ buffer_wf b' ∧ buffer_capacity b' = buffer_capacity b
    ∧ lz_copy d r h = h ++ ext ∧ length ext = r ∧ content b' = content b ++ ext
    ∧ history_of b' (h ++ ext) ∧ m_seekback_limit b' = min (buffer_capacity b) (m_seekback_limit b + r).
Proof.
  revert b distance r h. induction fuel as [|fuel IH]; intros b distance r h Hwf Hd Hr Hf Hh Heq; [lia|]. cbn [copy_loop].
  pose proof (limit_in_range b Hwf) as Hl. destruct (Nat.eqb_spec r 0) as [->|Hnz].
  { exists b, []. rewrite !app_nil_r. split_and!; [done..|lia]. }
  unfold empty_space. rewrite size_sub_le, bind_value by apply Hwf.
  rewrite (proj2 (Nat.eqb_neq (buffer_capacity b - m_used_space b) 0)) by lia.
  destruct (copy_round b distance r) as (s & m & b1 & -> & Hs & Hw & Hm & Hmr & Hwf1 & Hwrote); [done|lia|lia|].
  rewrite bind_value, Hs, Hw, bind_value, size_sub_le, bind_value by lia. cbv zeta.
  set (data := take m (drop (length (history b) - distance) (history b))) in *. pose proof (length_history b Hwf) as Hlh.
  assert (length data = m) as Hdata by (unfold data; rewrite length_take, length_drop; lia).
  assert (data = take m (drop (length h - distance) h)) as Ed.
  { unfold data. rewrite Hlh. destruct Hh as [? ->]. rewrite drop_drop. do 2 f_equal. lia. }
  pose proof (history_of_wrote b h data m b1 Hwf Hh Hdata Hwrote) as Hh1.
  pose proof Hwrote as [Ec _ Eu Hroom El _]. destruct Hh as [Hlim Hhist].
  set (distance' := if (distance <? r - m)%nat && (m =? distance)%nat then (distance * 2)%nat else distance).
  assert (∀ n, lz_copy distance' n (h ++ data) = lz_copy d n (h ++ data)) as Heq1.
  { apply (copy_distance d distance m r); try done; lia. }
  assert (lz_copy d m h = h ++ data) as Em by (rewrite <-Heq, Ed; apply lz_copy_block; lia).
  destruct (IH b1 distance' (r - m)%nat (h ++ data)) as (b2 & ext & -> & Hwf2 & Ec2 & Elz & Hext & Hcont & Hh2 & El2);
    [done|unfold distance'; destruct (Nat.ltb_spec distance (r - m)), (Nat.eqb_spec m distance); cbn [andb]; lia|lia|lia|done|done|].
  exists b2, (data ++ ext). rewrite !app_assoc. split_and!; [done|done|congruence| |rewrite length_app; lia| |done|lia].
  - replace r with (m + (r - m))%nat by lia. by rewrite lz_copy_add, Em.
  - rewrite Hcont, (wrote_content b data m b1) by (done || lia). by rewrite take_ge by lia.
Qed.

(** C22: copying from the history equals the byte-by-byte copy of Lempel-Ziv, in which a byte that was just
    copied may be copied again: when there is room for [n] bytes, [copy_from_seekback] appends
    exactly those bytes to the content and to the history, although it copies whole spans, reads
    from the buffer that it writes to and doubles the distance as it goes. *)
Theorem copy_from_seekback_correct (b : CircularBuffer) (d n : nat)
    (Hwf : buffer_wf b) (Hd : (0 < d ≤ length (history b))%nat) (Hn : (n ≤ buffer_capacity b - length (content b))%nat) :
  ∃ b' ext, copy_from_seekback b d n = Returned (Some (b', n)) ∧ buffer_wf b' ∧ buffer_capacity b' = buffer_capacity b
    ∧ lz_copy d n (history b) = history b ++ ext ∧ length ext = n ∧ content b' = content b ++ ext
    ∧ history b' = drop (length (history b) + n - buffer_capacity b) (history b ++ ext).
Proof.
  pose proof (length_history b Hwf) as Hlh. rewrite length_content in Hn by done.
  unfold copy_from_seekback. rewrite (proj2 (Nat.ltb_ge _ _)) by lia.
  destruct (copy_loop_spec (S n) b d d n (history b)) as (b' & ext & -> & Hwf' & Ec & Elz & Hext & Hcont & [Hlim Hh] & El);
    [done|lia|lia|lia|split; [lia|by rewrite Hlh, Nat.sub_diag, drop_0]|done|].
  rewrite bind_value, size_sub_le, bind_value, Nat.sub_0_r by lia. exists b', ext. split_and!; [done..|].
  rewrite Hh, length_app, El, Hlh. f_equal. pose proof (limit_in_range b Hwf). lia.
Qed.

(** ** Searching *)
Lemma search_spans_spec b from until :
  buffer_wf b → (from ≤ until ≤ m_used_space b)%nat → (from ≤ buffer_capacity b - m_reading_head b)%nat →
  ∃ spans, search_spans b from until = Returned spans ∧ concat spans = drop from (take until (content b)).
Proof.
  intros Hwf Hu Hf. pose proof Hwf as [Hh Huc Hl]. unfold search_spans. rewrite next_read_span_zero, bind_value by done.
  cbn [span_size span_offset]. set (orig := min (buffer_capacity b - m_reading_head b) (m_used_space b)). cbv zeta.
  assert ((if (0 <? from)%nat then mk_span (m_reading_head b + min orig from) (orig - min orig from) else mk_span (m_reading_head b) orig)
    = mk_span (m_reading_head b + from) (orig - from)) as ->.
  { destruct from as [|from]; cbn [Nat.ltb Nat.leb]; f_equal; unfold orig; lia. }
  cbn [span_size span_offset]. rewrite skipn_firstn_comm. assert (from ≤ orig)%nat as Hfo by (unfold orig; lia).
  assert (∀ len, (len ≤ orig - from)%nat → span_bytes (m_buffer b) (mk_span (m_reading_head b + from) len) = take len (drop from (content b))) as Hspan0.
  { intros len Hlen. destruct (decide (len = 0%nat)) as [->|]; [done|]. unfold content. rewrite drop_drop. apply span_written; [done| |unfold orig in *; lia..].
    unfold writing_head. unfold orig in *. unfold_wrap; lia. }
  destruct (Nat.ltb_spec until (orig - from + from)) as [Hlt|Hge].
  { rewrite size_sub_le, bind_value by lia. eexists. split; [done|]. cbn [concat]. rewrite !app_nil_r, Hspan0 by lia. f_equal. lia. }
  unfold is_wrapping_around. destruct (Nat.leb_spec (buffer_capacity b) (m_reading_head b + m_used_space b)) as [Hw|Hw].
  - rewrite (size_sub_le (max orig from)), bind_value, size_sub_le, bind_value, buffer_slice_le, bind_value by (unfold orig, buffer_capacity in *; lia).
    eexists. split; [done|]. cbn [concat]. rewrite app_nil_r, Hspan0 by lia.
    rewrite (span_written b _ _ (buffer_capacity b - m_used_space b + orig));
      [|done|unfold writing_head, orig in *; unfold_wrap; lia|unfold orig in *; lia..].
    rewrite <-drop_drop. fold (content b).
    replace (drop orig (content b)) with (drop (orig - from) (drop from (content b))) by (rewrite drop_drop; f_equal; lia).
    rewrite take_take_drop. f_equal. unfold orig in *. lia.
  - eexists. split; [done|]. cbn [concat]. rewrite !app_nil_r, Hspan0 by lia. f_equal. unfold orig in *. lia.
Qed.

(** The first occurrence in a range of the content that starts before the end of the buffer. *)
Lemma offset_of_spec b needle from until :
  buffer_wf b → needle ≠ [] → int_length needle → (from ≤ until ≤ m_used_space b)%nat → (from ≤ buffer_capacity b - m_reading_head b)%nat →
  offset_of b needle (Some from) (Some until)
  = Returned ((λ found, (found + from)%nat) <$> first_occurrence (drop from (take until (content b))) needle).
Proof.
  intros Hwf Hne Hint Hu Hf. unfold offset_of. cbn [default from_option id]. rewrite verify_true by (apply Nat.leb_le; lia).
  destruct (search_spans_spec b from until Hwf Hu Hf) as (spans & -> & Hspans).
  rewrite bind_value, memmem_kmp_spec, Hspans, bind_value by done. by destruct (first_occurrence _ _).
Qed.

(** ** Examples *)
Definition example_buffer : CircularBuffer := mk_circular_buffer (sv "ijcdefgh") 4 6 8.

Lemma example_buffer_wf : buffer_wf example_buffer.
Proof. split; vm_compute; lia. Qed.


Lemma copy_from_seekback_correct_witness :
  buffer_wf (create_empty (sv "________")) ∧
  ∃ b b', buffer_write (create_empty (sv "________")) (sv "ab") = Returned (b, 2%nat)
    ∧ copy_from_seekback b 2 5 = Returned (Some (b', 5%nat)) ∧ content b' = sv "abababa".
Proof.
  assert (buffer_wf (mk_circular_buffer (sv "ab______") 0 2 2)) as Hwf by (split; vm_compute; lia).
  split; [split; vm_compute; lia|]. exists (mk_circular_buffer (sv "ab______") 0 2 2).
  destruct (copy_from_seekback_correct (mk_circular_buffer (sv "ab______") 0 2 2) 2 5 Hwf) as (b' & ext & Hb & _ & _ & Hlz & _ & Hc & _);
    [vm_compute; lia|vm_compute; lia|].
  exists b'. split; [vm_compute; reflexivity|]. split; [exact Hb|]. rewrite Hc.
  apply (f_equal (drop 2)) in Hlz. vm_compute in Hlz. vm_compute. by rewrite <-Hlz.
Defined.

(** A search that starts beyond the end of the buffer goes on beyond the content: a needle is found in
    bytes that were already overwritten or read, or the slice is out of range. *)
Example offset_of_beyond_content :
  offset_of example_buffer (sv "c") (Some 5%nat) None = Returned (Some 6%nat) ∧ content example_buffer = sv "efghij"
  ∧ offset_of (mk_circular_buffer (sv "bcdefgha") 7 8 8) (sv "c") (Some 3%nat) None = VerifyFailed.
Proof. by vm_compute. Qed.

(** Without room for all bytes the doubled distance can be larger than the history: the copy aborts. *)
Example copy_from_seekback_aborts : copy_from_seekback (mk_circular_buffer (sv "abcd") 0 0 4) 3 7 = VerifyFailed.
Proof. by vm_compute. Qed.

(** A buffer without capacity: discarding nothing takes a remainder by zero. *)
Example discard_without_capacity : buffer_discard (create_empty []) 0 = VerifyFailed.
Proof. by vm_compute. Qed.
