(* ===== verification/MemoryStream.v ===== *)
(** * AK/MemoryStream.{h,cpp} and the loops of AK/Stream.{h,cpp}

    [InputStream] and [OutputStream] are the virtual functions of [Stream] that the
    loops of the base class call; [None] is an error.  An error that is [EINTR], after
    which the loops try again, comes from system calls only.

    A [FixedMemoryStream] reads from a span of memory.  An [AllocatingMemoryStream] is a
    list of chunks: a chunk is the bytes that have been written into its array, [m_head]
    the first and [m_tail] the last of the list, a null pointer when it is empty.
    Allocations do not fail. *)
From S2P Require Import Prelude CharacterTypes Externals Utf8 StringView Kmp.

(** [TRY(...)] *)
Definition try_some {A B} (m : outcome (option A)) (k : A → outcome (option B)) : outcome (option B) :=
  r ← m; match r with Some a => k a | None => Returned None end.

Notation "x ←? m ; k" := (try_some m (λ x, k)) (at level 20, m at level 100, k at level 200, only parsing).
Notation "' x ←? m ; k" := (try_some m (λ x, k)) (at level 20, x pattern, m at level 100, k at level 200, only parsing).

Class InputStream (S : Type) := {
  stream_is_eof : S → bool;
  stream_read_some : S → nat → outcome (option (S * bytes));
  stream_read_until_filled : S → nat → outcome (option (S * bytes));
}.

Class OutputStream (S : Type) := {
  stream_write_some : S → bytes → outcome (option (S * nat));
}.

Module Streams.
Section Base.
Context {S : Type} (is_eof : S → bool) (read_some : S → nat → outcome (option (S * bytes))).

Fixpoint read_until_filled_loop (fuel : nat) (stream : S) (size : nat) (out : bytes) : outcome (option (S * bytes)) :=
  match fuel with
  | O => OutOfFuel
  | Datatypes.S fuel =>
      if (length out <? size)%nat then
        if is_eof stream then Returned None
        else
          '(stream, result) ←? read_some stream (size - length out);
          read_until_filled_loop fuel stream size (out ++ result)
      else Returned (Some (stream, out))
  end.

(** [Stream::read_until_filled], which a stream may override. *)
Definition base_read_until_filled (stream : S) (size : nat) : outcome (option (S * bytes)) :=
  read_until_filled_loop (Datatypes.S size) stream size [].

End Base.

Section Input.
Context {S : Type} `{InputStream S}.

(** [Stream::read_value<u8>] *)
Definition read_value_u8 (stream : S) : outcome (option (S * Z)) :=
  '(stream, buffer) ←? stream_read_until_filled stream 1;
  byte ← at_index buffer 0; Returned (Some (stream, byte)).

(** [buffer] is what is left of the last block. *)
Fixpoint read_until_eof_loop (fuel : nat) (stream : S) (block_size buffer : nat) (data : bytes) : outcome (option (S * bytes)) :=
  match fuel with
  | O => OutOfFuel
  | Datatypes.S fuel =>
      if negb (stream_is_eof stream) then
        let buffer := if (buffer =? 0)%nat then block_size else buffer in
        '(stream, read) ←? stream_read_some stream buffer;
        buffer ← size_sub buffer (length read);
        read_until_eof_loop fuel stream block_size buffer (data ++ read)
      else Returned (Some (stream, data))
  end.

(** [Stream::read_until_eof]; [fuel] bounds the number of reads. *)
Definition read_until_eof (fuel : nat) (stream : S) (block_size : nat) : outcome (option (S * bytes)) :=
  read_until_eof_loop fuel stream block_size 0 [].

End Input.

Section Output.
Context {S : Type} `{OutputStream S}.

Fixpoint write_until_depleted_loop (fuel : nat) (stream : S) (buffer : bytes) (nwritten : nat) : outcome (option S) :=
  match fuel with
  | O => OutOfFuel
  | Datatypes.S fuel =>
      if (nwritten <? length buffer)%nat then
        rest ← substring_view_from buffer nwritten;
        '(stream, written) ←? stream_write_some stream rest;
        write_until_depleted_loop fuel stream buffer (nwritten + written)
      else Returned (Some stream)
  end.

(** [Stream::write_until_depleted] *)
Definition write_until_depleted (stream : S) (buffer : bytes) : outcome (option S) :=
  write_until_depleted_loop (Datatypes.S (length buffer)) stream buffer 0.

End Output.

(** ** Fixed memory *)
Record FixedMemoryStream := mk_fixed {
  m_bytes : bytes;
  m_offset : nat;
  m_writing_enabled : bool;
}.

(** The constructor from read-only bytes. *)
Definition fixed_memory_stream (data : bytes) : FixedMemoryStream := mk_fixed data 0 false.

Definition fixed_is_eof (s : FixedMemoryStream) : bool := (length (m_bytes s) <=? m_offset s)%nat.

Definition fixed_remaining (s : FixedMemoryStream) : outcome nat := size_sub (length (m_bytes s)) (m_offset s).

Definition fixed_advance (s : FixedMemoryStream) (n : nat) : FixedMemoryStream := mk_fixed (m_bytes s) (m_offset s + n) (m_writing_enabled s).

Definition fixed_read_some (s : FixedMemoryStream) (size : nat) : outcome (option (FixedMemoryStream * bytes)) :=
  rest ← substring_view_from (m_bytes s) (m_offset s);
  let read := take (min (length rest) size) rest in
  Returned (Some (fixed_advance s (length read), read)).

Definition fixed_read_until_filled (s : FixedMemoryStream) (size : nat) : outcome (option (FixedMemoryStream * bytes)) :=
  remaining ← fixed_remaining s;
  if (remaining <? size)%nat then Returned None
  else
    rest ← substring_view_from (m_bytes s) (m_offset s);
    Returned (Some (fixed_advance s size, take size rest)).

Inductive SeekMode := SetPosition | FromCurrentPosition | FromEndPosition.

(** The offset is converted to [size_t]. *)
Definition fixed_seek (s : FixedMemoryStream) (offset : Z) (seek_mode : SeekMode) : option (FixedMemoryStream * nat) :=
  let size := Z.of_nat (length (m_bytes s)) in
  let moved target := let target := Z.to_nat (wrap64 target) in
    Some (mk_fixed (m_bytes s) target (m_writing_enabled s), target) in
  match seek_mode with
  | SetPosition => if size <? offset then None else moved offset
  | FromCurrentPosition => if size <? offset + Z.of_nat (m_offset s) then None else moved (Z.of_nat (m_offset s) + offset)
  | FromEndPosition => if size <? - offset then None else moved (size + offset)
  end.

Definition fixed_write_some (s : FixedMemoryStream) (data : bytes) : outcome (option (FixedMemoryStream * nat)) :=
  if negb (m_writing_enabled s) then Returned None
  else
    rest ← substring_view_from (m_bytes s) (m_offset s);
    let nwritten := min (length data) (length rest) in
    let stored := take (m_offset s) (m_bytes s) ++ take nwritten data ++ drop (m_offset s + nwritten) (m_bytes s) in
    Returned (Some (mk_fixed stored (m_offset s + nwritten) (m_writing_enabled s), nwritten)).

Definition fixed_write_until_depleted (s : FixedMemoryStream) (data : bytes) : outcome (option FixedMemoryStream) :=
  remaining ← fixed_remaining s;
  if (remaining <? length data)%nat then Returned None
  else '(s, _) ←? fixed_write_some s data; Returned (Some s).

(** ** Allocating memory *)
Definition CHUNK_SIZE : nat := Z.to_nat 4096.

Record AllocatingMemoryStream := mk_allocating {
  m_chunks : list bytes;
  m_head_read_offset : nat;
  m_tail_write_offset : nat;
  m_used_buffer_size : nat;
}.

Definition allocating_memory_stream : AllocatingMemoryStream := mk_allocating [] 0 0 0.

Definition allocating_is_eof (s : AllocatingMemoryStream) : bool := (m_used_buffer_size s =? 0)%nat.

Definition append_new_chunk (s : AllocatingMemoryStream) : AllocatingMemoryStream :=
  mk_allocating (m_chunks s ++ [[]]) (m_head_read_offset s) 0 (m_used_buffer_size s).

Definition pop_head_chunk (s : AllocatingMemoryStream) : outcome AllocatingMemoryStream :=
  match m_chunks s with
  | [] => VerifyFailed
  | [_] => Returned (mk_allocating [] 0 0 (m_used_buffer_size s))
  | _ :: chunks => Returned (mk_allocating chunks 0 (m_tail_write_offset s) (m_used_buffer_size s))
  end.

(** The end of the data of a chunk, with the chunks behind it. *)
Definition chunk_end (s : AllocatingMemoryStream) (behind : list bytes) : nat :=
  match behind with [] => m_tail_write_offset s | _ => CHUNK_SIZE end.

(** The unread bytes of a chunk from an offset on: they have been written. *)
Definition chunk_available (chunk : bytes) (offset stop : nat) : outcome bytes :=
  len ← size_sub stop offset; substring_view chunk offset len.

Definition peek_some_contiguous (s : AllocatingMemoryStream) : outcome bytes :=
  match m_chunks s with
  | [] => Returned []
  | chunk :: behind => chunk_available chunk (m_head_read_offset s) (chunk_end s behind)
  end.

Fixpoint peek_loop (s : AllocatingMemoryStream) (chunks : list bytes) (chunk_offset size : nat) (out : bytes) : outcome bytes :=
  match chunks with
  | [] => Returned out
  | chunk :: behind =>
      if (length out <? size)%nat then
        available ← chunk_available chunk chunk_offset (chunk_end s behind);
        let copied := min (length available) (size - length out) in
        let out := out ++ take copied available in
        if (copied <? length available)%nat then Returned out else peek_loop s behind 0 size out
      else Returned out
  end.

(** What is copied to a buffer of this size. *)
Definition peek_some (s : AllocatingMemoryStream) (size : nat) : outcome bytes :=
  peek_loop s (m_chunks s) (m_head_read_offset s) size [].

(** [m_head_read_offset += n], and the chunk is dropped when it has been read. *)
Definition consume_head (s : AllocatingMemoryStream) (n used stop : nat) : outcome AllocatingMemoryStream :=
  let s := mk_allocating (m_chunks s) (m_head_read_offset s + n) (m_tail_write_offset s) used in
  if (m_head_read_offset s =? stop)%nat then pop_head_chunk s else Returned s.

Fixpoint allocating_read_loop (fuel : nat) (s : AllocatingMemoryStream) (size : nat) (out : bytes)
    : outcome (AllocatingMemoryStream * bytes) :=
  match fuel with
  | O => OutOfFuel
  | S fuel =>
      match m_chunks s with
      | [] => Returned (s, out)
      | chunk :: behind =>
          if (length out <? size)%nat then
            let stop := chunk_end s behind in
            available ← chunk_available chunk (m_head_read_offset s) stop;
            let copied := min (length available) (size - length out) in
            used ← size_sub (m_used_buffer_size s) copied;
            s ← consume_head s copied used stop;
            allocating_read_loop fuel s size (out ++ take copied available)
          else Returned (s, out)
      end
  end.

Definition allocating_read_some (s : AllocatingMemoryStream) (size : nat) : outcome (option (AllocatingMemoryStream * bytes)) :=
  '(s, out) ← allocating_read_loop (S size) s size []; Returned (Some (s, out)).

(** Copying into the tail from its write offset on. *)
Definition write_tail (s : AllocatingMemoryStream) (data : bytes) : outcome AllocatingMemoryStream :=
  match last (m_chunks s) with
  | None => VerifyFailed
  | Some tail =>
      Returned (mk_allocating (removelast (m_chunks s) ++ [take (m_tail_write_offset s) tail ++ data]) (m_head_read_offset s)
        (m_tail_write_offset s + length data) (m_used_buffer_size s + length data))
  end.

Fixpoint allocating_write_loop (fuel : nat) (s : AllocatingMemoryStream) (data : bytes) (written_bytes : nat)
    : outcome (AllocatingMemoryStream * nat) :=
  match fuel with
  | O => OutOfFuel
  | S fuel =>
      if (written_bytes <? length data)%nat then
        let s := if bool_decide (m_chunks s = []) || (m_tail_write_offset s =? CHUNK_SIZE)%nat then append_new_chunk s else s in
        tail_remaining ← size_sub CHUNK_SIZE (m_tail_write_offset s);
        rest ← substring_view_from data written_bytes;
        let copied := min (length rest) tail_remaining in
        s ← write_tail s (take copied rest);
        allocating_write_loop fuel s data (written_bytes + copied)
      else Returned (s, written_bytes)
  end.

Definition allocating_write_some (s : AllocatingMemoryStream) (data : bytes) : outcome (option (AllocatingMemoryStream * nat)) :=
  '(s, written_bytes) ← allocating_write_loop (S (length data)) s data 0; Returned (Some (s, written_bytes)).

Fixpoint allocating_discard_loop (fuel : nat) (s : AllocatingMemoryStream) (count : nat) : outcome AllocatingMemoryStream :=
  match fuel with
  | O => OutOfFuel
  | S fuel =>
      if (0 <? count)%nat then
        match m_chunks s with
        | [] => VerifyFailed
        | _ :: behind =>
            let stop := chunk_end s behind in
            available ← size_sub stop (m_head_read_offset s);
            let to_consume := min available count in
            s ← consume_head s to_consume (m_used_buffer_size s) stop;
            allocating_discard_loop fuel s (count - to_consume)
        end
      else Returned s
  end.

Definition allocating_discard (s : AllocatingMemoryStream) (count : nat) : outcome (option AllocatingMemoryStream) :=
  if (m_used_buffer_size s <? count)%nat then Returned None
  else
    let s := mk_allocating (m_chunks s) (m_head_read_offset s) (m_tail_write_offset s) (m_used_buffer_size s - count) in
    s ← allocating_discard_loop (S count) s count; Returned (Some s).

Fixpoint stream_spans (s : AllocatingMemoryStream) (chunks : list bytes) (start : nat) : outcome (list bytes) :=
  match chunks with
  | [] => Returned []
  | chunk :: behind =>
      span ← chunk_available chunk start (chunk_end s behind);
      spans ← stream_spans s behind 0;
      Returned (span :: spans)
  end.

Definition stream_offset_of (s : AllocatingMemoryStream) (needle : bytes) : outcome (option nat) :=
  match m_chunks s with
  | [] => Returned None
  | chunks => spans ← stream_spans s chunks (m_head_read_offset s); memmem_kmp spans needle
  end.

End Streams.
Export Streams.

#[global] Instance fixed_input : InputStream FixedMemoryStream := {
  stream_is_eof := fixed_is_eof;
  stream_read_some := fixed_read_some;
  stream_read_until_filled := fixed_read_until_filled;
}.

#[global] Instance allocating_input : InputStream AllocatingMemoryStream := {
  stream_is_eof := allocating_is_eof;
  stream_read_some := allocating_read_some;
  stream_read_until_filled := base_read_until_filled allocating_is_eof allocating_read_some;
}.

#[global] Instance allocating_output : OutputStream AllocatingMemoryStream := {
  stream_write_some := allocating_write_some;
}.

(** ** Laws

    The bytes that a stream will give, and the bytes that it has taken: what the bit
    streams rely on. *)
Class InputStreamOk (S : Type) `{InputStream S} := {
  input_ok : S → Prop;
  input_contents : S → bytes;
  is_eof_spec : ∀ s, input_ok s → stream_is_eof s = bool_decide (input_contents s = []);
  read_some_spec : ∀ s n, input_ok s →
    ∃ s' k, stream_read_some s n = Returned (Some (s', take k (input_contents s))) ∧ input_ok s'
      ∧ input_contents s' = drop k (input_contents s)
      ∧ (k ≤ n)%nat ∧ (k ≤ length (input_contents s))%nat ∧ ((0 < n)%nat → input_contents s ≠ [] → (0 < k)%nat);
  read_until_filled_spec : ∀ s n, input_ok s →
    if (n <=? length (input_contents s))%nat
    then ∃ s', stream_read_until_filled s n = Returned (Some (s', take n (input_contents s))) ∧ input_ok s'
      ∧ input_contents s' = drop n (input_contents s)
    else stream_read_until_filled s n = Returned None;
}.

Class OutputStreamOk (S : Type) `{OutputStream S} := {
  output_ok : S → Prop;
  output_contents : S → bytes;
  write_some_spec : ∀ s data, output_ok s →
    ∃ s' k, stream_write_some s data = Returned (Some (s', k)) ∧ output_ok s'
      ∧ output_contents s' = output_contents s ++ take k data
      ∧ (k ≤ length data)%nat ∧ (data ≠ [] → (0 < k)%nat);
}.

Lemma try_value {A B} (a : A) (k : A → outcome (option B)) : try_some (Returned (Some a)) k = k a.
Proof. done. Qed.
