(* ===== verification/MemoryStreamCorrect.v ===== *)
(** * Memory streams are queues of bytes

    The invariant of the chunks of an [AllocatingMemoryStream], what each operation does
    to the bytes it holds, and the laws of [InputStream] and [OutputStream] for both
    memory streams. *)
From S2P Require Import Prelude CharacterTypes Externals Utf8 StringView Kmp MemoryStream.

Lemma chunk_size_pos : (0 < CHUNK_SIZE)%nat.
Proof. unfold CHUNK_SIZE. lia. Qed.

#[local] Opaque CHUNK_SIZE.

(** ** The loops of [Stream] *)
Section Laws.
Context {S : Type}.

Lemma write_until_depleted_spec `{OutputStreamOk S} (stream : S) buffer :
  output_ok stream →
  ∃ stream', write_until_depleted stream buffer = Returned (Some stream') ∧ output_ok stream'
    ∧ output_contents stream' = output_contents stream ++ buffer.
Proof.
  assert (∀ fuel (stream : S) n, output_ok stream → (n ≤ length buffer → length buffer - n < fuel →
    ∃ stream', write_until_depleted_loop fuel stream buffer n = Returned (Some stream') ∧ output_ok stream'
    ∧ output_contents stream' = output_contents stream ++ drop n buffer)%nat) as Hloop.
  { induction fuel as [|fuel IH]; intros st n Hok Hn Hf; [lia|]. cbn [write_until_depleted_loop].
    destruct (Nat.ltb_spec n (length buffer)) as [Hlt|Hge].
    - rewrite substring_view_from_in_range, bind_value by lia.
      destruct (write_some_spec st (drop n buffer) Hok) as (st' & k & -> & Hok' & Hc & Hk & Hpos). rewrite length_drop in Hk.
      assert (0 < k)%nat. { apply Hpos. intros Hd%(f_equal length). rewrite length_drop in Hd. cbn in Hd. lia. }
      rewrite try_value. destruct (IH st' (n + k)%nat Hok') as (st2 & -> & Hok2 & Hc2); [lia..|]. exists st2. split_and!; [done..|].
      rewrite Hc2, Hc, <-(app_assoc (output_contents st)). f_equal. by rewrite <-drop_drop, take_drop.
    - exists st. split_and!; [done..|]. by rewrite drop_ge, app_nil_r by lia. }
  intros Hok. apply (Hloop _ stream 0%nat Hok); lia.
Qed.

Lemma read_until_eof_spec `{InputStreamOk S} fuel (stream : S) block_size :
  input_ok stream → (0 < block_size)%nat → (length (input_contents stream) < fuel)%nat →
  ∃ stream', read_until_eof fuel stream block_size = Returned (Some (stream', input_contents stream)) ∧ input_contents stream' = [].
Proof.
  intros Hok Hb Hf. enough (∀ buffer data, ∃ stream', read_until_eof_loop fuel stream block_size buffer data
    = Returned (Some (stream', data ++ input_contents stream)) ∧ input_contents stream' = []) by apply (H1 0%nat []).
  revert stream Hok Hf. induction fuel as [|fuel IH]; intros st Hok Hf buffer data; [lia|]. cbn [read_until_eof_loop].
  rewrite is_eof_spec by done. destruct (decide (input_contents st = [])) as [He|He].
  { rewrite bool_decide_eq_true_2 by done. exists st. cbn [negb]. by rewrite He, app_nil_r. }
  rewrite bool_decide_eq_false_2 by done. cbn [negb]. set (b := if (buffer =? 0)%nat then _ else _).
  assert (0 < b)%nat by (unfold b; destruct (Nat.eqb_spec buffer 0); lia).
  destruct (read_some_spec st b Hok) as (st' & k & -> & Hok' & Hc & Hkb & Hkl & Hpos). rewrite try_value. specialize (Hpos ltac:(lia) He).
  rewrite size_sub_le, bind_value by (rewrite length_take; lia).
  destruct (IH st' Hok') with (buffer := (b - length (take k (input_contents st)))%nat) (data := data ++ take k (input_contents st))
    as (st2 & -> & He2); [rewrite Hc, length_drop; lia|]. exists st2. split; [|done]. do 3 f_equal. by rewrite Hc, <-app_assoc, take_drop.
Qed.

End Laws.

(** What [Stream::read_until_filled] reads, for streams that read something. *)
Section Filling.
Context {S : Type} (is_eof : S → bool) (read_some : S → nat → outcome (option (S * bytes))) (ok : S → Prop) (held : S → bytes).
Hypothesis is_eof_ok : ∀ s, ok s → is_eof s = bool_decide (held s = []).
Hypothesis read_some_ok : ∀ s n, ok s →
  ∃ s' k, read_some s n = Returned (Some (s', take k (held s))) ∧ ok s' ∧ held s' = drop k (held s)
    ∧ (k ≤ n)%nat ∧ (k ≤ length (held s))%nat ∧ ((0 < n)%nat → held s ≠ [] → (0 < k)%nat).

Lemma base_read_until_filled_spec (stream : S) size :
  ok stream →
  if (size <=? length (held stream))%nat
  then ∃ stream', base_read_until_filled is_eof read_some stream size = Returned (Some (stream', take size (held stream))) ∧ ok stream'
    ∧ held stream' = drop size (held stream)
  else base_read_until_filled is_eof read_some stream size = Returned None.
Proof.
  assert (∀ fuel (st : S) out, ok st → (length out ≤ size → size - length out < fuel)%nat →
    (length out ≤ size)%nat →
    if (size - length out <=? length (held st))%nat
    then ∃ st', read_until_filled_loop is_eof read_some fuel st size out = Returned (Some (st', out ++ take (size - length out) (held st))) ∧ ok st'
      ∧ held st' = drop (size - length out) (held st)
    else read_until_filled_loop is_eof read_some fuel st size out = Returned None) as Hloop.
  { induction fuel as [|fuel IH]; intros st out Hok Hf Hl; [lia|]. cbn [read_until_filled_loop].
    destruct (Nat.ltb_spec (length out) size) as [Hlt|Hge]; cycle 1.
    { replace (size - length out)%nat with 0%nat by lia. exists st. cbn. by rewrite app_nil_r. }
    rewrite is_eof_ok by done. destruct (decide (held st = [])) as [He|He].
    { rewrite bool_decide_eq_true_2 by done. rewrite He. by rewrite (proj2 (Nat.leb_gt _ _)) by (cbn; lia). }
    rewrite bool_decide_eq_false_2 by done.
    destruct (read_some_ok st (size - length out) Hok) as (st' & k & -> & Hok' & Hc & Hkb & Hkl & Hpos). rewrite try_value.
    specialize (Hpos ltac:(lia) He). specialize (IH st' (out ++ take k (held st)) Hok').
    rewrite length_app, length_take, Nat.min_l, Hc, length_drop in IH by lia. specialize (IH ltac:(lia) ltac:(lia)).
    replace (size - (length out + k) <=? length (held st) - k)%nat with (size - length out <=? length (held st))%nat in IH
      by (apply eq_true_iff_eq; rewrite !Nat.leb_le; lia). case_match; [|done].
    destruct IH as (st2 & -> & Hok2 & Hc2). exists st2. split_and!; [|done|].
    - do 3 f_equal. rewrite <-app_assoc, take_take_drop. do 2 f_equal. lia.
    - rewrite Hc2, drop_drop. f_equal. lia. }
  intros Hok. specialize (Hloop (Datatypes.S size) stream [] Hok). cbn [length app] in Hloop. rewrite Nat.sub_0_r in Hloop. apply Hloop; lia.
Qed.

End Filling.

(** ** Fixed memory *)
Lemma fixed_is_eof_spec s :
  (m_offset s ≤ length (m_bytes s))%nat → fixed_is_eof s = bool_decide (drop (m_offset s) (m_bytes s) = []).
Proof.
  intros Hs. unfold fixed_is_eof. apply eq_true_iff_eq. rewrite Nat.leb_le, bool_decide_eq_true. split; [apply drop_ge|].
  intros Hd%(f_equal length). rewrite length_drop in Hd. cbn in Hd. lia.
Qed.

Lemma fixed_read_some_spec s n :
  (m_offset s ≤ length (m_bytes s))%nat →
  let rest := drop (m_offset s) (m_bytes s) in
  let k := min (length rest) n in
  fixed_read_some s n = Returned (Some (fixed_advance s k, take k rest)).
Proof.
  intros Hs rest k. unfold fixed_read_some. rewrite substring_view_from_in_range, bind_value by done. fold rest. fold k.
  by rewrite length_take, Nat.min_l by lia.
Qed.

Lemma fixed_read_until_filled_spec s n :
  (m_offset s ≤ length (m_bytes s))%nat →
  let rest := drop (m_offset s) (m_bytes s) in
  if (n <=? length rest)%nat
  then ∃ s', fixed_read_until_filled s n = Returned (Some (s', take n rest)) ∧ (m_offset s' ≤ length (m_bytes s'))%nat
    ∧ drop (m_offset s') (m_bytes s') = drop n rest
  else fixed_read_until_filled s n = Returned None.
Proof.
  intros Hs rest. unfold fixed_read_until_filled, fixed_remaining. rewrite size_sub_le, bind_value by done.
  unfold rest. rewrite length_drop. destruct (Nat.leb_spec n (length (m_bytes s) - m_offset s)); cycle 1.
  { by rewrite (proj2 (Nat.ltb_lt _ _)). }
  rewrite (proj2 (Nat.ltb_ge _ _)), substring_view_from_in_range, bind_value by done. exists (fixed_advance s n). cbn.
  split_and!; [done|lia|by rewrite drop_drop].
Qed.

#[global] Instance fixed_input_ok : InputStreamOk FixedMemoryStream.
Proof.
  refine {| input_ok s := (m_offset s ≤ length (m_bytes s))%nat; input_contents s := drop (m_offset s) (m_bytes s) |}.
  - apply fixed_is_eof_spec.
  - intros s n Hs. cbn. rewrite fixed_read_some_spec by done. set (k := min _ n). exists (fixed_advance s k), k.
    assert (k ≤ length (m_bytes s) - m_offset s)%nat as Hk by (unfold k; rewrite length_drop; lia). cbn.
    rewrite length_drop. split_and!; try lia; [done|by rewrite drop_drop|].
    intros Hn He. unfold k. assert (length (drop (m_offset s) (m_bytes s)) ≠ 0)%nat by (by intros ?%length_zero_iff_nil). lia.
  - apply fixed_read_until_filled_spec.
Defined.

(** ** Allocating memory *)
Fixpoint chunks_ok (chunks : list bytes) (tail_offset : nat) : Prop :=
  match chunks with
  | [] => tail_offset = 0%nat
  | [chunk] => length chunk = tail_offset ∧ (0 < tail_offset ≤ CHUNK_SIZE)%nat
  | chunk :: behind => length chunk = CHUNK_SIZE ∧ chunks_ok behind tail_offset
  end.

Definition contents (s : AllocatingMemoryStream) : bytes := drop (m_head_read_offset s) (concat (m_chunks s)).

(** All chunks but the last are full, and the first has bytes that are not read yet. *)
Definition chunked (s : AllocatingMemoryStream) : Prop :=
  chunks_ok (m_chunks s) (m_tail_write_offset s)
  ∧ match m_chunks s with
    | [] => m_head_read_offset s = 0%nat
    | chunk :: _ => (m_head_read_offset s < length chunk)%nat
    end.

Definition stream_wf (s : AllocatingMemoryStream) : Prop := chunked s ∧ m_used_buffer_size s = length (contents s).

Lemma chunk_end_length s chunk behind : chunks_ok (chunk :: behind) (m_tail_write_offset s) → chunk_end s behind = length chunk.
Proof. by destruct behind; intros [H _]. Qed.

Lemma chunks_ok_behind chunk behind t : behind ≠ [] → chunks_ok (chunk :: behind) t → chunks_ok behind t.
Proof. by destruct behind; [|intros _ [_ ?]]. Qed.

Lemma available_spec s chunk behind offset :
  chunks_ok (chunk :: behind) (m_tail_write_offset s) → (offset ≤ length chunk)%nat →
  chunk_available chunk offset (chunk_end s behind) = Returned (drop offset chunk).
Proof.
  intros Hok Ho. unfold chunk_available. rewrite (chunk_end_length _ _ _ Hok), size_sub_le, bind_value by done.
  rewrite substring_view_in_range by lia. by rewrite take_ge by (rewrite length_drop; lia).
Qed.

Lemma contents_cons s chunk behind :
  m_chunks s = chunk :: behind → chunked s → contents s = drop (m_head_read_offset s) chunk ++ concat behind.
Proof. intros E [_ Hh]. unfold contents. rewrite E in *. cbn [concat]. by rewrite drop_app_le by lia. Qed.

Lemma contents_nil s : chunked s → m_chunks s = [] ↔ contents s = [].
Proof.
  intros Hs. split.
  - intros E. unfold contents. rewrite E. cbn [concat]. apply drop_nil.
  - intros E. destruct (m_chunks s) as [|chunk behind] eqn:Ec; [done|]. rewrite (contents_cons _ _ _ Ec Hs) in E.
    apply (f_equal length) in E. rewrite length_app, length_drop in E. destruct Hs as [_ Hh]. rewrite Ec in Hh. cbn in E. lia.
Qed.

Lemma consume_head_spec s chunk behind n used :
  m_chunks s = chunk :: behind → chunked s → (0 < n ≤ length chunk - m_head_read_offset s)%nat →
  ∃ s', consume_head s n used (chunk_end s behind) = Returned s' ∧ chunked s' ∧ contents s' = drop n (contents s)
    ∧ m_used_buffer_size s' = used.
Proof.
  intros E Hs Hn. rewrite (contents_cons _ _ _ E Hs). destruct Hs as [Hok Hh]. rewrite E in Hok, Hh. unfold consume_head.
  rewrite (chunk_end_length _ _ _ Hok). cbn [m_head_read_offset]. rewrite (drop_app_le _ _ n), drop_drop by (rewrite length_drop; lia).
  destruct (Nat.eqb_spec (m_head_read_offset s + n) (length chunk)) as [Heq|Hne].
  - unfold pop_head_chunk. cbn [m_chunks m_tail_write_offset m_used_buffer_size]. rewrite E, Heq, drop_all. cbn [app].
    destruct behind as [|c behind]; eexists; (split_and!; [done| | |done]); [by split|done| |by unfold contents; cbn; rewrite drop_0].
    split; cbn [m_chunks m_head_read_offset m_tail_write_offset]; [by apply (chunks_ok_behind chunk)|].
    destruct Hok as [_ Hok]. pose proof chunk_size_pos. destruct behind; destruct Hok; lia.
  - eexists. split_and!; [done| | |done].
    + split; cbn [m_chunks m_head_read_offset m_tail_write_offset]; rewrite E; [done|]. lia.
    + unfold contents. cbn [m_chunks m_head_read_offset]. rewrite E. cbn [concat]. by rewrite drop_app_le by lia.
Qed.

Lemma head_length s chunk behind : m_chunks s = chunk :: behind → chunked s → (0 < length chunk - m_head_read_offset s)%nat.
Proof. intros E [_ Hh]. rewrite E in Hh. lia. Qed.

Lemma allocating_read_spec fuel s size out :
  stream_wf s → (length out ≤ size)%nat → (size - length out < fuel)%nat →
  ∃ s', allocating_read_loop fuel s size out = Returned (s', out ++ take (size - length out) (contents s)) ∧ stream_wf s'
    ∧ contents s' = drop (size - length out) (contents s).
Proof.
  revert s out. induction fuel as [|fuel IH]; intros s out [Hs Hu] Hl Hf; [lia|]. cbn [allocating_read_loop].
  destruct (m_chunks s) as [|chunk behind] eqn:E.
  { exists s. rewrite (proj1 (contents_nil s Hs) E). by rewrite take_nil, drop_nil, app_nil_r. }
  destruct (Nat.ltb_spec (length out) size) as [Hlt|Hge]; cycle 1.
  { exists s. replace (size - length out)%nat with 0%nat by lia. by rewrite app_nil_r, drop_0. }
  pose proof (head_length _ _ _ E Hs) as Hpos. pose proof Hs as [Hok Hh]. rewrite E in Hok, Hh.
  rewrite available_spec, bind_value by (done || lia). rewrite length_drop. set (k := min _ _).
  pose proof (contents_cons _ _ _ E Hs) as Hc. assert (k ≤ length (contents s))%nat by (rewrite Hc, length_app, length_drop; lia).
  rewrite size_sub_le, bind_value by lia.
  destruct (consume_head_spec s chunk behind k (m_used_buffer_size s - k) E Hs) as (s1 & -> & Hs1 & Hc1 & Hu1); [lia|]. rewrite bind_value.
  replace (take k (drop (m_head_read_offset s) chunk)) with (take k (contents s))
    by (rewrite Hc, take_app_le; [done|rewrite length_drop; lia]).
  destruct (IH s1 (out ++ take k (contents s))) as (s2 & -> & Hwf2 & Hc2).
  - split; [done|]. rewrite Hu1, Hc1, length_drop. lia.
  - rewrite length_app, length_take. lia.
  - rewrite length_app, length_take. lia.
  - rewrite length_app, length_take, Nat.min_l, Hc1 in * by lia. exists s2. split_and!; [|done|].
    + do 2 f_equal. rewrite <-app_assoc, take_take_drop. do 2 f_equal. lia.
    + rewrite Hc2, drop_drop. f_equal. lia.
Qed.

Lemma allocating_read_some_spec s n :
  stream_wf s →
  ∃ s', allocating_read_some s n = Returned (Some (s', take n (contents s))) ∧ stream_wf s' ∧ contents s' = drop n (contents s).
Proof.
  intros Hs. unfold allocating_read_some. destruct (allocating_read_spec (S n) s n [] Hs) as (s' & -> & Hs' & Hc); [cbn; lia..|].
  cbn [length app] in *. rewrite Nat.sub_0_r in *. by exists s'.
Qed.

Lemma chunks_ok_snoc front tail t :
  chunks_ok (front ++ [tail]) t ↔ Forall (λ c, length c = CHUNK_SIZE) front ∧ length tail = t ∧ (0 < t ≤ CHUNK_SIZE)%nat.
Proof.
  induction front as [|c front IH]; [cbn; rewrite Forall_nil; tauto|]. rewrite Forall_cons, <-app_comm_cons.
  destruct (front ++ [tail]) as [|c' l] eqn:E; [by destruct front|]. change (chunks_ok (c :: c' :: l) t) with
    (length c = CHUNK_SIZE ∧ chunks_ok (c' :: l) t). rewrite IH. tauto.
Qed.

(** The tail has room: the state in which the writing loop copies. *)
Definition tail_room (s : AllocatingMemoryStream) (front : list bytes) (tail : bytes) : Prop :=
  m_chunks s = front ++ [tail] ∧ Forall (λ c, length c = CHUNK_SIZE) front
  ∧ length tail = m_tail_write_offset s ∧ (m_tail_write_offset s < CHUNK_SIZE)%nat
  ∧ match front with
    | [] => (m_head_read_offset s ≤ length tail)%nat
    | chunk :: _ => (m_head_read_offset s < length chunk)%nat
    end.

Lemma make_room s :
  chunked s →
  let s1 := if bool_decide (m_chunks s = []) || (m_tail_write_offset s =? CHUNK_SIZE)%nat then append_new_chunk s else s in
  contents s1 = contents s ∧ m_used_buffer_size s1 = m_used_buffer_size s ∧ ∃ front tail, tail_room s1 front tail.
Proof.
  intros Hs s1. pose proof chunk_size_pos as Hpos.
  assert (m_chunks s = [] ∨ ∃ front tail, m_chunks s = front ++ [tail]) as [E|(front & tail & E)].
  { destruct (m_chunks s) as [|tail front _] using rev_ind; [by left|right; by exists front, tail]. }
  - destruct Hs as [_ Hh]. rewrite E in Hh. unfold s1, append_new_chunk. rewrite bool_decide_eq_true_2 by done. cbn [orb].
    unfold contents, tail_room. cbn. rewrite E, Hh. split_and!; [done..|]. exists [], []. cbn. split_and!; done || lia || apply Forall_nil_2.
  - pose proof Hs as [Hok Hh]. rewrite E in Hok. apply chunks_ok_snoc in Hok as (Hf & Hl & Ht).
    unfold s1. rewrite bool_decide_eq_false_2 by (rewrite E; by destruct front). cbn [orb].
    destruct (Nat.eqb_spec (m_tail_write_offset s) CHUNK_SIZE) as [Hfull|Hroom].
    + unfold append_new_chunk, contents, tail_room. cbn [m_chunks m_head_read_offset m_tail_write_offset m_used_buffer_size].
      rewrite concat_app. cbn [concat]. rewrite !app_nil_r. split_and!; [done..|]. exists (m_chunks s), []. split_and!; try done.
      * rewrite E. apply Forall_app. split; [done|]. apply Forall_singleton. lia.
      * by destruct (m_chunks s); [destruct front|].
    + split_and!; [done..|]. exists front, tail. split_and!; try done; [lia|]. rewrite E in Hh. destruct front; cbn in Hh; lia.
Qed.

Lemma write_tail_spec s front tail data :
  tail_room s front tail → (0 < length data)%nat → (m_tail_write_offset s + length data ≤ CHUNK_SIZE)%nat →
  ∃ s', write_tail s data = Returned s' ∧ chunked s' ∧ contents s' = contents s ++ data
    ∧ m_used_buffer_size s' = (m_used_buffer_size s + length data)%nat.
Proof.
  intros (E & Hf & Hl & Hr & Hh) Hd Hsum. unfold write_tail. rewrite E, last_snoc, removelast_last, take_ge by lia.
  eexists. split_and!; [done| | |done].
  - split; cbn [m_chunks m_tail_write_offset m_head_read_offset]; [apply chunks_ok_snoc; rewrite length_app; split_and!; done || lia|].
    destruct front; cbn [app]; [rewrite length_app; lia|done].
  - unfold contents. cbn [m_chunks m_head_read_offset]. rewrite E, !concat_app. cbn [concat]. rewrite !app_nil_r, app_assoc, drop_app_le; [done|].
    rewrite length_app. destruct front; cbn [concat length]; [lia|rewrite length_app; lia].
Qed.

Lemma allocating_write_spec fuel s data n :
  stream_wf s → (n ≤ length data)%nat → (length data - n < fuel)%nat →
  ∃ s', allocating_write_loop fuel s data n = Returned (s', length data) ∧ stream_wf s' ∧ contents s' = contents s ++ drop n data.
Proof.
  revert s n. induction fuel as [|fuel IH]; intros s n [Hs Hu] Hn Hf; [lia|]. cbn [allocating_write_loop].
  destruct (Nat.ltb_spec n (length data)) as [Hlt|Hge]; cycle 1.
  { exists s. assert (n = length data) as -> by lia. by rewrite drop_all, app_nil_r. }
  destruct (make_room s Hs) as (Hc1 & Hu1 & front & tail & Hroom). set (s1 := if _ || _ then append_new_chunk s else s) in *.
  pose proof Hroom as (_ & _ & _ & Hlt1 & _). rewrite size_sub_le, bind_value, substring_view_from_in_range, bind_value by lia.
  rewrite length_drop. set (k := min _ _). assert (0 < k ≤ length data - n)%nat as Hk by lia.
  assert (length (take k (drop n data)) = k) as Hlen by (rewrite length_take, length_drop; lia).
  destruct (write_tail_spec s1 front tail (take k (drop n data)) Hroom) as (s2 & -> & Hs2 & Hc2 & Hu2); [lia..|]. rewrite bind_value.
  destruct (IH s2 (n + k)%nat) as (s3 & -> & Hs3 & Hc3); [|lia..|].
  - split; [done|]. rewrite Hc2, length_app, Hu2, Hlen, Hu1, Hu, Hc1. lia.
  - exists s3. split_and!; [done..|]. rewrite Hc3, Hc2, Hc1, <-app_assoc. f_equal. by rewrite <-drop_drop, take_drop.
Qed.

Lemma allocating_write_some_spec s data :
  stream_wf s →
  ∃ s', allocating_write_some s data = Returned (Some (s', length data)) ∧ stream_wf s' ∧ contents s' = contents s ++ data.
Proof.
  intros Hs. unfold allocating_write_some. destruct (allocating_write_spec (S (length data)) s data 0 Hs) as (s' & -> & Hs' & Hc); [lia..|].
  by exists s'.
Qed.

Lemma allocating_discard_loop_spec fuel s n :
  chunked s → (n ≤ length (contents s))%nat → (n < fuel)%nat →
  ∃ s', allocating_discard_loop fuel s n = Returned s' ∧ chunked s' ∧ contents s' = drop n (contents s)
    ∧ m_used_buffer_size s' = m_used_buffer_size s.
Proof.
  revert s n. induction fuel as [|fuel IH]; intros s n Hs Hn Hf; [lia|]. cbn [allocating_discard_loop].
  destruct (Nat.ltb_spec 0 n) as [Hlt|Hge]; cycle 1.
  { exists s. assert (n = 0)%nat as -> by lia. by rewrite drop_0. }
  destruct (m_chunks s) as [|chunk behind] eqn:E.
  { rewrite (proj1 (contents_nil s Hs) E) in Hn. cbn in Hn. lia. }
  pose proof (head_length _ _ _ E Hs) as Hpos. pose proof Hs as [Hok Hh]. rewrite E in Hok, Hh.
  rewrite size_sub_le, bind_value by (rewrite (chunk_end_length _ _ _ Hok); lia). set (k := min _ n).
  assert (0 < k ≤ length chunk - m_head_read_offset s)%nat as Hk by (unfold k; rewrite (chunk_end_length _ _ _ Hok); lia).
  destruct (consume_head_spec s chunk behind k (m_used_buffer_size s) E Hs Hk) as (s1 & -> & Hs1 & Hc1 & Hu1). rewrite bind_value.
  destruct (IH s1 (n - k)%nat Hs1) as (s2 & -> & Hs2 & Hc2 & Hu2); [rewrite Hc1, length_drop; lia|lia|].
  exists s2. split_and!; [done..| |by rewrite Hu2]. rewrite Hc2, Hc1, drop_drop. f_equal. lia.
Qed.

Lemma allocating_discard_spec s n :
  stream_wf s →
  if (n <=? length (contents s))%nat
  then ∃ s', allocating_discard s n = Returned (Some s') ∧ stream_wf s' ∧ contents s' = drop n (contents s)
  else allocating_discard s n = Returned None.
Proof.
  intros [Hs Hu]. unfold allocating_discard. rewrite Hu.
  destruct (Nat.leb_spec n (length (contents s))) as [Hle|Hgt]; [|by rewrite (proj2 (Nat.ltb_lt _ _))].
  rewrite (proj2 (Nat.ltb_ge _ _)) by done. set (s0 := mk_allocating _ _ _ _). assert (contents s0 = contents s) as Hc0 by done.
  destruct (allocating_discard_loop_spec (S n) s0 n Hs) as (s1 & -> & Hs1 & Hc1 & Hu1); [rewrite Hc0; lia|lia|].
  exists s1. split_and!; [done| |by rewrite Hc1]. split; [done|]. rewrite Hu1, Hc1, length_drop. done.
Qed.

Lemma peek_loop_spec s chunks offset size out :
  chunks = [] ∨ chunks_ok chunks (m_tail_write_offset s) → match chunks with [] => True | c :: _ => (offset ≤ length c)%nat end →
  (length out ≤ size)%nat →
  peek_loop s chunks offset size out = Returned (out ++ take (size - length out) (drop offset (concat chunks))).
Proof.
  revert offset out. induction chunks as [|c behind IH]; intros offset out Hok Ho Hl.
  { cbn. by rewrite drop_nil, take_nil, app_nil_r. }
  destruct Hok as [Hok|Hok]; [done|]. cbn [peek_loop]. destruct (Nat.ltb_spec (length out) size) as [Hlt|Hge]; cycle 1.
  { replace (size - length out)%nat with 0%nat by lia. by rewrite app_nil_r. }
  rewrite (available_spec _ _ _ _ Hok Ho), bind_value. cbn [concat]. rewrite drop_app_le by done. rewrite length_drop.
  destruct (Nat.ltb_spec (min (length c - offset) (size - length out)) (length c - offset)) as [Hc|Hc].
  - rewrite Nat.min_r by lia. by rewrite take_app_le by (rewrite length_drop; lia).
  - rewrite Nat.min_l by lia. rewrite take_ge by (rewrite length_drop; lia).
    rewrite IH; [| |by destruct behind; [|lia]|rewrite length_app, length_drop; lia].
    + rewrite drop_0, length_app, length_drop, <-app_assoc. do 2 f_equal. rewrite (take_app_ge (drop offset c)) by (rewrite length_drop; lia).
      do 2 f_equal. rewrite length_drop. lia.
    + destruct behind; [by left|right]. by eapply chunks_ok_behind.
Qed.

Lemma peek_some_spec s n : stream_wf s → peek_some s n = Returned (take n (contents s)).
Proof.
  intros [[Hok Hh] _]. unfold peek_some, contents. rewrite peek_loop_spec; cbn [app length]; [by rewrite Nat.sub_0_r|by right| |lia].
  destruct (m_chunks s); [done|lia].
Qed.

Lemma stream_spans_spec s chunks start :
  chunks = [] ∨ chunks_ok chunks (m_tail_write_offset s) → match chunks with [] => True | c :: _ => (start ≤ length c)%nat end →
  ∃ spans, stream_spans s chunks start = Returned spans ∧ concat spans = drop start (concat chunks).
Proof.
  revert start. induction chunks as [|c behind IH]; intros start Hok Ho; [exists []; cbn; by rewrite drop_nil|].
  destruct Hok as [Hok|Hok]; [done|]. cbn [stream_spans]. rewrite (available_spec _ _ _ _ Hok Ho), bind_value.
  destruct (IH 0%nat) as (spans & -> & Hc); [destruct behind; [by left|right; by eapply chunks_ok_behind]|by destruct behind; [|lia]|].
  eexists. split; [done|]. cbn [concat]. by rewrite Hc, drop_0, drop_app_le.
Qed.

Lemma stream_offset_of_spec s needle :
  stream_wf s → needle ≠ [] → int_length needle → stream_offset_of s needle = Returned (first_occurrence (contents s) needle).
Proof.
  intros [[Hok Hh] _] Hn Hint. unfold stream_offset_of, contents. destruct (m_chunks s) as [|c behind] eqn:E.
  { cbn [concat]. rewrite drop_nil. by destruct needle. }
  destruct (stream_spans_spec s (c :: behind) (m_head_read_offset s)) as (spans & -> & Hc); [by right|lia|].
  rewrite bind_value, memmem_kmp_spec by done. by rewrite Hc.
Qed.

Lemma allocating_is_eof_spec s : stream_wf s → allocating_is_eof s = bool_decide (contents s = []).
Proof.
  intros [_ Hu]. unfold allocating_is_eof. rewrite Hu. apply eq_true_iff_eq. by rewrite Nat.eqb_eq, bool_decide_eq_true, length_zero_iff_nil.
Qed.

Lemma allocating_read_law s n :
  stream_wf s →
  ∃ s' k, allocating_read_some s n = Returned (Some (s', take k (contents s))) ∧ stream_wf s' ∧ contents s' = drop k (contents s)
    ∧ (k ≤ n)%nat ∧ (k ≤ length (contents s))%nat ∧ ((0 < n)%nat → contents s ≠ [] → (0 < k)%nat).
Proof.
  intros Hs. destruct (allocating_read_some_spec s n Hs) as (s' & -> & Hs' & Hc).
  exists s', (min n (length (contents s))). split_and!; try done || lia.
  - do 3 f_equal. rewrite <-(firstn_all (contents s)) at 1. by rewrite take_take.
  - rewrite Hc. destruct (Nat.le_gt_cases n (length (contents s))); [by rewrite Nat.min_l|]. by rewrite Nat.min_r, !drop_ge by lia.
  - intros Hn He. assert (length (contents s) ≠ 0)%nat by (by intros ?%length_zero_iff_nil). lia.
Qed.

#[global] Instance allocating_input_ok : InputStreamOk AllocatingMemoryStream.
Proof.
  refine {| input_ok := stream_wf; input_contents := contents |}.
  - apply allocating_is_eof_spec.
  - apply allocating_read_law.
  - apply (base_read_until_filled_spec _ _ stream_wf contents allocating_is_eof_spec allocating_read_law).
Defined.

#[global] Instance allocating_output_ok : OutputStreamOk AllocatingMemoryStream.
Proof.
  refine {| output_ok := stream_wf; output_contents := contents |}.
  intros s data Hs. change (stream_write_some s data) with (allocating_write_some s data). destruct (allocating_write_some_spec s data Hs) as (s' & -> & Hs' & Hc). exists s', (length data).
  rewrite firstn_all. split_and!; try done. intros He. assert (length data ≠ 0)%nat by (by intros ?%length_zero_iff_nil). lia.
Defined.

(** ** Histories *)
Inductive StreamOperation := WriteSome (data : bytes) | ReadSome (size : nat) | Discard (count : nat) | PeekSome (size : nat) | OffsetOf (needle : bytes).

Inductive StreamResult := Wrote (count : nat) | Got (data : bytes) | Discarded (ok : bool) | Found (offset : option nat).

Definition run_stream_operation (s : AllocatingMemoryStream) (op : StreamOperation) : outcome (AllocatingMemoryStream * StreamResult) :=
  match op with
  | WriteSome data =>
      r ← allocating_write_some s data;
      Returned (match r with Some (s, n) => (s, Wrote n) | None => (s, Wrote 0) end)
  | ReadSome size =>
      r ← allocating_read_some s size;
      Returned (match r with Some (s, out) => (s, Got out) | None => (s, Got []) end)
  | Discard count =>
      r ← allocating_discard s count;
      Returned (match r with Some s => (s, Discarded true) | None => (s, Discarded false) end)
  | PeekSome size => out ← peek_some s size; Returned (s, Got out)
  | OffsetOf needle => r ← stream_offset_of s needle; Returned (s, Found r)
  end.

Fixpoint run_stream_operations (s : AllocatingMemoryStream) (ops : list StreamOperation) : outcome (AllocatingMemoryStream * list StreamResult) :=
  match ops with
  | [] => Returned (s, [])
  | op :: ops =>
      '(s, r) ← run_stream_operation s op;
      '(s, rs) ← run_stream_operations s ops;
      Returned (s, r :: rs)
  end.

(** The same on a queue of bytes. *)
Definition queue_operation (q : bytes) (op : StreamOperation) : bytes * StreamResult :=
  match op with
  | WriteSome data => (q ++ data, Wrote (length data))
  | ReadSome size => (drop size q, Got (take size q))
  | Discard count => if (count <=? length q)%nat then (drop count q, Discarded true) else (q, Discarded false)
  | PeekSome size => (q, Got (take size q))
  | OffsetOf needle => (q, Found (first_occurrence q needle))
  end.

Fixpoint queue_operations (q : bytes) (ops : list StreamOperation) : bytes * list StreamResult :=
  match ops with
  | [] => (q, [])
  | op :: ops => let '(q, r) := queue_operation q op in let '(q, rs) := queue_operations q ops in (q, r :: rs)
  end.

(** A search is for a needle that is not empty and whose positions are [int]s. *)
Definition searches (op : StreamOperation) : Prop :=
  match op with OffsetOf needle => needle ≠ [] ∧ int_length needle | _ => True end.

Lemma stream_operation_spec s op :
  stream_wf s → searches op →
  ∃ s', run_stream_operation s op = Returned (s', snd (queue_operation (contents s) op)) ∧ stream_wf s'
    ∧ contents s' = fst (queue_operation (contents s) op).
Proof.
  intros Hs Hop. destruct op as [data|n|n|n|needle]; cbn [run_stream_operation queue_operation].
  - destruct (allocating_write_some_spec s data Hs) as (s' & -> & Hs' & Hc). by exists s'.
  - destruct (allocating_read_some_spec s n Hs) as (s' & -> & Hs' & Hc). by exists s'.
  - pose proof (allocating_discard_spec s n Hs) as Hd. case_match; [|rewrite Hd; by exists s]. destruct Hd as (s' & -> & Hs' & Hc). by exists s'.
  - rewrite (peek_some_spec s n Hs). by exists s.
  - destruct Hop. rewrite stream_offset_of_spec by done. by exists s.
Qed.

(** C20: an [AllocatingMemoryStream] is a queue of bytes: after any sequence of writes,
    reads, discards, peeks and searches, these for needles of 1 to [2 ^ 31 - 1] bytes (the
    search aborts on an empty needle and its indices are [int]s), the chunks hold
    what the queue holds, and every operation gave what it gives on the queue; a discard
    of more bytes than there are is refused and changes nothing. *)
Theorem memory_stream_refines s ops :
  stream_wf s → Forall searches ops →
  ∃ s', run_stream_operations s ops = Returned (s', snd (queue_operations (contents s) ops)) ∧ stream_wf s'
    ∧ contents s' = fst (queue_operations (contents s) ops).
Proof.
  intros Hs Hops. revert s Hs. induction Hops as [|op ops Hop Hops IH]; intros s Hs; [by exists s|].
  cbn [run_stream_operations queue_operations]. destruct (stream_operation_spec s op Hs Hop) as (s1 & -> & Hs1 & Hc1). rewrite bind_value.
  destruct (IH s1 Hs1) as (s2 & -> & Hs2 & Hc2). rewrite bind_value. exists s2. rewrite Hc1 in *.
  destruct (queue_operation (contents s) op) as [q r]. cbn [fst snd] in *. by destruct (queue_operations q ops).
Qed.

Lemma empty_stream_wf : stream_wf allocating_memory_stream.
Proof. by repeat split. Defined.

Definition example_operations : list StreamOperation :=
  [WriteSome (sv "hello"); PeekSome 2; ReadSome 1; OffsetOf (sv "lo"); Discard 9; WriteSome (sv "!"); ReadSome 9].

Lemma memory_stream_refines_witness :
  ∃ s', run_stream_operations allocating_memory_stream example_operations
      = Returned (s', snd (queue_operations (contents allocating_memory_stream) example_operations)) ∧ stream_wf s'
    ∧ contents s' = fst (queue_operations (contents allocating_memory_stream) example_operations).
Proof.
  apply (memory_stream_refines allocating_memory_stream example_operations); [apply empty_stream_wf|].
  unfold example_operations. repeat (apply Forall_cons; split; [done|]). apply Forall_nil_2.
Defined.

(** Seeking past the end is accepted when it is relative to the end, and the next read
    aborts. *)
Example seek_past_end :
  match fixed_seek (fixed_memory_stream (sv "abc")) 1 FromEndPosition with
  | Some (s, offset) => (offset, fixed_read_some s 1) = (4%nat, VerifyFailed)
  | None => False
  end.
Proof. reflexivity. Qed.
