(* ===== verification/LexicalPathCorrect.v ===== *)
(** * What canonical paths mean

    The reference for a path is its parts and whether it is absolute.  A path
    denotes a place: starting from the root or from a current directory, [..] goes
    up (and stays at the root), [.] stays, any other part goes down. *)
From S2P Require Import Prelude CharacterTypes StringView LexicalPath.

(** ** Parts *)
Definition part_ok (part : bytes) : Prop := part ≠ [] ∧ c_slash ∉ part.

(** The parts that [split_view('/')] gives. *)
Definition path_parts (s : bytes) : list bytes := filter (λ part, part ≠ []) (split_on c_slash s).

Lemma split_path s : split_view s [c_slash] SplitNothing = Returned (path_parts s).
Proof.
  destruct (decide (s = [])) as [->|Hs]; [done|]. by rewrite (split_view_char _ _ SplitNothing Hs).
Qed.

Lemma split_on_no_sep c s : Forall (λ part, c ∉ part) (split_on c s).
Proof.
  induction s as [|x s IH]; cbn [split_on]; [by repeat constructor; apply not_elem_of_nil|].
  destruct (Z.eqb_spec x c) as [->|Hx]; [constructor; [apply not_elem_of_nil|done]|].
  destruct IH as [|part parts Hp Hps]; repeat constructor; try done; rewrite not_elem_of_cons; split; try done.
  apply not_elem_of_nil.
Qed.

Lemma path_parts_ok s : Forall part_ok (path_parts s).
Proof.
  unfold path_parts. pose proof (split_on_no_sep c_slash s) as H. induction H as [|part parts Hp Hps IH]; [constructor|].
  rewrite filter_cons. case_decide; [by constructor|done].
Qed.

Lemma path_parts_slash s : path_parts (c_slash :: s) = path_parts s.
Proof. done. Qed.

Lemma split_on_join a s : split_on c_slash (a ++ c_slash :: s) = split_on c_slash a ++ split_on c_slash s.
Proof.
  induction a as [|x a IH]; [done|]. cbn [app split_on]. rewrite IH. case_match; [done|].
  pose proof (split_on_nonempty c_slash a). by destruct (split_on c_slash a).
Qed.

Lemma path_parts_app a s : path_parts (a ++ c_slash :: s) = path_parts a ++ path_parts s.
Proof. unfold path_parts. by rewrite split_on_join, filter_app. Qed.

Lemma path_parts_part part : part_ok part → path_parts part = [part].
Proof.
  intros [Hne Hs]. unfold path_parts. rewrite split_on_absent by done. rewrite filter_cons. by rewrite decide_True.
Qed.

Lemma path_parts_join parts : Forall part_ok parts → path_parts (builder_join c_slash parts) = parts.
Proof.
  induction 1 as [|part parts Hp Hps IH]; [done|]. cbn [builder_join]. destruct parts as [|q parts].
  - by apply path_parts_part.
  - by rewrite path_parts_app, path_parts_part, IH.
Qed.

Lemma join_split s : builder_join c_slash (split_on c_slash s) = s.
Proof.
  induction s as [|x s IH]; [done|]. cbn [split_on]. pose proof (split_on_nonempty c_slash s) as Hne.
  destruct (Z.eqb_spec x c_slash) as [->|Hx].
  - cbn [builder_join]. destruct (split_on c_slash s) as [|p ps]; [done|]. by rewrite <-IH.
  - destruct (split_on c_slash s) as [|p ps]; [done|]. destruct ps as [|q ps]; by rewrite <-IH.
Qed.

(** ** Canonical parts *)

(** Parts that no step changes: [..] only at the front of a relative path. *)
Definition plain (part : bytes) : Prop := part ≠ dot ∧ part ≠ dotdot.

Definition canonical (absolute : bool) (parts : list bytes) : Prop :=
  ∃ n rest, parts = replicate n dotdot ++ rest ∧ Forall plain rest ∧ (absolute = true → n = 0%nat).

Lemma plain_step absolute acc part : plain part → canonical_step absolute acc part = acc ++ [part].
Proof. intros [H1 H2]. unfold canonical_step. by rewrite !bool_decide_eq_false_2. Qed.

Lemma dot_step absolute acc : canonical_step absolute acc dot = acc.
Proof. unfold canonical_step. by rewrite bool_decide_eq_true_2. Qed.

Lemma plain_steps absolute acc parts : Forall plain parts → foldl (canonical_step absolute) acc parts = acc ++ parts.
Proof.
  intros Hp. revert acc. induction Hp as [|part parts Hp _ IH]; intros acc; cbn [foldl]; [by rewrite app_nil_r|].
  by rewrite plain_step, IH, <-app_assoc.
Qed.

Lemma dotdot_step absolute acc :
  canonical_step absolute acc dotdot =
  match last acc with
  | None => if absolute then acc else acc ++ [dotdot]
  | Some l => if decide (l = dotdot) then acc ++ [dotdot] else removelast acc
  end.
Proof.
  unfold canonical_step. rewrite bool_decide_eq_false_2 by done. rewrite bool_decide_eq_true_2 by done.
  destruct (last acc) as [l|]; [|done]. by case_bool_decide; case_decide.
Qed.

Lemma dotdot_pops absolute acc part : plain part → canonical_step absolute (acc ++ [part]) dotdot = acc.
Proof.
  intros [_ Hp]. rewrite dotdot_step, last_snoc, decide_False by done. apply removelast_last.
Qed.

Lemma canonical_step_ok absolute acc part : canonical absolute acc → canonical absolute (canonical_step absolute acc part).
Proof.
  intros (n & rest & -> & Hrest & Hn). destruct (decide (part = dot)) as [->|Hdot]; [rewrite dot_step; by exists n, rest|].
  destruct (decide (part = dotdot)) as [->|Hdd]; cycle 1.
  { rewrite plain_step by done. exists n, (rest ++ [part]). split_and!; [by rewrite app_assoc| |done].
    apply Forall_app. by repeat constructor. }
  destruct (decide (rest = [])) as [->|Hne].
  - rewrite app_nil_r, dotdot_step. destruct n as [|n].
    + cbn [replicate last]. destruct absolute; [by exists 0%nat, []|by exists 1%nat, []].
    + destruct absolute; [by specialize (Hn eq_refl)|]. exists (S (S n)), [].
      replace (last (replicate (S n) dotdot)) with (Some dotdot) by (symmetry; rewrite replicate_S_end; apply last_snoc).
      rewrite decide_True by done. rewrite app_nil_r. split_and!; [|done..]. by rewrite (replicate_S_end (S n)).
  - destruct (exists_last Hne) as (rest' & l & ->). apply Forall_app in Hrest as [Hr Hl]. apply Forall_cons in Hl as [Hl _].
    rewrite app_assoc, dotdot_pops by done. by exists n, rest'.
Qed.

Lemma canonical_steps_ok absolute acc parts : canonical absolute acc → canonical absolute (foldl (canonical_step absolute) acc parts).
Proof. revert acc. induction parts as [|part parts IH]; intros acc H; cbn [foldl]; [done|]. by apply IH, canonical_step_ok. Qed.

Lemma canonical_nil absolute : canonical absolute [].
Proof. by exists 0%nat, []. Qed.

Lemma canonical_fixed absolute parts : canonical absolute parts → foldl (canonical_step absolute) [] parts = parts.
Proof.
  intros (n & rest & -> & Hrest & Hn). rewrite foldl_app, plain_steps by done. f_equal.
  destruct absolute; [by rewrite Hn|]. clear. induction n as [|n IH]; [done|].
  rewrite replicate_S_end, foldl_app, IH. cbn [foldl]. rewrite dotdot_step.
  destruct n as [|n]; [done|]. rewrite (replicate_S_end n), last_snoc. done.
Qed.

Lemma canonical_parts_ok absolute acc parts :
  Forall part_ok acc → Forall part_ok parts → Forall part_ok (foldl (canonical_step absolute) acc parts).
Proof.
  intros Ha Hp. revert acc Ha. induction Hp as [|part parts Hp _ IH]; intros acc Ha; cbn [foldl]; [done|].
  apply IH. assert (Forall part_ok (acc ++ [part])) by (apply Forall_app; split; [done|by apply Forall_singleton]).
  unfold canonical_step. repeat case_match; try done. rewrite removelast_firstn_len. by apply Forall_take.
Qed.

(** ** The text of canonical parts *)
Definition resolve (s : bytes) : list bytes := foldl (canonical_step (is_absolute_path s)) [] (path_parts s).

Definition print_path (absolute : bool) (parts : list bytes) : bytes :=
  if absolute then c_slash :: builder_join c_slash parts
  else match parts with [] => dot | _ => builder_join c_slash parts end.

Lemma resolve_ok s : Forall part_ok (resolve s).
Proof. apply canonical_parts_ok; [constructor|apply path_parts_ok]. Qed.

Lemma resolve_canonical s : canonical (is_absolute_path s) (resolve s).
Proof. apply canonical_steps_ok, canonical_nil. Qed.

Lemma print_absolute absolute parts : Forall part_ok parts → is_absolute_path (print_path absolute parts) = absolute.
Proof.
  intros Hp. destruct absolute; [done|]. unfold print_path. destruct Hp as [|part parts [Hne Hs] _]; [done|].
  destruct part as [|c part]; [done|]. apply not_elem_of_cons in Hs as [Hc _]. unfold is_absolute_path, starts_with_char.
  destruct parts; cbn [builder_join app]; by apply Z.eqb_neq.
Qed.

Lemma dot_ok : part_ok dot.
Proof. split; [done|]. unfold dot. rewrite list_elem_of_singleton. done. Qed.

Lemma print_parts absolute parts :
  Forall part_ok parts → path_parts (print_path absolute parts) = if absolute then parts else match parts with [] => [dot] | _ => parts end.
Proof.
  intros Hp. destruct absolute; [by apply path_parts_join|]. destruct parts; [apply path_parts_part, dot_ok|].
  by apply path_parts_join.
Qed.

Lemma resolve_print absolute parts : Forall part_ok parts → canonical absolute parts → resolve (print_path absolute parts) = parts.
Proof.
  intros Hp Hc. unfold resolve. rewrite print_absolute, print_parts by done.
  destruct absolute; [by apply canonical_fixed|]. destruct parts as [|part parts]; [done|]. by apply canonical_fixed.
Qed.

(** ** Canonicalization *)
Lemma first_occurrence_tail s needle x : needle ≠ [] → first_occurrence (x :: s) needle = None → first_occurrence s needle = None.
Proof. intros Hn. cbn [first_occurrence]. case_match; [done|]. by destruct (first_occurrence s needle). Qed.

Lemma first_occurrence_double s c : first_occurrence (c :: c :: s) [c; c] = Some 0%nat.
Proof. cbn [first_occurrence]. by rewrite bool_decide_eq_true_2. Qed.

(** Text with no double and no final slash has no empty part, but for the one before a
    leading slash. *)
Lemma split_no_empty s :
  first_occurrence s [c_slash; c_slash] = None → last s ≠ Some c_slash → s ≠ [] → head s ≠ Some c_slash →
  Forall (λ part, part ≠ []) (split_on c_slash s).
Proof.
  induction s as [s IH] using (induction_ltof1 _ length). unfold ltof in IH.
  destruct s as [|x s]; [done|]. intros Hf Hl _ Hh. cbn [split_on]. destruct (Z.eqb_spec x c_slash) as [->|Hx]; [done|].
  apply first_occurrence_tail in Hf; [|done]. destruct s as [|y s]; [by repeat constructor|].
  rewrite last_cons_cons in Hl. destruct (Z.eqb_spec y c_slash) as [->|Hy].
  - cbn [split_on]. rewrite Z.eqb_refl. constructor; [done|]. destruct s as [|z s]; [done|].
    apply IH; [cbn; lia|by eapply first_occurrence_tail|by rewrite last_cons_cons in Hl|done|].
    intros [= ->]. by rewrite first_occurrence_double in Hf.
  - assert (Forall (λ part, part ≠ []) (split_on c_slash (y :: s))) as Hs.
    { apply IH; [cbn; lia|done..|]. by intros [= ->]. }
    destruct Hs; by repeat constructor.
Qed.

Lemma split_on_elements c s part x : part ∈ split_on c s → x ∈ part → x ∈ s.
Proof.
  revert part. induction s as [|y s IH]; intros part; cbn [split_on].
  - rewrite list_elem_of_singleton. by intros ->.
  - destruct (Z.eqb_spec y c) as [->|Hy].
    + rewrite elem_of_cons. intros [->|Hp] Hx; [by apply not_elem_of_nil in Hx|]. right. by eapply IH.
    + destruct (split_on c s) as [|p ps] eqn:E; rewrite elem_of_cons.
      * intros [->|Hp%not_elem_of_nil] Hx; [|done]. apply list_elem_of_singleton in Hx as ->. by left.
      * intros [->|Hp] Hx.
        { apply elem_of_cons in Hx as [->|Hx]; [by left|]. right. apply (IH p); [by left|done]. }
        { right. apply (IH part); [by right|done]. }
Qed.

Lemma filter_nonempty (l : list bytes) : Forall (λ part, part ≠ []) l → filter (λ part, part ≠ []) l = l.
Proof. induction 1 as [|part l Hp _ IH]; [done|]. by rewrite filter_cons, decide_True, IH. Qed.

(** Text that the fast path leaves alone is the text of its parts. *)
Lemma plain_text s :
  s ≠ [] → c_dot ∉ s → first_occurrence s [c_slash; c_slash] = None → last s ≠ Some c_slash →
  print_path (is_absolute_path s) (resolve s) = s.
Proof.
  intros Hne Hdot Hf Hl. unfold resolve. rewrite plain_steps; cycle 1.
  { unfold path_parts. apply Forall_forall. intros part [_ Hin]%list_elem_of_filter.
    split; intros ->; apply Hdot; (eapply split_on_elements; [exact Hin|left]). }
  rewrite app_nil_l. destruct s as [|x s]; [done|]. unfold is_absolute_path, starts_with_char.
  destruct (Z.eqb_spec c_slash x) as [<-|Hx]; cbn [print_path].
  - rewrite path_parts_slash. f_equal. destruct s as [|y s]; [done|]. unfold path_parts.
    rewrite filter_nonempty; [apply join_split|]. rewrite last_cons_cons in Hl. apply split_no_empty; [by eapply first_occurrence_tail|done|done|].
    intros [= ->]. by rewrite first_occurrence_double in Hf.
  - assert (path_parts (x :: s) = split_on c_slash (x :: s)) as Hp.
    { apply filter_nonempty, split_no_empty; [done..|]. by intros [= ->]. }
    rewrite Hp. pose proof (split_on_nonempty c_slash (x :: s)) as Hs. unfold print_path.
    pose proof (join_split (x :: s)) as Hj. by destruct (split_on c_slash (x :: s)).
Qed.

Lemma contains_char_elem s c : contains_char s c = true ↔ c ∈ s.
Proof.
  unfold contains_char. rewrite existsb_exists. split; [intros (x & Hx%list_elem_of_In & ->%Z.eqb_eq); done|].
  intros Hc. exists c. split; [by apply list_elem_of_In|apply Z.eqb_refl].
Qed.

(** The canonical path is the text of the resolved parts. *)
Lemma canonicalized_path_spec s : canonicalized_path s = Returned (print_path (is_absolute_path s) (resolve s)).
Proof.
  unfold canonicalized_path. case_bool_decide as Hne; [by subst|]. unfold contains_view, stringutils_contains.
  destruct s as [|x s]; [done|]. 
  assert (∃ b, (if (length (x :: s) <? length [c_slash; c_slash])%nat then Returned false
    else r ← memmem_optional (x :: s) [c_slash; c_slash]; Returned (bool_decide (is_Some r))) = Returned b
    ∧ (b = false → first_occurrence (x :: s) [c_slash; c_slash] = None)) as (b & -> & Hb).
  { case_match eqn:El.
    - exists false. split; [done|]. intros _. destruct s as [|y s]; [|cbn in El; by destruct (length s)].
      cbn [first_occurrence length take]. by rewrite !bool_decide_eq_false_2.
    - rewrite memmem_first by (cbn; lia). rewrite bind_value. eexists. split; [done|]. intros Hb.
      apply bool_decide_eq_false_1 in Hb. by apply eq_None_not_Some. }
  rewrite bind_value. case_match eqn:Efast.
  - bool_to_prop. f_equal. symmetry. destruct b; [done|]. apply plain_text; [done| |by apply Hb|].
    + intros Hin%contains_char_elem. by rewrite Hin in *.
    + intros Hl. unfold ends_with_char in *. rewrite Hl in *. done.
  - cbn [at_index must lookup list_lookup]. rewrite !bind_value, split_path, bind_value. f_equal.
    unfold resolve, is_absolute_path, starts_with_char, print_path. rewrite (Z.eqb_sym c_slash x).
    destruct (x =? c_slash); [by rewrite andb_false_r|]. rewrite andb_true_r. by case_bool_decide; case_match.
Qed.

Lemma canonicalized_fixed absolute parts :
  Forall part_ok parts → canonical absolute parts →
  canonicalized_path (print_path absolute parts) = Returned (print_path absolute parts).
Proof. intros Hp Hc. by rewrite canonicalized_path_spec, print_absolute, resolve_print. Qed.

(** ** The place a path denotes

    The stack of directories from the root, the current one being [cwd]: [.] stays, [..]
    goes to the parent (the root is its own parent) and any other part enters a directory. *)
Definition enter (place : list bytes) (part : bytes) : list bytes :=
  if decide (part = [c_dot]) then place
  else if decide (part = [c_dot; c_dot]) then removelast place
  else place ++ [part].

Definition denotes (cwd : list bytes) (s : bytes) : list bytes :=
  foldl enter (if is_absolute_path s then [] else cwd) (path_parts s).

Lemma enter_plain place part : plain part → enter place part = place ++ [part].
Proof. intros [H1 H2]. unfold enter. by rewrite !decide_False. Qed.

Lemma enter_pops place part : plain part → enter (enter place part) dotdot = place.
Proof. intros Hp. rewrite (enter_plain place) by done. apply removelast_last. Qed.

Lemma resolve_steps absolute cwd parts :
  (absolute = true → cwd = []) →
  foldl enter cwd (foldl (canonical_step absolute) [] parts) = foldl enter cwd parts.
Proof.
  intros Hcwd. induction parts as [|part parts IH] using rev_ind; [done|].
  rewrite !foldl_app. cbn [foldl]. rewrite <-IH. clear IH.
  pose proof (canonical_steps_ok absolute [] parts (canonical_nil absolute)) as Hc.
  set (r := foldl (canonical_step absolute) [] parts) in *. clearbody r. destruct Hc as (n & rest & -> & Hrest & Hn).
  destruct (decide (part = dot)) as [->|Hdot]; [by rewrite dot_step|].
  destruct (decide (part = dotdot)) as [->|Hdd]; [|by rewrite plain_step, foldl_app by done].
  destruct (decide (rest = [])) as [->|Hne].
  - rewrite app_nil_r, dotdot_step. destruct n as [|n].
    + destruct absolute; [by rewrite Hcwd|done].
    + rewrite (replicate_S_end n), last_snoc, decide_True, foldl_app by done. done.
  - destruct (exists_last Hne) as (rest' & l & ->). apply Forall_app in Hrest as [Hr Hl]. apply Forall_cons in Hl as [Hl _].
    rewrite app_assoc. set (front := replicate n dotdot ++ rest'). rewrite dotdot_pops, foldl_app by done.
    cbn [foldl]. by rewrite enter_pops.
Qed.

(** C21: [LexicalPath::canonicalized_path] returns on every string; its result leads to
    the same directory as the path when one walks its parts ([.] stays, [..] goes to the
    parent, any other part enters) from every current directory, is absolute when the path is, has
    no empty part, no [.] but as the whole path and [..] only at the front of a relative
    path, and is left alone when it is canonicalized again. *)
Theorem canonicalized_path_correct (path : bytes) :
  ∃ result, canonicalized_path path = Returned result
    ∧ is_absolute_path result = is_absolute_path path
    ∧ (∀ cwd, denotes cwd result = denotes cwd path)
    ∧ (∃ parts, result = print_path (is_absolute_path path) parts ∧ Forall part_ok parts
        ∧ canonical (is_absolute_path path) parts)
    ∧ canonicalized_path result = Returned result.
Proof.
  pose proof (resolve_ok path) as Hok. pose proof (resolve_canonical path) as Hcan.
  eexists. split; [apply canonicalized_path_spec|]. split; [by apply print_absolute|].
  split; [|split; [by exists (resolve path)|by apply canonicalized_fixed]].
  intros cwd. unfold denotes. rewrite print_absolute, print_parts by done. unfold resolve in *.
  destruct (is_absolute_path path); [by apply resolve_steps|]. rewrite <-(resolve_steps false cwd (path_parts path)) by done.
  by destruct (foldl (canonical_step false) [] (path_parts path)).
Qed.

(** ** The constructor *)
(** What a path keeps of its last part: the text before and after the last dot, unless the
    dot is its first character. *)
Definition split_name (name : bytes) : bytes * bytes :=
  match find_last name c_dot with
  | Some (S n as k) => (take k name, drop (S k) name)
  | _ => (name, [])
  end.

Definition lexical_path_of (absolute : bool) (parts : list bytes) : LexicalPath :=
  let s := print_path absolute parts in
  let name := match last (path_parts s) with Some name => name | None => s end in
  let dirname := match find_last s c_slash with None => dot | Some O => [c_slash] | Some k => take k s end in
  mk_lexical_path (path_parts s) s dirname name (split_name name).1 (split_name name).2.

Lemma split_name_returns name s dirname parts :
  match find_last name c_dot with
  | Some (S n as last_dot_index) =>
      title ← substring_view name 0 last_dot_index;
      extension ← substring_view_from name (last_dot_index + 1);
      Returned (mk_lexical_path parts s dirname name title extension)
  | _ => Returned (mk_lexical_path parts s dirname name name [])
  end = Returned (mk_lexical_path parts s dirname name (split_name name).1 (split_name name).2).
Proof.
  unfold split_name. pose proof (find_last_split name c_dot) as H. destruct (find_last name c_dot) as [[|n]|]; try done.
  destruct H as (pre & post & -> & Hl & _).
  rewrite substring_view_in_range by (rewrite length_app; cbn; lia). rewrite bind_value.
  rewrite substring_view_from_in_range by (rewrite length_app; cbn; lia).
  rewrite bind_value. by replace (S n + 1)%nat with (S (S n)) by lia.
Qed.

Lemma lexical_path_spec s : lexical_path s = Returned (lexical_path_of (is_absolute_path s) (resolve s)).
Proof.
  unfold lexical_path, lexical_path_of. rewrite canonicalized_path_spec, bind_value. pose proof (resolve_ok s) as Hok.
  set (absolute := is_absolute_path s). set (parts := resolve s) in *. clearbody parts absolute. cbv zeta.
  assert (print_path absolute parts ≠ []) as Hne.
  { destruct absolute; [done|]. destruct Hok as [|part ps [Hp _] _]; [done|]. destruct ps; [done|]. cbn.
    by intros [? _]%app_nil. }
  rewrite bool_decide_eq_false_2 by done. rewrite split_path, bind_value.
  set (text := print_path absolute parts) in *.
  assert ((match find_last text c_slash with None => Returned dot | Some k =>
      if (k =? 0)%nat then substring_view text 0 1 else substring_view text 0 k end)
    = Returned (match find_last text c_slash with None => dot | Some O => [c_slash] | Some k => take k text end)) as ->.
  { pose proof (find_last_split text c_slash) as H. destruct (find_last text c_slash) as [[|k]|]; [..|done].
    - destruct H as (pre & post & -> & Hl & _). rewrite substring_view_in_range by (rewrite length_app; cbn; lia). by destruct pre.
    - destruct H as (pre & post & -> & Hl & _). cbn [Nat.eqb]. by rewrite substring_view_in_range by (rewrite length_app; cbn; lia). }
  rewrite bind_value.
  assert ((if bool_decide (text = [c_slash]) then Returned text
    else verify (0 <? length (path_parts text))%nat (must (last (path_parts text))))
    = Returned (match last (path_parts text) with Some name => name | None => text end)) as ->.
  { unfold text. rewrite print_parts by done. case_bool_decide as E.
    - pose proof (print_absolute absolute parts Hok) as Ha. unfold text in E. rewrite E in Ha. subst absolute.
      destruct parts as [|p ps]; [done|]. exfalso. apply Forall_cons in Hok as [[Hp _] _]. destruct p as [|c p]; [done|].
      by destruct ps.
    - destruct absolute; destruct parts as [|p ps]; try done; cbn [length Nat.ltb Nat.leb verify].
      all: by destruct (proj2 (last_is_Some (p :: ps)) ltac:(done)) as [x ->]. }
  rewrite bind_value. apply split_name_returns.
Qed.

(** ** Relative paths *)
Lemma print_injective absolute p q :
  Forall part_ok p → Forall part_ok q → canonical absolute p → canonical absolute q →
  print_path absolute p = print_path absolute q → p = q.
Proof. intros Hp Hq Cp Cq E. rewrite <-(resolve_print absolute p), <-(resolve_print absolute q) by done. by rewrite E. Qed.

Lemma absolute_canonical_plain parts : canonical true parts → Forall plain parts.
Proof. intros (n & rest & -> & Hr & Hn). by rewrite Hn. Qed.

Lemma is_absolute_app a b : a ≠ [] → is_absolute_path (a ++ b) = is_absolute_path a.
Proof. by destruct a. Qed.

(** A path from an absolute directory. *)
Lemma absolute_path_from dir rel :
  is_absolute_path dir = true → is_absolute_path rel = false →
  absolute_path dir rel = Returned (print_path true (foldl (canonical_step true) (resolve dir) (path_parts rel))).
Proof.
  intros Hd Hr. unfold absolute_path. rewrite lexical_path_spec, bind_value. unfold is_absolute. cbn [m_string lexical_path_of].
  rewrite print_absolute, Hr by apply resolve_ok. unfold path_join. cbn [foldl].
  rewrite lexical_path_spec, bind_value. cbn [m_string lexical_path_of].
  rewrite canonicalized_fixed by (apply resolve_ok || apply resolve_canonical).
  assert (is_absolute_path (dir ++ c_slash :: rel) = true) as Ha by (rewrite is_absolute_app; [done|by intros ->]).
  unfold resolve. by rewrite Ha, Hd, path_parts_app, foldl_app.
Qed.

Lemma split_on_joined parts : Forall part_ok parts → parts ≠ [] → split_on c_slash (builder_join c_slash parts) = parts.
Proof.
  induction 1 as [|part parts [_ Hs] Hps IH]; [done|]. intros _. cbn [builder_join]. destruct parts as [|q parts].
  - by apply split_on_absent.
  - rewrite split_on_app by done. f_equal. by apply IH.
Qed.

(** What is left of a canonical path after a prefix and a slash is relative. *)
Lemma rest_relative parts prefix rest :
  Forall part_ok parts → prefix ≠ [] → print_path true parts = prefix ++ c_slash :: rest → is_absolute_path rest = false.
Proof.
  intros Hok Hne E. destruct rest as [|c rest]; [done|]. unfold is_absolute_path, starts_with_char.
  apply Z.eqb_neq. intros <-. apply (f_equal (split_on c_slash)) in E. rewrite split_on_join in E.
  cbn [print_path split_on] in E. rewrite Z.eqb_refl in E. pose proof (split_on_nonempty c_slash prefix) as Hp.
  destruct (split_on c_slash prefix) as [|p ps]; [done|]. injection E as _ E.
  destruct (decide (parts = [])) as [->|Hparts].
  { cbn in E. destruct ps as [|? ps]; [|by destruct ps]. injection E as E. by destruct (split_on_nonempty c_slash rest). }
  rewrite split_on_joined in E by done. rewrite E in Hok. apply Forall_app in Hok as [_ Hok].
  by apply Forall_cons in Hok as [[? _] _].
Qed.

Lemma common_parts_spec p q :
  let i := common_parts p q in take i p = take i q ∧ (i ≤ length q)%nat.
Proof.
  revert q. induction p as [|a p IH]; intros [|b q]; cbn; [by split; [|lia]..|].
  case_bool_decide as E; cbn; [|by split; [|lia]]. subst b. destruct (IH q) as [H1 H2]. split; [by rewrite H1|lia].
Qed.

Lemma pops absolute front back :
  Forall plain back → foldl (canonical_step absolute) (front ++ back) (replicate (length back) dotdot) = front.
Proof.
  induction back as [|part back IH] using rev_ind; intros Hp; [by rewrite app_nil_r|].
  apply Forall_app in Hp as [Hb Hp]. apply Forall_cons in Hp as [Hp _]. rewrite length_app, Nat.add_comm. cbn [length Nat.add replicate foldl].
  rewrite app_assoc, dotdot_pops by done. by apply IH.
Qed.

Lemma path_parts_ups n s : path_parts (concat (replicate n (sv "../")) ++ s) = replicate n dotdot ++ path_parts s.
Proof.
  induction n as [|n IH]; [done|]. cbn [replicate concat]. rewrite <-app_assoc.
  change (sv "../" ++ concat (replicate n (sv "../")) ++ s) with (dotdot ++ c_slash :: (concat (replicate n (sv "../")) ++ s)).
  rewrite path_parts_app, IH. done.
Qed.

Lemma join_relative parts : Forall part_ok parts → is_absolute_path (builder_join c_slash parts) = false.
Proof.
  destruct parts as [|p parts]; [done|]. intros Hok. apply (print_absolute false (p :: parts)) in Hok. done.
Qed.

(** Up from the prefix to the common part and down. *)
Lemma relative_path_up P Q (goal : bytes → Prop) :
  Forall part_ok P → Forall part_ok Q → Forall plain P → Forall plain Q →
  (∀ rel, is_absolute_path rel = false → foldl (canonical_step true) Q (path_parts rel) = P → goal rel) →
  ∃ rel, (path_parts ← split_view (print_path true P) [c_slash] SplitNothing;
          prefix_parts ← split_view (print_path true Q) [c_slash] SplitNothing;
          let i := common_parts path_parts prefix_parts in
          Returned (Some (concat (replicate (length prefix_parts - i) (sv "../")) ++ builder_join c_slash (drop i path_parts))))
         = Returned (Some rel) ∧ goal rel.
Proof.
  intros Po Qo Pp Qp Hgoal. rewrite !split_path, !bind_value, !print_parts by done. cbv zeta.
  destruct (common_parts_spec P Q) as [Htake Hi]. set (i := common_parts P Q) in *.
  eexists. split; [done|]. apply Hgoal.
  - destruct (length Q - i)%nat; [|done]. by apply join_relative, Forall_drop.
  - rewrite path_parts_ups, path_parts_join by (by apply Forall_drop). rewrite foldl_app.
    rewrite <-(take_drop i Q) at 1. rewrite <-length_drop, pops by (by apply Forall_drop).
    rewrite plain_steps by (by apply Forall_drop). by rewrite <-Htake, take_drop.
Qed.

(** for two absolute paths [LexicalPath::relative_path] gives a path that leads from
    the second to the first: joined to the prefix and canonicalized, it is the canonical
    path. *)
Theorem relative_path_correct (path prefix : bytes)
    (Hpath : is_absolute_path path = true) (Hprefix : is_absolute_path prefix = true) :
  ∃ rel, relative_path path prefix = Returned (Some rel)
    ∧ absolute_path prefix rel = canonicalized_path path.
Proof.
  unfold relative_path. unfold is_absolute_path in Hpath, Hprefix. rewrite Hpath, Hprefix. cbn [negb orb].
  change (is_absolute_path path = true) in Hpath. change (is_absolute_path prefix = true) in Hprefix.
  rewrite !canonicalized_path_spec, Hpath, Hprefix, !bind_value.
  assert (∀ rel, is_absolute_path rel = false → foldl (canonical_step true) (resolve prefix) (path_parts rel) = resolve path →
    absolute_path prefix rel = Returned (print_path true (resolve path))) as Hgoal.
  { intros rel Hr E. by rewrite absolute_path_from, E. }
  pose proof (resolve_ok path) as Po. pose proof (resolve_ok prefix) as Qo.
  pose proof (resolve_canonical path) as Pc. pose proof (resolve_canonical prefix) as Qc. rewrite Hpath in Pc. rewrite Hprefix in Qc.
  assert (∀ r, r = resolve prefix → foldl (canonical_step true) r (path_parts dot) = r) as Hdot by (intros r ->; apply dot_step).
  case_bool_decide as E1.
  { exists dot. split; [done|]. apply Hgoal; [done|]. subst path. by apply Hdot. }
  case_bool_decide as E2.
  { exists dot. split; [done|]. apply Hgoal; [done|]. rewrite Hdot by done. symmetry. by apply (print_injective true). }
  set (P := resolve path) in *. set (Q := resolve prefix) in *. clearbody P Q.
  apply absolute_canonical_plain in Pc as Pp, Qc as Qp.
  case_bool_decide as E3.
  { rewrite substring_view_from_in_range by (cbn; lia). rewrite bind_value. eexists. split; [done|].
    apply (print_injective true Q []) in E3; [subst Q| |constructor| |by apply canonical_nil]; [|done..].
    change (drop 1 (print_path true P)) with (builder_join c_slash P). apply Hgoal; [by apply join_relative|]. rewrite path_parts_join, plain_steps by done. done. }
  destruct (starts_with (print_path true P) (print_path true Q) CaseSensitive) eqn:Es; cycle 1.
  { rewrite bind_value. by apply relative_path_up. }
  apply starts_with_app in Es as [rest Es]. rewrite Es. destruct rest as [|c rest]; [by rewrite app_nil_r in Es|].
  assert ((print_path true Q ++ c :: rest) !! length (print_path true Q) = Some c) as Hat by apply list_lookup_middle, eq_refl.
  rewrite (at_index_lt _ _ _ Hat), !bind_value. destruct (Z.eqb_spec c c_slash) as [->|Hc]; cycle 1.
  { rewrite <-Es. by apply relative_path_up. }
  rewrite substring_view_from_in_range by (rewrite length_app; cbn; lia). rewrite bind_value. eexists. split; [done|].
  rewrite drop_app_ge by lia. replace (length _ + 1 - length _)%nat with 1%nat by lia. rewrite <-Es.
  change (drop 1 (c_slash :: rest)) with rest. apply Hgoal; [by eapply rest_relative; [exact Po| |exact Es]|].
  apply (f_equal path_parts) in Es. rewrite path_parts_app, !print_parts in Es by done. rewrite Es in *.
  apply Forall_app in Pp as [_ Pp]. by rewrite plain_steps.
Qed.

Lemma relative_path_correct_witness :
  (is_absolute_path (sv "/usr/./lib/x") = true ∧ is_absolute_path (sv "/usr/share/") = true) ∧
  ∃ rel, relative_path (sv "/usr/./lib/x") (sv "/usr/share/") = Returned (Some rel)
    ∧ absolute_path (sv "/usr/share/") rel = canonicalized_path (sv "/usr/./lib/x").
Proof. split; [done|]. apply (relative_path_correct (sv "/usr/./lib/x") (sv "/usr/share/")); reflexivity. Defined.

(** ** A file of a directory *)
Lemma path_append_name dir name :
  part_ok name → plain name → ∃ p, path_append dir name = Returned p ∧ m_basename p = name
    ∧ m_title p = (split_name name).1 ∧ m_extension p = (split_name name).2
    ∧ m_string p = print_path (is_absolute_path (m_string dir ++ [c_slash])) (resolve (m_string dir ++ [c_slash]) ++ [name]).
Proof.
  intros Hok Hp. unfold path_append, path_join. cbn [foldl]. rewrite lexical_path_spec.
  set (text := m_string dir ++ c_slash :: name). set (front := m_string dir ++ [c_slash]).
  assert (is_absolute_path text = is_absolute_path front) as Ha by (unfold text, front; by destruct (m_string dir)).
  assert (resolve text = resolve front ++ [name]) as Hr.
  { unfold resolve. rewrite Ha. unfold text, front. rewrite !path_parts_app, (path_parts_part name) by done.
    rewrite !foldl_app. cbn [foldl]. change (path_parts []) with (@nil bytes). cbn [foldl]. by rewrite plain_step. }
  assert (last (path_parts (print_path (is_absolute_path text) (resolve text))) = Some name) as Hl.
  { rewrite print_parts by apply resolve_ok. rewrite Hr. destruct (is_absolute_path text); [by rewrite last_snoc|].
    assert (resolve front ++ [name] ≠ []) by (by destruct (resolve front)).
    destruct (resolve front ++ [name]) eqn:E; [done|]. by rewrite <-E, last_snoc. }
  eexists. split; [done|]. unfold lexical_path_of. cbn [m_basename m_title m_extension m_string]. rewrite Hl.
  split_and!; try done. by rewrite Ha, Hr.
Qed.

(** A name and its extension are split at the last dot. *)
Lemma split_name_extension title extension :
  title ≠ [] → c_dot ∉ extension → split_name (title ++ c_dot :: extension) = (title, extension).
Proof.
  intros Ht He. unfold split_name. pose proof (find_last_split (title ++ c_dot :: extension) c_dot) as H.
  destruct (find_last _ _) as [k|]; [|destruct H; rewrite elem_of_app, elem_of_cons; by right; left].
  destruct H as (pre & post & E & Hl & Hpost).
  assert (pre = title ∧ post = extension) as [-> ->].
  { clear Ht Hl. revert pre E. induction title as [|c title IH]; intros [|d pre] E; cbn in E; simplify_eq; [done|..].
    - destruct He. rewrite elem_of_app, elem_of_cons. by right; left.
    - destruct Hpost. rewrite elem_of_app, elem_of_cons. by right; left.
    - destruct (IH pre) as [-> ->]; [done|done]. }
  destruct k as [|k]; [by destruct title|]. rewrite <-Hl, take_app_length.
  by rewrite drop_app_ge, Nat.sub_succ_l, Nat.sub_diag by lia.
Qed.

Lemma split_name_plain name : c_dot ∉ name → split_name name = (name, []).
Proof.
  intros Hn. unfold split_name. pose proof (find_last_split name c_dot) as H. destruct (find_last name c_dot) as [k|]; [|done].
  destruct H as (pre & post & -> & _). destruct Hn. rewrite elem_of_app, elem_of_cons. by right; left.
Qed.

(** ** Children *)
Definition is_prefix (p q : list bytes) : Prop := ∃ rest, q = p ++ rest.

Lemma is_child_of_spec a b :
  is_absolute_path a = is_absolute_path b → is_absolute_path a = true →
  ∃ pa pb, lexical_path a = Returned pa ∧ lexical_path b = Returned pb
    ∧ (is_child_of pa pb = true ↔ is_prefix (resolve b) (resolve a)).
Proof.
  intros Hab Ha. do 2 eexists. split; [apply lexical_path_spec|]. split; [apply lexical_path_spec|].
  unfold is_child_of, is_absolute. cbn [m_string m_parts lexical_path_of]. rewrite !print_absolute, <-Hab, Ha by apply resolve_ok.
  rewrite !print_parts by apply resolve_ok. cbn [negb andb]. set (p := resolve a). set (q := resolve b). clearbody p q.
  destruct (Nat.ltb_spec (length p) (length q)) as [Hl|Hl].
  - split; [done|]. intros [rest ->]. rewrite length_app in Hl. lia.
  - rewrite bool_decide_eq_true. split.
    + intros Ht. exists (drop (length q) p). by rewrite <-Ht at 1; rewrite take_drop.
    + intros [rest ->]. apply take_app_length.
Qed.
