(* ===== verification/Utf8View.v ===== *)
(** * Views by code points: AK/Utf8View.{h,cpp}

    The length of a view in code points and its substrings by code point
    positions.  Positions are [size_t] values, kept as [Z] with the wrap-around
    of the source's additions and subtractions. *)
From S2P Require Import Prelude CharacterTypes Externals Utf8 StringView.

Section Model.
Context `{Simdutf}.

(** The loop of [calculate_length] for text that is not well-formed. *)
Fixpoint calculate_length_loop (fuel : nat) (s : bytes) (length' : Z) : Z :=
  match fuel, s with
  | S fuel, byte :: _ =>
      let n := match decode_leading_byte byte with Some (byte_length, _) => byte_length | None => 1%nat end in
      calculate_length_loop fuel (drop n s) (wrap64 (length' + 1))
  | _, _ => length'
  end.

(** [Utf8View::calculate_length], whose result [Utf8View::length] caches. *)
Definition utf8_length (s : bytes) : outcome Z :=
  valid ← utf8_validate s AllowYes;
  Returned (if valid : bool then Z.of_nat (count_utf8 s) else calculate_length_loop (length s) s 0).

(** The loop of [unicode_substring_view]; [last] is
    [code_point_offset + code_point_length - 1]. *)
Fixpoint unicode_substring_loop (fuel : nat) (s iterator : bytes)
    (code_point_index code_point_offset last : Z) (offset_in_bytes : nat) : outcome bytes :=
  match fuel, iterator with
  | O, _ => OutOfFuel
  | S _, [] => VerifyFailed
  | S fuel, _ =>
      let offset_in_bytes :=
        if code_point_index =? code_point_offset then (length s - length iterator)%nat else offset_in_bytes in
      iterator ← iterator_next iterator;
      if code_point_index =? last then
        length_in_bytes ← size_sub (length s - length iterator) offset_in_bytes;
        substring_view s offset_in_bytes length_in_bytes
      else
        unicode_substring_loop fuel s iterator (wrap64 (code_point_index + 1)) code_point_offset last
          offset_in_bytes
  end.

(** [Utf8View::unicode_substring_view(code_point_offset, code_point_length)] *)
Definition unicode_substring_view (s : bytes) (code_point_offset code_point_length : Z) : outcome bytes :=
  if code_point_length =? 0 then Returned []
  else unicode_substring_loop (S (length s)) s s 0 code_point_offset
         (wrap64 (code_point_offset + code_point_length - 1)) 0.

(** [Utf8View::unicode_substring_view(code_point_offset)] *)
Definition unicode_substring_view_from (s : bytes) (code_point_offset : Z) : outcome bytes :=
  len ← utf8_length s;
  unicode_substring_view s code_point_offset (wrap64 (len - code_point_offset)).

End Model.

(** ** Well-formed text *)
Notation utf8_of cps := (flat_map utf8_form cps).

Lemma utf8_form_nonempty c : 0 ≤ c ≤ 0x10FFFF → utf8_form c ≠ [].
Proof. intros Hc. by destruct (utf8_form_shape c Hc) as (b & ext & -> & _). Qed.

Lemma iterator_next_form c rest :
  0 ≤ c ≤ 0x10FFFF → iterator_next (utf8_form c ++ rest) = Returned rest.
Proof.
  intros Hc. rewrite iterator_next_drop by (by intros [?%utf8_form_nonempty _]%app_nil).
  rewrite <-code_point_to_utf8_arith by done.
  by rewrite (proj2 (decode_encoded c rest Hc)), drop_app_length.
Qed.

Lemma iterator_deref_form c rest :
  0 ≤ c ≤ 0x10FFFF → iterator_deref (utf8_form c ++ rest) = Returned c.
Proof.
  intros Hc. rewrite <-code_point_to_utf8_arith by done. by apply (decode_encoded c rest).
Qed.

Lemma utf8_of_app (cps cps' : list Z) : utf8_of (cps ++ cps') = utf8_of cps ++ utf8_of cps'.
Proof. apply flat_map_app. Qed.

Lemma valid_utf8_nil : valid_utf8 [].
Proof. exists []. by split; [constructor|]. Qed.

Lemma valid_utf8_app s s' : valid_utf8 s → valid_utf8 s' → valid_utf8 (s ++ s').
Proof.
  intros (cps & Hcps & ->) (cps' & Hcps' & ->). exists (cps ++ cps').
  split; [by apply Forall_app|by rewrite utf8_of_app].
Qed.
#[export] Hint Resolve valid_utf8_nil valid_utf8_app : ladybird.

(** Well-formed text can be cut at, and loses nothing by dropping, an ASCII byte. *)
Lemma utf8_form_ascii_or_high c :
  0 ≤ c ≤ 0x10FFFF → (c < 0x80 ∧ utf8_form c = [c]) ∨ Forall (λ b, 0x80 ≤ b) (utf8_form c).
Proof.
  intros Hc. destruct (utf8_form_shape c Hc) as (b & ext & Hf & _ & Hext & Hlow & Hhigh).
  destruct (Z.lt_ge_cases c 0x80) as [Hl|Hl].
  - left. destruct (Hlow Hl) as [-> ->]. done.
  - right. rewrite Hf. specialize (Hhigh Hl). constructor; [lia|].
    eapply Forall_impl; [exact Hext|]. cbn. intros; lia.
Qed.

Lemma valid_utf8_split_ascii s c t :
  c < 0x80 → valid_utf8 (s ++ c :: t) → valid_utf8 s ∧ valid_utf8 t.
Proof.
  intros Hc (cps & Hcps & Hs). revert s Hs. induction Hcps as [|x cps Hx Hcps IH]; intros s Hs.
  { by destruct s. }
  cbn [flat_map] in Hs.
  destruct (utf8_form_ascii_or_high x (proj1 Hx)) as [[Hlow Hf]|Hhigh].
  - rewrite Hf in Hs. destruct s as [|y s]; injection Hs as -> Hs.
    + subst t. split; [apply valid_utf8_nil|by exists cps].
    + destruct (IH s Hs) as [Hv1 Hv2]. split; [|done].
      change (valid_utf8 ([x] ++ s)). apply valid_utf8_app; [|done]. exists [x]. cbn. rewrite Hf.
      by split; [constructor|].
  - assert (∃ s', s = utf8_form x ++ s') as [s' ->].
    { clear IH. revert s Hs. induction Hhigh as [|b form Hb _ IHf]; intros s Hs; [by exists s|].
      destruct s as [|y s]; injection Hs as -> Hs; [lia|]. destruct (IHf s Hs) as [s' ->]. by exists s'. }
    rewrite <-app_assoc in Hs. apply app_inv_head in Hs. destruct (IH s' Hs) as [Hv1 Hv2].
    split; [|done]. apply valid_utf8_app; [|done]. exists [x]. cbn. rewrite app_nil_r.
    by split; [constructor|].
Qed.

Lemma valid_utf8_drop_ascii s c t : c < 0x80 → valid_utf8 (s ++ c :: t) → valid_utf8 (s ++ t).
Proof. intros Hc [Hs Ht]%valid_utf8_split_ascii; [|done]. by apply valid_utf8_app. Qed.

Lemma valid_utf8_ascii_char c : 0 ≤ c < 0x80 → valid_utf8 [c].
Proof.
  intros Hc. exists [c]. cbn. unfold utf8_form, is_scalar, is_unicode_surrogate.
  rewrite (proj2 (Z.leb_le c 0x7f)) by lia. split; [|done]. constructor; [|constructor]. lia.
Qed.

(** The bytes between two code point positions. *)
Lemma substring_by_code_points cps (o l : nat) :
  (len ← size_sub (length (utf8_of (take (o + l) cps))) (length (utf8_of (take o cps)));
   substring_view (utf8_of cps) (length (utf8_of (take o cps))) len)
  = Returned (utf8_of (take l (drop o cps))).
Proof.
  assert (utf8_of cps = utf8_of (take o cps) ++ utf8_of (take l (drop o cps)) ++ utf8_of (drop l (drop o cps))) as Hcps.
  { by rewrite <-!utf8_of_app, !take_drop. }
  rewrite <-take_take_drop, utf8_of_app, Hcps, length_app.
  unfold size_sub. rewrite (proj2 (Nat.leb_le _ _)) by lia. cbn [mbind outcome_bind].
  rewrite Nat.add_comm, Nat.add_sub. unfold substring_view. rewrite drop_app_length, take_app_length, !length_app.
  unfold verify. rewrite (proj2 (Nat.leb_le _ _)) by lia. done.
Qed.

Section Lemmas.
Context `{SimdutfOk}.

Lemma utf8_validate_valid s : valid_utf8 s → utf8_validate s AllowYes = Returned true.
Proof.
  intros Hv. unfold utf8_validate. simpl.
  rewrite (proj2 (validate_utf8_spec s (valid_utf8_bytes s Hv)) Hv). done.
Qed.

Lemma utf8_length_valid cps :
  Forall is_scalar cps → utf8_length (utf8_of cps) = Returned (Z.of_nat (length cps)).
Proof.
  intros Hcps. unfold utf8_length. rewrite utf8_validate_valid by (by exists cps).
  cbn [mbind outcome_bind]. by rewrite count_utf8_spec.
Qed.

Lemma unicode_substring_loop_spec pre post o l off fuel :
  Forall is_scalar (pre ++ post) → (0 < l)%nat → (o + l ≤ length (pre ++ post))%nat →
  (length pre < o + l)%nat → Z.of_nat (length (pre ++ post)) < 2 ^ 64 →
  ((o < length pre)%nat → off = length (utf8_of (take o (pre ++ post)))) →
  (length (utf8_of post) < fuel)%nat →
  unicode_substring_loop fuel (utf8_of (pre ++ post)) (utf8_of post) (Z.of_nat (length pre)) (Z.of_nat o)
    (Z.of_nat (o + l) - 1) off
  = Returned (utf8_of (take l (drop o (pre ++ post)))).
Proof.
  revert pre off fuel. induction post as [|c post IH]; intros pre off fuel Hcps Hl Hol Hpre Hmax Hoff Hfuel.
  { rewrite app_nil_r in Hol. lia. }
  destruct fuel as [|fuel]; [lia|].
  assert (0 ≤ c ≤ 0x10FFFF) as Hc.
  { apply Forall_app in Hcps as [_ [[Hc _] _]%Forall_cons]. done. }
  pose proof (utf8_form_nonempty c Hc) as Hne.
  assert (length (utf8_of (pre ++ c :: post)) - length (utf8_of (c :: post)) = length (utf8_of pre))%nat as Hcur.
  { rewrite utf8_of_app, length_app. lia. }
  assert (length (utf8_of (pre ++ c :: post)) - length (utf8_of post)
          = length (utf8_of (pre ++ [c])))%nat as Hnext.
  { change (c :: post) with ([c] ++ post). rewrite app_assoc, (utf8_of_app (pre ++ [c])), length_app. lia. }
  set (off' := if Z.of_nat (length pre) =? Z.of_nat o then length (utf8_of pre) else off).
  assert ((o ≤ length pre)%nat → off' = length (utf8_of (take o (pre ++ c :: post)))) as Hoff'.
  { intros Ho. unfold off'. destruct (Z.eqb_spec (Z.of_nat (length pre)) (Z.of_nat o)) as [He|He].
    - replace o with (length pre) by lia. by rewrite take_app_length.
    - apply Hoff. lia. }
  cbn [unicode_substring_loop flat_map]. rewrite iterator_next_form by done.
  destruct (utf8_form c ++ utf8_of post) as [|b rest] eqn:Eb; [by apply app_nil in Eb as [? _]|].
  rewrite <-Eb. change (utf8_form c ++ utf8_of post) with (utf8_of (c :: post)). rewrite Hcur. fold off'.
  cbn [mbind outcome_bind]. rewrite Hnext.
  destruct (Z.eqb_spec (Z.of_nat (length pre)) (Z.of_nat (o + l) - 1)) as [He|He].
  - rewrite Hoff' by lia.
    assert (pre ++ [c] = take (o + l) (pre ++ c :: post)) as Hpc.
    { replace (o + l)%nat with (length pre + 1)%nat by lia. by rewrite take_app_add. }
    rewrite Hpc. by apply substring_by_code_points.
  - rewrite wrap64_small by (rewrite length_app in Hmax; simpl in Hmax; lia).
    replace (Z.of_nat (length pre) + 1) with (Z.of_nat (length (pre ++ [c]))) by (rewrite length_app; simpl; lia).
    change (c :: post) with ([c] ++ post). change (c :: post) with ([c] ++ post) in *.
    rewrite app_assoc in *. apply IH; try done.
    + rewrite length_app. simpl. lia.
    + intros Ho. apply Hoff'. rewrite length_app in Ho. simpl in Ho. lia.
    + cbn [flat_map app] in Hfuel. rewrite length_app in Hfuel. destruct (utf8_form c); [done|]. simpl in Hfuel. lia.
Qed.

(** The substring of [l] code points from position [o]. *)
Lemma unicode_substring_view_spec cps (o l : Z) :
  Forall is_scalar cps → Z.of_nat (length cps) < 2 ^ 64 → 0 ≤ o → 0 ≤ l → o + l ≤ Z.of_nat (length cps) →
  unicode_substring_view (utf8_of cps) o l = Returned (utf8_of (take (Z.to_nat l) (drop (Z.to_nat o) cps))).
Proof.
  intros Hcps Hmax Ho Hl Hol. unfold unicode_substring_view.
  destruct (Z.eqb_spec l 0) as [->|Hl0]; [done|].
  rewrite wrap64_small by lia.
  pose proof (unicode_substring_loop_spec [] cps (Z.to_nat o) (Z.to_nat l) 0 (S (length (utf8_of cps)))) as Hs.
  cbn [app length] in Hs. rewrite <-Hs; [|done|lia..]. do 2 f_equal; lia.
Qed.

(** The loop on ASCII text, when it stops at the last character at the latest. *)
Lemma unicode_substring_loop_ascii (P : Z → Prop) s iterator o off fuel :
  Forall P s → forallb is_ascii s = true → (∃ pre, s = pre ++ iterator) → iterator ≠ [] →
  (off ≤ length s - length iterator)%nat → (length iterator < fuel)%nat →
  ∃ r, unicode_substring_loop fuel s iterator (wrap64 (Z.of_nat (length s - length iterator))) o
         (wrap64 (Z.of_nat (length s) - 1)) off = Returned r ∧ Forall P r.
Proof.
  intros HP Ha. revert off fuel. induction iterator as [|c it IH]; intros off fuel [pre Hpre] Hne Hoff Hfuel; [done|].
  destruct fuel as [|fuel]; [lia|]. cbn [unicode_substring_loop].
  assert (is_ascii c = true) as Hc.
  { rewrite Hpre, forallb_app in Ha. apply andb_prop in Ha as [_ Ha]. cbn in Ha. by apply andb_prop in Ha as [Ha _]. }
  assert (length s = length pre + S (length it))%nat as Hlen by (by rewrite Hpre, length_app).
  set (off' := if _ =? o then _ else off).
  assert (off' ≤ length pre)%nat as Hoff' by (unfold off'; cbn [length] in *; destruct (_ =? o); lia).
  assert (iterator_next (c :: it) = Returned it) as ->.
  { unfold iterator_next. unfold is_ascii in Hc. by rewrite (proj2 (Z.leb_le _ _)) by lia. }
  cbn [mbind outcome_bind length]. destruct (_ =? wrap64 (Z.of_nat (length s) - 1)) eqn:E.
  - unfold size_sub. rewrite (proj2 (Nat.leb_le _ _)) by lia. cbn [mbind outcome_bind].
    unfold substring_view, verify. rewrite (proj2 (Nat.leb_le _ _)) by lia. eexists. split; [done|].
    by apply Forall_take, Forall_drop.
  - destruct it as [|d it].
    { exfalso. cbn [length] in *. apply Z.eqb_neq in E. apply E. f_equal. lia. }
    assert (wrap64 (wrap64 (Z.of_nat (length s - S (length (d :: it)))) + 1)
      = wrap64 (Z.of_nat (length s - length (d :: it)))) as ->.
    { unfold wrap64. rewrite Z.add_mod_idemp_l by lia. f_equal. cbn [length] in *. lia. }
    apply IH; [|done|cbn [length] in *; lia|cbn [length] in *; lia].
    exists (pre ++ [c]). by rewrite <-app_assoc.
Qed.

(** Skipping code points of ASCII text returns, also when there are fewer. *)
Lemma unicode_substring_view_from_ascii (P : Z → Prop) s o :
  Forall P s → Forall is_byte s → forallb is_ascii s = true → s ≠ [] →
  ∃ r, unicode_substring_view_from s o = Returned r ∧ Forall P r.
Proof.
  intros HP Hb Ha Hne. unfold unicode_substring_view_from.
  assert (utf8_length s = Returned (Z.of_nat (length s))) as ->.
  { destruct (ascii_valid_utf8 s Hb Ha) as (cps & Hcps & Hs). rewrite Hs, utf8_length_valid by done.
    do 2 f_equal. rewrite <-Hs. rewrite <-(code_points_ascii s Ha), Hs, code_points_utf8_form; [done|].
    by apply is_scalar_range. }
  cbn [mbind outcome_bind]. unfold unicode_substring_view.
  destruct (_ =? 0); [exists []; split; [done|constructor]|].
  assert (wrap64 (o + wrap64 (Z.of_nat (length s) - o) - 1) = wrap64 (Z.of_nat (length s) - 1)) as ->.
  { unfold wrap64.
    replace (o + (Z.of_nat (length s) - o) mod 2 ^ 64 - 1) with ((Z.of_nat (length s) - o) mod 2 ^ 64 + (o - 1)) by lia.
    rewrite Z.add_mod_idemp_l by lia. f_equal. lia. }
  pose proof (unicode_substring_loop_ascii P s s o 0 (S (length s)) HP Ha) as Hloop.
  rewrite Nat.sub_diag in Hloop. apply Hloop; [by exists []|done|lia|lia].
Qed.

End Lemmas.
