(* ===== verification/Format.v ===== *)
(** * AK/Format.cpp: printing unsigned integers

    [convert_unsigned_to_string] and [FormatBuilder::put_u64], which produce the
    digits of every number the URL serializers write ("{}", "{:x}", "{:02X}"). *)
From S2P Require Import Prelude CharacterTypes Externals.

Definition lowercase_lookup : bytes := Eval compute in sv "0123456789abcdef".
Definition uppercase_lookup : bytes := Eval compute in sv "0123456789ABCDEF".

(** The [while (value > 0)] loop; the buffer is filled from the least
    significant digit.  A [u64] has at most 64 digits in base 2 or more. *)
Fixpoint convert_unsigned_loop (fuel : nat) (value base : Z) (upper_case use_separator : bool)
    (digit_count : Z) : bytes :=
  match fuel with
  | O => []
  | S fuel =>
      if 0 <? value then
        let digit := default 0
          ((if upper_case then uppercase_lookup else lowercase_lookup) !! Z.to_nat (value mod base)) in
        let digit_count := digit_count + 1 in
        let value := value / base in
        digit ::
          (if use_separator && (0 <? value) && (digit_count mod 3 =? 0) then [0x2C] else []) ++
          convert_unsigned_loop fuel value base upper_case use_separator digit_count
      else []
  end.

Definition convert_unsigned_to_string (value base : Z) (upper_case use_separator : bool)
    : outcome bytes :=
  verify ((2 <=? base) && (base <=? 16)) (
    if value =? 0 then Returned [c_0]
    else Returned (rev (convert_unsigned_loop 64 value base upper_case use_separator 0))).

Inductive Align := AlignDefault | AlignLeft | AlignCenter | AlignRight.
Inductive SignMode := SignOnlyIfNeeded | SignAlways | SignReserved.

Definition put_padding (builder : bytes) (fill : Z) (amount : nat) : bytes :=
  builder ++ replicate amount fill.

Definition put_prefix (builder : bytes) (base : Z) (prefix upper_case : bool)
    (sign_mode : SignMode) (is_negative : bool) : bytes :=
  let builder :=
    if is_negative then builder ++ [c_minus]
    else match sign_mode with
    | SignAlways => builder ++ [c_plus]
    | SignReserved => builder ++ [c_space]
    | SignOnlyIfNeeded => builder
    end in
  if prefix then
    if base =? 2 then builder ++ (if upper_case then sv "0B" else sv "0b")
    else if base =? 8 then builder ++ sv "0"
    else if base =? 16 then builder ++ (if upper_case then sv "0X" else sv "0x")
    else builder
  else builder.

Definition put_u64 (builder : bytes) (value base : Z) (prefix upper_case zero_pad use_separator : bool)
    (align : Align) (min_width : nat) (fill : Z) (sign_mode : SignMode) (is_negative : bool)
    : outcome bytes :=
  let align := match align with AlignDefault => AlignRight | _ => align end in
  digits ← convert_unsigned_to_string value base upper_case use_separator;
  let used_by_prefix :=
    match align, zero_pad with
    | AlignRight, true => 0%nat
    | _, _ =>
        ((if is_negative || match sign_mode with SignOnlyIfNeeded => false | _ => true end
          then 1 else 0) +
         (if prefix
          then if (base =? 8)%Z then 1 else if (base =? 16)%Z then 2 else if (base =? 2)%Z then 2 else 0
          else 0))%nat
    end in
  let used_by_field := (used_by_prefix + length digits)%nat in
  let used_by_padding := (Nat.max used_by_field min_width - used_by_field)%nat in
  let pre b := put_prefix b base prefix upper_case sign_mode is_negative in
  Returned (match align with
    | AlignLeft => put_padding (pre builder ++ digits) fill used_by_padding
    | AlignCenter =>
        let left := (used_by_padding / 2)%nat in
        put_padding (pre (put_padding builder fill left) ++ digits) fill (used_by_padding - left)
    | _ =>
        if zero_pad then put_padding (pre builder) c_0 used_by_padding ++ digits
        else pre (put_padding builder fill used_by_padding) ++ digits
    end).

(** The three format strings of the URL serializers. *)
Definition format_decimal (value : Z) : outcome bytes :=
  put_u64 [] value 10 false false false false AlignDefault 0 c_space SignOnlyIfNeeded false.

Definition format_hex (value : Z) : outcome bytes :=
  put_u64 [] value 16 false false false false AlignDefault 0 c_space SignOnlyIfNeeded false.

Definition format_02X (value : Z) : outcome bytes :=
  put_u64 [] value 16 false true true false AlignDefault 2 c_space SignOnlyIfNeeded false.

(** ** Digits and their value *)
Lemma digits_value_app base acc s t :
  digits_value base acc (s ++ t) = digits_value base (digits_value base acc s) t.
Proof. revert acc. induction s as [|c s IH]; intros acc; simpl; [done|apply IH]. Qed.

Definition lookup_digit (upper_case : bool) (d : Z) : Z :=
  default 0 ((if upper_case then uppercase_lookup else lowercase_lookup) !! Z.to_nat d).

Lemma lookup_digit_value upper_case d :
  0 ≤ d < 16 → digit_value (lookup_digit upper_case d) = Some d
  ∧ is_ascii_hex_digit (lookup_digit upper_case d) = true
  ∧ (d < 10 → lookup_digit upper_case d = c_0 + d).
Proof.
  intros Hd. rewrite <-(Z2Nat.id d) by lia.
  assert (Z.to_nat d < 16)%nat as Hn by lia. revert Hn. generalize (Z.to_nat d). intros n Hn.
  do 16 (destruct n as [|n]; [destruct upper_case; vm_compute; done|]). lia.
Qed.

Lemma convert_loop_value fuel value base upper_case cnt :
  2 ≤ base ≤ 16 → 0 ≤ value < 2 ^ Z.of_nat fuel →
  digits_value base 0 (rev (convert_unsigned_loop fuel value base upper_case false cnt)) = value
  ∧ forallb (is_digit_in base) (convert_unsigned_loop fuel value base upper_case false cnt) = true
  ∧ (0 < value → convert_unsigned_loop fuel value base upper_case false cnt ≠ []).
Proof.
  intros Hbase. revert value cnt.
  induction fuel as [|fuel IH]; intros value cnt Hv.
  - change (2 ^ Z.of_nat 0) with 1 in Hv. simpl. split_and!; [lia|done|lia].
  - cbn [convert_unsigned_loop]. destruct (Z.ltb_spec 0 value); [|by simpl; split_and!; [lia| |lia]].
    cbn [andb app]. fold (lookup_digit upper_case (value mod base)).
    assert (0 ≤ value mod base < base) as Hm by (apply Z.mod_pos_bound; lia).
    destruct (lookup_digit_value upper_case (value mod base)) as (Hd & _); [lia|].
    assert (0 ≤ value / base < 2 ^ Z.of_nat fuel) as Hq.
    { split; [apply Z.div_pos; lia|]. apply Z.div_lt_upper_bound; [lia|].
      rewrite Nat2Z.inj_succ, Z.pow_succ_r in Hv by lia. nia. }
    destruct (IH (value / base) (cnt + 1) Hq) as (Hval & Hall & _). split_and!; [|..|done].
    + cbn [rev]. rewrite digits_value_app, Hval. cbn [digits_value]. rewrite Hd. simpl.
      rewrite (Z.mul_comm (value / base)). symmetry. apply Z.div_mod. lia.
    + cbn [forallb]. unfold is_digit_in at 1. rewrite Hd, Hall, andb_true_r. lia.
Qed.

(** The most significant digit is not zero. *)
Lemma convert_loop_last fuel value base upper_case cnt :
  2 ≤ base ≤ 16 → 0 < value < 2 ^ Z.of_nat fuel →
  ∃ d, 0 < d < base ∧
    last (convert_unsigned_loop fuel value base upper_case false cnt) = Some (lookup_digit upper_case d).
Proof.
  intros Hbase. revert value cnt. induction fuel as [|fuel IH]; intros value cnt Hv.
  { change (2 ^ Z.of_nat 0) with 1 in Hv. lia. }
  cbn [convert_unsigned_loop]. destruct (Z.ltb_spec 0 value); [|lia].
  cbn [andb app]. fold (lookup_digit upper_case (value mod base)).
  rewrite last_cons. destruct (decide (value < base)) as [Hlt|Hge].
  - exists (value mod base). rewrite Z.mod_small by lia. split; [lia|].
    rewrite Z.div_small by lia. by destruct fuel.
  - rewrite Nat2Z.inj_succ, Z.pow_succ_r in Hv by lia.
    destruct (IH (value / base) (cnt + 1)) as (d & Hd & ->).
    { split; [apply Z.div_str_pos; lia|]. apply Z.div_lt_upper_bound; [lia|]. nia. }
    eauto.
Qed.

(** What the readers of printed numbers need to know about them. *)
Record printed_number (base value : Z) (s : bytes) : Prop := {
  printed_value : digits_value base 0 s = value;
  printed_digits : forallb (is_digit_in base) s = true;
  printed_nonempty : s ≠ [];
  printed_no_leading_zero : value ≠ 0 → head s ≠ Some c_0;
  printed_zero : value = 0 → s = [c_0];
}.

Lemma convert_unsigned_printed value base upper_case :
  2 ≤ base ≤ 16 → 0 ≤ value < 2 ^ 64 →
  ∃ s, convert_unsigned_to_string value base upper_case false = Returned s
    ∧ printed_number base value s.
Proof.
  intros Hbase Hv. unfold convert_unsigned_to_string, verify.
  replace ((2 <=? base) && (base <=? 16)) with true by lia.
  destruct (Z.eqb_spec value 0) as [->|Hne].
  { eexists. split; [done|]. constructor; [done| |done..].
    unfold is_digit_in. simpl. rewrite andb_true_r. lia. }
  destruct (convert_loop_value 64 value base upper_case 0) as (Hval & Hall & Hnil); [lia..|].
  destruct (convert_loop_last 64 value base upper_case 0) as (d & Hd & Hlast); [lia..|].
  eexists. split; [done|]. constructor; [done| | | |done].
  - apply forallb_forall. intros x Hx%in_rev. by eapply forallb_forall in Hall.
  - intros Hrev. apply Hnil; [lia|]. by rewrite <-(rev_involutive (convert_unsigned_loop _ _ _ _ _ _)), Hrev.
  - intros _. rewrite rev_alt. change (rev_append ?l []) with (reverse l).
    rewrite head_reverse, Hlast. intros [= Hz].
    destruct (lookup_digit_value upper_case d) as (Hdv & _); [lia|].
    rewrite Hz in Hdv. vm_compute in Hdv. injection Hdv. lia.
Qed.

Lemma put_u64_plain value base zero_pad upper_case min_width digits :
  convert_unsigned_to_string value base upper_case false = Returned digits →
  put_u64 [] value base false upper_case zero_pad false AlignDefault min_width c_space
    SignOnlyIfNeeded false
  = Returned (replicate (min_width - length digits) (if zero_pad then c_0 else c_space) ++ digits).
Proof.
  intros Hd. unfold put_u64. rewrite Hd. simpl. unfold put_padding, put_prefix.
  replace (min_width - length digits)%nat with
    (length digits `max` min_width - length digits)%nat by lia.
  by destruct zero_pad.
Qed.

Lemma format_decimal_printed value :
  0 ≤ value < 2 ^ 64 → ∃ s, format_decimal value = Returned s ∧ printed_number 10 value s.
Proof.
  intros Hv. destruct (convert_unsigned_printed value 10 false) as (s & Hs & Hp); [lia|done|].
  exists s. split; [|done]. unfold format_decimal. by rewrite (put_u64_plain _ _ _ _ _ _ Hs).
Qed.

Lemma format_hex_printed value :
  0 ≤ value < 2 ^ 64 → ∃ s, format_hex value = Returned s ∧ printed_number 16 value s.
Proof.
  intros Hv. destruct (convert_unsigned_printed value 16 false) as (s & Hs & Hp); [lia|done|].
  exists s. split; [|done]. unfold format_hex. by rewrite (put_u64_plain _ _ _ _ _ _ Hs).
Qed.

Lemma format_02X_byte value :
  is_byte value →
  format_02X value = Returned [lookup_digit true (value / 16); lookup_digit true (value mod 16)].
Proof.
  intros Hb. assert (∀ f g : Z → outcome bytes,
    forallb (λ b, match f b, g b with Returned x, Returned y => bool_decide (x = y) | _, _ => false end)
      (seqZ 0 256) = true → f value = g value) as Henum.
  { intros f g Hall. rewrite forallb_forall in Hall. specialize (Hall value).
    unfold is_byte in Hb. rewrite <-list_elem_of_In, elem_of_seqZ in Hall.
    specialize (Hall ltac:(lia)). repeat case_match; try done. by bool_to_prop; subst. }
  apply (Henum format_02X (λ v, Returned [lookup_digit true (v / 16); lookup_digit true (v mod 16)])).
  vm_compute. reflexivity.
Qed.
