(* ===== verification/PercentEncoding.v ===== *)
(** * Percent-encoding: the encode sets, the encoders and the decoder of LibURL/URL.cpp *)
From S2P Require Import Prelude CharacterTypes Externals Utf8 StringView Format.

Inductive PercentEncodeSet :=
| C0Control
| Fragment
| Query
| SpecialQuery
| Path
| Userinfo
| Component
| ApplicationXWWWFormUrlencoded
| EncodeURI.

Inductive SpaceAsPlus := SpaceAsPlusNo | SpaceAsPlusYes.

(** ["..."sv.contains(static_cast<char>(code_point))] *)
Definition contains_as_char (s : bytes) (code_point : Z) : bool :=
  contains_char s (code_point mod 256).

(** The cases of [code_point_is_in_percent_encode_set], in the order in which
    they refer to one another. *)
Definition in_C0Control (c : Z) : bool := (c <? 0x20) || (0x7E <? c).
Definition in_Fragment (c : Z) : bool :=
  in_C0Control c || contains_as_char [0x20; 0x22; 0x3C; 0x3E; 0x60] c.
Definition in_Query (c : Z) : bool :=
  in_C0Control c || contains_as_char [0x20; 0x22; 0x23; 0x3C; 0x3E] c.
Definition in_SpecialQuery (c : Z) : bool := in_Query c || (c =? 0x27).
Definition in_Path (c : Z) : bool :=
  in_Query c || contains_as_char [0x3F; 0x5E; 0x60; 0x7B; 0x7D] c.
Definition in_Userinfo (c : Z) : bool :=
  in_Path c || contains_as_char [0x2F; 0x3A; 0x3B; 0x3D; 0x40; 0x5B; 0x5C; 0x5D; 0x7C] c.
Definition in_Component (c : Z) : bool :=
  in_Userinfo c || contains_as_char [0x24; 0x25; 0x26; 0x2B; 0x2C] c.
Definition in_ApplicationXWWWFormUrlencoded (c : Z) : bool :=
  in_Component c || contains_as_char [0x21; 0x27; 0x28; 0x29; 0x7E] c.
Definition in_EncodeURI (c : Z) : bool :=
  (0x7E <? c)
  || (negb (is_ascii_alphanumeric c)
      && negb (contains_as_char
                 [0x3B; 0x2C; 0x2F; 0x3F; 0x3A; 0x40; 0x26; 0x3D; 0x2B; 0x24; 0x2D; 0x5F; 0x2E;
                  0x21; 0x7E; 0x2A; 0x27; 0x28; 0x29; 0x23] c)).

Definition code_point_is_in_percent_encode_set (code_point : Z) (set : PercentEncodeSet) : bool :=
  match set with
  | C0Control => in_C0Control code_point
  | Fragment => in_Fragment code_point
  | Query => in_Query code_point
  | SpecialQuery => in_SpecialQuery code_point
  | Path => in_Path code_point
  | Userinfo => in_Userinfo code_point
  | Component => in_Component code_point
  | ApplicationXWWWFormUrlencoded => in_ApplicationXWWWFormUrlencoded code_point
  | EncodeURI => in_EncodeURI code_point
  end.

(** ["%{:02X}"] *)
Definition append_percent_byte (builder : bytes) (byte : Z) : outcome bytes :=
  hex ← format_02X byte; Returned (builder ++ c_percent :: hex).

Definition append_percent_encoded (builder : bytes) (code_point : Z) : outcome bytes :=
  if code_point <=? 0x7f then append_percent_byte builder code_point
  else if code_point <=? 0x07ff then
    b ← append_percent_byte builder (Z.lor (Z.land (Z.shiftr code_point 6) 0x1f) 0xc0);
    append_percent_byte b (Z.lor (Z.land code_point 0x3f) 0x80)
  else if code_point <=? 0xffff then
    b ← append_percent_byte builder (Z.lor (Z.land (Z.shiftr code_point 12) 0x0f) 0xe0);
    b ← append_percent_byte b (Z.lor (Z.land (Z.shiftr code_point 6) 0x3f) 0x80);
    append_percent_byte b (Z.lor (Z.land code_point 0x3f) 0x80)
  else if code_point <=? 0x10ffff then
    b ← append_percent_byte builder (Z.lor (Z.land (Z.shiftr code_point 18) 0x07) 0xf0);
    b ← append_percent_byte b (Z.lor (Z.land (Z.shiftr code_point 12) 0x3f) 0x80);
    b ← append_percent_byte b (Z.lor (Z.land (Z.shiftr code_point 6) 0x3f) 0x80);
    append_percent_byte b (Z.lor (Z.land code_point 0x3f) 0x80)
  else VerifyFailed.

Definition append_percent_encoded_if_necessary (builder : bytes) (code_point : Z)
    (set : PercentEncodeSet) : outcome bytes :=
  if code_point_is_in_percent_encode_set code_point set
  then append_percent_encoded builder code_point
  else Returned (append_code_point builder code_point).

Fixpoint percent_encode_loop (builder : bytes) (cps : list Z) (set : PercentEncodeSet)
    (space_as_plus : SpaceAsPlus) : outcome bytes :=
  match cps with
  | [] => Returned builder
  | code_point :: cps =>
      builder ←
        match space_as_plus with
        | SpaceAsPlusYes =>
            if code_point =? c_space then Returned (builder ++ [c_plus])
            else append_percent_encoded_if_necessary builder code_point set
        | SpaceAsPlusNo => append_percent_encoded_if_necessary builder code_point set
        end;
      percent_encode_loop builder cps set space_as_plus
  end.

(** [MUST(builder.to_string())] *)
Definition must_to_string `{Simdutf} (builder : bytes) : outcome bytes :=
  s ← from_utf8 builder; must s.

Definition percent_encode `{Simdutf} (input : bytes) (set : PercentEncodeSet)
    (space_as_plus : SpaceAsPlus) : outcome bytes :=
  builder ← percent_encode_loop [] (code_points input) set space_as_plus;
  must_to_string builder.

(** The loop of [percent_decode]; [input] is what is left from index [i] on. *)
Fixpoint percent_decode_loop (builder input : bytes) : outcome bytes :=
  match input with
  | [] => Returned builder
  | b :: rest =>
      if negb (b =? c_percent) then percent_decode_loop (builder ++ [b]) rest
      else match rest with
      | h :: l :: rest' =>
          if negb (is_ascii_hex_digit h) || negb (is_ascii_hex_digit l)
          then percent_decode_loop (builder ++ [b]) rest
          else
            high ← parse_ascii_hex_digit h;
            low ← parse_ascii_hex_digit l;
            percent_decode_loop (builder ++ [Z.lor (Z.shiftl high 4) low]) rest'
      | _ => percent_decode_loop (builder ++ [b]) rest
      end
  end.

Definition percent_decode (input : bytes) : outcome bytes :=
  if negb (contains_char input c_percent) then Returned input
  else percent_decode_loop [] input.

(** ** The encoder as a function on bytes *)
Definition pct (b : Z) : bytes :=
  [c_percent; lookup_digit true (b / 16); lookup_digit true (b mod 16)].

Arguments pct : simpl never.

Definition encode_code_point (set : PercentEncodeSet) (c : Z) : bytes :=
  if code_point_is_in_percent_encode_set c set
  then flat_map pct (code_point_to_utf8 c).1
  else [c].

Lemma append_percent_byte_pct builder b :
  is_byte b → append_percent_byte builder b = Returned (builder ++ pct b).
Proof. intros Hb. unfold append_percent_byte. by rewrite format_02X_byte. Qed.

Lemma code_point_to_utf8_bytes c : 0 ≤ c ≤ 0x10FFFF → Forall is_byte (code_point_to_utf8 c).1.
Proof.
  intros Hc. rewrite code_point_to_utf8_arith by done. unfold is_byte, utf8_form.
  repeat case_match; bool_to_prop; repeat constructor; div_lia.
Qed.

Lemma append_percent_encoded_pct builder c :
  0 ≤ c ≤ 0x10FFFF →
  append_percent_encoded builder c = Returned (builder ++ flat_map pct (code_point_to_utf8 c).1).
Proof.
  intros Hc. pose proof (code_point_to_utf8_bytes c Hc) as Hb.
  unfold append_percent_encoded. unfold code_point_to_utf8 in *.
  rewrite ?Z.shiftr_0_r in *.
  repeat case_match; bool_to_prop; try lia; cbn [fst] in *;
    repeat match goal with H : Forall _ (_ :: _) |- _ => inversion_clear H end;
    rewrite ?append_percent_byte_pct by done; cbn [mbind outcome_bind];
    repeat (rewrite append_percent_byte_pct by done; cbn [mbind outcome_bind]);
    simpl; by rewrite <-?app_assoc.
Qed.

(** ** Facts about the encode sets *)
Lemma in_set_above c set : 0x7E < c → code_point_is_in_percent_encode_set c set = true.
Proof.
  intros Hc. destruct set; simpl;
    unfold in_EncodeURI, in_ApplicationXWWWFormUrlencoded, in_Component, in_Userinfo, in_Path,
      in_SpecialQuery, in_Fragment, in_Query, in_C0Control;
    rewrite (proj2 (Z.ltb_lt 0x7E c) Hc); by rewrite ?orb_true_r, ?orb_true_l.
Qed.

Definition all_sets : list PercentEncodeSet :=
  [C0Control; Fragment; Query; SpecialQuery; Path; Userinfo; Component;
   ApplicationXWWWFormUrlencoded; EncodeURI].

(** A decidable fact about the characters below 0x7F and the sets, by evaluation. *)
Lemma for_all_ascii_sets (f : Z → PercentEncodeSet → bool) c set :
  forallb (λ c, forallb (f c) all_sets) (seqZ 0 0x7F) = true → 0 ≤ c ≤ 0x7E → f c set = true.
Proof.
  rewrite forallb_forall. intros Hall Hc. specialize (Hall c).
  rewrite <-list_elem_of_In, elem_of_seqZ, forallb_forall in Hall. apply Hall; [lia|].
  destruct set; simpl; tauto.
Qed.

(** A character outside a set is printable ASCII. *)
Lemma not_in_set_printable c set :
  0 ≤ c → code_point_is_in_percent_encode_set c set = false → 0x20 ≤ c ≤ 0x7E.
Proof.
  intros Hc Hin. destruct (decide (0x7E < c)) as [?|?].
  { by rewrite in_set_above in Hin. }
  assert (implb (negb (code_point_is_in_percent_encode_set c set)) (0x20 <=? c) = true) as Hf.
  { apply (for_all_ascii_sets
      (λ c set, implb (negb (code_point_is_in_percent_encode_set c set)) (0x20 <=? c)));
      [vm_compute; reflexivity|lia]. }
  rewrite Hin in Hf. simpl in Hf. lia.
Qed.

(** No set contains a digit or an upper-case letter A to F. *)
Lemma hex_digit_not_in_set d set :
  0 ≤ d < 16 → code_point_is_in_percent_encode_set (lookup_digit true d) set = false.
Proof.
  intros Hd. destruct (lookup_digit_value true d Hd) as (_ & Hx & _).
  assert (is_ascii_uppercase_hex_digit (lookup_digit true d) = true) as Hu.
  { rewrite <-(Z2Nat.id d) by lia. assert (Z.to_nat d < 16)%nat as Hn by lia. revert Hn.
    generalize (Z.to_nat d). intros n Hn.
    do 16 (destruct n as [|n]; [vm_compute; done|]). lia. }
  assert (implb (is_ascii_uppercase_hex_digit (lookup_digit true d))
    (negb (code_point_is_in_percent_encode_set (lookup_digit true d) set)) = true) as Hf.
  { apply (for_all_ascii_sets (λ c set, implb (is_ascii_uppercase_hex_digit c)
      (negb (code_point_is_in_percent_encode_set c set)))); [vm_compute; reflexivity|].
    revert Hx. unfold_ctypes. lia. }
  rewrite Hu in Hf. simpl in Hf. by apply negb_true_iff.
Qed.

Lemma pct_ascii b : is_byte b → forallb is_ascii (pct b) = true.
Proof.
  intros Hb. unfold is_byte in Hb. unfold pct. simpl.
  destruct (lookup_digit_value true (b / 16)) as (_ & H1 & _); [div_lia|].
  destruct (lookup_digit_value true (b mod 16)) as (_ & H2 & _); [div_lia|].
  revert H1 H2. unfold_ctypes. lia.
Qed.

(** Every byte written is either the escape character or outside the set. *)
Definition encoded_byte (set : PercentEncodeSet) (b : Z) : Prop :=
  0x20 ≤ b ≤ 0x7E ∧ (b = c_percent ∨ code_point_is_in_percent_encode_set b set = false).

Lemma pct_encoded set b : is_byte b → Forall (encoded_byte set) (pct b).
Proof.
  unfold is_byte, pct, encoded_byte. intros Hb.
  destruct (lookup_digit_value true (b / 16)) as (_ & H1 & _); [div_lia|].
  destruct (lookup_digit_value true (b mod 16)) as (_ & H2 & _); [div_lia|].
  rewrite !Forall_cons. split_and!; [lia|lia|by left|..|constructor].
  all: try (right; apply hex_digit_not_in_set; div_lia).
  all: revert H1 H2; unfold_ctypes; lia.
Qed.

Lemma encode_code_point_encoded set c :
  0 ≤ c ≤ 0x10FFFF → Forall (encoded_byte set) (encode_code_point set c).
Proof.
  intros Hc. unfold encode_code_point. case_match eqn:E.
  - pose proof (code_point_to_utf8_bytes c Hc) as Hb. induction Hb; cbn [flat_map]; [constructor|].
    apply Forall_app. split; [by apply pct_encoded|done].
  - apply Forall_singleton. split; [by eapply not_in_set_printable; [lia|]|by right].
Qed.

Lemma append_if_necessary_encode builder c set :
  0 ≤ c ≤ 0x10FFFF →
  append_percent_encoded_if_necessary builder c set = Returned (builder ++ encode_code_point set c).
Proof.
  intros Hc. unfold append_percent_encoded_if_necessary, encode_code_point.
  case_match eqn:E; [by apply append_percent_encoded_pct|].
  pose proof (not_in_set_printable c set ltac:(lia) E). unfold append_code_point, is_unicode.
  unfold code_point_to_utf8. repeat case_match; bool_to_prop; try lia; done.
Qed.

(** ** Code points of a byte string are in range *)
Lemma decode_extension_bytes_nonneg v ext value :
  0 ≤ v → Forall is_byte ext → decode_extension_bytes v ext = Some value → 0 ≤ value.
Proof.
  intros Hv Hext. revert v Hv. induction Hext as [|b ext Hb Hext IH]; simpl; intros v Hv.
  - by intros [= <-].
  - case_match; [|done]. apply IH. apply Z.lor_nonneg. split.
    + by apply Z.shiftl_nonneg.
    + apply Z.land_nonneg. right. lia.
Qed.

Lemma iterator_deref_range p c :
  Forall is_byte p → iterator_deref p = Returned c → 0 ≤ c ≤ 0x10FFFF.
Proof.
  intros Hp. destruct Hp as [|b p Hb Hp]; [done|]. unfold iterator_deref.
  rewrite decode_leading_byte_spec by done. unfold is_byte in Hb.
  case_match; [intros [= <-]; bool_to_prop; lia|].
  destruct (leading_byte_reference b) as [[n v]|] eqn:E; [|intros [= <-]; lia].
  assert (0 ≤ v) by (revert E; unfold leading_byte_reference; repeat case_match; bool_to_prop;
    try done; intros [= <- <-]; lia).
  case_match; [intros [= <-]; lia|].
  destruct (decode_extension_bytes v _) as [value|] eqn:Ed; [|intros [= <-]; lia].
  apply decode_extension_bytes_nonneg in Ed; [|done|by apply Forall_take].
  case_match; intros [= <-]; bool_to_prop; lia.
Qed.

Lemma code_points_range s : Forall is_byte s → Forall (λ c, 0 ≤ c ≤ 0x10FFFF) (code_points s).
Proof.
  induction s as [s IH] using (induction_ltof1 _ (@length Z)). unfold ltof in IH. intros Hs.
  destruct s as [|b s]; [constructor|].
  destruct (iterator_deref_returns (b :: s)) as [c Hc]; [done|].
  rewrite (code_points_unfold (b :: s) c) by done. constructor.
  - by eapply iterator_deref_range.
  - apply IH; [|by apply Forall_drop]. rewrite length_drop.
    pose proof (iterator_step_bounds (b :: s) ltac:(done)). simpl in *. lia.
Qed.

(** ** The encoder in one equation *)
Lemma percent_encode_loop_spec builder cps set :
  Forall (λ c, 0 ≤ c ≤ 0x10FFFF) cps →
  percent_encode_loop builder cps set SpaceAsPlusNo
    = Returned (builder ++ flat_map (encode_code_point set) cps).
Proof.
  intros Hcps. revert builder. induction Hcps as [|c cps Hc Hcps IH]; intros builder; simpl.
  - by rewrite app_nil_r.
  - rewrite append_if_necessary_encode by done. simpl. by rewrite IH, <-app_assoc.
Qed.

Lemma encoded_all set cps :
  Forall (λ c, 0 ≤ c ≤ 0x10FFFF) cps → Forall (encoded_byte set) (flat_map (encode_code_point set) cps).
Proof.
  induction 1; simpl; [constructor|]. apply Forall_app.
  split; [by apply encode_code_point_encoded|done].
Qed.

Lemma encoded_ascii set s : Forall (encoded_byte set) s → forallb is_ascii s = true.
Proof.
  intros Hs. apply forallb_Forall. eapply Forall_impl; [done|].
  intros b [? _]. unfold_ctypes. lia.
Qed.

Section WithSimdutf.
Context `{SimdutfOk}.

Lemma must_to_string_ascii s : forallb is_ascii s = true → must_to_string s = Returned s.
Proof. intros Hs. unfold must_to_string. by rewrite from_utf8_ascii. Qed.

Lemma percent_encode_spec input set :
  Forall is_byte input →
  percent_encode input set SpaceAsPlusNo
    = Returned (flat_map (encode_code_point set) (code_points input)).
Proof.
  intros Hi%code_points_range. unfold percent_encode.
  rewrite percent_encode_loop_spec by done. simpl.
  by eapply must_to_string_ascii, encoded_ascii, encoded_all.
Qed.

Lemma percent_encode_returns input set :
  Forall is_byte input → ∃ out, percent_encode input set SpaceAsPlusNo = Returned out
    ∧ Forall (encoded_byte set) out.
Proof.
  intros Hi. rewrite percent_encode_spec by done. eexists. split; [done|].
  by apply encoded_all, code_points_range.
Qed.

End WithSimdutf.

(** ** Decoding what was encoded *)
Lemma parse_lookup_digit d :
  0 ≤ d < 16 → parse_ascii_hex_digit (lookup_digit true d) = Returned d.
Proof.
  intros Hd. rewrite <-(Z2Nat.id d) by lia. assert (Z.to_nat d < 16)%nat as Hn by lia. revert Hn.
  generalize (Z.to_nat d). intros n Hn. do 16 (destruct n as [|n]; [done|]). lia.
Qed.

Lemma percent_decode_pct builder b rest :
  is_byte b → percent_decode_loop builder (pct b ++ rest) = percent_decode_loop (builder ++ [b]) rest.
Proof.
  unfold is_byte. intros Hb. unfold pct. cbn [app percent_decode_loop].
  destruct (lookup_digit_value true (b / 16)) as (_ & -> & _); [div_lia|].
  destruct (lookup_digit_value true (b mod 16)) as (_ & -> & _); [div_lia|].
  rewrite !parse_lookup_digit by div_lia. simpl. do 3 f_equal.
  rewrite Z.shiftl_mul_pow2, lor_disjoint_add by div_lia. simpl Z.pow. div_lia.
Qed.

Lemma percent_decode_plain builder c rest :
  c ≠ c_percent → percent_decode_loop builder (c :: rest) = percent_decode_loop (builder ++ [c]) rest.
Proof. intros Hc. simpl. destruct (Z.eqb_spec c c_percent); [done|]. done. Qed.

Lemma percent_decode_pcts builder s rest :
  Forall is_byte s →
  percent_decode_loop builder (flat_map pct s ++ rest) = percent_decode_loop (builder ++ s) rest.
Proof.
  intros Hs. revert builder. induction Hs as [|b s Hb Hs IH]; intros builder.
  - by rewrite app_nil_r.
  - cbn [flat_map]. rewrite <-app_assoc, percent_decode_pct, IH by done. by rewrite <-app_assoc.
Qed.

Lemma percent_decode_encoded set cps builder :
  code_point_is_in_percent_encode_set c_percent set = true →
  Forall (λ c, 0 ≤ c ≤ 0x10FFFF) cps →
  percent_decode_loop builder (flat_map (encode_code_point set) cps)
    = Returned (builder ++ utf8_encode cps).
Proof.
  intros Hset Hcps. revert builder. induction Hcps as [|c cps Hc Hcps IH]; intros builder.
  { simpl. by rewrite app_nil_r. }
  rewrite utf8_encode_cons by (unfold is_unicode; lia). cbn [flat_map].
  unfold encode_code_point at 1. case_match eqn:E.
  - rewrite percent_decode_pcts by (by apply code_point_to_utf8_bytes).
    by rewrite IH, app_assoc.
  - change ([c] ++ ?l) with (c :: l). rewrite percent_decode_plain by congruence.
    rewrite IH, <-app_assoc. do 3 f_equal.
    pose proof (not_in_set_printable c set ltac:(lia) E).
    rewrite code_point_to_utf8_arith by done. unfold utf8_form. case_match; [done|lia].
Qed.

Lemma percent_decode_is_loop input : percent_decode input = percent_decode_loop [] input.
Proof.
  unfold percent_decode. destruct (contains_char input c_percent) eqn:E; [done|]. simpl.
  enough (∀ builder, percent_decode_loop builder input = Returned (builder ++ input)) as -> by done.
  unfold contains_char in E. apply existsb_false_Forall in E.
  induction E as [|b input Hb E IH]; intros builder; [by rewrite app_nil_r|].
  rewrite percent_decode_plain by lia. by rewrite IH, <-app_assoc.
Qed.

Lemma percent_decode_returns input :
  Forall is_byte input → ∃ out, percent_decode input = Returned out ∧ Forall is_byte out.
Proof.
  rewrite percent_decode_is_loop. assert (Forall is_byte []) as Hbuilder by constructor.
  revert Hbuilder. generalize (@nil Z) as builder.
  induction input as [input IH] using (induction_ltof1 _ (@length Z)). unfold ltof in IH.
  intros builder Hbuilder Hi. destruct Hi as [|b rest Hb Hrest]; [by eexists|]. simpl.
  assert (∀ x, is_byte x → Forall is_byte (builder ++ [x])) as Hsnoc.
  { intros x Hx. apply Forall_app. by split; [|apply Forall_singleton]. }
  assert (∃ out, percent_decode_loop (builder ++ [b]) rest = Returned out ∧ Forall is_byte out) as IHrest
    by (apply IH; [simpl; lia|by apply Hsnoc|done]).
  case_match; [done|]. destruct rest as [|h [|l rest']]; [done..|].
  case_match; bool_to_prop; [done|].
  destruct (parse_ascii_hex_digit_digit h) as (dh & -> & ?); [done|].
  destruct (parse_ascii_hex_digit_digit l) as (dl & -> & ?); [done|]. simpl.
  apply Forall_cons in Hrest as [_ [_ Hrest']%Forall_cons]. apply IH; [simpl; lia| |done].
  apply Hsnoc. rewrite Z.shiftl_mul_pow2, lor_disjoint_add by lia. unfold is_byte. lia.
Qed.

(** decoding undoes encoding: for every sequence of Unicode code points and
    every encode set that contains the percent sign, [percent_decode] applied to
    [percent_encode] of its UTF-8 bytes returns those bytes. *)
Theorem percent_decode_encode `{SimdutfOk} (cps : list Z) (set : PercentEncodeSet)
    (Hset : code_point_is_in_percent_encode_set c_percent set = true)
    (Hcps : Forall (λ c, 0 ≤ c ≤ 0x10FFFF) cps) :
  (percent_encode (utf8_encode cps) set SpaceAsPlusNo ≫= percent_decode)
    = Returned (utf8_encode cps).
Proof.
  assert (Forall is_byte (utf8_encode cps)) as Hb.
  { clear Hset. induction Hcps as [|c cps Hc Hcps IH]; [constructor|].
    rewrite utf8_encode_cons by (unfold is_unicode; lia). apply Forall_app.
    split; [by apply code_point_to_utf8_bytes|done]. }
  rewrite percent_encode_spec by done. simpl. rewrite percent_decode_is_loop.
  assert (code_points (utf8_encode cps) = cps) as ->.
  { clear Hset Hb. induction Hcps as [|c cps Hc Hcps IH]; [done|].
    rewrite utf8_encode_cons by (unfold is_unicode; lia). by rewrite code_points_encoded, IH. }
  by rewrite percent_decode_encoded.
Qed.

Lemma percent_decode_encode_witness :
  (@percent_encode simdutf_example (utf8_encode [0x31; 0x30; 0x30; 0x25; 0x20AC]) Component SpaceAsPlusNo
     ≫= percent_decode) = Returned (utf8_encode [0x31; 0x30; 0x30; 0x25; 0x20AC]).
Proof.
  apply (@percent_decode_encode simdutf_example simdutf_example_ok).
  - vm_compute. reflexivity.
  - repeat constructor; lia.
Defined.

(** [percent_encode] returns for every byte string, and every byte it writes
    is printable ASCII and either the percent sign or outside the encode set. *)
Theorem percent_encode_output `{SimdutfOk} (input : bytes) (set : PercentEncodeSet)
    (Hi : Forall is_byte input) :
  ∃ out, percent_encode input set SpaceAsPlusNo = Returned out ∧ Forall (encoded_byte set) out.
Proof. by apply percent_encode_returns. Qed.

Lemma percent_encode_output_witness :
  ∃ out, @percent_encode simdutf_example (sv "a b#c") Query SpaceAsPlusNo = Returned out
    ∧ Forall (encoded_byte Query) out.
Proof. apply (@percent_encode_output simdutf_example simdutf_example_ok). apply sv_bytes. Defined.

Lemma encode_code_points_id set s :
  Forall (λ b, code_point_is_in_percent_encode_set b set = false) s →
  flat_map (encode_code_point set) s = s.
Proof.
  induction 1 as [|b s Hb Hs IH]; [done|]. cbn [flat_map]. unfold encode_code_point at 1.
  by rewrite Hb, IH.
Qed.

Lemma encoded_not_in_set set s :
  code_point_is_in_percent_encode_set c_percent set = false → Forall (encoded_byte set) s →
  Forall (λ b, code_point_is_in_percent_encode_set b set = false) s.
Proof.
  intros Hset Hs. eapply Forall_impl; [done|]. by intros b [_ [->|]].
Qed.

Lemma encoded_bytes set s : Forall (encoded_byte set) s → Forall is_byte s.
Proof. intros Hs. eapply Forall_impl; [done|]. intros b [? _]. unfold is_byte. lia. Qed.

(** Encoding text that is already encoded for a set without the percent sign
    leaves it alone. *)
Lemma percent_encode_encoded `{SimdutfOk} set s :
  code_point_is_in_percent_encode_set c_percent set = false → Forall (encoded_byte set) s →
  percent_encode s set SpaceAsPlusNo = Returned s.
Proof.
  intros Hset Hs. rewrite percent_encode_spec by (by eapply encoded_bytes).
  rewrite code_points_ascii by (by eapply encoded_ascii).
  by rewrite encode_code_points_id by (by apply encoded_not_in_set).
Qed.

(** Encoding is idempotent for every set without the percent sign (all the
    sets the URL parser uses): encoding an encoded string changes nothing. *)
Theorem percent_encode_idempotent `{SimdutfOk} (input out : bytes) (set : PercentEncodeSet)
    (Hset : code_point_is_in_percent_encode_set c_percent set = false)
    (Hi : Forall is_byte input)
    (Hout : percent_encode input set SpaceAsPlusNo = Returned out) :
  percent_encode out set SpaceAsPlusNo = Returned out.
Proof.
  destruct (percent_encode_returns input set Hi) as (out' & Hout' & Henc).
  rewrite Hout' in Hout. injection Hout as <-. by apply percent_encode_encoded.
Qed.

Lemma percent_encode_idempotent_witness :
  @percent_encode simdutf_example (sv "a%20b%C3%A9") Path SpaceAsPlusNo = Returned (sv "a%20b%C3%A9").
Proof.
  refine (@percent_encode_idempotent simdutf_example simdutf_example_ok
    (sv "a b" ++ [0xC3; 0xA9]) (sv "a%20b%C3%A9") Path _ _ _).
  - vm_compute. reflexivity.
  - apply Forall_app. split; [apply sv_bytes|repeat constructor; lia].
  - vm_compute. reflexivity.
Defined.
