(* ===== verification/Ipv4.v ===== *)
(** * IPv4 addresses in URLs

    [parse_ipv4_number] and [parse_ipv4_address] of LibURL/Parser.cpp,
    [serialize_ipv4_address] of LibURL/Host.cpp and [AK::pow] of
    AK/IntegralMath.h.  An [IPv4Address] built from a number holds that number
    ([NetworkOrdered<u32>] converts to big endian and back), so it is a [Z]
    below 2^32. *)
From S2P Require Import Prelude CharacterTypes Externals Utf8 StringView Format.

(** [AK::pow<size_t>]: exponentiation by squaring on 64-bit words. *)
Fixpoint pow_loop (fuel : nat) (res base exponent : Z) : Z :=
  match fuel with
  | O => res
  | S fuel =>
      if 0 <? exponent then
        let res := if Z.odd exponent then (res * base) mod 2 ^ 64 else res in
        pow_loop fuel res ((base * base) mod 2 ^ 64) (exponent / 2)
      else res
  end.

Definition ak_pow (base exponent : Z) : Z :=
  if exponent =? 0 then 1 else pow_loop 64 1 base exponent.

Record ParsedIPv4Number := mk_parsed_ipv4 { number : Z; validation_error : bool }.

Section WithFastFloat.
Context `{FastFloat}.

Definition parse_ipv4_number (input : bytes) : outcome (option ParsedIPv4Number) :=
  if bool_decide (input = []) then Returned None
  else
    '(input, radix, validation_error) ←
      (if (2 <=? length input)%nat
          && (starts_with input (sv "0X") CaseSensitive || starts_with input (sv "0x") CaseSensitive)
       then input ← substring_view_from input 2; Returned (input, 16, true)
       else if (2 <=? length input)%nat && bool_decide (head input = Some c_0)
       then input ← substring_view_from input 1; Returned (input, 8, true)
       else Returned (input, 10, false));
    if bool_decide (input = []) then Returned (Some (mk_parsed_ipv4 0 true))
    else match parse_number 0xFFFFFFFF radix input with
    | None => Returned None
    | Some output => Returned (Some (mk_parsed_ipv4 output validation_error))
    end.

(** Step 5: parse every part. *)
Fixpoint parse_ipv4_parts (parts : list bytes) : outcome (option (list Z)) :=
  match parts with
  | [] => Returned (Some [])
  | part :: parts =>
      result ← parse_ipv4_number part;
      match result with
      | None => Returned None
      | Some r =>
          rest ← parse_ipv4_parts parts;
          Returned (option_map (cons (number r)) rest)
      end
  end.

(** Steps 6 and 7: whether a part other than the last exceeds 255. *)
Fixpoint ipv4_out_of_range_part (numbers : list Z) (i size : nat) : bool :=
  match numbers with
  | [] => false
  | n :: numbers =>
      if (255 <? n) && negb (i =? size - 1)%nat then true
      else ipv4_out_of_range_part numbers (i + 1) size
  end.

(** Steps 11 and 12, on a [u32] accumulator. *)
Fixpoint add_ipv4_parts (ipv4 : Z) (counter : Z) (numbers : list Z) : Z :=
  match numbers with
  | [] => ipv4
  | n :: numbers =>
      add_ipv4_parts ((ipv4 + (n * ak_pow 256 (3 - counter)) mod 2 ^ 64) mod 2 ^ 32)
        (counter + 1) numbers
  end.

Definition parse_ipv4_address (input : bytes) : outcome (option Z) :=
  parts ← split_view input (sv ".") SplitKeepEmpty;
  last_part ← must (last parts);
  let parts :=
    if bool_decide (last_part = []) && (1 <? length parts)%nat
    then take (length parts - 1) parts else parts in
  if (4 <? length parts)%nat then Returned None
  else
    numbers ← parse_ipv4_parts parts;
    match numbers with
    | None => Returned None
    | Some numbers =>
        if ipv4_out_of_range_part numbers 0 (length numbers) then Returned None
        else
          last_number ← must (last numbers);
          if ak_pow 256 (5 - Z.of_nat (length numbers)) <=? last_number then Returned None
          else Returned (Some (add_ipv4_parts last_number 0 (take (length numbers - 1) numbers)))
    end.

End WithFastFloat.

(** The loop of [serialize_ipv4_address]: the bytes of [n], least significant
    first, stored from index 3 down to 0. *)
Definition serialize_ipv4_address (address : Z) : outcome bytes :=
  let o3 := address mod 256 in
  let n := address / 256 in
  let o2 := n mod 256 in
  let n := n / 256 in
  let o1 := n mod 256 in
  let n := n / 256 in
  let o0 := n mod 256 in
  s0 ← format_decimal o0;
  s1 ← format_decimal o1;
  s2 ← format_decimal o2;
  s3 ← format_decimal o3;
  Returned (s0 ++ sv "." ++ s1 ++ sv "." ++ s2 ++ sv "." ++ s3).

(** ** Reading a number with [parse_number] *)
Lemma digits_value_mono base acc s :
  2 ≤ base → 0 ≤ acc → forallb (is_digit_in base) s = true → acc ≤ digits_value base acc s.
Proof.
  intros Hb. revert acc. induction s as [|c s IH]; intros acc Hacc; simpl; [lia|].
  intros [_ Hs]%andb_prop.
  assert (0 ≤ default 0 (digit_value c)) as Hd.
  { unfold digit_value. repeat case_match; simpl; unfold_ctypes; lia. }
  etrans; [|apply IH; [nia|done]]. nia.
Qed.

Section ParseNumber.
Context `{FastFloatOk}.

Lemma digit_prefix base (s : bytes) :
  ∃ ds rest, s = ds ++ rest ∧ forallb (is_digit_in base) ds = true
    ∧ match rest with c :: _ => is_digit_in base c = false | [] => True end.
Proof.
  induction s as [|c s (ds & rest & -> & Hds & Hrest)]; try clear IHs.
  - by exists [], [].
  - destruct (is_digit_in base c) eqn:E.
    + exists (c :: ds), rest. split_and!; [done| |done]. simpl. by rewrite E.
    + by exists [], (c :: ds ++ rest).
Qed.

Lemma parse_number_spec max base s :
  2 ≤ base ≤ 36 →
  parse_number max base s =
    if negb (bool_decide (s = [])) && forallb (is_digit_in base) s && (digits_value base 0 s <=? max)
    then Some (digits_value base 0 s) else None.
Proof.
  intros Hbase. unfold parse_number.
  destruct (digit_prefix base s) as (ds & rest & -> & Hds & Hrest).
  destruct ds as [|d ds].
  - simpl. destruct rest as [|c rest]; [by rewrite from_chars_empty|].
    rewrite from_chars_no_digit by done. simpl. by rewrite Hrest.
  - remember (d :: ds) as l eqn:Hl. assert (l ≠ []) as Hne by (by rewrite Hl).
    rewrite (bool_decide_eq_false_2 (l ++ rest = [])) by (by intros [? ?]%app_nil).
    rewrite forallb_app, Hds. cbn [negb andb].
    destruct (Z.leb_spec (digits_value base 0 l) max) as [Hle|Hgt].
    + rewrite from_chars_in_range by done. rewrite length_app.
      destruct rest as [|c rest].
      * rewrite Nat.add_0_r, Nat.eqb_refl, app_nil_r. simpl. case_match; [done|lia].
      * destruct (Nat.eqb_spec (length l) (length l + length (c :: rest))); [simpl in *; lia|].
        simpl. by rewrite Hrest.
    + rewrite from_chars_out_of_range by done.
      destruct rest as [|c rest]; [|simpl; by rewrite Hrest].
      rewrite app_nil_r. simpl. case_match; [lia|done].
Qed.

Lemma parse_number_range max base s n : 2 ≤ base ≤ 36 → parse_number max base s = Some n → 0 ≤ n ≤ max.
Proof.
  intros Hbase. rewrite parse_number_spec by done. case_match eqn:E; [|done]. intros [= <-].
  apply andb_prop in E as [[_ Hd]%andb_prop Hle]. bool_to_prop. split; [|done].
  apply (digits_value_mono base 0); [lia..|done].
Qed.

End ParseNumber.

(** ** Reading back a printed address *)
Lemma printed_elem base value s c :
  printed_number base value s → c ∈ s → is_digit_in base c = true.
Proof. intros Hp Hc. eapply (proj1 (forallb_forall _ _)); [apply Hp|by apply list_elem_of_In]. Qed.

Lemma starts_with_take str start :
  starts_with str start CaseSensitive = true → take (length start) str = start.
Proof.
  unfold starts_with. destruct start; [done|]. destruct str; [done|].
  case_match; [done|]. by intros ?%bool_decide_eq_true.
Qed.

Lemma not_starts_with_prefix base value s a b :
  printed_number base value s → is_digit_in base b = false → starts_with s [a; b] CaseSensitive = false.
Proof.
  intros Hp Hb. destruct (starts_with s [a; b] CaseSensitive) eqn:E; [|done].
  apply starts_with_take in E. enough (b ∈ s) by (erewrite printed_elem in Hb; done).
  rewrite <-(take_drop (length [a; b]) s), E. set_solver.
Qed.

Section RoundTrip.
Context `{FastFloatOk}.

Lemma parse_ipv4_number_printed value s :
  0 ≤ value < 2 ^ 32 → printed_number 10 value s →
  parse_ipv4_number s = Returned (Some (mk_parsed_ipv4 value false)).
Proof.
  intros Hv Hp. unfold parse_ipv4_number.
  rewrite bool_decide_eq_false_2 by apply Hp.
  change (sv "0X") with [0x30; 0x58]. change (sv "0x") with [0x30; 0x78].
  rewrite (not_starts_with_prefix 10 value s 0x30 0x58 Hp eq_refl),
    (not_starts_with_prefix 10 value s 0x30 0x78 Hp eq_refl), andb_false_r.
  assert ((2 <=? length s)%nat && bool_decide (head s = Some c_0) = false) as ->.
  { destruct (decide (value = 0)) as [Hz|Hz].
    - by rewrite (printed_zero _ _ _ Hp Hz).
    - apply andb_false_intro2, bool_decide_eq_false_2. by apply (printed_no_leading_zero _ _ _ Hp). }
  cbn [mbind outcome_bind]. rewrite bool_decide_eq_false_2 by apply Hp.
  rewrite parse_number_spec by lia. rewrite (printed_value _ _ _ Hp), (printed_digits _ _ _ Hp).
  rewrite bool_decide_eq_false_2 by apply Hp.
  by replace (value <=? 0xFFFFFFFF) with true by lia.
Qed.

Lemma printed_no_dot value s : printed_number 10 value s → c_dot ∉ s.
Proof. intros Hp Hdot. by apply (printed_elem _ _ _ _ Hp) in Hdot. Qed.

(** Four printed octets joined with dots. *)
Lemma parse_ipv4_four o0 o1 o2 o3 s0 s1 s2 s3 :
  is_byte o0 → is_byte o1 → is_byte o2 → is_byte o3 →
  printed_number 10 o0 s0 → printed_number 10 o1 s1 →
  printed_number 10 o2 s2 → printed_number 10 o3 s3 →
  parse_ipv4_address (s0 ++ [c_dot] ++ s1 ++ [c_dot] ++ s2 ++ [c_dot] ++ s3)
    = Returned (Some (((o0 * 256 + o1) * 256 + o2) * 256 + o3)).
Proof.
  unfold is_byte. intros H0' H1' H2' H3' P0 P1 P2 P3. unfold parse_ipv4_address.
  change (sv ".") with [c_dot].
  rewrite split_view_char by (intros [? _]%app_nil; by destruct P0).
  cbn [app]. rewrite !split_on_app, split_on_absent by (by eapply printed_no_dot).
  cbn [mbind outcome_bind last must]. rewrite bool_decide_eq_false_2 by apply P3.
  cbn [andb length Nat.ltb Nat.leb parse_ipv4_parts].
  rewrite (parse_ipv4_number_printed o0 s0), (parse_ipv4_number_printed o1 s1),
    (parse_ipv4_number_printed o2 s2), (parse_ipv4_number_printed o3 s3) by (done || lia).
  cbn [mbind outcome_bind option_map number ipv4_out_of_range_part last must length].
  replace (255 <? o0) with false by lia. replace (255 <? o1) with false by lia.
  replace (255 <? o2) with false by lia. replace (255 <? o3) with false by lia.
  cbn [andb mbind outcome_bind]. change (ak_pow 256 (5 - Z.of_nat 4)) with 256.
  replace (256 <=? o3) with false by lia.
  cbn [Nat.sub take add_ipv4_parts]. change (ak_pow 256 (3 - 0)) with (256 * 256 * 256).
  change (ak_pow 256 (3 - (0 + 1))) with (256 * 256). change (ak_pow 256 (3 - (0 + 1 + 1))) with 256.
  do 2 f_equal. rewrite !(Z.mod_small (_ * _)), (Z.mod_small (o3 + _)) by lia.
  rewrite (Z.mod_small (o3 + _ + _)) by lia. rewrite Z.mod_small by lia. lia.
Qed.

Lemma ipv4_serialized address :
  0 ≤ address < 2 ^ 32 →
  ∃ s0 s1 s2 s3,
    serialize_ipv4_address address
      = Returned (s0 ++ [c_dot] ++ s1 ++ [c_dot] ++ s2 ++ [c_dot] ++ s3)
    ∧ printed_number 10 (address / 256 / 256 / 256) s0
    ∧ printed_number 10 (address / 256 / 256 mod 256) s1
    ∧ printed_number 10 (address / 256 mod 256) s2
    ∧ printed_number 10 (address mod 256) s3.
Proof.
  intros Ha. unfold serialize_ipv4_address.
  rewrite (Z.mod_small (address / 256 / 256 / 256)) by div_lia.
  destruct (format_decimal_printed (address / 256 / 256 / 256)) as (s0 & -> & P0); [div_lia|].
  destruct (format_decimal_printed (address / 256 / 256 mod 256)) as (s1 & -> & P1); [div_lia|].
  destruct (format_decimal_printed (address / 256 mod 256)) as (s2 & -> & P2); [div_lia|].
  destruct (format_decimal_printed (address mod 256)) as (s3 & -> & P3); [div_lia|].
  by exists s0, s1, s2, s3.
Qed.

(** Four labels of decimal digits separated by dots. *)
Record dotted_quad (s : bytes) : Prop := {
  quad_labels : ∃ s0 s1 s2 s3, split_on c_dot s = [s0; s1; s2; s3]
    ∧ Forall (λ l, l ≠ [] ∧ forallb is_ascii_digit l = true) [s0; s1; s2; s3];
  quad_characters : Forall (λ c, is_ascii_digit c = true ∨ c = c_dot) s;
}.

Lemma printed_decimal value s :
  printed_number 10 value s → s ≠ [] ∧ forallb is_ascii_digit s = true.
Proof.
  intros Hp. split; [apply Hp|]. pose proof (printed_digits _ _ _ Hp) as Hd.
  rewrite forallb_forall in Hd |- *. intros c Hc%Hd. revert Hc.
  unfold is_digit_in, digit_value. unfold_ctypes. intros Hc. repeat case_match; simplify_eq; lia.
Qed.

Lemma dotted_quad_intro v0 v1 v2 v3 s0 s1 s2 s3 :
  printed_number 10 v0 s0 → printed_number 10 v1 s1 → printed_number 10 v2 s2 → printed_number 10 v3 s3 →
  dotted_quad (s0 ++ sv "." ++ s1 ++ sv "." ++ s2 ++ sv "." ++ s3).
Proof.
  intros P0 P1 P2 P3. assert (∀ v s, printed_number 10 v s →
    Forall (λ c, is_ascii_digit c = true ∨ c = c_dot) s) as Hdig.
  { intros v s [_ Hs]%printed_decimal. apply forallb_Forall in Hs.
    eapply Forall_impl; [done|]. auto. }
  constructor.
  - exists s0, s1, s2, s3. split; [|repeat constructor; by eapply printed_decimal].
    simpl. rewrite !split_on_app, split_on_absent by (by eapply printed_no_dot). done.
  - rewrite !Forall_app. split_and!; eauto; by repeat constructor; right.
Qed.

Lemma ipv4_parse_serialized address :
  0 ≤ address < 2 ^ 32 →
  ∃ s, serialize_ipv4_address address = Returned s ∧ parse_ipv4_address s = Returned (Some address)
    ∧ dotted_quad s.
Proof.
  intros Ha. destruct (ipv4_serialized address Ha) as (s0 & s1 & s2 & s3 & -> & P0 & P1 & P2 & P3).
  eexists. split; [done|]. split; [|by eapply dotted_quad_intro].
  erewrite (parse_ipv4_four _ _ _ _ s0 s1 s2 s3); [|..|exact P0|exact P1|exact P2|exact P3];
    [|unfold is_byte; div_lia..].
  do 2 f_equal. div_lia.
Qed.

(** every 32-bit address survives serialization and parsing: the text
    [serialize_ipv4_address] writes is parsed by [parse_ipv4_address] to the same
    address. *)
Theorem ipv4_roundtrip (address : Z) (Ha : 0 ≤ address < 2 ^ 32) :
  (serialize_ipv4_address address ≫= parse_ipv4_address) = Returned (Some address).
Proof. by destruct (ipv4_parse_serialized address Ha) as (s & -> & Hs & _). Qed.

End RoundTrip.

(** A [from_chars] with the documented behaviour. *)
Fixpoint digit_prefix_of (base : Z) (s : bytes) : bytes :=
  match s with
  | [] => []
  | c :: s => if is_digit_in base c then c :: digit_prefix_of base s else []
  end.

Definition fast_float_example : FastFloat := {|
  from_chars max base s :=
    let ds := digit_prefix_of base s in
    if bool_decide (ds = []) || (max <? digits_value base 0 ds) then None
    else Some (digits_value base 0 ds, length ds);
|}.

Lemma digit_prefix_of_app base ds s :
  forallb (is_digit_in base) ds = true →
  digit_prefix_of base (ds ++ s) = ds ++ digit_prefix_of base s.
Proof.
  induction ds as [|d ds IH]; [done|]. simpl. intros [Hd Hds]%andb_prop.
  by rewrite Hd, IH.
Qed.

Lemma fast_float_example_ok : @FastFloatOk fast_float_example.
Proof.
  constructor; cbn [from_chars fast_float_example].
  - intros max base c s _ Hc. simpl. by rewrite Hc.
  - done.
  - intros max base ds s _ Hne Hds Hs Hmax. rewrite digit_prefix_of_app by done.
    replace (digit_prefix_of base s) with (@nil Z) by (destruct s; simpl; [|rewrite Hs]; done).
    rewrite app_nil_r. rewrite bool_decide_eq_false_2 by done.
    destruct (Z.ltb_spec max (digits_value base 0 ds)); [lia|done].
  - intros max base ds s Hbase Hne Hds Hmax. rewrite digit_prefix_of_app by done.
    rewrite digits_value_app. assert (digits_value base 0 ds ≤
      digits_value base (digits_value base 0 ds) (digit_prefix_of base s)) as Hle.
    { apply digits_value_mono; [lia|by apply digits_value_mono; [lia|lia|]|].
      clear. induction s as [|c s IH]; simpl; [done|]. case_match eqn:E; [|done].
      simpl. by rewrite E. }
    case_match eqn:E; [done|]. bool_to_prop. lia.
Qed.

Lemma ipv4_roundtrip_witness :
  0 ≤ 0x7F000001 < 2 ^ 32
  ∧ (serialize_ipv4_address 0x7F000001 ≫= @parse_ipv4_address fast_float_example)
    = Returned (Some 0x7F000001).
Proof.
  split; [lia|]. apply (@ipv4_roundtrip fast_float_example fast_float_example_ok). lia.
Defined.

(** ** The parser always returns, and its arithmetic is exact *)
Lemma parse_ipv4_number_returns `{FastFloat} input : returns (parse_ipv4_number input).
Proof.
  unfold parse_ipv4_number. case_match; [eauto with ladybird|].
  apply returns_bind; [|intros [[i r] v] _; repeat case_match; eauto with ladybird].
  case_match eqn:E1; bool_to_prop; [by rewrite substring_view_from_in_range by lia; eauto with ladybird|].
  case_match eqn:E2; bool_to_prop; [by rewrite substring_view_from_in_range by lia; eauto with ladybird|].
  eauto with ladybird.
Qed.

Lemma parse_ipv4_parts_returns `{FastFloat} parts :
  ∃ r, parse_ipv4_parts parts = Returned r
    ∧ match r with Some numbers => length numbers = length parts | None => True end.
Proof.
  induction parts as [|p parts (r & Hr & Hlen)]; [by eexists|]. cbn [parse_ipv4_parts].
  destruct (parse_ipv4_number_returns p) as [[n|] ->]; cbn [mbind outcome_bind]; [|by eexists].
  rewrite Hr. cbn [mbind outcome_bind]. eexists. split; [done|].
  destruct r; [|done]. simpl. lia.
Qed.

(** The parts that are parsed: a trailing empty part is dropped. *)
Definition ipv4_parts (input : bytes) : list bytes :=
  let parts := split_on c_dot input in
  if bool_decide (last parts = Some []) && (1 <? length parts)%nat
  then take (length parts - 1) parts else parts.

Lemma ipv4_parts_nonempty input : ipv4_parts input ≠ [].
Proof.
  unfold ipv4_parts. pose proof (split_on_nonempty c_dot input).
  destruct (split_on c_dot input) as [|p [|q ps]]; [done|by rewrite andb_false_r|].
  case_match; [|done]. by simpl.
Qed.

(** The parser, without its checked accesses. *)
Lemma parse_ipv4_address_unfold `{FastFloat} input :
  input ≠ [] →
  ∃ numbers, parse_ipv4_parts (ipv4_parts input) = Returned numbers ∧
  parse_ipv4_address input =
    if (4 <? length (ipv4_parts input))%nat then Returned None
    else match numbers with
    | None => Returned None
    | Some numbers =>
        if ipv4_out_of_range_part numbers 0 (length numbers) then Returned None
        else
          let last_number := default 0 (last numbers) in
          if ak_pow 256 (5 - Z.of_nat (length numbers)) <=? last_number then Returned None
          else Returned (Some (add_ipv4_parts last_number 0 (take (length numbers - 1) numbers)))
    end.
Proof.
  intros Hi. unfold parse_ipv4_address. change (sv ".") with [c_dot].
  rewrite split_view_char by done. cbn [mbind outcome_bind].
  pose proof (split_on_nonempty c_dot input) as Hne.
  destruct (last (split_on c_dot input)) as [lp|] eqn:El; [|by apply last_None in El].
  cbn [must mbind outcome_bind].
  assert ((if bool_decide (lp = []) && (1 <? length (split_on c_dot input))%nat
    then take (length (split_on c_dot input) - 1) (split_on c_dot input)
    else split_on c_dot input) = ipv4_parts input) as ->.
  { unfold ipv4_parts. rewrite El. by rewrite (bool_decide_ext (Some lp = Some []) (lp = [])) by naive_solver. }
  destruct (parse_ipv4_parts_returns (ipv4_parts input)) as (numbers & Hn & Hlen).
  exists numbers. split; [done|].
  destruct (4 <? length (ipv4_parts input))%nat; [done|]. rewrite Hn. cbn [mbind outcome_bind].
  destruct numbers as [numbers|]; [|done].
  destruct (ipv4_out_of_range_part numbers 0 (length numbers)); [done|].
  pose proof (ipv4_parts_nonempty input).
  destruct (last numbers) as [n|] eqn:Eln; [done|].
  apply last_None in Eln as ->. by destruct (ipv4_parts input).
Qed.

Lemma parse_ipv4_address_returns `{FastFloat} input :
  input ≠ [] → returns (parse_ipv4_address input).
Proof.
  intros Hi. destruct (parse_ipv4_address_unfold input Hi) as (numbers & _ & ->).
  cbv zeta. repeat case_match; eauto with ladybird.
Qed.

(** The number an address with the given parts stands for. *)
Definition ipv4_value (numbers : list Z) : option Z :=
  match numbers with
  | [d] => Some d
  | [a; d] => Some (a * 2 ^ 24 + d)
  | [a; b; d] => Some (a * 2 ^ 24 + b * 2 ^ 16 + d)
  | [a; b; c; d] => Some (a * 2 ^ 24 + b * 2 ^ 16 + c * 2 ^ 8 + d)
  | _ => None
  end.

Lemma ak_pow_256 :
  ak_pow 256 1 = 2 ^ 8 ∧ ak_pow 256 2 = 2 ^ 16 ∧ ak_pow 256 3 = 2 ^ 24 ∧ ak_pow 256 4 = 2 ^ 32.
Proof. done. Qed.

(** Adding one part in range to the [u32] accumulator. *)
Lemma add_ipv4_part ipv4 n counter k :
  ak_pow 256 (3 - counter) = 2 ^ k → 0 ≤ k ≤ 24 → 0 ≤ n ≤ 255 →
  0 ≤ ipv4 → ipv4 + n * 2 ^ k < 2 ^ 32 →
  (ipv4 + (n * ak_pow 256 (3 - counter)) mod 2 ^ 64) mod 2 ^ 32 = ipv4 + n * 2 ^ k.
Proof.
  intros -> Hk Hn Hi Hs. assert (0 < 2 ^ k) by lia.
  rewrite (Z.mod_small (n * 2 ^ k)), Z.mod_small; lia || nia.
Qed.

Lemma ipv4_value_exact numbers :
  (1 ≤ length numbers ≤ 4)%nat → Forall (λ n, 0 ≤ n < 2 ^ 32) numbers →
  ipv4_out_of_range_part numbers 0 (length numbers) = false →
  default 0 (last numbers) < ak_pow 256 (5 - Z.of_nat (length numbers)) →
  ∃ v, ipv4_value numbers = Some v ∧ 0 ≤ v < 2 ^ 32
    ∧ add_ipv4_parts (default 0 (last numbers)) 0 (take (length numbers - 1) numbers) = v.
Proof.
  intros Hlen Hr Hout Hlast. pose proof ak_pow_256 as (P1 & P2 & P3 & P4).
  destruct numbers as [|a [|b [|c [|d [|]]]]]; simpl in Hlen; try lia;
    rewrite ?Forall_cons in Hr; destruct_and?; cbn in Hout;
    repeat match goal with
    | H : (if ?b then true else _) = false |- _ =>
        destruct b eqn:?; [done|]; rewrite ?andb_true_r in * end; bool_to_prop;
    cbn [length Nat.sub take add_ipv4_parts last default ipv4_value] in *; unfold id in *;
    match type of Hlast with _ < ak_pow 256 ?e => let e' := eval vm_compute in e in
      change e with e' in Hlast end;
    rewrite ?P1, ?P2, ?P3, ?P4 in Hlast; (eexists; split; [done|]).
  - lia.
  - rewrite (add_ipv4_part _ _ _ 24) by (done || lia). lia.
  - rewrite (add_ipv4_part _ a _ 24), (add_ipv4_part _ b _ 16) by (done || lia). lia.
  - rewrite (add_ipv4_part _ a _ 24), (add_ipv4_part _ b _ 16), (add_ipv4_part _ c _ 8)
      by (done || lia). lia.
Qed.

(** ** The parser against a reference definition

    The reference reads every part with unbounded arithmetic. *)
Definition ipv4_number_reference (part : bytes) : option Z :=
  let '(digits, base) :=
    if bool_decide (take 2 part = sv "0x" ∨ take 2 part = sv "0X") then (drop 2 part, 16)
    else if bool_decide (head part = Some c_0 ∧ (2 ≤ length part)%nat) then (drop 1 part, 8)
    else (part, 10) in
  if bool_decide (part = []) then None
  else if forallb (is_digit_in base) digits && (digits_value base 0 digits <? 2 ^ 32)
  then Some (digits_value base 0 digits) else None.

Definition ipv4_numbers_in_range (numbers : list Z) : bool :=
  forallb (λ n, n <=? 255) (take (length numbers - 1) numbers)
  && (default 0 (last numbers) <? 256 ^ (5 - Z.of_nat (length numbers))).

Definition ipv4_reference (input : bytes) : option Z :=
  let parts := ipv4_parts input in
  if (4 <? length parts)%nat then None
  else
    numbers ← mapM ipv4_number_reference parts;
    if ipv4_numbers_in_range numbers then ipv4_value numbers else None.

Section Reference.
Context `{FastFloatOk}.

Lemma starts_with_two part a b :
  (2 <=? length part)%nat && starts_with part [a; b] CaseSensitive = bool_decide (take 2 part = [a; b]).
Proof.
  destruct part as [|x [|y part]]; unfold starts_with; simpl; symmetry.
  - done.
  - by apply bool_decide_eq_false.
  - done.
Qed.

Lemma parse_ipv4_number_reference part :
  ∃ e, parse_ipv4_number part = Returned ((λ n, mk_parsed_ipv4 n e) <$> ipv4_number_reference part).
Proof.
  assert (∀ base digits e, 2 ≤ base ≤ 36 → ∃ e',
    (if bool_decide (digits = []) then Returned (Some (mk_parsed_ipv4 0 true))
     else match parse_number 0xFFFFFFFF base digits with
     | None => Returned None | Some output => Returned (Some (mk_parsed_ipv4 output e)) end)
    = Returned ((λ n, mk_parsed_ipv4 n e') <$>
        (if forallb (is_digit_in base) digits && (digits_value base 0 digits <? 2 ^ 32)
         then Some (digits_value base 0 digits) else None))) as Hdigits.
  { intros base digits e Hbase. case_bool_decide as Hd; [subst; by exists true|].
    exists e. rewrite parse_number_spec by lia. rewrite bool_decide_eq_false_2 by done. simpl.
    replace (digits_value base 0 digits <=? 0xFFFFFFFF) with (digits_value base 0 digits <? 2 ^ 32) by lia.
    by case_match. }
  unfold parse_ipv4_number, ipv4_number_reference.
  destruct part as [|c part]; [by exists true|].
  rewrite (bool_decide_eq_false_2 (c :: part = [])) by done.
  rewrite andb_orb_distrib_r. change (sv "0X") with [c_0; 0x58]. change (sv "0x") with [c_0; 0x78].
  rewrite !starts_with_two, <-bool_decide_or.
  rewrite (bool_decide_ext _ (take 2 (c :: part) = [c_0; 0x78] ∨ take 2 (c :: part) = [c_0; 0x58])) by tauto.
  case_bool_decide as Hx.
  { assert (2 ≤ length (c :: part))%nat by (destruct part; [by destruct Hx|simpl; lia]).
    rewrite substring_view_from_in_range by done. apply Hdigits. lia. }
  replace ((2 <=? length (c :: part))%nat && bool_decide (head (c :: part) = Some c_0))
    with (bool_decide (head (c :: part) = Some c_0 ∧ (2 ≤ length (c :: part))%nat)).
  2:{ apply eq_true_iff_eq. rewrite andb_true_iff, !bool_decide_eq_true, Nat.leb_le. tauto. }
  case_bool_decide as Ho.
  { rewrite substring_view_from_in_range by (destruct Ho; lia). apply Hdigits. lia. }
  destruct (Hdigits 10 (c :: part) false) as [e He]; [lia|]. exists e.
  by rewrite bool_decide_eq_false_2 in He by done.
Qed.

Lemma parse_ipv4_parts_reference parts :
  parse_ipv4_parts parts = Returned (mapM ipv4_number_reference parts).
Proof.
  induction parts as [|p parts IH]; [done|]. cbn [parse_ipv4_parts mapM].
  destruct (parse_ipv4_number_reference p) as [e ->]. cbn [mbind outcome_bind].
  rewrite IH. destruct (ipv4_number_reference p); [|done]. simpl.
  by destruct (mapM ipv4_number_reference parts).
Qed.

Lemma digits_value_nonneg base digits acc :
  0 ≤ base → 0 ≤ acc → forallb (is_digit_in base) digits = true → 0 ≤ digits_value base acc digits.
Proof.
  intros Hb. revert acc. induction digits as [|c ds IH]; intros acc Ha; simpl; [done|].
  intros [Hc Hds]%andb_prop. apply IH; [|done]. unfold is_digit_in in Hc.
  destruct (digit_value c) as [d|] eqn:E; [|done]. simpl.
  unfold digit_value in E. unfold_ctypes. repeat case_match; simplify_eq; bool_to_prop; nia.
Qed.

Lemma ipv4_number_reference_range part n : ipv4_number_reference part = Some n → 0 ≤ n < 2 ^ 32.
Proof.
  unfold ipv4_number_reference. intros Hn.
  repeat case_match; simplify_eq; bool_to_prop; (split; [apply digits_value_nonneg|]; done || lia).
Qed.

Lemma ipv4_out_of_range_part_reference numbers i :
  ipv4_out_of_range_part numbers i (i + length numbers)
  = negb (forallb (λ n, n <=? 255) (take (length numbers - 1) numbers)).
Proof.
  revert i. induction numbers as [|n [|m numbers] IH]; intros i; [done| |].
  - simpl. rewrite (proj2 (Nat.eqb_eq i (i + 1 - 1))) by lia. by rewrite andb_false_r.
  - specialize (IH (i + 1)%nat). simpl in IH |- *.
    replace (i + 1 + S (length numbers))%nat with (i + S (S (length numbers)))%nat in IH by lia.
    rewrite Nat.sub_0_r in IH. rewrite IH.
    rewrite (proj2 (Nat.eqb_neq i (i + S (S (length numbers)) - 1))) by lia.
    rewrite andb_true_r. replace (255 <? n) with (negb (n <=? 255)) by lia. by destruct (n <=? 255).
Qed.

Lemma ipv4_parts_numbers input numbers :
  (length (ipv4_parts input) ≤ 4)%nat →
  mapM ipv4_number_reference (ipv4_parts input) = Some numbers →
  (1 ≤ length numbers ≤ 4)%nat ∧ Forall (λ n, 0 ≤ n < 2 ^ 32) numbers.
Proof.
  intros Hlen Hm%mapM_Some. pose proof (Forall2_length _ _ _ Hm) as Hl.
  pose proof (ipv4_parts_nonempty input). split.
  - rewrite <-Hl. destruct (ipv4_parts input); simpl in *; [done|lia].
  - eapply Forall2_Forall_r; [apply Hm|].
    apply Forall_true; intros part n. apply ipv4_number_reference_range.
Qed.

Lemma ak_pow_256_in_range (numbers : list Z) :
  (1 ≤ length numbers ≤ 4)%nat →
  ak_pow 256 (5 - Z.of_nat (length numbers)) = 256 ^ (5 - Z.of_nat (length numbers)).
Proof. intros Hlen. by destruct numbers as [|? [|? [|? [|? [|]]]]]; simpl in Hlen; try lia. Qed.

Lemma parse_ipv4_address_spec input :
  input ≠ [] →
  parse_ipv4_address input = Returned (ipv4_reference input)
  ∧ ∀ address, ipv4_reference input = Some address → 0 ≤ address < 2 ^ 32.
Proof.
  intros Hi. destruct (parse_ipv4_address_unfold input Hi) as (numbers & Hn & ->).
  rewrite parse_ipv4_parts_reference in Hn. injection Hn as <-. unfold ipv4_reference.
  destruct (4 <? length (ipv4_parts input))%nat eqn:Elen; [done|]. bool_to_prop.
  destruct (mapM ipv4_number_reference (ipv4_parts input)) as [numbers|] eqn:Em; [|done].
  destruct (ipv4_parts_numbers _ _ Elen Em) as [Hlen Hrange]. cbn [mbind option_bind].
  unfold ipv4_numbers_in_range. rewrite <-ak_pow_256_in_range by done.
  pose proof (ipv4_out_of_range_part_reference numbers 0) as Hout. simpl in Hout.
  destruct (ipv4_out_of_range_part numbers 0 (length numbers)) eqn:Eout;
    destruct (forallb _ (take _ numbers)); try done. cbn [andb].
  rewrite Z.leb_antisym. destruct (Z.ltb_spec (default 0 (last numbers))
    (ak_pow 256 (5 - Z.of_nat (length numbers)))); cbn [negb]; [|done].
  destruct (ipv4_value_exact numbers) as (v & Hv & Hb & Heq); [done..|].
  rewrite Hv, Heq. split; [done|]. by intros address [= ->].
Qed.
(** on every non-empty input the IPv4 parser returns (no failed VERIFY, no
    out-of-range access), and its result is the one of the reference that
    computes with unbounded integers: the 32-bit accumulator of the code never
    wraps around, and every accepted address is below 2^32. *)
Theorem parse_ipv4_address_reference input :
  input ≠ [] →
  parse_ipv4_address input = Returned (ipv4_reference input)
  ∧ ∀ address, ipv4_reference input = Some address → 0 ≤ address < 2 ^ 32.
Proof. apply parse_ipv4_address_spec. Qed.
End Reference.

Lemma parse_ipv4_address_reference_witness :
  sv "0x7F.1" ≠ [] ∧
  @parse_ipv4_address fast_float_example (sv "0x7F.1") = Returned (Some 0x7F000001).
Proof.
  assert (sv "0x7F.1" ≠ []) as Hne by done. split; [done|].
  rewrite (proj1 (@parse_ipv4_address_reference fast_float_example fast_float_example_ok _ Hne)).
  vm_compute. reflexivity.
Defined.
