(* ===== verification/Ipv6.v ===== *)
(** * IPv6 addresses in URLs

    [parse_ipv6_address] of LibURL/Parser.cpp, the compressed piece search and
    [serialize_ipv6_address] of LibURL/Host.cpp, and the parts of
    AK/IPv6Address.h they use.  An [IPv6Address] is its 16 bytes [m_data]; the
    parser's local [Array<u16, 8>] is a list of eight pieces whose accesses are
    checked. *)
From S2P Require Import Prelude CharacterTypes Externals Utf8 StringView Format.

(** ** AK/IPv6Address.h *)

(** [IPv6Address(Array<u16, 8> const&)]: the two bytes of every piece, most
    significant first. *)
Definition ipv6_from_pieces (pieces : list Z) : bytes :=
  pieces ≫= λ piece, [Z.shiftr piece 8 mod 2 ^ 8; Z.land piece 0xff].

(** [IPv6Address::piece], also [operator\[\]]. *)
Definition ipv6_piece (m_data : bytes) (i : nat) : outcome Z :=
  verify (i <? 8)%nat
    (high ← at_index m_data (i * 2);
     low ← at_index m_data (i * 2 + 1);
     Returned (Z.lor (Z.shiftl high 8) low)).

(** ** The parser of LibURL *)
Definition end_of_file : Z := 0xFFFFFFFF.

(** The lambdas [c] and [remaining] of the parser. *)
Definition ipv6_c (code_points : list Z) (pointer : nat) : Z :=
  default end_of_file (code_points !! pointer).

Definition ipv6_remaining (code_points : list Z) (pointer : nat) : list Z :=
  if (length code_points <=? pointer + 1)%nat then [] else drop (pointer + 1) code_points.

(** Step 6.4: up to four hexadecimal digits, into a [u32]. *)
Fixpoint ipv6_hex_digits (fuel : nat) (cps : list Z) (value : Z) (len pointer : nat)
    : outcome (Z * nat * nat) :=
  match fuel with
  | O => OutOfFuel
  | S fuel =>
      if (len <? 4)%nat && is_ascii_hex_digit (ipv6_c cps pointer) then
        digit ← parse_ascii_hex_digit (ipv6_c cps pointer);
        ipv6_hex_digits fuel cps ((value * 0x10 + digit) mod 2 ^ 32) (len + 1) (pointer + 1)
      else Returned (value, len, pointer)
  end.

(** Step 6.5.5.4: the decimal digits of one part of an embedded IPv4 address. *)
Fixpoint ipv6_ipv4_digits (fuel : nat) (cps : list Z) (ipv4_piece : option Z) (pointer : nat)
    : outcome (option (option Z * nat)) :=
  match fuel with
  | O => OutOfFuel
  | S fuel =>
      if is_ascii_digit (ipv6_c cps pointer) then
        number ← parse_ascii_digit (ipv6_c cps pointer);
        if bool_decide (ipv4_piece = Some 0) then Returned None
        else
          let piece := match ipv4_piece with None => number | Some p => (p * 10 + number) mod 2 ^ 32 end in
          if 255 <? piece then Returned None
          else ipv6_ipv4_digits fuel cps (Some piece) (pointer + 1)
      else Returned (Some (ipv4_piece, pointer))
  end.

(** Step 6.5.5: the parts of an embedded IPv4 address; the address, the piece
    index and the number of parts read. *)
Fixpoint ipv6_ipv4_loop (fuel : nat) (cps : list Z) (address : list Z) (piece_index numbers_seen pointer : nat)
    : outcome (option (list Z * nat * nat)) :=
  match fuel with
  | O => OutOfFuel
  | S fuel =>
      if ipv6_c cps pointer =? end_of_file then Returned (Some (address, piece_index, numbers_seen))
      else
        let is_separator := (ipv6_c cps pointer =? c_dot) && (numbers_seen <? 4)%nat in
        if (0 <? numbers_seen)%nat && negb is_separator then Returned None
        else
          let pointer := if (0 <? numbers_seen)%nat then (pointer + 1)%nat else pointer in
          if negb (is_ascii_digit (ipv6_c cps pointer)) then Returned None
          else
            digits ← ipv6_ipv4_digits (S (length cps)) cps None pointer;
            match digits with
            | None => Returned None
            | Some (ipv4_piece, pointer) =>
                piece ← must ipv4_piece;
                old ← at_index address piece_index;
                address ← set_index address piece_index ((old * 0x100 + piece) mod 2 ^ 16);
                let numbers_seen := (numbers_seen + 1)%nat in
                let piece_index :=
                  if (numbers_seen =? 2)%nat || (numbers_seen =? 4)%nat
                  then (piece_index + 1)%nat else piece_index in
                ipv6_ipv4_loop fuel cps address piece_index numbers_seen pointer
            end
  end.

(** Step 6: the main loop; the address, the piece index and [compress]. *)
Fixpoint ipv6_main_loop (fuel : nat) (cps : list Z) (address : list Z) (piece_index : nat)
    (compress : option nat) (pointer : nat) : outcome (option (list Z * nat * option nat)) :=
  match fuel with
  | O => OutOfFuel
  | S fuel =>
      let c := ipv6_c cps in
      if c pointer =? end_of_file then Returned (Some (address, piece_index, compress))
      else if (piece_index =? 8)%nat then Returned None
      else if c pointer =? c_colon then
        if bool_decide (is_Some compress) then Returned None
        else ipv6_main_loop fuel cps address (piece_index + 1) (Some (piece_index + 1)%nat) (pointer + 1)
      else
        '(value, len, pointer) ← ipv6_hex_digits 5 cps 0 0 pointer;
        if c pointer =? c_dot then
          if (len =? 0)%nat then Returned None
          else
            pointer ← size_sub pointer len;
            if (6 <? piece_index)%nat then Returned None
            else
              ipv4 ← ipv6_ipv4_loop (S (length cps)) cps address piece_index 0 pointer;
              match ipv4 with
              | None => Returned None
              | Some (address, piece_index, numbers_seen) =>
                  if negb (numbers_seen =? 4)%nat then Returned None
                  else Returned (Some (address, piece_index, compress))
              end
        else if (c pointer =? c_colon) && (c (pointer + 1)%nat =? end_of_file) then Returned None
        else if negb (c pointer =? c_colon) && negb (c pointer =? end_of_file) then Returned None
        else
          let pointer := if c pointer =? c_colon then (pointer + 1)%nat else pointer in
          address ← set_index address piece_index (value mod 2 ^ 16);
          ipv6_main_loop fuel cps address (piece_index + 1) compress pointer
  end.

(** Step 7.3: move the pieces after the compression to the end.  [swaps] is the
    source's counter and decreases to zero. *)
Fixpoint ipv6_swap_loop (swaps : nat) (address : list Z) (piece_index compress : nat)
    : outcome (list Z) :=
  match swaps with
  | O => Returned address
  | S swaps' =>
      if (piece_index =? 0)%nat then Returned address
      else
        let other := (compress + swaps - 1)%nat in
        a ← at_index address piece_index;
        b ← at_index address other;
        address ← set_index address piece_index b;
        address ← set_index address other a;
        ipv6_swap_loop swaps' address (piece_index - 1) compress
  end.

Definition parse_ipv6_address (input : bytes) : outcome (option bytes) :=
  let address := replicate 8 0 in
  let cps := code_points input in
  let starts_with_colon := ipv6_c cps 0 =? c_colon in
  if starts_with_colon && negb (bool_decide (head (ipv6_remaining cps 0) = Some c_colon))
  then Returned None
  else
    let '(pointer, piece_index, compress) :=
      if starts_with_colon then (2, 1, Some 1)%nat else (0, 0, None)%nat in
    result ← ipv6_main_loop (S (length cps)) cps address piece_index compress pointer;
    match result with
    | None => Returned None
    | Some (address, piece_index, Some compress) =>
        swaps ← size_sub piece_index compress;
        address ← ipv6_swap_loop swaps address 7 compress;
        Returned (Some (ipv6_from_pieces address))
    | Some (address, piece_index, None) =>
        if negb (piece_index =? 8)%nat then Returned None
        else Returned (Some (ipv6_from_pieces address))
    end.

(** ** The serializer of LibURL *)
Record compress_state := mk_compress {
  longest_index : option nat; longest_size : nat;
  found_index : option nat; found_size : nat;
}.

(** One iteration of the search, on the piece at [piece_index]. *)
Definition compress_step (s : compress_state) (piece_index : nat) (piece : Z) : compress_state :=
  if negb (piece =? 0) then
    if (longest_size s <? found_size s)%nat
    then mk_compress (found_index s) (found_size s) None 0
    else mk_compress (longest_index s) (longest_size s) None 0
  else
    mk_compress (longest_index s) (longest_size s)
      (match found_index s with None => Some piece_index | Some i => Some i end)
      (found_size s + 1).

Fixpoint compress_loop (fuel : nat) (address : bytes) (s : compress_state) (piece_index : nat)
    : outcome compress_state :=
  match fuel with
  | O => OutOfFuel
  | S fuel =>
      if (piece_index <? 8)%nat then
        piece ← ipv6_piece address piece_index;
        compress_loop fuel address (compress_step s piece_index piece) (piece_index + 1)
      else Returned s
  end.

Definition find_the_ipv6_address_compressed_piece_index (address : bytes) : outcome (option nat) :=
  s ← compress_loop 9 address (mk_compress None 1 None 0) 0;
  if (longest_size s <? found_size s)%nat then Returned (found_index s)
  else Returned (longest_index s).

Fixpoint serialize_ipv6_loop (fuel : nat) (address : bytes) (compress : option nat) (ignore0 : bool)
    (piece_index : nat) (output : bytes) : outcome bytes :=
  match fuel with
  | O => OutOfFuel
  | S fuel =>
      if (piece_index <? 8)%nat then
        piece ← ipv6_piece address piece_index;
        if ignore0 && (piece =? 0)
        then serialize_ipv6_loop fuel address compress ignore0 (piece_index + 1) output
        else if bool_decide (compress = Some piece_index) then
          let separator := if (piece_index =? 0)%nat then sv "::" else sv ":" in
          serialize_ipv6_loop fuel address compress true (piece_index + 1) (output ++ separator)
        else
          digits ← format_hex piece;
          let output := output ++ digits in
          let output := if negb (piece_index =? 7)%nat then output ++ [c_colon] else output in
          serialize_ipv6_loop fuel address compress false (piece_index + 1) output
      else Returned output
  end.

Definition serialize_ipv6_address (address : bytes) (output : bytes) : outcome bytes :=
  compress ← find_the_ipv6_address_compressed_piece_index address;
  serialize_ipv6_loop 9 address compress false 0 output.

(** The addresses of the tests in Tests/LibURL. *)
Example ipv6_examples :
  parse_ipv6_address (sv "1:2::7:8") = Returned (Some (ipv6_from_pieces [1; 2; 0; 0; 0; 0; 7; 8]))
  ∧ parse_ipv6_address (sv "::") = Returned (Some (ipv6_from_pieces [0; 0; 0; 0; 0; 0; 0; 0]))
  ∧ parse_ipv6_address (sv "::127.0.0.1") = Returned (Some (ipv6_from_pieces [0; 0; 0; 0; 0; 0; 0x7f00; 1]))
  ∧ parse_ipv6_address (sv "1:2") = Returned None
  ∧ serialize_ipv6_address (ipv6_from_pieces [1; 0; 0; 2; 0; 0; 0; 0xabcd]) [] = Returned (sv "1:0:0:2::abcd").
Proof. vm_compute. done. Qed.

(** ** The parser always returns *)
Lemma ipv6_c_in_range cps pointer : ipv6_c cps pointer ≠ end_of_file → (pointer < length cps)%nat.
Proof.
  unfold ipv6_c. destruct (cps !! pointer) eqn:E; [|done]. intros _. by eapply lookup_lt_Some.
Qed.

Lemma ipv6_hex_digits_returns fuel cps value len pointer :
  (4 < fuel + len)%nat → (len ≤ 4)%nat →
  ∃ value' n, ipv6_hex_digits fuel cps value len pointer = Returned (value', (len + n)%nat, (pointer + n)%nat)
    ∧ (n = 0%nat → value' = value).
Proof.
  revert value len pointer. induction fuel as [|fuel IH]; intros value len pointer Hf Hlen; [lia|].
  cbn [ipv6_hex_digits]. destruct ((len <? 4)%nat && _) eqn:E; bool_to_prop.
  - destruct (parse_ascii_hex_digit_digit (ipv6_c cps pointer)) as (d & -> & _); [done|].
    cbn [mbind outcome_bind].
    destruct (IH ((value * 16 + d) mod 2 ^ 32) (len + 1)%nat (pointer + 1)%nat) as (v' & n & -> & _); [lia..|].
    exists v', (S n). by rewrite <-!Nat.add_assoc.
  - exists value, 0%nat. by rewrite !Nat.add_0_r.
Qed.

Lemma ipv6_ipv4_digits_returns fuel cps piece pointer :
  (0 < fuel)%nat → (length cps < fuel + pointer)%nat →
  ∃ r, ipv6_ipv4_digits fuel cps piece pointer = Returned r ∧
    match r with
    | Some (piece', pointer') => (pointer ≤ pointer')%nat ∧
        (is_ascii_digit (ipv6_c cps pointer) = true → (pointer < pointer')%nat) ∧
        (is_Some piece ∨ is_ascii_digit (ipv6_c cps pointer) = true → is_Some piece')
    | None => True
    end.
Proof.
  revert piece pointer. induction fuel as [|fuel IH]; intros piece pointer H0 Hf; [lia|].
  cbn [ipv6_ipv4_digits]. destruct (is_ascii_digit (ipv6_c cps pointer)) eqn:E.
  2:{ eexists. split; [done|]. split_and!; [done|done|]. by intros [?|?]. }
  assert (pointer < length cps)%nat.
  { apply ipv6_c_in_range. intros Heq. by rewrite Heq in E. }
  rewrite (proj1 (parse_ascii_digit_digit _ E)). cbn [mbind outcome_bind].
  case_match; [by eexists|]. cbv zeta. case_match; [by eexists|].
  edestruct IH as (r & -> & Hr); [shelve..|]. exists r. split; [done|].
  Unshelve. 2-3: lia. destruct r as [[piece' pointer']|]; [|done].
  destruct Hr as (? & _ & Hs). split_and!; [lia|lia|eauto].
Qed.

Lemma ipv6_ipv4_loop_returns fuel cps address piece_index numbers_seen pointer :
  (0 < fuel)%nat → (length cps < fuel + pointer)%nat → length address = 8%nat →
  (numbers_seen ≤ 4)%nat →
  (piece_index ≤ 6 + numbers_seen / 2)%nat →
  ∃ r, ipv6_ipv4_loop fuel cps address piece_index numbers_seen pointer = Returned r ∧
    match r with
    | Some (address', piece_index', _) => length address' = 8%nat ∧ (piece_index ≤ piece_index' ≤ 8)%nat
    | None => True
    end.
Proof.
  revert address piece_index numbers_seen pointer.
  induction fuel as [|fuel IH]; intros address pi seen pointer H0 Hf Hlen Hseen Hpi; [lia|].
  cbn [ipv6_ipv4_loop]. case_match eqn:Eeof.
  { eexists. split; [done|]. split; [done|].
    assert (seen / 2 ≤ 2)%nat by (apply (Nat.Div0.div_le_mono seen 4 2 Hseen)). lia. }
  bool_to_prop. apply ipv6_c_in_range in Eeof. cbv zeta.
  destruct ((0 <? seen)%nat && negb _) eqn:Esep; [by eexists|].
  case_match eqn:Edigit; [by eexists|]. bool_to_prop.
  set (pointer1 := if (0 <? seen)%nat then (pointer + 1)%nat else pointer) in *.
  assert (pointer ≤ pointer1 ≤ pointer + 1)%nat by (unfold pointer1; case_match; lia).
  assert (seen < 4)%nat.
  { destruct (Nat.ltb_spec 0 seen); [|lia]. cbn [andb] in Esep.
    rewrite negb_false_iff in Esep. bool_to_prop. done. }
  destruct (ipv6_ipv4_digits_returns (S (length cps)) cps None pointer1) as ([[piece p']|] & -> & Hr);
    [lia..| |by eexists].
  destruct Hr as (_ & Hp' & [piece' ->]); [by right|]. specialize (Hp' Edigit). cbn [mbind outcome_bind must].
  assert (pi < 8)%nat as Hpi8.
  { assert (seen / 2 ≤ 1)%nat by (apply (Nat.Div0.div_le_mono seen 3 2); lia). lia. }
  destruct (at_index_total address pi) as (old & -> & _); [lia|]. cbn [mbind outcome_bind].
  rewrite set_index_lt by lia. cbn [mbind outcome_bind].
  destruct seen as [|[|[|[|]]]]; try lia; simpl in Hpi; simpl;
    (edestruct IH as (r & -> & Hs); [shelve..|exists r; split; [done|]]);
    destruct r as [[[address' pi'] ?]|]; try done; (split; [apply Hs|destruct Hs; lia]).
  Unshelve. all: rewrite ?length_insert; simpl; lia.
Qed.

(** What the main loop guarantees about its result. *)
Definition ipv6_loop_ok (r : option (list Z * nat * option nat)) : Prop :=
  match r with
  | Some (address, piece_index, compress) =>
      length address = 8%nat ∧ (piece_index ≤ 8)%nat ∧
      match compress with Some k => (1 ≤ k ≤ piece_index)%nat | None => True end
  | None => True
  end.

Lemma ipv6_main_loop_returns fuel cps address piece_index compress pointer :
  (0 < fuel)%nat → (length cps < fuel + pointer)%nat →
  ipv6_loop_ok (Some (address, piece_index, compress)) →
  ∃ r, ipv6_main_loop fuel cps address piece_index compress pointer = Returned r ∧ ipv6_loop_ok r.
Proof.
  revert address piece_index compress pointer.
  induction fuel as [|fuel IH]; intros address pi compress pointer H0 Hf (Hlen & Hpi & Hk); [lia|].
  cbn [ipv6_main_loop]. cbv zeta.
  destruct (Z.eqb_spec (ipv6_c cps pointer) end_of_file) as [|Hc]; [by eexists|].
  pose proof (ipv6_c_in_range _ _ Hc).
  destruct (Nat.eqb_spec pi 8) as [|Hpi8]; [by exists None|].
  destruct (Z.eqb_spec (ipv6_c cps pointer) c_colon) as [|Hcolon].
  { destruct (bool_decide _); [by exists None|]. apply IH; [lia..|]. split; [done|]. split; lia. }
  destruct (ipv6_hex_digits_returns 5 cps 0 0 pointer) as (v & n & -> & Hn); [lia..|].
  cbn [mbind outcome_bind]. rewrite Nat.add_0_l.
  destruct (Z.eqb_spec (ipv6_c cps (pointer + n)) c_dot).
  { destruct (n =? 0)%nat; [by exists None|]. rewrite size_sub_le by lia. cbn [mbind outcome_bind].
    destruct (6 <? pi)%nat eqn:E6; [by exists None|]. bool_to_prop.
    destruct (ipv6_ipv4_loop_returns (S (length cps)) cps address pi 0 (pointer + n - n)) as (r & -> & Hr);
      [lia|lia|done|lia|simpl; lia|].
    cbn [mbind outcome_bind]. destruct r as [[[a' pi'] seen]|]; [|by exists None].
    destruct (negb _); [by exists None|]. eexists. split; [done|]. split; [apply Hr|]. destruct Hr as [_ Hr].
    split; [lia|]. destruct compress; [lia|done]. }
  destruct (_ && _); [by exists None|]. destruct (negb _ && _) eqn:Ebad; [by exists None|].
  rewrite set_index_lt by lia. cbn [mbind outcome_bind].
  assert (n ≠ 0)%nat.
  { intros ->. rewrite Nat.add_0_r in *. destruct (Z.eqb_spec (ipv6_c cps pointer) c_colon); [done|].
    destruct (Z.eqb_spec (ipv6_c cps pointer) end_of_file); done. }
  apply IH; [lia|case_goal; lia|]. split; [by rewrite length_insert|].
  split; [lia|]. destruct compress; [lia|done].
Qed.

Lemma ipv6_swap_loop_returns swaps address piece_index compress :
  length address = 8%nat → (piece_index < 8)%nat → (compress + swaps ≤ 8)%nat →
  ∃ address', ipv6_swap_loop swaps address piece_index compress = Returned address'
    ∧ length address' = 8%nat.
Proof.
  revert address piece_index. induction swaps as [|swaps IH]; intros address pi Hlen Hpi Hc; [by eexists|].
  cbn [ipv6_swap_loop]. case_match; [by eexists|]. cbv zeta.
  destruct (at_index_total address pi) as (a & -> & _); [lia|]. cbn [mbind outcome_bind].
  destruct (at_index_total address (compress + S swaps - 1)) as (b & -> & _); [lia|].
  cbn [mbind outcome_bind]. rewrite set_index_lt by lia. cbn [mbind outcome_bind].
  rewrite set_index_lt by (rewrite length_insert; lia). cbn [mbind outcome_bind].
  apply IH; rewrite ?length_insert; lia.
Qed.

Lemma ipv6_from_pieces_length pieces : length (ipv6_from_pieces pieces) = (2 * length pieces)%nat.
Proof. induction pieces as [|p ps IH]; [done|]. simpl. rewrite IH. lia. Qed.

Lemma ipv6_from_pieces_bytes pieces : Forall is_byte (ipv6_from_pieces pieces).
Proof.
  induction pieces as [|p ps IH]; [constructor|]. unfold is_byte in *.
  constructor; [div_lia|constructor; [|done]]. change 0xff with (Z.ones 8).
  rewrite land_ones_mod by done. div_lia.
Qed.

Lemma parse_ipv6_address_returns (input : bytes) :
  ∃ r, parse_ipv6_address input = Returned r ∧
    ∀ address, r = Some address → length address = 16%nat ∧ Forall is_byte address.
Proof.
  unfold parse_ipv6_address. cbv zeta. set (cps := code_points input).
  case_match; [by eexists|]. clear.
  assert (∀ pieces, length pieces = 8%nat →
    ∀ address, Some (ipv6_from_pieces pieces) = Some address →
      length address = 16%nat ∧ Forall is_byte address) as Hok.
  { intros pieces Hp address [= <-]. split; [by rewrite ipv6_from_pieces_length, Hp|apply ipv6_from_pieces_bytes]. }
  destruct (if ipv6_c cps 0 =? c_colon then _ else _) as [[pointer pi] compress] eqn:E.
  destruct (ipv6_main_loop_returns (S (length cps)) cps (replicate 8 0) pi compress pointer)
    as (r & -> & Hr); [lia|lia|by case_match; simplify_eq; simpl; split_and!; try lia|].
  cbn [mbind outcome_bind]. destruct r as [[[address pi'] [k|]]|]; [| |by eexists].
  - destruct Hr as (Hlen & Hpi & Hk). rewrite size_sub_le by lia. cbn [mbind outcome_bind].
    destruct (ipv6_swap_loop_returns (pi' - k) address 7 k) as (a' & -> & Ha'); [lia..|].
    eexists. split; [done|]. by apply Hok.
  - destruct Hr as (Hlen & _). case_goal; [by eexists|]. eexists. split; [done|]. by apply Hok.
Qed.

(** the IPv6 parser is total.  On every input it returns an address or a
    failure after a bounded number of iterations: every access to the array of
    pieces is in range, the pointer and the swap count never go below zero,
    every digit is a digit, and an accepted address has exactly 16 bytes. *)
Theorem parse_ipv6_address_total (input : bytes) :
  ∃ r, parse_ipv6_address input = Returned r ∧
    ∀ address, r = Some address → length address = 16%nat ∧ Forall is_byte address.
Proof. by apply parse_ipv6_address_returns. Qed.

(** ** Serialized pieces *)
Definition is_u16 (p : Z) : Prop := 0 ≤ p < 2 ^ 16.

Lemma ipv6_piece_from_pieces pieces i p :
  Forall is_u16 pieces → pieces !! i = Some p → (i < 8)%nat →
  ipv6_piece (ipv6_from_pieces pieces) i = Returned p.
Proof.
  intros Hps Hp Hi. unfold ipv6_piece. rewrite verify_true by by apply Nat.ltb_lt.
  assert (∀ k, (k < 2)%nat → ipv6_from_pieces pieces !! (i * 2 + k)%nat
    = [Z.shiftr p 8 mod 2 ^ 8; Z.land p 0xff] !! k) as Hk.
  { clear Hi Hps. revert i Hp. induction pieces as [|q ps IH]; intros [|i] Hp k Hk; simplify_eq/=.
    - destruct k as [|[|]]; [done..|lia].
    - apply (IH i Hp k Hk). }
  pose proof (Hk 0%nat ltac:(lia)) as H0. rewrite Nat.add_0_r in H0.
  rewrite (at_index_lt _ _ _ H0), (at_index_lt _ _ _ (Hk 1%nat ltac:(lia))). simpl. f_equal.
  assert (is_u16 p) as [? ?] by (by eapply Forall_lookup_1).
  change 0xff with (Z.ones 8). rewrite land_ones_mod, Z.shiftr_div_pow2, Z.shiftl_mul_pow2 by done.
  rewrite lor_disjoint_add; div_lia.
Qed.

(** Every 16-byte address comes from eight pieces. *)
Lemma ipv6_pieces_exist (m_data : bytes) :
  length m_data = 16%nat → Forall is_byte m_data →
  ∃ pieces, m_data = ipv6_from_pieces pieces ∧ length pieces = 8%nat ∧ Forall is_u16 pieces.
Proof.
  assert (∀ n (l : bytes), length l = (2 * n)%nat → Forall is_byte l →
    ∃ ps, l = ipv6_from_pieces ps ∧ length ps = n ∧ Forall is_u16 ps) as Hgen; [|by apply (Hgen 8%nat)].
  induction n as [|n IH]; intros l Hl Hb; [by destruct l; [exists []|]|].
  destruct l as [|x [|y l]]; simpl in Hl; try lia.
  apply Forall_cons in Hb as [Hx [Hy Hb]%Forall_cons].
  destruct (IH l) as (ps & -> & Hlen & Hps); [lia|done|]. unfold is_byte in *.
  exists ((x * 256 + y) :: ps). split_and!; [|simpl; lia|constructor; [unfold is_u16; lia|done]].
  simpl. change 255 with (Z.ones 8). rewrite land_ones_mod, Z.shiftr_div_pow2 by done.
  f_equal; [div_lia|f_equal; div_lia].
Qed.

Definition hex_of (p : Z) : bytes := match format_hex p with Returned s => s | _ => [] end.

Lemma hex_of_printed p :
  is_u16 p → format_hex p = Returned (hex_of p) ∧ printed_number 16 p (hex_of p).
Proof.
  intros Hp. destruct (format_hex_printed p) as (s & Hs & Hpr); [unfold is_u16 in Hp; lia|].
  unfold hex_of. by rewrite Hs.
Qed.

Fixpoint drop_zeros (pieces : list Z) : list Z :=
  match pieces with 0 :: pieces => drop_zeros pieces | _ => pieces end.

(** Pieces separated by colons, and pieces each followed by a colon. *)
Fixpoint render (pieces : list Z) : bytes :=
  match pieces with
  | [] => []
  | [p] => hex_of p
  | p :: pieces => hex_of p ++ c_colon :: render pieces
  end.

Definition render_colons (pieces : list Z) : bytes := pieces ≫= λ p, hex_of p ++ [c_colon].

Lemma render_colons_cons p pieces : render_colons (p :: pieces) = hex_of p ++ c_colon :: render_colons pieces.
Proof. unfold render_colons. simpl. by rewrite <-app_assoc. Qed.

Lemma serialize_ipv6_tail pieces pre suf compress ignore0 out :
  pieces = pre ++ suf → length pieces = 8%nat → Forall is_u16 pieces →
  match compress with Some k => (k < length pre)%nat | None => True end →
  serialize_ipv6_loop (S (length suf)) (ipv6_from_pieces pieces) compress ignore0 (length pre) out
  = Returned (out ++ render (if ignore0 then drop_zeros suf else suf)).
Proof.
  intros -> Hlen Hps Hk. revert pre ignore0 out Hlen Hps Hk.
  induction suf as [|p suf IH]; intros pre ignore0 out Hlen Hps Hk; rewrite length_app in Hlen; simpl in Hlen.
  { simpl. rewrite (proj2 (Nat.ltb_ge _ _)) by lia. destruct ignore0; simpl; by rewrite app_nil_r. }
  assert (is_u16 p) as Hp by (by apply Forall_app in Hps as [_ [? _]%Forall_cons]).
  assert (∀ ign out, serialize_ipv6_loop (S (length suf)) (ipv6_from_pieces (pre ++ p :: suf)) compress ign
    (length pre + 1) out = Returned (out ++ render (if ign then drop_zeros suf else suf))) as IH'.
  { intros ign out'. specialize (IH (pre ++ [p]) ign out'). rewrite <-app_assoc, (length_app pre [p]) in IH.
    apply IH; [rewrite length_app; simpl; lia|done|destruct compress; [lia|done]]. }
  change (length (p :: suf)) with (S (length suf)). remember (S (length suf)) as f eqn:Hf.
  cbn [serialize_ipv6_loop]. rewrite (proj2 (Nat.ltb_lt _ _)) by lia.
  rewrite (ipv6_piece_from_pieces _ _ p) by (done || lia || by apply list_lookup_middle).
  cbn [mbind outcome_bind]. destruct (ignore0 && (p =? 0)) eqn:Eign.
  { bool_to_prop. subst. apply IH'. }
  rewrite bool_decide_eq_false_2 by (intros ->; lia).
  rewrite (proj1 (hex_of_printed p Hp)). cbn [mbind outcome_bind]. rewrite IH'.
  assert ((if ignore0 then drop_zeros (p :: suf) else p :: suf) = p :: suf) as ->.
  { destruct ignore0; [|done]. by destruct p. }
  destruct suf as [|q suf].
  - cbn [length] in Hf. replace (length pre) with 7%nat by lia. simpl. by rewrite app_nil_r.
  - cbn [length] in Hf. rewrite (proj2 (Nat.eqb_neq (length pre) 7)) by lia.
    cbn [negb render]. by rewrite <-!app_assoc.
Qed.

Lemma serialize_ipv6_before pieces pre A rest out :
  pieces = pre ++ A ++ rest → rest ≠ [] → length pieces = 8%nat → Forall is_u16 pieces →
  serialize_ipv6_loop (S (length A + length rest)) (ipv6_from_pieces pieces)
    (Some (length (pre ++ A))) false (length pre) out
  = serialize_ipv6_loop (S (length rest)) (ipv6_from_pieces pieces)
      (Some (length (pre ++ A))) false (length (pre ++ A)) (out ++ render_colons A).
Proof.
  intros Heq Hne Hlen Hps. revert pre out Heq. induction A as [|p A IH]; intros pre out Heq.
  { by rewrite !app_nil_r. }
  assert (is_u16 p ∧ pieces !! length pre = Some p) as [Hp Hlk].
  { subst. split; [|by apply list_lookup_middle].
    by apply Forall_app in Hps as [_ [[? _]%Forall_cons _]%Forall_app]. }
  assert (length pre < 7)%nat.
  { subst. rewrite !length_app in Hlen. simpl in Hlen. destruct rest; simpl in Hlen; [done|lia]. }
  specialize (IH (pre ++ [p]) ((out ++ hex_of p) ++ [c_colon])).
  rewrite <-!(app_assoc pre), (length_app pre [p]) in IH. specialize (IH Heq). cbn [app] in IH.
  change (length (p :: A) + length rest)%nat with (S (length A + length rest)).
  change (length [p]) with 1%nat in IH. remember (S (length A + length rest)) as f eqn:Hf.
  cbn [serialize_ipv6_loop]. rewrite (proj2 (Nat.ltb_lt _ _)) by lia.
  rewrite (ipv6_piece_from_pieces _ _ p) by (done || lia). cbn [mbind outcome_bind andb].
  rewrite bool_decide_eq_false_2 by (rewrite length_app; simpl; intros [= ?]; lia).
  rewrite (proj1 (hex_of_printed p Hp)). cbn [mbind outcome_bind].
  rewrite (proj2 (Nat.eqb_neq (length pre) 7)) by lia. cbn [negb]. rewrite IH.
  unfold render_colons. simpl. by rewrite <-!app_assoc.
Qed.

(** ** The compressed piece index *)

(** The number of zero pieces an address has from a given index on. *)
Fixpoint leading_zeros (pieces : list Z) : nat :=
  match pieces with 0 :: pieces => S (leading_zeros pieces) | _ => 0 end.

Definition zero_run (pieces : list Z) (i : nat) : nat := leading_zeros (drop i pieces).

Fixpoint compress_fold (s : compress_state) (i : nat) (pieces : list Z) : compress_state :=
  match pieces with
  | [] => s
  | p :: pieces => compress_fold (compress_step s i p) (i + 1) pieces
  end.

Definition compress_result (pieces : list Z) : option nat :=
  let s := compress_fold (mk_compress None 1 None 0) 0 pieces in
  if (longest_size s <? found_size s)%nat then found_index s else longest_index s.

Lemma compress_loop_fold pieces pre suf s :
  pieces = pre ++ suf → length pieces = 8%nat → Forall is_u16 pieces →
  compress_loop (S (length suf)) (ipv6_from_pieces pieces) s (length pre)
  = Returned (compress_fold s (length pre) suf).
Proof.
  intros Heq Hlen Hps. revert pre s Heq. induction suf as [|p suf IH]; intros pre s Heq.
  { subst. rewrite app_nil_r in Hlen. simpl. by rewrite Hlen. }
  specialize (IH (pre ++ [p]) (compress_step s (length pre) p)).
  rewrite <-(app_assoc pre), (length_app pre [p]) in IH. specialize (IH Heq).
  assert (length pre < 8)%nat by (subst; rewrite length_app in Hlen; simpl in Hlen; lia).
  change (length (p :: suf)) with (S (length suf)). remember (S (length suf)) as f eqn:Hf.
  cbn [compress_loop compress_fold]. rewrite (proj2 (Nat.ltb_lt _ _)) by lia.
  rewrite (ipv6_piece_from_pieces _ _ p) by (done || subst; by apply list_lookup_middle).
  cbn [mbind outcome_bind]. apply IH.
Qed.

Lemma find_compressed_result pieces :
  length pieces = 8%nat → Forall is_u16 pieces →
  find_the_ipv6_address_compressed_piece_index (ipv6_from_pieces pieces)
  = Returned (compress_result pieces).
Proof.
  intros Hlen Hps. unfold find_the_ipv6_address_compressed_piece_index.
  pose proof (compress_loop_fold pieces [] pieces (mk_compress None 1 None 0) eq_refl Hlen Hps) as Hl.
  rewrite Hlen in Hl. change (length (@nil Z)) with 0%nat in Hl. rewrite Hl. cbn [mbind outcome_bind]. unfold compress_result. simpl. by case_match.
Qed.

(** Only whether pieces are zero matters, so that 256 patterns are enough. *)
Definition zero_pattern (pieces : list Z) : list Z := (λ p, if p =? 0 then 0 else 1) <$> pieces.

Lemma leading_zeros_pattern pieces : leading_zeros (zero_pattern pieces) = leading_zeros pieces.
Proof. induction pieces as [|[] ps IH]; [done| |done|done]. simpl. by rewrite IH. Qed.

Lemma zero_run_pattern pieces i : zero_run (zero_pattern pieces) i = zero_run pieces i.
Proof. unfold zero_run, zero_pattern. by rewrite <-fmap_drop, leading_zeros_pattern. Qed.

Lemma compress_result_pattern pieces : compress_result (zero_pattern pieces) = compress_result pieces.
Proof.
  unfold compress_result. enough (∀ s i, compress_fold s i (zero_pattern pieces) = compress_fold s i pieces)
    as -> by done.
  induction pieces as [|p ps IH]; intros s i; [done|]. cbn [zero_pattern fmap list_fmap compress_fold].
  rewrite IH. f_equal. unfold compress_step. by destruct (p =? 0).
Qed.

Fixpoint zero_patterns (n : nat) : list (list Z) :=
  match n with
  | O => [[]]
  | S n => l ← zero_patterns n; [0 :: l; 1 :: l]
  end.

Lemma zero_pattern_enumerated pieces : zero_pattern pieces ∈ zero_patterns (length pieces).
Proof.
  induction pieces as [|p ps IH]; [by apply list_elem_of_singleton|]. simpl.
  apply list_elem_of_bind. exists (zero_pattern ps). split; [|done].
  destruct (p =? 0); set_solver.
Qed.

Definition is_longest_run (pieces : list Z) (r : option nat) : bool :=
  match r with
  | Some k =>
      (2 <=? zero_run pieces k)%nat
      && forallb (λ j, (zero_run pieces j <=? zero_run pieces k)%nat
                       && ((k <=? j)%nat || (zero_run pieces j <? zero_run pieces k)%nat)) (seq 0 8)
  | None => forallb (λ j, (zero_run pieces j <=? 1)%nat) (seq 0 8)
  end.

Lemma compress_result_longest pieces :
  length pieces = 8%nat → is_longest_run pieces (compress_result pieces) = true.
Proof.
  intros Hlen. pose proof (zero_pattern_enumerated pieces) as Hin. rewrite Hlen in Hin.
  assert (forallb (λ l, is_longest_run l (compress_result l)) (zero_patterns 8) = true) as Hall
    by (vm_compute; done).
  rewrite forallb_forall in Hall. specialize (Hall _ (proj1 (list_elem_of_In _ _) Hin)).
  rewrite compress_result_pattern in Hall. unfold is_longest_run in *.
  destruct (compress_result pieces) as [k|]; rewrite ?zero_run_pattern in Hall.
  - rewrite <-Hall. f_equal. apply forallb_ext. intros j. by rewrite zero_run_pattern.
  - rewrite <-Hall. apply forallb_ext. intros j. by rewrite zero_run_pattern.
Qed.

(** The compressed piece index the serializer computes is the first of the
    longest runs of zero pieces when that run has at least two pieces, and
    there is none when no two consecutive pieces are zero. *)
Theorem compressed_piece_index_longest (pieces : list Z)
    (Hlen : length pieces = 8%nat) (Hps : Forall is_u16 pieces) :
  ∃ r, find_the_ipv6_address_compressed_piece_index (ipv6_from_pieces pieces) = Returned r ∧
    match r with
    | Some k => (2 ≤ zero_run pieces k)%nat
        ∧ ∀ j, (j < 8)%nat → (zero_run pieces j ≤ zero_run pieces k)%nat
            ∧ ((j < k)%nat → (zero_run pieces j < zero_run pieces k)%nat)
    | None => ∀ j, (j < 8)%nat → (zero_run pieces j ≤ 1)%nat
    end.
Proof.
  exists (compress_result pieces). split; [by apply find_compressed_result|].
  pose proof (compress_result_longest pieces Hlen) as Hl. unfold is_longest_run in Hl.
  assert (∀ f, forallb f (seq 0 8) = true → ∀ j, (j < 8)%nat → f j = true) as Hseq.
  { intros f Hf j Hj. rewrite forallb_forall in Hf. apply Hf, in_seq. lia. }
  destruct (compress_result pieces) as [k|].
  - apply andb_prop in Hl as [H2 Hl]. bool_to_prop. split; [done|]. intros j Hj.
    specialize (Hseq _ Hl j Hj). simpl in Hseq. apply andb_prop in Hseq as [Ha Hb].
    bool_to_prop. split; [done|]. intros Hjk. apply orb_true_iff in Hb as [Hb|Hb]; bool_to_prop; [lia|done].
  - intros j Hj. specialize (Hseq _ Hl j Hj). simpl in Hseq. by bool_to_prop.
Qed.

Lemma compressed_piece_index_longest_witness :
  find_the_ipv6_address_compressed_piece_index (ipv6_from_pieces [1; 0; 0; 2; 0; 0; 0; 5])
    = Returned (Some 4%nat)
  ∧ ∀ j, (j < 8)%nat → (zero_run [1; 0; 0; 2; 0; 0; 0; 5]%Z j ≤ 3)%nat.
Proof.
  destruct (compressed_piece_index_longest [1; 0; 0; 2; 0; 0; 0; 5]) as (r & Hr & Hrun);
    [done|by repeat (constructor; [unfold is_u16; lia|])|].
  split; [vm_compute; reflexivity|]. vm_compute in Hr. injection Hr as <-.
  intros j Hj. apply Hrun, Hj.
Defined.

(** ** Reading pieces back *)
Lemma ipv6_c_drop cps pointer c rest : drop pointer cps = c :: rest → ipv6_c cps pointer = c.
Proof.
  intros Hd. unfold ipv6_c. rewrite <-(Nat.add_0_r pointer), <-lookup_drop, Hd. done.
Qed.

Lemma ipv6_c_end cps pointer : drop pointer cps = [] → ipv6_c cps pointer = end_of_file.
Proof.
  intros Hd. unfold ipv6_c. rewrite <-(Nat.add_0_r pointer), <-lookup_drop, Hd. done.
Qed.

Lemma drop_app_next {A} (l s rest : list A) pointer :
  drop pointer l = s ++ rest → drop (pointer + length s) l = rest.
Proof. intros Hd. by rewrite <-drop_drop, Hd, drop_app_length. Qed.

Lemma hex_digit_agrees c :
  is_digit_in 16 c = true →
  ∃ d, is_ascii_hex_digit c = true ∧ parse_ascii_hex_digit c = Returned d
    ∧ digit_value c = Some d ∧ 0 ≤ d < 16.
Proof.
  unfold is_digit_in, digit_value, parse_ascii_hex_digit, parse_ascii_digit. unfold_ctypes.
  intros Hc. repeat case_match; simplify_eq; bool_to_prop; try lia;
    eexists; (split_and!; [lia|done|done || (f_equal; lia)|lia|lia]).
Qed.

Lemma ipv6_hex_digits_read s fuel cps value len pointer rest :
  drop pointer cps = s ++ rest → forallb (is_digit_in 16) s = true →
  (len + length s ≤ 4)%nat → (4 < fuel + len)%nat → 0 ≤ value < 16 ^ Z.of_nat len →
  is_ascii_hex_digit (ipv6_c cps (pointer + length s)) = false →
  ipv6_hex_digits fuel cps value len pointer
  = Returned (digits_value 16 value s, (len + length s)%nat, (pointer + length s)%nat).
Proof.
  revert fuel value len pointer. induction s as [|c s IH]; intros fuel value len pointer Hd Hs Hl Hf Hv Hend;
    (destruct fuel as [|fuel]; [simpl in Hl; lia|]); cbn [ipv6_hex_digits].
  { simpl in *. rewrite Nat.add_0_r in *. rewrite Hend, andb_false_r. by rewrite Nat.add_0_r. }
  simpl in Hs, Hl. apply andb_prop in Hs as [Hc Hs].
  destruct (hex_digit_agrees c Hc) as (d & Hhex & Hparse & Hdv & Hd16).
  assert (16 ^ Z.of_nat (len + 1) = 16 ^ Z.of_nat len * 16) as Hpow.
  { rewrite Nat2Z.inj_add, Z.pow_add_r by lia. done. }
  assert (16 ^ Z.of_nat len ≤ 16 ^ 3) by (apply Z.pow_le_mono_r; lia).
  rewrite (ipv6_c_drop cps pointer c (s ++ rest)) by done.
  rewrite Hhex, (proj2 (Nat.ltb_lt len 4)) by lia. cbn [andb]. rewrite Hparse. cbn [mbind outcome_bind].
  rewrite Z.mod_small by lia.
  rewrite (IH fuel _ (len + 1)%nat (pointer + 1)%nat); [|by apply (drop_app_next _ [c])|done|lia|lia|lia|].
  - cbn [digits_value length]. rewrite Hdv. cbn [default]. unfold id. by rewrite <-!Nat.add_assoc.
  - by rewrite <-Nat.add_assoc.
Qed.

Lemma digits_value_lower base s acc :
  1 ≤ base → 0 ≤ acc → forallb (is_digit_in base) s = true →
  acc * base ^ Z.of_nat (length s) ≤ digits_value base acc s.
Proof.
  intros Hb. revert acc. induction s as [|c s IH]; intros acc Ha Hs; cbn [digits_value length]; [simpl; lia|].
  simpl in Hs. apply andb_prop in Hs as [Hc Hs]. unfold is_digit_in in Hc.
  destruct (digit_value c) as [d|] eqn:E; [|done]. cbn [default]. unfold id.
  assert (0 ≤ d) by (unfold digit_value in E; unfold_ctypes; repeat case_match; simplify_eq; bool_to_prop; lia).
  rewrite Nat2Z.inj_succ, Z.pow_succ_r by lia.
  etransitivity; [|apply IH; [nia|done]]. assert (0 < base ^ Z.of_nat (length s)) by lia. nia.
Qed.

(** A [u16] is printed with at most four digits. *)
Lemma hex_of_length p : is_u16 p → (1 ≤ length (hex_of p) ≤ 4)%nat.
Proof.
  intros Hp. destruct (hex_of_printed p Hp) as [_ Hpr]. unfold is_u16 in Hp.
  destruct (hex_of p) as [|c s] eqn:E; [by apply printed_nonempty in Hpr|]. simpl. split; [lia|].
  destruct (decide (p = 0)) as [H0|H0]; [apply (printed_zero _ _ _ Hpr) in H0; simplify_eq; simpl; lia|].
  pose proof (printed_no_leading_zero _ _ _ Hpr H0) as Hhead.
  pose proof (printed_digits _ _ _ Hpr) as Hdig. pose proof (printed_value _ _ _ Hpr) as Hval.
  simpl in Hdig, Hval. apply andb_prop in Hdig as [Hc Hs].
  destruct (hex_digit_agrees c Hc) as (d & _ & _ & Hdv & Hd). rewrite Hdv in Hval. simpl in Hval.
  assert (d ≠ 0).
  { intros ->. apply Hhead. simpl. f_equal. unfold digit_value in Hdv. unfold_ctypes.
    repeat case_match; simplify_eq; bool_to_prop; lia. }
  pose proof (digits_value_lower 16 s d ltac:(lia) ltac:(lia) Hs) as Hlow.
  change (0 * 16 + d) with d in Hval. rewrite Hval in Hlow. assert (16 ^ Z.of_nat (length s) < 16 ^ 4) as Hlt by nia.
  apply Z.pow_lt_mono_r_iff in Hlt; lia.
Qed.

Section ReadPieces.
Context (cps : list Z) (Hascii : forallb is_ascii cps = true).

Lemma drop_head_not_eof pointer c rest : drop pointer cps = c :: rest → c ≠ end_of_file.
Proof.
  intros Hd ->. assert (end_of_file ∈ cps) as Hin.
  { rewrite <-(take_drop pointer cps), Hd. set_solver. }
  rewrite forallb_forall in Hascii. apply list_elem_of_In in Hin. by apply Hascii in Hin.
Qed.

Lemma insert_middle (U V : list Z) n x y : n = length U → <[n := y]> (U ++ x :: V) = U ++ y :: V.
Proof. intros ->. by rewrite insert_app_r_alt, Nat.sub_diag by lia. Qed.

Lemma insert_next (X : list Z) z p :
  <[length X := p]> (X ++ replicate (S z) 0) = (X ++ [p]) ++ replicate z 0.
Proof. simpl. rewrite insert_middle by done. by rewrite <-app_assoc. Qed.

(** One iteration of the main loop on a printed piece. *)
Lemma ipv6_read_piece fuel X z p k pointer tail :
  (length X + S z = 8)%nat → is_u16 p → drop pointer cps = hex_of p ++ tail →
  match tail with [] => True | c :: rest => c = c_colon ∧ rest ≠ [] end →
  ipv6_main_loop (S fuel) cps (X ++ replicate (S z) 0) (length X) k pointer
  = ipv6_main_loop fuel cps ((X ++ [p]) ++ replicate z 0) (length (X ++ [p])) k
      (pointer + length (hex_of p) + 1 `min` length tail)%nat.
Proof.
  intros Hlen Hp Hd Htail. destruct (hex_of_printed p Hp) as [_ Hpr].
  pose proof (hex_of_length p Hp) as Hhl. pose proof (drop_app_next _ _ _ _ Hd) as Hnext.
  destruct (hex_of p) as [|c s] eqn:Ehex; [simpl in Hhl; lia|].
  pose proof (printed_digits _ _ _ Hpr) as Hdig. pose proof (printed_value _ _ _ Hpr) as Hval.
  assert (is_ascii_hex_digit c = true) as Hc.
  { simpl in Hdig. apply andb_prop in Hdig as [Hdig _]. by destruct (hex_digit_agrees c Hdig) as (? & ? & _). }
  remember (c :: s) as h eqn:Hh. cbn [ipv6_main_loop]. cbv zeta.
  rewrite (ipv6_c_drop cps pointer c (s ++ tail)) by (by rewrite Hd, Hh).
  rewrite (proj2 (Z.eqb_neq c end_of_file)) by (eapply drop_head_not_eof; by rewrite Hd, Hh).
  rewrite (proj2 (Nat.eqb_neq (length X) 8)) by lia.
  rewrite (proj2 (Z.eqb_neq c c_colon)) by (by intros ->).
  assert (is_ascii_hex_digit (ipv6_c cps (pointer + length h)) = false ∧
    (ipv6_c cps (pointer + length h) =? c_dot) = false) as [Hend Hdot].
  { destruct tail as [|t tail]; [by rewrite ipv6_c_end|].
    destruct Htail as [-> _]. by rewrite (ipv6_c_drop _ _ _ _ Hnext). }
  rewrite (ipv6_hex_digits_read h 5 cps 0 0 pointer tail) by (done || lia).
  cbn [mbind outcome_bind]. rewrite Hdot, Hval.
  unfold is_u16 in Hp. rewrite Z.mod_small by lia.
  rewrite set_index_lt by (rewrite length_app; simpl; lia). cbn [mbind outcome_bind].
  rewrite insert_next, (length_app X [p]). destruct tail as [|t tail].
  - rewrite ipv6_c_end by done. change (end_of_file =? c_colon) with false. by rewrite Nat.add_0_r.
  - destruct Htail as [-> Hrest]. rewrite (ipv6_c_drop _ _ _ _ Hnext).
    destruct tail as [|t tail]; [done|].
    pose proof (drop_app_next _ [c_colon] (t :: tail) _ Hnext) as Hnext'. cbn [length] in Hnext'.
    rewrite (ipv6_c_drop _ _ _ _ Hnext'), (proj2 (Z.eqb_neq t end_of_file))
      by (by eapply drop_head_not_eof).
    change (c_colon =? c_colon) with true. done.
Qed.

(** Pieces that are each followed by a colon and more input. *)
Lemma ipv6_read_colons A fuel X z k pointer rest :
  (length X + length A + z = 8)%nat → Forall is_u16 A → rest ≠ [] →
  drop pointer cps = render_colons A ++ rest →
  ipv6_main_loop (length A + fuel) cps (X ++ replicate (length A + z) 0) (length X) k pointer
  = ipv6_main_loop fuel cps ((X ++ A) ++ replicate z 0) (length (X ++ A)) k
      (pointer + length (render_colons A))%nat.
Proof.
  revert X pointer. induction A as [|p A IH]; intros X pointer Hlen HA Hrest Hd.
  { simpl. by rewrite !app_nil_r, Nat.add_0_r. }
  apply Forall_cons in HA as [Hp HA]. rewrite render_colons_cons in Hd |- *. simpl in Hlen.
  rewrite <-!app_assoc in Hd. cbn [length Nat.add].
  rewrite (ipv6_read_piece _ _ _ p _ _ (c_colon :: render_colons A ++ rest)); [|lia|done|done|].
  - rewrite IH; [|rewrite length_app; simpl; lia|done|done|].
    + rewrite <-(app_assoc X). cbn [app]. f_equal. rewrite !length_app. cbn [length]. lia.
    + apply drop_app_next, (drop_app_next _ [c_colon] (render_colons A ++ rest)) in Hd.
      rewrite <-Hd. done.
  - split; [done|]. by destruct (render_colons A).
Qed.

(** The pieces at the end of the input. *)
Lemma ipv6_read_last B fuel X z k pointer :
  (length X + length B + z = 8)%nat → Forall is_u16 B → drop pointer cps = render B →
  ipv6_main_loop (S (length B + fuel)) cps (X ++ replicate (length B + z) 0) (length X) k pointer
  = Returned (Some ((X ++ B) ++ replicate z 0, length (X ++ B), k)).
Proof.
  revert X pointer. induction B as [|p B IH]; intros X pointer Hlen HB Hd.
  { simpl in Hd |- *. rewrite ipv6_c_end by done. by rewrite app_nil_r. }
  apply Forall_cons in HB as [Hp HB]. simpl in Hlen. cbn [length Nat.add].
  assert (∃ tail, render (p :: B) = hex_of p ++ tail
    ∧ match tail with [] => B = [] | c :: rest => c = c_colon ∧ rest = render B ∧ B ≠ [] end)
    as (tail & Ht & Hrest).
  { destruct B; [exists []; by rewrite app_nil_r|by eexists]. }
  rewrite Ht in Hd. rewrite (ipv6_read_piece _ _ _ p _ _ tail); [|lia|done|done|].
  - rewrite IH; [by rewrite <-(app_assoc X)|rewrite length_app; simpl; lia|done|].
    apply drop_app_next in Hd. destruct tail as [|c tail].
    + subst. simpl. by rewrite Nat.add_0_r.
    + destruct Hrest as (-> & -> & _). apply (drop_app_next _ [c_colon] (render B)) in Hd.
      rewrite <-Hd. done.
  - destruct tail as [|c tail]; [done|]. destruct Hrest as (-> & -> & HBne). split; [done|].
    destruct B as [|q B]; [done|]. apply Forall_cons in HB as [Hq _].
    pose proof (hex_of_length q Hq). intros Hnil.
    assert (length (render (q :: B)) = 0)%nat as Hz by (by rewrite Hnil).
    destruct B; simpl in Hz; rewrite ?length_app in Hz; lia.
Qed.

End ReadPieces.

(** Moving the pieces after the compression to the end. *)
Lemma ipv6_swap_loop_moves B X Y z :
  (1 ≤ length X)%nat →
  ipv6_swap_loop (length B) (X ++ B ++ replicate z 0 ++ Y) (length X + length B + z - 1) (length X)
  = Returned (X ++ replicate z 0 ++ B ++ Y).
Proof.
  intros HX. revert Y. induction B as [|b B IH] using rev_ind; intros Y; [done|].
  rewrite length_app. simpl. rewrite Nat.add_1_r. cbn [ipv6_swap_loop].
  rewrite (proj2 (Nat.eqb_neq _ 0)) by lia. cbv zeta.
  replace (length X + S (length B) - 1)%nat with (length X + length B)%nat by lia.
  replace (length X + S (length B) + z - 1)%nat with (length X + length B + z)%nat by lia.
  set (l := X ++ (B ++ [b]) ++ replicate z 0 ++ Y).
  assert (l = (X ++ B) ++ b :: replicate z 0 ++ Y) as Hl by (unfold l; by rewrite <-!app_assoc).
  destruct z as [|z].
  - rewrite Nat.add_0_r. assert (l !! (length X + length B)%nat = Some b) as Hb.
    { rewrite Hl. apply list_lookup_middle. by rewrite length_app. }
    pose proof (lookup_lt_Some _ _ _ Hb). rewrite (at_index_lt _ _ _ Hb). cbn [mbind outcome_bind].
    rewrite set_index_lt by done. cbn [mbind outcome_bind].
    rewrite set_index_lt by (by rewrite length_insert). cbn [mbind outcome_bind].
    rewrite list_insert_insert_eq, list_insert_id by done.
    specialize (IH (b :: Y)). simpl in IH. rewrite Nat.add_0_r in IH. rewrite Hl. simpl.
    rewrite <-app_assoc, IH. by rewrite <-app_assoc.
  - assert (l = (X ++ B ++ b :: replicate z 0) ++ 0 :: Y) as Hl'.
    { rewrite Hl. rewrite (replicate_S_end z). by rewrite <-!app_assoc. }
    assert (l !! (length X + length B)%nat = Some b) as Hb.
    { rewrite Hl. apply list_lookup_middle. by rewrite length_app. }
    assert (l !! (length X + length B + S z)%nat = Some 0) as H0.
    { rewrite Hl'. apply list_lookup_middle. rewrite !length_app. simpl. rewrite length_replicate. lia. }
    pose proof (lookup_lt_Some _ _ _ Hb). pose proof (lookup_lt_Some _ _ _ H0).
    rewrite (at_index_lt _ _ _ H0). cbn [mbind outcome_bind].
    rewrite (at_index_lt _ _ _ Hb). cbn [mbind outcome_bind].
    rewrite set_index_lt by done. cbn [mbind outcome_bind].
    rewrite set_index_lt by (by rewrite length_insert). cbn [mbind outcome_bind].
    rewrite Hl', insert_middle by (rewrite !length_app; simpl; rewrite length_replicate; lia).
    rewrite <-!(app_assoc X), <-(app_assoc B), (app_assoc X). cbn [app].
    rewrite insert_middle by (by rewrite length_app). rewrite <-app_assoc.
    specialize (IH (b :: Y)). rewrite Nat.sub_1_r, Nat.add_succ_r. cbn [Nat.pred].
    rewrite Nat.sub_1_r, Nat.add_succ_r in IH. cbn [Nat.pred] in IH. cbn [replicate app] in IH.
    rewrite IH. cbn [replicate app]. by rewrite <-(app_assoc B).
Qed.

Lemma compress_result_split pieces k :
  length pieces = 8%nat → compress_result pieces = Some k →
  ∃ A R, pieces = A ++ 0 :: R ∧ length A = k.
Proof.
  intros Hlen Hk. pose proof (compress_result_longest pieces Hlen) as Hrun. rewrite Hk in Hrun.
  simpl in Hrun. apply andb_prop in Hrun as [H2 _]. bool_to_prop. unfold zero_run in H2.
  destruct (drop k pieces) as [|[] rest] eqn:Ed; simpl in H2; try lia.
  exists (take k pieces), rest. rewrite <-Ed, take_drop. split; [done|].
  rewrite length_take. assert (length (drop k pieces) ≠ 0)%nat as Hd by (by rewrite Ed).
  rewrite length_drop in Hd. lia.
Qed.

(** The serializer's output for eight pieces. *)
Lemma serialize_ipv6_uncompressed pieces out :
  length pieces = 8%nat → Forall is_u16 pieces → compress_result pieces = None →
  serialize_ipv6_address (ipv6_from_pieces pieces) out = Returned (out ++ render pieces).
Proof.
  intros Hlen Hps Hk. unfold serialize_ipv6_address. rewrite find_compressed_result by done.
  cbn [mbind outcome_bind]. rewrite Hk.
  pose proof (serialize_ipv6_tail pieces [] pieces None false out eq_refl Hlen Hps I) as Ht.
  by rewrite Hlen in Ht.
Qed.

Lemma serialize_ipv6_compressed A R out :
  let pieces := A ++ 0 :: R in
  length pieces = 8%nat → Forall is_u16 pieces → compress_result pieces = Some (length A) →
  serialize_ipv6_address (ipv6_from_pieces pieces) out
  = Returned (out ++ render_colons A ++ (if (length A =? 0)%nat then sv "::" else sv ":")
              ++ render (drop_zeros R)).
Proof.
  intros pieces Hlen Hps Hk. unfold serialize_ipv6_address. rewrite find_compressed_result by done.
  cbn [mbind outcome_bind]. rewrite Hk.
  assert (length A + length (0%Z :: R) = 8)%nat as Hl by (unfold pieces in Hlen; by rewrite length_app in Hlen).
  pose proof (serialize_ipv6_before pieces [] A (0 :: R) out eq_refl ltac:(done) Hlen Hps) as Hb.
  rewrite Hl in Hb. cbn [app length] in Hb. rewrite Hb. clear Hb. cbn [length] in Hl.
  pose proof (serialize_ipv6_tail pieces (A ++ [0]) R (Some (length A)) true
    ((out ++ render_colons A) ++ (if (length A =? 0)%nat then sv "::" else sv ":"))) as Ht.
  rewrite (length_app A [0]) in Ht. change (length [0]) with 1%nat in Ht.
  remember (S (length R)) as f eqn:Hf.
  cbn [serialize_ipv6_loop]. rewrite (proj2 (Nat.ltb_lt _ _)) by lia.
  rewrite (ipv6_piece_from_pieces _ _ 0) by (done || lia || by apply list_lookup_middle).
  cbn [mbind outcome_bind andb]. rewrite bool_decide_eq_true_2 by done.
  rewrite Ht; [by rewrite <-!app_assoc|by unfold pieces; rewrite <-app_assoc|done|done|simpl; lia].
Qed.

Lemma drop_zeros_split (R : list Z) : ∃ m, R = replicate m 0 ++ drop_zeros R.
Proof.
  induction R as [|[] R [m IH]]; [by exists 0%nat| |by exists 0%nat..].
  exists (S m). simpl. by rewrite IH at 1.
Qed.

(** The characters of a serialized address. *)
Definition ipv6_char (c : Z) : Prop := is_ascii_hex_digit c = true ∨ c = c_colon.

Lemma render_characters pieces : Forall is_u16 pieces →
  Forall ipv6_char (render pieces) ∧ Forall ipv6_char (render_colons pieces).
Proof.
  assert (∀ p, is_u16 p → Forall ipv6_char (hex_of p)) as Hhex.
  { intros p [_ Hpr]%hex_of_printed. apply printed_digits, forallb_Forall in Hpr.
    eapply Forall_impl; [done|]. intros c Hc. destruct (hex_digit_agrees c Hc) as (d & Hd & _). by left. }
  assert (ipv6_char c_colon) as Hcolon by (by right).
  induction 1 as [|p ps Hp Hps [IH1 IH2]]; [done|]. rewrite render_colons_cons.
  destruct ps as [|q ps]; cbn [render] in *; rewrite ?Forall_app, ?Forall_cons; auto 10.
Qed.

Lemma ipv6_characters_ascii s : Forall ipv6_char s → forallb is_ascii s = true.
Proof.
  intros Hs. apply forallb_Forall. eapply Forall_impl; [done|]. unfold ipv6_char. unfold_ctypes.
  intros c Hc. lia.
Qed.

Lemma render_ascii pieces : Forall is_u16 pieces →
  forallb is_ascii (render pieces) = true ∧ forallb is_ascii (render_colons pieces) = true.
Proof. intros [? ?]%render_characters. by split; apply ipv6_characters_ascii. Qed.

Lemma hex_of_head p tail : is_u16 p → (ipv6_c (hex_of p ++ tail) 0 =? c_colon) = false.
Proof.
  intros Hp. pose proof (hex_of_length p Hp). destruct (hex_of_printed p Hp) as [_ Hpr%printed_digits].
  destruct (hex_of p) as [|c s]; [simpl in *; lia|]. simpl in Hpr. apply andb_prop in Hpr as [Hc _].
  unfold ipv6_c. simpl. apply Z.eqb_neq. by intros ->.
Qed.

(** Steps 7 and 9 after the pieces [B] were read behind the compression. *)
Lemma ipv6_expand B X m :
  (1 ≤ length X)%nat → (length X + length B + m = 8)%nat →
  (swaps ← size_sub (length (X ++ B)) (length X);
   address ← ipv6_swap_loop swaps ((X ++ B) ++ replicate m 0) 7 (length X);
   Returned (Some (ipv6_from_pieces address)))
  = Returned (Some (ipv6_from_pieces (X ++ replicate m 0 ++ B))).
Proof.
  intros HX Hlen. rewrite length_app, size_sub_le by lia. cbn [mbind outcome_bind].
  replace (length X + length B - length X)%nat with (length B) by lia.
  pose proof (ipv6_swap_loop_moves B X [] m HX) as Hs. rewrite !app_nil_r in Hs.
  replace 7%nat with (length X + length B + m - 1)%nat by lia. by rewrite <-app_assoc, Hs.
Qed.

Lemma render_length pieces : Forall is_u16 pieces →
  (length pieces ≤ length (render pieces))%nat ∧ (length pieces ≤ length (render_colons pieces))%nat.
Proof.
  induction 1 as [|p ps Hp Hps [IH1 IH2]]; [done|]. rewrite render_colons_cons.
  pose proof (hex_of_length p Hp).
  destruct ps as [|q ps]; cbn [render length] in *; rewrite ?length_app; cbn [length]; lia.
Qed.

(** The end of the input, with the fuel of the parser. *)
Lemma ipv6_read_rest cps B X m k pointer fuel :
  forallb is_ascii cps = true → (length X + length B + m = 8)%nat → Forall is_u16 B →
  drop pointer cps = render B → (length (render B) < fuel)%nat →
  ipv6_main_loop fuel cps (X ++ replicate (length B + m) 0) (length X) k pointer
  = Returned (Some ((X ++ B) ++ replicate m 0, length (X ++ B), k)).
Proof.
  intros Hascii Hlen HB Hd Hf. pose proof (render_length B HB) as [HlB _].
  replace fuel with (S (length B + (fuel - S (length B)))) by lia. by apply ipv6_read_last.
Qed.

Lemma ipv6_parse_uncompressed pieces :
  length pieces = 8%nat → Forall is_u16 pieces →
  parse_ipv6_address (render pieces) = Returned (Some (ipv6_from_pieces pieces)).
Proof.
  intros Hlen Hps. destruct (render_ascii pieces Hps) as [Hascii _].
  unfold parse_ipv6_address. cbv zeta. rewrite code_points_ascii by done.
  assert ((ipv6_c (render pieces) 0 =? c_colon) = false) as ->.
  { destruct pieces as [|p [|q ps]]; [done..|]. apply hex_of_head. by apply Forall_cons in Hps as [? _]. }
  cbn [andb].
  pose proof (ipv6_read_rest (render pieces) pieces [] 0 None 0 (S (length (render pieces)))
    Hascii ltac:(simpl; lia) Hps eq_refl ltac:(lia)) as Hr.
  rewrite Nat.add_0_r, Hlen in Hr. change (length (@nil Z)) with 0%nat in Hr. cbn [app] in Hr.
  rewrite Hr. cbn [mbind outcome_bind]. rewrite Hlen. simpl. by rewrite app_nil_r.
Qed.

Lemma ipv6_parse_compressed_first m B :
  (S (m + length B) = 8)%nat → Forall is_u16 B →
  parse_ipv6_address (sv "::" ++ render B)
  = Returned (Some (ipv6_from_pieces (0 :: replicate m 0 ++ B))).
Proof.
  intros Hlen HB. destruct (render_ascii B HB) as [Hascii _].
  unfold parse_ipv6_address. cbv zeta. rewrite code_points_ascii by done.
  change (ipv6_c (sv "::" ++ render B) 0) with c_colon. change (c_colon =? c_colon) with true.
  change (ipv6_remaining (sv "::" ++ render B) 0) with (c_colon :: render B).
  rewrite bool_decide_eq_true_2 by done. cbn [andb negb].
  change (replicate 8 0) with ([0] ++ replicate 7 0).
  replace 7%nat with (length B + m)%nat at 1 by lia. change 1%nat with (length [0]) at 1.
  rewrite (ipv6_read_rest (sv "::" ++ render B) B [0] m (Some 1%nat) 2)
    by (done || simpl; lia). cbn [mbind outcome_bind].
  change (Some 1%nat) with (Some (length [0])). apply (ipv6_expand B [0] m); simpl; lia.
Qed.

Lemma ipv6_parse_compressed_later A m B :
  A ≠ [] → (length A + S (m + length B) = 8)%nat → Forall is_u16 A → Forall is_u16 B →
  parse_ipv6_address (render_colons A ++ sv ":" ++ render B)
  = Returned (Some (ipv6_from_pieces (A ++ 0 :: replicate m 0 ++ B))).
Proof.
  intros HA Hlen HAs HB. destruct (render_ascii B HB) as [HasciiB _].
  destruct (render_ascii A HAs) as [_ HasciiA]. pose proof (render_length A HAs) as [_ HlA].
  set (cps := render_colons A ++ sv ":" ++ render B).
  assert (forallb is_ascii cps = true) as Hascii by (unfold cps; by rewrite !forallb_app, HasciiA, HasciiB).
  unfold parse_ipv6_address. cbv zeta. rewrite code_points_ascii by done.
  assert ((ipv6_c cps 0 =? c_colon) = false) as ->.
  { unfold cps. destruct A as [|p A]; [done|]. rewrite render_colons_cons, <-app_assoc.
    apply hex_of_head. by apply Forall_cons in HAs as [? _]. }
  cbn [andb].
  assert (drop (length (render_colons A)) cps = c_colon :: render B) as Hd by (apply drop_app_length).
  pose proof (drop_app_next _ [c_colon] (render B) _ Hd) as Hd'.
  assert (length cps = length (render_colons A) + S (length (render B)))%nat as Hcl.
  { unfold cps. by rewrite length_app. }
  pose proof (ipv6_read_colons cps Hascii A (S (S (length cps) - S (length A))) [] (S (m + length B)) None 0
    (c_colon :: render B) ltac:(simpl; lia) HAs ltac:(done) eq_refl) as Hr.
  replace (length A + S (S (length cps) - S (length A)))%nat with (S (length cps)) in Hr by lia.
  rewrite Hlen in Hr. change (length (@nil Z)) with 0%nat in Hr. cbn [app Nat.add] in Hr. rewrite Hr. clear Hr.
  remember (S (length cps) - S (length A))%nat as fuel eqn:Hfuel.
  cbn [ipv6_main_loop]. cbv zeta. rewrite (ipv6_c_drop _ _ _ _ Hd).
  rewrite (proj2 (Nat.eqb_neq (length A) 8)) by lia.
  change (c_colon =? end_of_file) with false. change (c_colon =? c_colon) with true.
  rewrite bool_decide_eq_false_2 by (by intros [? ?]). cbv iota.
  assert (length A + 1 = length (A ++ [0%Z]))%nat as -> by (by rewrite length_app).
  assert (A ++ replicate (S (m + length B)) 0 = (A ++ [0]) ++ replicate (length B + m) 0) as ->.
  { rewrite <-app_assoc. simpl. do 3 f_equal. lia. }
  rewrite (ipv6_read_rest cps B (A ++ [0]) m)
    by (done || rewrite ?length_app; simpl; lia). cbn [mbind outcome_bind].
  rewrite ipv6_expand by (rewrite length_app; simpl; lia). by rewrite <-app_assoc.
Qed.

Lemma ipv6_parse_serialized (m_data : bytes) :
  length m_data = 16%nat → Forall is_byte m_data →
  ∃ s, (∀ out, serialize_ipv6_address m_data out = Returned (out ++ s))
    ∧ parse_ipv6_address s = Returned (Some m_data) ∧ Forall ipv6_char s.
Proof.
  intros Hlen Hb.
  destruct (ipv6_pieces_exist m_data Hlen Hb) as (pieces & -> & Hp8 & Hps). clear Hlen Hb.
  destruct (compress_result pieces) as [k|] eqn:Hk.
  2:{ eexists. split_and!; [intros out; by apply serialize_ipv6_uncompressed|
        by apply ipv6_parse_uncompressed|by apply render_characters]. }
  destruct (compress_result_split _ _ Hp8 Hk) as (A & R & -> & <-).
  eexists. split; [intros out; by apply serialize_ipv6_compressed|].
  destruct (drop_zeros_split R) as [m HR].
  apply Forall_app in Hps as [HA [_ HRs]%Forall_cons]. rewrite HR in HRs. apply Forall_app in HRs as [_ HB].
  rewrite HR, length_app in Hp8. simpl in Hp8. rewrite length_app, length_replicate in Hp8. split.
  - rewrite HR at 2. destruct A as [|p A].
    + by apply ipv6_parse_compressed_first.
    + by apply ipv6_parse_compressed_later.
  - rewrite !Forall_app. split_and!; [by apply render_characters| |by apply render_characters].
    case_match; repeat constructor; by right.
Qed.

(** parsing a serialized IPv6 address gives the address back, for every
    16-byte address: whatever run of zero pieces the serializer compressed, the
    parser expands it again. *)
Theorem ipv6_roundtrip (m_data : bytes) (Hlen : length m_data = 16%nat) (Hb : Forall is_byte m_data) :
  (serialize_ipv6_address m_data [] ≫= parse_ipv6_address) = Returned (Some m_data).
Proof. by destruct (ipv6_parse_serialized m_data Hlen Hb) as (s & -> & Hs & _). Qed.

Lemma ipv6_roundtrip_witness :
  length (sv "................") = 16%nat ∧
  (serialize_ipv6_address (sv "................") [] ≫= parse_ipv6_address)
    = Returned (Some (sv "................")).
Proof.
  split; [reflexivity|]. apply (ipv6_roundtrip (sv "................")); [reflexivity|apply sv_bytes].
Defined.
