(* ===== verification/Host.v ===== *)
(** * Hosts

    The host parser of LibURL/Parser.cpp with its code point classes, the
    opaque-host parser, the ends-in-a-number checker and domain to ASCII;
    [Unicode::IDNA::to_ascii] of LibUnicode/IDNA.cpp; the [Host] class of
    LibURL/Host.{h,cpp}, without the public suffix operations. *)
From S2P Require Import Prelude CharacterTypes Externals Utf8 StringView Format PercentEncoding Ipv4 Ipv6.

(** ** Code point classes *)
Definition forbidden_host_code_points : bytes :=
  Eval compute in [0x00; 0x09; 0x0A; 0x0D] ++ sv " #/:<>?@[\]^|".

Definition is_forbidden_host_code_point (code_point : Z) : outcome bool :=
  contains_code_point forbidden_host_code_points code_point.

Definition is_forbidden_domain_code_point (code_point : Z) : outcome bool :=
  forbidden_host ← is_forbidden_host_code_point code_point;
  Returned (forbidden_host || is_ascii_c0_control code_point
            || (code_point =? c_percent) || (code_point =? 0x7F)).

Definition url_code_point_punctuation : bytes := Eval compute in sv "!$&'()*+,-./:;=?@_~".

Definition is_url_code_point (code_point : Z) : outcome bool :=
  punctuation ← contains_code_point url_code_point_punctuation code_point;
  Returned (is_ascii_alphanumeric code_point || punctuation
    || ((0xA0 <=? code_point) && (code_point <=? 0x10FFFD)
        && negb (is_unicode_surrogate code_point) && negb (is_unicode_noncharacter code_point))).

(** ** LibURL/Host.h: [Variant<IPv4Address, IPv6Address, String>] *)
Inductive Host :=
| HostIPv4 (address : Z)
| HostIPv6 (m_data : bytes)
| HostString (string : bytes).

#[global] Instance Host_eq_dec : EqDecision Host.
Proof. solve_decision. Defined.

Definition is_domain (host : Host) : bool :=
  match host with HostString s => negb (bool_decide (s = [])) | _ => false end.

Definition is_empty_host (host : Host) : bool :=
  match host with HostString s => bool_decide (s = []) | _ => false end.

(** [Host::serialize] *)
Definition host_serialize (host : Host) : outcome bytes :=
  match host with
  | HostIPv4 address => serialize_ipv4_address address
  | HostIPv6 address => output ← serialize_ipv6_address address [c_lbracket]; Returned (output ++ [c_rbracket])
  | HostString string => Returned string
  end.

(** ** LibUnicode/IDNA *)
Record ToAsciiOptions := mk_to_ascii_options {
  check_hyphens : bool;
  check_bidi : bool;
  check_joiners : bool;
  use_std3_ascii_rules : bool;
  transitional_processing : bool;
  verify_dns_length : bool;
  ignore_invalid_punycode : bool;
}.

Section Idna.
Context `{Simdutf} `{Icu}.

Definition icu_options (options : ToAsciiOptions) : Z :=
  let o := 0 in
  let o := if check_bidi options then Z.lor o UIDNA_CHECK_BIDI else o in
  let o := if check_joiners options then Z.lor o UIDNA_CHECK_CONTEXTJ else o in
  let o := if use_std3_ascii_rules options then Z.lor o UIDNA_USE_STD3_RULES else o in
  if negb (transitional_processing options)
  then Z.lor o (Z.lor UIDNA_NONTRANSITIONAL_TO_ASCII UIDNA_NONTRANSITIONAL_TO_UNICODE) else o.

(** The error bits that count under the given options. *)
Definition icu_relevant_errors (options : ToAsciiOptions) (errors : Z) : Z :=
  let e := errors in
  let e := if negb (check_hyphens options)
           then Z.land (Z.land (Z.land e (Z.lnot UIDNA_ERROR_HYPHEN_3_4)) (Z.lnot UIDNA_ERROR_LEADING_HYPHEN))
                  (Z.lnot UIDNA_ERROR_TRAILING_HYPHEN)
           else e in
  let e := if negb (verify_dns_length options)
           then Z.land (Z.land (Z.land e (Z.lnot UIDNA_ERROR_EMPTY_LABEL)) (Z.lnot UIDNA_ERROR_LABEL_TOO_LONG))
                  (Z.lnot UIDNA_ERROR_DOMAIN_NAME_TOO_LONG)
           else e in
  if ignore_invalid_punycode options then Z.land e (Z.lnot UIDNA_ERROR_PUNYCODE) else e.

(** [Unicode::IDNA::to_ascii]; [None] is an [Error]. *)
Definition to_ascii (domain_name : bytes) (options : ToAsciiOptions) : outcome (option bytes) :=
  match name_to_ascii (icu_options options) domain_name with
  | None => Returned None
  | Some (builder, errors) =>
      if negb (icu_relevant_errors options errors =? 0) then Returned None
      else from_utf8 builder
  end.

End Idna.

(** ** The host parser *)
Section HostParser.
Context `{Simdutf} `{FastFloat} `{Icu}.

(** Whether a predicate holds of some element, testing them in order. *)
Fixpoint any_code_point (f : Z → outcome bool) (cps : list Z) : outcome bool :=
  match cps with
  | [] => Returned false
  | c :: cps => found ← f c; if (found : bool) then Returned true else any_code_point f cps
  end.

Definition parse_opaque_host (input : bytes) : outcome (option Host) :=
  forbidden ← any_code_point is_forbidden_host_code_point (code_points input);
  if (forbidden : bool) then Returned None
  else encoded ← percent_encode input C0Control SpaceAsPlusNo; Returned (Some (HostString encoded)).

Definition ends_in_a_number_checker (input : bytes) : outcome bool :=
  parts ← split_view input (sv ".") SplitKeepEmpty;
  last_part ← must (last parts);
  if bool_decide (last_part = []) && (length parts =? 1)%nat then Returned false
  else
    let parts := if bool_decide (last_part = []) then take (length parts - 1) parts else parts in
    last_part ← must (last parts);
    if negb (bool_decide (last_part = [])) && forallb is_ascii_digit last_part then Returned true
    else if starts_with last_part (sv "0x") CaseInsensitive then
      rest ← substring_view_from last_part 2;
      Returned (forallb is_ascii_hex_digit rest)
    else Returned false.

(** [None] is an [Error]. *)
Definition domain_to_ascii (domain : bytes) (be_strict : bool) : outcome (option bytes) :=
  let with_idna :=
    let options := mk_to_ascii_options be_strict true true be_strict false be_strict false in
    result ← to_ascii domain options;
    match result with
    | None => Returned None
    | Some result => if bool_decide (result = []) then Returned None else Returned (Some result)
    end in
  if negb be_strict && sv_is_ascii domain then
    if bool_decide (domain = []) then Returned None
    else
      parts ← split_view domain (sv ".") SplitNothing;
      let slow_path := existsb (λ part, starts_with part (sv "xn--") CaseInsensitive) parts in
      if negb slow_path then Some <$> to_ascii_lowercase_string domain else with_idna
  else with_idna.

Definition parse_host (input : bytes) (is_opaque : bool) : outcome (option Host) :=
  if starts_with_char input c_lbracket then
    if negb (ends_with_char input c_rbracket) then Returned None
    else
      len ← size_sub (length input) 2;
      inner ← substring_view input 1 len;
      address ← parse_ipv6_address inner;
      Returned (option_map HostIPv6 address)
  else if is_opaque then parse_opaque_host input
  else
    verify (negb (bool_decide (input = []))) (
      domain ← percent_decode input;
      ascii_domain_or_error ← domain_to_ascii domain false;
      match ascii_domain_or_error with
      | None => Returned None
      | Some ascii_domain =>
          forbidden ← any_code_point (λ c, is_forbidden_domain_code_point (u32_of_char c)) ascii_domain;
          if (forbidden : bool) then Returned None
          else
            in_a_number ← ends_in_a_number_checker ascii_domain;
            if (in_a_number : bool) then
              ipv4_host ← parse_ipv4_address ascii_domain;
              Returned (option_map HostIPv4 ipv4_host)
            else Returned (Some (HostString ascii_domain))
      end).

End HostParser.

(** ** Code point classes as predicates *)
Definition forbidden_host (c : Z) : bool := contains_char forbidden_host_code_points c.

Definition forbidden_domain (c : Z) : bool :=
  forbidden_host c || is_ascii_c0_control c || (c =? c_percent) || (c =? 0x7F).

Lemma code_point_needle c :
  0 ≤ c → (0 < length (append_code_point [] c) < 32)%nat ∧
  (c < 0x80 → append_code_point [] c = [c]) ∧
  (0x80 ≤ c → ∃ b rest, append_code_point [] c = b :: rest ∧ 0x80 ≤ b ∧ rest ≠ []).
Proof.
  intros Hc. unfold append_code_point, is_unicode. cbn [app].
  destruct (Z.leb_spec c 0x10FFFF).
  - rewrite code_point_to_utf8_arith by lia. unfold utf8_form.
    split_and!; intros; repeat case_match; bool_to_prop; simpl; try lia; eauto;
      eexists _, _; (split_and!; [done|div_lia|done]).
  - split_and!; intros; [vm_compute; lia..|lia|]. vm_compute. eexists _, _. by split_and!.
Qed.

Lemma first_occurrence_absent (str : bytes) b rest :
  b ∉ str → first_occurrence str (b :: rest) = None.
Proof.
  induction str as [|x str IH]; [done|]. rewrite not_elem_of_cons. intros [Hx Hs].
  cbn [first_occurrence length take]. rewrite bool_decide_eq_false_2 by congruence. by rewrite IH.
Qed.

(** Looking a code point up in an ASCII string. *)
Lemma contains_code_point_ascii str c :
  forallb is_ascii str = true → 0 ≤ c → contains_code_point str c = Returned (contains_char str c).
Proof.
  intros Hstr Hc. unfold contains_code_point, contains_view.
  destruct (code_point_needle c Hc) as (Hlen & Hlow & Hhigh).
  destruct (Z.lt_ge_cases c 0x80) as [Hlt|Hge]; [by rewrite Hlow|].
  destruct (Hhigh Hge) as (b & [|r rest] & Hn & Hb & Hr); [done|]. rewrite Hn in Hlen |- *.
  assert (∀ x, 0x80 ≤ x → x ∉ str) as Hno.
  { intros x Hx Hin%list_elem_of_In. rewrite forallb_forall in Hstr. apply Hstr in Hin.
    unfold_ctypes. lia. }
  assert (contains_char str c = false) as ->.
  { unfold contains_char. apply existsb_false_Forall, Forall_forall. intros x Hx.
    apply Z.eqb_neq. intros <-. by apply (Hno c). }
  unfold stringutils_contains. destruct str as [|x str]; [done|].
  case_match; [done|]. rewrite memmem_first by lia. cbn [mbind outcome_bind].
  rewrite first_occurrence_absent by (by apply Hno). done.
Qed.

Lemma is_forbidden_host_spec c : 0 ≤ c → is_forbidden_host_code_point c = Returned (forbidden_host c).
Proof. by apply contains_code_point_ascii. Qed.

Lemma is_forbidden_domain_spec c :
  is_byte c → is_forbidden_domain_code_point (u32_of_char c) = Returned (forbidden_domain c).
Proof.
  intros Hc. unfold is_forbidden_domain_code_point. unfold is_byte in Hc.
  assert (0 ≤ u32_of_char c) by (unfold u32_of_char; case_match; lia).
  rewrite is_forbidden_host_spec by done. cbn [mbind outcome_bind]. f_equal.
  unfold u32_of_char. destruct (Z.ltb_spec c 0x80) as [|Hge]; [done|].
  assert (∀ x, 0x80 ≤ x → forbidden_domain x = false) as Hf.
  { intros x Hx. unfold forbidden_domain, forbidden_host, contains_char.
    rewrite (proj2 (existsb_false_Forall _ _)); [unfold_ctypes; lia|].
    repeat (constructor; [lia|]). constructor. }
  change (forbidden_domain (c + 0xFFFFFF00) = forbidden_domain c). by rewrite !Hf by lia.
Qed.

Lemma any_code_point_spec f g cps :
  Forall (λ c, f c = Returned (g c)) cps → any_code_point f cps = Returned (existsb g cps).
Proof.
  induction 1 as [|c cps Hc Hcps IH]; [done|]. cbn [any_code_point existsb]. rewrite Hc.
  cbn [mbind outcome_bind]. by destruct (g c).
Qed.

(** ** The ends-in-a-number checker *)
Definition is_number_label (label : bytes) : bool :=
  (negb (bool_decide (label = [])) && forallb is_ascii_digit label)
  || (starts_with label (sv "0x") CaseInsensitive && forallb is_ascii_hex_digit (drop 2 label)).

Definition ends_in_number (s : bytes) : bool :=
  match last (ipv4_parts s) with Some label => is_number_label label | None => false end.

Lemma starts_with_length str start cs :
  starts_with str start cs = true → (length start ≤ length str)%nat.
Proof.
  unfold starts_with. destruct start; [simpl; lia|]. destruct str; [done|].
  case_match eqn:E; [done|]. by bool_to_prop.
Qed.

Lemma ends_in_a_number_spec s : s ≠ [] → ends_in_a_number_checker s = Returned (ends_in_number s).
Proof.
  intros Hs. unfold ends_in_a_number_checker. change (sv ".") with [c_dot].
  rewrite split_view_char by done. cbn [mbind outcome_bind].
  pose proof (ipv4_parts_nonempty s) as Hne. unfold ends_in_number, ipv4_parts in *.
  set (parts := split_on c_dot s) in *.
  destruct (last parts) as [lp|] eqn:El.
  2:{ apply last_None in El. by apply split_on_nonempty in El. }
  cbn [must mbind outcome_bind].
  assert (bool_decide (Some lp = Some []) = bool_decide (lp = [])) as Heq
    by (apply bool_decide_ext; naive_solver). rewrite Heq in *.
  destruct (bool_decide (lp = []) && (length parts =? 1)%nat) eqn:E1; bool_to_prop.
  { subst lp. exfalso. destruct s as [|x s]; [done|]. unfold parts in *. cbn [split_on] in *.
    pose proof (split_on_nonempty c_dot s). destruct (x =? c_dot), (split_on c_dot s) as [|p [|]]; done. }
  assert ((if bool_decide (lp = []) then take (length parts - 1) parts else parts) =
    (if bool_decide (lp = []) && (1 <? length parts)%nat then take (length parts - 1) parts else parts)) as ->.
  { assert (length parts ≠ 0)%nat by (intros ?%nil_length_inv; by apply split_on_nonempty in H).
    destruct (bool_decide (lp = [])); [|done]. cbn [andb] in *. bool_to_prop.
    by rewrite (proj2 (Nat.ltb_lt _ _)) by lia. }
  set (ps := if bool_decide (lp = []) && (1 <? length parts)%nat then _ else _) in *.
  destruct (last ps) as [label|] eqn:Elabel; [|by apply last_None in Elabel].
  cbn [must mbind outcome_bind]. unfold is_number_label.
  destruct (negb (bool_decide (label = [])) && forallb is_ascii_digit label); [done|]. cbn [orb].
  destruct (starts_with label (sv "0x") CaseInsensitive) eqn:E0x; [|done].
  apply starts_with_length in E0x. rewrite substring_view_from_in_range by done. done.
Qed.

(** ** Domain to ASCII *)
Definition ascii_byte (b : Z) : Prop := 0 ≤ b < 0x80.

Definition has_xn_label (domain : bytes) : bool :=
  existsb (λ label, starts_with label (sv "xn--") CaseInsensitive) (split_on c_dot domain).

Section DomainToAscii.
Context `{SimdutfOk} `{FastFloat} `{Icu}.

Lemma sv_is_ascii_spec s : sv_is_ascii s = forallb is_ascii s.
Proof. unfold sv_is_ascii. destruct s; [done|]. apply validate_ascii_spec. Qed.

Lemma from_utf8_returns s : ∃ b : bool, from_utf8 s = Returned (if b then Some s else None).
Proof.
  unfold from_utf8, utf8_validate.
  destruct (validate_fuel_returns (S (length s)) s AllowYes) as [[b n] ->]; [lia|].
  exists b. by destruct b.
Qed.

(** The fast path. *)
Lemma domain_to_ascii_fast domain :
  domain ≠ [] → forallb is_ascii domain = true → has_xn_label domain = false →
  domain_to_ascii domain false = Returned (Some (to_ascii_lowercase <$> domain)).
Proof.
  intros Hne Hascii Hxn. unfold domain_to_ascii. rewrite sv_is_ascii_spec, Hascii. cbn [negb andb].
  rewrite bool_decide_eq_false_2 by done. change (sv ".") with [c_dot].
  rewrite split_view_char by done. cbn [mbind outcome_bind]. unfold has_xn_label in Hxn.
  apply existsb_false_Forall in Hxn. rewrite Forall_forall in Hxn.
  rewrite (proj2 (existsb_false_Forall _ _)) by
    (apply Forall_forall; intros part [_ Hin]%list_elem_of_filter; by apply Hxn).
  cbn [negb]. unfold to_ascii_lowercase_string. by rewrite utf8_validate_ascii.
Qed.

Lemma icu_relevant_errors_lax errors :
  icu_relevant_errors (mk_to_ascii_options false true true false false false false) errors
  = Z.land errors (Z.lnot icu_length_and_hyphen_errors).
Proof.
  unfold icu_relevant_errors, icu_length_and_hyphen_errors. cbn.
  by rewrite !Z.lnot_lor, !Z.land_assoc.
Qed.

Lemma domain_to_ascii_returns `{!IcuOk} domain :
  Forall is_byte domain →
  ∃ r, domain_to_ascii domain false = Returned r ∧
    ∀ out, r = Some out → out ≠ [] ∧ Forall ascii_byte out.
Proof.
  intros Hb. unfold domain_to_ascii. cbn [negb andb]. rewrite sv_is_ascii_spec.
  set (with_idna := to_ascii _ _ ≫= _).
  assert (∃ r, with_idna = Returned r ∧ ∀ out, r = Some out → out ≠ [] ∧ Forall ascii_byte out) as Hidna.
  { unfold with_idna, to_ascii.
    destruct (name_to_ascii _ _) as [[builder errors]|] eqn:Eicu; [|by eexists].
    case_match eqn:Eerr; [by eexists|]. bool_to_prop. rewrite icu_relevant_errors_lax in Eerr.
    destruct (from_utf8_returns builder) as [[] ->]; cbn [mbind outcome_bind]; [|by eexists].
    case_bool_decide; [by eexists|]. eexists. split; [done|]. intros out [= <-].
    split; [done|]. by eapply name_to_ascii_ascii. }
  destruct (forallb is_ascii domain) eqn:Hascii; [|done].
  case_bool_decide as Hne; [by eexists|]. change (sv ".") with [c_dot].
  rewrite split_view_char by done. cbn [mbind outcome_bind]. case_match; [|done].
  unfold to_ascii_lowercase_string. rewrite utf8_validate_ascii by done.
  eexists. split; [done|]. intros out [= <-]. split; [by destruct domain|].
  apply Forall_fmap. rewrite forallb_forall in Hascii. apply Forall_forall. intros b Hin.
  rewrite Forall_forall in Hb. specialize (Hb b Hin). apply list_elem_of_In, Hascii in Hin.
  unfold ascii_byte, to_ascii_lowercase, is_byte in *. simpl. unfold_ctypes. case_match; lia.
Qed.

End DomainToAscii.

(** ** What the host parser produces *)
Definition host_wf (is_opaque : bool) (h : Host) : Prop :=
  match h with
  | HostIPv4 address => is_opaque = false ∧ 0 ≤ address < 2 ^ 32
  | HostIPv6 m_data => length m_data = 16%nat ∧ Forall is_byte m_data
  | HostString s =>
      if is_opaque then
        Forall (encoded_byte C0Control) s ∧ Forall (λ c, forbidden_host c = false) s
      else
        s ≠ [] ∧ Forall ascii_byte s ∧ Forall (λ c, forbidden_domain c = false) s
        ∧ ends_in_number s = false
  end.

Lemma pct_not_forbidden b : is_byte b → Forall (λ c, forbidden_host c = false) (pct b).
Proof.
  unfold is_byte. intros Hb. unfold pct.
  assert (∀ d, 0 ≤ d < 16 → forbidden_host (lookup_digit true d) = false) as Hd.
  { intros d Hd. rewrite <-(Z2Nat.id d) by lia. assert (Z.to_nat d < 16)%nat as Hn by lia. revert Hn.
    generalize (Z.to_nat d). intros n Hn. do 16 (destruct n as [|n]; [done|]). lia. }
  repeat constructor; [apply Hd; div_lia..].
Qed.

Lemma encode_not_forbidden set cps :
  Forall (λ c, 0 ≤ c ≤ 0x10FFFF) cps → Forall (λ c, forbidden_host c = false) cps →
  Forall (λ c, forbidden_host c = false) (flat_map (encode_code_point set) cps).
Proof.
  intros Hr. induction Hr as [|c cps Hc Hr IH]; intros Hf; [done|].
  apply Forall_cons in Hf as [Hfc Hf]. cbn [flat_map]. apply Forall_app. split; [|by apply IH].
  unfold encode_code_point. case_match; [|by apply Forall_singleton].
  pose proof (code_point_to_utf8_bytes c Hc) as Hb. induction Hb; cbn [flat_map]; [done|].
  apply Forall_app. split; [by apply pct_not_forbidden|done].
Qed.

Section ParseHost.
Context `{SimdutfOk} `{FastFloatOk} `{Icu}.

Lemma parse_opaque_host_returns input :
  Forall is_byte input →
  parse_opaque_host input = Returned (
    if existsb forbidden_host (code_points input) then None
    else Some (HostString (flat_map (encode_code_point C0Control) (code_points input)))).
Proof.
  intros Hi. pose proof (code_points_range input Hi) as Hr. unfold parse_opaque_host.
  rewrite (any_code_point_spec _ forbidden_host)
    by (eapply Forall_impl; [done|]; intros c [? ?]; apply is_forbidden_host_spec; lia).
  cbn [mbind outcome_bind]. case_match; [done|]. by rewrite percent_encode_spec.
Qed.

(** The part of the parser after domain to ASCII. *)
Lemma parse_ascii_domain_returns ascii_domain :
  ascii_domain ≠ [] → Forall ascii_byte ascii_domain →
  (forbidden ← any_code_point (λ c, is_forbidden_domain_code_point (u32_of_char c)) ascii_domain;
   if (forbidden : bool) then Returned None
   else
     in_a_number ← ends_in_a_number_checker ascii_domain;
     if (in_a_number : bool) then
       ipv4_host ← parse_ipv4_address ascii_domain;
       Returned (option_map HostIPv4 ipv4_host)
     else Returned (Some (HostString ascii_domain)))
  = Returned (
      if existsb forbidden_domain ascii_domain then None
      else if ends_in_number ascii_domain then option_map HostIPv4 (ipv4_reference ascii_domain)
      else Some (HostString ascii_domain)).
Proof.
  intros Hne Hascii.
  rewrite (any_code_point_spec _ forbidden_domain).
  2:{ eapply Forall_impl; [done|]. intros c Hc. apply is_forbidden_domain_spec.
      unfold ascii_byte, is_byte in *. lia. }
  cbn [mbind outcome_bind]. case_match; [done|].
  rewrite ends_in_a_number_spec by done. cbn [mbind outcome_bind]. case_match; [|done].
  by rewrite (proj1 (parse_ipv4_address_spec ascii_domain Hne)).
Qed.

Lemma parse_host_returns `{!IcuOk} input is_opaque :
  Forall is_byte input → (is_opaque = false → input ≠ []) →
  ∃ r, parse_host input is_opaque = Returned r ∧ ∀ h, r = Some h → host_wf is_opaque h.
Proof.
  intros Hi Hne. unfold parse_host.
  destruct (starts_with_char input c_lbracket) eqn:Eb.
  { case_match eqn:Ee; [by eexists|]. bool_to_prop.
    assert (2 ≤ length input)%nat.
    { unfold ends_with_char in Ee. destruct input as [|a [|b input]]; [done| |simpl; lia].
      cbn [starts_with_char last] in *. bool_to_prop. lia. }
    rewrite size_sub_le by done. cbn [mbind outcome_bind].
    rewrite substring_view_in_range by lia. cbn [mbind outcome_bind].
    destruct (parse_ipv6_address_returns (take (length input - 2) (drop 1 input))) as ([a|] & -> & Ha);
      cbn [mbind outcome_bind option_map]; [|by eexists].
    eexists. split; [done|]. intros h [= <-]. by apply Ha. }
  destruct is_opaque.
  { rewrite parse_opaque_host_returns by done. case_match eqn:Ef; [by eexists|].
    eexists. split; [done|]. intros h [= <-]. apply existsb_false_Forall in Ef.
    pose proof (code_points_range input Hi). split; [by apply encoded_all|by apply encode_not_forbidden]. }
  specialize (Hne eq_refl). rewrite verify_true by (by rewrite bool_decide_eq_false_2).
  destruct (percent_decode_returns input Hi) as (domain & -> & Hdomain). cbn [mbind outcome_bind].
  destruct (domain_to_ascii_returns domain Hdomain) as ([a|] & -> & Ha); cbn [mbind outcome_bind]; [|by eexists].
  destruct (Ha a eq_refl) as [Hane Haascii]. rewrite parse_ascii_domain_returns by done.
  case_match eqn:Ef; [by eexists|]. case_match eqn:En.
  - pose proof (parse_ipv4_address_spec a Hane) as [_ Hr].
    destruct (ipv4_reference a) as [v|]; [|by eexists]. eexists. split; [done|].
    intros h [= <-]. split; [done|]. by apply Hr.
  - eexists. split; [done|]. intros h [= <-]. apply existsb_false_Forall in Ef. done.
Qed.

(** the host parser returns on every input it may be called with (opaque
    hosts, and non-empty inputs otherwise), without a failed VERIFY and within
    its fuel, and a host it accepts is well-formed: an IPv4 address below 2^32,
    an IPv6 address of 16 bytes, an opaque host that is percent-encoded and has
    no forbidden host code point, or a non-empty ASCII domain without forbidden
    domain code points that does not end in a number. *)
Theorem parse_host_wf `{!IcuOk} (input : bytes) (is_opaque : bool)
    (Hi : Forall is_byte input) (Hne : is_opaque = false → input ≠ []) :
  ∃ r, parse_host input is_opaque = Returned r ∧ ∀ h, r = Some h → host_wf is_opaque h.
Proof. by apply parse_host_returns. Qed.

(** ** Serialized hosts are parsed back *)

(** A domain the fast path of domain to ASCII leaves alone. *)
Definition canonical_host (is_opaque : bool) (h : Host) : Prop :=
  host_wf is_opaque h ∧
  match h with
  | HostString s =>
      is_opaque = false → Forall (λ c, to_ascii_lowercase c = c) s ∧ has_xn_label s = false
  | _ => True
  end.

Lemma lowercase_id s : Forall (λ c, to_ascii_lowercase c = c) s → to_ascii_lowercase <$> s = s.
Proof. induction 1; [done|]. cbn [fmap list_fmap]. by f_equal. Qed.

Lemma forallb_ascii s : Forall ascii_byte s → forallb is_ascii s = true.
Proof. intros Hs. apply forallb_Forall. eapply Forall_impl; [done|]. intros b []. unfold_ctypes. lia. Qed.

Lemma not_forbidden_plain s :
  Forall (λ c, forbidden_domain c = false) s →
  starts_with_char s c_lbracket = false ∧ percent_decode s = Returned s.
Proof.
  intros Hs. split.
  - destruct Hs as [|c s Hc Hs]; [done|]. cbn [starts_with_char]. apply Z.eqb_neq. by intros <-.
  - unfold percent_decode, contains_char. rewrite (proj2 (existsb_false_Forall _ _)); [done|].
    eapply Forall_impl; [done|]. intros c Hc. apply Z.eqb_neq. by intros <-.
Qed.

(** Lower-case domains without Punycode labels, numbers included. *)
Lemma parse_host_domain s :
  s ≠ [] → Forall ascii_byte s → Forall (λ c, forbidden_domain c = false) s →
  Forall (λ c, to_ascii_lowercase c = c) s → has_xn_label s = false →
  parse_host s false = Returned (
    if ends_in_number s then option_map HostIPv4 (ipv4_reference s) else Some (HostString s)).
Proof.
  intros Hne Hascii Hf Hlow Hxn. destruct (not_forbidden_plain s Hf) as [Hbr Hdec].
  unfold parse_host. rewrite Hbr, verify_true, Hdec by (by rewrite bool_decide_eq_false_2).
  cbn [mbind outcome_bind]. rewrite domain_to_ascii_fast by (done || by apply forallb_ascii).
  cbn [mbind outcome_bind]. rewrite lowercase_id, parse_ascii_domain_returns by done.
  by rewrite (proj2 (existsb_false_Forall _ _) Hf).
Qed.

Lemma digits_not_xn label :
  forallb is_ascii_digit label = true → starts_with label (sv "xn--") CaseInsensitive = false.
Proof.
  destruct label as [|c label]; [done|]. cbn [forallb]. intros [Hc _]%andb_prop.
  unfold starts_with. change (sv "xn--") with [0x78; 0x6e; c_minus; c_minus].
  cbv iota. destruct (_ <? _)%nat; [done|]. cbn [length take equal_ignoring_case].
  destruct (Z.eqb_spec (to_ascii_lowercase c) (to_ascii_lowercase 0x78)) as [Heq|]; [|done].
  exfalso. change (to_ascii_lowercase 0x78) with 0x78 in Heq.
  unfold to_ascii_lowercase in Heq. unfold_ctypes. case_match; lia.
Qed.

Lemma parse_host_dotted_quad s : dotted_quad s →
  parse_host s false = Returned (option_map HostIPv4 (ipv4_reference s)).
Proof.
  intros [(s0 & s1 & s2 & s3 & Hsplit & Hlabels) Hchars].
  assert (∀ P : Z → Prop, (∀ c, is_ascii_digit c = true ∨ c = c_dot → P c) → Forall P s) as Hall.
  { intros P HP. eapply Forall_impl; [exact Hchars|]. auto. }
  rewrite parse_host_domain.
  - enough (ends_in_number s = true) as -> by done.
    unfold ends_in_number, ipv4_parts. rewrite Hsplit.
    rewrite !Forall_cons in Hlabels. destruct Hlabels as (_ & _ & _ & [Hne Hd] & _).
    cbn [last]. rewrite (bool_decide_eq_false_2 (Some s3 = Some [])) by congruence.
    cbn [andb last]. unfold is_number_label. rewrite Hd. by rewrite bool_decide_eq_false_2.
  - intros ->. done.
  - apply Hall. intros c [Hc| ->]; unfold ascii_byte; [unfold_ctypes|]; lia.
  - apply Hall. intros c [Hc| ->]; [|done]. unfold forbidden_domain, forbidden_host, contains_char.
    rewrite (proj2 (existsb_false_Forall _ _)); [unfold_ctypes; lia|]. unfold_ctypes.
    repeat (constructor; [lia|]). constructor.
  - apply Hall. intros c [Hc| ->]; [|done]. unfold to_ascii_lowercase. unfold_ctypes. case_match; lia.
  - unfold has_xn_label. rewrite Hsplit. apply existsb_false_Forall.
    eapply Forall_impl; [exact Hlabels|]. intros l [Hne Hd]. by apply digits_not_xn.
Qed.

(** C16: serializing a host and parsing the text again gives the same host: for
    IPv4 and IPv6 addresses, for opaque hosts, and for lower-case domains
    without Punycode labels (those the parser does not hand to ICU). *)
Theorem host_roundtrip (is_opaque : bool) (h : Host) (Hc : canonical_host is_opaque h) :
  (host_serialize h ≫= λ s, parse_host s is_opaque) = Returned (Some h).
Proof.
  destruct Hc as [Hwf Hdom]. destruct h as [address|m_data|s]; cbn [host_serialize].
  - destruct Hwf as [-> Ha]. destruct (ipv4_parse_serialized address Ha) as (s & -> & Hp & Hq).
    cbn [mbind outcome_bind]. rewrite parse_host_dotted_quad by done.
    assert (s ≠ []) as Hne by (destruct Hq as [(? & ? & ? & ? & Hs & _) _]; by intros ->).
    rewrite (proj1 (parse_ipv4_address_spec s Hne)) in Hp. by injection Hp as ->.
  - destruct Hwf as [Hlen Hb]. destruct (ipv6_parse_serialized m_data Hlen Hb) as (s & -> & Hp & _).
    cbn [mbind outcome_bind]. unfold parse_host. cbn [app starts_with_char].
    change (c_lbracket =? c_lbracket) with true. cbv iota.
    unfold ends_with_char. rewrite app_comm_cons, last_snoc. change (c_rbracket =? c_rbracket) with true.
    cbn [negb]. rewrite size_sub_le by (rewrite length_app; simpl; lia). cbn [mbind outcome_bind].
    rewrite substring_view_in_range by (rewrite !length_app; simpl; lia). cbn [mbind outcome_bind].
    change (drop 1 ((c_lbracket :: s) ++ [c_rbracket])) with (s ++ [c_rbracket]).
    rewrite take_app_length' by (rewrite length_app; simpl; lia). by rewrite Hp.
  - cbn [mbind outcome_bind]. destruct is_opaque.
    + destruct Hwf as [Henc Hf]. unfold parse_host.
      assert (starts_with_char s c_lbracket = false) as ->.
      { destruct Hf as [|c s Hc Hf]; [done|]. cbn [starts_with_char]. apply Z.eqb_neq. by intros <-. }
      rewrite parse_opaque_host_returns by (by eapply encoded_bytes).
      rewrite code_points_ascii by (by eapply encoded_ascii).
      rewrite (proj2 (existsb_false_Forall _ _) Hf).
      by rewrite encode_code_points_id by (by apply encoded_not_in_set).
    + destruct Hwf as (Hne & Hascii & Hf & Hnum). destruct (Hdom eq_refl) as [Hlow Hxn].
      rewrite parse_host_domain by done. by rewrite Hnum.
Qed.

End ParseHost.

(** An IDNA implementation that only knows ASCII names. *)
Definition icu_example : Icu := {|
  UIDNA_CHECK_BIDI := 4; UIDNA_CHECK_CONTEXTJ := 8; UIDNA_USE_STD3_RULES := 2;
  UIDNA_NONTRANSITIONAL_TO_ASCII := 0x10; UIDNA_NONTRANSITIONAL_TO_UNICODE := 0x20;
  UIDNA_ERROR_EMPTY_LABEL := 1; UIDNA_ERROR_LABEL_TOO_LONG := 2; UIDNA_ERROR_DOMAIN_NAME_TOO_LONG := 4;
  UIDNA_ERROR_LEADING_HYPHEN := 8; UIDNA_ERROR_TRAILING_HYPHEN := 0x10; UIDNA_ERROR_HYPHEN_3_4 := 0x20;
  UIDNA_ERROR_PUNYCODE := 0x100;
  name_to_ascii _ name :=
    if forallb (λ b, (0 <=? b) && (b <? 0x80)) name then Some (to_ascii_lowercase <$> name, 0) else None;
|}.

Lemma icu_example_ok : @IcuOk icu_example.
Proof.
  constructor. simpl. intros _ name out errors Hn _. case_match eqn:E; [|done]. simplify_eq.
  rewrite forallb_Forall in E. apply Forall_fmap. eapply Forall_impl; [done|].
  intros b Hb. simpl in *. unfold to_ascii_lowercase. unfold_ctypes. case_match; lia.
Qed.

Lemma parse_host_wf_witness :
  ∃ r, @parse_host simdutf_example fast_float_example icu_example (sv "EXAMPLE%2ecom") false = Returned r
    ∧ ∀ h, r = Some h → host_wf false h.
Proof.
  apply (@parse_host_wf simdutf_example simdutf_example_ok fast_float_example fast_float_example_ok
    icu_example icu_example_ok); [apply sv_bytes|done].
Defined.

Lemma host_roundtrip_witness :
  (host_serialize (HostString (sv "example.com"))
    ≫= λ s, @parse_host simdutf_example fast_float_example icu_example s false)
  = Returned (Some (HostString (sv "example.com"))).
Proof.
  apply (@host_roundtrip simdutf_example simdutf_example_ok fast_float_example fast_float_example_ok icu_example).
  split; [split_and!|intros _; split]; try done; vm_compute;
    repeat (constructor; [try done; lia|]); constructor.
Defined.

Example parse_host_examples :
  @parse_host simdutf_example fast_float_example icu_example (sv "EXAMPLE%2ecom") false
    = Returned (Some (HostString (sv "example.com")))
  ∧ @parse_host simdutf_example fast_float_example icu_example (sv "0x7f.1") false
    = Returned (Some (HostIPv4 0x7f000001))
  ∧ @parse_host simdutf_example fast_float_example icu_example (sv "a.256") false = Returned None
  ∧ @parse_host simdutf_example fast_float_example icu_example (sv "ab|c") true = Returned None.
Proof. vm_compute. done. Qed.
