(* ===== verification/PublicSuffix.v ===== *)
(** * Public suffixes and registrable domains

    [Host::public_suffix] and [Host::registrable_domain] of LibURL/Host.cpp,
    [get_registrable_domain] of LibURL/URL.cpp and the lookup code that
    Meta/Generators/generate_public_suffix_data.py writes next to the suffix
    list. *)
From S2P Require Import Prelude CharacterTypes Externals Utf8 StringView Format PercentEncoding Ipv4 Ipv6 Host.

Section PublicSuffix.
Context `{Simdutf} `{PublicSuffixData}.

(** [PublicSuffixData::get_public_suffix], the template in
    Meta/Generators/generate_public_suffix_data.py. *)
Fixpoint public_suffix_search (overall_search_string : bytes) (input : list bytes) : bytes :=
  match input with
  | [] => overall_search_string
  | part :: input =>
      if is_public_suffix (overall_search_string ++ part)
         || is_public_suffix (overall_search_string ++ [c_dot])
      then public_suffix_search (overall_search_string ++ part ++ [c_dot]) input
      else overall_search_string
  end.

(** [StringBuilder::join('.', view)] *)
Fixpoint join_dot (parts : list bytes) : bytes :=
  match parts with
  | [] => []
  | [part] => part
  | part :: parts => part ++ c_dot :: join_dot parts
  end.

Definition get_public_suffix (string : bytes) : outcome (option bytes) :=
  input ← split_view string (sv ".") SplitNothing;
  let overall_search_string := public_suffix_search [] (rev input) in
  view ← split_view overall_search_string (sv ".") SplitNothing;
  let return_string := join_dot (rev view) in
  if bool_decide (return_string = []) then Returned None
  else Some <$> must_to_string return_string.

Definition trailing_dot (host_string : bytes) : bytes :=
  if ends_with_char host_string c_dot then sv "." else [].

Definition without_trailing_dot (host_string : bytes) : outcome bytes :=
  if bool_decide (trailing_dot host_string = []) then Returned host_string
  else len ← size_sub (length host_string) 1; substring_view host_string 0 len.

(** [Host::public_suffix] *)
Definition public_suffix (host : Host) : outcome (option bytes) :=
  match host with
  | HostString host_string =>
      if bool_decide (host_string = []) then Returned None
      else
        host_without_trailing_dot ← without_trailing_dot host_string;
        found ← get_public_suffix host_without_trailing_dot;
        suffix ←
          match found with
          | Some suffix => Returned suffix
          | None =>
              match find_last host_without_trailing_dot c_dot with
              | Some last_dot =>
                  tail ← substring_view_from host_without_trailing_dot (last_dot + 1);
                  must_to_string tail
              | None => must_to_string host_without_trailing_dot
              end
          end;
        verify (sv_is_ascii suffix) (
          verify (negb (ends_with_char suffix c_dot)) (
            Returned (Some (suffix ++ trailing_dot host_string))))
  | _ => Returned None
  end.

(** [get_registrable_domain] of URL.cpp *)
Definition get_registrable_domain (host : bytes) : outcome (option bytes) :=
  found ← get_public_suffix host;
  match found with
  | None => Returned None
  | Some suffix =>
      if negb (ends_with host suffix) then Returned None
      else if bool_decide (host = suffix) then Returned None
      else
        len ← size_sub (length host) (length suffix);
        subhost ← substring_view host 0 len;
        let subhost := trim subhost (sv ".") TrimRight in
        if bool_decide (subhost = []) then Returned None
        else
          let start_index := match find_last subhost c_dot with Some index => (index + 1)%nat | None => 0%nat end in
          tail ← substring_view_from host start_index;
          domain ← must_to_string tail;
          Returned (Some domain)
  end.

(** [Host::registrable_domain] *)
Definition registrable_domain (host : Host) : outcome (option bytes) :=
  suffix ← public_suffix host;
  match suffix, host with
  | Some suffix, HostString host_string =>
      if bool_decide (suffix = host_string) then Returned None
      else
        host_without_trailing_dot ← without_trailing_dot host_string;
        found ← get_registrable_domain host_without_trailing_dot;
        found ←
          match found with
          | Some domain => Returned (Some domain)
          | None =>
              match find_last host_without_trailing_dot c_dot with
              | None => Returned None
              | Some last_dot =>
                  before ← substring_view host_without_trailing_dot 0 last_dot;
                  match find_last before c_dot with
                  | None => Returned None
                  | Some second_last_dot =>
                      tail ← substring_view_from host_without_trailing_dot (second_last_dot + 1);
                      Some <$> must_to_string tail
                  end
              end
          end;
        domain ← match found with Some domain => Returned domain | None => must_to_string host_without_trailing_dot end;
        verify (sv_is_ascii domain) (
          verify (negb (ends_with_char domain c_dot)) (
            Returned (Some (domain ++ trailing_dot host_string))))
  | _, _ => Returned None
  end.

End PublicSuffix.

(** ** Searching and trimming *)
Lemma find_last_spec (l : bytes) c :
  match find_last l c with
  | Some i => (i < length l)%nat ∧ c ∉ drop (i + 1) l
  | None => c ∉ l
  end.
Proof.
  pose proof (find_last_split l c) as H. destruct (find_last l c) as [i|]; [|done]. destruct H as (pre & post & -> & <- & Hn).
  rewrite length_app. cbn [length]. split; [lia|]. rewrite Nat.add_1_r, drop_app_ge by lia. by rewrite Nat.sub_succ_l, Nat.sub_diag by lia.
Qed.

Lemma last_not_in (l : bytes) c : c ∉ l → last l ≠ Some c.
Proof. intros Hc Hl%last_Some_elem_of. done. Qed.

Lemma find_last_snoc (l : bytes) c : find_last (l ++ [c]) c = Some (length l).
Proof.
  unfold find_last. rewrite length_app, Nat.add_1_r. cbn [find_last_from].
  rewrite bool_decide_eq_true_2; [done|]. by apply list_lookup_middle.
Qed.

Lemma trim_left_length l cs : (length (trim_left l cs) ≤ length l)%nat.
Proof. induction l; simpl; [done|]. case_match; simpl; lia. Qed.

Lemma trim_right_length l cs : (length (trim l cs TrimRight) ≤ length l)%nat.
Proof.
  unfold trim, trim_right. rewrite length_rev. pose proof (trim_left_length (rev l) cs) as H.
  by rewrite length_rev in H.
Qed.

Lemma last_drop_lt {A} (l : list A) i : (i < length l)%nat → last (drop i l) = last l.
Proof.
  intros Hi. rewrite <-(take_drop i l) at 2. rewrite last_app.
  destruct (last (drop i l)) as [x|] eqn:E; [done|]. apply last_None in E.
  apply (f_equal length) in E. rewrite length_drop in E. simpl in E. lia.
Qed.

Lemma ends_with_char_last (l : bytes) c : ends_with_char l c = false ↔ last l ≠ Some c.
Proof.
  unfold ends_with_char. destruct (last l) as [x|]; [|done]. rewrite Z.eqb_neq. naive_solver.
Qed.

Lemma forallb_drop {A} (f : A → bool) n l : forallb f l = true → forallb f (drop n l) = true.
Proof.
  revert n. induction l as [|x l IH]; intros [|n]; try done. simpl.
  intros [_ Hl]%andb_prop. by apply IH.
Qed.

Lemma forallb_take {A} (f : A → bool) n l : forallb f l = true → forallb f (take n l) = true.
Proof.
  revert n. induction l as [|x l IH]; intros [|n]; try done. simpl.
  intros [-> Hl]%andb_prop. by apply IH.
Qed.

(** ** The lookup *)
Section Lookup.
Context `{SimdutfOk} `{PublicSuffixData}.

Definition is_label (label : bytes) : Prop := label ≠ [] ∧ c_dot ∉ label ∧ forallb is_ascii label = true.

Lemma split_on_no_dot c s : Forall (λ part, c ∉ part) (split_on c s).
Proof.
  induction s as [|x s IH]; simpl; [by repeat constructor; apply not_elem_of_nil|].
  destruct (Z.eqb_spec x c); [constructor; [apply not_elem_of_nil|done]|].
  assert (∀ part, c ∉ part → c ∉ x :: part) as Hx.
  { intros part Hp. apply not_elem_of_cons. split; congruence || done. }
  destruct (split_on c s) as [|p ps]; [constructor; [apply Hx, not_elem_of_nil|constructor]|].
  apply Forall_cons in IH as [Hp Hps]. constructor; [by apply Hx|done].
Qed.

Lemma split_view_labels s :
  forallb is_ascii s = true →
  ∃ labels, split_view s (sv ".") SplitNothing = Returned labels ∧ Forall is_label labels.
Proof.
  intros Hs. change (sv ".") with [c_dot].
  destruct s as [|c s]; [by exists []|]. rewrite split_view_char by done. eexists. split; [done|].
  pose proof (split_on_parts_ascii c_dot _ Hs) as Ha. pose proof (split_on_no_dot c_dot (c :: s)) as Hd.
  rewrite Forall_forall in Ha, Hd. apply Forall_forall.
  intros part [Hne Hin]%list_elem_of_filter. split_and!; auto.
Qed.

Lemma public_suffix_search_ascii overall input :
  forallb is_ascii overall = true → Forall is_label input →
  forallb is_ascii (public_suffix_search overall input) = true.
Proof.
  intros Ho Hi. revert overall Ho. induction Hi as [|p input (_ & _ & Hp) Hi IH]; intros overall Ho; [done|].
  cbn [public_suffix_search]. case_match; [|done]. apply IH. by rewrite !forallb_app, Ho, Hp.
Qed.

Lemma join_dot_labels labels :
  Forall is_label labels → labels ≠ [] →
  forallb is_ascii (join_dot labels) = true ∧ join_dot labels ≠ [] ∧ last (join_dot labels) ≠ Some c_dot.
Proof.
  intros Hl. induction Hl as [|p ps (Hne & Hdot & Hp) Hps IH]; [done|]. intros _.
  assert (last p ≠ Some c_dot) as Hlast.
  { intros Hlast%last_Some_elem_of. done. }
  destruct ps as [|q ps]; [done|].
  change (join_dot (p :: q :: ps)) with (p ++ c_dot :: join_dot (q :: ps)).
  destruct (IH ltac:(done)) as (Ha & Hn & Hd). split_and!.
  - rewrite forallb_app, Hp. cbn [forallb]. by rewrite Ha.
  - by destruct p.
  - rewrite last_app, last_cons. destruct (last (join_dot (q :: ps))) as [x|] eqn:E; [done|].
    apply last_None in E. done.
Qed.

Lemma get_public_suffix_returns s :
  forallb is_ascii s = true →
  ∃ r, get_public_suffix s = Returned r ∧
    ∀ suffix, r = Some suffix → forallb is_ascii suffix = true ∧ suffix ≠ [] ∧ last suffix ≠ Some c_dot.
Proof.
  intros Hs. unfold get_public_suffix.
  destruct (split_view_labels s Hs) as (labels & -> & Hl). cbn [mbind outcome_bind].
  assert (Forall is_label (rev labels)) as Hl'.
  { rewrite Forall_forall in Hl |- *. intros x Hx. apply Hl. by apply list_elem_of_In, in_rev, list_elem_of_In. }
  destruct (split_view_labels (public_suffix_search [] (rev labels))) as (view & -> & Hv);
    [by apply public_suffix_search_ascii|]. cbn [mbind outcome_bind].
  case_bool_decide as Hne; [by eexists|].
  assert (Forall is_label (rev view)) as Hv'.
  { rewrite Forall_forall in Hv |- *. intros x Hx. apply Hv. by apply list_elem_of_In, in_rev, list_elem_of_In. }
  destruct (join_dot_labels (rev view) Hv') as (Ha & Hn & Hd); [by intros Hnil; rewrite Hnil in Hne|].
  rewrite must_to_string_ascii by done. eexists. split; [done|]. by intros suffix [= <-].
Qed.

(** ** The trailing dot *)
Lemma without_trailing_dot_spec s :
  ∃ t, without_trailing_dot s = Returned t ∧ s = t ++ trailing_dot s
    ∧ (ends_with_char s c_dot = false → t = s).
Proof.
  unfold without_trailing_dot, trailing_dot. destruct (ends_with_char s c_dot) eqn:E.
  - unfold ends_with_char in E. destruct (last s) as [x|] eqn:El; [|done]. bool_to_prop. subst x.
    apply last_Some in El as [t ->]. rewrite bool_decide_eq_false_2 by done.
    rewrite size_sub_le by (rewrite length_app; simpl; lia). cbn [mbind outcome_bind].
    rewrite substring_view_in_range by lia. exists t. split; [|done].
    rewrite drop_0, take_app_length' by (rewrite length_app; simpl; lia). done.
  - rewrite bool_decide_eq_true_2 by done. exists s. by rewrite app_nil_r.
Qed.

Lemma ascii_prefix (s t u : bytes) : s = t ++ u → forallb is_ascii s = true → forallb is_ascii t = true.
Proof. intros ->. rewrite forallb_app. by intros [? _]%andb_prop. Qed.

Lemma public_suffix_total s :
  s ≠ [] → forallb is_ascii s = true →
  ∃ suffix, public_suffix (HostString s) = Returned (Some (suffix ++ trailing_dot s))
    ∧ last suffix ≠ Some c_dot.
Proof.
  intros Hne Hs. unfold public_suffix. rewrite bool_decide_eq_false_2 by done.
  destruct (without_trailing_dot_spec s) as (t & -> & Ht & _). cbn [mbind outcome_bind].
  pose proof (ascii_prefix _ _ _ Ht Hs) as Hta.
  assert (∀ m : outcome bytes, (∃ suffix, m = Returned suffix ∧ forallb is_ascii suffix = true
      ∧ last suffix ≠ Some c_dot) →
    ∃ suffix, (x ← m; verify (sv_is_ascii x) (verify (negb (ends_with_char x c_dot))
      (Returned (Some (x ++ trailing_dot s))))) = Returned (Some (suffix ++ trailing_dot s))
      ∧ last suffix ≠ Some c_dot) as Hfin.
  { intros m (suffix & -> & Ha & Hl). cbn [mbind outcome_bind].
    rewrite verify_true by (by rewrite sv_is_ascii_spec).
    rewrite verify_true by (by apply negb_true_iff, ends_with_char_last). by exists suffix. }
  destruct (get_public_suffix_returns t Hta) as (r & -> & Hr). cbn [mbind outcome_bind]. apply Hfin.
  destruct r as [suffix|]; [exists suffix; by destruct (Hr suffix eq_refl) as (? & ? & ?)|].
  pose proof (find_last_spec t c_dot) as Hf. destruct (find_last t c_dot) as [i|].
  - destruct Hf as [Hi Hnot]. rewrite substring_view_from_in_range by lia.
    cbn [mbind outcome_bind]. rewrite must_to_string_ascii by (by apply forallb_drop).
    eexists. split; [done|]. split; [by apply forallb_drop|by apply last_not_in].
  - rewrite must_to_string_ascii by done. eexists. split; [done|]. split; [done|by apply last_not_in].
Qed.

(** ** Registrable domains *)
Definition ends_in_two_dots (s : bytes) : Prop := ∃ d, s = d ++ [c_dot; c_dot].

Lemma get_registrable_domain_returns t :
  forallb is_ascii t = true →
  ∃ r, get_registrable_domain t = Returned r ∧
    ∀ domain, r = Some domain → last t ≠ Some c_dot ∧ ∃ i, domain = drop i t ∧ (i < length t)%nat.
Proof.
  intros Ht. unfold get_registrable_domain.
  destruct (get_public_suffix_returns t Ht) as ([p|] & -> & Hp); cbn [mbind outcome_bind]; [|by eexists].
  destruct (Hp p eq_refl) as (Hpa & Hpne & Hpl).
  destruct (ends_with t p) eqn:Ee; cbn [negb]; [|by eexists].
  case_bool_decide; [by eexists|].
  assert (t = take (length t - length p) t ++ p ∧ (length p ≤ length t)%nat) as [Ht' Hlen].
  { unfold ends_with in Ee. destruct p as [|x p]; [done|]. destruct t as [|y t]; [done|].
    case_match eqn:El; [done|]. bool_to_prop. split; [|done].
    etransitivity; [symmetry; apply (take_drop (length (y :: t) - length (x :: p)))|]. by f_equal. }
  rewrite size_sub_le by done. cbn [mbind outcome_bind]. rewrite substring_view_in_range by lia.
  cbn [mbind outcome_bind]. rewrite drop_0. set (subhost := trim _ _ _).
  assert (length subhost ≤ length t - length p)%nat as Hsub.
  { unfold subhost. etransitivity; [apply trim_right_length|]. rewrite length_take. lia. }
  assert (0 < length p)%nat by (destruct p; [done|simpl; lia]).
  case_bool_decide as Hsne; [by eexists|].
  set (start := match find_last subhost c_dot with Some index => (index + 1)%nat | None => 0%nat end).
  assert (start < length t)%nat as Hstart.
  { unfold start. pose proof (find_last_spec subhost c_dot) as Hf.
    destruct (find_last subhost c_dot); [destruct Hf|]; lia. }
  rewrite substring_view_from_in_range by lia. cbn [mbind outcome_bind].
  rewrite must_to_string_ascii by (by apply forallb_drop). eexists. split; [done|].
  intros domain [= <-]. split; [|by exists start].
  rewrite Ht', last_app. destruct (last p) eqn:El; [congruence|]. by apply last_None in El.
Qed.

(** The registrable domain of a host with its trailing dot removed, before the
    final checks. *)
Lemma registrable_domain_unfold s :
  s ≠ [] → forallb is_ascii s = true →
  ∃ t, s = t ++ trailing_dot s ∧ (ends_with_char s c_dot = false → t = s) ∧
  ((∃ suffix, last suffix ≠ Some c_dot ∧ s = suffix ++ trailing_dot s ∧
      registrable_domain (HostString s) = Returned None) ∨
   ∃ domain, (domain = t ∨ ∃ i, domain = drop i t ∧ (i < length t)%nat)
     ∧ registrable_domain (HostString s) =
         verify (sv_is_ascii domain) (verify (negb (ends_with_char domain c_dot))
           (Returned (Some (domain ++ trailing_dot s))))).
Proof.
  intros Hne Hs. destruct (without_trailing_dot_spec s) as (t & Et & Ht & Hd).
  exists t. split; [done|]. split; [done|]. pose proof (ascii_prefix _ _ _ Ht Hs) as Hta.
  unfold registrable_domain. destruct (public_suffix_total s Hne Hs) as (suffix & -> & Hl).
  cbn [mbind outcome_bind]. case_bool_decide as Heq; [left; by exists suffix|]. right.
  rewrite Et. cbn [mbind outcome_bind].
  destruct (get_registrable_domain_returns t Hta) as (r & -> & Hr). cbn [mbind outcome_bind].
  destruct r as [domain|].
  { destruct (Hr domain eq_refl) as (_ & i & -> & Hi). exists (drop i t). eauto. }
  pose proof (find_last_spec t c_dot) as Hf.
  destruct (find_last t c_dot) as [i|]; cbn [mbind outcome_bind].
  2:{ rewrite must_to_string_ascii by done. exists t. eauto. }
  destruct Hf as [Hi _]. rewrite substring_view_in_range by lia. cbn [mbind outcome_bind]. rewrite drop_0.
  pose proof (find_last_spec (take i t) c_dot) as Hf'.
  destruct (find_last (take i t) c_dot) as [k|]; cbn [mbind outcome_bind].
  2:{ rewrite must_to_string_ascii by done. exists t. eauto. }
  destruct Hf' as [Hk _]. rewrite length_take in Hk. rewrite substring_view_from_in_range by lia.
  cbn [mbind outcome_bind]. rewrite (must_to_string_ascii (drop (k + 1) t)) by (by apply forallb_drop).
  cbn [fmap outcome_fmap mbind outcome_bind]. exists (drop (k + 1) t). split; [right; exists (k + 1)%nat; split; [done|lia]|done].
Qed.

Lemma registrable_domain_computed (s : bytes) (Hne : s ≠ []) (Hs : forallb is_ascii s = true)
    (Hdots : ¬ ends_in_two_dots s) :
  ∃ r, registrable_domain (HostString s) = Returned r ∧
    ∀ domain, r = Some domain → domain `suffix_of` s
      ∧ ends_with_char domain c_dot = ends_with_char s c_dot.
Proof.
  destruct (registrable_domain_unfold s Hne Hs) as (t & Ht & Hd & [(suffix & _ & _ & ->)|(d & Hdom & ->)]);
    [by eexists|].
  pose proof (ascii_prefix _ _ _ Ht Hs) as Hta.
  assert (last t ≠ Some c_dot) as Hlast.
  { destruct (ends_with_char s c_dot) eqn:E.
    - intros [u ->]%last_Some. apply Hdots. exists u. unfold trailing_dot in Ht. rewrite E in Ht.
      rewrite Ht, <-app_assoc. done.
    - rewrite Hd by done. by apply ends_with_char_last. }
  assert (∃ i, d = drop i t ∧ last d ≠ Some c_dot) as (i & -> & Hld).
  { destruct Hdom as [->|(i & -> & Hi)]; [exists 0%nat; by rewrite drop_0|].
    exists i. by rewrite last_drop_lt. }
  rewrite verify_true by (rewrite sv_is_ascii_spec; by apply forallb_drop).
  rewrite verify_true by (by apply negb_true_iff, ends_with_char_last).
  eexists. split; [done|]. intros domain [= <-]. split.
  - exists (take i t). rewrite Ht at 1. by rewrite app_assoc, take_drop.
  - unfold trailing_dot in *. destruct (ends_with_char s c_dot).
    + change (sv ".") with [c_dot]. unfold ends_with_char. by rewrite last_snoc.
    + rewrite app_nil_r. by apply ends_with_char_last.
Qed.

(** the registrable domain of an ASCII domain that does not end in two dots
    is computed without a failed VERIFY; when there is one it is a suffix of the
    host, and it keeps the host's trailing dot. *)
Theorem registrable_domain_suffix (s : bytes) (Hne : s ≠ []) (Hs : forallb is_ascii s = true)
    (Hdots : ¬ ends_in_two_dots s) :
  ∃ r, registrable_domain (HostString s) = Returned r ∧
    ∀ domain, r = Some domain → domain `suffix_of` s
      ∧ ends_with_char domain c_dot = ends_with_char s c_dot.
Proof. by apply registrable_domain_computed. Qed.

(** on every ASCII host that ends in two dots the computation of the
    registrable domain aborts on the VERIFY that the domain does not end with a
    dot: only one trailing dot is stripped before the fallback takes the rest
    of the host. *)
Theorem registrable_domain_two_dots_aborts (d : bytes) (Hd : forallb is_ascii d = true) :
  registrable_domain (HostString (d ++ [c_dot; c_dot])) = VerifyFailed.
Proof.
  set (s := d ++ [c_dot; c_dot]).
  assert (trailing_dot s = [c_dot] ∧ s = (d ++ [c_dot]) ++ [c_dot]) as [Htd Hs].
  { unfold s. split; [|by rewrite <-app_assoc]. unfold trailing_dot, ends_with_char.
    change [c_dot; c_dot] with ([c_dot] ++ [c_dot]). by rewrite app_assoc, last_snoc. }
  destruct (registrable_domain_unfold s) as (t & Ht & _ & Hcase);
    [by destruct d|unfold s; by rewrite forallb_app, Hd|].
  rewrite Htd in *. assert (t = d ++ [c_dot]) as ->.
  { rewrite Hs in Ht. by apply app_inj_2 in Ht as [<- _]. }
  destruct Hcase as [(suffix & Hl & Heq & _)|(domain & Hdom & ->)].
  { rewrite Hs in Heq. apply app_inj_2 in Heq as [<- _]; [|done]. by rewrite last_snoc in Hl. }
  assert (ends_with_char domain c_dot = true) as ->.
  { unfold ends_with_char. destruct Hdom as [->|(i & -> & Hi)]; rewrite ?last_drop_lt by done;
      by rewrite last_snoc. }
  unfold verify. by destruct (sv_is_ascii domain).
Qed.

End Lookup.

(** A suffix list with two entries, and the host of http://a../. *)
Definition public_suffix_example : PublicSuffixData :=
  {| is_public_suffix s := bool_decide (s = sv "com" ∨ s = sv "uk.co" ∨ s = sv "uk") |}.

Lemma registrable_domain_suffix_witness :
  ∃ r, @registrable_domain simdutf_example public_suffix_example (HostString (sv "www.example.co.uk"))
      = Returned r ∧
    ∀ domain, r = Some domain → domain `suffix_of` sv "www.example.co.uk"
      ∧ ends_with_char domain c_dot = ends_with_char (sv "www.example.co.uk") c_dot.
Proof.
  apply (@registrable_domain_suffix simdutf_example simdutf_example_ok public_suffix_example);
    [done|done|].
  intros [d Hd]. apply (f_equal last) in Hd. change [c_dot; c_dot] with ([c_dot] ++ [c_dot]) in Hd.
  rewrite app_assoc, last_snoc in Hd. vm_compute in Hd. discriminate Hd.
Defined.

Example registrable_domain_examples :
  @registrable_domain simdutf_example public_suffix_example (HostString (sv "www.example.co.uk"))
    = Returned (Some (sv "example.co.uk"))
  ∧ @registrable_domain simdutf_example public_suffix_example (HostString (sv "co.uk")) = Returned None
  ∧ @public_suffix simdutf_example public_suffix_example (HostString (sv "example.com."))
    = Returned (Some (sv "com.")).
Proof. vm_compute. done. Qed.

Lemma registrable_domain_two_dots_aborts_witness :
  @parse_host simdutf_example fast_float_example icu_example (sv "a..") false
    = Returned (Some (HostString (sv "a..")))
  ∧ @registrable_domain simdutf_example public_suffix_example (HostString (sv "a..")) = VerifyFailed.
Proof.
  split; [vm_compute; reflexivity|].
  apply (@registrable_domain_two_dots_aborts simdutf_example simdutf_example_ok public_suffix_example (sv "a")).
  reflexivity.
Defined.
