(* ===== verification/TextCodec.v ===== *)
(** * Text encoders as the URL parser uses them

    [get_standardized_encoding] and [get_output_encoding] of
    LibTextCodec/Decoder.cpp, [encoder_for_exact_name], [encoder_for] and
    [UTF8Encoder::process] of LibTextCodec/Encoder.cpp.  The legacy encoders
    work from index tables that are generated at build time: what such an
    encoder emits is a parameter. *)
From S2P Require Import Prelude CharacterTypes Externals Utf8 StringView Format PercentEncoding.

(** The encoder objects of Encoder.cpp. *)
Inductive Encoder :=
| s_utf8_encoder
| s_big5_encoder
| s_euc_jp_encoder
| s_iso_2022_jp_encoder
| s_shift_jis_encoder
| s_euc_kr_encoder
| s_gb18030_encoder
| s_gbk_encoder
| s_ibm866_encoder
| s_latin2_encoder
| s_latin3_encoder
| s_latin4_encoder
| s_latin_cyrillic_encoder
| s_latin_arabic_encoder
| s_latin_greek_encoder
| s_latin_hebrew_encoder
| s_latin6_encoder
| s_latin7_encoder
| s_latin8_encoder
| s_latin9_encoder
| s_latin10_encoder
| s_koi8r_encoder
| s_koi8u_encoder
| s_mac_roman_encoder
| s_windows874_encoder
| s_centraleurope_encoder
| s_cyrillic_encoder
| s_windows1252_encoder
| s_windows1253_encoder
| s_turkish_encoder
| s_hebrew_encoder
| s_windows1256_encoder
| s_windows1257_encoder
| s_windows1258_encoder
| s_mac_cyrillic_encoder.

#[global] Instance Encoder_eq_dec : EqDecision Encoder.
Proof. solve_decision. Defined.

(** What an encoder reports for its input, in order: a byte ([on_byte]) or a code
    point it cannot represent ([on_error]). *)
Inductive EncoderOutput := OnByte (byte : Z) | OnError (code_point : Z).

Class LegacyEncoders := {
  legacy_process : Encoder → bytes → list EncoderOutput;
}.

(** Bytes are bytes and code points are code points. *)
Class LegacyEncodersOk `{LegacyEncoders} := {
  legacy_process_range : ∀ encoder input, Forall is_byte input →
    Forall (λ o, match o with OnByte b => is_byte b | OnError c => 0 ≤ c ≤ 0x10FFFF end)
      (legacy_process encoder input);
}.

(** The labels of every encoding, in the order in which they are tried. *)
Definition standardized_encodings : list (list bytes * bytes) :=
  [([sv "unicode-1-1-utf-8"; sv "unicode11utf8"; sv "unicode20utf8"; sv "utf-8"; sv "utf8";
     sv "x-unicode20utf8"], sv "UTF-8");
   ([sv "866"; sv "cp866"; sv "csibm866"; sv "ibm866"], sv "IBM866");
   ([sv "csisolatin2"; sv "iso-8859-2"; sv "iso-ir-101"; sv "iso8859-2"; sv "iso88592";
     sv "iso_8859-2"; sv "iso_8859-2:1987"; sv "l2"; sv "latin2"], sv "ISO-8859-2");
   ([sv "csisolatin3"; sv "iso-8859-3"; sv "iso-ir-109"; sv "iso8859-3"; sv "iso88593";
     sv "iso_8859-3"; sv "iso_8859-3:1988"; sv "l3"; sv "latin3"], sv "ISO-8859-3");
   ([sv "csisolatin4"; sv "iso-8859-4"; sv "iso-ir-110"; sv "iso8859-4"; sv "iso88594";
     sv "iso_8859-4"; sv "iso_8859-4:1988"; sv "l4"; sv "latin4"], sv "ISO-8859-4");
   ([sv "csisolatincyrillic"; sv "cyrillic"; sv "iso-8859-5"; sv "iso-ir-144"; sv "iso8859-5";
     sv "iso88595"; sv "iso_8859-5"; sv "iso_8859-5:1988"], sv "ISO-8859-5");
   ([sv "arabic"; sv "asmo-708"; sv "csiso88596e"; sv "csiso88596i"; sv "csisolatinarabic";
     sv "ecma-114"; sv "iso-8859-6"; sv "iso-8859-6-e"; sv "iso-8859-6-i"; sv "iso-ir-127";
     sv "iso8859-6"; sv "iso88596"; sv "iso_8859-6"; sv "iso_8859-6:1987"], sv "ISO-8859-6");
   ([sv "csisolatingreek"; sv "ecma-118"; sv "elot_928"; sv "greek"; sv "greek8"; sv "iso-8859-7";
     sv "iso-ir-126"; sv "iso8859-7"; sv "iso88597"; sv "iso_8859-7"; sv "iso_8859-7:1987";
     sv "sun_eu_greek"], sv "ISO-8859-7");
   ([sv "csiso88598e"; sv "csisolatinhebrew"; sv "hebrew"; sv "iso-8859-8"; sv "iso-8859-8-e";
     sv "iso-ir-138"; sv "iso8859-8"; sv "iso88598"; sv "iso_8859-8"; sv "iso_8859-8:1988";
     sv "visual"], sv "ISO-8859-8");
   ([sv "csiso88598i"; sv "iso-8859-8-i"; sv "logical"], sv "ISO-8859-8-I");
   ([sv "csisolatin6"; sv "iso-8859-10"; sv "iso-ir-157"; sv "iso8859-10"; sv "iso885910"; sv "l6";
     sv "latin6"], sv "ISO-8859-10");
   ([sv "iso-8859-13"; sv "iso8859-13"; sv "iso885913"], sv "ISO-8859-13");
   ([sv "iso-8859-14"; sv "iso8859-14"; sv "iso885914"], sv "ISO-8859-14");
   ([sv "csisolatin9"; sv "iso-8859-15"; sv "iso8859-15"; sv "iso885915"; sv "iso_8859-15"; sv "l9"], sv "ISO-8859-15");
   ([sv "iso-8859-16"], sv "ISO-8859-16");
   ([sv "cskoi8r"; sv "koi"; sv "koi8"; sv "koi8-r"; sv "koi8_r"], sv "KOI8-R");
   ([sv "koi8-ru"; sv "koi8-u"], sv "KOI8-U");
   ([sv "csmacintosh"; sv "mac"; sv "macintosh"; sv "x-mac-roman"], sv "macintosh");
   ([sv "pdfdocencoding"], sv "PDFDocEncoding");
   ([sv "dos-874"; sv "iso-8859-11"; sv "iso8859-11"; sv "iso885911"; sv "tis-620"; sv "windows-874"], sv "windows-874");
   ([sv "cp1250"; sv "windows-1250"; sv "x-cp1250"], sv "windows-1250");
   ([sv "cp1251"; sv "windows-1251"; sv "x-cp1251"], sv "windows-1251");
   ([sv "ansi_x3.4-1968"; sv "ascii"; sv "cp1252"; sv "cp819"; sv "csisolatin1"; sv "ibm819";
     sv "iso-8859-1"; sv "iso-ir-100"; sv "iso8859-1"; sv "iso88591"; sv "iso_8859-1";
     sv "iso_8859-1:1987"; sv "l1"; sv "latin1"; sv "us-ascii"; sv "windows-1252"; sv "x-cp1252"], sv "windows-1252");
   ([sv "cp1253"; sv "windows-1253"; sv "x-cp1253"], sv "windows-1253");
   ([sv "cp1254"; sv "csisolatin5"; sv "iso-8859-9"; sv "iso-ir-148"; sv "iso8859-9";
     sv "iso88599"; sv "iso_8859-9"; sv "iso_8859-9:1989"; sv "l5"; sv "latin5"; sv "windows-1254";
     sv "x-cp1254"], sv "windows-1254");
   ([sv "cp1255"; sv "windows-1255"; sv "x-cp1255"], sv "windows-1255");
   ([sv "cp1256"; sv "windows-1256"; sv "x-cp1256"], sv "windows-1256");
   ([sv "cp1257"; sv "windows-1257"; sv "x-cp1257"], sv "windows-1257");
   ([sv "cp1258"; sv "windows-1258"; sv "x-cp1258"], sv "windows-1258");
   ([sv "x-mac-cyrillic"; sv "x-mac-ukrainian"], sv "x-mac-cyrillic");
   ([sv "koi8-r"; sv "koi8r"], sv "koi8-r");
   ([sv "chinese"; sv "csgb2312"; sv "csiso58gb231280"; sv "gb2312"; sv "gb_2312"; sv "gb_2312-80";
     sv "gbk"; sv "iso-ir-58"; sv "x-gbk"], sv "GBK");
   ([sv "gb18030"], sv "gb18030");
   ([sv "big5"; sv "big5-hkscs"; sv "cn-big5"; sv "csbig5"; sv "x-x-big5"], sv "Big5");
   ([sv "cseucpkdfmtjapanese"; sv "euc-jp"; sv "x-euc-jp"], sv "EUC-JP");
   ([sv "csiso2022jp"; sv "iso-2022-jp"], sv "ISO-2022-JP");
   ([sv "csshiftjis"; sv "ms932"; sv "ms_kanji"; sv "shift-jis"; sv "shift_jis"; sv "sjis";
     sv "windows-31j"; sv "x-sjis"], sv "Shift_JIS");
   ([sv "cseuckr"; sv "csksc56011987"; sv "euc-kr"; sv "iso-ir-149"; sv "korean";
     sv "ks_c_5601-1987"; sv "ks_c_5601-1989"; sv "ksc5601"; sv "ksc_5601"; sv "windows-949"], sv "EUC-KR");
   ([sv "csiso2022kr"; sv "hz-gb-2312"; sv "iso-2022-cn"; sv "iso-2022-cn-ext"; sv "iso-2022-kr";
     sv "replacement"], sv "replacement");
   ([sv "unicodefffe"; sv "utf-16be"], sv "UTF-16BE");
   ([sv "csunicode"; sv "iso-10646-ucs-2"; sv "ucs-2"; sv "unicode"; sv "unicodefeff"; sv "utf-16";
     sv "utf-16le"], sv "UTF-16LE");
   ([sv "x-user-defined"], sv "x-user-defined")].

Definition get_standardized_encoding (encoding : bytes) : option bytes :=
  let encoding := trim encoding [c_tab; c_lf; c_ff; c_cr; c_space] TrimBoth in
  snd <$> List.find (λ row, is_one_of_ignoring_ascii_case encoding row.1) standardized_encodings.

(** The names of every encoder, in the order in which they are tried. *)
Definition encoders_by_name : list (list bytes * Encoder) :=
  [([sv "utf-8"], s_utf8_encoder);
   ([sv "big5"], s_big5_encoder);
   ([sv "euc-jp"], s_euc_jp_encoder);
   ([sv "iso-2022-jp"], s_iso_2022_jp_encoder);
   ([sv "shift_jis"], s_shift_jis_encoder);
   ([sv "euc-kr"], s_euc_kr_encoder);
   ([sv "gb18030"], s_gb18030_encoder);
   ([sv "gbk"], s_gbk_encoder);
   ([sv "ibm866"], s_ibm866_encoder);
   ([sv "iso-8859-2"], s_latin2_encoder);
   ([sv "iso-8859-3"], s_latin3_encoder);
   ([sv "iso-8859-4"], s_latin4_encoder);
   ([sv "iso-8859-5"], s_latin_cyrillic_encoder);
   ([sv "iso-8859-6"], s_latin_arabic_encoder);
   ([sv "iso-8859-7"], s_latin_greek_encoder);
   ([sv "iso-8859-8"; sv "iso-8859-8-i"], s_latin_hebrew_encoder);
   ([sv "iso-8859-10"], s_latin6_encoder);
   ([sv "iso-8859-13"], s_latin7_encoder);
   ([sv "iso-8859-14"], s_latin8_encoder);
   ([sv "iso-8859-15"], s_latin9_encoder);
   ([sv "iso-8859-16"], s_latin10_encoder);
   ([sv "koi8-r"], s_koi8r_encoder);
   ([sv "koi8-u"], s_koi8u_encoder);
   ([sv "macintosh"], s_mac_roman_encoder);
   ([sv "windows-874"], s_windows874_encoder);
   ([sv "windows-1250"], s_centraleurope_encoder);
   ([sv "windows-1251"], s_cyrillic_encoder);
   ([sv "windows-1252"], s_windows1252_encoder);
   ([sv "windows-1253"], s_windows1253_encoder);
   ([sv "windows-1254"], s_turkish_encoder);
   ([sv "windows-1255"], s_hebrew_encoder);
   ([sv "windows-1256"], s_windows1256_encoder);
   ([sv "windows-1257"], s_windows1257_encoder);
   ([sv "windows-1258"], s_windows1258_encoder);
   ([sv "x-mac-cyrillic"], s_mac_cyrillic_encoder)].

Definition encoder_for_exact_name (encoding : bytes) : option Encoder :=
  snd <$> List.find (λ row, is_one_of_ignoring_ascii_case encoding row.1) encoders_by_name.

Definition encoder_for (label : bytes) : option Encoder :=
  match get_standardized_encoding label with
  | Some encoding => encoder_for_exact_name encoding
  | None => None
  end.

Definition get_output_encoding (encoding : bytes) : bytes :=
  if is_one_of_ignoring_ascii_case encoding [sv "replacement"; sv "utf-16le"; sv "utf-16be"]
  then sv "UTF-8" else encoding.

(** [Encoder::process] *)
Definition encoder_process `{LegacyEncoders} (encoder : Encoder) (input : bytes) : list EncoderOutput :=
  match encoder with
  | s_utf8_encoder => OnByte <$> input
  | _ => legacy_process encoder input
  end.

(** The parser's fallback exists. *)

(** [isomorphic_decode] (Decoder.cpp) and [isomorphic_encode] (Encoder.cpp): a byte
    is the code point of the same value; on encoding a code point is narrowed to
    a byte. *)
Definition isomorphic_decode (input : bytes) : bytes := foldl append_code_point [] input.

Definition isomorphic_encode (input : bytes) : bytes := (λ code_point, code_point mod 256) <$> code_points input.

Lemma isomorphic_decode_form input :
  Forall is_byte input → isomorphic_decode input = flat_map utf8_form input.
Proof.
  intros Hb. unfold isomorphic_decode. apply utf8_encode_form.
  eapply Forall_impl; [exact Hb|]. unfold is_byte. intros; lia.
Qed.

Lemma isomorphic_decode_valid input : Forall is_byte input → valid_utf8 (isomorphic_decode input).
Proof.
  intros Hb. exists input. split; [|by apply isomorphic_decode_form].
  eapply Forall_impl; [exact Hb|]. unfold is_byte, is_scalar, is_unicode_surrogate. intros; lia.
Qed.

Lemma isomorphic_decode_ascii input : Forall (λ b, 0 ≤ b < 0x80) input → isomorphic_decode input = input.
Proof.
  intros Hb. rewrite isomorphic_decode_form by (eapply Forall_impl; [exact Hb|]; unfold is_byte; cbn; lia).
  induction Hb as [|b input Hb _ IH]; [done|]. cbn [flat_map]. rewrite IH. unfold utf8_form.
  by rewrite (proj2 (Z.leb_le b 0x7f)) by lia.
Qed.

Lemma isomorphic_encode_decode input :
  Forall is_byte input → isomorphic_encode (isomorphic_decode input) = input.
Proof.
  intros Hb. unfold isomorphic_encode. rewrite isomorphic_decode_form by done.
  rewrite code_points_utf8_form.
  - induction Hb as [|b input Hb _ IH]; [done|]. cbn. unfold is_byte in Hb. rewrite Z.mod_small by lia.
    f_equal. apply IH.
  - eapply Forall_impl; [exact Hb|]. unfold is_byte. intros; lia.
Qed.

Lemma encoder_for_utf8 : encoder_for (sv "utf-8") = Some s_utf8_encoder.
Proof. vm_compute. done. Qed.

Lemma encoder_process_range `{LegacyEncodersOk} encoder input :
  Forall is_byte input →
  Forall (λ o, match o with OnByte b => is_byte b | OnError c => 0 ≤ c ≤ 0x10FFFF end)
    (encoder_process encoder input).
Proof.
  intros Hi. unfold encoder_process. destruct encoder; try by apply legacy_process_range.
  apply Forall_fmap. by eapply Forall_impl; [exact Hi|].
Qed.

(** An instance in which the legacy encoders can represent nothing. *)
Definition legacy_encoders_example : LegacyEncoders := {|
  legacy_process _ input := OnError <$> code_points input;
|}.

Lemma legacy_encoders_example_ok : @LegacyEncodersOk legacy_encoders_example.
Proof. constructor. intros encoder input Hi. apply Forall_fmap. by apply code_points_range. Qed.
