(* ===== verification/Origin.v ===== *)
(** * Origins and sites

    LibURL/Origin.{h,cpp} and LibURL/Site.{h,cpp}, with the hash of an origin. *)
From S2P Require Import Prelude CharacterTypes HashFunctions Externals Utf8 StringView Format PercentEncoding Ipv4 Ipv6 Host PublicSuffix.

(** ** Data *)
Inductive OpaqueType := OpaqueStandard | OpaqueFile.

#[global] Instance OpaqueType_eq_dec : EqDecision OpaqueType.
Proof. solve_decision. Defined.

Record OpaqueData := mk_opaque_data { nonce : bytes; opaque_type : OpaqueType }.

Record Tuple := mk_tuple {
  tuple_scheme : option bytes;
  tuple_host : Host;
  tuple_port : option Z;
  tuple_domain : option bytes;
}.

(** [Variant<Tuple, OpaqueData>] *)
Inductive Origin :=
| OriginTuple (tuple : Tuple)
| OriginOpaque (data : OpaqueData).

Definition is_opaque (origin : Origin) : bool :=
  match origin with OriginOpaque _ => true | OriginTuple _ => false end.

(** [Origin::create_opaque]; the nonce is the one the random generator returned. *)
Definition create_opaque (random_nonce : bytes) (type : OpaqueType) : Origin :=
  OriginOpaque (mk_opaque_data random_nonce type).

Definition is_opaque_file_origin (origin : Origin) : bool :=
  match origin with
  | OriginOpaque data => bool_decide (opaque_type data = OpaqueFile)
  | OriginTuple _ => false
  end.

(** ** Same origin *)
Definition is_same_origin (a b : Origin) : bool :=
  match a, b with
  | OriginOpaque a, OriginOpaque b => bool_decide (nonce a = nonce b)
  | OriginTuple a, OriginTuple b =>
      bool_decide (tuple_scheme a = tuple_scheme b) && bool_decide (tuple_host a = tuple_host b)
      && bool_decide (tuple_port a = tuple_port b)
  | _, _ => false
  end.

Definition is_same_origin_domain (a b : Origin) : bool :=
  match a, b with
  | OriginOpaque a, OriginOpaque b => bool_decide (nonce a = nonce b)
  | OriginTuple ta, OriginTuple tb =>
      if bool_decide (is_Some (tuple_domain ta)) && bool_decide (tuple_domain ta = tuple_domain tb)
         && bool_decide (tuple_scheme ta = tuple_scheme tb)
      then true
      else bool_decide (tuple_domain ta = None) && bool_decide (tuple_domain tb = None)
           && is_same_origin a b
  | _, _ => false
  end.

Definition effective_domain (origin : Origin) : option Host :=
  match origin with
  | OriginOpaque _ => None
  | OriginTuple tuple =>
      match tuple_domain tuple with
      | Some domain => Some (HostString domain)
      | None => Some (tuple_host tuple)
      end
  end.

(** [Origin::serialize] *)
Definition origin_serialize (origin : Origin) : outcome bytes :=
  match origin with
  | OriginOpaque _ => Returned (sv "null")
  | OriginTuple tuple =>
      let result := default [] (tuple_scheme tuple) ++ sv "://" in
      host ← host_serialize (tuple_host tuple);
      let result := result ++ host in
      match tuple_port tuple with
      | None => Returned result
      | Some port => port ← format_decimal port; Returned (result ++ [c_colon] ++ port)
      end
  end.

(** ** Sites *)
Record SchemeAndHost := mk_scheme_and_host { site_scheme : bytes; site_host : Host }.

(** [Variant<Origin, SchemeAndHost>] *)
Inductive Site :=
| SiteOrigin (origin : Origin)
| SiteSchemeAndHost (value : SchemeAndHost).

Section Obtain.
Context `{Simdutf} `{PublicSuffixData}.

Definition obtain (origin : Origin) : outcome Site :=
  match origin with
  | OriginOpaque _ => Returned (SiteOrigin origin)
  | OriginTuple tuple =>
      let origin_scheme := default [] (tuple_scheme tuple) in
      domain ← registrable_domain (tuple_host tuple);
      match domain with
      | None => Returned (SiteSchemeAndHost (mk_scheme_and_host origin_scheme (tuple_host tuple)))
      | Some domain => Returned (SiteSchemeAndHost (mk_scheme_and_host origin_scheme (HostString domain)))
      end
  end.

(** [Site::is_same_site].  [opaque_data()] aborts on a tuple origin. *)
Definition site_is_same_site (a b : Site) : outcome bool :=
  match a, b with
  | SiteOrigin (OriginOpaque a), SiteOrigin (OriginOpaque b) => Returned (bool_decide (nonce a = nonce b))
  | SiteOrigin _, SiteOrigin _ => VerifyFailed
  | SiteSchemeAndHost a, SiteSchemeAndHost b =>
      Returned (bool_decide (site_scheme a = site_scheme b) && bool_decide (site_host a = site_host b))
  | _, _ => Returned false
  end.

(** [Site::serialize] *)
Definition site_serialize (site : Site) : outcome bytes :=
  match site with
  | SiteOrigin _ => Returned (sv "null")
  | SiteSchemeAndHost value =>
      host ← host_serialize (site_host value);
      Returned (site_scheme value ++ sv "://" ++ host)
  end.

(** [Origin::is_same_site] *)
Definition is_same_site (a b : Origin) : outcome bool :=
  site_a ← obtain a;
  site_b ← obtain b;
  site_is_same_site site_a site_b.

End Obtain.

(** ** Hashing *)
(** [Traits<URL::Origin>::hash] *)
Definition origin_hash (origin : Origin) : outcome Z :=
  match origin with
  | OriginOpaque data =>
      n0 ← at_index (nonce data) 0; n1 ← at_index (nonce data) 1;
      n2 ← at_index (nonce data) 2; n3 ← at_index (nonce data) 3;
      Returned (Z.lor (Z.lor (Z.lor (Z.shiftl n0 24) (Z.shiftl n1 16)) (Z.shiftl n2 8)) n3)
  | OriginTuple tuple =>
      let hash := string_hash (default [] (tuple_scheme tuple)) 0 in
      let hash := match tuple_port tuple with Some port => pair_int_hash hash port | None => hash end in
      host ← host_serialize (tuple_host tuple);
      let hash := pair_int_hash hash (string_hash host 0) in
      Returned (match tuple_domain tuple with
                | Some domain => pair_int_hash hash (string_hash domain 0)
                | None => hash
                end)
  end.

(** ** Same origin is an equivalence *)
Lemma is_same_origin_spec a b :
  is_same_origin a b = true ↔
  match a, b with
  | OriginOpaque a, OriginOpaque b => nonce a = nonce b
  | OriginTuple a, OriginTuple b =>
      tuple_scheme a = tuple_scheme b ∧ tuple_host a = tuple_host b ∧ tuple_port a = tuple_port b
  | _, _ => False
  end.
Proof.
  destruct a, b; simpl; rewrite ?andb_true_iff, ?bool_decide_eq_true; naive_solver.
Qed.

Lemma is_same_origin_domain_spec a b :
  is_same_origin_domain a b = true ↔
  match a, b with
  | OriginOpaque a, OriginOpaque b => nonce a = nonce b
  | OriginTuple ta, OriginTuple tb =>
      (is_Some (tuple_domain ta) ∧ tuple_domain ta = tuple_domain tb ∧ tuple_scheme ta = tuple_scheme tb)
      ∨ (tuple_domain ta = None ∧ tuple_domain tb = None ∧ is_same_origin a b = true)
  | _, _ => False
  end.
Proof.
  destruct a as [ta|], b as [tb|]; cbn [is_same_origin_domain]; rewrite ?bool_decide_eq_true; [|done..].
  destruct (bool_decide (is_Some (tuple_domain ta)) && _ && _) eqn:E.
  - bool_to_prop. naive_solver.
  - rewrite !andb_true_iff, !bool_decide_eq_true. split; [naive_solver|].
    intros [(Hs & Hd & Hsch)|?]; [|naive_solver]. rewrite !bool_decide_eq_true_2 in E by done. done.
Qed.

Definition same_origin (a b : Origin) : Prop := is_same_origin a b = true.
Definition same_origin_domain (a b : Origin) : Prop := is_same_origin_domain a b = true.

#[global] Instance same_origin_equivalence : Equivalence same_origin.
Proof.
  unfold same_origin. split.
  - intros a. apply is_same_origin_spec. by destruct a.
  - intros a b. rewrite !is_same_origin_spec. destruct a, b; naive_solver.
  - intros a b c. rewrite !is_same_origin_spec. destruct a, b, c; naive_solver congruence.
Qed.

#[global] Instance same_origin_domain_equivalence : Equivalence same_origin_domain.
Proof.
  unfold same_origin_domain. split.
  - intros a. apply is_same_origin_domain_spec. destruct a as [t|]; [|done].
    destruct (tuple_domain t); [left; eauto|right; split_and!; [done..|]].
    by apply (reflexivity (R := same_origin)).
  - intros a b. rewrite !is_same_origin_domain_spec. destruct a, b; try done.
    intros [(? & ? & ?)|(? & ? & ?)]; [left|right]; split_and!; try congruence.
    by apply (symmetry (R := same_origin)).
  - intros a b c. rewrite !is_same_origin_domain_spec. destruct a, b, c; try done; [|congruence].
    intros [([d Hd] & ? & ?)|(? & ? & Hab)] [([d' Hd'] & ? & ?)|(? & ? & Hbc)];
      [left; split_and!; [rewrite Hd; eauto|congruence..]|congruence..|right].
    split_and!; [done..|]. by apply (transitivity (R := same_origin) Hab).
Qed.

(** "same origin" and "same origin-domain" are equivalence relations on
    origins, opaque and tuple origins alike, and an opaque origin is never
    related to a tuple origin. *)
Theorem same_origin_relations :
  Equivalence same_origin ∧ Equivalence same_origin_domain
  ∧ ∀ a b, same_origin a b ∨ same_origin_domain a b → is_opaque a = is_opaque b.
Proof.
  split_and!; [apply _..|]. unfold same_origin, same_origin_domain.
  intros a b. rewrite is_same_origin_spec, is_same_origin_domain_spec. by destruct a, b; intros [?|?].
Qed.

(** ** Same site *)
Section SameSite.
Context `{SimdutfOk} `{PublicSuffixData}.

(** The hosts for which the registrable domain can be computed. *)
Definition site_host_ok (origin : Origin) : Prop :=
  match origin with
  | OriginTuple (mk_tuple _ (HostString s) _ _) => forallb is_ascii s = true ∧ ¬ ends_in_two_dots s
  | _ => True
  end.

Lemma registrable_domain_returns host :
  match host with HostString s => forallb is_ascii s = true ∧ ¬ ends_in_two_dots s | _ => True end →
  returns (registrable_domain host).
Proof.
  destruct host as [| |s]; [eexists; done..|]. intros [Hs Hd].
  destruct (decide (s = [])) as [->|Hne]; [eexists; done|].
  destruct (registrable_domain_computed s Hne Hs Hd) as (r & -> & _). eauto with ladybird.
Qed.

Lemma obtain_returns origin : site_host_ok origin → returns (obtain origin).
Proof.
  destruct origin as [[scheme host port domain]|]; [|eauto with ladybird]. intros Hok.
  cbn [obtain]. apply returns_bind; [by apply registrable_domain_returns|].
  intros [d|] _; eauto with ladybird.
Qed.

Lemma obtain_same_origin a b : same_origin a b →
  match a, b with
  | OriginTuple _, OriginTuple _ => obtain a = obtain b
  | _, _ => True
  end.
Proof.
  unfold same_origin. rewrite is_same_origin_spec. destruct a as [a|], b as [b|]; try done.
  intros (Hs & Hh & _). cbn [obtain]. by rewrite Hs, Hh.
Qed.

(** Two origins that are the same origin are same site: for every origin
    whose host has a registrable domain that can be computed, [is_same_site]
    returns, is reflexive on the "same origin" relation, and never aborts. *)
Theorem same_origin_same_site (a b : Origin) (Hok : site_host_ok a) (Hab : same_origin a b) :
  is_same_site a b = Returned true.
Proof.
  unfold is_same_site. destruct (obtain_returns a Hok) as [site Ha].
  pose proof (obtain_same_origin a b Hab) as Heq. rewrite Ha. cbn [mbind outcome_bind].
  unfold same_origin in Hab. rewrite is_same_origin_spec in Hab.
  destruct a as [a|a], b as [b|b]; try done.
  - rewrite <-Heq, Ha. cbn [mbind outcome_bind]. cbn [obtain] in Ha.
    apply bind_returned in Ha as ([d|] & _ & [= <-]); simpl; by rewrite !bool_decide_eq_true_2.
  - cbn [obtain] in *. injection Ha as <-. simpl. by rewrite bool_decide_eq_true_2.
Qed.

End SameSite.

Lemma same_origin_same_site_witness :
  @is_same_site simdutf_example public_suffix_example
    (OriginTuple (mk_tuple (Some (sv "https")) (HostString (sv "a.example.com")) None None))
    (OriginTuple (mk_tuple (Some (sv "https")) (HostString (sv "a.example.com")) None (Some (sv "x"))))
  = Returned true.
Proof.
  apply (@same_origin_same_site simdutf_example simdutf_example_ok public_suffix_example); [|done].
  split; [done|]. intros [d Hd]. apply (f_equal last) in Hd.
  change [c_dot; c_dot] with ([c_dot] ++ [c_dot]) in Hd.
  rewrite app_assoc, last_snoc in Hd. vm_compute in Hd. discriminate Hd.
Defined.

(** ** Hashing and equality *)
Lemma origin_hash_same_domain a b :
  same_origin a b →
  match a, b with OriginTuple ta, OriginTuple tb => tuple_domain ta = tuple_domain tb | _, _ => True end →
  origin_hash a = origin_hash b.
Proof.
  unfold same_origin. rewrite is_same_origin_spec. destruct a as [a|a], b as [b|b]; try done; cbn [origin_hash].
  - intros (-> & -> & ->) ->. done.
  - by intros ->.
Qed.

(** Origins that compare equal and have the same domain hash to the same
    value; but equality ignores the domain while the hash does not, so there
    are origins that compare equal and hash differently. *)
Theorem origin_hash_equality :
  (∀ a b, same_origin a b →
     match a, b with OriginTuple ta, OriginTuple tb => tuple_domain ta = tuple_domain tb | _, _ => True end →
     origin_hash a = origin_hash b)
  ∧ ∃ a b, same_origin a b ∧ origin_hash a ≠ origin_hash b.
Proof.
  split; [apply origin_hash_same_domain|].
  exists (OriginTuple (mk_tuple (Some (sv "https")) (HostString (sv "a.example.com")) None None)),
    (OriginTuple (mk_tuple (Some (sv "https")) (HostString (sv "a.example.com")) None (Some (sv "example.com")))).
  split; [done|]. vm_compute. discriminate.
Qed.
