(* ===== verification/Url.v ===== *)
(** * URL records

    The [URL] class of LibURL/URL.{h,cpp}: its data, accessors, setters and
    serializers.  A [URL] holds its [Data] through [CopyOnWrite]: a write clones
    shared data first, so URLs are values and a mutation of the pointee of
    [URL*] is a new value of it. *)
From S2P Require Import Prelude CharacterTypes Externals Utf8 StringView Format PercentEncoding Ipv4 Ipv6 Host PublicSuffix Origin.

(** ** Data *)
Inductive BlobObject := Blob (type : bytes) (data : bytes) | MediaSource.

Record BlobURLEntry := mk_blob_url_entry { blob_object : BlobObject; environment_origin : Origin }.

Record URL := mk_url {
  scheme : bytes;
  username : bytes;
  password : bytes;
  host : option Host;
  port : option Z;
  paths : list bytes;
  query : option bytes;
  fragment : option bytes;
  has_an_opaque_path : bool;
  blob_url_entry : option BlobURLEntry;
}.

(** [URL()] *)
Definition new_url : URL := mk_url [] [] [] None None [] None None false None.

(** Assignments to the members of [Data]. *)
Definition with_scheme (u : URL) x :=
  mk_url x (username u) (password u) (host u) (port u) (paths u) (query u) (fragment u)
    (has_an_opaque_path u) (blob_url_entry u).
Definition with_username (u : URL) x :=
  mk_url (scheme u) x (password u) (host u) (port u) (paths u) (query u) (fragment u)
    (has_an_opaque_path u) (blob_url_entry u).
Definition with_password (u : URL) x :=
  mk_url (scheme u) (username u) x (host u) (port u) (paths u) (query u) (fragment u)
    (has_an_opaque_path u) (blob_url_entry u).
Definition with_host (u : URL) x :=
  mk_url (scheme u) (username u) (password u) x (port u) (paths u) (query u) (fragment u)
    (has_an_opaque_path u) (blob_url_entry u).
Definition with_port (u : URL) x :=
  mk_url (scheme u) (username u) (password u) (host u) x (paths u) (query u) (fragment u)
    (has_an_opaque_path u) (blob_url_entry u).
Definition with_paths (u : URL) x :=
  mk_url (scheme u) (username u) (password u) (host u) (port u) x (query u) (fragment u)
    (has_an_opaque_path u) (blob_url_entry u).
Definition with_query (u : URL) x :=
  mk_url (scheme u) (username u) (password u) (host u) (port u) (paths u) x (fragment u)
    (has_an_opaque_path u) (blob_url_entry u).
Definition with_fragment (u : URL) x :=
  mk_url (scheme u) (username u) (password u) (host u) (port u) (paths u) (query u) x
    (has_an_opaque_path u) (blob_url_entry u).
Definition with_opaque_path (u : URL) x :=
  mk_url (scheme u) (username u) (password u) (host u) (port u) (paths u) (query u) (fragment u)
    x (blob_url_entry u).
Definition with_blob_url_entry (u : URL) x :=
  mk_url (scheme u) (username u) (password u) (host u) (port u) (paths u) (query u) (fragment u)
    (has_an_opaque_path u) x.

(** ** Schemes *)
Definition default_port_for_scheme (s : bytes) : option Z :=
  if bool_decide (s = sv "ftp") then Some 21
  else if bool_decide (s = sv "http") then Some 80
  else if bool_decide (s = sv "https") then Some 443
  else if bool_decide (s = sv "ws") then Some 80
  else if bool_decide (s = sv "wss") then Some 443
  else None.

Definition special_schemes : list bytes :=
  [sv "ftp"; sv "file"; sv "http"; sv "https"; sv "ws"; sv "wss"].

Definition is_special_scheme (s : bytes) : bool := existsb (λ x, bool_decide (x = s)) special_schemes.

(** ** Accessors *)
Definition is_special (u : URL) : bool := is_special_scheme (scheme u).

Definition includes_credentials (u : URL) : bool :=
  negb (bool_decide (username u = [])) || negb (bool_decide (password u = [])).

Definition port_or_default (u : URL) : Z :=
  default (default 0 (default_port_for_scheme (scheme u))) (port u).

Definition cannot_have_a_username_or_password_or_port (u : URL) : bool :=
  match host u with
  | None => true
  | Some h => is_empty_host h || bool_decide (scheme u = sv "file")
  end.

Definition path_segment_at_index (u : URL) (index : nat) : outcome bytes :=
  verify (index <? length (paths u))%nat (segment ← at_index (paths u) index; percent_decode segment).

Definition basename (u : URL) : outcome bytes :=
  match last (paths u) with
  | None => Returned []
  | Some last_segment => percent_decode last_segment
  end.

(** ** Setters *)
Section Setters.
Context `{Simdutf}.

Definition set_username (u : URL) (name : bytes) : outcome URL :=
  encoded ← percent_encode name Userinfo SpaceAsPlusNo; Returned (with_username u encoded).

Definition set_password (u : URL) (secret : bytes) : outcome URL :=
  encoded ← percent_encode secret Userinfo SpaceAsPlusNo; Returned (with_password u encoded).

Definition set_port (u : URL) (p : option Z) : URL :=
  if bool_decide (p = default_port_for_scheme (scheme u)) then with_port u None else with_port u p.

Fixpoint percent_encode_all (segments : list bytes) : outcome (list bytes) :=
  match segments with
  | [] => Returned []
  | segment :: segments =>
      encoded ← percent_encode segment Path SpaceAsPlusNo;
      rest ← percent_encode_all segments;
      Returned (encoded :: rest)
  end.

Definition set_paths (u : URL) (segments : list bytes) : outcome URL :=
  encoded ← percent_encode_all segments; Returned (with_paths u encoded).

Definition append_path (u : URL) (path : bytes) : outcome URL :=
  encoded ← percent_encode path Path SpaceAsPlusNo; Returned (with_paths u (paths u ++ [encoded])).

Definition append_slash (u : URL) : URL := with_paths u (paths u ++ [[]]).

(** ** Constructors of particular URLs *)
Definition about (path : bytes) : URL :=
  with_opaque_path (with_paths (with_scheme new_url (sv "about")) [path]) true.

Definition create_with_data (mime_type payload : bytes) (is_base64 : bool) : outcome URL :=
  let u := with_scheme (with_opaque_path new_url true) (sv "data") in
  let builder := mime_type ++ (if is_base64 then sv ";base64" else []) ++ [0x2C] ++ payload in
  set_paths u [builder].

End Setters.

(** ** Serializers *)
Inductive ExcludeFragment := ExcludeFragmentNo | ExcludeFragmentYes.

Definition serialized_host (u : URL) : outcome bytes :=
  h ← must (host u); host_serialize h.

(** Every segment with a slash before it. *)
Definition serialize_segments (segments : list bytes) : bytes :=
  segments ≫= λ segment, c_slash :: segment.

Definition serialize_path (u : URL) : outcome bytes :=
  if has_an_opaque_path u then at_index (paths u) 0
  else Returned (serialize_segments (paths u)).

(** [URL::file_path] (not on Windows). *)
Definition file_path (u : URL) : outcome bytes :=
  path ← serialize_path u; percent_decode path.

(** Whether the path is preceded by "/." so that it is not read as an authority. *)
Definition needs_path_prefix (u : URL) : bool :=
  bool_decide (host u = None) && negb (has_an_opaque_path u)
  && (1 <? length (paths u))%nat && bool_decide (head (paths u) = Some []).

Definition serialize_authority (u : URL) (credentials : bool) : outcome bytes :=
  match host u with
  | None => Returned []
  | Some _ =>
      let userinfo :=
        if credentials && includes_credentials u then
          username u ++ (if bool_decide (password u = []) then [] else [c_colon] ++ password u) ++ [c_at]
        else [] in
      h ← serialized_host u;
      p ← match port u with
          | None => Returned []
          | Some p => digits ← format_decimal p; Returned ([c_colon] ++ digits)
          end;
      Returned (sv "//" ++ userinfo ++ h ++ p)
  end.

Definition serialize_query_and_fragment (u : URL) (exclude_fragment : ExcludeFragment) : bytes :=
  match query u with None => [] | Some q => c_question :: q end
  ++ match exclude_fragment, fragment u with
     | ExcludeFragmentNo, Some f => c_hash :: f
     | _, _ => []
     end.

(** [URL::serialize] *)
Definition serialize (u : URL) (exclude_fragment : ExcludeFragment) : outcome bytes :=
  authority ← serialize_authority u true;
  path ← serialize_path u;
  Returned (scheme u ++ [c_colon] ++ authority
            ++ (if needs_path_prefix u then sv "/." else []) ++ path
            ++ serialize_query_and_fragment u exclude_fragment).

(** [URL::serialize_for_display] *)
Definition serialize_for_display (u : URL) : outcome bytes :=
  authority ← serialize_authority u false;
  path ← serialize_path u;
  Returned (scheme u ++ [c_colon] ++ authority
            ++ (if needs_path_prefix u then sv "/." else []) ++ path
            ++ serialize_query_and_fragment u ExcludeFragmentNo).

(** [URL::equals] on distinct objects. *)
Definition equals (a b : URL) (exclude_fragments : ExcludeFragment) : outcome bool :=
  sa ← serialize a exclude_fragments;
  sb ← serialize b exclude_fragments;
  Returned (bool_decide (sa = sb)).

(** The host is there for every URL whose scheme needs one. *)
Example serialize_example :
  serialize (mk_url (sv "https") (sv "user") [] (Some (HostIPv4 0x7f000001)) (Some 8080)
    [sv "a"; []] (Some (sv "q")) (Some (sv "f")) false None) ExcludeFragmentNo
  = Returned (sv "https://user@127.0.0.1:8080/a/?q#f").
Proof. vm_compute. done. Qed.
