(* ===== verification/UrlParser.v ===== *)
(** * The basic URL parser

    [Parser::basic_parse] of LibURL/Parser.cpp: one definition per state of the
    switch, the loop around it with its byte-offset iterator, and the helpers it
    calls.  [break] out of the switch (the iterator then advances), [continue]
    (it does not), and the two kinds of [return] are the constructors of
    [step_result].  Computations whose only effect is
    [report_validation_error], which writes a debug message, are left out. *)
From S2P Require Import Prelude CharacterTypes Externals Utf8 StringView Format PercentEncoding Ipv4 Ipv6 Host PublicSuffix TextCodec Origin Url.

(** ** States of LibURL/Parser.h *)
Module State.
Inductive t :=
| SchemeStart
| Scheme
| NoScheme
| SpecialRelativeOrAuthority
| PathOrAuthority
| Relative
| RelativeSlash
| SpecialAuthoritySlashes
| SpecialAuthorityIgnoreSlashes
| Authority
| Host
| Hostname
| Port
| File
| FileSlash
| FileHost
| PathStart
| Path
| OpaquePath
| Query
| Fragment.

#[global] Instance eq_dec : EqDecision t.
Proof. solve_decision. Defined.
End State.

(** ** Helpers *)
Definition starts_with_windows_drive_letter (input : bytes) : bool :=
  match input with
  | a :: b :: rest =>
      if negb (is_ascii_alpha a) || negb ((b =? c_colon) || (b =? c_pipe)) then false
      else match rest with
      | [] => true
      | c :: _ => contains_char [c_slash; c_backslash; c_question; c_hash] c
      end
  | _ => false
  end.

Definition is_windows_drive_letter (input : bytes) : bool :=
  match input with [a; b] => is_ascii_alpha a && ((b =? c_colon) || (b =? c_pipe)) | _ => false end.

Definition is_normalized_windows_drive_letter (input : bytes) : bool :=
  match input with [a; b] => is_ascii_alpha a && (b =? c_colon) | _ => false end.

Definition is_single_dot_path_segment (input : bytes) : bool :=
  bool_decide (input = sv ".") || equals_ignoring_ascii_case input (sv "%2e").

Definition is_double_dot_path_segment (input : bytes) : bool :=
  bool_decide (input = sv "..") || equals_ignoring_ascii_case input (sv ".%2e")
  || equals_ignoring_ascii_case input (sv "%2e.") || equals_ignoring_ascii_case input (sv "%2e%2e").

(** [Parser::shorten_urls_path] *)
Definition shorten_urls_path (u : URL) : outcome URL :=
  verify (negb (has_an_opaque_path u)) (
    let keep :=
      bool_decide (scheme u = sv "file") && (length (paths u) =? 1)%nat
      && is_normalized_windows_drive_letter (default [] (head (paths u))) in
    Returned (if keep then u else with_paths u (take (length (paths u) - 1) (paths u)))).

(** The callbacks of [percent_encode_after_encoding]. *)
Definition encode_output (set : PercentEncodeSet) (space_as_plus : bool) (output : bytes) (o : EncoderOutput)
    : outcome bytes :=
  match o with
  | OnByte byte =>
      if space_as_plus && (byte =? c_space) then Returned (output ++ [c_plus])
      else if negb (code_point_is_in_percent_encode_set byte set) then Returned (append_code_point output byte)
      else append_percent_byte output byte
  | OnError code_point =>
      digits ← format_decimal code_point;
      Returned (output ++ sv "%26%23" ++ digits ++ sv "%3B")
  end.

Fixpoint encode_outputs (set : PercentEncodeSet) (space_as_plus : bool) (output : bytes)
    (os : list EncoderOutput) : outcome bytes :=
  match os with
  | [] => Returned output
  | o :: os => output ← encode_output set space_as_plus output o; encode_outputs set space_as_plus output os
  end.

Definition percent_encode_after_encoding `{Simdutf} `{LegacyEncoders} (encoder : Encoder) (input : bytes)
    (set : PercentEncodeSet) (space_as_plus : bool) : outcome bytes :=
  output ← encode_outputs set space_as_plus [] (encoder_process encoder input);
  must_to_string output.

Definition is_ascii_tab_or_newline (c : Z) : bool := (c =? c_tab) || (c =? c_lf) || (c =? c_cr).

Definition contains_ascii_tab_or_newline (input : bytes) : bool := existsb is_ascii_tab_or_newline input.

Definition remove_ascii_tab_or_newline `{Simdutf} (input : bytes) : outcome bytes :=
  must_to_string (List.filter (λ c, negb (is_ascii_tab_or_newline c)) input).

(** [StringBuilder::append_as_lowercase] *)
Definition append_as_lowercase (builder : bytes) (ch : Z) : bytes :=
  builder ++ [if (c_A <=? ch) && (ch <=? c_Z) then ch + 0x20 else ch].

(** ** The variables of the loop *)
Record parser := mk_parser {
  state : State.t;
  iterator : nat;
  buffer : bytes;
  at_sign_seen : bool;
  inside_brackets : bool;
  password_token_seen : bool;
  username_builder : bytes;
  password_builder : bytes;
  url : URL;
  encoder : Encoder;
}.

Definition with_state (p : parser) x :=
  mk_parser x (iterator p) (buffer p) (at_sign_seen p) (inside_brackets p) (password_token_seen p)
    (username_builder p) (password_builder p) (url p) (encoder p).
Definition with_iterator (p : parser) x :=
  mk_parser (state p) x (buffer p) (at_sign_seen p) (inside_brackets p) (password_token_seen p)
    (username_builder p) (password_builder p) (url p) (encoder p).
Definition with_buffer (p : parser) x :=
  mk_parser (state p) (iterator p) x (at_sign_seen p) (inside_brackets p) (password_token_seen p)
    (username_builder p) (password_builder p) (url p) (encoder p).
Definition with_inside_brackets (p : parser) x :=
  mk_parser (state p) (iterator p) (buffer p) (at_sign_seen p) x (password_token_seen p)
    (username_builder p) (password_builder p) (url p) (encoder p).
Definition with_credentials (p : parser) at_sign password_token name secret :=
  mk_parser (state p) (iterator p) (buffer p) at_sign (inside_brackets p) password_token
    name secret (url p) (encoder p).
Definition with_url (p : parser) x :=
  mk_parser (state p) (iterator p) (buffer p) (at_sign_seen p) (inside_brackets p) (password_token_seen p)
    (username_builder p) (password_builder p) x (encoder p).
Definition with_encoder (p : parser) x :=
  mk_parser (state p) (iterator p) (buffer p) (at_sign_seen p) (inside_brackets p) (password_token_seen p)
    (username_builder p) (password_builder p) (url p) x.

(** How one run of the switch ends.  The pointee of [URL* url] is part of every
    ending: a failure may leave it modified. *)
Inductive step_result :=
| Break (p : parser)
| Continue (p : parser)
| ReturnUrl (u : URL)
| ReturnFailure (u : URL).

Section Parse.
Context `{Simdutf} `{FastFloat} `{Icu} `{LegacyEncoders}.
Context (input : bytes) (base_url : option URL) (state_override : option State.t).

Definition overridden : bool := bool_decide (is_Some state_override).

(** The bytes from the iterator on. *)
Definition suffix_at (it : nat) : bytes := drop it input.

Definition iterator_done (it : nat) : bool := bool_decide (suffix_at it = []).

(** [++iterator] *)
Definition increment (it : nat) : outcome nat :=
  rest ← iterator_next (suffix_at it); Returned (length input - length rest)%nat.

(** [Utf8View::iterator_at_byte_offset_without_validation]; an offset outside the
    view, which the source does not check, is a fault here. *)
Definition iterator_at_byte_offset (offset : nat) : outcome nat :=
  verify (offset <=? length input)%nat (Returned offset).

(** [Utf8View::substring_view(byte_offset).as_string()] *)
Definition input_from (offset : nat) : outcome bytes :=
  len ← size_sub (length input) offset; substring_view input offset len.

(** The lambdas [get_remaining] and [get_remaining_including_code_point]. *)
Definition get_remaining (p : parser) : outcome bytes :=
  n ← underlying_code_point_length_in_bytes (suffix_at (iterator p));
  input_from (iterator p + n).

Definition get_remaining_including_code_point (p : parser) (code_point : Z) : outcome bytes :=
  if code_point =? end_of_file then Returned []
  else
    n ← underlying_code_point_length_in_bytes (suffix_at (iterator p));
    offset ← size_sub (iterator p + n) (code_unit_length_for_code_point code_point);
    input_from offset.

(** The base URL, when the state is only reached with one. *)
Definition the_base : outcome URL := must base_url.

Definition base_scheme_is (s : bytes) : bool :=
  match base_url with Some base => bool_decide (scheme base = s) | None => false end.

(** ** The states *)
Definition scheme_start_state (p : parser) (c : Z) : outcome step_result :=
  Returned (
    if is_ascii_alpha c then
      Break (with_state (with_buffer p (append_as_lowercase (buffer p) c)) State.Scheme)
    else if negb overridden then Continue (with_state p State.NoScheme)
    else ReturnFailure (url p)).

(** Step 2.1: whether the scheme setter must leave the URL alone. *)
Definition scheme_change_refused (u : URL) (new_scheme : bytes) : bool :=
  (is_special_scheme (scheme u) && negb (is_special_scheme new_scheme))
  || (negb (is_special_scheme (scheme u)) && is_special_scheme new_scheme)
  || ((includes_credentials u || bool_decide (is_Some (port u))) && bool_decide (new_scheme = sv "file"))
  || (bool_decide (scheme u = sv "file")
      && match host u with Some h => is_empty_host h | None => false end).

Definition scheme_state (p : parser) (c : Z) : outcome step_result :=
  if is_ascii_alphanumeric c || (c =? c_plus) || (c =? c_minus) || (c =? c_dot) then
    Returned (Break (with_buffer p (append_as_lowercase (buffer p) c)))
  else if c =? c_colon then
    if overridden && scheme_change_refused (url p) (buffer p) then Returned (ReturnUrl (url p))
    else
      let u := with_scheme (url p) (buffer p) in
      if overridden then
        Returned (ReturnUrl (
          if bool_decide (port u = default_port_for_scheme (scheme u)) then with_port u None else u))
      else
        let p := with_url (with_buffer p []) u in
        if bool_decide (scheme u = sv "file") then
          _ ← get_remaining p;
          Returned (Break (with_state p State.File))
        else if is_special u && base_scheme_is (scheme u) then
          base ← the_base;
          verify (is_special base) (Returned (Break (with_state p State.SpecialRelativeOrAuthority)))
        else if is_special u then Returned (Break (with_state p State.SpecialAuthoritySlashes))
        else
          remaining ← get_remaining p;
          if starts_with remaining (sv "/") CaseSensitive then
            it ← increment (iterator p);
            Returned (Break (with_iterator (with_state p State.PathOrAuthority) it))
          else
            Returned (Break (with_state (with_url p (append_slash (with_opaque_path u true))) State.OpaquePath))
  else if negb overridden then
    Returned (Continue (with_iterator (with_state (with_buffer p []) State.NoScheme) 0))
  else Returned (ReturnFailure (url p)).

Definition no_scheme_state (p : parser) (c : Z) : outcome step_result :=
  match base_url with
  | None => Returned (ReturnFailure (url p))
  | Some base =>
      Returned (
        if has_an_opaque_path base && negb (c =? c_hash) then ReturnFailure (url p)
        else if has_an_opaque_path base && (c =? c_hash) then
          let u := with_scheme (url p) (scheme base) in
          let u := with_paths u (paths base) in
          let u := with_query u (query base) in
          let u := with_fragment u (Some []) in
          let u := with_opaque_path u true in
          Break (with_state (with_url p u) State.Fragment)
        else if negb (bool_decide (scheme base = sv "file")) then Continue (with_state p State.Relative)
        else Continue (with_state p State.File))
  end.

Definition special_relative_or_authority_state (p : parser) (c : Z) : outcome step_result :=
  slash ← (if c =? c_slash
           then remaining ← get_remaining p; Returned (starts_with remaining (sv "/") CaseSensitive)
           else Returned false);
  if (slash : bool) then
    it ← increment (iterator p);
    Returned (Break (with_iterator (with_state p State.SpecialAuthorityIgnoreSlashes) it))
  else Returned (Continue (with_state p State.Relative)).

Definition path_or_authority_state (p : parser) (c : Z) : outcome step_result :=
  Returned (if c =? c_slash then Break (with_state p State.Authority) else Continue (with_state p State.Path)).

Definition relative_state (p : parser) (c : Z) : outcome step_result :=
  base ← the_base;
  verify (negb (bool_decide (scheme base = sv "file"))) (
    let u := with_scheme (url p) (scheme base) in
    if (c =? c_slash) || (is_special u && (c =? c_backslash)) then
      Returned (Break (with_state (with_url p u) State.RelativeSlash))
    else
      let u := with_username u (username base) in
      let u := with_password u (password base) in
      let u := with_host u (host base) in
      let u := with_port u (port base) in
      let u := with_paths u (paths base) in
      let u := with_query u (query base) in
      if c =? c_question then
        Returned (Break (with_state (with_url p (with_query u (Some []))) State.Query))
      else if c =? c_hash then
        Returned (Break (with_state (with_url p (with_fragment u (Some []))) State.Fragment))
      else if negb (c =? end_of_file) then
        u ← shorten_urls_path (with_query u None);
        Returned (Continue (with_state (with_url p u) State.Path))
      else Returned (Break (with_url p u))).

Definition relative_slash_state (p : parser) (c : Z) : outcome step_result :=
  if is_special (url p) && ((c =? c_slash) || (c =? c_backslash)) then
    Returned (Break (with_state p State.SpecialAuthorityIgnoreSlashes))
  else if c =? c_slash then Returned (Break (with_state p State.Authority))
  else
    base ← the_base;
    let u := with_username (url p) (username base) in
    let u := with_password u (password base) in
    let u := with_host u (host base) in
    let u := with_port u (port base) in
    Returned (Continue (with_state (with_url p u) State.Path)).

Definition special_authority_slashes_state (p : parser) (c : Z) : outcome step_result :=
  slash ← (if c =? c_slash
           then remaining ← get_remaining p; Returned (starts_with remaining (sv "/") CaseSensitive)
           else Returned false);
  if (slash : bool) then
    it ← increment (iterator p);
    Returned (Break (with_iterator (with_state p State.SpecialAuthorityIgnoreSlashes) it))
  else Returned (Continue (with_state p State.SpecialAuthorityIgnoreSlashes)).

Definition special_authority_ignore_slashes_state (p : parser) (c : Z) : outcome step_result :=
  Returned (
    if negb (c =? c_slash) && negb (c =? c_backslash) then Continue (with_state p State.Authority)
    else Break p).

Definition authority_delimiters (u : URL) : bytes :=
  if is_special u then [c_at; c_slash; c_question; c_hash; c_backslash]
  else [c_at; c_slash; c_question; c_hash].

(** Step 1 of the authority state: the credentials up to the at sign. *)
Definition authority_credentials (p : parser) (authority : bytes) : outcome parser :=
  let username := username_builder p in
  let password := password_builder p in
  let '(username, password) :=
    if at_sign_seen p then
      if password_token_seen p then (username, password ++ sv "%40") else (username ++ sv "%40", password)
    else (username, password) in
  if password_token_seen p then
    encoded ← percent_encode authority Userinfo SpaceAsPlusNo;
    Returned (with_credentials p true true username (password ++ encoded))
  else
    match find_char authority c_colon with
    | Some password_end =>
        name ← substring_view authority 0 password_end;
        name ← percent_encode name Userinfo SpaceAsPlusNo;
        secret ← substring_view_from authority (password_end + 1);
        secret ← percent_encode secret Userinfo SpaceAsPlusNo;
        Returned (with_credentials p true true (username ++ name) (password ++ secret))
    | None =>
        encoded ← percent_encode authority Userinfo SpaceAsPlusNo;
        Returned (with_credentials p true false (username ++ encoded) password)
    end.

Definition authority_state (p : parser) (c : Z) : outcome step_result :=
  remaining ← get_remaining_including_code_point p c;
  let authority_length := default (length remaining) (find_any_of remaining (authority_delimiters (url p))) in
  authority ← substring_view remaining 0 authority_length;
  let c := default end_of_file (remaining !! authority_length) in
  if c =? c_at then
    p ← authority_credentials p authority;
    it ← iterator_at_byte_offset (iterator p + length authority);
    Returned (Break (with_iterator p it))
  else if at_sign_seen p && bool_decide (authority = []) then Returned (ReturnFailure (url p))
  else
    offset ← size_sub (iterator p) 1;
    it ← iterator_at_byte_offset offset;
    let u := with_password (url p) (password_builder p) in
    let u := with_username u (username_builder p) in
    Returned (Break (with_state (with_url (with_buffer (with_iterator p it) []) u) State.Host)).

(** The end of a host or port: EOF, a slash, "?", "#" and, in special URLs, a backslash. *)
Definition ends_authority (u : URL) (c : Z) : bool :=
  (c =? end_of_file) || (c =? c_slash) || (c =? c_question) || (c =? c_hash)
  || (is_special u && (c =? c_backslash)).

Definition host_state (p : parser) (c : Z) : outcome step_result :=
  let u := url p in
  if overridden && bool_decide (scheme u = sv "file") then
    Returned (Continue (with_state p State.FileHost))
  else if (c =? c_colon) && negb (inside_brackets p) then
    if bool_decide (buffer p = []) then Returned (ReturnFailure u)
    else if bool_decide (state_override = Some State.Hostname) then Returned (ReturnFailure u)
    else
      host ← parse_host (buffer p) (negb (is_special u));
      match host with
      | None => Returned (ReturnFailure u)
      | Some host =>
          Returned (Break (with_state (with_buffer (with_url p (with_host u (Some host))) []) State.Port))
      end
  else if ends_authority u c then
    if is_special u && bool_decide (buffer p = []) then Returned (ReturnFailure u)
    else if overridden && bool_decide (buffer p = [])
            && (includes_credentials u || bool_decide (is_Some (port u)))
    then Returned (ReturnFailure u)
    else
      host ← parse_host (buffer p) (negb (is_special u));
      match host with
      | None => Returned (ReturnFailure u)
      | Some host =>
          let u := with_host u (Some host) in
          if overridden then Returned (ReturnUrl u)
          else Returned (Continue (with_state (with_buffer (with_url p u) []) State.Port))
      end
  else
    let brackets :=
      if c =? c_lbracket then true else if c =? c_rbracket then false else inside_brackets p in
    Returned (Break (with_buffer (with_inside_brackets p brackets) (append_code_point (buffer p) c))).

Definition port_state (p : parser) (c : Z) : outcome step_result :=
  let u := url p in
  Returned (
    if is_ascii_digit c then Break (with_buffer p (append_code_point (buffer p) c))
    else if ends_authority u c || overridden then
      if negb (bool_decide (buffer p = [])) then
        match parse_number 0xFFFF 10 (buffer p) with
        | None => ReturnFailure u
        | Some number =>
            let u :=
              if bool_decide (Some number = default_port_for_scheme (scheme u)) then with_port u None
              else with_port u (Some number) in
            if overridden then ReturnUrl u
            else Continue (with_state (with_buffer (with_url p u) []) State.PathStart)
        end
      else if overridden then ReturnFailure u
      else Continue (with_state p State.PathStart)
    else ReturnFailure u).

Definition file_state (p : parser) (c : Z) : outcome step_result :=
  let u := with_scheme (url p) (sv "file") in
  let u := with_host u (Some (HostString [])) in
  if (c =? c_slash) || (c =? c_backslash) then
    Returned (Break (with_state (with_url p u) State.FileSlash))
  else if base_scheme_is (sv "file") then
    base ← the_base;
    let u := with_host u (host base) in
    let u := with_paths u (paths base) in
    let u := with_query u (query base) in
    if c =? c_question then
      Returned (Break (with_state (with_url p (with_query u (Some []))) State.Query))
    else if c =? c_hash then
      Returned (Break (with_state (with_url p (with_fragment u (Some []))) State.Fragment))
    else if negb (c =? end_of_file) then
      let u := with_query u None in
      substring_from_pointer ← input_from (iterator p);
      u ← (if negb (starts_with_windows_drive_letter substring_from_pointer)
           then shorten_urls_path u else Returned (with_paths u []));
      Returned (Continue (with_state (with_url p u) State.Path))
    else Returned (Break (with_url p u))
  else Returned (Continue (with_state (with_url p u) State.Path)).

Definition file_slash_state (p : parser) (c : Z) : outcome step_result :=
  if (c =? c_slash) || (c =? c_backslash) then Returned (Break (with_state p State.FileHost))
  else
    u ← (if base_scheme_is (sv "file") then
           base ← the_base;
           let u := with_host (url p) (host base) in
           substring_from_pointer ← input_from (iterator p);
           if negb (starts_with_windows_drive_letter substring_from_pointer) then
             first ← at_index (paths base) 0;
             Returned (if is_normalized_windows_drive_letter first
                       then with_paths u (paths u ++ [first]) else u)
           else Returned u
         else Returned (url p));
    Returned (Continue (with_state (with_url p u) State.Path)).

Definition file_host_state (p : parser) (c : Z) : outcome step_result :=
  let u := url p in
  if (c =? end_of_file) || (c =? c_slash) || (c =? c_backslash) || (c =? c_question) || (c =? c_hash) then
    if negb overridden && is_windows_drive_letter (buffer p) then
      Returned (Continue (with_state p State.Path))
    else if bool_decide (buffer p = []) then
      let u := with_host u (Some (HostString [])) in
      if overridden then Returned (ReturnUrl u)
      else Returned (Continue (with_state (with_url p u) State.PathStart))
    else
      host ← parse_host (buffer p) (negb (is_special u));
      match host with
      | None => Returned (ReturnFailure u)
      | Some host =>
          let host := if bool_decide (host = HostString (sv "localhost")) then HostString [] else host in
          let u := with_host u (Some host) in
          if overridden then Returned (ReturnUrl u)
          else Returned (Continue (with_state (with_buffer (with_url p u) []) State.PathStart))
      end
  else Returned (Break (with_buffer p (append_code_point (buffer p) c))).

Definition path_start_state (p : parser) (c : Z) : outcome step_result :=
  let u := url p in
  Returned (
    if is_special u then
      if negb (c =? c_slash) && negb (c =? c_backslash) then Continue (with_state p State.Path)
      else Break (with_state p State.Path)
    else if negb overridden && (c =? c_question) then
      Break (with_state (with_url p (with_query u (Some []))) State.Query)
    else if negb overridden && (c =? c_hash) then
      Break (with_state (with_url p (with_fragment u (Some []))) State.Fragment)
    else if negb (c =? end_of_file) then
      if negb (c =? c_slash) then Continue (with_state p State.Path) else Break (with_state p State.Path)
    else if overridden && bool_decide (host u = None) then Break (with_url p (append_slash u))
    else Break p).

(** Steps 1.2 to 1.4 of the path state: the URL with the finished segment. *)
Definition finish_segment (u : URL) (segment : bytes) (c : Z) : outcome URL :=
  let slash := (c =? c_slash) || (is_special u && (c =? c_backslash)) in
  if is_double_dot_path_segment segment then
    u ← shorten_urls_path u;
    Returned (if slash then u else append_slash u)
  else if is_single_dot_path_segment segment then
    Returned (if slash then u else append_slash u)
  else
    segment ←
      (if bool_decide (scheme u = sv "file") && bool_decide (paths u = []) && is_windows_drive_letter segment
       then drive_letter ← at_index segment 0; Returned [drive_letter; c_colon]
       else Returned segment);
    Returned (with_paths u (paths u ++ [segment])).

Definition path_state (p : parser) (c : Z) : outcome step_result :=
  let u := url p in
  if (c =? end_of_file) || (c =? c_slash) || (is_special u && (c =? c_backslash))
     || (negb overridden && ((c =? c_question) || (c =? c_hash))) then
    u ← finish_segment u (buffer p) c;
    let p := with_buffer (with_url p u) [] in
    Returned (Break (
      if c =? c_question then with_state (with_url p (with_query u (Some []))) State.Query
      else if c =? c_hash then with_state (with_url p (with_fragment u (Some []))) State.Fragment
      else p))
  else
    buffer ← append_percent_encoded_if_necessary (buffer p) c Path;
    Returned (Break (with_buffer p buffer)).

Definition opaque_path_state (p : parser) (c : Z) : outcome step_result :=
  let u := url p in
  verify (bool_decide (paths u = [[]])) (
    if c =? c_question then
      paths ← set_index (paths u) 0 (buffer p);
      let u := with_query (with_paths u paths) (Some []) in
      Returned (Break (with_state (with_buffer (with_url p u) []) State.Query))
    else if c =? c_hash then
      paths ← set_index (paths u) 0 (buffer p);
      let u := with_fragment (with_paths u paths) (Some []) in
      Returned (Break (with_state (with_buffer (with_url p u) []) State.Fragment))
    else if c =? c_space then
      remaining ← get_remaining p;
      Returned (Break (with_buffer p (
        if starts_with_char remaining c_question || starts_with_char remaining c_hash
        then buffer p ++ sv "%20" else buffer p ++ [c_space])))
    else if negb (c =? end_of_file) then
      buffer ← append_percent_encoded_if_necessary (buffer p) c C0Control;
      Returned (Break (with_buffer p buffer))
    else
      paths ← set_index (paths u) 0 (buffer p);
      Returned (Break (with_buffer (with_url p (with_paths u paths)) []))).

Definition query_state (p : parser) (c : Z) : outcome step_result :=
  let u := url p in
  encoder ←
    (if negb (is_special u) || bool_decide (scheme u = sv "ws") || bool_decide (scheme u = sv "wss")
     then must (encoder_for (sv "utf-8")) else Returned (encoder p));
  let p := with_encoder p encoder in
  if (negb overridden && (c =? c_hash)) || (c =? end_of_file) then
    let query_percent_encode_set := if is_special u then SpecialQuery else Query in
    query ← percent_encode_after_encoding encoder (buffer p) query_percent_encode_set false;
    let u := with_query u (Some query) in
    let p := with_buffer (with_url p u) [] in
    Returned (Break (
      if c =? c_hash then with_state (with_url p (with_fragment u (Some []))) State.Fragment else p))
  else Returned (Break (with_buffer p (append_code_point (buffer p) c))).

Definition fragment_state (p : parser) (c : Z) : outcome step_result :=
  if negb (c =? end_of_file) then
    Returned (Break (with_buffer p (append_code_point (buffer p) c)))
  else
    encoder ← must (encoder_for (sv "utf-8"));
    fragment ← percent_encode_after_encoding encoder (buffer p) Fragment false;
    Returned (Break (with_buffer (with_url p (with_fragment (url p) (Some fragment))) [])).

(** ** The loop *)
Definition run_state (p : parser) (c : Z) : outcome step_result :=
  match state p with
  | State.SchemeStart => scheme_start_state p c
  | State.Scheme => scheme_state p c
  | State.NoScheme => no_scheme_state p c
  | State.SpecialRelativeOrAuthority => special_relative_or_authority_state p c
  | State.PathOrAuthority => path_or_authority_state p c
  | State.Relative => relative_state p c
  | State.RelativeSlash => relative_slash_state p c
  | State.SpecialAuthoritySlashes => special_authority_slashes_state p c
  | State.SpecialAuthorityIgnoreSlashes => special_authority_ignore_slashes_state p c
  | State.Authority => authority_state p c
  | State.Host | State.Hostname => host_state p c
  | State.Port => port_state p c
  | State.File => file_state p c
  | State.FileSlash => file_slash_state p c
  | State.FileHost => file_host_state p c
  | State.PathStart => path_start_state p c
  | State.Path => path_state p c
  | State.OpaquePath => opaque_path_state p c
  | State.Query => query_state p c
  | State.Fragment => fragment_state p c
  end.

(** [code_point = end_of_file; if (!iterator.done()) code_point = *iterator;] *)
Definition current_code_point (p : parser) : outcome Z :=
  if iterator_done (iterator p) then Returned end_of_file else iterator_deref (suffix_at (iterator p)).

(** The result ([true] for a URL, [false] for failure) and the URL. *)
Fixpoint parse_loop (fuel : nat) (p : parser) : outcome (bool * URL) :=
  match fuel with
  | O => OutOfFuel
  | S fuel =>
      c ← current_code_point p;
      result ← run_state p c;
      match result with
      | Continue p => parse_loop fuel p
      | Break p =>
          if iterator_done (iterator p) then Returned (true, url p)
          else it ← increment (iterator p); parse_loop fuel (with_iterator p it)
      | ReturnUrl u => Returned (true, u)
      | ReturnFailure u => Returned (false, u)
      end
  end.

End Parse.

(** ** [Parser::basic_parse] *)

(** The two loops that skip leading and trailing C0 controls and spaces. *)
Fixpoint skip_leading (fuel : nat) (raw_input : bytes) (start_index : nat) : outcome nat :=
  match fuel with
  | O => OutOfFuel
  | S fuel =>
      if (start_index <? length raw_input)%nat then
        c ← at_index raw_input start_index;
        if negb (is_ascii_c0_control_or_space c) then Returned start_index
        else skip_leading fuel raw_input (start_index + 1)
      else Returned start_index
  end.

Fixpoint skip_trailing (fuel : nat) (raw_input : bytes) (start_index end_index : nat) : outcome nat :=
  match fuel with
  | O => OutOfFuel
  | S fuel =>
      if (start_index <? end_index)%nat then
        c ← at_index raw_input (end_index - 1);
        if negb (is_ascii_c0_control_or_space c) then Returned end_index
        else skip_trailing fuel raw_input start_index (end_index - 1)
      else Returned end_index
  end.

Section BasicParse.
Context `{Simdutf} `{FastFloat} `{Icu} `{LegacyEncoders}.

(** Steps 1 to 3: the input the state machine runs on. *)
Definition process_input (raw_input : bytes) (url_given : bool) : outcome bytes :=
  '(start_index, end_index) ←
    (if url_given then Returned (0%nat, length raw_input)
     else
       start_index ← skip_leading (S (length raw_input)) raw_input 0;
       end_index ← skip_trailing (S (length raw_input)) raw_input start_index (length raw_input);
       Returned (start_index, end_index));
  len ← size_sub end_index start_index;
  raw_input ← substring_view raw_input start_index len;
  processed_input ← from_utf8_with_replacement_character raw_input;
  if contains_ascii_tab_or_newline processed_input
  then remove_ascii_tab_or_newline processed_input else Returned processed_input.

(** Step 5: the encoder of the query. *)
Definition select_encoder (encoding : option bytes) : outcome Encoder :=
  let selected :=
    match encoding with
    | Some encoding => encoder_for (get_output_encoding encoding)
    | None => None
    end in
  must (match selected with Some e => Some e | None => encoder_for (sv "utf-8") end).

(** Every run of the switch advances the iterator or moves down one of the
    chains of [continue]s, none of which is longer than seven, and the machine
    starts over at most once. *)
Definition parse_fuel (input : bytes) : nat := (16 * (length input + 2))%nat.

Definition basic_parse (raw_input : bytes) (base_url : option URL) (url : option URL)
    (state_override : option State.t) (encoding : option bytes) : outcome (option URL * URL) :=
  input ← process_input raw_input (match url with Some _ => true | None => false end);
  encoder ← select_encoder encoding;
  let state := default State.SchemeStart state_override in
  let p := mk_parser state 0 [] false false false [] [] (default new_url url) encoder in
  '(ok, u) ← parse_loop input base_url state_override (parse_fuel input) p;
  Returned (if (ok : bool) then Some u else None, u).

(** [URL::complete_url] *)
Definition complete_url (base : URL) (relative_url : bytes) : outcome (option URL) :=
  fst <$> basic_parse relative_url (Some base) None None None.

End BasicParse.
