(* ===== verification/UrlWellFormed.v ===== *)
(** * Well-formed URLs

    The invariant of the URL records the parser produces, and what the
    operations the parser composes preserve of it. *)
From S2P Require Import Prelude CharacterTypes Externals Utf8 StringView Format PercentEncoding Ipv4 Ipv6 Host PublicSuffix TextCodec Origin Url UrlParser.

(** ** Components *)
Definition is_scheme_char (c : Z) : bool :=
  is_ascii_lower_alpha c || is_ascii_digit c || (c =? c_plus) || (c =? c_minus) || (c =? c_dot).

(** A scheme is a lower-case letter followed by scheme characters. *)
Definition scheme_ok (s : bytes) : Prop :=
  is_ascii_lower_alpha (default 0 (head s)) = true ∧ Forall (λ c, is_scheme_char c = true) s.

(** The bytes of a path segment: path-encoded, without separators. *)
Definition segment_byte (special : bool) (b : Z) : Prop :=
  encoded_byte Path b ∧ b ≠ c_slash ∧ (special = true → b ≠ c_backslash).

(** A segment is never one of the dot segments, in any spelling. *)
Definition segment_ok (special : bool) (s : bytes) : Prop :=
  Forall (segment_byte special) s
  ∧ is_single_dot_path_segment s = false ∧ is_double_dot_path_segment s = false.

(** The host of a special URL is a domain or an address, or empty when the
    scheme is "file"; the host of other URLs is opaque. *)
Definition host_ok (s : bytes) (h : Host) : Prop :=
  if is_special_scheme s then host_wf false h ∨ (s = sv "file" ∧ h = HostString [])
  else host_wf true h.

Definition port_ok (s : bytes) (n : Z) : Prop :=
  0 ≤ n < 2 ^ 16 ∧ default_port_for_scheme s ≠ Some n.

Definition query_set (special : bool) : PercentEncodeSet := if special then SpecialQuery else Query.

(** ** Records *)
Record url_core (u : URL) : Prop := {
  core_scheme : scheme_ok (scheme u);
  core_username : Forall (encoded_byte Userinfo) (username u);
  core_password : Forall (encoded_byte Userinfo) (password u);
  core_host : match host u with Some h => host_ok (scheme u) h | None => is_special u = false end;
  core_port : match port u with Some n => port_ok (scheme u) n | None => True end;
  core_authority : includes_credentials u = true ∨ is_Some (port u) →
    cannot_have_a_username_or_password_or_port u = false;
  core_path :
    if has_an_opaque_path u then
      is_special u = false ∧ host u = None ∧ ∃ s, paths u = [s] ∧ Forall (encoded_byte C0Control) s
    else Forall (segment_ok (is_special u)) (paths u);
  core_query : match query u with
    Some q => Forall (encoded_byte (query_set (is_special u))) q | None => True end;
  core_fragment : match fragment u with Some f => Forall (encoded_byte Fragment) f | None => True end;
}.

(** A path is empty only after an authority, in a URL that is not special. *)
Definition url_wf (u : URL) : Prop :=
  url_core u ∧ (paths u = [] → is_special u = false ∧ is_Some (host u)).

(** ** Schemes *)
Lemma special_scheme_cases s :
  is_special_scheme s = true ↔
  s = sv "ftp" ∨ s = sv "file" ∨ s = sv "http" ∨ s = sv "https" ∨ s = sv "ws" ∨ s = sv "wss".
Proof.
  unfold is_special_scheme. cbn [existsb special_schemes].
  rewrite !orb_true_iff, !bool_decide_eq_true. naive_solver.
Qed.

Lemma file_is_special : is_special_scheme (sv "file") = true.
Proof. done. Qed.

Lemma append_as_lowercase_scheme c :
  is_ascii_alphanumeric c || (c =? c_plus) || (c =? c_minus) || (c =? c_dot) = true →
  ∃ c', append_as_lowercase [] c = [c'] ∧ is_scheme_char c' = true
    ∧ (is_ascii_alpha c = true → is_ascii_lower_alpha c' = true).
Proof.
  intros Hc. unfold append_as_lowercase. eexists. split; [done|]. unfold is_scheme_char.
  unfold_ctypes. case_match; bool_to_prop; lia.
Qed.

Lemma append_as_lowercase_app s c : append_as_lowercase s c = s ++ append_as_lowercase [] c.
Proof. done. Qed.

Lemma scheme_ok_start c : is_ascii_alpha c = true → scheme_ok (append_as_lowercase [] c).
Proof.
  intros Hc. destruct (append_as_lowercase_scheme c) as (c' & -> & Hs & Hl).
  { revert Hc. unfold_ctypes. lia. }
  split; [by apply Hl|by apply Forall_singleton].
Qed.

Lemma scheme_ok_append s c :
  scheme_ok s →
  is_ascii_alphanumeric c || (c =? c_plus) || (c =? c_minus) || (c =? c_dot) = true →
  scheme_ok (append_as_lowercase s c).
Proof.
  intros [Hh Hs] Hc. destruct (append_as_lowercase_scheme c Hc) as (c' & Hc' & Hsc & _).
  rewrite append_as_lowercase_app, Hc'. split; [by destruct s|].
  apply Forall_app. split; [done|by apply Forall_singleton].
Qed.

Lemma scheme_ok_nonempty s : scheme_ok s → s ≠ [].
Proof. intros [Hh _] ->. done. Qed.

Lemma is_scheme_char_byte s : Forall (λ c, is_scheme_char c = true) s → Forall is_byte s.
Proof.
  intros Hs. eapply Forall_impl; [done|]. intros c. unfold is_scheme_char, is_byte. unfold_ctypes. lia.
Qed.

(** ** Path segments *)
Lemma dot_segments_nil : is_single_dot_path_segment [] = false ∧ is_double_dot_path_segment [] = false.
Proof. done. Qed.

Lemma segment_ok_nil special : segment_ok special [].
Proof. by split; [|apply dot_segments_nil]. Qed.

Lemma drive_letter_segment special segment a :
  is_windows_drive_letter segment = true → segment !! 0%nat = Some a → segment_ok special [a; c_colon].
Proof.
  intros Hd Ha. destruct segment as [|x [|y [|]]]; try done. simpl in Ha. injection Ha as ->.
  cbn [is_windows_drive_letter] in Hd. apply andb_prop in Hd as [Hd _].
  assert (a ≠ c_slash ∧ a ≠ c_backslash ∧ a ≠ c_dot ∧ encoded_byte Path a) as (? & ? & ? & ?).
  { split_and!; [intros ->; done..|]. unfold encoded_byte. unfold_ctypes. split; [lia|right].
    simpl. unfold in_Path, in_Query, in_C0Control, contains_as_char, contains_char. cbn [existsb].
    rewrite Z.mod_small by lia. lia. }
  split.
  - apply Forall_cons. split; [done|]. apply Forall_singleton. split; [split; [lia|by right]|done].
  - unfold is_single_dot_path_segment, is_double_dot_path_segment, equals_ignoring_ascii_case.
    rewrite !bool_decide_eq_false_2 by (intros [= ?]; done). done.
Qed.

(** ** Appending a percent-encoded code point *)
Lemma encode_code_point_segment special c :
  0 ≤ c ≤ 0x10FFFF → c ≠ c_slash → (special = true → c ≠ c_backslash) →
  Forall (segment_byte special) (encode_code_point Path c).
Proof.
  intros Hc Hs Hb. pose proof (encode_code_point_encoded Path c Hc) as Henc.
  unfold encode_code_point in *. destruct (code_point_is_in_percent_encode_set c Path).
  - pose proof (code_point_to_utf8_bytes c Hc) as Hbytes. clear -Hbytes.
    induction Hbytes as [|b bs Hb Hbs IH]; [constructor|]. cbn [flat_map]. apply Forall_app. split; [|done].
    pose proof (pct_encoded Path b Hb) as Hp. unfold is_byte in Hb. unfold pct in *.
    assert (∀ d, 0 ≤ d < 16 → lookup_digit true d ≠ c_slash ∧ lookup_digit true d ≠ c_backslash) as Hd.
    { intros d Hd. rewrite <-(Z2Nat.id d) by lia. assert (Z.to_nat d < 16)%nat as Hn by lia. revert Hn.
      generalize (Z.to_nat d). intros n Hn. do 16 (destruct n as [|n]; [done|]). lia. }
    rewrite !Forall_cons in Hp |- *. destruct Hp as (H1 & H2 & H3 & _).
    destruct (Hd (b / 16)) as [? ?]; [div_lia|]. destruct (Hd (b mod 16)) as [? ?]; [div_lia|].
    unfold segment_byte. split_and!; done || constructor.
  - rewrite Forall_singleton in Henc. apply Forall_singleton. by split; [|split].
Qed.

(** ** The query and the fragment *)
Lemma encode_output_encoded set output o :
  match o with OnByte b => is_byte b | OnError c => 0 ≤ c ≤ 0x10FFFF end →
  (∀ b, is_ascii_digit b = true → code_point_is_in_percent_encode_set b set = false) →
  (∀ b, is_ascii_upper_alpha b = true → code_point_is_in_percent_encode_set b set = false) →
  Forall (encoded_byte set) output →
  ∃ output', encode_output set false output o = Returned output' ∧ Forall (encoded_byte set) output'.
Proof.
  intros Ho Hdigit Hupper Hout. destruct o as [byte|c]; cbn [encode_output andb].
  - unfold is_byte in Ho. destruct (code_point_is_in_percent_encode_set byte set) eqn:E; cbn [negb].
    + rewrite append_percent_byte_pct by done. eexists. split; [done|]. apply Forall_app.
      split; [done|by apply pct_encoded].
    + pose proof (not_in_set_printable byte set ltac:(lia) E) as Hr.
      unfold append_code_point, is_unicode. rewrite (proj2 (Z.leb_le byte 0x10FFFF)) by lia.
      rewrite code_point_to_utf8_arith by lia. unfold utf8_form. rewrite (proj2 (Z.leb_le byte 0x7f)) by lia.
      eexists. split; [done|]. apply Forall_app. split; [done|]. apply Forall_singleton.
      split; [lia|by right].
  - destruct (format_decimal_printed c) as (s & -> & Hp); [lia|]. cbn [mbind outcome_bind].
    eexists. split; [done|]. rewrite !Forall_app.
    assert (∀ b, is_ascii_digit b = true ∨ is_ascii_upper_alpha b = true ∨ b = c_percent →
      encoded_byte set b) as Henc.
    { intros b Hb. split; [revert Hb; unfold_ctypes; lia|]. destruct Hb as [Hb|[Hb|Hb]]; auto. }
    split_and!; [done|..].
    + repeat (apply Forall_cons; split; [apply Henc; vm_compute; tauto|]). constructor.
    + apply printed_decimal in Hp as [_ Hp]. apply forallb_Forall in Hp.
      eapply Forall_impl; [done|]. auto.
    + repeat (apply Forall_cons; split; [apply Henc; vm_compute; tauto|]). constructor.
Qed.

Lemma digits_not_encoded (set : PercentEncodeSet) b :
  is_ascii_digit b = true ∨ is_ascii_upper_alpha b = true → code_point_is_in_percent_encode_set b set = false.
Proof.
  intros Hb. assert (implb (is_ascii_digit b || is_ascii_upper_alpha b)
    (negb (code_point_is_in_percent_encode_set b set)) = true) as Hf.
  { apply (for_all_ascii_sets (λ b set, implb (is_ascii_digit b || is_ascii_upper_alpha b)
      (negb (code_point_is_in_percent_encode_set b set)))); [vm_compute; done|].
    revert Hb. unfold_ctypes. lia. }
  rewrite (proj2 (orb_true_iff _ _) Hb) in Hf. cbn [implb] in Hf. by apply negb_true_iff in Hf.
Qed.

(** What the callbacks write for one byte of the UTF-8 encoder. *)
Definition encode_byte (set : PercentEncodeSet) (space_as_plus : bool) (b : Z) : bytes :=
  if space_as_plus && (b =? c_space) then [c_plus]
  else if code_point_is_in_percent_encode_set b set then pct b else [b].

Lemma encode_byte_output set space_as_plus output b :
  is_byte b → encode_output set space_as_plus output (OnByte b) = Returned (output ++ encode_byte set space_as_plus b).
Proof.
  intros Hb. unfold encode_byte. cbn [encode_output]. destruct (space_as_plus && (b =? c_space)); [done|].
  destruct (code_point_is_in_percent_encode_set b set) eqn:E; cbn [negb]; [by apply append_percent_byte_pct|].
  unfold is_byte in Hb. pose proof (not_in_set_printable b set ltac:(lia) E) as Hr.
  unfold append_code_point, is_unicode. rewrite (proj2 (Z.leb_le b 0x10FFFF)) by lia.
  rewrite code_point_to_utf8_arith by lia. unfold utf8_form. by rewrite (proj2 (Z.leb_le b 0x7f)) by lia.
Qed.

Lemma encode_byte_encoded set b : is_byte b → Forall (encoded_byte set) (encode_byte set false b).
Proof.
  intros Hb. unfold encode_byte. cbn [andb].
  destruct (code_point_is_in_percent_encode_set b set) eqn:E; [by apply pct_encoded|].
  apply Forall_singleton. unfold is_byte in Hb. pose proof (not_in_set_printable b set ltac:(lia) E).
  split; [lia|by right].
Qed.

Lemma encode_byte_ascii set space_as_plus s :
  Forall is_byte s → forallb is_ascii (flat_map (encode_byte set space_as_plus) s) = true.
Proof.
  intros Hs. apply forallb_Forall, Forall_forall. intros x (b & Hx & Hb)%list_elem_of_In%in_flat_map.
  rewrite <-list_elem_of_In in Hx, Hb. rewrite Forall_forall in Hs. specialize (Hs b Hx).
  pose proof (encode_byte_encoded set b Hs) as He. unfold encode_byte in *. cbn [andb] in He.
  destruct (space_as_plus && (b =? c_space)); [by apply list_elem_of_singleton in Hb as ->|].
  rewrite Forall_forall in He. destruct (He x Hb). unfold is_ascii. lia.
Qed.

Section Encoders.
Context `{SimdutfOk} `{LegacyEncodersOk}.

Lemma percent_encode_after_utf8 set space_as_plus s :
  Forall is_byte s →
  percent_encode_after_encoding s_utf8_encoder s set space_as_plus
  = Returned (flat_map (encode_byte set space_as_plus) s).
Proof.
  intros Hs. unfold percent_encode_after_encoding. cbn [encoder_process].
  assert (∀ out, encode_outputs set space_as_plus out (OnByte <$> s)
    = Returned (out ++ flat_map (encode_byte set space_as_plus) s)) as Hout.
  { clear -Hs. induction Hs as [|b s Hb Hs IH]; intros out; [by rewrite app_nil_r|].
    cbn [fmap list_fmap encode_outputs flat_map]. rewrite encode_byte_output by done.
    cbn [mbind outcome_bind]. by rewrite IH, <-app_assoc. }
  rewrite (Hout []). cbn [mbind outcome_bind app]. by apply must_to_string_ascii, encode_byte_ascii.
Qed.

Lemma percent_encode_after_encoding_encoded encoder input set :
  Forall is_byte input →
  ∃ out, percent_encode_after_encoding encoder input set false = Returned out
    ∧ Forall (encoded_byte set) out.
Proof.
  intros Hi. pose proof (encoder_process_range encoder input Hi) as Hos.
  unfold percent_encode_after_encoding.
  assert (∀ output, Forall (encoded_byte set) output →
    ∃ out, encode_outputs set false output (encoder_process encoder input) = Returned out
      ∧ Forall (encoded_byte set) out) as Hout.
  { induction Hos as [|o os Ho Hos IH]; intros output Hout; [by eexists|]. cbn [encode_outputs].
    destruct (encode_output_encoded set output o Ho) as (out & -> & Henc);
      [intros; apply digits_not_encoded; auto..|done|]. cbn [mbind outcome_bind]. by apply IH. }
  destruct (Hout [] ltac:(constructor)) as (out & -> & Henc). cbn [mbind outcome_bind].
  rewrite must_to_string_ascii by (by eapply encoded_ascii). by eexists.
Qed.

End Encoders.

(** ** Credentials, hosts and ports *)
Lemma includes_credentials_false u : includes_credentials u = false ↔ username u = [] ∧ password u = [].
Proof.
  unfold includes_credentials. rewrite orb_false_iff, !negb_false_iff, !bool_decide_eq_true. done.
Qed.

Lemma host_wf_nonempty h : host_wf false h → is_empty_host h = false.
Proof.
  destruct h as [| |s]; try done. intros (Hne & _). cbn [is_empty_host]. by apply bool_decide_eq_false.
Qed.

Section HostParser.
Context `{SimdutfOk} `{FastFloatOk} `{Icu} `{!IcuOk}.

Lemma encode_code_point_nonempty set c : 0 ≤ c ≤ 0x10FFFF → encode_code_point set c ≠ [].
Proof.
  intros Hc. pose proof (code_point_to_utf8_nonempty c Hc). unfold encode_code_point.
  case_match; [|done]. by destruct (code_point_to_utf8 c).1.
Qed.

(** Only the empty string is parsed as the empty host. *)
Lemma parse_host_nonempty input is_opaque h :
  Forall is_byte input → input ≠ [] → parse_host input is_opaque = Returned (Some h) → is_empty_host h = false.
Proof.
  intros Hi Hne Hp. destruct is_opaque.
  2:{ destruct (parse_host_returns input false Hi ltac:(done)) as (r & Hr & Hwf).
      apply host_wf_nonempty, Hwf. congruence. }
  unfold parse_host in Hp. destruct (starts_with_char input c_lbracket).
  - destruct (negb _); [done|]. apply bind_returned in Hp as (len & _ & Hp).
    apply bind_returned in Hp as (inner & _ & Hp). apply bind_returned in Hp as ([a|] & _ & [= <-]). done.
  - rewrite parse_opaque_host_returns in Hp by done. case_match; simplify_eq. cbn [is_empty_host].
    apply bool_decide_eq_false. pose proof (code_points_range input Hi) as Hr.
    destruct (iterator_deref_returns input Hne) as [c Hc].
    rewrite (code_points_unfold input c) in Hr |- * by done. apply Forall_cons in Hr as [Hr _].
    cbn [flat_map]. pose proof (encode_code_point_nonempty C0Control c Hr).
    by destruct (encode_code_point C0Control c).
Qed.

(** A parsed host is one the URL may have. *)
Lemma parse_host_ok u input :
  Forall is_byte input → (is_special u = true → input ≠ []) →
  ∃ r, parse_host input (negb (is_special u)) = Returned r ∧ ∀ h, r = Some h →
    host_ok (scheme u) h ∧ (input ≠ [] → is_empty_host h = false).
Proof.
  intros Hi Hne. destruct (parse_host_returns input (negb (is_special u)) Hi) as (r & Hr & Hwf).
  { intros Hs. apply Hne. by destruct (is_special u). }
  exists r. split; [done|]. intros h ->. specialize (Hwf h eq_refl). split.
  - unfold host_ok. fold (is_special u). destruct (is_special u); [by left|done].
  - intros Hin. by eapply parse_host_nonempty.
Qed.

End HostParser.

(** ** Path operations *)
Lemma shorten_urls_path_returns u :
  has_an_opaque_path u = false →
  ∃ n, shorten_urls_path u = Returned (with_paths u (take n (paths u))).
Proof.
  intros Ho. unfold shorten_urls_path. rewrite verify_true by (by rewrite Ho). case_match.
  - exists (length (paths u)). rewrite take_ge by done. by destruct u.
  - by eexists.
Qed.

Lemma finish_segment_returns u segment c :
  has_an_opaque_path u = false → Forall (segment_ok (is_special u)) (paths u) →
  Forall (segment_byte (is_special u)) segment →
  ∃ segments, finish_segment u segment c = Returned (with_paths u segments)
    ∧ Forall (segment_ok (is_special u)) segments
    ∧ ((c =? c_slash) || (is_special u && (c =? c_backslash)) = false → segments ≠ []).
Proof.
  intros Ho Hp Hs. unfold finish_segment. cbv zeta.
  destruct (is_double_dot_path_segment segment) eqn:E2.
  { destruct (shorten_urls_path_returns u Ho) as (n & ->). cbn [mbind outcome_bind].
    assert (Forall (segment_ok (is_special u)) (take n (paths u))) as Ht by (by apply Forall_take).
    case_match.
    - eexists. split; [done|]. by split.
    - exists (take n (paths u) ++ [[]]). split; [done|]. split.
      + apply Forall_app. split; [done|]. apply Forall_singleton, segment_ok_nil.
      + intros _. by destruct (take n (paths u)). }
  destruct (is_single_dot_path_segment segment) eqn:E1.
  { case_match.
    - exists (paths u). split; [by destruct u|]. by split.
    - exists (paths u ++ [[]]). split; [done|]. split.
      + apply Forall_app. split; [done|]. apply Forall_singleton, segment_ok_nil.
      + intros _. by destruct (paths u). }
  destruct (bool_decide (scheme u = sv "file") && _ && _) eqn:Ed.
  - apply andb_prop in Ed as [_ Ed]. destruct segment as [|a segment]; [done|].
    cbn [at_index must lookup list_lookup mbind outcome_bind].
    exists (paths u ++ [[a; c_colon]]). split; [done|]. split.
    + apply Forall_app. split; [done|]. apply Forall_singleton. by eapply drive_letter_segment.
    + intros _. by destruct (paths u).
  - cbn [mbind outcome_bind]. exists (paths u ++ [segment]). split; [done|]. split.
    + apply Forall_app. split; [done|]. apply Forall_singleton. by split.
    + intros _. by destruct (paths u).
Qed.
