(* ===== verification/UrlSerializer.v ===== *)
(** * Serializing well-formed URLs

    [URL::serialize] and [URL::serialize_for_display] on the URLs the parser
    produces. *)
From S2P Require Import Prelude CharacterTypes Externals Utf8 StringView Format PercentEncoding Ipv4 Ipv6 Host PublicSuffix TextCodec Origin Url UrlParser UrlWellFormed.

Definition printable (b : Z) : Prop := 0x20 ≤ b ≤ 0x7E.

(** ** Components *)
Lemma encoded_printable set s : Forall (encoded_byte set) s → Forall printable s.
Proof. intros Hs. eapply Forall_impl; [done|]. by intros b [? _]. Qed.

Lemma scheme_printable s : scheme_ok s → Forall printable s.
Proof.
  intros [_ Hs]. eapply Forall_impl; [done|]. intros b. unfold is_scheme_char, printable. unfold_ctypes. lia.
Qed.

Lemma segments_printable special segments :
  Forall (segment_ok special) segments → Forall printable (serialize_segments segments).
Proof.
  unfold serialize_segments. induction 1 as [|s segments [Hs _] _ IH]; [constructor|]. cbn [mbind list_bind].
  constructor; [unfold printable; lia|]. apply Forall_app. split; [|done].
  eapply Forall_impl; [exact Hs|]. by intros b [[? _] _].
Qed.

Lemma printed_printable n s : printed_number 10 n s → Forall printable s.
Proof.
  intros [_ Hd]%printed_decimal. apply forallb_Forall in Hd. eapply Forall_impl; [done|].
  intros b. unfold printable. unfold_ctypes. lia.
Qed.

Section Host.
Context `{FastFloatOk}.

Lemma host_serialize_returns s h :
  host_ok s h → ∃ out, host_serialize h = Returned out ∧ Forall printable out.
Proof.
  intros Hok. assert (∃ b, host_wf b h ∨ h = HostString []) as (is_opaque & Hwf).
  { unfold host_ok in Hok. destruct (is_special_scheme s); [exists false|exists true; by left].
    destruct Hok as [|[_ ?]]; [by left|by right]. }
  destruct Hwf as [Hwf|Hh]; [|exists []; rewrite Hh; split; [done|constructor]].
  destruct h as [address|m_data|d]; cbn [host_serialize].
  - destruct Hwf as [_ Ha]. destruct (ipv4_parse_serialized address Ha) as (out & -> & _ & [_ Hc]).
    exists out. split; [done|]. eapply Forall_impl; [done|]. intros b. unfold printable. unfold_ctypes. lia.
  - destruct Hwf as [Hl Hb]. destruct (ipv6_parse_serialized m_data Hl Hb) as (out & -> & _ & Hc).
    cbn [mbind outcome_bind]. eexists. split; [done|]. rewrite !Forall_app, !Forall_singleton.
    split_and!; [unfold printable; lia| |unfold printable; lia].
    eapply Forall_impl; [done|]. intros b. unfold ipv6_char, printable. unfold_ctypes. lia.
  - exists d. split; [done|]. destruct is_opaque; cbn [host_wf] in Hwf.
    + destruct Hwf as [Hd _]. by eapply encoded_printable.
    + destruct Hwf as (_ & Ha & Hf & _). eapply Forall_impl; [exact (proj2 (Forall_and _ _) (conj Ha Hf))|].
      intros b [Hb Hbf]. unfold forbidden_domain, ascii_byte, forbidden_host, printable in *.
      unfold_ctypes. apply orb_false_iff in Hbf as [[[Hh Hc]%orb_false_iff _]%orb_false_iff H7f].
      assert (b ≠ 0x20) by (by intros ->). lia.
Qed.

Lemma serialize_authority_returns u credentials :
  url_core u → ∃ out, serialize_authority u credentials = Returned out ∧ Forall printable out.
Proof.
  intros [Hs Hn Hp Hh Hpo _ _ _ _]. unfold serialize_authority, serialized_host.
  destruct (host u) as [h|] eqn:Eh; [|eexists; split; [done|constructor]]. cbn [must mbind outcome_bind].
  destruct (host_serialize_returns _ _ Hh) as (out & -> & Hout). cbn [mbind outcome_bind].
  assert (∃ p, match port u with
    | Some p => digits ← format_decimal p; Returned ([c_colon] ++ digits)
    | None => Returned [] end = Returned p ∧ Forall printable p) as (p & -> & Hport).
  { destruct (port u) as [n|]; [|eexists; split; [done|constructor]]. destruct Hpo as [Hr _].
    destruct (format_decimal_printed n) as (digits & -> & Hd); [lia|]. cbn [mbind outcome_bind].
    eexists. split; [done|]. constructor; [unfold printable; lia|]. by eapply printed_printable. }
  cbn [mbind outcome_bind]. eexists. split; [done|]. rewrite !Forall_app.
  split_and!; [vm_compute; repeat constructor; done| |done|done].
  destruct (credentials && includes_credentials u); [|constructor]. rewrite !Forall_app, Forall_singleton.
  split_and!; [by eapply encoded_printable| |unfold printable; lia].
  destruct (bool_decide (password u = [])); [constructor|]. constructor; [unfold printable; lia|].
  by eapply encoded_printable.
Qed.

Lemma serialize_path_returns u :
  url_core u → ∃ out, serialize_path u = Returned out ∧ Forall printable out.
Proof.
  intros Hcore. pose proof (core_path _ Hcore) as Hp. unfold serialize_path.
  destruct (has_an_opaque_path u).
  - destruct Hp as (_ & _ & s & Hp & Hs). rewrite Hp. exists s. split; [done|by eapply encoded_printable].
  - eexists. split; [done|]. by eapply segments_printable.
Qed.

Lemma query_and_fragment_printable u exclude_fragment :
  url_core u → Forall printable (serialize_query_and_fragment u exclude_fragment).
Proof.
  intros [_ _ _ _ _ _ _ Hq Hf]. unfold serialize_query_and_fragment. apply Forall_app. split.
  - destruct (query u); [|constructor]. constructor; [unfold printable; lia|]. by eapply encoded_printable.
  - destruct exclude_fragment, (fragment u); try constructor; [unfold printable; lia|]. by eapply encoded_printable.
Qed.

Lemma serialize_returns u exclude_fragment :
  url_core u → ∃ out, serialize u exclude_fragment = Returned out ∧ Forall printable out.
Proof.
  intros Hcore. unfold serialize.
  destruct (serialize_authority_returns u true Hcore) as (a & -> & Ha). cbn [mbind outcome_bind].
  destruct (serialize_path_returns u Hcore) as (p & -> & Hp). cbn [mbind outcome_bind].
  eexists. split; [done|]. rewrite !Forall_app, Forall_singleton.
  split_and!; [apply scheme_printable, Hcore|unfold printable; lia|done| |done|by apply query_and_fragment_printable].
  destruct (needs_path_prefix u); [|constructor]. vm_compute; repeat constructor; done.
Qed.

(** serializing a well-formed URL returns: no host is missing where one is
    printed, no path is empty where its first segment is read, and no port is
    out of range; every byte of the result is printable ASCII. *)
Theorem serialize_printable (u : URL) (exclude_fragment : ExcludeFragment) (Hwf : url_wf u) :
  ∃ out, serialize u exclude_fragment = Returned out ∧ Forall printable out.
Proof. apply serialize_returns, Hwf. Qed.

End Host.

(** ** What is displayed *)

(** what is displayed for a URL is what the URL without its credentials
    serializes to; so it does not depend on them. *)
Theorem serialize_for_display_hides_credentials (u : URL) :
  serialize_for_display u = serialize (with_password (with_username u []) []) ExcludeFragmentNo.
Proof. by destruct u as [s n p h po ps q f [] b]. Qed.

(** ** A concrete URL *)
Definition url_example : URL :=
  mk_url (sv "file") [] [] (Some (HostString [])) None [sv "a"] None (Some (sv "f")) false None.

Lemma url_example_wf : url_wf url_example.
Proof.
  split; [|done]. constructor; try done.
  - split; [done|]. vm_compute. by repeat constructor.
  - by right.
  - by intros [?|[? ?]].
  - apply Forall_singleton. split; [|done]. apply Forall_singleton. split; [|done].
    split; [vm_compute; by split|by right].
  - apply Forall_singleton. split; [vm_compute; by split|by right].
Qed.

Lemma serialize_printable_witness :
  ∃ out, serialize url_example ExcludeFragmentNo = Returned out ∧ Forall printable out.
Proof.
  apply (@serialize_printable fast_float_example fast_float_example_ok url_example ExcludeFragmentNo).
  exact url_example_wf.
Defined.
