(* ===== verification/UrlParserInvariant.v ===== *)
(** * The invariant of the URL parser's loop

    What holds of the parser's variables at the start of every run of the
    switch, one clause per state, and the measure that every run decreases.
    UrlParserSteps shows that every state preserves it. *)
From S2P Require Import Prelude CharacterTypes Externals Utf8 StringView Format PercentEncoding Ipv4 Ipv6 Host PublicSuffix TextCodec Origin Url UrlParser UrlWellFormed.

Section Invariant.
Context (input : bytes) (base_url : option URL) (state_override : option State.t).

(** ** Stages of the URL being built *)

(** Nothing but the scheme is set. *)
Definition blank (u : URL) : Prop := u = with_scheme new_url (scheme u).

(** The scheme is set to one that has an authority. *)
Definition authority_scheme (u : URL) : Prop := scheme_ok (scheme u) ∧ scheme u ≠ sv "file".

(** The scheme and the credentials are set. *)
Definition before_host (u : URL) : Prop :=
  authority_scheme u
  ∧ u = with_password (with_username (with_scheme new_url (scheme u)) (username u)) (password u)
  ∧ Forall (encoded_byte Userinfo) (username u) ∧ Forall (encoded_byte Userinfo) (password u).

(** Everything up to the path is set. *)
Definition path_stage (u : URL) : Prop := url_core u ∧ has_an_opaque_path u = false.

(** A "file" URL before its path. *)
Definition file_stage (u : URL) : Prop :=
  u = with_host (with_scheme new_url (sv "file")) (host u)
  ∧ match host u with Some h => host_ok (sv "file") h | None => False end.

(** No at sign was read. *)
Definition no_credentials (p : parser) : Prop :=
  at_sign_seen p = false ∧ username_builder p = [] ∧ password_builder p = [].

(** ** Positions *)

(** The byte before the iterator is ASCII. *)
Definition after_ascii (it : nat) : Prop :=
  (0 < it)%nat ∧ ∃ b, input !! (it - 1)%nat = Some b ∧ b < 0x80.

(** No byte from [i] up to [j] is an authority delimiter. *)
Definition no_delimiter (u : URL) (i j : nat) : Prop :=
  ∀ k b, (i ≤ k < j)%nat → input !! k = Some b → contains_char (authority_delimiters u) b = false.

(** The first authority delimiter from here on is an at sign. *)
Definition at_sign_ahead (u : URL) (it : nat) : Prop :=
  ∃ m, (it ≤ m)%nat ∧ input !! m = Some c_at ∧ no_delimiter u it m.

(** Here ends an authority. *)
Definition at_authority_end (u : URL) (it : nat) : Prop :=
  match input !! it with
  | None => True
  | Some b => ends_authority u b = true
  end.

(** The base URL the relative states use. *)
Definition relative_base (s : bytes) : Prop :=
  ∃ base, base_url = Some base ∧ scheme base = s ∧ s ≠ sv "file" ∧ has_an_opaque_path base = false.

(** ** One clause per state *)
Definition state_invariant (p : parser) : Prop :=
  let u := url p in
  match state p with
  | State.SchemeStart => state_override = None ∧ u = new_url ∧ buffer p = [] ∧ no_credentials p
  | State.Scheme => state_override = None ∧ u = new_url ∧ scheme_ok (buffer p) ∧ no_credentials p
      ∧ (0 < iterator p)%nat
  | State.NoScheme => state_override = None ∧ u = new_url ∧ buffer p = [] ∧ no_credentials p
  | State.SpecialRelativeOrAuthority =>
      state_override = None ∧ blank u ∧ scheme_ok (scheme u) ∧ is_special u = true ∧ relative_base (scheme u)
      ∧ buffer p = [] ∧ no_credentials p
  | State.PathOrAuthority =>
      state_override = None ∧ blank u ∧ scheme_ok (scheme u) ∧ is_special u = false
      ∧ buffer p = [] ∧ no_credentials p
  | State.Relative =>
      state_override = None ∧ blank u ∧ (∃ s, relative_base s) ∧ buffer p = [] ∧ no_credentials p
  | State.RelativeSlash =>
      state_override = None ∧ blank u ∧ scheme_ok (scheme u) ∧ relative_base (scheme u)
      ∧ buffer p = [] ∧ no_credentials p
  | State.SpecialAuthoritySlashes | State.SpecialAuthorityIgnoreSlashes =>
      state_override = None ∧ blank u ∧ authority_scheme u ∧ buffer p = [] ∧ no_credentials p
      ∧ after_ascii (iterator p)
  | State.Authority =>
      state_override = None ∧ blank u ∧ authority_scheme u ∧ (0 < iterator p)%nat
      ∧ Forall (encoded_byte Userinfo) (username_builder p)
      ∧ Forall (encoded_byte Userinfo) (password_builder p)
      ∧ (at_sign_seen p = false → no_credentials p)
      ∧ (after_ascii (iterator p) ∨ at_sign_ahead u (iterator p))
  | State.Host =>
      state_override = None ∧ before_host u ∧ Forall is_byte (buffer p)
      ∧ (includes_credentials u = true → buffer p ≠ [] ∨ ¬ at_authority_end u (iterator p))
  | State.Hostname => False
  | State.Port =>
      state_override = None ∧ path_stage u ∧ paths u = [] ∧ port u = None ∧ Forall is_byte (buffer p)
      ∧ is_Some (host u)
      ∧ (cannot_have_a_username_or_password_or_port u = false
         ∨ (buffer p = [] ∧ at_authority_end u (iterator p)))
  | State.File => state_override = None ∧ blank u ∧ buffer p = []
  | State.FileSlash => state_override = None ∧ file_stage u ∧ buffer p = []
  | State.FileHost => state_override = None ∧ file_stage u ∧ Forall is_byte (buffer p)
  | State.PathStart =>
      path_stage u ∧ paths u = [] ∧ buffer p = [] ∧ (is_Some state_override ∨ is_Some (host u))
  | State.Path => path_stage u ∧ Forall (segment_byte (is_special u)) (buffer p)
  | State.OpaquePath =>
      state_override = None ∧ url_wf u ∧ has_an_opaque_path u = true ∧ paths u = [[]]
      ∧ Forall (encoded_byte C0Control) (buffer p)
  | State.Query | State.Fragment => url_wf u ∧ Forall is_byte (buffer p)
  end.

(** ** The measure *)
Definition rank (s : State.t) : nat :=
  match s with
  | State.Path | State.OpaquePath | State.Query | State.Fragment => 0
  | State.PathStart | State.Relative | State.RelativeSlash | State.File | State.FileSlash
  | State.PathOrAuthority => 1
  | State.Port | State.FileHost | State.NoScheme | State.SpecialRelativeOrAuthority => 2
  | State.Host | State.Hostname | State.SchemeStart | State.Scheme => 3
  | State.Authority => 4
  | State.SpecialAuthorityIgnoreSlashes => 5
  | State.SpecialAuthoritySlashes => 6
  end.

(** The scheme states may start over once. *)
Definition may_restart (s : State.t) : bool :=
  match s with State.SchemeStart | State.Scheme => true | _ => false end.

Definition measure (p : parser) : nat :=
  ((if may_restart (state p) then 8 * (length input + 2) else 0)
   + 8 * (length input + 1 - iterator p) + rank (state p))%nat.

(** ** What one run of the switch must establish

    For an invariant of the variables and a property of the URL on failure. *)
Definition in_bounds (inv : parser → Prop) (p : parser) : Prop := (iterator p ≤ length input)%nat ∧ inv p.

Definition step_goal (inv : parser → Prop) (failed : URL → Prop) (p : parser) (r : step_result) : Prop :=
  match r with
  | Continue p' => in_bounds inv p' ∧ (measure p' < measure p)%nat
  | Break p' =>
      if iterator_done input (iterator p') then url_wf (url p')
      else ∃ it', increment input (iterator p') = Returned it'
             ∧ in_bounds inv (with_iterator p' it') ∧ (measure (with_iterator p' it') < measure p)%nat
  | ReturnUrl u => url_wf u
  | ReturnFailure u => failed u
  end.

(** ** The code point under the iterator *)
Inductive code_point_at (it : nat) : Z → Prop :=
| at_eof : it = length input → code_point_at it end_of_file
| at_ascii b : input !! it = Some b → 0 ≤ b < 0x80 → code_point_at it b
| at_high b c : input !! it = Some b → 0x80 ≤ b → 0x80 ≤ c ≤ 0x10FFFF → code_point_at it c.

Context (Hinput : valid_utf8 input).

Lemma input_bytes : Forall is_byte input.
Proof. by apply valid_utf8_bytes. Qed.

Lemma iterator_done_spec it : (it ≤ length input)%nat → iterator_done input it = bool_decide (it = length input).
Proof.
  intros Hit. unfold iterator_done, suffix_at. apply bool_decide_ext. split.
  - intros Hd. apply (f_equal length) in Hd. rewrite length_drop in Hd. simpl in Hd. lia.
  - intros ->. apply drop_all.
Qed.

Lemma iterator_not_done it : (it < length input)%nat → iterator_done input it = false.
Proof. intros Hit. rewrite iterator_done_spec by lia. apply bool_decide_eq_false. lia. Qed.

Lemma suffix_nonempty it : (it < length input)%nat → suffix_at input it ≠ [].
Proof.
  intros Hit Hd. apply (f_equal length) in Hd. unfold suffix_at in Hd. rewrite length_drop in Hd.
  simpl in Hd. lia.
Qed.

Lemma current_code_point_spec p :
  (iterator p ≤ length input)%nat →
  ∃ c, current_code_point input p = Returned c ∧ code_point_at (iterator p) c.
Proof.
  intros Hit. unfold current_code_point. rewrite iterator_done_spec by done.
  case_bool_decide as He; [eexists; split; [done|by constructor]|].
  destruct (lookup_lt_is_Some_2 input (iterator p)) as [b Hb]; [lia|].
  destruct (iterator_deref_returns (suffix_at input (iterator p))) as [c Hc]; [apply suffix_nonempty; lia|].
  exists c. split; [done|].
  destruct (valid_utf8_deref input (iterator p) b c Hinput Hb Hc) as [[? ->]|[? ?]].
  - constructor; [done|]. assert (is_byte b) as [? ?] by (eapply Forall_lookup_1; [apply input_bytes|done]). lia.
  - by econstructor.
Qed.

Lemma code_point_at_lt it c : code_point_at it c → c ≠ end_of_file → (it < length input)%nat.
Proof. intros [|b Hb|b c' Hb] Hc; [done|by eapply lookup_lt_Some..]. Qed.

Lemma code_point_at_range it c : code_point_at it c → c ≠ end_of_file → 0 ≤ c ≤ 0x10FFFF.
Proof. intros [|b Hb|b c' Hb] Hc; [done|lia..]. Qed.

Lemma code_point_at_eof it : code_point_at it end_of_file → it = length input.
Proof. inversion 1; [done|unfold end_of_file in *; lia..]. Qed.

Lemma code_point_at_ascii it c : code_point_at it c → 0 ≤ c < 0x80 → input !! it = Some c.
Proof. intros [|b Hb|b c' Hb] Hc; [unfold end_of_file in Hc; lia|done|lia]. Qed.

(** Whether the authority ends here can be read off the byte or the code point. *)
Lemma code_point_at_authority_end u it c :
  code_point_at it c → ends_authority u c = true ↔ at_authority_end u it.
Proof.
  unfold at_authority_end. intros [->|b Hb Hr|b c' Hb Hb' Hc'].
  - rewrite lookup_ge_None_2 by done. done.
  - by rewrite Hb.
  - rewrite Hb. unfold ends_authority, end_of_file.
    assert (is_byte b) as [_ ?] by (eapply Forall_lookup_1; [apply input_bytes|done]).
    assert (∀ x, 0x80 ≤ x ≤ 0x10FFFF →
      (x =? 0xFFFFFFFF) || (x =? c_slash) || (x =? c_question) || (x =? c_hash)
      || (is_special u && (x =? c_backslash)) = false) as Hf.
    { intros x Hx. rewrite (proj2 (Z.eqb_neq x c_backslash)) by lia. rewrite andb_false_r. lia. }
    rewrite !Hf by lia. done.
Qed.

Lemma increment_spec it :
  (it < length input)%nat →
  increment input it = Returned (it + iterator_step (drop it input))%nat
  ∧ (1 ≤ iterator_step (drop it input) ≤ length input - it)%nat.
Proof.
  intros Hit. pose proof (suffix_nonempty it Hit) as Hne. unfold increment.
  rewrite iterator_next_drop by done. cbn [mbind outcome_bind]. unfold suffix_at in *.
  pose proof (iterator_step_bounds _ Hne) as Hs. rewrite length_drop in Hs.
  split; [|lia]. rewrite !length_drop. f_equal. lia.
Qed.

Lemma increment_ascii it b :
  input !! it = Some b → b < 0x80 → increment input it = Returned (it + 1)%nat.
Proof.
  intros Hb Hlt. pose proof (lookup_lt_Some _ _ _ Hb) as Hit.
  rewrite (proj1 (increment_spec it Hit)). unfold iterator_step.
  rewrite (drop_S _ _ _ Hb). cbn [head default]. unfold id. rewrite (proj2 (Z.leb_le b 0x7F)) by lia. done.
Qed.

(** ** Ending a step *)
Section Step.
Context (inv : parser → Prop) (failed : URL → Prop).

Lemma step_break_eof p p' : iterator p' = length input → url_wf (url p') → step_goal inv failed p (Break p').
Proof.
  intros Hit Hu. cbn [step_goal]. rewrite Hit, iterator_done_spec by lia. by rewrite bool_decide_eq_true_2.
Qed.

(** A run that breaks before the end of the input goes on one code point later. *)
Lemma step_break_next p p' :
  iterator p' = iterator p → (iterator p < length input)%nat →
  (may_restart (state p') = true → may_restart (state p) = true) →
  (∀ it', increment input (iterator p) = Returned it' → (iterator p < it' ≤ length input)%nat →
    inv (with_iterator p' it')) →
  step_goal inv failed p (Break p').
Proof.
  intros Hit Hlt Hr Hinv. cbn [step_goal]. rewrite Hit, iterator_not_done by done.
  destruct (increment_spec (iterator p) Hlt) as [Hinc Hs]. rewrite Hinc.
  set (it' := (iterator p + iterator_step _)%nat) in *. exists it'. split; [done|].
  assert (iterator p < it' ≤ length input)%nat as Hb by (unfold it'; lia).
  split; [split; [simpl; lia|by apply Hinv]|].
  unfold measure. cbn [state iterator with_iterator]. destruct (may_restart (state p')).
  - rewrite Hr by done. destruct (state p'); simpl; lia.
  - destruct (state p'), (may_restart (state p)); simpl; lia.
Qed.

(** After an ASCII code point the iterator is one byte further. *)
Lemma step_break_ascii p p' c :
  iterator p' = iterator p → code_point_at (iterator p) c → 0 ≤ c < 0x80 →
  (may_restart (state p') = true → may_restart (state p) = true) →
  (after_ascii (iterator p + 1) → (iterator p + 1 ≤ length input)%nat →
   inv (with_iterator p' (iterator p + 1))) →
  step_goal inv failed p (Break p').
Proof.
  intros Hit Hc Hr Hm Hinv. pose proof (code_point_at_ascii _ _ Hc Hr) as Hb.
  pose proof (lookup_lt_Some _ _ _ Hb) as Hlt.
  apply step_break_next; [done..|]. intros it' Hinc Hit'.
  rewrite (increment_ascii _ c Hb) in Hinc by lia. injection Hinc as <-. apply Hinv; [|lia].
  split; [lia|]. exists c. rewrite Nat.add_sub. split; [done|lia].
Qed.

Lemma step_continue p p' :
  iterator p' = iterator p → (iterator p ≤ length input)%nat →
  (may_restart (state p') = true → may_restart (state p) = true) →
  (rank (state p') < rank (state p))%nat → inv p' → step_goal inv failed p (Continue p').
Proof.
  intros Hit Hle Hr Hrank Hinv. split; [split; [lia|done]|]. unfold measure. rewrite Hit.
  destruct (may_restart (state p')) eqn:E; [rewrite Hr by done; lia|].
  destruct (may_restart (state p)); lia.
Qed.

End Step.
End Invariant.
