(* ===== verification/UrlParserSteps.v ===== *)
(** * Every state of the URL parser preserves the invariant *)
From S2P Require Import Prelude CharacterTypes Externals Utf8 StringView Format PercentEncoding Ipv4 Ipv6 Host PublicSuffix TextCodec Origin Url UrlParser UrlWellFormed UrlParserInvariant.

Section Steps.
Context `{SimdutfOk} `{FastFloatOk} `{Icu} `{!IcuOk} `{LegacyEncodersOk}.
Context (input : bytes) (base_url : option URL) (state_override : option State.t).
Context (Hinput : valid_utf8 input) (Hbase : ∀ base, base_url = Some base → url_wf base).

Notation sinv := (state_invariant input base_url state_override).
Notation inv := (in_bounds input sinv).
Notation ok := (step_goal input sinv (λ _, True)).
Notation at_cp := (code_point_at input).

(** The goal of every lemma below. *)
Definition preserved (p : parser) (m : outcome step_result) : Prop :=
  ∃ r, m = Returned r ∧ ok p r.

Lemma preserved_intro p r : ok p r → preserved p (Returned r).
Proof. by exists r. Qed.

Lemma preserved_failure p u : preserved p (Returned (ReturnFailure u)).
Proof. by apply preserved_intro. Qed.

Hint Resolve preserved_failure : ladybird.

(** The clause of the invariant, when the state is known or is that of [p]. *)
Ltac same_state H :=
  unfold state_invariant; cbn [state with_iterator with_buffer with_url with_inside_brackets with_credentials with_encoder];
  rewrite H; cbn.

(** Comparisons of code points. *)
Ltac cp_lia := unfold_ctypes; unfold end_of_file in *; bool_to_prop; lia.

Lemma overridden_None : state_override = None → overridden state_override = false.
Proof. intros ->. done. Qed.

Lemma blank_with_scheme u s : blank u → blank (with_scheme u s).
Proof. unfold blank. by intros ->. Qed.

(** ** What remains *)
Lemma input_from_spec it : (it ≤ length input)%nat → input_from input it = Returned (drop it input).
Proof.
  intros Hit. unfold input_from. rewrite size_sub_le by done. cbn [mbind outcome_bind].
  rewrite substring_view_in_range by lia. by rewrite take_ge by (rewrite length_drop; lia).
Qed.

Lemma get_remaining_ascii p b :
  input !! iterator p = Some b → b < 0x80 →
  get_remaining input p = Returned (drop (iterator p + 1) input).
Proof.
  intros Hb Hlt. pose proof (lookup_lt_Some _ _ _ Hb) as Hit. unfold get_remaining, suffix_at.
  rewrite (drop_S _ _ _ Hb). cbn [underlying_code_point_length_in_bytes mbind outcome_bind].
  unfold code_point_length. cbn [head default]. unfold id.
  assert (is_byte b) as Hbyte by (eapply Forall_lookup_1; [by apply input_bytes|done]).
  rewrite decode_leading_byte_spec by done. unfold leading_byte_reference.
  rewrite (proj2 (Z.ltb_lt b 0x80)) by lia. cbn [length Nat.ltb Nat.sub take forallb].
  rewrite (proj2 (Nat.ltb_ge _ _)) by lia. cbn. apply input_from_spec. lia.
Qed.

Lemma starts_with_slash (s : bytes) : starts_with s (sv "/") CaseSensitive = true ↔ head s = Some c_slash.
Proof.
  change (sv "/") with [c_slash]. unfold starts_with. destruct s as [|x s]; [done|].
  cbn [length Nat.ltb Nat.leb head take]. rewrite take_0, bool_decide_eq_true. naive_solver.
Qed.

Lemma head_drop_lookup (i : nat) : head (drop i input) = input !! i.
Proof.
  rewrite <-(Nat.add_0_r i) at 2. rewrite <-lookup_drop. by destruct (drop i input).
Qed.

(** A break after the iterator was moved over one more ASCII code point. *)
Lemma step_break_twice p p' c b :
  at_cp (iterator p) c → 0 ≤ c < 0x80 → input !! (iterator p + 1)%nat = Some b → b < 0x80 →
  iterator p' = (iterator p + 1)%nat → may_restart (state p') = false →
  (after_ascii input (iterator p + 2) → (iterator p + 2 ≤ length input)%nat →
   sinv (with_iterator p' (iterator p + 2))) →
  ok p (Break p').
Proof.
  intros Hc Hr Hb Hlt Hit Hm Hinv. pose proof (lookup_lt_Some _ _ _ Hb) as Hl.
  cbn [step_goal]. rewrite Hit, iterator_not_done by done. rewrite (increment_ascii _ _ b) by done.
  eexists. split; [done|]. replace (iterator p + 1 + 1)%nat with (iterator p + 2)%nat by lia.
  split; [split; [simpl; lia|]|].
  - apply Hinv; [|lia]. split; [lia|]. exists b. by replace (iterator p + 2 - 1)%nat with (iterator p + 1)%nat by lia.
  - unfold measure. cbn [state iterator with_iterator]. rewrite Hm.
    destruct (state p'), (may_restart (state p)); simpl; lia.
Qed.

(** The invariant of the states after the authority, as introduction rules. *)
Lemma sinv_path p :
  state p = State.Path → path_stage (url p) → Forall (segment_byte (is_special (url p))) (buffer p) → sinv p.
Proof. unfold state_invariant. by intros ->. Qed.

Lemma sinv_path_empty p : state p = State.Path → path_stage (url p) → buffer p = [] → sinv p.
Proof. intros Hst Hu Hb. apply sinv_path; [done..|]. rewrite Hb. constructor. Qed.

Lemma sinv_tail p :
  state p = State.Query ∨ state p = State.Fragment → url_wf (url p) → Forall is_byte (buffer p) → sinv p.
Proof. unfold state_invariant. by intros [->| ->]. Qed.

Lemma sinv_tail_empty p :
  state p = State.Query ∨ state p = State.Fragment → url_wf (url p) → buffer p = [] → sinv p.
Proof. intros Hst Hu Hb. apply sinv_tail; [done..|]. rewrite Hb. constructor. Qed.

(** ** Scheme states *)
Lemma scheme_start_preserved p c :
  inv p → state p = State.SchemeStart → at_cp (iterator p) c →
  preserved p (scheme_start_state state_override p c).
Proof.
  intros [Hit Hs] Hst Hc. unfold state_invariant in Hs. rewrite Hst in Hs.
  destruct Hs as (Hov & Hu & Hbuf & Hnc). apply preserved_intro. unfold scheme_start_state.
  rewrite overridden_None by done. cbn [negb].
  destruct (is_ascii_alpha c) eqn:Ea.
  - eapply step_break_ascii; [done|exact Hc|cp_lia|by rewrite Hst|].
    intros Haft Hle. cbn. split_and!; try done; [|apply Haft].
    rewrite Hbuf. by apply scheme_ok_start.
  - apply step_continue; [done|done|by intros|rewrite Hst; simpl; lia|]. by cbn.
Qed.

Lemma special_base_not_opaque base : url_wf base → is_special base = true → has_an_opaque_path base = false.
Proof.
  intros [Hcore _] Hsp. pose proof (core_path _ Hcore) as Hp.
  destruct (has_an_opaque_path base); [|done]. destruct Hp as [Hns _]. congruence.
Qed.

Lemma opaque_url_wf s : scheme_ok s → is_special_scheme s = false →
  url_wf (append_slash (with_opaque_path (with_scheme new_url s) true)).
Proof.
  intros Hs Hns. split; [|done].
  constructor; cbn; try done; [by intros [|[]]|]. split_and!; [done..|]. by exists [].
Qed.

Lemma scheme_preserved p c :
  inv p → state p = State.Scheme → at_cp (iterator p) c →
  preserved p (scheme_state input base_url state_override p c).
Proof.
  intros [Hit Hs] Hst Hc. unfold state_invariant in Hs. rewrite Hst in Hs.
  destruct Hs as (Hov & Hu & Hbuf & Hnc & Hpos). unfold scheme_state.
  rewrite overridden_None by done. cbn [negb andb].
  destruct (is_ascii_alphanumeric c || _ || _ || _) eqn:Esc.
  { apply preserved_intro. eapply step_break_ascii; [done|exact Hc|revert Esc; cp_lia|by rewrite Hst|].
    intros Haft Hle. same_state Hst. split_and!; try done; [|apply Haft]. by apply scheme_ok_append. }
  destruct (Z.eqb_spec c c_colon) as [->|Hcolon].
  2:{ apply preserved_intro. split; [split; [simpl; lia|by cbn]|].
      unfold measure. cbn. rewrite Hst. simpl. lia. }
  assert (input !! iterator p = Some c_colon) as Hb by (by apply (code_point_at_ascii _ _ _ Hc)).
  assert (∀ x, get_remaining input (with_url (with_buffer p []) x) = Returned (drop (iterator p + 1) input)) as Hrem.
  { intros x. by apply (get_remaining_ascii (with_url (with_buffer p []) x) c_colon). }
  set (u := with_scheme (url p) (buffer p)) in *.
  assert (blank u) as Hblank by (unfold u; by rewrite Hu).
  assert (scheme u = buffer p) as Hsu by done.
  assert (is_special u = is_special_scheme (buffer p)) as Hspu by done.
  destruct (bool_decide (scheme u = sv "file")) eqn:Efile; bool_to_prop.
  { rewrite Hrem. cbn [mbind outcome_bind]. apply preserved_intro.
    eapply step_break_ascii; [done|exact Hc|done|done|]. intros Haft Hle. by cbn. }
  destruct (is_special u && base_scheme_is base_url (scheme u)) eqn:Ebase.
  { apply andb_prop in Ebase as [Hsp Hbs]. unfold base_scheme_is, the_base in *.
    destruct base_url as [base|] eqn:Eb; [|done]. bool_to_prop. cbn [must mbind outcome_bind].
    assert (is_special base = true) as Hspb by (unfold is_special in *; by rewrite Hbs).
    rewrite verify_true by done. apply preserved_intro.
    eapply step_break_ascii; [done|exact Hc|done|done|]. intros Haft Hle. cbn. split_and!; try done.
    exists base. split_and!; try done. apply special_base_not_opaque; [by apply Hbase|done]. }
  destruct (is_special u) eqn:Hsp.
  { apply preserved_intro. eapply step_break_ascii; [done|exact Hc|done|done|].
    intros Haft Hle. by cbn. }
  rewrite Hrem. cbn [mbind outcome_bind].
  destruct (starts_with _ (sv "/") CaseSensitive) eqn:Eslash.
  - apply starts_with_slash in Eslash. rewrite head_drop_lookup in Eslash.
    cbn [iterator with_url with_buffer]. rewrite (increment_ascii _ _ c_colon) by done.
    cbn [mbind outcome_bind]. apply preserved_intro.
    eapply step_break_twice; [exact Hc|done|exact Eslash|done|done|done|]. intros Haft Hle. by cbn.
  - apply preserved_intro. eapply step_break_ascii; [done|exact Hc|done|done|].
    intros Haft Hle. cbn. unfold u. rewrite Hu. split_and!; try done. by apply opaque_url_wf.
Qed.

(** With an opaque base only a fragment can be given. *)
Lemma fragment_of_opaque_wf base :
  url_wf base → has_an_opaque_path base = true →
  url_wf (with_opaque_path (with_fragment (with_query (with_paths (with_scheme new_url (scheme base))
    (paths base)) (query base)) (Some [])) true).
Proof.
  intros [[Hsc _ _ _ _ _ Hp Hq _] _] Ho. rewrite Ho in Hp. destruct Hp as (Hns & Hh & s & Hpaths & Hs).
  split; [|cbn; by rewrite Hpaths].
  constructor; cbn; try done; [by intros [|[]]|]. split_and!; [done..|]. by exists s.
Qed.

Lemma no_scheme_preserved p c :
  inv p → state p = State.NoScheme → at_cp (iterator p) c →
  preserved p (no_scheme_state base_url p c).
Proof.
  intros [Hit Hs] Hst Hc. unfold state_invariant in Hs. rewrite Hst in Hs.
  destruct Hs as (Hov & Hu & Hbuf & Hnc). unfold no_scheme_state.
  destruct base_url as [base|] eqn:Eb; [|auto with ladybird].
  assert (url_wf base) as Hwf by (by apply Hbase). apply preserved_intro.
  destruct (has_an_opaque_path base) eqn:Ho; cbn [andb].
  - destruct (Z.eqb_spec c c_hash) as [->|]; [|done].
    eapply step_break_ascii; [done|exact Hc|done|done|]. intros Haft Hle. cbn. rewrite Hu, Hbuf.
    split; [by apply fragment_of_opaque_wf|constructor].
  - case_bool_decide; cbn [negb].
    + apply step_continue; [done..|rewrite Hst; simpl; lia|]. cbn. by rewrite Hu.
    + apply step_continue; [done..|rewrite Hst; simpl; lia|]. cbn. rewrite Hu.
      split_and!; try done. exists (scheme base), base. done.
Qed.

(** ** Relative states *)

(** The test of two states for two slashes. *)
Lemma second_slash_spec p c :
  at_cp (iterator p) c →
  ∃ b : bool,
    (if c =? c_slash
     then remaining ← get_remaining input p; Returned (starts_with remaining (sv "/") CaseSensitive)
     else Returned false) = Returned b
    ∧ (b = true → c = c_slash ∧ input !! iterator p = Some c_slash
                 ∧ input !! (iterator p + 1)%nat = Some c_slash).
Proof.
  intros Hc. destruct (Z.eqb_spec c c_slash) as [->|]; [|by exists false].
  pose proof (code_point_at_ascii _ _ _ Hc ltac:(done)) as Hb.
  rewrite (get_remaining_ascii _ c_slash) by done. eexists. split; [done|].
  rewrite starts_with_slash, head_drop_lookup. done.
Qed.

Lemma special_relative_or_authority_preserved p c :
  inv p → state p = State.SpecialRelativeOrAuthority → at_cp (iterator p) c →
  preserved p (special_relative_or_authority_state input p c).
Proof.
  intros [Hit Hs] Hst Hc. unfold state_invariant in Hs. rewrite Hst in Hs.
  destruct Hs as (Hov & Hu & Hsc & Hsp & Hrb & Hbuf & Hnc). unfold special_relative_or_authority_state.
  assert (authority_scheme (url p)) as Ha by (split; [done|]; by destruct Hrb as (? & ? & ? & ? & ?)).
  destruct (second_slash_spec p c Hc) as ([] & -> & Hslash); cbn [mbind outcome_bind].
  - destruct Hslash as (-> & Hb & Hb'); [done|]. rewrite (increment_ascii _ _ c_slash) by done.
    apply preserved_intro. eapply step_break_twice; [exact Hc|done|exact Hb'|done|done|done|].
    intros Haft Hle. by cbn.
  - apply preserved_intro, step_continue; [done..|rewrite Hst; simpl; lia|]. cbn. split_and!; eauto.
Qed.

Lemma blank_path_stage u : blank u → scheme_ok (scheme u) → is_special u = false → path_stage u.
Proof.
  intros Hu Hs Hns. rewrite Hu. split; [|done].
  constructor; cbn; try done. by intros [|[]].
Qed.

Lemma path_or_authority_preserved p c :
  inv p → state p = State.PathOrAuthority → at_cp (iterator p) c →
  preserved p (path_or_authority_state p c).
Proof.
  intros [Hit Hs] Hst Hc. unfold state_invariant in Hs. rewrite Hst in Hs.
  destruct Hs as (Hov & Hu & Hsc & Hns & Hbuf & Hnc). apply preserved_intro. unfold path_or_authority_state.
  destruct (Z.eqb_spec c c_slash) as [->|Hne].
  - eapply step_break_ascii; [done|exact Hc|done|done|]. intros Haft Hle. cbn.
    destruct Hnc as (Hat & Hn & Hp). rewrite Hn, Hp. split_and!; try done; [|lia|by left].
    split; [done|]. intros Hf. unfold is_special in Hns. by rewrite Hf in Hns.
  - apply step_continue; [done..|rewrite Hst; simpl; lia|]. cbn. rewrite Hbuf.
    split; [by apply blank_path_stage|constructor].
Qed.

(** The URL that takes everything but the path, query and fragment from a base URL. *)
Lemma copy_core base ps q f :
  url_core base → Forall (segment_ok (is_special base)) ps →
  match q with Some q => Forall (encoded_byte (query_set (is_special base))) q | None => True end →
  match f with Some f => Forall (encoded_byte Fragment) f | None => True end →
  path_stage (mk_url (scheme base) (username base) (password base) (host base) (port base) ps q f false None).
Proof. intros [Hs Hn Hp Hh Hpo Ha _ _ _] Hps Hq Hf. split; [|done]. by constructor. Qed.

Lemma base_segments base :
  url_core base → has_an_opaque_path base = false → Forall (segment_ok (is_special base)) (paths base).
Proof. intros Hcore Ho. pose proof (core_path _ Hcore) as Hp. by rewrite Ho in Hp. Qed.

Hint Resolve base_segments : ladybird.

Lemma copy_wf base q f :
  url_wf base → has_an_opaque_path base = false →
  match q with Some q => Forall (encoded_byte (query_set (is_special base))) q | None => True end →
  match f with Some f => Forall (encoded_byte Fragment) f | None => True end →
  url_wf (mk_url (scheme base) (username base) (password base) (host base) (port base) (paths base) q f false None).
Proof.
  intros [Hcore Hpath] Ho Hq Hf. split; [|done]. apply (copy_core base); auto with ladybird.
Qed.

(** What the relative state takes from the base URL. *)
Lemma inherit_eq u base :
  with_query (with_paths (with_port (with_host (with_password (with_username
    (with_scheme u (scheme base)) (username base)) (password base)) (host base)) (port base)) (paths base))
    (query base)
  = mk_url (scheme base) (username base) (password base) (host base) (port base) (paths base) (query base)
      (fragment u) (has_an_opaque_path u) (blob_url_entry u).
Proof. by destruct u, base. Qed.

Lemma relative_preserved p c :
  inv p → state p = State.Relative → at_cp (iterator p) c →
  preserved p (relative_state base_url p c).
Proof.
  intros [Hit Hs] Hst Hc. unfold state_invariant in Hs. rewrite Hst in Hs.
  destruct Hs as (Hov & Hu & (s & base & Hb & Hs & Hnf & Ho) & Hbuf & Hnc).
  assert (url_wf base) as Hwf by (by apply Hbase). pose proof Hwf as [Hcore _].
  unfold relative_state, the_base. rewrite Hb. cbn [must mbind outcome_bind].
  rewrite verify_true by (by rewrite bool_decide_eq_false_2 by congruence). cbv zeta.
  assert (∀ u, is_special (with_scheme u (scheme base)) = is_special base) as Hspb by done.
  rewrite Hu, Hspb, inherit_eq. cbn [fragment has_an_opaque_path blob_url_entry with_scheme new_url].
  destruct ((c =? c_slash) || (is_special base && (c =? c_backslash))) eqn:Eslash.
  { apply preserved_intro. eapply step_break_ascii; [done|exact Hc|revert Eslash; cp_lia|done|].
    intros Haft Hle. cbn. split_and!; try done; [apply Hcore|]. exists base. split_and!; congruence. }
  destruct (Z.eqb_spec c c_question) as [->|Hnq].
  { apply preserved_intro. eapply step_break_ascii; [done|exact Hc|done|done|]. intros Haft Hle.
    apply sinv_tail_empty; [by left| |done]. apply (copy_wf base); [done..|constructor|done]. }
  destruct (Z.eqb_spec c c_hash) as [->|Hnh].
  { apply preserved_intro. eapply step_break_ascii; [done|exact Hc|done|done|]. intros Haft Hle.
    apply sinv_tail_empty; [by right| |done]. apply (copy_wf base); [done..|apply Hcore|constructor]. }
  destruct (Z.eqb_spec c end_of_file) as [->|Hne]; cbn [negb].
  - apply preserved_intro, step_break_eof; [by apply code_point_at_eof|].
    apply (copy_wf base); [done..|apply Hcore|done].
  - destruct (shorten_urls_path_returns (with_query (mk_url (scheme base) (username base) (password base)
      (host base) (port base) (paths base) (query base) None false None) None))
      as (n & ->); [done|]. cbn [mbind outcome_bind].
    apply preserved_intro, step_continue; [done..|rewrite Hst; simpl; lia|].
    apply sinv_path_empty; [done| |done].
    apply (copy_core base); [done|by apply Forall_take, (base_segments base)|done..].
Qed.

Lemma relative_slash_preserved p c :
  inv p → state p = State.RelativeSlash → at_cp (iterator p) c →
  preserved p (relative_slash_state base_url p c).
Proof.
  intros [Hit Hs] Hst Hc. unfold state_invariant in Hs. rewrite Hst in Hs.
  destruct Hs as (Hov & Hu & Hsc & (base & Hb & Hs & Hnf & Ho) & Hbuf & Hnc).
  assert (url_wf base) as [Hcore _] by (by apply Hbase).
  assert (authority_scheme (url p)) as Ha by done.
  unfold relative_slash_state, the_base. rewrite Hb. cbn [must mbind outcome_bind].
  destruct (is_special (url p) && _) eqn:Esp.
  { apply preserved_intro. eapply step_break_ascii; [done|exact Hc|revert Esp; cp_lia|done|].
    intros Haft Hle. by cbn. }
  destruct (Z.eqb_spec c c_slash) as [->|].
  { apply preserved_intro. eapply step_break_ascii; [done|exact Hc|done|done|]. intros Haft Hle. cbn.
    destruct Hnc as (Hat & Hn & Hp). rewrite Hn, Hp. split_and!; try done; [lia|by left]. }
  apply preserved_intro, step_continue; [done..|rewrite Hst; simpl; lia|].
  apply sinv_path_empty; [done| |done]. cbn [url with_state with_url]. rewrite Hu, <-Hs. by apply (copy_core base).
Qed.

(** ** Authority states *)
Lemma special_authority_slashes_preserved p c :
  inv p → state p = State.SpecialAuthoritySlashes → at_cp (iterator p) c →
  preserved p (special_authority_slashes_state input p c).
Proof.
  intros [Hit Hs] Hst Hc. unfold state_invariant in Hs. rewrite Hst in Hs.
  destruct Hs as (Hov & Hu & Ha & Hbuf & Hnc & Haft). unfold special_authority_slashes_state.
  destruct (second_slash_spec p c Hc) as ([] & -> & Hslash); cbn [mbind outcome_bind].
  - destruct Hslash as (-> & Hb & Hb'); [done|]. rewrite (increment_ascii _ _ c_slash) by done.
    apply preserved_intro. eapply step_break_twice; [exact Hc|done|exact Hb'|done|done|done|].
    intros Haft' Hle. by cbn.
  - apply preserved_intro, step_continue; [done..|rewrite Hst; simpl; lia|]. by cbn.
Qed.

Lemma special_authority_ignore_slashes_preserved p c :
  inv p → state p = State.SpecialAuthorityIgnoreSlashes → at_cp (iterator p) c →
  preserved p (special_authority_ignore_slashes_state p c).
Proof.
  intros [Hit Hs] Hst Hc. unfold state_invariant in Hs. rewrite Hst in Hs.
  destruct Hs as (Hov & Hu & Ha & Hbuf & Hnc & Haft). apply preserved_intro.
  unfold special_authority_ignore_slashes_state.
  destruct (negb (c =? c_slash) && negb (c =? c_backslash)) eqn:E.
  - apply step_continue; [done..|rewrite Hst; simpl; lia|]. cbn.
    destruct Hnc as (Hat & Hn & Hp). rewrite Hn, Hp. split_and!; try done; [apply Haft|by left].
  - eapply step_break_ascii; [done|exact Hc|revert E; cp_lia|done|]. intros Haft' Hle. by same_state Hst.
Qed.

(** What the authority state scans: from a few bytes above 0x7F after the iterator on. *)
Lemma get_remaining_including_code_point_spec p c :
  (iterator p ≤ length input)%nat → current_code_point input p = Returned c →
  ∃ d, get_remaining_including_code_point input p c = Returned (drop (iterator p + d) input)
    ∧ (iterator p + d ≤ length input)%nat
    ∧ (∀ j b, (iterator p ≤ j < iterator p + d)%nat → input !! j = Some b → 0x80 ≤ b).
Proof.
  intros Hle Hc. destruct (current_code_point_spec _ Hinput p Hle) as (c' & Hc' & Hcp).
  assert (c' = c) as -> by congruence. clear Hc'.
  destruct (Z.eqb_spec c end_of_file) as [->|Hne].
  { apply code_point_at_eof in Hcp. exists 0%nat. rewrite Nat.add_0_r, Hcp, drop_all.
    split_and!; [done|lia|]. intros j b Hj. lia. }
  pose proof (code_point_at_lt _ _ _ Hcp Hne) as Hit.
  unfold current_code_point in Hc. rewrite iterator_not_done in Hc by done.
  pose proof (suffix_nonempty _ _ Hit) as Hs. unfold suffix_at in *.
  assert (Forall is_byte (drop (iterator p) input)) as Hb by (by apply Forall_drop, input_bytes).
  pose proof (code_point_length_units _ _ Hs Hb Hc) as Hunits.
  pose proof (code_point_length_bounds _ Hs) as Hlen. rewrite length_drop in Hlen.
  unfold get_remaining_including_code_point, suffix_at. rewrite (proj2 (Z.eqb_neq _ _) Hne).
  set (n := code_point_length (drop (iterator p) input)) in *.
  set (k := code_unit_length_for_code_point c) in *.
  assert (1 ≤ k)%nat as Hk by (unfold k, code_unit_length_for_code_point; case_match; lia).
  destruct (drop (iterator p) input) as [|x l] eqn:Ed; [done|].
  cbn [underlying_code_point_length_in_bytes mbind outcome_bind].
  fold n. rewrite size_sub_le by lia. cbn [mbind outcome_bind].
  exists (n - k)%nat. replace (iterator p + n - k)%nat with (iterator p + (n - k))%nat by lia.
  rewrite input_from_spec by lia. split_and!; [done|lia|]. intros j b Hj Hjb.
  destruct (Z.lt_ge_cases b 0x80) as [Hlt|]; [exfalso|done].
  assert ((x :: l) !! (j - iterator p)%nat = Some b) as Hjb'.
  { rewrite <-Ed, lookup_drop. by replace (iterator p + (j - iterator p))%nat with j by lia. }
  pose proof (code_point_length_ascii _ _ _ Hb Hjb' Hlt) as Hmax. fold n in Hmax. lia.
Qed.

(** The first authority delimiter from an offset on. *)
Lemma authority_scan u i :
  (i ≤ length input)%nat →
  let remaining := drop i input in
  let n := default (length remaining) (find_any_of remaining (authority_delimiters u)) in
  (i + n ≤ length input)%nat ∧ no_delimiter input u i (i + n) ∧ remaining !! n = input !! (i + n)%nat
  ∧ match input !! (i + n)%nat with
    | Some b => contains_char (authority_delimiters u) b = true
    | None => True
    end.
Proof.
  intros Hi remaining n. pose proof (find_any_of_spec remaining (authority_delimiters u)) as Hf.
  assert (∀ j, remaining !! j = input !! (i + j)%nat) as Hl by (intros j; apply lookup_drop).
  assert (length remaining = length input - i)%nat as Hlen by apply length_drop.
  assert (∀ m, (∀ j b, (j < m)%nat → remaining !! j = Some b → contains_char (authority_delimiters u) b = false) →
    no_delimiter input u i (i + m)) as Hnd.
  { intros m Hm k b Hk Hb. apply (Hm (k - i)%nat); [lia|]. rewrite Hl. by replace (i + (k - i))%nat with k by lia. }
  subst n. destruct (find_any_of remaining _) as [k|]; cbn [default]; unfold id.
  - destruct Hf as [(b & Hb & Hc) Hj]. pose proof (lookup_lt_Some _ _ _ Hb). rewrite Hl in Hb. rewrite Hb.
    split_and!; auto; [lia|]. by rewrite Hl.
  - split_and!; [lia| |apply Hl|].
    + apply Hnd. intros j b _. apply Hf.
    + rewrite lookup_ge_None_2 by lia. done.
Qed.

Lemma delimiter_ascii u b : contains_char (authority_delimiters u) b = true → b < 0x80.
Proof. unfold authority_delimiters, contains_char. destruct (is_special u); cbn; lia. Qed.

Lemma at_sign_delimiter u : contains_char (authority_delimiters u) c_at = true.
Proof. unfold authority_delimiters. by destruct (is_special u). Qed.

Lemma authority_end_delimiter u b :
  is_byte b → ends_authority u b = true → contains_char (authority_delimiters u) b = true.
Proof.
  unfold is_byte, ends_authority, end_of_file, authority_delimiters, contains_char.
  destruct (is_special u); cbn; lia.
Qed.

Lemma no_delimiter_high u i j k :
  (∀ n b, (i ≤ n < j)%nat → input !! n = Some b → 0x80 ≤ b) → no_delimiter input u j k →
  no_delimiter input u i k.
Proof.
  intros Hhigh Hnd n b Hn Hb. destruct (Nat.lt_ge_cases n j) as [|]; [|apply (Hnd n); [lia|done]].
  pose proof (Hhigh n b ltac:(lia) Hb). destruct (contains_char _ b) eqn:E; [|done].
  apply delimiter_ascii in E. lia.
Qed.

(** The credentials keep their encoding; nothing else changes. *)
Definition credentials_encoded (p : parser) : Prop :=
  Forall (encoded_byte Userinfo) (username_builder p) ∧ Forall (encoded_byte Userinfo) (password_builder p).

Lemma authority_credentials_returns p authority :
  Forall is_byte authority → credentials_encoded p →
  ∃ token name secret,
    authority_credentials p authority = Returned (with_credentials p true token name secret)
    ∧ Forall (encoded_byte Userinfo) name ∧ Forall (encoded_byte Userinfo) secret.
Proof.
  intros Ha [Hn Hp]. unfold authority_credentials. cbv zeta.
  assert (Forall (encoded_byte Userinfo) (sv "%40")) as H40.
  { repeat constructor; try done; try (by left); by right. }
  set (start := if at_sign_seen p then _ else _).
  assert (Forall (encoded_byte Userinfo) start.1 ∧ Forall (encoded_byte Userinfo) start.2) as [Hn' Hp'].
  { unfold start. destruct (at_sign_seen p), (password_token_seen p); cbn [fst snd]; rewrite ?Forall_app; auto. }
  destruct start as [name secret]. cbn [fst snd] in *. destruct (password_token_seen p).
  { destruct (percent_encode_returns authority Userinfo Ha) as (out & -> & Hout). cbn [mbind outcome_bind].
    eexists _, _, _. split; [done|]. by rewrite Forall_app. }
  destruct (find_char authority c_colon) as [k|] eqn:Ek.
  - apply find_char_lt in Ek. rewrite substring_view_in_range by lia. cbn [mbind outcome_bind].
    destruct (percent_encode_returns (take k (drop 0 authority)) Userinfo) as (out1 & -> & Hout1);
      [by apply Forall_take, Forall_drop|]. cbn [mbind outcome_bind].
    rewrite substring_view_from_in_range by lia. cbn [mbind outcome_bind].
    destruct (percent_encode_returns (drop (k + 1) authority) Userinfo) as (out2 & -> & Hout2);
      [by apply Forall_drop|]. cbn [mbind outcome_bind].
    eexists _, _, _. split; [done|]. by rewrite !Forall_app.
  - destruct (percent_encode_returns authority Userinfo Ha) as (out & -> & Hout). cbn [mbind outcome_bind].
    eexists _, _, _. split; [done|]. by rewrite Forall_app.
Qed.

(** A break that moved the iterator. *)
Lemma step_break_from p p' :
  (iterator p ≤ iterator p' < length input)%nat → may_restart (state p') = false →
  (∀ it', increment input (iterator p') = Returned it' → (iterator p' < it' ≤ length input)%nat →
    sinv (with_iterator p' it')) →
  ok p (Break p').
Proof.
  intros Hit Hm Hinv. cbn [step_goal]. rewrite iterator_not_done by lia.
  destruct (increment_spec input (iterator p')) as [Hinc Hs]; [lia|]. rewrite Hinc.
  eexists. split; [done|]. split; [split; [simpl; lia|apply Hinv; [done|lia]]|].
  unfold measure. cbn [state iterator with_iterator]. rewrite Hm.
  destruct (state p'), (may_restart (state p)); simpl; lia.
Qed.

(** After an at sign: the iterator is set [d] bytes short of it. *)
Lemma authority_at_sign u i d m it' :
  (m = i + d)%nat → input !! m = Some c_at → increment input i = Returned it' →
  (∀ j, (i ≤ j)%nat → no_delimiter input u j m) →
  after_ascii input it' ∨ at_sign_ahead input u it'.
Proof.
  intros -> Hm Hinc Hnd. pose proof (lookup_lt_Some _ _ _ Hm) as Hlt. destruct d as [|d].
  - left. rewrite Nat.add_0_r in Hm. rewrite (increment_ascii _ _ c_at) in Hinc by done. injection Hinc as <-.
    split; [lia|]. exists c_at. by rewrite Nat.add_sub.
  - right. exists (i + S d)%nat.
    destruct (increment_spec input i) as [Hinc' Hs]; [lia|]. rewrite Hinc' in Hinc. injection Hinc as <-.
    assert (iterator_step (drop i input) ≤ S d)%nat as Hstep.
    { apply (iterator_step_ascii _ _ c_at); [by apply Forall_drop, input_bytes|by rewrite lookup_drop|done|lia]. }
    split_and!; [lia|done|]. apply Hnd. lia.
Qed.

(** The end of the authority: the iterator moves to the byte before the host,
    which is ASCII, and forward again. *)
Lemma authority_to_host p n d :
  inv p → state p = State.Authority → after_ascii input (iterator p) →
  (iterator p + d ≤ length input)%nat →
  (∀ j b, (iterator p ≤ j < iterator p + d)%nat → input !! j = Some b → 0x80 ≤ b) →
  no_delimiter input (url p) (iterator p + d) (iterator p + d + n) →
  (iterator p + d + n ≤ length input)%nat → (at_sign_seen p = true → n ≠ 0%nat) →
  ok p (Break (with_state (with_url (with_buffer (with_iterator p (iterator p - 1)) [])
    (with_username (with_password (url p) (password_builder p)) (username_builder p))) State.Host)).
Proof.
  intros [Hit Hs] Hst (Hpos & b & Hb & Hlt) Hd Hhigh Hnd Hn Hat. unfold state_invariant in Hs.
  rewrite Hst in Hs. destruct Hs as (Hov & Hu & Ha & _ & Hne & Hpe & Hnc & _).
  cbn [step_goal iterator with_state with_url with_buffer with_iterator].
  rewrite iterator_not_done by lia. rewrite (increment_ascii _ _ b) by done.
  replace (iterator p - 1 + 1)%nat with (iterator p) by lia. eexists. split; [done|]. split; [split; [done|]|].
  2:{ unfold measure. cbn. rewrite Hst. simpl. lia. }
  unfold state_invariant. cbn [state with_iterator with_state url with_url buffer with_buffer iterator].
  split_and!; [done| |constructor|].
  - rewrite Hu. by split_and!.
  - intros Hc. right. intros Hend.
    destruct (at_sign_seen p) eqn:Eat.
    2:{ destruct Hnc as (_ & Hn0 & Hp0); [done|]. revert Hc. cbn. by rewrite Hn0, Hp0. }
    specialize (Hat eq_refl). unfold at_authority_end in Hend.
    destruct (input !! iterator p) as [b'|] eqn:Eb; [|apply lookup_ge_None_1 in Eb; lia].
    assert (is_byte b') as Hb' by (eapply Forall_lookup_1; [by apply input_bytes|done]).
    apply (authority_end_delimiter (url p)) in Hend; [|done].
    pose proof (no_delimiter_high _ _ _ _ Hhigh Hnd (iterator p) b' ltac:(lia) Eb). congruence.
Qed.

Lemma authority_preserved p c :
  inv p → state p = State.Authority → current_code_point input p = Returned c →
  preserved p (authority_state input p c).
Proof.
  intros Hinv Hst Hc. pose proof Hinv as [Hit Hs]. unfold state_invariant in Hs. rewrite Hst in Hs.
  destruct Hs as (Hov & Hu & Ha & Hpos & Hne & Hpe & Hnc & Hpre). unfold authority_state.
  destruct (get_remaining_including_code_point_spec p c Hit Hc) as (d & -> & Hd & Hhigh).
  cbn [mbind outcome_bind]. cbv zeta.
  pose proof (authority_scan (url p) (iterator p + d) Hd) as Hscan. cbv zeta in Hscan.
  set (remaining := drop (iterator p + d) input) in *.
  set (n := default (length remaining) _) in *. destruct Hscan as (Hn & Hnd & Hl & Hdelim).
  assert (length remaining = length input - (iterator p + d))%nat as Hlen by apply length_drop.
  rewrite substring_view_in_range by lia. cbn [mbind outcome_bind]. rewrite drop_0, Hl.
  pose proof (no_delimiter_high _ _ _ _ Hhigh Hnd) as Hnd'.
  destruct (Z.eqb_spec (default end_of_file (input !! (iterator p + d + n)%nat)) c_at) as [Eat|Eat].
  - destruct (input !! (iterator p + d + n)%nat) as [b|] eqn:Em; [|done]. cbn in Eat. subst b.
    destruct (authority_credentials_returns p (take n remaining)) as (token & name & secret & -> & Hname & Hsecret);
      [by apply Forall_take, Forall_drop, input_bytes|done|]. cbn [mbind outcome_bind iterator with_credentials].
    rewrite length_take, Nat.min_l by lia. unfold iterator_at_byte_offset.
    pose proof (lookup_lt_Some _ _ _ Em). rewrite verify_true by (apply Nat.leb_le; lia).
    cbn [mbind outcome_bind]. apply preserved_intro. apply step_break_from; [cbn; lia|by cbn; rewrite Hst|].
    intros it' Hinc Hr. same_state Hst. split_and!; try done; [cbn in Hr; lia|].
    apply (authority_at_sign _ (iterator p + n) d (iterator p + d + n)); [lia|done|done|].
    intros j Hj k b Hk. apply Hnd'. lia.
  - destruct (at_sign_seen p && bool_decide (take n remaining = [])) eqn:Eempty; [auto with ladybird|].
    rewrite size_sub_le by lia. cbn [mbind outcome_bind]. unfold iterator_at_byte_offset.
    rewrite verify_true by (apply Nat.leb_le; lia). cbn [mbind outcome_bind]. apply preserved_intro.
    apply (authority_to_host p n d); try done.
    + destruct Hpre as [|(m & Hm & Hmat & Hmnd)]; [done|]. exfalso. apply Eat.
      destruct (Nat.lt_trichotomy m (iterator p + d + n)) as [Hlt|[<-|Hgt]]; [|by rewrite Hmat|].
      * pose proof (Hnd' m c_at ltac:(lia) Hmat). pose proof (at_sign_delimiter (url p)). congruence.
      * destruct (input !! (iterator p + d + n)%nat) as [b|] eqn:Eb.
        -- pose proof (Hmnd (iterator p + d + n)%nat b ltac:(lia) Eb). congruence.
        -- apply lookup_ge_None_1 in Eb. apply lookup_lt_Some in Hmat. lia.
    + intros Hseen ->. by rewrite Hseen in Eempty.
Qed.

(** Appending a code point to the buffer. *)
Lemma append_code_point_bytes s c :
  Forall is_byte s → 0 ≤ c ≤ 0x10FFFF →
  Forall is_byte (append_code_point s c) ∧ append_code_point s c ≠ [].
Proof.
  intros Hs Hc. unfold append_code_point, is_unicode. rewrite (proj2 (Z.leb_le _ _)) by lia.
  pose proof (code_point_to_utf8_nonempty c Hc) as Hne. split.
  - apply Forall_app. split; [done|by apply code_point_to_utf8_bytes].
  - by intros [_ ?]%app_nil.
Qed.

(** ** Host and port *)
Lemma host_stage u h :
  before_host u → host_ok (scheme u) h → (includes_credentials u = true → is_empty_host h = false) →
  path_stage (with_host u (Some h)).
Proof.
  intros ((Hsc & Hnf) & Hu & Hn & Hp) Hh Hc. rewrite Hu in Hc |- *. split; [|done].
  constructor; try done; [|constructor].
  intros [Hcred|[? ?]]; [|done]. unfold cannot_have_a_username_or_password_or_port. cbn [host with_host].
  rewrite Hc by done. by apply bool_decide_eq_false.
Qed.

Lemma host_to_port p u h it :
  before_host u → host_ok (scheme u) h → (includes_credentials u = true → is_empty_host h = false) →
  state_override = None → state p = State.Port → url p = with_host u (Some h) → buffer p = [] →
  is_empty_host h = false ∨ at_authority_end input u it → iterator p = it → sinv p.
Proof.
  intros Hbh Hh Hc Hov Hst Hu Hb Hend Hit. unfold state_invariant. rewrite Hst, Hu, Hb.
  pose proof (host_stage u h Hbh Hh Hc) as Hstage. pose proof Hbh as ((Hsc & Hnf) & Hueq & _).
  split_and!; try done; [by rewrite Hueq|by rewrite Hueq|].
  destruct Hend as [He|He]; [left|right; by rewrite Hit].
  unfold cannot_have_a_username_or_password_or_port. cbn [host with_host]. rewrite He.
  by apply bool_decide_eq_false.
Qed.

Lemma host_preserved p c :
  inv p → state p = State.Host → at_cp (iterator p) c →
  preserved p (host_state state_override p c).
Proof.
  intros [Hit Hs] Hst Hc. unfold state_invariant in Hs. rewrite Hst in Hs.
  destruct Hs as (Hov & Hu & Hbuf & Hcred). unfold host_state. rewrite overridden_None by done. cbn [andb]. cbv zeta.
  destruct ((c =? c_colon) && negb (inside_brackets p)) eqn:Ecolon.
  { case_bool_decide as Hne; [auto with ladybird|].
    rewrite bool_decide_eq_false_2 by congruence.
    destruct (parse_host_ok (url p) (buffer p) Hbuf) as ([h|] & -> & Hh); [done| |by apply preserved_failure].
    destruct (Hh h eq_refl) as [Hok Hnempty]. cbn [mbind outcome_bind]. apply preserved_intro.
    eapply step_break_ascii; [done|exact Hc|revert Ecolon; cp_lia|done|]. intros Haft Hle.
    eapply (host_to_port _ (url p) h); try done; auto. }
  destruct (ends_authority (url p) c) eqn:Eend.
  { destruct (is_special (url p) && bool_decide (buffer p = [])) eqn:Esp; [auto with ladybird|].
    destruct (parse_host_ok (url p) (buffer p) Hbuf) as ([h|] & -> & Hh); [| |by apply preserved_failure].
    { intros Hsp Hnil. by rewrite Hsp, bool_decide_eq_true_2 in Esp. }
    destruct (Hh h eq_refl) as [Hok Hnempty]. cbn [mbind outcome_bind].
    apply (code_point_at_authority_end _ Hinput (url p) _ _ Hc) in Eend.
    apply preserved_intro, step_continue; [done..|rewrite Hst; simpl; lia|].
    eapply (host_to_port _ (url p) h); try done; auto. intros Hi. destruct (Hcred Hi); auto. }
  assert (c ≠ end_of_file) as Hne by (intros ->; by cbn in Eend).
  destruct (append_code_point_bytes (buffer p) c Hbuf) as [Hb Hbne]; [by eapply code_point_at_range|].
  apply preserved_intro, step_break_next; [done|by eapply code_point_at_lt|by intros|].
  intros it' Hinc Hr. same_state Hst. split_and!; auto.
Qed.

Lemma port_stage u n :
  path_stage u → port u = None → 0 ≤ n < 2 ^ 16 → cannot_have_a_username_or_password_or_port u = false →
  path_stage (if bool_decide (Some n = default_port_for_scheme (scheme u)) then with_port u None
              else with_port u (Some n)).
Proof.
  intros [[Hs Hn Hp Hh Hpo Ha Hpa Hq Hf] Ho] Hpn Hr Hc.
  case_bool_decide as Hd; (split; [|done]); constructor; try done.
Qed.

Lemma port_preserved p c :
  inv p → state p = State.Port → at_cp (iterator p) c →
  preserved p (port_state state_override p c).
Proof.
  intros [Hit Hs] Hst Hc. unfold state_invariant in Hs. rewrite Hst in Hs.
  destruct Hs as (Hov & Hu & Hpaths & Hport & Hbuf & Hhost & Hcan). apply preserved_intro. unfold port_state.
  rewrite overridden_None by done. rewrite orb_false_r. cbv zeta.
  destruct (is_ascii_digit c) eqn:Ed.
  { assert (0 ≤ c < 0x80) as Hr by (revert Ed; cp_lia).
    destruct (append_code_point_bytes (buffer p) c Hbuf) as [Hb Hbne]; [lia|].
    eapply step_break_ascii; [done|exact Hc|done|by intros|]. intros Haft Hle. same_state Hst.
    split_and!; try done. destruct Hcan as [|[_ Hend]]; [by left|].
    apply (code_point_at_authority_end _ Hinput (url p) _ _ Hc) in Hend. exfalso. revert Ed Hend.
    unfold ends_authority. cp_lia. }
  destruct (ends_authority (url p) c) eqn:Eend; [|done].
  case_bool_decide as Hnil; cbn [negb].
  { apply step_continue; [done..|rewrite Hst; simpl; lia|]. unfold state_invariant. by cbn; auto. }
  destruct Hcan as [Hcan|[? _]]; [|done].
  destruct (parse_number 0xFFFF 10 (buffer p)) as [n|] eqn:En; [|done].
  assert (0 ≤ n < 2 ^ 16) as Hn by (apply parse_number_range in En; lia).
  pose proof (port_stage (url p) n Hu Hport Hn Hcan) as Hstage.
  apply step_continue; [done..|rewrite Hst; simpl; lia|]. unfold state_invariant. cbn [state with_state].
  split_and!; [exact Hstage|by cbn; case_match|done|]. right. cbn. by case_match.
Qed.

(** ** File states *)
Lemma file_url_plain u :
  url_wf u → scheme u = sv "file" →
  username u = [] ∧ password u = [] ∧ port u = None ∧ has_an_opaque_path u = false ∧ paths u ≠ []
  ∧ is_special u = true.
Proof.
  intros Hwf Hs. assert (is_special u = true) as Hsp by (unfold is_special; by rewrite Hs).
  pose proof (special_base_not_opaque u Hwf Hsp). destruct Hwf as [Hcore Hpath].
  assert (cannot_have_a_username_or_password_or_port u = true) as Hcan.
  { unfold cannot_have_a_username_or_password_or_port. case_match; [|done].
    by rewrite bool_decide_eq_true_2, orb_true_r. }
  pose proof (core_authority _ Hcore) as Ha. rewrite Hcan in Ha.
  destruct (includes_credentials u) eqn:Ei; [by specialize (Ha (or_introl eq_refl))|].
  apply includes_credentials_false in Ei as [Hn Hp].
  destruct (port u) as [n|] eqn:Epo; [by specialize (Ha (or_intror (mk_is_Some _ _ eq_refl)))|].
  split_and!; try done. intros Hnil. destruct (Hpath Hnil). congruence.
Qed.

Lemma file_copy base ps q f :
  url_wf base → scheme base = sv "file" → Forall (segment_ok true) ps →
  match q with Some q => Forall (encoded_byte SpecialQuery) q | None => True end →
  match f with Some f => Forall (encoded_byte Fragment) f | None => True end →
  path_stage (mk_url (sv "file") [] [] (host base) None ps q f false None).
Proof.
  intros Hwf Hs Hps Hq Hf. destruct (file_url_plain base Hwf Hs) as (Hn & Hp & Hpo & _ & _ & Hsp).
  replace (mk_url (sv "file") [] [] (host base) None ps q f false None) with
    (mk_url (scheme base) (username base) (password base) (host base) (port base) ps q f false None)
    by (by rewrite Hs, Hn, Hp, Hpo).
  destruct Hwf. apply (copy_core base); rewrite ?Hsp; done.
Qed.

Lemma file_copy_wf base q f :
  url_wf base → scheme base = sv "file" →
  match q with Some q => Forall (encoded_byte SpecialQuery) q | None => True end →
  match f with Some f => Forall (encoded_byte Fragment) f | None => True end →
  url_wf (mk_url (sv "file") [] [] (host base) None (paths base) q f false None).
Proof.
  intros Hwf Hs Hq Hf. destruct (file_url_plain base Hwf Hs) as (_ & _ & _ & Ho & Hne & Hsp).
  split; [|done]. apply file_copy; [done..| |done|done]. rewrite <-Hsp. by apply base_segments, Ho; apply Hwf.
Qed.

Lemma file_inherit_eq u base :
  with_query (with_paths (with_host (with_host (with_scheme u (sv "file")) (Some (HostString []))) (host base))
    (paths base)) (query base)
  = mk_url (sv "file") (username u) (password u) (host base) (port u) (paths base) (query base) (fragment u)
      (has_an_opaque_path u) (blob_url_entry u).
Proof. by destruct u, base. Qed.

Lemma empty_file_host : file_stage (with_host (with_scheme new_url (sv "file")) (Some (HostString []))).
Proof. split; [done|]. cbn. right. done. Qed.

Lemma file_stage_path u : file_stage u → path_stage u.
Proof.
  intros [Hu Hh]. rewrite Hu. destruct (host u) as [h|]; [|done]. split; [|done].
  constructor; try done; [by split; [|repeat constructor]|by intros [?|[? ?]]|constructor].
Qed.

Lemma file_preserved p c :
  inv p → state p = State.File → at_cp (iterator p) c →
  preserved p (file_state input base_url p c).
Proof.
  intros [Hit Hs] Hst Hc. unfold state_invariant in Hs. rewrite Hst in Hs.
  destruct Hs as (Hov & Hu & Hbuf). unfold file_state. cbv zeta. rewrite Hu.
  change (with_scheme (with_scheme new_url (scheme (url p))) (sv "file")) with (with_scheme new_url (sv "file")).
  destruct ((c =? c_slash) || (c =? c_backslash)) eqn:Eslash.
  { apply preserved_intro. eapply step_break_ascii; [done|exact Hc|revert Eslash; cp_lia|done|].
    intros Haft Hle. unfold state_invariant. cbn [state with_iterator with_state].
    split_and!; [done|exact empty_file_host|done]. }
  unfold base_scheme_is, the_base.
  destruct base_url as [base|] eqn:Ebase; [case_bool_decide as Hsb|].
  2,3: apply preserved_intro, step_continue; [done..|rewrite Hst; simpl; lia|];
    apply sinv_path_empty; [done|exact (file_stage_path _ empty_file_host)|done].
  cbn [must mbind outcome_bind]. rewrite file_inherit_eq.
  assert (url_wf base) as Hwf by (by apply Hbase).
  pose proof (file_url_plain base Hwf Hsb) as (_ & _ & _ & Ho & _ & Hsp).
  assert (match query base with Some q => Forall (encoded_byte SpecialQuery) q | None => True end) as Hq.
  { pose proof (core_query _ (proj1 Hwf)) as Hq. by rewrite Hsp in Hq. }
  destruct (Z.eqb_spec c c_question) as [->|Hnq].
  { apply preserved_intro. eapply step_break_ascii; [done|exact Hc|done|done|]. intros Haft Hle.
    apply sinv_tail_empty; [by left| |done]. apply (file_copy_wf base); [done..|constructor|done]. }
  destruct (Z.eqb_spec c c_hash) as [->|Hnh].
  { apply preserved_intro. eapply step_break_ascii; [done|exact Hc|done|done|]. intros Haft Hle.
    apply sinv_tail_empty; [by right| |done]. apply (file_copy_wf base); [done..|constructor]. }
  destruct (Z.eqb_spec c end_of_file) as [->|Hne]; cbn [negb].
  { apply preserved_intro, step_break_eof; [by apply code_point_at_eof|]. by apply (file_copy_wf base). }
  rewrite input_from_spec by done. cbn [mbind outcome_bind].
  match goal with |- context [shorten_urls_path ?u] => set (v := u) end.
  assert (∃ ps, (if negb (starts_with_windows_drive_letter (drop (iterator p) input))
    then shorten_urls_path v else Returned (with_paths v [])) = Returned (with_paths v ps)
    ∧ Forall (segment_ok true) ps) as (ps & -> & Hps).
  { destruct (negb _); [|exists []; split; [done|constructor]]. destruct (shorten_urls_path_returns v) as (n & ->); [done|].
    eexists. split; [done|]. apply Forall_take. rewrite <-Hsp. by apply (base_segments base), Ho; apply Hwf. }
  cbn [mbind outcome_bind]. apply preserved_intro, step_continue; [done..|rewrite Hst; simpl; lia|].
  apply sinv_path_empty; [done| |done]. by apply (file_copy base).
Qed.

Lemma file_slash_preserved p c :
  inv p → state p = State.FileSlash → at_cp (iterator p) c →
  preserved p (file_slash_state input base_url p c).
Proof.
  intros [Hit Hs] Hst Hc. unfold state_invariant in Hs. rewrite Hst in Hs.
  destruct Hs as (Hov & Hu & Hbuf). unfold file_slash_state. cbv zeta.
  destruct ((c =? c_slash) || (c =? c_backslash)) eqn:Eslash.
  { apply preserved_intro. eapply step_break_ascii; [done|exact Hc|revert Eslash; cp_lia|done|].
    intros Haft Hle. unfold state_invariant. cbn. rewrite Hbuf. by split_and!. }
  match goal with |- context [mbind _ ?m] => assert (∃ u, m = Returned u ∧ path_stage u) as (u & -> & Hstage) end.
  { unfold base_scheme_is, the_base. destruct base_url as [base|] eqn:Ebase; [case_bool_decide as Hsb|].
    2,3: eexists; split; [done|by apply file_stage_path].
    cbn [must mbind outcome_bind]. rewrite input_from_spec by done. cbn [mbind outcome_bind].
    assert (url_wf base) as Hwf by (by apply Hbase).
    pose proof (file_url_plain base Hwf Hsb) as (_ & _ & _ & Ho & Hne & Hsp).
    assert (∀ ps, Forall (segment_ok true) ps → path_stage (with_paths (with_host (url p) (host base)) ps)) as Hps.
    { intros ps Hps. rewrite (proj1 Hu). by apply (file_copy base). }
    pose proof (Hps [] ltac:(constructor)) as Hnil.
    assert (with_paths (with_host (url p) (host base)) [] = with_host (url p) (host base)) as Heq
      by (by rewrite (proj1 Hu)). rewrite Heq in Hnil.
    case_match; [|by eexists]. destruct (paths base) as [|first rest] eqn:Ep; [done|].
    rewrite (at_index_lt _ _ first) by done. cbn [mbind outcome_bind]. eexists. split; [done|].
    case_match; [|done]. apply Hps. rewrite (proj1 Hu). apply Forall_singleton.
    pose proof (base_segments base (proj1 Hwf) Ho) as Hseg. rewrite Ep, Hsp in Hseg.
    by apply Forall_cons in Hseg as [? _]. }
  cbn [mbind outcome_bind]. apply preserved_intro, step_continue; [done..|rewrite Hst; simpl; lia|].
  by apply sinv_path_empty.
Qed.

Lemma drive_letter_bytes special s : is_windows_drive_letter s = true → Forall (segment_byte special) s.
Proof.
  destruct s as [|a [|b [|]]]; try done. intros Hd. pose proof Hd as [_ Hb]%andb_prop.
  destruct (drive_letter_segment special [a; b] a Hd eq_refl) as [Hseg _].
  apply Forall_cons in Hseg as [Ha _]. apply Forall_cons. split; [done|]. apply Forall_singleton.
  apply orb_prop in Hb as [->%Z.eqb_eq| ->%Z.eqb_eq]; (split; [split; [lia|by right]|done]).
Qed.

Lemma file_stage_host u h : file_stage u → host_ok (sv "file") h → file_stage (with_host u (Some h)).
Proof. intros [Hu _] Hh. by rewrite Hu. Qed.

Lemma sinv_path_start p :
  state p = State.PathStart → file_stage (url p) → buffer p = [] → sinv p.
Proof.
  intros Hst Hu Hb. unfold state_invariant. rewrite Hst, Hb. pose proof Hu as [Heq Hh].
  split_and!; [by apply file_stage_path|by rewrite Heq|done|]. right. by destruct (host (url p)).
Qed.

Lemma file_host_preserved p c :
  inv p → state p = State.FileHost → at_cp (iterator p) c →
  preserved p (file_host_state state_override p c).
Proof.
  intros [Hit Hs] Hst Hc. unfold state_invariant in Hs. rewrite Hst in Hs.
  destruct Hs as (Hov & Hu & Hbuf). unfold file_host_state. rewrite overridden_None by done.
  cbn [negb andb]. cbv zeta. destruct ((c =? end_of_file) || _ || _ || _ || _) eqn:Eend.
  2:{ assert (c ≠ end_of_file) as Hne by (intros ->; by cbn in Eend).
      destruct (append_code_point_bytes (buffer p) c Hbuf) as [Hb _]; [by eapply code_point_at_range|].
      apply preserved_intro, step_break_next; [done|by eapply code_point_at_lt|by intros|].
      intros it' Hinc Hr. by same_state Hst. }
  destruct (is_windows_drive_letter (buffer p)) eqn:Ed.
  { apply preserved_intro, step_continue; [done..|rewrite Hst; simpl; lia|].
    apply sinv_path; [done|by apply file_stage_path|by apply drive_letter_bytes]. }
  case_bool_decide as Hnil.
  { apply preserved_intro, step_continue; [done..|rewrite Hst; simpl; lia|].
    apply sinv_path_start; [done| |done]. apply file_stage_host; [done|]. by right. }
  assert (scheme (url p) = sv "file") as Hsch by (by rewrite (proj1 Hu)).
  destruct (parse_host_ok (url p) (buffer p) Hbuf) as ([h|] & -> & Hh); [done| |by apply preserved_failure].
  destruct (Hh h eq_refl) as [Hok _]. rewrite Hsch in Hok. cbn [mbind outcome_bind].
  apply preserved_intro, step_continue; [done..|rewrite Hst; simpl; lia|].
  apply sinv_path_start; [done| |done]. apply file_stage_host; [done|]. case_match; [by right|done].
Qed.

(** ** Path states *)
Lemma path_stage_query u : path_stage u → url_core (with_query u (Some [])).
Proof. intros [[Hs Hn Hp Hh Hpo Ha Hpa Hq Hf] Ho]. constructor; try done. constructor. Qed.

Lemma path_stage_fragment u : path_stage u → url_core (with_fragment u (Some [])).
Proof. intros [[Hs Hn Hp Hh Hpo Ha Hpa Hq Hf] Ho]. constructor; try done. constructor. Qed.

Lemma path_stage_paths u ps :
  path_stage u → Forall (segment_ok (is_special u)) ps → path_stage (with_paths u ps).
Proof.
  intros [[Hs Hn Hp Hh Hpo Ha Hpa Hq Hf] Ho] Hps. split; [|done]. constructor; try done.
  cbn [has_an_opaque_path with_paths]. by rewrite Ho.
Qed.

Lemma path_start_preserved p c :
  inv p → state p = State.PathStart → at_cp (iterator p) c →
  preserved p (path_start_state state_override p c).
Proof.
  intros [Hit Hs] Hst Hc. unfold state_invariant in Hs. rewrite Hst in Hs.
  destruct Hs as (Hu & Hp & Hb & Hh). apply preserved_intro. unfold path_start_state. cbv zeta.
  destruct (is_special (url p)) eqn:Hsp.
  { destruct (negb (c =? c_slash) && negb (c =? c_backslash)) eqn:Es.
    - apply step_continue; [done..|rewrite Hst; simpl; lia|]. by apply sinv_path_empty.
    - eapply step_break_ascii; [done|exact Hc|revert Es; cp_lia|done|]. intros Haft Hle. by apply sinv_path_empty. }
  destruct (negb (overridden state_override) && (c =? c_question)) eqn:Eq.
  { apply andb_prop in Eq as [Eo ->%Z.eqb_eq]. destruct Hh as [Hh|Hh].
    { unfold overridden in Eo. by rewrite bool_decide_eq_true_2 in Eo. }
    eapply step_break_ascii; [done|exact Hc|done|done|]. intros Haft Hle.
    apply sinv_tail_empty; [by left| |done]. split; [by apply path_stage_query|done]. }
  destruct (negb (overridden state_override) && (c =? c_hash)) eqn:Ef.
  { apply andb_prop in Ef as [Eo ->%Z.eqb_eq]. destruct Hh as [Hh|Hh].
    { unfold overridden in Eo. by rewrite bool_decide_eq_true_2 in Eo. }
    eapply step_break_ascii; [done|exact Hc|done|done|]. intros Haft Hle.
    apply sinv_tail_empty; [by right| |done]. split; [by apply path_stage_fragment|done]. }
  destruct (Z.eqb_spec c end_of_file) as [->|Hne]; cbn [negb].
  - pose proof (code_point_at_eof _ _ Hc) as He.
    destruct (overridden state_override && bool_decide (host (url p) = None)) eqn:Eo.
    + apply step_break_eof; [done|]. cbn [url with_url]. unfold append_slash. rewrite Hp.
      split; [|done]. apply path_stage_paths; [done|]. apply Forall_singleton, segment_ok_nil.
    + apply step_break_eof; [done|]. split; [apply Hu|]. intros _. split; [done|].
      destruct Hh as [Hh|Hh]; [|done]. unfold overridden in Eo. rewrite bool_decide_eq_true_2 in Eo by done.
      cbn [andb] in Eo. apply bool_decide_eq_false in Eo. by apply not_eq_None_Some.
  - destruct (Z.eqb_spec c c_slash) as [->|Hns]; cbn [negb].
    + eapply step_break_ascii; [done|exact Hc|done|done|]. intros Haft Hle. by apply sinv_path_empty.
    + apply step_continue; [done..|rewrite Hst; simpl; lia|]. by apply sinv_path_empty.
Qed.

Lemma path_preserved p c :
  inv p → state p = State.Path → at_cp (iterator p) c →
  preserved p (path_state state_override p c).
Proof.
  intros [Hit Hs] Hst Hc. unfold state_invariant in Hs. rewrite Hst in Hs.
  destruct Hs as (Hu & Hb). unfold path_state. cbv zeta.
  destruct ((c =? end_of_file) || _ || _ || _) eqn:Eend.
  2:{ assert (c ≠ end_of_file) as Hne by (intros ->; by cbn in Eend).
      pose proof (code_point_at_range _ _ _ Hc Hne) as Hr.
      rewrite append_if_necessary_encode by done. cbn [mbind outcome_bind].
      apply preserved_intro, step_break_next; [done|by eapply code_point_at_lt|by intros|].
      intros it' Hinc Hr'. apply sinv_path; [done|done|]. cbn [buffer url with_iterator with_buffer].
      apply Forall_app. split; [done|]. apply encode_code_point_segment; [done| |].
      - intros ->. by rewrite orb_true_r in Eend.
      - intros Hsp ->. rewrite Hsp in Eend. by rewrite !orb_true_r in Eend. }
  pose proof Hu as [Hcore Ho].
  destruct (finish_segment_returns (url p) (buffer p) c Ho) as (segs & -> & Hsegs & Hne);
    [by apply base_segments|done|]. cbn [mbind outcome_bind]. apply preserved_intro.
  pose proof (path_stage_paths _ _ Hu Hsegs) as Hstage.
  destruct (Z.eqb_spec c c_question) as [->|Hnq].
  { eapply step_break_ascii; [done|exact Hc|done|done|]. intros Haft Hle.
    apply sinv_tail_empty; [by left| |done]. split; [by apply path_stage_query|].
    intros Hnil. destruct Hne; [by rewrite andb_false_r|done]. }
  destruct (Z.eqb_spec c c_hash) as [->|Hnh].
  { eapply step_break_ascii; [done|exact Hc|done|done|]. intros Haft Hle.
    apply sinv_tail_empty; [by right| |done]. split; [by apply path_stage_fragment|].
    intros Hnil. destruct Hne; [by rewrite andb_false_r|done]. }
  destruct (Z.eqb_spec c end_of_file) as [->|Hneof].
  { apply step_break_eof; [by apply code_point_at_eof|]. split; [apply Hstage|].
    intros Hnil. destruct Hne; [by rewrite andb_false_r|done]. }
  eapply step_break_ascii; [done|exact Hc| |by intros|].
  { revert Eend Hnq Hnh Hneof. cp_lia. }
  intros Haft Hle. by apply sinv_path_empty.
Qed.

(** ** Opaque paths, queries and fragments *)
Lemma opaque_path_wf u s q f :
  url_wf u → has_an_opaque_path u = true → Forall (encoded_byte C0Control) s →
  match q with Some q => Forall (encoded_byte (query_set (is_special u))) q | None => True end →
  match f with Some f => Forall (encoded_byte Fragment) f | None => True end →
  url_wf (with_fragment (with_query (with_paths u [s]) q) f).
Proof.
  intros [[Hs Hn Hp Hh Hpo Ha Hpa Hq Hf] _] Ho Hb Hq' Hf'. split; [|done].
  rewrite Ho in Hpa. destruct Hpa as (Hns & Hhost & _).
  constructor; try done. cbn [has_an_opaque_path with_fragment with_query with_paths]. rewrite Ho.
  split_and!; [done..|]. by exists s.
Qed.

Lemma opaque_path_preserved p c :
  inv p → state p = State.OpaquePath → at_cp (iterator p) c →
  preserved p (opaque_path_state input p c).
Proof.
  intros [Hit Hs] Hst Hc. unfold state_invariant in Hs. rewrite Hst in Hs.
  destruct Hs as (Hov & Hu & Ho & Hp & Hb). unfold opaque_path_state. cbv zeta. rewrite Hp.
  rewrite verify_true by done.
  pose proof Hu as [Hcore _].
  destruct (Z.eqb_spec c c_question) as [->|Hnq].
  { rewrite set_index_lt by (simpl; lia). cbn [mbind outcome_bind].
    apply preserved_intro. eapply step_break_ascii; [done|exact Hc|done|done|]. intros Haft Hle.
    apply sinv_tail_empty; [by left| |done].
    apply (opaque_path_wf (url p) (buffer p) (Some []) (fragment (url p))); [done..|constructor|apply Hcore]. }
  destruct (Z.eqb_spec c c_hash) as [->|Hnh].
  { rewrite set_index_lt by (simpl; lia). cbn [mbind outcome_bind].
    apply preserved_intro. eapply step_break_ascii; [done|exact Hc|done|done|]. intros Haft Hle.
    apply sinv_tail_empty; [by right| |done].
    apply (opaque_path_wf (url p) (buffer p) (query (url p)) (Some [])); [done..|apply Hcore|constructor]. }
  destruct (Z.eqb_spec c c_space) as [->|Hns].
  { rewrite (get_remaining_ascii _ c_space) by (done || by apply (code_point_at_ascii _ _ _ Hc)).
    cbn [mbind outcome_bind]. apply preserved_intro.
    eapply step_break_ascii; [done|exact Hc|done|by intros|]. intros Haft Hle. same_state Hst.
    split_and!; try done. destruct (_ || _); apply Forall_app; (split; [done|]);
      repeat (constructor; [split; [lia|by (left + right)]|]); constructor. }
  destruct (Z.eqb_spec c end_of_file) as [->|Hne]; cbn [negb].
  - rewrite set_index_lt by (simpl; lia). cbn [mbind outcome_bind].
    apply preserved_intro, step_break_eof; [by apply code_point_at_eof|].
    apply (opaque_path_wf (url p) (buffer p) (query (url p)) (fragment (url p))); [done..|apply Hcore|apply Hcore].
  - pose proof (code_point_at_range _ _ _ Hc Hne) as Hr.
    rewrite append_if_necessary_encode by done. cbn [mbind outcome_bind].
    apply preserved_intro, step_break_next; [done|by eapply code_point_at_lt|by intros|].
    intros it' Hinc Hr'. same_state Hst. split_and!; try done. apply Forall_app. split; [done|].
    by apply encode_code_point_encoded.
Qed.

Lemma url_wf_query u q :
  url_wf u → Forall (encoded_byte (query_set (is_special u))) q → url_wf (with_query u (Some q)).
Proof. intros [[Hs Hn Hp Hh Hpo Ha Hpa Hq Hf] Hpath] Hq'. split; [by constructor|done]. Qed.

Lemma url_wf_fragment u f :
  url_wf u → Forall (encoded_byte Fragment) f → url_wf (with_fragment u (Some f)).
Proof. intros [[Hs Hn Hp Hh Hpo Ha Hpa Hq Hf] Hpath] Hf'. split; [by constructor|done]. Qed.

Lemma query_preserved p c :
  inv p → state p = State.Query → at_cp (iterator p) c →
  preserved p (query_state state_override p c).
Proof.
  intros [Hit Hs] Hst Hc. unfold state_invariant in Hs. rewrite Hst in Hs.
  destruct Hs as (Hu & Hb). unfold query_state. cbv zeta.
  match goal with |- context [mbind _ ?m] => assert (∃ e, m = Returned e) as (e & ->) end.
  { destruct (_ || _); [rewrite encoder_for_utf8|]; by eexists. }
  cbn [mbind outcome_bind]. destruct ((_ && _) || _) eqn:Eend.
  2:{ assert (c ≠ end_of_file) as Hne by (intros ->; by rewrite orb_true_r in Eend).
      destruct (append_code_point_bytes (buffer p) c Hb) as [Hb' _]; [by eapply code_point_at_range|].
      apply preserved_intro, step_break_next; [done|by eapply code_point_at_lt|by intros|].
      intros it' Hinc Hr. apply sinv_tail; [by left|done|done]. }
  destruct (percent_encode_after_encoding_encoded e (buffer p) (query_set (is_special (url p))) Hb)
    as (q & Hq & Henc). unfold query_set in Hq. cbn [buffer with_encoder]. rewrite Hq. cbn [mbind outcome_bind].
  apply preserved_intro. pose proof (url_wf_query _ _ Hu Henc) as Hwf.
  destruct (Z.eqb_spec c c_hash) as [->|Hnh].
  - eapply step_break_ascii; [done|exact Hc|done|done|]. intros Haft Hle.
    apply sinv_tail_empty; [by right| |done]. apply url_wf_fragment; [done|constructor].
  - assert (c = end_of_file) as -> by (revert Eend Hnh; cp_lia).
    by apply step_break_eof; [apply code_point_at_eof|].
Qed.

Lemma fragment_preserved p c :
  inv p → state p = State.Fragment → at_cp (iterator p) c →
  preserved p (fragment_state p c).
Proof.
  intros [Hit Hs] Hst Hc. unfold state_invariant in Hs. rewrite Hst in Hs.
  destruct Hs as (Hu & Hb). unfold fragment_state.
  destruct (Z.eqb_spec c end_of_file) as [->|Hne]; cbn [negb].
  - rewrite encoder_for_utf8. cbn [must mbind outcome_bind].
    destruct (percent_encode_after_encoding_encoded s_utf8_encoder (buffer p) Fragment Hb) as (f & -> & Henc).
    cbn [mbind outcome_bind]. apply preserved_intro, step_break_eof; [by apply code_point_at_eof|].
    by apply url_wf_fragment.
  - destruct (append_code_point_bytes (buffer p) c Hb) as [Hb' _]; [by eapply code_point_at_range|].
    apply preserved_intro, step_break_next; [done|by eapply code_point_at_lt|by intros|].
    intros it' Hinc Hr. apply sinv_tail; [by right|done|done].
Qed.

(** ** Every run of the switch *)
Lemma run_state_preserved p c :
  inv p → current_code_point input p = Returned c → preserved p (run_state input base_url state_override p c).
Proof.
  intros Hinv Hc. pose proof Hinv as [Hit Hs].
  destruct (current_code_point_spec _ Hinput p Hit) as (c' & Hc' & Hcp).
  assert (c' = c) as -> by congruence. unfold run_state.
  destruct (state p) eqn:Hst; first
    [ by apply scheme_start_preserved | by apply scheme_preserved | by apply no_scheme_preserved
    | by apply special_relative_or_authority_preserved | by apply path_or_authority_preserved
    | by apply relative_preserved | by apply relative_slash_preserved
    | by apply special_authority_slashes_preserved | by apply special_authority_ignore_slashes_preserved
    | by apply authority_preserved | by apply host_preserved | by apply port_preserved
    | by apply file_preserved | by apply file_slash_preserved | by apply file_host_preserved
    | by apply path_start_preserved | by apply path_preserved | by apply opaque_path_preserved
    | by apply query_preserved | by apply fragment_preserved
    | unfold state_invariant in Hs; by rewrite Hst in Hs ].
Qed.
End Steps.
