(* ===== verification/UrlOrigin.v ===== *)
(** * The origin of a URL

    [URL::origin] of LibURL/URL.cpp, which calls the URL parser for blob URLs. *)
From S2P Require Import Prelude CharacterTypes Externals Utf8 StringView Format PercentEncoding Ipv4 Ipv6 Host PublicSuffix TextCodec Origin Url UrlParser UrlWellFormed UrlSerializer UrlParserInvariant UrlParserSteps UrlParserCorrect.

Section Model.
Context `{Simdutf} `{FastFloat} `{Icu} `{LegacyEncoders}.

(** The process-wide flag, and the nonce the random generator returns. *)
Context (file_scheme_urls_have_tuple_origins : bool) (random_nonce : bytes).

Definition has_tuple_origin (s : bytes) : bool :=
  existsb (λ x, bool_decide (x = s)) [sv "ftp"; sv "http"; sv "https"; sv "ws"; sv "wss"].

Definition is_blob_path_scheme (s : bytes) : bool :=
  existsb (λ x, bool_decide (x = s)) [sv "http"; sv "https"; sv "file"].

(** The recursion is that of the source: [path_url->origin()]. *)
Fixpoint url_origin_fuel (fuel : nat) (u : URL) : outcome Origin :=
  match fuel with
  | O => OutOfFuel
  | S fuel =>
      if bool_decide (scheme u = sv "blob") then
        match blob_url_entry u with
        | Some entry => Returned (environment_origin entry)
        | None =>
            path ← serialize_path u;
            '(path_url, _) ← basic_parse path None None None None;
            match path_url with
            | None => Returned (create_opaque random_nonce OpaqueStandard)
            | Some path_url =>
                if is_blob_path_scheme (scheme path_url) then url_origin_fuel fuel path_url
                else Returned (create_opaque random_nonce OpaqueStandard)
            end
        end
      else if has_tuple_origin (scheme u) then
        h ← must (host u); Returned (OriginTuple (mk_tuple (Some (scheme u)) h (port u) None))
      else if bool_decide (scheme u = sv "resource") then
        Returned (OriginTuple (mk_tuple (Some (scheme u)) (HostString []) None None))
      else if bool_decide (scheme u = sv "file") then
        Returned (if file_scheme_urls_have_tuple_origins
                  then OriginTuple (mk_tuple (Some (scheme u)) (HostString []) None None)
                  else create_opaque random_nonce OpaqueFile)
      else Returned (create_opaque random_nonce OpaqueStandard)
  end.

(** The URL of a blob URL's path is not a blob URL when its origin is taken. *)
Definition url_origin (u : URL) : outcome Origin := url_origin_fuel 2 u.

End Model.

Section Facts.
Context `{SimdutfOk} `{FastFloatOk} `{Icu} `{!IcuOk} `{LegacyEncodersOk}.
Context (tuple_files : bool) (nonce : bytes).

Lemma has_tuple_origin_special s : has_tuple_origin s = true → is_special_scheme s = true ∧ s ≠ sv "blob".
Proof.
  unfold has_tuple_origin. cbn [existsb]. rewrite special_scheme_cases, !orb_true_iff, !bool_decide_eq_true.
  intros Hs. assert (s = sv "ftp" ∨ s = sv "http" ∨ s = sv "https" ∨ s = sv "ws" ∨ s = sv "wss") as Hs' by naive_solver.
  clear Hs. split; [naive_solver|]. destruct Hs' as [->|[->|[->|[->| ->]]]]; done.
Qed.

Lemma special_host u : url_wf u → is_special u = true → is_Some (host u).
Proof.
  intros [Hcore _] Hs. pose proof (core_host _ Hcore) as Hh. destruct (host u); [done|]. congruence.
Qed.

Lemma serialize_path_bytes u path : url_wf u → serialize_path u = Returned path → Forall is_byte path.
Proof.
  intros [Hcore _] Hp. destruct (serialize_path_returns u Hcore) as (out & Hout & Hpr).
  assert (out = path) as -> by congruence. eapply Forall_impl; [done|]. unfold printable, is_byte. intros b ?. lia.
Qed.

(** Without a blob scheme one level is enough. *)
Lemma url_origin_not_blob fuel u :
  url_wf u → scheme u ≠ sv "blob" → ∃ o, url_origin_fuel tuple_files nonce (S fuel) u = Returned o.
Proof.
  intros Hwf Hb. cbn [url_origin_fuel]. rewrite bool_decide_eq_false_2 by done.
  destruct (has_tuple_origin (scheme u)) eqn:Et.
  - apply has_tuple_origin_special in Et as [Hs _]. destruct (special_host u Hwf Hs) as [h Hh].
    rewrite Hh. by eexists.
  - repeat case_match; by eexists.
Qed.

Lemma blob_path_scheme_not_blob s : is_blob_path_scheme s = true → s ≠ sv "blob".
Proof. intros Hs ->. done. Qed.

Lemma url_origin_returns u : url_wf u → ∃ o, url_origin tuple_files nonce u = Returned o.
Proof.
  intros Hwf. unfold url_origin.
  destruct (decide (scheme u = sv "blob")) as [Hb|Hb]; [|by apply url_origin_not_blob].
  remember 1%nat as f eqn:Hf. cbn [url_origin_fuel]. rewrite bool_decide_eq_true_2 by done.
  destruct (blob_url_entry u); [by eexists|].
  destruct (serialize_path_returns u (proj1 Hwf)) as (path & Hpath & _). rewrite Hpath. cbn [mbind outcome_bind].
  destruct (basic_parse_returns path None None) as (r & v & -> & Hr);
    [by eapply serialize_path_bytes|done|]. cbn [mbind outcome_bind].
  destruct r as [path_url|]; [|by eexists]. destruct (is_blob_path_scheme (scheme path_url)) eqn:Es; [|by eexists].
  subst f. apply url_origin_not_blob; [by apply Hr|by apply blob_path_scheme_not_blob].
Qed.

(** taking the origin of a well-formed URL returns: the recursion through
    the path of a blob URL is one level deep, and the host that a tuple origin
    needs is there.  The origin of an "ftp", "http", "https", "ws" or "wss" URL
    is the tuple of its scheme, host and port, without a domain. *)
Theorem url_origin_total (u : URL) (Hwf : url_wf u) :
  (∃ o, url_origin tuple_files nonce u = Returned o)
  ∧ (has_tuple_origin (scheme u) = true → ∃ h, host u = Some h ∧
      url_origin tuple_files nonce u = Returned (OriginTuple (mk_tuple (Some (scheme u)) h (port u) None))).
Proof.
  split; [by apply url_origin_returns|]. intros Ht.
  destruct (has_tuple_origin_special _ Ht) as [Hs Hnb]. destruct (special_host u Hwf Hs) as [h Hh].
  exists h. split; [done|]. unfold url_origin. remember 1%nat as f. cbn [url_origin_fuel].
  by rewrite bool_decide_eq_false_2, Ht, Hh by done.
Qed.

(** a blob URL without an entry has a tuple origin only when its path
    parses as an "http", "https" or "file" URL, and then it is same origin with
    that URL. *)
Theorem blob_origin_of_path (u : URL) (t : Tuple) (Hb : scheme u = sv "blob")
    (He : blob_url_entry u = None) (Ho : url_origin tuple_files nonce u = Returned (OriginTuple t)) :
  ∃ path v w, serialize_path u = Returned path ∧ basic_parse path None None None None = Returned (Some v, w)
    ∧ is_blob_path_scheme (scheme v) = true
    ∧ url_origin tuple_files nonce v = Returned (OriginTuple t).
Proof.
  unfold url_origin in *. remember 1%nat as f eqn:Hf. cbn [url_origin_fuel] in Ho.
  rewrite bool_decide_eq_true_2, He in Ho by done.
  apply bind_returned in Ho as (path & Hpath & Ho). apply bind_returned in Ho as ([r w] & Hparse & Ho).
  destruct r as [v|]; [|done]. destruct (is_blob_path_scheme (scheme v)) eqn:Es; [|done].
  exists path, v, w. split_and!; try done. subst f. revert Ho. cbn [url_origin_fuel].
  by rewrite bool_decide_eq_false_2 by (by apply blob_path_scheme_not_blob).
Qed.

End Facts.

(** ** Witnesses *)
Definition blob_example : URL :=
  mk_url (sv "blob") [] [] None None [sv "https://example.com/id"] None None true None.

Lemma blob_example_wf : url_wf blob_example.
Proof.
  split; [|done]. constructor; try done.
  - split; [done|]. vm_compute. by repeat constructor.
  - by intros [?|[? ?]].
  - split_and!; [done..|]. eexists. split; [done|]. vm_compute.
    repeat (constructor; [split; [by split|by right]|]). constructor.
Qed.

Definition origin_example (u : URL) : outcome Origin :=
  @url_origin simdutf_example fast_float_example icu_example legacy_encoders_example false [] u.

Lemma url_origin_total_witness :
  (∃ o, origin_example blob_example = Returned o)
  ∧ (has_tuple_origin (scheme blob_example) = true → ∃ h, host blob_example = Some h ∧
      origin_example blob_example
      = Returned (OriginTuple (mk_tuple (Some (scheme blob_example)) h (port blob_example) None))).
Proof.
  apply (@url_origin_total simdutf_example simdutf_example_ok fast_float_example fast_float_example_ok
    icu_example icu_example_ok legacy_encoders_example legacy_encoders_example_ok false [] blob_example).
  exact blob_example_wf.
Defined.

Lemma blob_origin_of_path_witness :
  ∃ path v w, serialize_path blob_example = Returned path
    ∧ @basic_parse simdutf_example fast_float_example icu_example legacy_encoders_example path None None None None
      = Returned (Some v, w)
    ∧ is_blob_path_scheme (scheme v) = true
    ∧ origin_example v = Returned (OriginTuple (mk_tuple (Some (sv "https")) (HostString (sv "example.com")) None None)).
Proof.
  apply (@blob_origin_of_path simdutf_example fast_float_example icu_example legacy_encoders_example false []
    blob_example (mk_tuple (Some (sv "https")) (HostString (sv "example.com")) None None)).
  - reflexivity.
  - reflexivity.
  - vm_compute. reflexivity.
Defined.
