(* ===== verification/UrlSetters.v ===== *)
(** * The URL parser with a state override

    The setters of the URL interface run the parser on an existing URL, starting
    in one of its states.  The URL is modified in place, so it must be
    well-formed also when the parser fails half way. *)
From S2P Require Import Prelude CharacterTypes Externals Utf8 StringView Format PercentEncoding Ipv4 Ipv6 Host PublicSuffix TextCodec Origin Url UrlParser UrlWellFormed UrlSerializer UrlParserInvariant UrlParserSteps UrlParserCorrect.

Section Setters.
Context `{SimdutfOk} `{FastFloatOk} `{Icu} `{!IcuOk} `{LegacyEncodersOk}.
Context (input : bytes) (start : State.t) (Hinput : valid_utf8 input).

Notation override := (Some start).

(** The states after the authority never fail. *)
Definition tail_state (s : State.t) : bool :=
  match s with State.PathStart | State.Path | State.Query | State.Fragment => true | _ => false end.

Definition override_invariant (p : parser) : Prop :=
  let u := url p in
  match state p with
  | State.SchemeStart => url_wf u ∧ buffer p = []
  | State.Scheme => url_wf u ∧ scheme_ok (buffer p)
  | State.Host | State.Hostname => url_wf u ∧ has_an_opaque_path u = false ∧ Forall is_byte (buffer p)
  | State.FileHost => url_wf u ∧ scheme u = sv "file" ∧ Forall is_byte (buffer p)
  | State.Port =>
      url_wf u ∧ cannot_have_a_username_or_password_or_port u = false ∧ Forall is_byte (buffer p)
  | State.PathStart | State.Path | State.Query | State.Fragment => state_invariant input None override p
  | _ => False
  end.

Notation ok := (step_goal input override_invariant url_wf).
Notation inv := (in_bounds input override_invariant).

Lemma overridden_Some : overridden override = true.
Proof. done. Qed.

(** Comparisons of code points. *)
Ltac cp_lia := unfold_ctypes; unfold end_of_file in *; bool_to_prop; lia.

Ltac same_state H :=
  unfold override_invariant; cbn [state with_iterator with_buffer with_url with_inside_brackets with_encoder];
  rewrite H; cbn.

(** ** Scheme *)
Lemma scheme_change_wf u s :
  url_wf u → scheme_ok s → scheme_change_refused u s = false →
  url_wf (if bool_decide (port u = default_port_for_scheme s) then with_port (with_scheme u s) None else with_scheme u s).
Proof.
  intros [[Hs Hn Hp Hh Hpo Ha Hpa Hq Hf] Hpath] Hok Href. unfold scheme_change_refused in Href.
  apply orb_false_iff in Href as [[[R1 R2]%orb_false_iff R3]%orb_false_iff R4].
  assert (is_special_scheme s = is_special u) as Hsp.
  { fold (is_special u) in R1, R2. by destruct (is_special u), (is_special_scheme s). }
  set (v := with_scheme u s).
  assert (is_special v = is_special u) as Hspv by done.
  assert (match host v with Some h => host_ok s h | None => is_special v = false end) as Hhost.
  { cbn [host v with_scheme]. destruct (host u) as [h|]; [|by rewrite Hspv]. unfold host_ok in *.
    rewrite Hsp. fold (is_special u) in Hh. destruct (is_special u); [|done].
    destruct Hh as [|[Hfile ->]]; [by left|]. by rewrite bool_decide_eq_true_2 in R4 by done. }
  assert (includes_credentials v = true ∨ is_Some (port v) → cannot_have_a_username_or_password_or_port v = false) as Hauth.
  { intros Hc. cbn [port v with_scheme] in Hc. change (includes_credentials v) with (includes_credentials u) in Hc.
    specialize (Ha Hc). unfold cannot_have_a_username_or_password_or_port in *. cbn [host scheme v with_scheme].
    destruct (host u) as [h|]; [|done]. apply orb_false_iff in Ha as [-> _].
    assert (includes_credentials u || bool_decide (is_Some (port u)) = true) as Hcp.
    { destruct Hc as [->|Hc]; [done|]. by rewrite bool_decide_eq_true_2, orb_true_r. }
    by rewrite Hcp in R3. }
  split.
  2:{ destruct (bool_decide (port u = _)); intros Hnil; destruct (Hpath Hnil) as [Hsp0 Hsome];
      (split; [by rewrite <-Hsp0|exact Hsome]). }
  rewrite Hspv in Hhost. assert (is_special (with_port v None) = is_special u) as Hspv' by done.
  clear R1 R2 R3 R4. case_bool_decide as Hd; constructor; rewrite ?Hspv, ?Hspv'; try done.
  - intros [Hc|[n [=]]]. apply Hauth. by left.
  - change (port v) with (port u). destruct (port u) as [n|]; [|done]. split; [apply Hpo|].
    cbn [scheme v with_scheme]. congruence.
Qed.

Lemma scheme_start_override p c :
  inv p → state p = State.SchemeStart → code_point_at input (iterator p) c →
  ∃ r, scheme_start_state override p c = Returned r ∧ ok p r.
Proof.
  intros [Hit Hs] Hst Hc. unfold override_invariant in Hs. rewrite Hst in Hs. destruct Hs as (Hu & Hbuf).
  eexists. split; [done|]. rewrite overridden_Some. cbn [negb]. destruct (is_ascii_alpha c) eqn:Ea; [|done].
  eapply step_break_ascii; [done|exact Hc|cp_lia|by rewrite Hst|].
  intros Haft Hle. cbn. split; [done|]. rewrite Hbuf. by apply scheme_ok_start.
Qed.

Lemma scheme_override p c :
  inv p → state p = State.Scheme → code_point_at input (iterator p) c →
  ∃ r, scheme_state input None override p c = Returned r ∧ ok p r.
Proof.
  intros [Hit Hs] Hst Hc. unfold override_invariant in Hs. rewrite Hst in Hs. destruct Hs as (Hu & Hbuf).
  unfold scheme_state. rewrite overridden_Some. cbn [negb andb]. cbv zeta.
  destruct (is_ascii_alphanumeric c || _ || _ || _) eqn:Esc.
  { eexists. split; [done|]. eapply step_break_ascii; [done|exact Hc|revert Esc; cp_lia|by rewrite Hst|].
    intros Haft Hle. same_state Hst. split; [done|]. by apply scheme_ok_append. }
  destruct (c =? c_colon); [|by eexists].
  destruct (scheme_change_refused (url p) (buffer p)) eqn:Er; [by eexists|].
  eexists. split; [done|]. exact (scheme_change_wf (url p) (buffer p) Hu Hbuf Er).
Qed.

(** ** Host and port *)
Lemma host_change_wf u h :
  url_wf u → has_an_opaque_path u = false → host_ok (scheme u) h →
  (includes_credentials u = true ∨ is_Some (port u) → is_empty_host h = false ∧ scheme u ≠ sv "file") →
  url_wf (with_host u (Some h)).
Proof.
  intros [[Hs Hn Hp Hh Hpo Ha Hpa Hq Hf] Hpath] Ho Hok Hc. split.
  - constructor; try done.
    + intros Hi. destruct (Hc Hi) as [He Hnf]. unfold cannot_have_a_username_or_password_or_port.
      cbn [host with_host]. rewrite He. by apply bool_decide_eq_false.
    + cbn [has_an_opaque_path with_host]. rewrite Ho in Hpa |- *. done.
  - intros Hnil. destruct (Hpath Hnil). by split.
Qed.

Lemma port_change_wf u n :
  url_wf u → 0 ≤ n < 2 ^ 16 → cannot_have_a_username_or_password_or_port u = false →
  url_wf (if bool_decide (Some n = default_port_for_scheme (scheme u)) then with_port u None
          else with_port u (Some n)).
Proof.
  intros [[Hs Hn Hp Hh Hpo Ha Hpa Hq Hf] Hpath] Hr Hc.
  case_bool_decide as Hd; (split; [|done]); constructor; try done.
Qed.

Lemma host_override p c :
  inv p → state p = State.Host ∨ state p = State.Hostname → code_point_at input (iterator p) c →
  ∃ r, host_state override p c = Returned r ∧ ok p r.
Proof.
  intros [Hit Hs] Hst Hc.
  assert (url_wf (url p) ∧ has_an_opaque_path (url p) = false ∧ Forall is_byte (buffer p)) as (Hu & Ho & Hbuf).
  { unfold override_invariant in Hs. by destruct Hst as [Hst|Hst]; rewrite Hst in Hs. }
  assert (rank (state p) = 3%nat) as Hrank by (by destruct Hst as [-> | ->]).
  unfold host_state. rewrite overridden_Some. cbn [andb]. cbv zeta.
  case_bool_decide as Hfile.
  { eexists. split; [done|]. apply step_continue; [done..|rewrite Hrank; simpl; lia|]. by cbn. }
  destruct ((c =? c_colon) && negb (inside_brackets p)) eqn:Ecolon.
  { case_bool_decide as Hne; [by eexists|]. destruct (bool_decide (override = Some State.Hostname)); [by eexists|].
    destruct (parse_host_ok (url p) (buffer p) Hbuf) as ([h|] & -> & Hh); [done| |by eexists].
    destruct (Hh h eq_refl) as [Hok Hnempty]. cbn [mbind outcome_bind]. eexists. split; [done|].
    eapply step_break_ascii; [done|exact Hc|revert Ecolon; cp_lia|done|]. intros Haft Hle. cbn.
    split_and!; [|by rewrite Hnempty, bool_decide_eq_false_2|constructor].
    apply host_change_wf; auto. }
  destruct (ends_authority (url p) c) eqn:Eend.
  { destruct (is_special (url p) && bool_decide (buffer p = [])) eqn:Esp; [by eexists|].
    destruct (bool_decide (buffer p = []) && _) eqn:Ecred; [by eexists|].
    destruct (parse_host_ok (url p) (buffer p) Hbuf) as ([h|] & -> & Hh); [| |by eexists].
    { intros Hsp Hnil. by rewrite Hsp, bool_decide_eq_true_2 in Esp. }
    destruct (Hh h eq_refl) as [Hok Hnempty]. cbn [mbind outcome_bind]. eexists. split; [done|].
    apply host_change_wf; [done..|]. intros Hi. split; [|done]. apply Hnempty. intros Hnil.
    rewrite (bool_decide_eq_true_2 _ Hnil) in Ecred. cbn [andb] in Ecred.
    apply orb_false_iff in Ecred as [E1 E2%bool_decide_eq_false]. destruct Hi; congruence. }
  assert (c ≠ end_of_file) as Hne by (intros ->; by cbn in Eend).
  destruct (append_code_point_bytes (buffer p) c Hbuf) as [Hb Hbne]; [by eapply code_point_at_range|].
  eexists. split; [done|]. apply step_break_next; [done|by eapply code_point_at_lt|by intros|].
  intros it' Hinc Hr. destruct Hst as [Hst|Hst]; by same_state Hst.
Qed.

Lemma file_host_override p c :
  inv p → state p = State.FileHost → code_point_at input (iterator p) c →
  ∃ r, file_host_state override p c = Returned r ∧ ok p r.
Proof.
  intros [Hit Hs] Hst Hc. unfold override_invariant in Hs. rewrite Hst in Hs.
  destruct Hs as (Hu & Hfile & Hbuf). unfold file_host_state. rewrite overridden_Some. cbn [negb andb]. cbv zeta.
  destruct (file_url_plain (url p) Hu Hfile) as (Hn & Hp & Hpo & Ho & _).
  assert (∀ h, host_ok (scheme (url p)) h → url_wf (with_host (url p) (Some h))) as Hwf.
  { intros h Hh. apply host_change_wf; [done..|]. intros [Hi|[n Hi]]; [|congruence].
    by rewrite (proj2 (includes_credentials_false _)) in Hi. }
  destruct ((c =? end_of_file) || _ || _ || _ || _) eqn:Eend.
  2:{ assert (c ≠ end_of_file) as Hne by (intros ->; by cbn in Eend).
      destruct (append_code_point_bytes (buffer p) c Hbuf) as [Hb _]; [by eapply code_point_at_range|].
      eexists. split; [done|]. apply step_break_next; [done|by eapply code_point_at_lt|by intros|].
      intros it' Hinc Hr. by same_state Hst. }
  assert (host_ok (scheme (url p)) (HostString [])) as Hempty by (rewrite Hfile; by right).
  case_bool_decide as Hnil; [eexists; split; [done|by apply Hwf]|].
  destruct (parse_host_ok (url p) (buffer p) Hbuf) as ([h|] & -> & Hh); [done| |by eexists].
  destruct (Hh h eq_refl) as [Hok _]. cbn [mbind outcome_bind]. eexists. split; [done|].
  apply Hwf. by destruct (bool_decide _).
Qed.

Lemma port_override p c :
  inv p → state p = State.Port → code_point_at input (iterator p) c →
  ∃ r, port_state override p c = Returned r ∧ ok p r.
Proof.
  intros [Hit Hs] Hst Hc. unfold override_invariant in Hs. rewrite Hst in Hs.
  destruct Hs as (Hu & Hcan & Hbuf). eexists. split; [done|]. rewrite overridden_Some, orb_true_r. cbv zeta.
  destruct (is_ascii_digit c) eqn:Ed.
  { assert (0 ≤ c < 0x80) as Hr by (revert Ed; cp_lia).
    destruct (append_code_point_bytes (buffer p) c Hbuf) as [Hb Hbne]; [lia|].
    eapply step_break_ascii; [done|exact Hc|done|by intros|]. intros Haft Hle. by same_state Hst. }
  case_bool_decide as Hnil; cbn [negb]; [done|].
  destruct (parse_number 0xFFFF 10 (buffer p)) as [n|] eqn:En; [|done].
  apply port_change_wf; [done| |done]. apply parse_number_range in En; lia.
Qed.

(** ** The states after the authority *)
Definition stays_in_tail (r : step_result) : Prop :=
  match r with
  | Break p | Continue p => tail_state (state p) = true
  | ReturnUrl _ => True
  | ReturnFailure _ => False
  end.

Lemma tail_step p c r :
  tail_state (state p) = true → run_state input None override p c = Returned r → stays_in_tail r.
Proof.
  intros Ht Hr. unfold run_state in Hr. destruct (state p) eqn:Hst; try done.
  - unfold path_start_state in Hr. injection Hr as <-. repeat case_match; simpl; by rewrite ?Hst.
  - unfold path_state in Hr. destruct (_ || _).
    + apply bind_returned in Hr as (u & _ & Hr). injection Hr as <-. repeat case_match; simpl; by rewrite ?Hst.
    + apply bind_returned in Hr as (b & _ & Hr). injection Hr as <-. simpl. by rewrite Hst.
  - unfold query_state in Hr. apply bind_returned in Hr as (e & _ & Hr). destruct (_ || _).
    + apply bind_returned in Hr as (q & _ & Hr). injection Hr as <-. case_match; simpl; by rewrite ?Hst.
    + injection Hr as <-. simpl. by rewrite Hst.
  - unfold fragment_state in Hr. destruct (negb _).
    + injection Hr as <-. simpl. by rewrite Hst.
    + apply bind_returned in Hr as (e & _ & Hr). apply bind_returned in Hr as (f & _ & Hr). injection Hr as <-.
      simpl. by rewrite Hst.
Qed.

Lemma tail_invariant p :
  tail_state (state p) = true → override_invariant p ↔ state_invariant input None override p.
Proof. unfold override_invariant. by destruct (state p). Qed.

Lemma tail_override p c :
  inv p → tail_state (state p) = true → current_code_point input p = Returned c →
  ∃ r, run_state input None override p c = Returned r ∧ ok p r.
Proof.
  intros [Hit Hs] Ht Hc. apply (tail_invariant p Ht) in Hs.
  destruct (run_state_preserved input None override Hinput ltac:(done) p c) as (r & Hr & Hok); [done..|].
  exists r. split; [done|]. pose proof (tail_step p c r Ht Hr) as Hstay.
  destruct r as [p'|p'|u|u]; cbn [step_goal] in *; try done.
  - destruct (iterator_done input (iterator p')); [done|]. destruct Hok as (it' & Hinc & [Hb Hsi] & Hm).
    exists it'. split_and!; [done| |done]. split; [done|]. by apply tail_invariant.
  - destruct Hok as [[Hb Hsi] Hm]. split; [|done]. split; [done|]. by apply tail_invariant.
Qed.

Lemma run_state_override p c :
  inv p → current_code_point input p = Returned c →
  ∃ r, run_state input None override p c = Returned r ∧ ok p r.
Proof.
  intros Hinv Hc. destruct (tail_state (state p)) eqn:Ht; [by apply tail_override|].
  destruct (current_code_point_spec _ Hinput p (proj1 Hinv)) as (c' & Hc' & Hcp).
  assert (c' = c) as -> by congruence. unfold run_state. pose proof Hinv as [_ Hs].
  unfold override_invariant in Hs. destruct (state p) eqn:Hst; try done; first
    [ by apply scheme_start_override | by apply scheme_override | by apply host_override; auto
    | by apply file_host_override | by apply port_override ].
Qed.
End Setters.

(** ** [basic_parse] on an existing URL *)
Section BasicParseOverride.
Context `{SimdutfOk} `{FastFloatOk} `{Icu} `{!IcuOk} `{LegacyEncodersOk}.

(** What the caller of the parser guarantees of the URL, by starting state. *)
Definition override_ready (u : URL) (start : State.t) : Prop :=
  match start with
  | State.SchemeStart | State.Query | State.Fragment => url_wf u
  | State.Host | State.Hostname => url_wf u ∧ has_an_opaque_path u = false
  | State.Port => url_wf u ∧ cannot_have_a_username_or_password_or_port u = false
  | State.PathStart => path_stage u ∧ paths u = []
  | _ => False
  end.

Lemma basic_parse_override raw u start :
  Forall is_byte raw → override_ready u start →
  ∃ r v, basic_parse raw None (Some u) (Some start) None = Returned (r, v) ∧ url_wf v ∧ (∀ w, r = Some w → w = v).
Proof.
  intros Hraw Hready. unfold basic_parse.
  destruct (process_input_returns raw true Hraw) as (input & -> & Hinput). cbn [mbind outcome_bind].
  destruct (select_encoder_returns None) as (e & ->). cbn [mbind outcome_bind]. cbv zeta. cbn [default].
  match goal with |- context [parse_loop input None _ _ ?q] => set (p := q) end.
  destruct (parse_loop_goal input None (Some start) (override_invariant input start) url_wf
    (parse_fuel input) p Hinput) as (b & v & -> & Hv).
  - intros q c Hq Hc. by apply run_state_override.
  - split; [simpl; lia|]. unfold override_invariant, p. cbn.
    destruct start; try done; cbn in Hready |- *; split_and!; try apply Hready; first [done|constructor|left].
    all: by eexists.
  - unfold measure, parse_fuel, p. cbn. destruct start; cbn; lia.
  - cbn [mbind outcome_bind]. eexists _, _. split; [done|]. split; [by destruct b|].
    intros w Hw. destruct b; by simplify_eq.
Qed.

End BasicParseOverride.

(** ** What a run with a state override writes *)
Section Frame.
Context `{Simdutf} `{FastFloat} `{Icu} `{LegacyEncoders}.
Context (input : bytes) (start : State.t).

(** The URL without the components the run may write. *)
Definition masked (u : URL) : URL :=
  match start with
  | State.SchemeStart => with_port (with_scheme u []) None
  | State.Host => with_port (with_host u None) None
  | State.Hostname => with_host u None
  | State.Port => with_port u None
  | State.PathStart => with_paths u []
  | State.Query => with_query u None
  | State.Fragment => with_fragment u None
  | _ => u
  end.

(** The states the run is in. *)
Definition in_run (s : State.t) : bool :=
  match start, s with
  | State.SchemeStart, (State.SchemeStart | State.Scheme)
  | State.Host, (State.Host | State.Port | State.FileHost)
  | State.Hostname, (State.Hostname | State.FileHost)
  | State.Port, State.Port
  | State.PathStart, (State.PathStart | State.Path)
  | State.Query, State.Query
  | State.Fragment, State.Fragment => true
  | _, _ => false
  end.

Definition framed (p : parser) (r : step_result) : Prop :=
  match r with
  | Break p' | Continue p' => in_run (state p') = true ∧ masked (url p') = masked (url p)
  | ReturnUrl u | ReturnFailure u => masked u = masked (url p)
  end.

Lemma finish_segment_paths u segment c v :
  finish_segment u segment c = Returned v → ∃ ps, v = with_paths u ps.
Proof.
  unfold finish_segment, shorten_urls_path, verify, append_slash. cbv zeta.
  assert (∃ ps, u = with_paths u ps) as Hself by (exists (paths u); by destruct u).
  destruct (is_double_dot_path_segment segment).
  { destruct (negb (has_an_opaque_path u)); [|done]. cbn [mbind outcome_bind].
    destruct (_ && _ && _), (_ || _); intros [= <-]; eauto. }
  destruct (is_single_dot_path_segment segment).
  { destruct (_ || _); intros [= <-]; eauto. }
  intros (s & _ & [= <-])%bind_returned. eauto.
Qed.

(** Step through the branches of one state. *)
Ltac branches Hr :=
  repeat match type of Hr with
    | mbind _ _ = Returned _ => apply bind_returned in Hr as (? & ? & Hr)
    | context [if ?b then _ else _] => destruct b eqn:?
    | context [match ?o with Some _ => _ | None => _ end] => destruct o eqn:?
    end;
  injection Hr as <-.

Lemma frame_step p c r :
  in_run (state p) = true → run_state input None (Some start) p c = Returned r → framed p r.
Proof.
  unfold framed, in_run, masked, run_state. intros Hin Hr.
  assert (∀ s, overridden (Some s) = true) as Hov by done.
  destruct start, (state p) eqn:Hst; try done;
    unfold scheme_start_state, scheme_state, host_state, file_host_state, port_state, path_start_state,
      path_state, query_state, fragment_state in Hr; cbv zeta in Hr; rewrite ?Hov in Hr;
    cbn [negb andb orb] in Hr; rewrite ?orb_false_r in Hr; branches Hr; try (cbn; rewrite ?Hst; done).
  - exfalso. assert (c = c_question) as -> by lia. by rewrite andb_false_r in Heqb.
  - exfalso. assert (c = c_hash) as -> by lia. by rewrite andb_false_r in Heqb.
  - apply finish_segment_paths in H3 as (ps & ->). cbn. by rewrite Hst.
  - unfold end_of_file in *. lia.
Qed.

Lemma frame_loop fuel p b v :
  in_run (state p) = true → parse_loop input None (Some start) fuel p = Returned (b, v) →
  masked v = masked (url p).
Proof.
  revert p. induction fuel as [|fuel IH]; intros p Hin; [done|]. cbn [parse_loop].
  intros (c & _ & Hl)%bind_returned. apply bind_returned in Hl as (r & Hr & Hl).
  pose proof (frame_step p c r Hin Hr) as Hf. destruct r as [p'|p'|u|u]; cbn [framed] in Hf.
  - destruct Hf as [Hin' <-]. destruct (iterator_done input (iterator p')); [by simplify_eq|].
    apply bind_returned in Hl as (it & _ & Hl). by apply IH in Hl.
  - destruct Hf as [Hin' <-]. by apply IH.
  - by simplify_eq.
  - by simplify_eq.
Qed.

End Frame.

Section BasicParseFrame.
Context `{Simdutf} `{FastFloat} `{Icu} `{LegacyEncoders}.

Lemma basic_parse_frame raw u start r v :
  in_run start start = true → basic_parse raw None (Some u) (Some start) None = Returned (r, v) →
  masked start v = masked start u.
Proof.
  intros Hin. unfold basic_parse. intros (input & _ & Hp)%bind_returned.
  apply bind_returned in Hp as (e & _ & Hp). cbv zeta in Hp.
  apply bind_returned in Hp as ([b w] & Hl & Hp). apply frame_loop in Hl; [|done].
  by simplify_eq.
Qed.

End BasicParseFrame.
