(* ===== verification/InsertionSort.v ===== *)
(** * AK/InsertionSort.h

    The in-place insertion sort by swaps, with a comparator that may itself
    fail, and what it computes: a stable sort. *)
From Stdlib Require Import Sorted.
From S2P Require Import Prelude.

Section Model.
Context {A : Type} (comparator : A → A → outcome bool).

(** [for (j = i; j > start && comparator(col[j], col[j - 1]); --j) swap(...)] with [start = 0] *)
Fixpoint insertion_sort_inner (j : nat) (col : list A) : outcome (list A) :=
  match j with
  | O => Returned col
  | S j' =>
      a ← at_index col j;
      b ← at_index col j';
      less ← comparator a b;
      if (less : bool) then
        col ← set_index col j b;
        col ← set_index col j' a;
        insertion_sort_inner j' col
      else Returned col
  end.

(** [for (i = start + 1; i <= end; ++i)] *)
Fixpoint insertion_sort_outer (steps i : nat) (col : list A) : outcome (list A) :=
  match steps with
  | O => Returned col
  | S steps => col ← insertion_sort_inner i col; insertion_sort_outer steps (i + 1) col
  end.

Definition insertion_sort (collection : list A) : outcome (list A) :=
  match collection with
  | [] => Returned []
  | _ => insertion_sort_outer (length collection - 1) 1 collection
  end.

End Model.

(** ** Only the elements are compared *)
Section Ext.
Context {A : Type} (P : A → Prop) (c1 c2 : A → A → outcome bool).
Context (Hext : ∀ a b, P a → P b → c1 a b = c2 a b).

Lemma insertion_sort_inner_ext j col :
  Forall P col →
  insertion_sort_inner c1 j col = insertion_sort_inner c2 j col
  ∧ ∀ col', insertion_sort_inner c1 j col = Returned col' → Forall P col'.
Proof.
  revert col. induction j as [|j IH]; intros col Hcol; cbn [insertion_sort_inner]; [naive_solver|].
  unfold at_index. destruct (col !! S j) as [a|] eqn:Ea; [|done]. cbn [must mbind outcome_bind].
  destruct (col !! j) as [b|] eqn:Eb; [|done]. cbn [must mbind outcome_bind].
  pose proof (Forall_lookup_1 _ _ _ _ Hcol Ea) as Ha. pose proof (Forall_lookup_1 _ _ _ _ Hcol Eb) as Hb.
  rewrite Hext by done. destruct (c2 a b) as [[]| |]; cbn [mbind outcome_bind]; [|naive_solver|done..].
  apply lookup_lt_Some in Ea. rewrite set_index_lt by done. cbn [mbind outcome_bind].
  rewrite set_index_lt by (rewrite length_insert; lia). cbn [mbind outcome_bind].
  apply IH. by apply Forall_insert; [apply Forall_insert|].
Qed.

Lemma insertion_sort_ext l : Forall P l → insertion_sort c1 l = insertion_sort c2 l.
Proof.
  intros Hl. destruct l as [|x l]; [done|]. unfold insertion_sort.
  enough (∀ n i col, Forall P col → insertion_sort_outer c1 n i col = insertion_sort_outer c2 n i col) by auto.
  intros n. induction n as [|n IH]; intros i col Hcol; [done|]. cbn [insertion_sort_outer].
  destruct (insertion_sort_inner_ext i col Hcol) as [Heq Hp]. rewrite <-Heq.
  destruct (insertion_sort_inner c1 i col) as [col'| |]; [|done..]. cbn [mbind outcome_bind]. by apply IH, Hp.
Qed.
End Ext.

(** ** With a comparator that compares keys *)
Section Sorted.
Context {A : Type} (less : A → A → bool).

Notation comparator := (λ a b, Returned (less a b)).

(** What one pass of the inner loop computes: [x] moved left over every greater element. *)
Fixpoint insert_left (x : A) (reversed : list A) : list A :=
  match reversed with
  | [] => [x]
  | y :: reversed => if less x y then y :: insert_left x reversed else x :: y :: reversed
  end.

Lemma insertion_sort_inner_spec x reversed post :
  insertion_sort_inner comparator (length reversed) (rev reversed ++ x :: post)
  = Returned (rev (insert_left x reversed) ++ post).
Proof.
  revert post. induction reversed as [|y reversed IH]; intros post; [done|].
  cbn [length insertion_sort_inner rev]. rewrite <-app_assoc. cbn [app].
  assert (at_index (rev reversed ++ y :: x :: post) (S (length reversed)) = Returned x) as ->.
  { apply at_index_lt. rewrite lookup_app_r by (rewrite length_rev; lia). by rewrite length_rev, Nat.sub_succ_l, Nat.sub_diag. }
  assert (at_index (rev reversed ++ y :: x :: post) (length reversed) = Returned y) as ->.
  { apply at_index_lt. rewrite lookup_app_r by (rewrite length_rev; lia). by rewrite length_rev, Nat.sub_diag. }
  cbn [mbind outcome_bind insert_left]. destruct (less x y).
  - rewrite set_index_lt by (rewrite length_app, length_rev; simpl; lia). cbn [mbind outcome_bind].
    rewrite set_index_lt by (rewrite length_insert, length_app, length_rev; simpl; lia). cbn [mbind outcome_bind].
    assert (<[length reversed:=x]> (<[S (length reversed):=y]> (rev reversed ++ y :: x :: post))
      = rev reversed ++ x :: y :: post) as ->.
    { rewrite insert_app_r_alt by (rewrite length_rev; lia). rewrite length_rev, Nat.sub_succ_l, Nat.sub_diag by lia.
      rewrite insert_app_r_alt by (rewrite length_rev; lia). by rewrite length_rev, Nat.sub_diag. }
    rewrite IH. cbn [rev]. by rewrite <-app_assoc.
  - cbn [rev]. by rewrite <-!app_assoc.
Qed.

Fixpoint sort_reversed (reversed post : list A) : list A :=
  match post with
  | [] => reversed
  | x :: post => sort_reversed (insert_left x reversed) post
  end.

Lemma insert_left_length x reversed : length (insert_left x reversed) = S (length reversed).
Proof. induction reversed as [|y reversed IH]; simpl; [done|]. case_match; simpl; lia. Qed.

Lemma insertion_sort_outer_spec reversed post :
  insertion_sort_outer comparator (length post) (length reversed) (rev reversed ++ post)
  = Returned (rev (sort_reversed reversed post)).
Proof.
  revert reversed. induction post as [|x post IH]; intros reversed; cbn [length insertion_sort_outer sort_reversed].
  - by rewrite app_nil_r.
  - rewrite insertion_sort_inner_spec. cbn [mbind outcome_bind].
    replace (length reversed + 1)%nat with (length (insert_left x reversed)) by (rewrite insert_left_length; lia).
    apply IH.
Qed.

Lemma insertion_sort_spec l : insertion_sort comparator l = Returned (rev (sort_reversed [] l)).
Proof.
  destruct l as [|x l]; [done|]. unfold insertion_sort.
  replace (length (x :: l) - 1)%nat with (length l) by (simpl; lia).
  apply (insertion_sort_outer_spec [x] l).
Qed.

(** ** The result *)
Lemma insert_left_permutation x reversed : insert_left x reversed ≡ₚ x :: reversed.
Proof.
  induction reversed as [|y reversed IH]; simpl; [done|]. case_match; [|done]. rewrite IH. constructor.
Qed.

Lemma sort_reversed_permutation reversed post : sort_reversed reversed post ≡ₚ reversed ++ post.
Proof.
  revert reversed. induction post as [|x post IH]; intros reversed; simpl; [by rewrite app_nil_r|].
  rewrite IH, insert_left_permutation. simpl. by rewrite Permutation_middle.
Qed.

Context (less_asymmetric : ∀ a b, less a b = true → less b a = false)
        (less_transitive : ∀ a b c, less b a = false → less c b = false → less c a = false).

(** In reverse order no element is less than the one after it. *)
Definition not_greater (a b : A) : Prop := less a b = false.

Lemma insert_left_sorted x reversed :
  StronglySorted not_greater reversed → StronglySorted not_greater (insert_left x reversed).
Proof.
  induction 1 as [|y reversed Hs IH Hy]; simpl; [by repeat constructor|].
  destruct (less x y) eqn:E.
  - constructor; [done|]. rewrite insert_left_permutation. constructor; [by apply less_asymmetric|done].
  - constructor; [by constructor|]. constructor; [done|]. eapply Forall_impl; [done|].
    intros z Hz. by apply (less_transitive z y x).
Qed.

Lemma sort_reversed_sorted reversed post :
  StronglySorted not_greater reversed → StronglySorted not_greater (sort_reversed reversed post).
Proof.
  revert reversed. induction post as [|x post IH]; intros reversed Hs; simpl; [done|].
  by apply IH, insert_left_sorted.
Qed.

(** Elements that are not less than each other keep their order. *)
Lemma insert_left_filter (P : A → Prop) `{!∀ a, Decision (P a)} x reversed :
  (∀ y, P x → P y → less x y = false) →
  filter P (insert_left x reversed) = filter P (x :: reversed).
Proof.
  intros HP. induction reversed as [|y reversed IH]; simpl; [done|]. destruct (less x y) eqn:E; [|done].
  rewrite filter_cons, IH, !filter_cons. destruct (decide (P x)), (decide (P y)); try done.
  rewrite HP in E by done. done.
Qed.

Lemma sort_reversed_filter (P : A → Prop) `{!∀ a, Decision (P a)} reversed post :
  (∀ x y, P x → P y → less x y = false) →
  filter P (sort_reversed reversed post) = rev (filter P post) ++ filter P reversed.
Proof.
  intros HP. revert reversed. induction post as [|x post IH]; intros reversed; simpl; [done|].
  rewrite IH, insert_left_filter by auto. rewrite !filter_cons. destruct (decide (P x)); [|done].
  cbn [rev]. by rewrite <-app_assoc.
Qed.

End Sorted.

Lemma filter_rev {A} (P : A → Prop) `{!∀ a, Decision (P a)} (l : list A) : filter P (rev l) = rev (filter P l).
Proof.
  induction l as [|x l IH]; [done|]. cbn [rev]. rewrite filter_app, IH, !filter_cons, filter_nil.
  destruct (decide (P x)); [done|]. by rewrite app_nil_r.
Qed.

Lemma StronglySorted_snoc {A} (R : A → A → Prop) l x :
  StronglySorted R l → Forall (λ y, R y x) l → StronglySorted R (l ++ [x]).
Proof.
  induction 1 as [|y l Hs IH Hy]; intros Hx; [repeat constructor|]. apply Forall_cons in Hx as [Hyx Hx].
  cbn [app]. constructor; [by apply IH|]. apply Forall_app. split; [done|]. by repeat constructor.
Qed.

Lemma StronglySorted_rev {A} (R : A → A → Prop) l :
  StronglySorted R l → StronglySorted (flip R) (rev l).
Proof.
  induction 1 as [|y l Hs IH Hy]; [constructor|]. cbn [rev]. apply StronglySorted_snoc; [done|].
  apply Forall_rev. done.
Qed.

(** The sort returns a sorted permutation in which the elements of any class of
    equal elements keep their order. *)
Lemma insertion_sort_stable {A} (less : A → A → bool) (l : list A) :
  (∀ a b, less a b = true → less b a = false) →
  (∀ a b c, less b a = false → less c b = false → less c a = false) →
  ∃ l', insertion_sort (λ a b, Returned (less a b)) l = Returned l'
    ∧ l' ≡ₚ l ∧ StronglySorted (λ a b, less b a = false) l'
    ∧ ∀ (P : A → Prop) (dec : ∀ a, Decision (P a)),
        (∀ a b, P a → P b → less a b = false) → filter P l' = filter P l.
Proof.
  intros Ha Ht. exists (rev (sort_reversed less [] l)). rewrite insertion_sort_spec. split; [done|]. split_and!.
  - rewrite <-Permutation_rev. by rewrite sort_reversed_permutation.
  - apply (StronglySorted_rev (not_greater less)). by apply sort_reversed_sorted; [..|constructor].
  - intros P ? HP. rewrite filter_rev, sort_reversed_filter by done. rewrite filter_nil, app_nil_r. apply rev_involutive.
Qed.
