(* ===== verification/UrlSearchParams.v ===== *)
(** * URLSearchParams

    The form-urlencoded serializer and parser and the URLSearchParams object of
    LibWeb/DOMURL/URLSearchParams.cpp.  The object's [m_url] points to the
    DOMURL it belongs to, of which [update] writes the query and nothing else;
    the model keeps the URL record of that DOMURL. *)
From Stdlib Require Import Sorted.
From S2P Require Import Prelude CharacterTypes Externals Utf8 StringView Format PercentEncoding Ipv4 Ipv6 Host PublicSuffix TextCodec Origin Url UrlParser UrlWellFormed InsertionSort.

Record QueryParam := mk_query_param { param_name : bytes; param_value : bytes }.

#[global] Instance QueryParam_eq_dec : EqDecision QueryParam.
Proof. solve_decision. Defined.

Record URLSearchParams := mk_search_params { m_list : list QueryParam; m_url : option URL }.

(** ** Serializing and parsing *)
Section Urlencoded.
Context `{Simdutf} `{LegacyEncoders}.

(** The loop of [url_encode]. *)
Fixpoint url_encode_loop (encoder : Encoder) (output : bytes) (tuples : list QueryParam) : outcome bytes :=
  match tuples with
  | [] => Returned output
  | tuple :: tuples =>
      name ← percent_encode_after_encoding encoder (param_name tuple) ApplicationXWWWFormUrlencoded true;
      value ← percent_encode_after_encoding encoder (param_value tuple) ApplicationXWWWFormUrlencoded true;
      let output := if bool_decide (output = []) then output else output ++ [c_ampersand] in
      url_encode_loop encoder (output ++ name ++ [c_equals] ++ value) tuples
  end.

Definition url_encode (tuples : list QueryParam) (encoding : bytes) : outcome bytes :=
  let encoding := get_output_encoding encoding in
  let encoder := match encoder_for encoding with Some e => Some e | None => encoder_for (sv "utf-8") end in
  encoder ← must encoder;
  output ← url_encode_loop encoder [] tuples;
  must_to_string output.

(** One sequence of [url_decode]. *)
Definition decode_sequence (sequence : bytes) : outcome QueryParam :=
  '(name, value) ←
    match find_char sequence c_equals with
    | Some index =>
        name ← substring_view sequence 0 index;
        value ← substring_view_from sequence (index + 1);
        Returned (name, value)
    | None => Returned (sequence, [])
    end;
  space_decoded_name ← replace name (sv "+") (sv " ");
  space_decoded_value ← replace value (sv "+") (sv " ");
  decoded_name ← percent_decode space_decoded_name;
  name_string ← from_utf8_with_replacement_character decoded_name;
  decoded_value ← percent_decode space_decoded_value;
  value_string ← from_utf8_with_replacement_character decoded_value;
  Returned (mk_query_param name_string value_string).

Fixpoint url_decode_loop (sequences : list bytes) : outcome (list QueryParam) :=
  match sequences with
  | [] => Returned []
  | sequence :: sequences =>
      if bool_decide (sequence = []) then url_decode_loop sequences
      else
        param ← decode_sequence sequence;
        rest ← url_decode_loop sequences;
        Returned (param :: rest)
  end.

Definition url_decode (input : bytes) : outcome (list QueryParam) :=
  sequences ← split_view input (sv "&") SplitNothing;
  url_decode_loop sequences.

(** ** The object *)

(** [URLSearchParams::to_string] *)
Definition params_to_string (params : URLSearchParams) : outcome bytes := url_encode (m_list params) (sv "UTF-8").

Definition update (params : URLSearchParams) : outcome URLSearchParams :=
  match m_url params with
  | None => Returned params
  | Some u =>
      serialized_query ← params_to_string params;
      let query := if bool_decide (serialized_query = []) then None else Some serialized_query in
      Returned (mk_search_params (m_list params) (Some (with_query u query)))
  end.

Definition with_list (params : URLSearchParams) (l : list QueryParam) : URLSearchParams :=
  mk_search_params l (m_url params).

(** [URLSearchParams::create] from a string. *)
Definition create_params (init : bytes) : outcome URLSearchParams :=
  list ← url_decode init; Returned (mk_search_params list None).

(** [construct_impl]: an error is [None]. *)
Inductive ParamsInit :=
| InitSequence (pairs : list (list bytes))
| InitRecord (entries : list (bytes * bytes))
| InitString (init : bytes).

Fixpoint pairs_to_params (pairs : list (list bytes)) : option (list QueryParam) :=
  match pairs with
  | [] => Some []
  | [name; value] :: pairs =>
      match pairs_to_params pairs with Some rest => Some (mk_query_param name value :: rest) | None => None end
  | _ :: _ => None
  end.

Definition construct_params (init : ParamsInit) : outcome (option URLSearchParams) :=
  match init with
  | InitSequence pairs => Returned (option_map (λ list, mk_search_params list None) (pairs_to_params pairs))
  | InitRecord entries =>
      Returned (Some (mk_search_params ((λ entry, mk_query_param entry.1 entry.2) <$> entries) None))
  | InitString init =>
      stripped_init ← substring_view_from init (if starts_with_char init c_question then 1 else 0);
      params ← create_params stripped_init; Returned (Some params)
  end.

Definition params_append (params : URLSearchParams) (name value : bytes) : outcome URLSearchParams :=
  update (with_list params (m_list params ++ [mk_query_param name value])).

(** Whether [delete_] and [has] mean this entry. *)
Definition param_matches (name : bytes) (value : option bytes) (entry : QueryParam) : bool :=
  bool_decide (param_name entry = name)
  && match value with Some value => bool_decide (param_value entry = value) | None => true end.

Definition params_delete (params : URLSearchParams) (name : bytes) (value : option bytes)
    : outcome URLSearchParams :=
  update (with_list params (List.filter (λ entry, negb (param_matches name value entry)) (m_list params))).

Definition params_get (params : URLSearchParams) (name : bytes) : option bytes :=
  param_value <$> List.find (param_matches name None) (m_list params).

Definition params_get_all (params : URLSearchParams) (name : bytes) : list bytes :=
  param_value <$> List.filter (param_matches name None) (m_list params).

Definition params_has (params : URLSearchParams) (name : bytes) (value : option bytes) : bool :=
  match List.find (param_matches name value) (m_list params) with Some _ => true | None => false end.

(** The list of [set]: the first entry of the name gets the value, the others
    of the name are removed; [None] when there is none. *)
Fixpoint set_first (name value : bytes) (params : list QueryParam) : option (list QueryParam) :=
  match params with
  | [] => None
  | entry :: rest =>
      if param_matches name None entry then
        Some (mk_query_param (param_name entry) value
              :: List.filter (λ entry, negb (param_matches name None entry)) rest)
      else match set_first name value rest with Some rest => Some (entry :: rest) | None => None end
  end.

Definition params_set (params : URLSearchParams) (name value : bytes) : outcome URLSearchParams :=
  update (with_list params (
    match set_first name value (m_list params) with
    | Some l => l
    | None => m_list params ++ [mk_query_param name value]
    end)).

(** [Utf16View::is_code_unit_less_than]; [StringView::compare] orders ASCII views in the same way. *)
Fixpoint is_code_unit_less_than (a b : list Z) : bool :=
  match a, b with
  | _, [] => false
  | [], _ :: _ => true
  | x :: a, y :: b => if x =? y then is_code_unit_less_than a b else x <? y
  end.

(** [UnicodeUtils::code_point_to_utf16] *)
Definition code_point_to_utf16 (code_point : Z) : list Z :=
  if code_point <? FIRST_SUPPLEMENTARY_PLANE_CODE_POINT then [code_point]
  else
    let code_point := code_point - FIRST_SUPPLEMENTARY_PLANE_CODE_POINT in
    [Z.lor 0xd800 (Z.shiftr code_point 10); Z.lor 0xdc00 (Z.land code_point 0x3ff)].

(** [simdutf::convert_utf8_to_utf16]; nothing is assumed of it. *)
Context (convert_utf8_to_utf16 : bytes → list Z).

(** The code units of [Utf16String::from_utf8]. *)
Definition utf16_from_utf8 (s : bytes) : outcome (list Z) :=
  valid ← utf8_validate s AllowYes;
  verify valid (
    if sv_is_ascii s then Returned s
    else
      scalar ← utf8_validate s AllowNo;
      Returned (if (scalar : bool) then convert_utf8_to_utf16 s else flat_map code_point_to_utf16 (code_points s))).

Definition code_unit_less_than (a b : bytes) : outcome bool :=
  if sv_is_ascii a && sv_is_ascii b then Returned (is_code_unit_less_than a b)
  else
    a_utf16 ← utf16_from_utf8 a;
    b_utf16 ← utf16_from_utf8 b;
    Returned (is_code_unit_less_than a_utf16 b_utf16).

Definition params_sort (params : URLSearchParams) : outcome URLSearchParams :=
  list ← insertion_sort (λ a b, code_unit_less_than (param_name a) (param_name b)) (m_list params);
  update (with_list params list).

End Urlencoded.

(** ** Encoding one string *)
Notation form_set := ApplicationXWWWFormUrlencoded.

(** What the UTF-8 encoder's bytes become. *)
Definition form_encode (b : Z) : bytes :=
  if b =? c_space then [c_plus]
  else if code_point_is_in_percent_encode_set b form_set then pct b else [b].

(** The bytes of the output. *)
Definition form_byte (b : Z) : Prop := encoded_byte form_set b ∨ b = c_plus.

Lemma form_byte_plain b : form_byte b → 0x20 ≤ b ≤ 0x7E ∧ b ≠ c_ampersand ∧ b ≠ c_equals ∧ b ≠ c_space ∧ b ≠ c_hash.
Proof.
  intros [[Hr [->|Hs]]| ->]; [lia| |lia]. split; [done|].
  split_and!; intros ->; done.
Qed.

Lemma form_encode_bytes b : is_byte b → Forall form_byte (form_encode b).
Proof.
  intros Hb. unfold form_encode. destruct (Z.eqb_spec b c_space) as [->|Hne].
  { apply Forall_singleton. by right. }
  destruct (code_point_is_in_percent_encode_set b form_set) eqn:E.
  - eapply Forall_impl; [by apply (pct_encoded form_set)|]. intros x Hx. by left.
  - apply Forall_singleton. left. unfold is_byte in Hb. split; [|by right].
    pose proof (not_in_set_printable b form_set ltac:(lia) E). lia.
Qed.

Lemma form_encode_all_bytes s : Forall is_byte s → Forall form_byte (flat_map form_encode s).
Proof.
  induction 1 as [|b s Hb Hs IH]; [constructor|]. cbn [flat_map]. apply Forall_app.
  split; [by apply form_encode_bytes|done].
Qed.

Lemma form_bytes_ascii s : Forall form_byte s → forallb is_ascii s = true.
Proof.
  intros Hs. apply forallb_Forall. eapply Forall_impl; [done|].
  intros b Hb%form_byte_plain. unfold is_ascii. lia.
Qed.

Section Roundtrip.
Context `{SimdutfOk} `{LegacyEncoders}.

Lemma percent_encode_form s :
  Forall is_byte s →
  percent_encode_after_encoding s_utf8_encoder s form_set true = Returned (flat_map form_encode s).
Proof. intros Hs. by rewrite percent_encode_after_utf8. Qed.

(** Replacing the plus signs and decoding gives the string back. *)
Lemma form_decode s :
  Forall is_byte s →
  percent_decode (replace_char c_plus c_space <$> flat_map form_encode s) = Returned s.
Proof.
  intros Hs. rewrite percent_decode_is_loop.
  assert (∀ builder, percent_decode_loop builder (replace_char c_plus c_space <$> flat_map form_encode s)
    = Returned (builder ++ s)) as Hl; [|by apply (Hl [])].
  induction Hs as [|b s Hb Hs IH]; intros builder; [by rewrite app_nil_r|].
  cbn [flat_map]. rewrite fmap_app. unfold form_encode at 1.
  destruct (Z.eqb_spec b c_space) as [->|Hne].
  { cbn [fmap list_fmap app]. change (replace_char c_plus c_space c_plus) with c_space.
    rewrite percent_decode_plain by done. by rewrite IH, <-app_assoc. }
  destruct (code_point_is_in_percent_encode_set b form_set) eqn:E.
  - rewrite replace_char_absent.
    + rewrite percent_decode_pct by done. by rewrite IH, <-app_assoc.
    + intros Hp. pose proof (pct_encoded form_set b Hb) as Henc.
      rewrite Forall_forall in Henc. destruct (Henc _ Hp) as [_ [?|?]]; done.
  - cbn [fmap list_fmap app]. assert (replace_char c_plus c_space b = b) as -> by (unfold replace_char; by destruct (Z.eqb_spec b c_plus) as [->|]).
    rewrite percent_decode_plain by (by intros ->). by rewrite IH, <-app_assoc.
Qed.

(** ** Encoding a list *)
Definition pair_string (t : QueryParam) : bytes :=
  flat_map form_encode (param_name t) ++ c_equals :: flat_map form_encode (param_value t).

Definition form_string (ts : list QueryParam) : bytes :=
  match ts with
  | [] => []
  | t :: ts => pair_string t ++ flat_map (λ t, c_ampersand :: pair_string t) ts
  end.

Definition param_bytes (t : QueryParam) : Prop := Forall is_byte (param_name t) ∧ Forall is_byte (param_value t).

Lemma pair_string_nonempty t : pair_string t ≠ [].
Proof. unfold pair_string. by destruct (flat_map form_encode (param_name t)). Qed.

Lemma form_string_cons t t' ts : form_string (t :: t' :: ts) = pair_string t ++ c_ampersand :: form_string (t' :: ts).
Proof. done. Qed.

Lemma url_encode_loop_spec out ts :
  Forall param_bytes ts →
  url_encode_loop s_utf8_encoder out ts = Returned (
    if bool_decide (out = []) then form_string ts else out ++ flat_map (λ t, c_ampersand :: pair_string t) ts).
Proof.
  intros Hts. revert out. induction Hts as [|t ts [Hn Hv] Hts IH]; intros out; cbn [url_encode_loop].
  - case_bool_decide as Ho; [by rewrite Ho|]. cbn [flat_map]. by rewrite app_nil_r.
  - rewrite !percent_encode_form by done. cbn [mbind outcome_bind]. rewrite IH.
    change (flat_map form_encode (param_name t) ++ [c_equals] ++ flat_map form_encode (param_value t))
      with (pair_string t). pose proof (pair_string_nonempty t) as Hne.
    rewrite (bool_decide_eq_false_2 (_ ++ pair_string t = [])) by (by intros [_ ?]%app_nil).
    case_bool_decide as Ho; [by rewrite Ho|]. cbn [flat_map]. by rewrite <-!app_assoc.
Qed.

Lemma form_string_bytes ts :
  Forall param_bytes ts → Forall (λ b, form_byte b ∨ b = c_ampersand ∨ b = c_equals) (form_string ts).
Proof.
  assert (∀ t, param_bytes t → Forall (λ b, form_byte b ∨ b = c_ampersand ∨ b = c_equals) (pair_string t)) as Hpair.
  { intros t [Hn Hv]. apply Forall_app. split; [|constructor; [auto|]];
      (eapply Forall_impl; [by apply form_encode_all_bytes|]; auto). }
  induction 1 as [|t [|t' ts] Ht Hts IH]; [constructor| |].
  - cbn [form_string flat_map]. rewrite app_nil_r. by apply Hpair.
  - rewrite form_string_cons. apply Forall_app. split; [by apply Hpair|]. constructor; [auto|done].
Qed.

Lemma form_string_ascii ts : Forall param_bytes ts → forallb is_ascii (form_string ts) = true.
Proof.
  intros Hts. apply forallb_Forall. eapply Forall_impl; [by apply form_string_bytes|].
  intros b [Hb%form_byte_plain|[->| ->]]; unfold is_ascii; lia.
Qed.

Lemma encoder_for_utf8_output : encoder_for (get_output_encoding (sv "UTF-8")) = Some s_utf8_encoder.
Proof. vm_compute. done. Qed.

Lemma url_encode_spec ts : Forall param_bytes ts → url_encode ts (sv "UTF-8") = Returned (form_string ts).
Proof.
  intros Hts. unfold url_encode. rewrite encoder_for_utf8_output. cbn [must mbind outcome_bind].
  rewrite url_encode_loop_spec by done. cbn [mbind outcome_bind].
  rewrite bool_decide_eq_true_2 by done. by apply must_to_string_ascii, form_string_ascii.
Qed.

(** ** Decoding a list *)
Definition valid_param (t : QueryParam) : Prop := valid_utf8 (param_name t) ∧ valid_utf8 (param_value t).

Lemma valid_param_bytes t : valid_param t → param_bytes t.
Proof. intros [Hn Hv]. by split; apply valid_utf8_bytes. Qed.

Lemma form_encoded_absent s c : Forall is_byte s → c = c_equals ∨ c = c_ampersand → c ∉ flat_map form_encode s.
Proof.
  intros Hs Hc Hin. pose proof (form_encode_all_bytes s Hs) as Hf. rewrite Forall_forall in Hf.
  apply Hf, form_byte_plain in Hin. lia.
Qed.

Lemma decode_sequence_pair t : valid_param t → decode_sequence (pair_string t) = Returned t.
Proof.
  intros Hv. pose proof (valid_param_bytes t Hv) as [Hnb Hvb]. destruct Hv as [Hn Hval].
  unfold decode_sequence, pair_string. rewrite find_char_first by (by apply form_encoded_absent; auto).
  rewrite substring_view_in_range by (rewrite length_app; simpl; lia). cbn [mbind outcome_bind].
  rewrite substring_view_from_in_range by (rewrite length_app; simpl; lia). cbn [mbind outcome_bind].
  rewrite drop_0, take_app_length.
  replace (drop (length (flat_map form_encode (param_name t)) + 1)
    (flat_map form_encode (param_name t) ++ c_equals :: flat_map form_encode (param_value t)))
    with (flat_map form_encode (param_value t))
    by (rewrite drop_app_ge by lia; by rewrite Nat.add_comm, Nat.add_sub).
  change (sv "+") with [c_plus]. change (sv " ") with [c_space].
  rewrite !replace_one_char. cbn [mbind outcome_bind]. rewrite !form_decode by done. cbn [mbind outcome_bind].
  rewrite from_utf8_with_replacement_character_id by done. cbn [mbind outcome_bind].
  rewrite from_utf8_with_replacement_character_id by done. by destruct t.
Qed.

Lemma split_form_string t ts :
  Forall param_bytes (t :: ts) → split_on c_ampersand (form_string (t :: ts)) = pair_string <$> (t :: ts).
Proof.
  assert (∀ t, param_bytes t → c_ampersand ∉ pair_string t) as Habs.
  { intros t' [Hn Hv]. unfold pair_string. rewrite not_elem_of_app, not_elem_of_cons.
    split_and!; [by apply form_encoded_absent; auto|done|by apply form_encoded_absent; auto]. }
  revert t. induction ts as [|t' ts IH]; intros t [Ht Hts]%Forall_cons.
  - cbn [form_string flat_map fmap list_fmap]. rewrite app_nil_r. by apply split_on_absent, Habs.
  - rewrite form_string_cons, split_on_app by (by apply Habs). by rewrite IH.
Qed.

Lemma url_decode_form_string ts : Forall valid_param ts → url_decode (form_string ts) = Returned ts.
Proof.
  intros Hts. unfold url_decode. change (sv "&") with [c_ampersand].
  assert (Forall param_bytes ts) as Hb by (eapply Forall_impl; [done|apply valid_param_bytes]).
  destruct ts as [|t ts]; [done|].
  rewrite split_view_char by (unfold form_string; by intros [?%pair_string_nonempty _]%app_nil).
  cbn [mbind outcome_bind]. rewrite split_form_string by done. clear Hb.
  remember (t :: ts) as l eqn:Hl. clear Hl t ts. induction Hts as [|t l Ht Hl IH]; [done|].
  cbn [fmap list_fmap]. rewrite filter_cons_True by apply pair_string_nonempty. cbn [url_decode_loop].
  rewrite bool_decide_eq_false_2 by apply pair_string_nonempty. rewrite decode_sequence_pair by done.
  cbn [mbind outcome_bind]. cbn [fmap list_fmap] in IH. by rewrite IH.
Qed.

(** ** Parsing any input *)
Lemma replace_char_bytes (s : bytes) : Forall is_byte s → Forall is_byte (replace_char c_plus c_space <$> s).
Proof.
  intros Hs. apply Forall_fmap. eapply Forall_impl; [done|]. intros b Hb. unfold replace_char, compose.
  case_match; [unfold is_byte; lia|done].
Qed.

Lemma decode_component s :
  Forall is_byte s → ∃ d out, percent_decode (replace_char c_plus c_space <$> s) = Returned d
    ∧ from_utf8_with_replacement_character d = Returned out ∧ valid_utf8 out.
Proof.
  intros Hs. destruct (percent_decode_returns _ (replace_char_bytes s Hs)) as (d & Hd & Hb).
  destruct (from_utf8_with_replacement_character_valid d Hb (code_points_range d Hb)) as (out & Hout & Hv).
  by exists d, out.
Qed.

Lemma decode_sequence_returns sequence :
  Forall is_byte sequence → ∃ t, decode_sequence sequence = Returned t ∧ valid_param t.
Proof.
  intros Hs. unfold decode_sequence.
  match goal with |- context [mbind _ ?m] => assert (∃ n v, m = Returned (n, v) ∧ Forall is_byte n ∧ Forall is_byte v)
    as (n & v & -> & Hn & Hv) end.
  { destruct (find_char sequence c_equals) as [i|] eqn:E; [|by eexists _, _; split_and!; [done..|constructor]].
    pose proof (find_char_lt _ _ _ E). rewrite substring_view_in_range by lia. cbn [mbind outcome_bind].
    rewrite substring_view_from_in_range by lia. eexists _, _. split; [done|].
    by split; [apply Forall_take|]; apply Forall_drop. }
  cbn [mbind outcome_bind]. change (sv "+") with [c_plus]. change (sv " ") with [c_space].
  rewrite !replace_one_char. cbn [mbind outcome_bind].
  destruct (decode_component n Hn) as (dn & on & -> & Hon & Hvn).
  destruct (decode_component v Hv) as (dv & ov & -> & Hov & Hvv). cbn [mbind outcome_bind].
  rewrite Hon. cbn [mbind outcome_bind]. rewrite Hov. cbn [mbind outcome_bind]. eexists. by split.
Qed.

Lemma url_decode_returns input :
  Forall is_byte input → ∃ ts, url_decode input = Returned ts ∧ Forall valid_param ts.
Proof.
  intros Hi. unfold url_decode. change (sv "&") with [c_ampersand].
  destruct (decide (input = [])) as [->|Hne]; [eexists; split; [done|constructor]|].
  rewrite split_view_char by done. cbn [mbind outcome_bind].
  assert (Forall (Forall is_byte) (filter (λ part, part ≠ []) (split_on c_ampersand input))) as Hparts
    by (apply Forall_forall; intros part [_ Hin]%list_elem_of_filter; revert part Hin;
        apply Forall_forall, split_on_Forall, Hi).
  induction Hparts as [|part parts Hpart Hparts IH]; [eexists; split; [done|constructor]|].
  cbn [url_decode_loop]. case_bool_decide; [done|].
  destruct (decode_sequence_returns part Hpart) as (t & -> & Ht). cbn [mbind outcome_bind].
  destruct IH as (ts & -> & Hts). eexists. split; [done|]. by constructor.
Qed.

(** ** [update] *)
Lemma form_string_nil ts : form_string ts = [] ↔ ts = [].
Proof.
  split; [|by intros ->]. destruct ts as [|t ts]; [done|]. unfold form_string.
  by intros [?%pair_string_nonempty _]%app_nil.
Qed.

Definition list_query (ts : list QueryParam) : option bytes :=
  if bool_decide (ts = []) then None else Some (form_string ts).

Lemma update_spec params :
  Forall param_bytes (m_list params) →
  update params = Returned (mk_search_params (m_list params)
    (option_map (λ u, with_query u (list_query (m_list params))) (m_url params))).
Proof.
  intros Hl. destruct params as [l [u|]]; [|done]. unfold update, params_to_string. cbn [m_url m_list] in *.
  rewrite url_encode_spec by done. cbn [mbind outcome_bind option_map]. unfold list_query.
  by rewrite (bool_decide_ext _ _ (form_string_nil l)).
Qed.

Lemma list_query_decodes ts : Forall valid_param ts → url_decode (default [] (list_query ts)) = Returned ts.
Proof.
  intros Hts. unfold list_query. case_bool_decide as Hnil; [by rewrite Hnil|]. by apply url_decode_form_string.
Qed.

Lemma list_query_encoded special ts :
  Forall param_bytes ts →
  match list_query ts with Some q => Forall (encoded_byte (query_set special)) q | None => True end.
Proof.
  intros Hts. unfold list_query. case_bool_decide; [done|].
  eapply Forall_impl; [by apply form_string_bytes|]. intros b Hb.
  assert (0x20 ≤ b ≤ 0x7E) as Hr by (destruct Hb as [Hb%form_byte_plain|[->| ->]]; lia).
  split; [done|]. destruct Hb as [[[_ [->|Hs]]| ->]|[->| ->]]; [by left| |by right; destruct special..].
  right. assert (implb (code_point_is_in_percent_encode_set b (query_set special))
    (code_point_is_in_percent_encode_set b form_set) = true) as Himp.
  { destruct special.
    - apply (for_all_ascii_sets (λ b set, implb (code_point_is_in_percent_encode_set b SpecialQuery)
        (code_point_is_in_percent_encode_set b form_set)) b form_set); [vm_compute; done|lia].
    - apply (for_all_ascii_sets (λ b set, implb (code_point_is_in_percent_encode_set b Query)
        (code_point_is_in_percent_encode_set b form_set)) b form_set); [vm_compute; done|lia]. }
  rewrite Hs in Himp. by destruct (code_point_is_in_percent_encode_set b (query_set special)).
Qed.

(** C35: parsing a serialized list of parameters gives the list back, for every
    list of names and values that are well-formed UTF-8, empty names and values
    included. *)
Theorem url_decode_encode (ts : list QueryParam) (Hts : Forall valid_param ts) :
  (url_encode ts (sv "UTF-8") ≫= url_decode) = Returned ts.
Proof.
  rewrite url_encode_spec by (eapply Forall_impl; [done|apply valid_param_bytes]).
  by apply url_decode_form_string.
Qed.
End Roundtrip.

(** ** Lists *)
Lemma param_matches_name name entry : param_matches name None entry = true ↔ param_name entry = name.
Proof. unfold param_matches. rewrite andb_true_r. apply bool_decide_eq_true. Qed.

Lemma list_filter_filter_none {A} (f g : A → bool) l :
  (∀ x, g x = true → f x = false) → List.filter f (List.filter g l) = [].
Proof.
  intros Hfg. induction l as [|x l IH]; [done|]. cbn [List.filter]. destruct (g x) eqn:E; [|done].
  cbn [List.filter]. by rewrite Hfg.
Qed.

Lemma list_filter_filter_id {A} (f g : A → bool) l :
  (∀ x, f x = true → g x = true) → List.filter f (List.filter g l) = List.filter f l.
Proof.
  intros Hfg. induction l as [|x l IH]; [done|]. cbn [List.filter]. destruct (g x) eqn:E; cbn [List.filter].
  - by rewrite IH.
  - destruct (f x) eqn:Ef; [|done]. rewrite Hfg in E by done. done.
Qed.

Lemma matches_other name other entry :
  name ≠ other → param_matches other None entry = true → negb (param_matches name None entry) = true.
Proof.
  rewrite param_matches_name, negb_true_iff. intros Hne <-. unfold param_matches. rewrite andb_true_r.
  by apply bool_decide_eq_false.
Qed.

(** The first entry of the name is set and the others are gone. *)
Lemma set_first_spec name value ts :
  match set_first name value ts with
  | Some ts' =>
      List.find (param_matches name None) ts' = Some (mk_query_param name value)
      ∧ List.filter (param_matches name None) ts' = [mk_query_param name value]
      ∧ ∀ other, name ≠ other →
          List.filter (param_matches other None) ts' = List.filter (param_matches other None) ts
  | None => List.filter (param_matches name None) ts = []
  end.
Proof.
  induction ts as [|t ts IH]; [done|]. cbn [set_first]. destruct (param_matches name None t) eqn:E.
  - apply param_matches_name in E. cbn [List.find List.filter]. rewrite E.
    rewrite (proj2 (param_matches_name name (mk_query_param name value))) by done. split_and!; [done|..].
    + by rewrite list_filter_filter_none by (intros x; by rewrite negb_true_iff).
    + intros other Hne.
      assert (∀ t', param_name t' = name → param_matches other None t' = false) as Hf.
      { intros t' <-. unfold param_matches. rewrite andb_true_r. by apply bool_decide_eq_false. }
      rewrite !Hf by done. apply list_filter_filter_id. intros x. by apply matches_other.
  - destruct (set_first name value ts) as [ts'|]; cbn [List.find List.filter]; rewrite E; [|done].
    destruct IH as (Hfind & Hfilter & Hother). split_and!; [done..|]. intros other Hne. by rewrite Hother.
Qed.

Lemma find_filter_head {A} (f : A → bool) l : List.find f l = head (List.filter f l).
Proof. induction l as [|x l IH]; [done|]. cbn [List.find List.filter]. by destruct (f x). Qed.

Lemma Forall_list_filter {A} (P : A → Prop) f l : Forall P l → Forall P (List.filter f l).
Proof. induction 1 as [|x l Hx Hl IH]; [constructor|]. cbn [List.filter]. case_match; [by constructor|done]. Qed.

Lemma set_first_Forall (P : QueryParam → Prop) name value ts ts' :
  Forall P ts → P (mk_query_param name value) → set_first name value ts = Some ts' → Forall P ts'.
Proof.
  intros Hts Hp. revert ts'. induction Hts as [|t ts Ht Hts IH]; intros ts'; [done|]. cbn [set_first].
  destruct (param_matches name None t) eqn:E.
  - apply param_matches_name in E. intros [= <-]. rewrite E. constructor; [done|]. by apply Forall_list_filter.
  - destruct (set_first name value ts) as [ts''|]; [|done]. intros [= <-]. constructor; [done|]. by apply IH.
Qed.

(** ** What the operations do *)
Section Operations.
Context `{SimdutfOk} `{LegacyEncoders} (convert : bytes → list Z).

(** The list after [set]. *)
Definition set_list (name value : bytes) (ts : list QueryParam) : list QueryParam :=
  default (ts ++ [mk_query_param name value]) (set_first name value ts).

Lemma set_list_spec name value ts :
  List.filter (param_matches name None) (set_list name value ts) = [mk_query_param name value]
  ∧ ∀ other, name ≠ other →
      List.filter (param_matches other None) (set_list name value ts) = List.filter (param_matches other None) ts.
Proof.
  unfold set_list. pose proof (set_first_spec name value ts) as Hs.
  destruct (set_first name value ts) as [ts'|]; cbn [default].
  - by destruct Hs as (_ & Hf & Ho).
  - rewrite List.filter_app, Hs. split; [|intros other Hne; rewrite List.filter_app]; cbn [List.filter app].
    + by rewrite (proj2 (param_matches_name name (mk_query_param name value))).
    + assert (param_matches other None (mk_query_param name value) = false) as ->; [|by rewrite app_nil_r].
      unfold param_matches. rewrite andb_true_r. by apply bool_decide_eq_false.
Qed.

Lemma set_list_Forall (P : QueryParam → Prop) name value ts :
  Forall P ts → P (mk_query_param name value) → Forall P (set_list name value ts).
Proof.
  intros Hts Hp. unfold set_list. destruct (set_first name value ts) as [ts'|] eqn:E; cbn [default].
  - by eapply set_first_Forall.
  - apply Forall_app. by split; [|apply Forall_singleton].
Qed.

Lemma params_set_returns params name value :
  Forall param_bytes (m_list params) → param_bytes (mk_query_param name value) →
  params_set params name value = Returned (mk_search_params (set_list name value (m_list params))
    (option_map (λ u, with_query u (list_query (set_list name value (m_list params)))) (m_url params))).
Proof.
  intros Hl Hp. unfold params_set. rewrite update_spec; [|by apply (set_list_Forall param_bytes)].
  cbn [m_list m_url with_list]. unfold set_list. by destruct (set_first name value (m_list params)).
Qed.

(** after [set] the name has exactly the value that was set, every other name
    has the values it had, in their order, and the query of the URL the object
    belongs to is the serialization of the new list. *)
Theorem params_set_get (params : URLSearchParams) (name value : bytes)
    (Hl : Forall param_bytes (m_list params)) (Hp : param_bytes (mk_query_param name value)) :
  ∃ params', params_set params name value = Returned params'
    ∧ params_get params' name = Some value ∧ params_get_all params' name = [value]
    ∧ (∀ other, name ≠ other → params_get_all params' other = params_get_all params other)
    ∧ m_url params' = option_map (λ u, with_query u (list_query (m_list params'))) (m_url params).
Proof.
  eexists. split; [by apply params_set_returns|]. unfold params_get, params_get_all. cbn [m_list m_url].
  destruct (set_list_spec name value (m_list params)) as [Hf Ho]. rewrite find_filter_head, Hf.
  split_and!; [done..| |done]. intros other Hne. by rewrite Ho.
Qed.

(** after [delete] no entry of the name (with that value, if one is given) is
    left and every entry it does not mean is kept. *)
Theorem params_delete_has (params : URLSearchParams) (name : bytes) (value : option bytes)
    (Hl : Forall param_bytes (m_list params)) :
  ∃ params', params_delete params name value = Returned params'
    ∧ params_has params' name value = false
    ∧ ∀ other, name ≠ other → params_get_all params' other = params_get_all params other.
Proof.
  unfold params_delete. rewrite update_spec by (by apply Forall_list_filter).
  eexists. split; [done|]. unfold params_has, params_get_all. cbn [m_list with_list]. split.
  - rewrite find_filter_head. by rewrite list_filter_filter_none by (intros x; by rewrite negb_true_iff).
  - intros other Hne. f_equal. apply list_filter_filter_id. intros x Hx%param_matches_name.
    unfold param_matches. by rewrite bool_decide_eq_false_2 by congruence.
Qed.

(** ** Sorting *)
Definition sort_key (s : bytes) : list Z := if sv_is_ascii s then s else convert s.

Lemma utf16_from_utf8_valid s : valid_utf8 s → utf16_from_utf8 convert s = Returned (sort_key s).
Proof.
  intros Hv. unfold utf16_from_utf8, sort_key.
  pose proof (from_utf8_valid s Hv) as Hf. unfold from_utf8 in Hf.
  destruct (utf8_validate s AllowYes) as [[]| |]; try done. cbn [mbind outcome_bind]. rewrite verify_true by done.
  destruct (sv_is_ascii s); [done|].
  assert (utf8_validate s AllowNo = Returned true) as ->; [|done].
  unfold utf8_validate. simpl. rewrite andb_false_r. cbn [fmap outcome_fmap fst].
  by rewrite bool_decide_eq_true_2 by (apply validate_utf8_spec; [by apply valid_utf8_bytes|done]).
Qed.

Definition name_less (a b : QueryParam) : bool :=
  is_code_unit_less_than (sort_key (param_name a)) (sort_key (param_name b)).

Lemma code_unit_less_than_valid a b :
  valid_param a → valid_param b →
  code_unit_less_than convert (param_name a) (param_name b) = Returned (name_less a b).
Proof.
  intros [Ha _] [Hb _]. unfold code_unit_less_than, name_less.
  destruct (sv_is_ascii (param_name a) && sv_is_ascii (param_name b)) eqn:E.
  - apply andb_prop in E as [Ea Eb]. unfold sort_key. by rewrite Ea, Eb.
  - rewrite utf16_from_utf8_valid by done. cbn [mbind outcome_bind]. by rewrite utf16_from_utf8_valid by done.
Qed.

Lemma code_units_asymmetric a b : is_code_unit_less_than a b = true → is_code_unit_less_than b a = false.
Proof.
  revert b. induction a as [|x a IH]; intros [|y b]; cbn [is_code_unit_less_than]; try done.
  rewrite (Z.eqb_sym y x). destruct (Z.eqb_spec x y); [apply IH|]. lia.
Qed.

Lemma code_units_transitive a b c :
  is_code_unit_less_than b a = false → is_code_unit_less_than c b = false → is_code_unit_less_than c a = false.
Proof.
  revert b c. induction a as [|x a IH]; intros [|y b] [|z c]; cbn [is_code_unit_less_than]; try done.
  destruct (Z.eqb_spec y x), (Z.eqb_spec z y), (Z.eqb_spec z x); subst; try done; try lia. apply IH.
Qed.

(** The filter of [get_all] in the two libraries' spellings. *)
Lemma filter_by_name name ts :
  List.filter (param_matches name None) ts = filter (λ t, param_name t = name) ts.
Proof.
  induction ts as [|t ts IH]; [done|]. rewrite filter_cons. cbn [List.filter].
  destruct (decide (param_name t = name)) as [Hn|Hn].
  - rewrite (proj2 (param_matches_name name t) Hn). by rewrite IH.
  - destruct (param_matches name None t) eqn:E; [by apply param_matches_name in E|done].
Qed.

Lemma params_sort_returns params :
  Forall valid_param (m_list params) →
  ∃ l, params_sort convert params
      = Returned (mk_search_params l (option_map (λ u, with_query u (list_query l)) (m_url params)))
    ∧ l ≡ₚ m_list params
    ∧ StronglySorted (λ a b, name_less b a = false) l
    ∧ ∀ name, filter (λ t, param_name t = name) l = filter (λ t, param_name t = name) (m_list params).
Proof.
  intros Hl. unfold params_sort.
  rewrite (insertion_sort_ext valid_param _ (λ a b, Returned (name_less a b))) by
    (done || (intros a b Ha Hb; by apply code_unit_less_than_valid)).
  destruct (insertion_sort_stable name_less (m_list params)) as (l' & -> & Hperm & Hsorted & Hstable).
  { intros a b. apply code_units_asymmetric. }
  { intros a b c. apply code_units_transitive. }
  cbn [mbind outcome_bind]. rewrite update_spec.
  2:{ cbn [m_list with_list]. rewrite Hperm. eapply Forall_impl; [done|apply valid_param_bytes]. }
  exists l'. split_and!; [done..|].
  intros name. apply Hstable. intros a b Ha Hb. unfold name_less. rewrite Ha, Hb.
  destruct (is_code_unit_less_than (sort_key name) (sort_key name)) eqn:E; [|done].
  by rewrite (code_units_asymmetric _ _ E) in E.
Qed.

(** [sort] returns and sorts by the UTF-16 code units of the names, whatever
    the conversion of names that are not ASCII computes: the list is a
    permutation of what it was, no name is less than one before it, and every
    name keeps the order of its values. *)
Theorem params_sort_stable (params : URLSearchParams) (Hl : Forall valid_param (m_list params)) :
  ∃ params', params_sort convert params = Returned params'
    ∧ m_list params' ≡ₚ m_list params
    ∧ StronglySorted (λ a b, name_less b a = false) (m_list params')
    ∧ ∀ name, params_get_all params' name = params_get_all params name.
Proof.
  destruct (params_sort_returns params Hl) as (l & Hsort & Hperm & Hsorted & Hstable).
  eexists. split; [done|]. split_and!; [done..|].
  intros name. unfold params_get_all. cbn [m_list]. by rewrite !filter_by_name, Hstable.
Qed.

End Operations.

(** ** Concrete inputs *)
Definition params_example : URLSearchParams :=
  mk_search_params [mk_query_param (sv "b") (sv "1"); mk_query_param (sv "a b") []; mk_query_param (sv "b") (sv "x&y")]
    (Some new_url).

Lemma params_example_valid : Forall valid_param (m_list params_example).
Proof.
  repeat (apply Forall_cons; split; [split; (apply ascii_valid_utf8; [repeat constructor; vm_compute; done|done])|]).
  constructor.
Qed.

Lemma params_example_bytes : Forall param_bytes (m_list params_example).
Proof. eapply Forall_impl; [apply params_example_valid|apply valid_param_bytes]. Qed.

Lemma url_decode_encode_witness :
  (@url_encode simdutf_example legacy_encoders_example (m_list params_example) (sv "UTF-8")
     ≫= @url_decode simdutf_example) = Returned (m_list params_example).
Proof. apply (@url_decode_encode simdutf_example simdutf_example_ok). exact params_example_valid. Defined.

Lemma params_set_get_witness :
  ∃ params', @params_set simdutf_example legacy_encoders_example params_example (sv "b") (sv "2") = Returned params'
    ∧ params_get params' (sv "b") = Some (sv "2") ∧ params_get_all params' (sv "b") = [sv "2"]
    ∧ (∀ other, sv "b" ≠ other → params_get_all params' other = params_get_all params_example other)
    ∧ m_url params' = option_map (λ u, with_query u (list_query (m_list params'))) (m_url params_example).
Proof.
  apply (@params_set_get simdutf_example simdutf_example_ok); [exact params_example_bytes|].
  split; apply sv_bytes.
Defined.

Lemma params_delete_has_witness :
  ∃ params', @params_delete simdutf_example legacy_encoders_example params_example (sv "b") (Some (sv "1"))
      = Returned params'
    ∧ params_has params' (sv "b") (Some (sv "1")) = false
    ∧ ∀ other, sv "b" ≠ other → params_get_all params' other = params_get_all params_example other.
Proof. apply (@params_delete_has simdutf_example simdutf_example_ok). exact params_example_bytes. Defined.

Lemma params_sort_stable_witness :
  ∃ params', @params_sort simdutf_example legacy_encoders_example id params_example = Returned params'
    ∧ m_list params' ≡ₚ m_list params_example
    ∧ StronglySorted (λ a b, @name_less simdutf_example id b a = false) (m_list params')
    ∧ ∀ name, params_get_all params' name = params_get_all params_example name.
Proof. apply (@params_sort_stable simdutf_example simdutf_example_ok). exact params_example_valid. Defined.
