(* ===== verification/UrlQuery.v ===== *)
(** * The query of a URL and its parameters

    Parsing the query that the parser stores gives the parameters that parsing
    the original text gives: the percent-encoding of the query leaves the
    separators and the percent signs alone. *)
From S2P Require Import Prelude CharacterTypes Externals Utf8 StringView Format PercentEncoding Ipv4 Ipv6 Host PublicSuffix TextCodec Origin Url UrlParser UrlWellFormed UrlSerializer UrlParserInvariant UrlParserSteps UrlParserCorrect UrlSetters InsertionSort UrlSearchParams.

(** ** The query state *)
Section Loop.
Context `{SimdutfOk} `{FastFloat} `{Icu} `{LegacyEncoders}.
Context (input : bytes) (u : URL).

Definition encoded_query (s : bytes) : bytes := flat_map (encode_byte (query_set (is_special u)) false) s.

Definition in_query (p : parser) : Prop :=
  state p = State.Query ∧ buffer p = take (iterator p) input ∧ encoder p = s_utf8_encoder
  ∧ masked State.Query (url p) = masked State.Query u.

Lemma query_encoder p :
  in_query p →
  (if negb (is_special (url p)) || bool_decide (scheme (url p) = sv "ws") || bool_decide (scheme (url p) = sv "wss")
   then must (encoder_for (sv "utf-8")) else Returned (encoder p)) = Returned s_utf8_encoder.
Proof. intros (_ & _ & -> & _). destruct (_ || _); [by rewrite encoder_for_utf8|done]. Qed.

Lemma query_special p : in_query p → is_special (url p) = is_special u.
Proof. intros (_ & _ & _ & Hm). unfold is_special. by rewrite (f_equal scheme Hm : scheme (url p) = scheme u). Qed.

Lemma query_loop cps : ∀ fuel p,
  in_query p → Forall is_byte input → drop (iterator p) input = flat_map utf8_form cps → Forall is_scalar cps →
  (length cps < fuel)%nat →
  ∃ v, parse_loop input None (Some State.Query) fuel p = Returned (true, v)
    ∧ query v = Some (encoded_query input).
Proof.
  induction cps as [|c cps IH]; intros fuel p Hp Hi Hdrop Hcps Hfuel; (destruct fuel as [|fuel]; [simpl in Hfuel; lia|]);
    cbn [parse_loop]; unfold current_code_point, iterator_done, suffix_at; rewrite Hdrop;
    pose proof (query_encoder p Hp) as Henc; pose proof (query_special p Hp) as Hsp;
    destruct Hp as (Hst & Hb & He & Hm).
  - cbn [flat_map]. rewrite bool_decide_eq_true_2 by done. cbn [mbind outcome_bind].
    unfold run_state. rewrite Hst. unfold query_state. rewrite Henc. cbn [mbind outcome_bind].
    change ((_ && (end_of_file =? c_hash)) || (end_of_file =? end_of_file)) with true. cbv iota. cbn [buffer with_encoder].
    assert (length input ≤ iterator p)%nat as Hlen.
    { apply (f_equal length) in Hdrop. rewrite length_drop in Hdrop. simpl in Hdrop. lia. }
    rewrite Hb, take_ge, Hsp by done. fold (query_set (is_special u)).
    rewrite percent_encode_after_utf8 by done. cbn [mbind outcome_bind].
    change (end_of_file =? c_hash) with false. cbv iota. cbn [iterator with_buffer with_url with_encoder url].
    rewrite Hdrop, bool_decide_eq_true_2 by done. by eexists.
  - apply Forall_cons in Hcps as [[Hc Hsur] Hcps]. cbn [flat_map]. rewrite <-code_point_to_utf8_arith by done.
    set (bs := (code_point_to_utf8 c).1) in *.
    destruct (decode_encoded c (flat_map utf8_form cps) Hc) as [Hderef Hstep].
    assert (bs ++ flat_map utf8_form cps ≠ []) as Hne
      by (by intros [?%code_point_to_utf8_nonempty _]%app_nil).
    rewrite bool_decide_eq_false_2 by done. fold bs in Hderef, Hstep. rewrite Hderef. cbn [mbind outcome_bind].
    unfold run_state. rewrite Hst. unfold query_state. rewrite Henc. cbn [mbind outcome_bind].
    assert ((negb (overridden (Some State.Query)) && (c =? c_hash)) || (c =? end_of_file) = false) as ->
      by (change (overridden (Some State.Query)) with true; unfold end_of_file; cbn [negb andb orb]; lia).
    cbv iota. cbn [mbind outcome_bind iterator with_buffer with_encoder].
    cbn [flat_map] in Hdrop. rewrite <-code_point_to_utf8_arith in Hdrop by done. fold bs in Hdrop.
    rewrite Hdrop, bool_decide_eq_false_2 by done.
    assert (iterator p < length input)%nat as Hlt.
    { apply (f_equal length) in Hdrop. rewrite length_drop in Hdrop.
      destruct (bs ++ flat_map utf8_form cps); [done|]. simpl in Hdrop. lia. }
    rewrite (proj1 (increment_spec _ _ Hlt)), Hdrop, Hstep. cbn [mbind outcome_bind].
    apply IH; [|done| |done|simpl in Hfuel; lia].
    + split_and!; [done| |done|done]. cbn [buffer iterator with_iterator with_buffer with_encoder].
      unfold append_code_point, is_unicode. rewrite (proj2 (Z.leb_le _ _)) by lia. fold bs. rewrite Hb.
      rewrite <-(take_take_drop input (iterator p) (length bs)). by rewrite Hdrop, take_app_length.
    + cbn [iterator with_iterator with_buffer with_encoder].
      by rewrite <-drop_drop, Hdrop, drop_app_length.
Qed.

End Loop.

Section Parse.
Context `{SimdutfOk} `{FastFloat} `{Icu} `{LegacyEncoders}.

(** The [search] setter's run of the parser. *)
Lemma query_override input u r v :
  valid_utf8 input → contains_ascii_tab_or_newline input = false →
  basic_parse input None (Some u) (Some State.Query) None = Returned (r, v) →
  query v = Some (encoded_query u input).
Proof.
  intros Hv Htab. pose proof (valid_utf8_bytes _ Hv) as Hi. unfold basic_parse, process_input.
  cbn [mbind outcome_bind]. rewrite size_sub_le by lia. cbn [mbind outcome_bind].
  rewrite substring_view_in_range by lia. cbn [mbind outcome_bind].
  rewrite Nat.sub_0_r, drop_0, take_ge by lia.
  rewrite from_utf8_with_replacement_character_id by done. cbn [mbind outcome_bind]. rewrite Htab.
  cbn [mbind outcome_bind]. unfold select_encoder. rewrite encoder_for_utf8. cbn [must mbind outcome_bind]. cbv zeta.
  pose proof Hv as (cps & Hcps & Hcp).
  match goal with |- context [parse_loop input None _ _ ?q] => set (p := q) end.
  assert (length cps ≤ length input)%nat as Hlen.
  { pose proof (code_points_length input) as Hl. rewrite Hcp in Hl at 1.
    by rewrite code_points_utf8_form in Hl by (by apply is_scalar_range). }
  destruct (query_loop input u cps (parse_fuel input) p) as (w & -> & Hw); [done|done|done|done| |].
  { unfold parse_fuel. lia. }
  cbn [mbind outcome_bind]. intros [= <- <-]. done.
Qed.

End Parse.

(** ** Parsing the encoded query *)
Section Decode.
Context `{SimdutfOk}.
Context (special : bool).

Notation enc := (flat_map (encode_byte (query_set special) false)).

Lemma query_keeps b :
  b = c_percent ∨ b = c_ampersand ∨ b = c_equals ∨ b = c_plus ∨ is_ascii_hex_digit b = true →
  encode_byte (query_set special) false b = [b].
Proof.
  intros Hb. unfold encode_byte. cbn [andb].
  assert (code_point_is_in_percent_encode_set b (query_set special) = false) as ->; [|done].
  assert (implb ((b =? c_percent) || (b =? c_ampersand) || (b =? c_equals) || (b =? c_plus) || is_ascii_hex_digit b)
    (negb (code_point_is_in_percent_encode_set b (query_set special))) = true) as Hf.
  { destruct special.
    - apply (for_all_ascii_sets (λ b set, implb ((b =? c_percent) || (b =? c_ampersand) || (b =? c_equals)
        || (b =? c_plus) || is_ascii_hex_digit b) (negb (code_point_is_in_percent_encode_set b SpecialQuery))) b Query);
        [vm_compute; done|]. revert Hb. unfold_ctypes. lia.
    - apply (for_all_ascii_sets (λ b set, implb ((b =? c_percent) || (b =? c_ampersand) || (b =? c_equals)
        || (b =? c_plus) || is_ascii_hex_digit b) (negb (code_point_is_in_percent_encode_set b Query))) b Query);
        [vm_compute; done|]. revert Hb. unfold_ctypes. lia. }
  apply negb_true_iff. destruct (negb _); [done|]. rewrite implb_false_r in Hf. apply negb_true_iff in Hf.
  destruct Hb as [->|[->|[->|[->|Hb]]]]; try done. by rewrite Hb, orb_true_r in Hf.
Qed.

(** What a byte becomes is itself, or its escape, which has no separator in it. *)
Lemma encode_byte_cases b :
  encode_byte (query_set special) false b = [b]
  ∨ (encode_byte (query_set special) false b = pct b
     ∧ b ≠ c_percent ∧ b ≠ c_ampersand ∧ b ≠ c_equals ∧ b ≠ c_plus ∧ is_ascii_hex_digit b = false).
Proof.
  destruct (code_point_is_in_percent_encode_set b (query_set special)) eqn:E.
  2:{ left. unfold encode_byte. cbn [andb]. by rewrite E. }
  right. split; [unfold encode_byte; cbn [andb]; by rewrite E|].
  assert (encode_byte (query_set special) false b = pct b) as Hp by (unfold encode_byte; cbn [andb]; by rewrite E).
  split_and!; try (intros ->; by rewrite query_keeps in Hp by auto).
  destruct (is_ascii_hex_digit b) eqn:Eh; [|done]. by rewrite query_keeps in Hp by auto.
Qed.

Lemma pct_plain b c : is_byte b → c = c_ampersand ∨ c = c_equals ∨ c = c_plus → c ∉ pct b.
Proof.
  intros Hb Hc Hin. pose proof (pct_encoded ApplicationXWWWFormUrlencoded b Hb) as Henc.
  rewrite Forall_forall in Henc. destruct (Henc c Hin) as [_ [->|Hs]]; [lia|]. by destruct Hc as [->|[->| ->]].
Qed.

Lemma enc_absent c s :
  c = c_ampersand ∨ c = c_equals ∨ c = c_plus → Forall is_byte s → c ∉ s → c ∉ enc s.
Proof.
  intros Hc. induction 1 as [|b s Hb Hs IH]; [done|]. rewrite not_elem_of_cons. intros [Hne Hin].
  cbn [flat_map]. rewrite not_elem_of_app. split; [|by apply IH].
  destruct (encode_byte_cases b) as [->|[-> _]]; [by rewrite list_elem_of_singleton|by apply pct_plain].
Qed.

Lemma split_enc s : Forall is_byte s → split_on c_ampersand (enc s) = (λ part, enc part) <$> split_on c_ampersand s.
Proof.
  induction 1 as [|b s Hb Hs IH]; [done|]. cbn [flat_map split_on].
  destruct (Z.eqb_spec b c_ampersand) as [->|Hne].
  - rewrite query_keeps by auto. cbn [app split_on fmap list_fmap]. by rewrite IH.
  - rewrite split_on_prefix.
    + rewrite IH. destruct (split_on c_ampersand s) as [|part parts]; cbn [fmap list_fmap flat_map]; [|done].
      by rewrite app_nil_r.
    + destruct (encode_byte_cases b) as [->|[-> _]]; [by rewrite list_elem_of_singleton|apply pct_plain; auto].
Qed.

Lemma enc_nil s : enc s = [] ↔ s = [].
Proof.
  split; [|by intros ->]. destruct s as [|b s]; [done|]. cbn [flat_map].
  intros [Hb _]%app_nil. by destruct (encode_byte_cases b) as [Hc|[Hc _]]; rewrite Hc in Hb.
Qed.

Lemma filter_enc (parts : list bytes) :
  filter (λ part, part ≠ []) ((λ part, enc part) <$> parts) = (λ part, enc part) <$> filter (λ part, part ≠ []) parts.
Proof.
  induction parts as [|part parts IH]; [done|]. cbn [fmap list_fmap]. rewrite !filter_cons.
  destruct (decide (part ≠ [])) as [Hp|Hp].
  - rewrite decide_True by (by rewrite enc_nil). cbn [fmap list_fmap]. by rewrite <-IH.
  - rewrite decide_False by (by rewrite enc_nil). done.
Qed.

(** ** Percent-decoding looks at two characters *)
Definition hex_ahead (s : bytes) : bool :=
  match s with h :: l :: _ => is_ascii_hex_digit h && is_ascii_hex_digit l | _ => false end.

Lemma percent_decode_bare builder s :
  hex_ahead s = false → percent_decode_loop builder (c_percent :: s) = percent_decode_loop (builder ++ [c_percent]) s.
Proof.
  intros Hx. cbn [percent_decode_loop]. change (negb (c_percent =? c_percent)) with false. cbv iota.
  destruct s as [|h [|l s]]; [done..|]. cbn [hex_ahead] in Hx.
  by rewrite <-negb_andb, Hx.
Qed.

Notation spaced := (replace_char c_plus c_space).

Lemma spaced_hex b : is_ascii_hex_digit (spaced b) = is_ascii_hex_digit b.
Proof. unfold replace_char. by destruct (Z.eqb_spec b c_plus) as [->|]. Qed.

Lemma spaced_id b : is_ascii_hex_digit b = true → spaced b = b.
Proof. unfold replace_char. by destruct (Z.eqb_spec b c_plus) as [->|]. Qed.

Lemma hex_head b rest :
  match spaced <$> encode_byte (query_set special) false b ++ rest with
  | h :: _ => is_ascii_hex_digit h | [] => false end = is_ascii_hex_digit b.
Proof.
  destruct (encode_byte_cases b) as [->|(-> & _ & _ & _ & _ & ->)]; [|done]. cbn [app fmap list_fmap]. apply spaced_hex.
Qed.

Lemma hex_ahead_enc s : hex_ahead (spaced <$> enc s) = hex_ahead s.
Proof.
  destruct s as [|h s]; [done|]. pose proof (hex_head h (enc s)) as Hh. cbn [flat_map].
  destruct (is_ascii_hex_digit h) eqn:Eh.
  - rewrite query_keeps by auto. cbn [app fmap list_fmap]. rewrite spaced_id by done.
    destruct s as [|l s]; [done|]. pose proof (hex_head l (enc s)) as Hl. cbn [flat_map hex_ahead]. rewrite Eh.
    destruct (spaced <$> _ ++ enc s) as [|l' rest]; [by rewrite Hl|]. by rewrite <-Hl.
  - assert (hex_ahead (h :: s) = false) as -> by (unfold hex_ahead; destruct s; [done|by rewrite Eh]).
    destruct (spaced <$> _ ++ enc s) as [|h' [|l rest]]; [done..|]. cbn [hex_ahead]. by rewrite Hh.
Qed.

Lemma percent_decode_spaced_enc s builder :
  Forall is_byte s → percent_decode_loop builder (spaced <$> enc s) = percent_decode_loop builder (spaced <$> s).
Proof.
  revert builder. induction s as [s IH] using (induction_ltof1 _ (@length Z)). unfold ltof in IH.
  intros builder Hs. destruct s as [|b s]; [done|]. apply Forall_cons in Hs as [Hb Hs].
  assert (∀ builder, percent_decode_loop builder (spaced <$> enc s) = percent_decode_loop builder (spaced <$> s)) as IH1
    by (intros; apply IH; [simpl; lia|done]).
  cbn [flat_map]. destruct (decide (b = c_percent)) as [->|Hp].
  - rewrite query_keeps by auto. cbn [app fmap list_fmap]. change (spaced c_percent) with c_percent.
    destruct (hex_ahead s) eqn:Ex.
    + destruct s as [|h [|l s]]; [done..|]. cbn [hex_ahead] in Ex. apply andb_prop in Ex as [Eh El].
      cbn [flat_map]. rewrite !query_keeps by auto. cbn [app fmap list_fmap]. rewrite !spaced_id by done.
      cbn [percent_decode_loop]. change (negb (c_percent =? c_percent)) with false. cbv iota. rewrite Eh, El.
      cbn [negb orb]. destruct (parse_ascii_hex_digit h); [|done..]. cbn [mbind outcome_bind].
      destruct (parse_ascii_hex_digit l); [|done..]. cbn [mbind outcome_bind].
      apply IH; [simpl; lia|]. rewrite !Forall_cons in Hs. apply Hs.
    + rewrite !percent_decode_bare; [done| |by rewrite hex_ahead_enc].
      rewrite <-Ex. destruct s as [|h [|l s]]; [done..|]. cbn [fmap list_fmap hex_ahead]. by rewrite !spaced_hex.
  - cbn [fmap list_fmap]. rewrite (percent_decode_plain _ (spaced b)).
    2:{ unfold replace_char. by case_match. }
    destruct (encode_byte_cases b) as [->|(-> & _ & _ & _ & Hplus & _)].
    + cbn [app fmap list_fmap]. rewrite percent_decode_plain; [done|]. unfold replace_char. by case_match.
    + rewrite fmap_app, replace_char_absent by (by apply pct_plain; auto).
      rewrite percent_decode_pct by done. unfold replace_char at 2. by destruct (Z.eqb_spec b c_plus).
Qed.

Lemma decode_sequence_enc s : Forall is_byte s → decode_sequence (enc s) = decode_sequence s.
Proof.
  intros Hs.
  assert (∀ t, Forall is_byte t → percent_decode (spaced <$> enc t) = percent_decode (spaced <$> t)) as Hd.
  { intros t Ht. rewrite !percent_decode_is_loop. by apply percent_decode_spaced_enc. }
  unfold decode_sequence. change (sv "+") with [c_plus]. change (sv " ") with [c_space].
  destruct (decide (c_equals ∈ s)) as [Hin|Hout].
  - apply list_elem_of_split_l in Hin as (before & after & -> & Hnb).
    apply Forall_app in Hs as [Hbefore [_ Hafter]%Forall_cons].
    rewrite flat_map_app. cbn [flat_map]. rewrite (query_keeps c_equals) by auto. cbn [app].
    rewrite !find_char_first by (done || apply enc_absent; auto).
    rewrite !substring_view_in_range by (rewrite length_app; simpl; lia). cbn [mbind outcome_bind].
    rewrite !substring_view_from_in_range by (rewrite length_app; simpl; lia). cbn [mbind outcome_bind].
    rewrite !drop_0, !take_app_length, !replace_one_char. cbn [mbind outcome_bind].
    assert (∀ x y : bytes, drop (length x + 1) (x ++ c_equals :: y) = y) as Hdrop
      by (intros x y; by rewrite drop_app_ge, Nat.add_comm, Nat.add_sub by lia).
    by rewrite !Hdrop, !Hd.
  - rewrite !find_char_absent by (done || apply enc_absent; auto). cbn [mbind outcome_bind].
    rewrite !replace_one_char. cbn [mbind outcome_bind]. by rewrite Hd.
Qed.

Lemma url_decode_enc s : Forall is_byte s → url_decode (enc s) = url_decode s.
Proof.
  intros Hs. unfold url_decode. change (sv "&") with [c_ampersand].
  destruct (decide (s = [])) as [->|Hne]; [done|].
  rewrite !split_view_char by (by rewrite ?enc_nil). cbn [mbind outcome_bind].
  rewrite split_enc, filter_enc by done.
  assert (Forall (λ part, part ≠ [] ∧ Forall is_byte part) (filter (λ part, part ≠ []) (split_on c_ampersand s))) as Hparts.
  { apply Forall_forall. intros part [Hp Hin]%list_elem_of_filter. split; [done|].
    pose proof (split_on_Forall is_byte c_ampersand s Hs) as Hall. rewrite Forall_forall in Hall. by apply Hall. }
  induction Hparts as [|part parts [Hp Hb] Hparts IH]; [done|]. cbn [fmap list_fmap url_decode_loop].
  rewrite !bool_decide_eq_false_2 by (by rewrite ?enc_nil). rewrite decode_sequence_enc by done.
  cbn [fmap list_fmap] in IH. by rewrite IH.
Qed.

End Decode.
