(* ===== verification/DomUrl.v ===== *)
(** * The URL interface

    The DOMURL object of LibWeb/DOMURL/DOMURL.cpp: the URL record and the list
    of its URLSearchParams object, the API parser, the getters, the setters and
    the operations of the search parameters.  The two objects point to each
    other: an operation on the parameters writes the query of the URL, and the
    setters of [href] and [search] write the list.  The model keeps both in one
    record, so that neither can be read without the writes of the other. *)
From S2P Require Import Prelude CharacterTypes Externals Utf8 StringView Format PercentEncoding Ipv4 Ipv6 Host PublicSuffix TextCodec Origin Url UrlParser UrlWellFormed UrlSerializer UrlParserInvariant UrlParserSteps UrlParserCorrect UrlOrigin UrlSetters InsertionSort UrlSearchParams UrlQuery.

(** [WebIDL::ExceptionOr] with the one exception thrown here. *)
Inductive ExceptionOr (A : Type) := TypeError (message : bytes) | Completed (value : A).
Arguments TypeError {A} message.
Arguments Completed {A} value.

(** [m_url] and the list of [m_query]. *)
Record DOMURL := mk_domurl { url_record : URL; query_list : list QueryParam }.

Definition with_record (d : DOMURL) (u : URL) : DOMURL := mk_domurl u (query_list d).

Section Interface.
Context `{Simdutf} `{FastFloat} `{Icu} `{LegacyEncoders}.

(** ** Construction *)
Definition parse_api_url (url : bytes) (base : option bytes) : outcome (option URL) :=
  match base with
  | None => fst <$> basic_parse url None None None None
  | Some base =>
      '(parsed_base_url, _) ← basic_parse base None None None None;
      match parsed_base_url with
      | None => Returned None
      | Some parsed_base => fst <$> basic_parse url (Some parsed_base) None None None
      end
  end.

Definition initialize_a_url (url_record : URL) : outcome DOMURL :=
  query_object ← create_params (default [] (query url_record));
  Returned (mk_domurl url_record (m_list query_object)).

Definition parse_for_bindings (url : bytes) (base : option bytes) : outcome (option DOMURL) :=
  parsed_url ← parse_api_url url base;
  match parsed_url with
  | None => Returned None
  | Some parsed_url => d ← initialize_a_url parsed_url; Returned (Some d)
  end.

Definition dom_construct (url : bytes) (base : option bytes) : outcome (ExceptionOr DOMURL) :=
  parsed_url ← parse_api_url url base;
  match parsed_url with
  | None => Returned (TypeError (sv "Invalid URL"))
  | Some parsed_url => d ← initialize_a_url parsed_url; Returned (Completed d)
  end.

Definition can_parse (url : bytes) (base : option bytes) : outcome bool :=
  parsed_url ← parse_api_url url base;
  Returned (match parsed_url with None => false | Some _ => true end).

(** ** Getters *)
Definition dom_href (d : DOMURL) : outcome bytes := serialize (url_record d) ExcludeFragmentNo.

Definition dom_to_json (d : DOMURL) : outcome bytes := serialize (url_record d) ExcludeFragmentNo.

Definition dom_origin (tuple_files : bool) (nonce : bytes) (d : DOMURL) : outcome bytes :=
  origin ← url_origin tuple_files nonce (url_record d); origin_serialize origin.

Definition dom_protocol (d : DOMURL) : bytes := scheme (url_record d) ++ [c_colon].

Definition dom_username (d : DOMURL) : bytes := username (url_record d).

Definition dom_password (d : DOMURL) : bytes := password (url_record d).

Definition dom_host (d : DOMURL) : outcome bytes :=
  match host (url_record d), port (url_record d) with
  | None, _ => Returned []
  | Some _, None => serialized_host (url_record d)
  | Some _, Some p =>
      host ← serialized_host (url_record d);
      port ← format_decimal p;
      Returned (host ++ [c_colon] ++ port)
  end.

Definition dom_hostname (d : DOMURL) : outcome bytes :=
  match host (url_record d) with None => Returned [] | Some _ => serialized_host (url_record d) end.

Definition dom_port (d : DOMURL) : outcome bytes :=
  match port (url_record d) with None => Returned [] | Some p => format_decimal p end.

Definition dom_pathname (d : DOMURL) : outcome bytes := serialize_path (url_record d).

Definition dom_search (d : DOMURL) : bytes :=
  match query (url_record d) with
  | None => []
  | Some q => if bool_decide (q = []) then [] else c_question :: q
  end.

Definition dom_hash (d : DOMURL) : bytes :=
  match fragment (url_record d) with
  | None => []
  | Some f => if bool_decide (f = []) then [] else c_hash :: f
  end.

(** ** Setters *)

(** [(void)basic_parse(value, {}, &m_url, state)]: the URL is what the parser
    left, also when it failed. *)
Definition parse_into (u : URL) (value : bytes) (start : State.t) : outcome URL :=
  snd <$> basic_parse value None (Some u) (Some start) None.

Definition dom_set_href (d : DOMURL) (value : bytes) : outcome (ExceptionOr DOMURL) :=
  '(parsed_url, _) ← basic_parse value None None None None;
  match parsed_url with
  | None => Returned (TypeError (sv "Invalid URL"))
  | Some u =>
      list ← match query u with Some query => url_decode query | None => Returned [] end;
      Returned (Completed (mk_domurl u list))
  end.

Definition dom_set_protocol (d : DOMURL) (protocol : bytes) : outcome DOMURL :=
  u ← parse_into (url_record d) (protocol ++ [c_colon]) State.SchemeStart; Returned (with_record d u).

Definition dom_set_username (d : DOMURL) (name : bytes) : outcome DOMURL :=
  if cannot_have_a_username_or_password_or_port (url_record d) then Returned d
  else u ← set_username (url_record d) name; Returned (with_record d u).

Definition dom_set_password (d : DOMURL) (secret : bytes) : outcome DOMURL :=
  if cannot_have_a_username_or_password_or_port (url_record d) then Returned d
  else u ← set_password (url_record d) secret; Returned (with_record d u).

Definition dom_set_host (d : DOMURL) (host : bytes) : outcome DOMURL :=
  if has_an_opaque_path (url_record d) then Returned d
  else u ← parse_into (url_record d) host State.Host; Returned (with_record d u).

Definition dom_set_hostname (d : DOMURL) (hostname : bytes) : outcome DOMURL :=
  if has_an_opaque_path (url_record d) then Returned d
  else u ← parse_into (url_record d) hostname State.Hostname; Returned (with_record d u).

Definition dom_set_port (d : DOMURL) (port : bytes) : outcome DOMURL :=
  if cannot_have_a_username_or_password_or_port (url_record d) then Returned d
  else if bool_decide (port = []) then Returned (with_record d (set_port (url_record d) None))
  else u ← parse_into (url_record d) port State.Port; Returned (with_record d u).

Definition dom_set_pathname (d : DOMURL) (pathname : bytes) : outcome DOMURL :=
  if has_an_opaque_path (url_record d) then Returned d
  else
    u ← set_paths (url_record d) [];
    u ← parse_into u pathname State.PathStart; Returned (with_record d u).

(** The value without a single leading character. *)
Definition without_leading (value : bytes) (c : Z) : outcome bytes :=
  substring_view_from value (if starts_with_char value c then 1 else 0).

Definition dom_set_search (d : DOMURL) (search : bytes) : outcome DOMURL :=
  if bool_decide (search = []) then Returned (mk_domurl (with_query (url_record d) None) [])
  else
    input ← without_leading search c_question;
    u ← parse_into (with_query (url_record d) (Some [])) input State.Query;
    list ← url_decode input;
    Returned (mk_domurl u list).

Definition dom_set_hash (d : DOMURL) (hash : bytes) : outcome DOMURL :=
  if bool_decide (hash = []) then Returned (with_record d (with_fragment (url_record d) None))
  else
    input ← without_leading hash c_hash;
    u ← parse_into (with_fragment (url_record d) (Some [])) input State.Fragment;
    Returned (with_record d u).

(** ** The search parameters *)

(** An operation of the query object, whose URL object is this one. *)
Definition on_search_params (d : DOMURL) (op : URLSearchParams → outcome URLSearchParams) : outcome DOMURL :=
  params ← op (mk_search_params (query_list d) (Some (url_record d)));
  u ← must (m_url params);
  Returned (mk_domurl u (m_list params)).

(** ** Sequences of operations *)
Inductive operation :=
| SetHref (value : bytes)
| SetProtocol (value : bytes)
| SetUsername (value : bytes)
| SetPassword (value : bytes)
| SetHost (value : bytes)
| SetHostname (value : bytes)
| SetPort (value : bytes)
| SetPathname (value : bytes)
| SetSearch (value : bytes)
| SetHash (value : bytes)
| ParamsAppend (name value : bytes)
| ParamsDelete (name : bytes) (value : option bytes)
| ParamsSet (name value : bytes)
| ParamsSort.

Context (convert_utf8_to_utf16 : bytes → list Z).

Definition run_operation (d : DOMURL) (op : operation) : outcome DOMURL :=
  match op with
  | SetHref value =>
      r ← dom_set_href d value;
      Returned (match r with TypeError _ => d | Completed d => d end)
  | SetProtocol value => dom_set_protocol d value
  | SetUsername value => dom_set_username d value
  | SetPassword value => dom_set_password d value
  | SetHost value => dom_set_host d value
  | SetHostname value => dom_set_hostname d value
  | SetPort value => dom_set_port d value
  | SetPathname value => dom_set_pathname d value
  | SetSearch value => dom_set_search d value
  | SetHash value => dom_set_hash d value
  | ParamsAppend name value => on_search_params d (λ params, params_append params name value)
  | ParamsDelete name value => on_search_params d (λ params, params_delete params name value)
  | ParamsSet name value => on_search_params d (λ params, params_set params name value)
  | ParamsSort => on_search_params d (params_sort convert_utf8_to_utf16)
  end.

Fixpoint run_operations (d : DOMURL) (ops : list operation) : outcome DOMURL :=
  match ops with
  | [] => Returned d
  | op :: ops => d ← run_operation d op; run_operations d ops
  end.

End Interface.

(** ** Invariants *)
Section Facts.
Context `{SimdutfOk} `{FastFloatOk} `{Icu} `{!IcuOk} `{LegacyEncodersOk}.
Context (convert : bytes → list Z).

Definition dom_wf (d : DOMURL) : Prop := url_wf (url_record d) ∧ Forall valid_param (query_list d).

(** The arguments are well-formed strings. *)
Definition operation_ok (op : operation) : Prop :=
  match op with
  | SetHref v | SetProtocol v | SetUsername v | SetPassword v | SetHost v | SetHostname v | SetPort v
  | SetPathname v | SetSearch v | SetHash v => valid_utf8 v
  | ParamsAppend n v | ParamsSet n v => valid_utf8 n ∧ valid_utf8 v
  | ParamsDelete n v => valid_utf8 n ∧ match v with Some v => valid_utf8 v | None => True end
  | ParamsSort => True
  end.

(** The components of the URL an operation may write, blanked. *)
Definition operation_masked (op : operation) (u : URL) : URL :=
  match op with
  | SetHref _ => new_url
  | SetProtocol _ => masked State.SchemeStart u
  | SetUsername _ => with_username u []
  | SetPassword _ => with_password u []
  | SetHost _ => masked State.Host u
  | SetHostname _ => masked State.Hostname u
  | SetPort _ => masked State.Port u
  | SetPathname _ => masked State.PathStart u
  | SetHash _ => masked State.Fragment u
  | SetSearch _ | ParamsAppend _ _ | ParamsDelete _ _ | ParamsSet _ _ | ParamsSort => masked State.Query u
  end.

Lemma parse_into_returns u value start :
  Forall is_byte value → override_ready u start → in_run start start = true →
  ∃ v, parse_into u value start = Returned v ∧ url_wf v ∧ masked start v = masked start u.
Proof.
  intros Hv Hr Hin. unfold parse_into.
  destruct (basic_parse_override value u start Hv Hr) as (r & v & Hp & Hwf & _).
  pose proof (basic_parse_frame value u start r v Hin Hp) as Hf. rewrite Hp. by exists v.
Qed.

Lemma without_leading_returns value c :
  valid_utf8 value → c < 0x80 → ∃ input, without_leading value c = Returned input ∧ valid_utf8 input
    ∧ (contains_ascii_tab_or_newline value = false → contains_ascii_tab_or_newline input = false).
Proof.
  intros Hv Hc. unfold without_leading. destruct value as [|x value]; [by exists []|].
  cbn [starts_with_char]. destruct (Z.eqb_spec c x) as [<-|Hne]; rewrite substring_view_from_in_range by (simpl; lia).
  - exists value. split_and!; [done|by eapply valid_utf8_tail|]. cbn [contains_ascii_tab_or_newline existsb].
    by intros [_ ?]%orb_false_iff.
  - by exists (x :: value).
Qed.

Lemma credentials_wf u name secret :
  url_wf u → cannot_have_a_username_or_password_or_port u = false →
  Forall (encoded_byte Userinfo) name → Forall (encoded_byte Userinfo) secret →
  url_wf (with_password (with_username u name) secret).
Proof.
  intros [[Hs Hn Hp Hh Hpo Ha Hpa Hq Hf] Hpath] Hc Hname Hsecret. split; [by constructor|done].
Qed.

(** The list is what the query of the URL is parsed to. *)
Definition in_sync (d : DOMURL) : Prop :=
  url_decode (default [] (query (url_record d))) = Returned (query_list d).

(** The parser drops tabs and newlines, which the [search] setter keeps in the
    list. *)
Definition keeps_sync (op : operation) : Prop :=
  match op with
  | SetSearch value => contains_ascii_tab_or_newline value = false
  | _ => True
  end.

(** What every operation does: it returns, keeps the object well-formed and
    its two parts in agreement, and writes nothing but its components of the
    URL. *)
Definition operation_goal (d : DOMURL) (op : operation) (m : outcome DOMURL) : Prop :=
  ∃ d', m = Returned d' ∧ dom_wf d'
    ∧ operation_masked op (url_record d') = operation_masked op (url_record d)
    ∧ (in_sync d → keeps_sync op → in_sync d').

(** A setter that runs the parser and leaves the parameters alone. *)
Lemma parse_into_setter d op u value start :
  dom_wf d → Forall is_byte value → override_ready u start → in_run start start = true →
  (∀ v, masked start v = masked start u →
     operation_masked op v = operation_masked op (url_record d) ∧ query v = query (url_record d)) →
  operation_goal d op (v ← parse_into u value start; Returned (with_record d v)).
Proof.
  intros [Hwf Hl] Hv Hr Hin Hm. destruct (parse_into_returns u value start Hv Hr Hin) as (v & -> & Hwf' & Hf).
  destruct (Hm v Hf) as [Hop Hq]. eexists. split; [done|]. split_and!; [done..|].
  intros Hsync _. unfold in_sync. cbn [url_record query_list with_record]. by rewrite Hq.
Qed.

Lemma unchanged_goal d op : dom_wf d → operation_goal d op (Returned d).
Proof. intros Hd. by exists d. Qed.

Lemma emptied_path u : url_wf u → has_an_opaque_path u = false → override_ready (with_paths u []) State.PathStart.
Proof.
  intros [[Hs Hn Hp Hh Hpo Ha Hpa Hq Hf] Hpath] Ho. split; [|done]. split; [|done]. constructor; try done.
  cbn [has_an_opaque_path with_paths]. rewrite Ho. constructor.
Qed.

(** An operation on the parameters, by the list it leaves. *)
Lemma on_search_params_goal d op f l :
  dom_wf d → Forall valid_param l → masked State.Query = operation_masked op →
  f (mk_search_params (query_list d) (Some (url_record d)))
    = Returned (mk_search_params l (Some (with_query (url_record d) (list_query l)))) →
  operation_goal d op (on_search_params d f).
Proof.
  intros [Hwf Hl] Hl' Hop Hf. unfold on_search_params. rewrite Hf. cbn [mbind outcome_bind must m_url m_list].
  eexists. split; [done|]. rewrite <-Hop. split; [|split; [done|by intros; apply list_query_decodes]].
  split; [|done]. cbn [url_record]. destruct Hwf as [[Hs Hn Hp Hh Hpo Ha Hpa Hq Hfr] Hpath]. split; [|done]. constructor; try done.
  apply list_query_encoded. eapply Forall_impl; [done|apply valid_param_bytes].
Qed.

(** The masks keep the query, when it is not what they blank. *)
Lemma masked_query start u v :
  match start with
  | State.SchemeStart | State.Host | State.Hostname | State.Port | State.PathStart | State.Fragment => True
  | _ => False
  end → masked start v = masked start u → query v = query u.
Proof. intros Hs Hm. apply (f_equal query) in Hm. by destruct start. Qed.

Lemma set_href_goal d value :
  dom_wf d → Forall is_byte value →
  operation_goal d (SetHref value) (run_operation convert d (SetHref value)).
Proof.
  intros Hd Hv. cbn [run_operation]. unfold dom_set_href.
  destruct (basic_parse_returns value None None Hv) as ([u|] & w & -> & Hu); [done| |by apply unchanged_goal].
  specialize (Hu u eq_refl). cbn [mbind outcome_bind].
  assert (∃ ts, match query u with Some q => url_decode q | None => Returned [] end = Returned ts
    ∧ url_decode (default [] (query u)) = Returned ts ∧ Forall valid_param ts) as (ts & -> & Hdec & Hts).
  { destruct (query u) as [q|] eqn:Eq; cbn [default]; [|by exists []].
    pose proof (core_query _ (proj1 Hu)) as Hq. rewrite Eq in Hq.
    destruct (url_decode_returns q) as (ts & Hdec & Hts); [by eapply encoded_bytes|]. by exists ts. }
  eexists. split; [done|]. by split_and!.
Qed.

Lemma set_credentials_goal d name secret op :
  dom_wf d → Forall is_byte name → op = SetUsername name ∨ op = SetPassword secret → Forall is_byte secret →
  operation_goal d op (run_operation convert d op).
Proof.
  intros Hd Hname Hop Hsecret. pose proof Hd as [Hwf Hl].
  destruct (cannot_have_a_username_or_password_or_port (url_record d)) eqn:Ec.
  { destruct Hop as [->| ->]; cbn [run_operation]; unfold dom_set_username, dom_set_password;
      rewrite Ec; by apply unchanged_goal. }
  destruct Hop as [->| ->]; cbn [run_operation]; unfold dom_set_username, dom_set_password; rewrite Ec;
    unfold set_username, set_password.
  - destruct (percent_encode_returns name Userinfo Hname) as (n & -> & Hn). eexists. split; [done|].
    split_and!; [|done..]. split; [|done].
    apply (credentials_wf (url_record d) n (password (url_record d))); [done..|apply Hwf].
  - destruct (percent_encode_returns secret Userinfo Hsecret) as (s & -> & Hs). eexists. split; [done|].
    split_and!; [|done..]. split; [|done].
    replace (with_password (url_record d) s)
      with (with_password (with_username (url_record d) (username (url_record d))) s) by (by destruct (url_record d)).
    apply credentials_wf; [done..|apply Hwf|done].
Qed.

Lemma set_port_goal d value :
  dom_wf d → Forall is_byte value →
  operation_goal d (SetPort value) (run_operation convert d (SetPort value)).
Proof.
  intros Hd Hv. pose proof Hd as [Hwf Hl]. cbn [run_operation]. unfold dom_set_port.
  destruct (cannot_have_a_username_or_password_or_port (url_record d)) eqn:Ec; [by apply unchanged_goal|].
  case_bool_decide as Hnil.
  - assert (set_port (url_record d) None = with_port (url_record d) None) as Hset
      by (unfold set_port; by case_bool_decide).
    rewrite Hset. eexists. split; [done|]. split_and!; [|done..]. split; [|done].
    destruct Hwf as [[Hs Hn Hp Hh Hpo Ha Hpa Hq Hfr] Hpath]. split; [by constructor|done].
  - apply parse_into_setter; [done..|]. intros v Hm. split; [done|]. by apply masked_query in Hm.
Qed.

Lemma set_hash_goal d value :
  dom_wf d → valid_utf8 value →
  operation_goal d (SetHash value) (run_operation convert d (SetHash value)).
Proof.
  intros Hd Hv. pose proof Hd as [Hwf Hl]. cbn [run_operation]. unfold dom_set_hash. case_bool_decide as Hnil.
  - eexists. split; [done|]. split_and!; [|done..]. split; [|done].
    destruct Hwf as [[Hs Hn Hp Hh Hpo Ha Hpa Hq Hfr] Hpath]. split; [by constructor|done].
  - destruct (without_leading_returns value c_hash Hv) as (input & -> & Hi & _); [done|].
    cbn [mbind outcome_bind]. apply parse_into_setter; [done|by apply valid_utf8_bytes| |done|].
    + apply (url_wf_fragment (url_record d) []); [done|constructor].
    + intros v Hm. split; [exact Hm|]. by apply masked_query in Hm.
Qed.

Lemma set_search_goal d value :
  dom_wf d → valid_utf8 value →
  operation_goal d (SetSearch value) (run_operation convert d (SetSearch value)).
Proof.
  intros Hd Hv. pose proof Hd as [Hwf Hl]. cbn [run_operation]. unfold dom_set_search. case_bool_decide as Hnil.
  - eexists. split; [done|]. split_and!; [|done|done]. split; [|constructor].
    destruct Hwf as [[Hs Hn Hp Hh Hpo Ha Hpa Hq Hfr] Hpath]. split; [by constructor|done].
  - destruct (without_leading_returns value c_question Hv) as (input & -> & Hi & Htab); [done|].
    pose proof (valid_utf8_bytes _ Hi) as Hib.
    cbn [mbind outcome_bind].
    destruct (parse_into_returns (with_query (url_record d) (Some [])) input State.Query)
      as (v & Hp & Hwf' & Hm); [done|by apply url_wf_query; [|constructor]|done|].
    rewrite Hp. cbn [mbind outcome_bind]. destruct (url_decode_returns input Hib) as (ts & Hdec & Hts). rewrite Hdec.
    eexists. split; [done|]. split_and!; [done|exact Hm|]. intros _ Hclean. unfold in_sync. cbn [url_record query_list].
    unfold parse_into in Hp.
    destruct (basic_parse input None _ _ None) as [[r w]| |] eqn:Hparse; [|done..]. injection Hp as ->.
    apply query_override in Hparse; [|done|by apply Htab]. rewrite Hparse. cbn [default].
    rewrite <-Hdec. by apply url_decode_enc.
Qed.

(** Every operation. *)
Lemma run_operation_goal d op :
  dom_wf d → operation_ok op → operation_goal d op (run_operation convert d op).
Proof.
  intros Hd Hok. pose proof Hd as [Hwf Hl].
  assert (Forall param_bytes (query_list d)) as Hb by (eapply Forall_impl; [done|apply valid_param_bytes]).
  destruct op; cbn [operation_ok] in Hok.
  - apply set_href_goal; [done|by apply valid_utf8_bytes].
  - apply parse_into_setter; [done| |done|done|].
    + apply Forall_app. split; [by apply valid_utf8_bytes|]. apply Forall_singleton. unfold is_byte. lia.
    + intros v Hm. split; [done|]. by apply masked_query in Hm.
  - eapply (set_credentials_goal d value []); [done|by apply valid_utf8_bytes|by left|constructor].
  - eapply (set_credentials_goal d [] value); [done|constructor|by right|by apply valid_utf8_bytes].
  - cbn [run_operation]. unfold dom_set_host. destruct (has_an_opaque_path (url_record d)) eqn:Ho; [by apply unchanged_goal|].
    apply parse_into_setter; [done|by apply valid_utf8_bytes|done|done|].
    intros v Hm. split; [done|]. by apply masked_query in Hm.
  - cbn [run_operation]. unfold dom_set_hostname. destruct (has_an_opaque_path (url_record d)) eqn:Ho; [by apply unchanged_goal|].
    apply parse_into_setter; [done|by apply valid_utf8_bytes|done|done|].
    intros v Hm. split; [done|]. by apply masked_query in Hm.
  - apply set_port_goal; [done|by apply valid_utf8_bytes].
  - cbn [run_operation]. unfold dom_set_pathname. destruct (has_an_opaque_path (url_record d)) eqn:Ho; [by apply unchanged_goal|].
    unfold set_paths. cbn [percent_encode_all mbind outcome_bind].
    apply parse_into_setter; [done|by apply valid_utf8_bytes|by apply emptied_path|done|].
    intros v Hm. split; [exact Hm|]. by apply masked_query in Hm.
  - by apply set_search_goal.
  - by apply set_hash_goal.
  - assert (valid_param (mk_query_param name value)) as Hp by done.
    apply (on_search_params_goal d _ _ (query_list d ++ [mk_query_param name value])); [done| |done|].
    + apply Forall_app. split; [done|]. by apply Forall_singleton.
    + unfold params_append. rewrite update_spec; [done|]. cbn [m_list with_list]. apply Forall_app.
      split; [done|]. by apply Forall_singleton, valid_param_bytes.
  - eapply (on_search_params_goal d); [done| |done|].
    2:{ unfold params_delete. rewrite update_spec by (by apply Forall_list_filter). done. }
    by apply Forall_list_filter.
  - eapply (on_search_params_goal d); [done| |done|].
    2:{ rewrite params_set_returns; [done|done|]. by apply valid_param_bytes. }
    by apply set_list_Forall.
  - destruct (params_sort_returns convert (mk_search_params (query_list d) (Some (url_record d))) Hl)
      as (l & Hsort & Hperm & _). eapply (on_search_params_goal d _ _ l); [done| |done|done]. by rewrite Hperm.
Qed.

(** ** Construction *)
Lemma parse_api_url_returns url base :
  Forall is_byte url → match base with Some b => Forall is_byte b | None => True end →
  ∃ r, parse_api_url url base = Returned r ∧ (∀ u, r = Some u → url_wf u).
Proof.
  intros Hurl Hbase. unfold parse_api_url. destruct base as [b|].
  - destruct (basic_parse_returns b None None Hbase) as (r & v & -> & Hr); [done|]. cbn [mbind outcome_bind].
    destruct r as [parsed_base|]; [|by exists None].
    destruct (basic_parse_returns url (Some parsed_base) None Hurl) as (r & w & -> & Hw); [|by exists r].
    intros base [= <-]. by apply Hr.
  - destruct (basic_parse_returns url None None Hurl) as (r & v & -> & Hr); [done|]. by exists r.
Qed.

Lemma initialize_a_url_returns u :
  url_wf u → ∃ d, initialize_a_url u = Returned d ∧ dom_wf d ∧ in_sync d ∧ url_record d = u.
Proof.
  intros Hu. unfold initialize_a_url, create_params.
  destruct (url_decode_returns (default [] (query u))) as (ts & Hdec & Hts).
  { pose proof (core_query _ (proj1 Hu)) as Hq. destruct (query u); [by eapply encoded_bytes|constructor]. }
  rewrite Hdec. eexists. by split_and!.
Qed.

Lemma dom_construct_returns url base :
  valid_utf8 url → match base with Some b => valid_utf8 b | None => True end →
  ∃ r, dom_construct url base = Returned r ∧ ∀ d, r = Completed d → dom_wf d ∧ in_sync d.
Proof.
  intros Hurl Hbase. unfold dom_construct.
  destruct (parse_api_url_returns url base) as (r & -> & Hr).
  { by apply valid_utf8_bytes. }
  { destruct base; [by apply valid_utf8_bytes|done]. }
  cbn [mbind outcome_bind]. destruct r as [u|]; [|by eexists].
  destruct (initialize_a_url_returns u (Hr u eq_refl)) as (d & -> & Hd & Hs & _). cbn [mbind outcome_bind].
  eexists. split; [done|]. by intros d' [= <-].
Qed.

Lemma run_operations_returns d ops :
  dom_wf d → Forall operation_ok ops →
  ∃ d', run_operations convert d ops = Returned d' ∧ dom_wf d'
    ∧ (in_sync d → Forall keeps_sync ops → in_sync d').
Proof.
  intros Hd Hops. revert d Hd. induction Hops as [|op ops Hop Hops IH]; intros d Hd; [by exists d|].
  cbn [run_operations]. destruct (run_operation_goal d op Hd Hop) as (d1 & -> & Hd1 & _ & Hs1).
  destruct (IH d1 Hd1) as (d2 & Hrun & Hd2 & Hs2). exists d2. split_and!; [done..|].
  intros Hs [Hk Hks]%Forall_cons. auto.
Qed.

(** C5: a URL object is well-formed after every sequence of setter calls and
    operations on its search parameters, whatever strings they are given: the
    constructor and every operation return, also those in which the parser fails
    half way and leaves the record partly written, and the record satisfies the
    invariant of parsed URLs. *)
Theorem dom_operations_wf (url : bytes) (base : option bytes) (ops : list operation)
    (Hurl : valid_utf8 url) (Hbase : match base with Some b => valid_utf8 b | None => True end)
    (Hops : Forall operation_ok ops) :
  ∃ r, dom_construct url base = Returned r
    ∧ ∀ d, r = Completed d → ∃ d', run_operations convert d ops = Returned d' ∧ dom_wf d'.
Proof.
  destruct (dom_construct_returns url base Hurl Hbase) as (r & Hr & Hd). exists r. split; [done|].
  intros d ->. destruct (Hd d eq_refl) as [Hwf _]. destruct (run_operations_returns d ops Hwf Hops) as (d' & ? & ? & _).
  by exists d'.
Qed.

(** C9: the search parameters of a URL object are always what the query of its
    URL is parsed to, after every sequence of setter calls and operations on the
    parameters in which no tab or newline is assigned to [search]: assigning
    [href] or [search] writes the list, changing the list writes the query, and
    no other setter touches either. *)
Theorem dom_search_params_in_sync (url : bytes) (base : option bytes) (ops : list operation)
    (Hurl : valid_utf8 url) (Hbase : match base with Some b => valid_utf8 b | None => True end)
    (Hops : Forall operation_ok ops) (Hkeep : Forall keeps_sync ops) :
  ∃ r, dom_construct url base = Returned r
    ∧ ∀ d, r = Completed d → ∃ d', run_operations convert d ops = Returned d'
        ∧ url_decode (default [] (query (url_record d'))) = Returned (query_list d').
Proof.
  destruct (dom_construct_returns url base Hurl Hbase) as (r & Hr & Hd). exists r. split; [done|].
  intros d ->. destruct (Hd d eq_refl) as [Hwf Hs].
  destruct (run_operations_returns d ops Hwf Hops) as (d' & ? & ? & Hsync). exists d'. split; [done|]. by apply Hsync.
Qed.

(** C14: a setter writes its own component of the URL and nothing else: [protocol]
    the scheme and the port (a default port is dropped), [host] the host and the
    port, every other setter and every operation on the parameters one
    component, also when the parser fails. *)
Theorem dom_operation_frame (d : DOMURL) (op : operation) (Hd : dom_wf d) (Hop : operation_ok op) :
  ∃ d', run_operation convert d op = Returned d'
    ∧ operation_masked op (url_record d') = operation_masked op (url_record d).
Proof. destruct (run_operation_goal d op Hd Hop) as (d' & ? & _ & ? & _). by exists d'. Qed.

End Facts.

(** ** Concrete objects *)
Section Examples.
#[local] Existing Instances simdutf_example fast_float_example icu_example legacy_encoders_example.

Definition dom_example (url : bytes) (ops : list operation) : outcome (option bytes * list QueryParam) :=
  r ← dom_construct url None;
  match r with
  | TypeError _ => Returned (None, [])
  | Completed d =>
      d ← run_operations id d ops;
      href ← dom_href d;
      Returned (Some href, query_list d)
  end.

Example dom_examples :
  dom_example (sv "https://example.com/?a=1") [SetHost (sv "h:8080"); SetPort (sv "443"); ParamsAppend (sv "b") (sv "x y")]
    = Returned (Some (sv "https://h/?a=1&b=x+y"), [mk_query_param (sv "a") (sv "1"); mk_query_param (sv "b") (sv "x y")])
  ∧ dom_example (sv "https://example.com/") [SetHost (sv "h:99999999"); SetProtocol (sv "data"); SetPathname (sv "/x/../y?")]
    = Returned (Some (sv "https://h/y%3F"), [])
  ∧ dom_example (sv "https://example.com/") [SetSearch ([0x61; 0x09; 0x62])]
    = Returned (Some (sv "https://example.com/?ab"), [mk_query_param [0x61; 0x09; 0x62] []]).
Proof. vm_compute. done. Qed.
End Examples.

(** A sequence of operations that reaches the parser, the list and an error. *)
Definition operations_example : list operation :=
  [SetHref (sv "http://["); SetHost (sv "h:99999"); SetSearch (sv "?a=%20&b"); ParamsSet (sv "b") (sv "&"); SetHash (sv "f")].

Lemma operations_example_ok : Forall operation_ok operations_example.
Proof.
  assert (∀ s, forallb is_ascii (sv s) = true → valid_utf8 (sv s)) as Hv
    by (intros s Hs; apply ascii_valid_utf8; [apply sv_bytes|done]).
  repeat (apply Forall_cons; split; [first [by apply Hv | by split; apply Hv]|]). constructor.
Qed.

Lemma operations_example_sync : Forall keeps_sync operations_example.
Proof. repeat (apply Forall_cons; split; [done|]). constructor. Qed.

Lemma dom_operations_wf_witness :
  ∃ r, @dom_construct simdutf_example fast_float_example icu_example legacy_encoders_example (sv "https://x/") None
      = Returned r
    ∧ ∀ d, r = Completed d → ∃ d',
        @run_operations simdutf_example fast_float_example icu_example legacy_encoders_example id d operations_example
          = Returned d' ∧ dom_wf d'.
Proof.
  apply (@dom_operations_wf simdutf_example simdutf_example_ok fast_float_example fast_float_example_ok
    icu_example icu_example_ok legacy_encoders_example legacy_encoders_example_ok id (sv "https://x/") None);
    [apply ascii_valid_utf8; [apply sv_bytes|done]|done|exact operations_example_ok].
Defined.

Lemma dom_search_params_in_sync_witness :
  ∃ r, @dom_construct simdutf_example fast_float_example icu_example legacy_encoders_example (sv "https://x/") None
      = Returned r
    ∧ ∀ d, r = Completed d → ∃ d',
        @run_operations simdutf_example fast_float_example icu_example legacy_encoders_example id d operations_example
          = Returned d'
        ∧ @url_decode simdutf_example (default [] (query (url_record d'))) = Returned (query_list d').
Proof.
  apply (@dom_search_params_in_sync simdutf_example simdutf_example_ok fast_float_example fast_float_example_ok
    icu_example icu_example_ok legacy_encoders_example legacy_encoders_example_ok id (sv "https://x/") None);
    [apply ascii_valid_utf8; [apply sv_bytes|done]|done|exact operations_example_ok|exact operations_example_sync].
Defined.

Lemma dom_operation_frame_witness :
  ∃ d', @run_operation simdutf_example fast_float_example icu_example legacy_encoders_example id
      (mk_domurl url_example []) (SetHash (sv "#top")) = Returned d'
    ∧ operation_masked (SetHash (sv "#top")) (url_record d') = operation_masked (SetHash (sv "#top")) url_example.
Proof.
  apply (@dom_operation_frame simdutf_example simdutf_example_ok fast_float_example fast_float_example_ok
    icu_example icu_example_ok legacy_encoders_example legacy_encoders_example_ok id (mk_domurl url_example []));
    [split; [exact url_example_wf|constructor]|apply ascii_valid_utf8; [apply sv_bytes|done]].
Defined.
