(* ===== verification/UrlPatternTokenizer.v ===== *)
(** * URL patterns: the tokenizer

    LibURL/Pattern/Tokenizer.{h,cpp}.  The tokenizer reads its input by code
    point positions, which it stores as [size_t] and passes as [u32].  A
    reference lexer on lists of code points says which tokens a pattern string
    has; the tokenizer computes exactly those. *)
From S2P Require Import Prelude CharacterTypes Externals Utf8 StringView Utf8View.

(** ** LibURL/Pattern/PatternError.h *)
Inductive PatternErrorOr (A : Type) := ErrorInfo (message : bytes) | Value (value : A).
Arguments ErrorInfo {A} message.
Arguments Value {A} value.

(** [TRY(...)]: an error is returned to the caller. *)
Definition pattern_try {A B} (m : outcome (PatternErrorOr A)) (f : A → outcome (PatternErrorOr B))
    : outcome (PatternErrorOr B) :=
  r ← m; match r with ErrorInfo message => Returned (ErrorInfo message) | Value a => f a end.

Notation "x '←?' y ; z" := (pattern_try y (λ x, z))
  (at level 20, y at level 100, z at level 200, only parsing).
Notation "' x '←?' y ; z" := (pattern_try y (λ x, z))
  (at level 20, x pattern, y at level 100, z at level 200, only parsing).

(** ** Tokens *)
Module TokenType.
Inductive token_type :=
| Open
| Close
| Regexp
| Name
| Char
| EscapedChar
| OtherModifier
| Asterisk
| End
| InvalidChar.

#[global] Instance eq_dec : EqDecision token_type.
Proof. solve_decision. Defined.
End TokenType.

Record Token := mk_token { token_kind : TokenType.token_type; index : Z; value : bytes }.

#[global] Instance Token_eq_dec : EqDecision Token.
Proof. solve_decision. Defined.

Definition token_type_to_string (type : TokenType.token_type) : bytes :=
  match type with
  | TokenType.Open => sv "Open"
  | TokenType.Close => sv "Close"
  | TokenType.Regexp => sv "Regexp"
  | TokenType.Name => sv "Name"
  | TokenType.Char => sv "Char"
  | TokenType.EscapedChar => sv "EscapedChar"
  | TokenType.OtherModifier => sv "OtherModifier"
  | TokenType.Asterisk => sv "Asterisk"
  | TokenType.End => sv "End"
  | TokenType.InvalidChar => sv "InvalidChar"
  end.

Inductive Policy := Strict | Lenient.

#[global] Instance Policy_eq_dec : EqDecision Policy.
Proof. solve_decision. Defined.

Module Tokenizer.

Record Tokenizer := mk_tokenizer {
  m_input : bytes;
  m_policy : Policy;
  m_token_list : list Token;
  m_index : Z;
  m_next_index : Z;
  m_code_point : Z;
}.

Definition with_next_index (t : Tokenizer) (next_index : Z) : Tokenizer :=
  mk_tokenizer (m_input t) (m_policy t) (m_token_list t) (m_index t) next_index (m_code_point t).

Section Model.
Context `{Simdutf} `{IcuProperties}.

Definition is_a_valid_name_code_point (code_point : Z) (first : bool) : bool :=
  if first then (code_point =? c_dollar) || (code_point =? c_underscore) || u_isIDStart code_point
  else (code_point =? c_dollar) || u_isIDPart code_point.

Definition get_the_next_code_point (t : Tokenizer) : outcome Tokenizer :=
  view ← unicode_substring_view (m_input t) (m_next_index t) 1;
  code_point ← iterator_deref view;
  Returned (mk_tokenizer (m_input t) (m_policy t) (m_token_list t) (m_index t)
              (wrap64 (m_next_index t + 1)) code_point).

Definition seek_and_get_the_next_code_point (t : Tokenizer) (index : Z) : outcome Tokenizer :=
  get_the_next_code_point (with_next_index t (wrap32 index)).

Definition add_a_token (t : Tokenizer) (type : TokenType.token_type)
    (next_position value_position value_length : Z) : outcome Tokenizer :=
  view ← unicode_substring_view (m_input t) (wrap32 value_position) (wrap32 value_length);
  string ← from_utf8 view;
  value ← must string;
  Returned (mk_tokenizer (m_input t) (m_policy t)
              (m_token_list t ++ [mk_token type (wrap32 (m_index t)) value])
              (wrap32 next_position) (m_next_index t) (m_code_point t)).

Definition add_a_token_with_default_length (t : Tokenizer) (type : TokenType.token_type)
    (next_position value_position : Z) : outcome Tokenizer :=
  let computed_length := wrap32 (wrap32 next_position - wrap32 value_position) in
  add_a_token t type next_position value_position computed_length.

Definition add_a_token_with_default_position_and_length (t : Tokenizer) (type : TokenType.token_type)
    : outcome Tokenizer :=
  add_a_token_with_default_length t type (m_next_index t) (m_index t).

Definition process_a_tokenizing_error (t : Tokenizer) (next_position value_position : Z)
    : outcome (PatternErrorOr Tokenizer) :=
  match m_policy t with
  | Strict => Returned (ErrorInfo (sv "Error processing a token"))
  | Lenient =>
      t ← add_a_token_with_default_length t TokenType.InvalidChar next_position value_position;
      Returned (Value t)
  end.

(** The loop over the code points of a name; [len] is [m_input.length()], which
    the view caches. *)
Fixpoint name_loop (fuel : nat) (len : Z) (t : Tokenizer) (name_position name_start : Z)
    : outcome (Tokenizer * Z) :=
  match fuel with
  | O => OutOfFuel
  | S fuel =>
      if name_position <? len then
        t ← seek_and_get_the_next_code_point t name_position;
        if negb (is_a_valid_name_code_point (m_code_point t) (name_position =? name_start))
        then Returned (t, name_position)
        else name_loop fuel len t (m_next_index t) name_start
      else Returned (t, name_position)
  end.

(** The tokenizer, the regexp position, the depth and the error flag when the
    loop over the code points of a regular expression ends. *)
Fixpoint regexp_loop (fuel : nat) (len : Z) (t : Tokenizer) (regexp_position regexp_start depth : Z)
    : outcome (PatternErrorOr (Tokenizer * Z * Z * bool)) :=
  match fuel with
  | O => OutOfFuel
  | S fuel =>
      let failed (t : Tokenizer) (depth : Z) :=
        t ←? process_a_tokenizing_error t regexp_start (m_index t);
        Returned (Value (t, regexp_position, depth, true)) in
      if negb (regexp_position <? len) then Returned (Value (t, regexp_position, depth, false))
      else
        t ← seek_and_get_the_next_code_point t regexp_position;
        if negb (is_ascii (m_code_point t)) then failed t depth
        else if (regexp_position =? regexp_start) && (m_code_point t =? c_question) then failed t depth
        else if m_code_point t =? c_backslash then
          if regexp_position =? wrap64 (len - 1) then failed t depth
          else
            t ← get_the_next_code_point t;
            if negb (is_ascii (m_code_point t)) then failed t depth
            else regexp_loop fuel len t (m_next_index t) regexp_start depth
        else if m_code_point t =? c_rparen then
          let depth := wrap32 (depth - 1) in
          if depth =? 0 then Returned (Value (t, m_next_index t, depth, false))
          else regexp_loop fuel len t (m_next_index t) regexp_start depth
        else if m_code_point t =? c_lparen then
          let depth := wrap32 (depth + 1) in
          if regexp_position =? wrap64 (len - 1) then failed t depth
          else
            let temporary_position := m_next_index t in
            t ← get_the_next_code_point t;
            if negb (m_code_point t =? c_question) then failed t depth
            else regexp_loop fuel len (with_next_index t temporary_position) temporary_position
                   regexp_start depth
        else regexp_loop fuel len t (m_next_index t) regexp_start depth
  end.

Definition tokenize_name (fuel : nat) (len : Z) (t : Tokenizer) : outcome (PatternErrorOr Tokenizer) :=
  let name_start := m_next_index t in
  '(t, name_position) ← name_loop fuel len t name_start name_start;
  if name_position <=? name_start then process_a_tokenizing_error t name_start (m_index t)
  else
    t ← add_a_token_with_default_length t TokenType.Name name_position name_start;
    Returned (Value t).

(** Steps 6 to 11 after the loop. *)
Definition regexp_finish (regexp_start : Z) (ended : Tokenizer * Z * Z * bool)
    : outcome (PatternErrorOr Tokenizer) :=
  let '(t, regexp_position, depth, error) := ended in
  if error : bool then Returned (Value t)
  else if negb (depth =? 0) then process_a_tokenizing_error t regexp_start (m_index t)
  else
    let regexp_length := wrap64 (regexp_position - regexp_start - 1) in
    if regexp_length =? 0 then process_a_tokenizing_error t regexp_start (m_index t)
    else
      t ← add_a_token t TokenType.Regexp regexp_position regexp_start regexp_length;
      Returned (Value t).

Definition tokenize_regexp (fuel : nat) (len : Z) (t : Tokenizer) : outcome (PatternErrorOr Tokenizer) :=
  let regexp_start := m_next_index t in
  ended ←? regexp_loop fuel len t regexp_start regexp_start 1;
  regexp_finish regexp_start ended.

(** The body of the loop of [tokenize]. *)
Definition tokenize_step (fuel : nat) (len : Z) (t : Tokenizer) : outcome (PatternErrorOr Tokenizer) :=
  t ← seek_and_get_the_next_code_point t (m_index t);
  let add type := t ← add_a_token_with_default_position_and_length t type; Returned (Value t) in
  if m_code_point t =? c_asterisk then add TokenType.Asterisk
  else if (m_code_point t =? c_plus) || (m_code_point t =? c_question) then add TokenType.OtherModifier
  else if m_code_point t =? c_backslash then
    if m_index t =? wrap64 (len - 1) then process_a_tokenizing_error t (m_next_index t) (m_index t)
    else
      let escaped_index := m_next_index t in
      t ← get_the_next_code_point t;
      t ← add_a_token_with_default_length t TokenType.EscapedChar (m_next_index t) escaped_index;
      Returned (Value t)
  else if m_code_point t =? c_lbrace then add TokenType.Open
  else if m_code_point t =? c_rbrace then add TokenType.Close
  else if m_code_point t =? c_colon then tokenize_name fuel len t
  else if m_code_point t =? c_lparen then tokenize_regexp fuel len t
  else add TokenType.Char.

Fixpoint tokenize_loop (fuel inner : nat) (len : Z) (t : Tokenizer) : outcome (PatternErrorOr Tokenizer) :=
  match fuel with
  | O => OutOfFuel
  | S fuel =>
      if m_index t <? len then t ←? tokenize_step inner len t; tokenize_loop fuel inner len t
      else Returned (Value t)
  end.

Definition tokenize (input : bytes) (policy : Policy) : outcome (PatternErrorOr (list Token)) :=
  valid ← utf8_validate input AllowYes;
  verify valid (
    len ← utf8_length input;
    let fuel := S (length input) in
    t ←? tokenize_loop fuel fuel len (mk_tokenizer input policy [] 0 0 0);
    t ← add_a_token_with_default_length t TokenType.End (m_index t) (m_index t);
    Returned (Value (m_token_list t))).

End Model.

(** ** The reference lexer

    The first token of a list of code points: its type, its value and the number
    of code points it takes. *)
Section Reference.
Context `{IcuProperties}.

Fixpoint take_while (f : Z → bool) (cps : list Z) : list Z :=
  match cps with
  | c :: cps => if f c then c :: take_while f cps else []
  | [] => []
  end.

(** The longest name at the start. *)
Definition name_prefix (cps : list Z) : list Z :=
  match cps with
  | c :: rest =>
      if is_a_valid_name_code_point c true
      then c :: take_while (λ c, is_a_valid_name_code_point c false) rest else []
  | [] => []
  end.

(** The text up to the parenthesis that closes [depth] open ones: ASCII, with
    every inner group of the form "(?...". *)
Fixpoint regexp_group (depth : nat) (first : bool) (cps : list Z) : option (list Z) :=
  match cps with
  | [] => None
  | c :: rest =>
      if negb (is_ascii c) then None
      else if first && (c =? c_question) then None
      else if c =? c_backslash then
        match rest with
        | d :: rest => if is_ascii d then (λ body, c :: d :: body) <$> regexp_group depth false rest else None
        | [] => None
        end
      else if c =? c_rparen then
        if (depth =? 1)%nat then Some [] else cons c <$> regexp_group (depth - 1) false rest
      else if c =? c_lparen then
        match rest with
        | d :: _ => if d =? c_question then cons c <$> regexp_group (S depth) false rest else None
        | [] => None
        end
      else cons c <$> regexp_group depth false rest
  end.

Definition regexp_token (c : Z) (group : option (list Z)) : TokenType.token_type * list Z * nat :=
  match group with
  | Some (b :: body) => (TokenType.Regexp, b :: body, (length body + 3)%nat)
  | _ => (TokenType.InvalidChar, [c], 1%nat)
  end.

Definition lex_one (c : Z) (rest : list Z) : TokenType.token_type * list Z * nat :=
  if c =? c_asterisk then (TokenType.Asterisk, [c], 1%nat)
  else if (c =? c_plus) || (c =? c_question) then (TokenType.OtherModifier, [c], 1%nat)
  else if c =? c_backslash then
    match rest with
    | d :: _ => (TokenType.EscapedChar, [d], 2%nat)
    | [] => (TokenType.InvalidChar, [c], 1%nat)
    end
  else if c =? c_lbrace then (TokenType.Open, [c], 1%nat)
  else if c =? c_rbrace then (TokenType.Close, [c], 1%nat)
  else if c =? c_colon then
    match name_prefix rest with
    | [] => (TokenType.InvalidChar, [c], 1%nat)
    | name => (TokenType.Name, name, S (length name))
    end
  else if c =? c_lparen then regexp_token c (regexp_group 1 true rest)
  else (TokenType.Char, [c], 1%nat).

Fixpoint lex (fuel position : nat) (cps : list Z) : list Token :=
  match fuel, cps with
  | S fuel, c :: rest =>
      let '(type, val, n) := lex_one c rest in
      mk_token type (Z.of_nat position) (utf8_of val) :: lex fuel (position + n) (drop n cps)
  | _, _ => [mk_token TokenType.End (Z.of_nat position) []]
  end.

Definition reference_tokens (cps : list Z) : list Token := lex (length cps) 0 cps.

End Reference.

(** ** The tokenizer computes the reference *)
Section Correct.
Context `{SimdutfOk} `{IcuProperties}.
Context (cps : list Z) (Hcps : Forall is_scalar cps) (Hlen : Z.of_nat (length cps) < 2 ^ 32).

Notation input := (utf8_of cps).
Notation len := (Z.of_nat (length cps)).
Notation error_message := (sv "Error processing a token").

Lemma substring_valid o l : valid_utf8 (utf8_of (take l (drop o cps))).
Proof. eexists. split; [|done]. by apply Forall_take, Forall_drop. Qed.

Lemma code_point_range i c : cps !! i = Some c → 0 ≤ c ≤ 0x10FFFF.
Proof. intros Hc. by destruct (Forall_lookup_1 _ _ _ _ Hcps Hc). Qed.

Lemma get_spec pol toks idx i cp c :
  cps !! i = Some c →
  get_the_next_code_point (mk_tokenizer input pol toks idx (Z.of_nat i) cp)
  = Returned (mk_tokenizer input pol toks idx (Z.of_nat (S i)) c).
Proof.
  intros Hc. pose proof (lookup_lt_Some _ _ _ Hc). unfold get_the_next_code_point. cbn [m_input m_policy m_token_list m_index m_next_index m_code_point].
  rewrite unicode_substring_view_spec by (done || lia). cbn [mbind outcome_bind].
  rewrite Nat2Z.id, (drop_S _ _ _ Hc). change (Z.to_nat 1) with 1%nat. cbn [take flat_map].
  rewrite iterator_deref_form by (by eapply code_point_range). cbn [mbind outcome_bind].
  rewrite wrap64_small by lia. do 2 f_equal. lia.
Qed.

Lemma seek_spec pol toks idx nx i cp c :
  cps !! i = Some c →
  seek_and_get_the_next_code_point (mk_tokenizer input pol toks idx nx cp) (Z.of_nat i)
  = Returned (mk_tokenizer input pol toks idx (Z.of_nat (S i)) c).
Proof.
  intros Hc. pose proof (lookup_lt_Some _ _ _ Hc). unfold seek_and_get_the_next_code_point, with_next_index. cbn [m_input m_policy m_token_list m_index m_next_index m_code_point].
  rewrite wrap32_small by lia. by apply get_spec.
Qed.

Lemma add_spec pol toks i nx cp type np vp vl :
  (i ≤ length cps)%nat → (np ≤ length cps)%nat → (vp + vl ≤ length cps)%nat →
  add_a_token (mk_tokenizer input pol toks (Z.of_nat i) nx cp) type (Z.of_nat np) (Z.of_nat vp) (Z.of_nat vl)
  = Returned (mk_tokenizer input pol
      (toks ++ [mk_token type (Z.of_nat i) (utf8_of (take vl (drop vp cps)))]) (Z.of_nat np) nx cp).
Proof.
  intros Hi Hnp Hv. unfold add_a_token. cbn [m_input m_policy m_token_list m_index m_next_index m_code_point]. rewrite !wrap32_small by lia.
  rewrite unicode_substring_view_spec by (done || lia). cbn [mbind outcome_bind].
  rewrite !Nat2Z.id, from_utf8_valid by apply substring_valid. done.
Qed.

Lemma add_default_spec pol toks i nx cp type np vp :
  (i ≤ length cps)%nat → (vp ≤ np)%nat → (np ≤ length cps)%nat →
  add_a_token_with_default_length (mk_tokenizer input pol toks (Z.of_nat i) nx cp) type
    (Z.of_nat np) (Z.of_nat vp)
  = Returned (mk_tokenizer input pol
      (toks ++ [mk_token type (Z.of_nat i) (utf8_of (take (np - vp) (drop vp cps)))]) (Z.of_nat np) nx cp).
Proof.
  intros Hi Hv Hnp. unfold add_a_token_with_default_length. rewrite !wrap32_small by lia || (rewrite !wrap32_small; lia).
  replace (Z.of_nat np - Z.of_nat vp) with (Z.of_nat (np - vp)) by lia. apply add_spec; lia.
Qed.

(** The result of one run of the loop's body at position [i]. *)
Definition stepped (pol : Policy) (toks : list Token) (i : nat)
    (lexed : TokenType.token_type * list Z * nat) (r : outcome (PatternErrorOr Tokenizer)) : Prop :=
  let '(type, val, n) := lexed in
  if bool_decide (pol = Strict) && bool_decide (type = TokenType.InvalidChar)
  then r = Returned (ErrorInfo error_message)
  else ∃ nx cp, r = Returned (Value (mk_tokenizer input pol
         (toks ++ [mk_token type (Z.of_nat i) (utf8_of val)]) (Z.of_nat (i + n)) nx cp)).

Lemma error_spec pol toks i nx cp c :
  cps !! i = Some c →
  stepped pol toks i (TokenType.InvalidChar, [c], 1%nat)
    (process_a_tokenizing_error (mk_tokenizer input pol toks (Z.of_nat i) nx cp) (Z.of_nat (S i)) (Z.of_nat i)).
Proof.
  intros Hc. pose proof (lookup_lt_Some _ _ _ Hc). unfold process_a_tokenizing_error. cbn [m_input m_policy m_token_list m_index m_next_index m_code_point].
  destruct pol; [done|]. unfold stepped. cbn [bool_decide]. exists nx, cp. rewrite add_default_spec by lia. cbn [mbind outcome_bind].
  rewrite (drop_S _ _ _ Hc). replace (S i - i)%nat with 1%nat by lia. cbn [take flat_map].
  do 4 f_equal. lia.
Qed.

(** A token for the single code point at [i]. *)
Lemma add_one_spec pol toks i cp type c :
  cps !! i = Some c → type ≠ TokenType.InvalidChar →
  stepped pol toks i (type, [c], 1%nat)
    (t ← add_a_token_with_default_position_and_length
           (mk_tokenizer input pol toks (Z.of_nat i) (Z.of_nat (S i)) cp) type; Returned (Value t)).
Proof.
  intros Hc Htype. pose proof (lookup_lt_Some _ _ _ Hc). unfold stepped.
  rewrite (bool_decide_eq_false_2 (type = _)), andb_false_r by done.
  unfold add_a_token_with_default_position_and_length. cbn [m_next_index m_index].
  rewrite add_default_spec by lia. cbn [mbind outcome_bind]. eexists _, _.
  rewrite (drop_S _ _ _ Hc). replace (S i - i)%nat with 1%nat by lia. cbn [take flat_map].
  do 4 f_equal. lia.
Qed.

(** ** Names *)
Lemma name_loop_rest pol toks idx nx cp k start fuel :
  (start < k)%nat → (k ≤ length cps)%nat → (length cps - k < fuel)%nat →
  ∃ nx' cp', name_loop fuel len (mk_tokenizer input pol toks idx nx cp) (Z.of_nat k) (Z.of_nat start)
    = Returned (mk_tokenizer input pol toks idx nx' cp',
        Z.of_nat (k + length (take_while (λ c, is_a_valid_name_code_point c false) (drop k cps)))).
Proof.
  revert nx cp k. induction fuel as [|fuel IH]; intros nx cp k Hstart Hk Hfuel; [lia|]. cbn [name_loop].
  destruct (Z.ltb_spec (Z.of_nat k) len) as [Hlt|Hge].
  - destruct (lookup_lt_is_Some_2 cps k) as [c Hc]; [lia|]. rewrite (seek_spec _ _ _ _ _ _ c) by done.
    cbn [mbind outcome_bind m_code_point m_next_index]. rewrite (proj2 (Z.eqb_neq _ _)) by lia.
    rewrite (drop_S _ _ _ Hc). cbn [take_while].
    destruct (is_a_valid_name_code_point c false); cbn [negb].
    + edestruct (IH (Z.of_nat (S k)) c (S k)) as (nx' & cp' & ->); [lia..|].
      eexists _, _. do 2 f_equal. cbn [length]. lia.
    + eexists _, _. do 2 f_equal. cbn [length]. lia.
  - eexists _, _. rewrite drop_ge by lia. do 2 f_equal. cbn. lia.
Qed.

Lemma name_loop_spec pol toks idx nx cp start fuel :
  (start ≤ length cps)%nat → (length cps - start < fuel)%nat →
  ∃ nx' cp', name_loop fuel len (mk_tokenizer input pol toks idx nx cp) (Z.of_nat start) (Z.of_nat start)
    = Returned (mk_tokenizer input pol toks idx nx' cp',
        Z.of_nat (start + length (name_prefix (drop start cps)))).
Proof.
  intros Hk Hfuel. destruct fuel as [|fuel]; [lia|]. cbn [name_loop].
  destruct (Z.ltb_spec (Z.of_nat start) len) as [Hlt|Hge].
  - destruct (lookup_lt_is_Some_2 cps start) as [c Hc]; [lia|]. rewrite (seek_spec _ _ _ _ _ _ c) by done.
    cbn [mbind outcome_bind m_code_point m_next_index]. rewrite Z.eqb_refl.
    rewrite (drop_S _ _ _ Hc). cbn [name_prefix].
    destruct (is_a_valid_name_code_point c true); cbn [negb].
    + edestruct (name_loop_rest pol toks idx (Z.of_nat (S start)) c (S start) start fuel) as (nx' & cp' & ->); [lia..|].
      eexists _, _. do 2 f_equal. cbn [length]. lia.
    + eexists _, _. do 2 f_equal. cbn [length]. lia.
  - eexists _, _. rewrite drop_ge by lia. do 2 f_equal. cbn. lia.
Qed.

Lemma take_while_prefix f l : ∃ l', l = take_while f l ++ l'.
Proof.
  induction l as [|c l [l' IH]]; [by exists []|]. cbn. destruct (f c); [|by eexists].
  exists l'. cbn. by rewrite <-IH.
Qed.

Lemma name_prefix_prefix l : ∃ l', l = name_prefix l ++ l'.
Proof.
  destruct l as [|c l]; [by exists []|]. cbn [name_prefix]. destruct (is_a_valid_name_code_point c true); [|by eexists].
  destruct (take_while_prefix (λ c, is_a_valid_name_code_point c false) l) as [l' Hl].
  exists l'. cbn [app]. by rewrite <-Hl.
Qed.

Lemma tokenize_name_spec pol toks i cp c fuel :
  cps !! i = Some c → (length cps < fuel)%nat →
  stepped pol toks i
    match name_prefix (drop (S i) cps) with
    | [] => (TokenType.InvalidChar, [c], 1%nat)
    | name => (TokenType.Name, name, S (length name))
    end
    (tokenize_name fuel len (mk_tokenizer input pol toks (Z.of_nat i) (Z.of_nat (S i)) cp)).
Proof.
  intros Hc Hfuel. pose proof (lookup_lt_Some _ _ _ Hc). unfold tokenize_name. cbn [m_next_index].
  destruct (name_loop_spec pol toks (Z.of_nat i) (Z.of_nat (S i)) cp (S i) fuel) as (nx & cp' & ->); [lia..|].
  cbn [mbind outcome_bind m_index].
  destruct (name_prefix_prefix (drop (S i) cps)) as [rest Hrest].
  assert (length (name_prefix (drop (S i) cps)) ≤ length cps - S i)%nat as Hle.
  { pose proof (f_equal length Hrest) as Hl. rewrite length_drop, length_app in Hl. lia. }
  destruct (name_prefix (drop (S i) cps)) as [|d name] eqn:En.
  - rewrite (proj2 (Z.leb_le _ _)) by (cbn; lia). by apply error_spec.
  - cbn [length] in Hle |- *. rewrite (proj2 (Z.leb_gt _ _)) by lia.
    rewrite add_default_spec by lia. unfold stepped. cbn [mbind outcome_bind].
    rewrite (bool_decide_eq_false_2 (TokenType.Name = _)), andb_false_r by done.
    eexists _, _. rewrite Hrest. replace (S i + S (length name) - S i)%nat with (length (d :: name)) by (cbn; lia).
    rewrite take_app_length. do 4 f_equal. lia.
Qed.

(** ** Regular expressions *)
Lemma failed_spec pol toks i nx cp c position depth :
  cps !! i = Some c →
  stepped pol toks i (TokenType.InvalidChar, [c], 1%nat)
    (ended ←? (t ←? process_a_tokenizing_error (mk_tokenizer input pol toks (Z.of_nat i) nx cp)
                      (Z.of_nat (S i)) (Z.of_nat i);
               Returned (Value (t, position, depth, true)));
     regexp_finish (Z.of_nat (S i)) ended).
Proof.
  intros Hc. pose proof (error_spec pol toks i nx cp c Hc) as He. revert He. unfold stepped.
  destruct pol; cbn [bool_decide].
  - intros He. rewrite bool_decide_eq_true_2 in * by done. cbn [andb] in *. by rewrite He.
  - intros (nx' & cp' & He). rewrite He. by exists nx', cp'.
Qed.

Lemma regexp_group_length depth first l body :
  regexp_group depth first l = Some body → (length body < length l)%nat.
Proof.
  revert depth first body. induction l as [l IH] using (induction_ltof1 _ (@length Z)). unfold ltof in IH.
  intros depth first body. destruct l as [|c l]; [done|]. cbn [regexp_group].
  repeat case_goal; intros Hr; try done;
    try (apply fmap_Some in Hr as (body' & Hr & ->); apply IH in Hr; cbn [length] in *; lia).
  injection Hr as <-. cbn. lia.
Qed.

(** The token that a closing parenthesis at position [k] ends. *)
Lemma regexp_close_spec pol toks i k nx cp c :
  cps !! i = Some c → (i < k < length cps)%nat →
  stepped pol toks i (regexp_token c (Some (take (k - S i) (drop (S i) cps))))
    (regexp_finish (Z.of_nat (S i))
       (mk_tokenizer input pol toks (Z.of_nat i) nx cp, Z.of_nat (S k), 0, false)).
Proof.
  intros Hc Hk. unfold regexp_finish. rewrite Z.eqb_refl. cbn [negb m_index].
  rewrite wrap64_small by lia.
  assert (length (take (k - S i) (drop (S i) cps)) = k - S i)%nat as Hl.
  { rewrite length_take, length_drop. lia. }
  destruct (Z.eqb_spec (Z.of_nat (S k) - Z.of_nat (S i) - 1) 0) as [He|He].
  - replace (k - S i)%nat with O by lia. by apply error_spec.
  - replace (Z.of_nat (S k) - Z.of_nat (S i) - 1) with (Z.of_nat (k - S i)) by lia.
    rewrite add_spec by lia. cbn [mbind outcome_bind].
    destruct (take (k - S i) (drop (S i) cps)) as [|b body] eqn:Eb; [cbn in Hl; lia|].
    cbn [regexp_token]. unfold stepped.
    rewrite (bool_decide_eq_false_2 (TokenType.Regexp = _)), andb_false_r by done.
    eexists _, _. do 4 f_equal. cbn [length] in Hl. lia.
Qed.

(** Going on after the code points [mid] of the expression. *)
Lemma regexp_extend (k k' i : nat) (mid : list Z) c g :
  (i < k)%nat → (k' = k + length mid)%nat → take (k' - k) (drop k cps) = mid →
  regexp_token c (app (take (k' - S i) (drop (S i) cps)) <$> g)
  = regexp_token c (app (take (k - S i) (drop (S i) cps)) <$> (app mid <$> g)).
Proof.
  intros Hk -> Hmid. rewrite <-option_fmap_compose. f_equal. apply option_fmap_ext. intros body. cbn.
  rewrite app_assoc. f_equal.
  replace (k + length mid - S i)%nat with ((k - S i) + length mid)%nat by lia.
  rewrite <-take_take_drop. f_equal. rewrite drop_drop.
  replace (S i + (k - S i))%nat with k by lia. rewrite <-Hmid at 2. f_equal. lia.
Qed.

Lemma of_nat_eqb a b : (Z.of_nat a =? Z.of_nat b) = (a =? b)%nat.
Proof. destruct (Nat.eqb_spec a b); lia. Qed.

Lemma at_last_position k :
  (k < length cps)%nat → (Z.of_nat k =? wrap64 (len - 1)) = bool_decide (drop (S k) cps = []).
Proof.
  intros Hk. rewrite wrap64_small by lia. pose proof (length_drop cps (S k)) as Hl.
  case_bool_decide as Hd.
  - rewrite Hd in Hl. cbn in Hl. lia.
  - destruct (drop (S k) cps); [done|]. cbn in Hl. lia.
Qed.

Lemma lookup_after k e rest : drop k cps = e :: rest → cps !! k = Some e.
Proof. intros Er. by rewrite <-(Nat.add_0_r k), <-lookup_drop, Er. Qed.

(** The loop from a position on, with the given fuel. *)
Definition regexp_runs (pol : Policy) (toks : list Token) (i : nat) (c : Z) (fuel : nat) : Prop :=
  ∀ k nx cp depth, (i < k ≤ length cps)%nat → (1 ≤ depth)%nat →
  Z.of_nat depth + Z.of_nat (length cps - k) < 2 ^ 32 → (length cps - k < fuel)%nat →
  stepped pol toks i
    (regexp_token c (app (take (k - S i) (drop (S i) cps)) <$> regexp_group depth (k =? S i)%nat (drop k cps)))
    (ended ←? regexp_loop fuel len (mk_tokenizer input pol toks (Z.of_nat i) nx cp) (Z.of_nat k)
                (Z.of_nat (S i)) (Z.of_nat depth);
     regexp_finish (Z.of_nat (S i)) ended).

(** A run of the loop after the code points [mid] were read. *)
Lemma regexp_go pol toks i c fuel k k' nx cp depth mid g :
  regexp_runs pol toks i c fuel → (i < k)%nat → (length cps - k < S fuel)%nat →
  g = regexp_group depth false (drop k' cps) → take (k' - k) (drop k cps) = mid →
  (k' = k + length mid)%nat → (1 ≤ length mid)%nat → (k' ≤ length cps)%nat → (1 ≤ depth)%nat →
  Z.of_nat depth + Z.of_nat (length cps - k') < 2 ^ 32 →
  stepped pol toks i (regexp_token c (app (take (k - S i) (drop (S i) cps)) <$> (app mid <$> g)))
    (ended ←? regexp_loop fuel len (mk_tokenizer input pol toks (Z.of_nat i) nx cp) (Z.of_nat k')
                (Z.of_nat (S i)) (Z.of_nat depth);
     regexp_finish (Z.of_nat (S i)) ended).
Proof.
  intros IH Hik Hfuel -> Htake Hk' Hmid Hk'' Hd' Hm. rewrite <-(regexp_extend k k') by (done || lia).
  rewrite <-(proj2 (Nat.eqb_neq k' (S i))) by lia. apply IH; lia.
Qed.

Lemma regexp_loop_spec pol toks i c fuel : cps !! i = Some c → regexp_runs pol toks i c fuel.
Proof.
  intros Hc. pose proof (lookup_lt_Some _ _ _ Hc).
  induction fuel as [|fuel IH]; intros k nx cp depth Hk Hdepth Hmax Hfuel; [lia|]. cbn [regexp_loop].
  destruct (Z.ltb_spec (Z.of_nat k) len) as [Hlt|Hge]; cbn [negb].
  2:{ rewrite (drop_ge cps k) by lia. cbn [regexp_group fmap option_fmap option_map regexp_token ].
      unfold pattern_try. cbn [mbind outcome_bind regexp_finish].
      rewrite (proj2 (Z.eqb_neq _ _)) by lia. by apply error_spec. }
  destruct (lookup_lt_is_Some_2 cps k) as [d Hd]; [lia|].
  rewrite (seek_spec _ _ _ _ _ _ d) by done. rewrite (drop_S _ _ _ Hd). cbn [regexp_group].
  cbn [mbind outcome_bind m_code_point m_next_index m_index].
  destruct (is_ascii d); cbn [negb]; [|by apply failed_spec]. rewrite of_nat_eqb.
  destruct ((k =? S i)%nat && (d =? c_question)) eqn:Eq; [by apply failed_spec|].
  assert (take (S k - k) (drop k cps) = [d]) as Hone.
  { rewrite (drop_S _ _ _ Hd). by replace (S k - k)%nat with 1%nat by lia. }
  destruct (Z.eqb_spec d c_backslash) as [->|Hb].
  { rewrite at_last_position by lia. destruct (drop (S k) cps) as [|e rest] eqn:Er; [by apply failed_spec|].
    cbn [bool_decide]. rewrite bool_decide_eq_false_2 by done. pose proof (lookup_after _ _ _ Er) as He.
    rewrite (get_spec _ _ _ _ _ e) by done. cbn [mbind outcome_bind m_code_point m_next_index].
    destruct (is_ascii e); cbn [negb]; [|by apply failed_spec].
    pose proof (lookup_lt_Some _ _ _ He). rewrite (drop_S _ _ _ He) in Er. injection Er as <-.
    change (λ body, c_backslash :: e :: body) with (app [c_backslash; e]).
    apply (regexp_go _ _ _ _ fuel); cbn [length]; try (done || lia).
    rewrite (drop_S _ _ _ Hd), (drop_S _ _ _ He). by replace (S (S k) - k)%nat with 2%nat by lia. }
  destruct (Z.eqb_spec d c_rparen) as [->|Hr].
  { rewrite wrap32_small by lia. destruct (Nat.eqb_spec depth 1) as [->|Hn].
    - cbn [fmap option_fmap option_map]. rewrite app_nil_r. apply regexp_close_spec; [done|lia].
    - rewrite (proj2 (Z.eqb_neq _ _)) by lia. replace (Z.of_nat depth - 1) with (Z.of_nat (depth - 1)) by lia.
      change (cons c_rparen) with (app [c_rparen]). apply (regexp_go _ _ _ _ fuel); cbn [length]; done || lia. }
  destruct (Z.eqb_spec d c_lparen) as [->|Hl].
  { rewrite wrap32_small by lia. rewrite at_last_position by lia.
    destruct (drop (S k) cps) as [|e rest] eqn:Er; [by apply failed_spec|]. pose proof (lookup_after _ _ _ Er) as He.
    rewrite bool_decide_eq_false_2 by done.
    rewrite (get_spec _ _ _ _ _ e) by done. cbn [mbind outcome_bind m_code_point].
    destruct (e =? c_question); cbn [negb]; [|by apply failed_spec].
    unfold with_next_index. cbn [m_input m_policy m_token_list m_index m_code_point].
    replace (Z.of_nat depth + 1) with (Z.of_nat (S depth)) by lia. rewrite <-Er.
    change (cons c_lparen) with (app [c_lparen]). apply (regexp_go _ _ _ _ fuel); cbn [length]; done || lia. }
  change (cons d) with (app [d]). apply (regexp_go _ _ _ _ fuel); cbn [length]; done || lia.
Qed.

Lemma tokenize_regexp_spec pol toks i cp c fuel :
  cps !! i = Some c → (length cps < fuel)%nat →
  stepped pol toks i (regexp_token c (regexp_group 1 true (drop (S i) cps)))
    (tokenize_regexp fuel len (mk_tokenizer input pol toks (Z.of_nat i) (Z.of_nat (S i)) cp)).
Proof.
  intros Hc Hfuel. pose proof (lookup_lt_Some _ _ _ Hc). unfold tokenize_regexp. cbn [m_next_index].
  pose proof (regexp_loop_spec pol toks i c fuel Hc (S i) (Z.of_nat (S i)) cp 1%nat) as Hs.
  rewrite Nat.eqb_refl, Nat.sub_diag in Hs. cbn [take] in Hs.
  destruct (regexp_group 1 true (drop (S i) cps)); apply Hs; lia.
Qed.

(** ** The whole input *)
Lemma tokenize_step_spec pol toks i nx cp c fuel :
  cps !! i = Some c → (length cps < fuel)%nat →
  stepped pol toks i (lex_one c (drop (S i) cps))
    (tokenize_step fuel len (mk_tokenizer input pol toks (Z.of_nat i) nx cp)).
Proof.
  intros Hc Hfuel. pose proof (lookup_lt_Some _ _ _ Hc). unfold tokenize_step. cbn [m_index].
  rewrite (seek_spec _ _ _ _ _ _ c) by done. cbn [mbind outcome_bind m_code_point m_index m_next_index].
  unfold lex_one.
  destruct (c =? c_asterisk); [by apply add_one_spec|].
  destruct ((c =? c_plus) || (c =? c_question)); [by apply add_one_spec|].
  destruct (c =? c_backslash).
  { rewrite at_last_position by lia. destruct (drop (S i) cps) as [|d rest] eqn:Er; [by apply error_spec|].
    rewrite bool_decide_eq_false_2 by done.
    assert (cps !! S i = Some d) as Hd by (by rewrite <-(Nat.add_0_r (S i)), <-lookup_drop, Er).
    pose proof (lookup_lt_Some _ _ _ Hd).
    rewrite (get_spec _ _ _ _ _ d) by done. cbn [mbind outcome_bind m_next_index].
    rewrite add_default_spec by lia. unfold stepped. cbn [mbind outcome_bind].
    rewrite (bool_decide_eq_false_2 (TokenType.EscapedChar = _)), andb_false_r by done.
    eexists _, _. rewrite (drop_S _ _ _ Hd). replace (S (S i) - S i)%nat with 1%nat by lia. cbn [take].
    do 4 f_equal. lia. }
  destruct (c =? c_lbrace); [by apply add_one_spec|].
  destruct (c =? c_rbrace); [by apply add_one_spec|].
  destruct (c =? c_colon); [by apply tokenize_name_spec|].
  destruct (c =? c_lparen); [by apply tokenize_regexp_spec|].
  by apply add_one_spec.
Qed.

End Correct.

(** The input text of a token. *)
Definition token_source (t : Token) : bytes :=
  match token_kind t with
  | TokenType.Name => c_colon :: value t
  | TokenType.EscapedChar => c_backslash :: value t
  | TokenType.Regexp => c_lparen :: value t ++ [c_rparen]
  | _ => value t
  end.

Definition is_invalid (t : Token) : bool := bool_decide (token_kind t = TokenType.InvalidChar).

Section Lexer.
Context `{IcuProperties}.

Lemma regexp_group_close depth first l body :
  regexp_group depth first l = Some body → ∃ rest, l = body ++ c_rparen :: rest.
Proof.
  revert depth first body. induction l as [l IH] using (induction_ltof1 _ (@length Z)). unfold ltof in IH.
  intros depth first body. destruct l as [|c l]; [done|]. cbn [regexp_group].
  repeat case_goal; intros Hr; try done; bool_to_prop; subst;
    try (apply fmap_Some in Hr as (body' & Hr & ->); apply IH in Hr as [rest Hr]; [|cbn; lia];
         exists rest; cbn [app]; congruence).
  injection Hr as <-. by exists l.
Qed.

(** What [lex_one] takes, and the source of the token it makes. *)
Lemma lex_one_source c rest type val n position :
  lex_one c rest = (type, val, n) → is_scalar c →
  (1 ≤ n ≤ S (length rest))%nat
  ∧ utf8_of (take n (c :: rest)) = token_source (mk_token type position (utf8_of val))
  ∧ type ≠ TokenType.End.
Proof.
  unfold lex_one. intros Hl Hc.
  assert (∀ b, 0 ≤ b < 0x80 → utf8_form b = [b]) as Hascii.
  { intros b Hb. unfold utf8_form. by rewrite (proj2 (Z.leb_le _ _)) by lia. }
  destruct (c =? c_asterisk); [injection Hl as <- <- <-; cbn; split_and!; [lia..|done|done]|].
  destruct ((c =? c_plus) || (c =? c_question)); [injection Hl as <- <- <-; cbn; split_and!; [lia..|done|done]|].
  destruct (Z.eqb_spec c c_backslash) as [->|_].
  { destruct rest as [|d rest]; injection Hl as <- <- <-; cbn; split_and!; try lia; try done. }
  destruct (c =? c_lbrace); [injection Hl as <- <- <-; cbn; split_and!; [lia..|done|done]|].
  destruct (c =? c_rbrace); [injection Hl as <- <- <-; cbn; split_and!; [lia..|done|done]|].
  destruct (Z.eqb_spec c c_colon) as [->|_].
  { destruct (name_prefix_prefix rest) as [rest' Hrest].
    destruct (name_prefix rest) as [|d name]; injection Hl as <- <- <-.
    - cbn. split_and!; [lia..|done|done].
    - rewrite Hrest. unfold token_source. cbn [token_kind value]. split_and!; [lia|rewrite length_app; cbn [length]; lia| |done].
      change (S (S (length name))) with (S (length (d :: name))). cbn [take]. by rewrite take_app_length. }
  destruct (Z.eqb_spec c c_lparen) as [->|_].
  { destruct (regexp_group 1 true rest) as [[|b body]|] eqn:Eg; cbn [regexp_token] in Hl; injection Hl as <- <- <-.
    1,3: cbn; split_and!; [lia..|done|done].
    apply regexp_group_close in Eg as [rest' ->]. unfold token_source. cbn [token_kind value].
    split_and!; [lia|rewrite length_app; cbn; lia| |done].
    replace (length body + 3)%nat with (S (length ((b :: body) ++ [c_rparen]))) by (rewrite length_app; cbn; lia).
    cbn [take]. change (c_rparen :: rest') with ([c_rparen] ++ rest'). rewrite app_assoc, take_app_length.
    cbn [flat_map]. rewrite utf8_of_app. done. }
  injection Hl as <- <- <-. cbn. split_and!; [lia..|done|done].
Qed.

Lemma lex_cons fuel position c rest :
  is_scalar c →
  ∃ type val n, lex_one c rest = (type, val, n) ∧ (1 ≤ n ≤ S (length rest))%nat
    ∧ utf8_of (take n (c :: rest)) = token_source (mk_token type (Z.of_nat position) (utf8_of val))
    ∧ type ≠ TokenType.End
    ∧ lex (S fuel) position (c :: rest)
      = mk_token type (Z.of_nat position) (utf8_of val) :: lex fuel (position + n) (drop n (c :: rest)).
Proof.
  intros Hc. destruct (lex_one c rest) as [[type val] n] eqn:E. exists type, val, n.
  destruct (lex_one_source c rest type val n (Z.of_nat position) E Hc) as (? & ? & ?).
  split_and!; try done; try lia. cbn [lex]. by rewrite E.
Qed.

(** The lexer stops at the end with the one end token, and the sources of the
    tokens before a token are the text before its index. *)
Lemma lex_spec fuel position l :
  Forall is_scalar l → (length l ≤ fuel)%nat →
  (∃ init, lex fuel position l = init ++ [mk_token TokenType.End (Z.of_nat (position + length l)) []]
           ∧ Forall (λ t, token_kind t ≠ TokenType.End) init)
  ∧ concat (token_source <$> lex fuel position l) = utf8_of l
  ∧ ∀ k t, lex fuel position l !! k = Some t →
      ∃ m, (m ≤ length l)%nat ∧ index t = Z.of_nat (position + m)
        ∧ concat (token_source <$> take k (lex fuel position l)) = utf8_of (take m l).
Proof.
  revert position l. induction fuel as [|fuel IH]; intros position l Hl Hfuel.
  1: destruct l as [|c l]; [|cbn in Hfuel; lia].
  2: destruct l as [|c l].
  1,2: cbn [lex length]; rewrite Nat.add_0_r; split_and!; [exists []; split; [done|constructor]|done|];
    intros [|k] t Ht; [injection Ht as <-; exists O; by rewrite Nat.add_0_r|by destruct k].
  apply Forall_cons in Hl as Hl'. destruct Hl' as [Hc Hl']. cbn [length] in Hfuel.
  destruct (lex_cons fuel position c l Hc) as (type & val & n & _ & Hn & Hsrc & Htype & ->).
  destruct (IH (position + n)%nat (drop n (c :: l))) as ((init & Hend & Hinit) & Hcat & Hidx).
  { by apply Forall_drop. } { rewrite length_drop. cbn [length]. lia. }
  split_and!.
  - exists (mk_token type (Z.of_nat position) (utf8_of val) :: init). rewrite Hend. cbn [app]. split; [|constructor; [exact Htype|exact Hinit]].
    rewrite length_drop. cbn [length]. do 5 f_equal. lia.
  - cbn [fmap list_fmap concat]. rewrite Hcat, <-Hsrc, <-utf8_of_app, take_drop. done.
  - intros [|k] t Ht.
    + injection Ht as <-. exists O. cbn [index]. rewrite Nat.add_0_r. split_and!; [lia|done|done].
    + apply Hidx in Ht as (m & Hm & Hi & Hpre). rewrite length_drop in Hm. cbn [length] in Hm.
      exists (n + m)%nat. split_and!; [cbn [length]; lia|rewrite Hi; lia|].
      cbn [take fmap list_fmap concat]. rewrite Hpre, <-Hsrc, <-utf8_of_app, take_take_drop. done.
Qed.

(** ** The values of tokens *)
Definition token_ok (t : Token) : Prop :=
  token_kind t ≠ TokenType.End ∧ valid_utf8 (value t)
  ∧ (token_kind t = TokenType.Name ∨ token_kind t = TokenType.Regexp → value t ≠ [])
  ∧ (token_kind t = TokenType.Regexp → forallb is_ascii (value t) = true).

(** A list of tokens that ends in its only end token. *)
Definition tokens_ok (l : list Token) : Prop :=
  ∃ init e, l = init ++ [e] ∧ token_kind e = TokenType.End ∧ Forall token_ok init.

Lemma regexp_group_ascii depth first l body :
  regexp_group depth first l = Some body → forallb is_ascii body = true.
Proof.
  revert depth first body. induction l as [l IH] using (induction_ltof1 _ (@length Z)). unfold ltof in IH.
  intros depth first body. destruct l as [|c l]; [done|]. cbn [regexp_group].
  repeat case_goal; intros Hr; try done; bool_to_prop;
    try (apply fmap_Some in Hr as (body' & Hr & ->); apply IH in Hr; [|cbn; lia];
         cbn [forallb]; rewrite ?Hr; rewrite ?andb_true_r; simplify_eq; try done; intuition congruence).
  by injection Hr as <-.
Qed.

Lemma utf8_of_ascii l : Forall is_scalar l → forallb is_ascii l = true → utf8_of l = l.
Proof.
  induction 1 as [|c l [Hc _] _ IH]; [done|]. cbn [forallb flat_map]. intros [Ha Hl]%andb_prop.
  rewrite IH by done. unfold is_ascii in Ha. unfold utf8_form. by rewrite (proj2 (Z.leb_le _ _)) by lia.
Qed.

Lemma utf8_of_nonempty l : Forall is_scalar l → l ≠ [] → utf8_of l ≠ [].
Proof.
  destruct 1 as [|c l [Hc _] _]; [done|]. intros _. cbn [flat_map].
  by intros [?%utf8_form_nonempty _]%app_nil.
Qed.

Lemma lex_one_ok c rest type val n position :
  lex_one c rest = (type, val, n) → Forall is_scalar (c :: rest) →
  token_ok (mk_token type position (utf8_of val)).
Proof.
  intros Hl Hs. apply Forall_cons in Hs as Hcr. destruct Hcr as [Hc Hr].
  destruct (lex_one_source c rest type val n position Hl Hc) as (_ & _ & Hend).
  assert (Forall is_scalar val ∧ (type = TokenType.Name ∨ type = TokenType.Regexp → val ≠ [])
          ∧ (type = TokenType.Regexp → forallb is_ascii val = true)) as (Hval & Hne & Hre).
  { clear Hend. assert (Forall is_scalar [c]) as Hone by (by constructor).
    unfold lex_one in Hl. revert Hl.
    repeat case_goal; try (intros Hl; injection Hl as <- <- <-; split_and!; naive_solver).
    - intros Hl. injection Hl as <- <- <-. apply Forall_cons in Hr as [Hd _].
      split_and!; [by constructor|naive_solver..].
    - intros Hl. injection Hl as <- <- <-. destruct (name_prefix_prefix rest) as [rest' Hrest].
      rewrite E5 in Hrest. rewrite Hrest in Hr. apply Forall_app in Hr as [Hr _]. split_and!; naive_solver.
    - destruct (regexp_group 1 true rest) as [[|b body]|] eqn:Eg; cbn [regexp_token];
        intros Hl; injection Hl as <- <- <-; try (split_and!; naive_solver).
      apply regexp_group_ascii in Eg as Ha. apply regexp_group_close in Eg as [rest' ->].
      apply Forall_app in Hr as [Hr _]. split_and!; naive_solver. }
  unfold token_ok. cbn [token_kind value]. split_and!; [done|by exists val| |].
  - intros Ht. by apply utf8_of_nonempty, Hne.
  - intros Ht. rewrite utf8_of_ascii; auto.
Qed.

Lemma lex_ok fuel position l :
  Forall is_scalar l → (length l ≤ fuel)%nat → tokens_ok (lex fuel position l).
Proof.
  revert position l. induction fuel as [|fuel IH]; intros position l Hl Hfuel.
  1: destruct l as [|c l]; [|cbn in Hfuel; lia].
  2: destruct l as [|c l].
  1,2: eexists [], _; split_and!; [done|done|constructor].
  apply Forall_cons in Hl as Hcr. destruct Hcr as [Hc _]. cbn [length] in Hfuel.
  destruct (lex_cons fuel position c l Hc) as (type & val & n & Hone & Hn & _ & _ & ->).
  destruct (IH (position + n)%nat (drop n (c :: l))) as (init & e & -> & He & Hinit).
  { by apply Forall_drop. } { rewrite length_drop. cbn [length]. lia. }
  eexists (_ :: init), e. split_and!; [done|done|]. constructor; [|done]. by eapply lex_one_ok.
Qed.

Lemma reference_tokens_ok cps : Forall is_scalar cps → tokens_ok (reference_tokens cps).
Proof. intros Hcps. by apply lex_ok. Qed.

End Lexer.

Section Tokenize.
Context `{SimdutfOk} `{IcuProperties}.

Definition tokens_result (policy : Policy) (tokens : list Token) : PatternErrorOr (list Token) :=
  if bool_decide (policy = Strict) && existsb is_invalid tokens
  then ErrorInfo (sv "Error processing a token") else Value tokens.

Lemma tokenize_loop_spec cps pol toks i nx cp fuel inner f :
  Forall is_scalar cps → Z.of_nat (length cps) < 2 ^ 32 → (i ≤ length cps)%nat →
  (length cps - i < fuel)%nat → (length cps < inner)%nat → (length cps - i ≤ f)%nat →
  bool_decide (pol = Strict) && existsb is_invalid toks = false →
  (t ←? tokenize_loop fuel inner (Z.of_nat (length cps)) (mk_tokenizer (utf8_of cps) pol toks (Z.of_nat i) nx cp);
   t ← add_a_token_with_default_length t TokenType.End (m_index t) (m_index t);
   Returned (Value (m_token_list t)))
  = Returned (tokens_result pol (toks ++ lex f i (drop i cps))).
Proof.
  intros Hcps Hlen. revert toks i nx cp f.
  induction fuel as [|fuel IH]; intros toks i nx cp f Hi Hfuel Hinner Hf Htoks; [lia|].
  cbn [tokenize_loop m_index]. destruct (Z.ltb_spec (Z.of_nat i) (Z.of_nat (length cps))) as [Hlt|Hge].
  - destruct (lookup_lt_is_Some_2 cps i) as [c Hc]; [lia|]. destruct f as [|f]; [lia|].
    pose proof (tokenize_step_spec cps Hcps Hlen pol toks i nx cp c inner Hc Hinner) as Hstep.
    rewrite (drop_S _ _ _ Hc).
    destruct (lex_cons f i c (drop (S i) cps)) as (type & val & n & Hone & Hn & _ & _ & ->).
    { by eapply Forall_lookup_1. }
    rewrite Hone in Hstep. rewrite length_drop in Hn. unfold stepped in Hstep.
    destruct (bool_decide (pol = Strict) && bool_decide (type = TokenType.InvalidChar)) eqn:Ee.
    + rewrite Hstep. unfold tokens_result. apply andb_prop in Ee as [-> Ht].
      rewrite existsb_app. cbn [existsb is_invalid token_kind]. unfold is_invalid at 2. cbn [token_kind].
      by rewrite Ht, orb_true_r.
    + destruct Hstep as (nx' & cp' & ->). unfold pattern_try at 2. cbn [mbind outcome_bind].
      rewrite <-(drop_S _ _ _ Hc), drop_drop.
      rewrite (IH _ (i + n)%nat _ _ f); try lia; [by rewrite <-app_assoc|].
      rewrite existsb_app. cbn [existsb]. unfold is_invalid at 2. cbn [token_kind].
      destruct (bool_decide (pol = Strict)); [|done]. cbn [andb] in *. by rewrite Htoks, Ee.
  - unfold pattern_try. cbn [mbind outcome_bind m_index].
    rewrite add_default_spec by (done || lia). cbn [mbind outcome_bind m_token_list].
    rewrite Nat.sub_diag, drop_ge by lia. cbn [take flat_map].
    assert (∀ g, lex g i [] = [mk_token TokenType.End (Z.of_nat i) []]) as -> by (by intros []).
    unfold tokens_result. rewrite existsb_app. cbn [existsb]. unfold is_invalid at 2. cbn [token_kind].
    rewrite (bool_decide_eq_false_2 (TokenType.End = _)), !orb_false_r by done. by rewrite Htoks.
Qed.

Lemma tokenize_spec cps pol :
  Forall is_scalar cps → Z.of_nat (length cps) < 2 ^ 32 →
  tokenize (utf8_of cps) pol = Returned (tokens_result pol (reference_tokens cps)).
Proof.
  intros Hcps Hlen. unfold tokenize. rewrite utf8_validate_valid by (by exists cps).
  cbn [mbind outcome_bind verify]. rewrite utf8_length_valid by done. cbn [mbind outcome_bind].
  assert (length cps ≤ length (utf8_of cps))%nat as Hl.
  { clear Hlen. induction Hcps as [|c cps [Hc _] _ IH]; [done|]. cbn [flat_map length]. rewrite length_app.
    pose proof (utf8_form_nonempty c Hc). destruct (utf8_form c); [done|]. cbn [length]. lia. }
  apply (tokenize_loop_spec cps pol [] 0); try done; try lia. by rewrite andb_false_r.
Qed.

(** C31: on every well-formed string of less than 2^32 code points the tokenizer
    returns the tokens of the reference lexer; under the strict policy it
    returns the error exactly when one of them is an invalid-char token. *)
Theorem tokenize_reference (s : bytes) (policy : Policy) (Hs : valid_utf8 s)
    (Hlen : Z.of_nat (length (code_points s)) < 2 ^ 32) :
  tokenize s policy
  = Returned (let tokens := reference_tokens (code_points s) in
      if bool_decide (policy = Strict) && existsb is_invalid tokens
      then ErrorInfo (sv "Error processing a token") else Value tokens).
Proof.
  destruct Hs as (cps & Hcps & ->). rewrite code_points_utf8_form in * by (by apply is_scalar_range).
  by apply tokenize_spec.
Qed.

Lemma tokenize_lenient cps :
  Forall is_scalar cps → Z.of_nat (length cps) < 2 ^ 32 →
  tokenize (utf8_of cps) Lenient = Returned (Value (reference_tokens cps)).
Proof. intros Hcps Hlen. by rewrite tokenize_spec. Qed.

(** tokenizing a pattern string loses nothing.  The lenient tokenizer returns
    on every well-formed string, its tokens put side by side spell the string,
    every token's index is the number of code points before it, and the end token
    is the last one and the only one. *)
Theorem tokenize_covers (s : bytes) (Hs : valid_utf8 s)
    (Hlen : Z.of_nat (length (code_points s)) < 2 ^ 32) :
  ∃ tokens, tokenize s Lenient = Returned (Value tokens)
    ∧ concat (token_source <$> tokens) = s
    ∧ (∀ k t, tokens !! k = Some t →
         index t = Z.of_nat (length (code_points (concat (token_source <$> take k tokens)))))
    ∧ ∃ init, tokens = init ++ [mk_token TokenType.End (Z.of_nat (length (code_points s))) []]
        ∧ Forall (λ t, token_kind t ≠ TokenType.End) init.
Proof.
  destruct Hs as (cps & Hcps & ->). rewrite code_points_utf8_form in * by (by apply is_scalar_range).
  exists (reference_tokens cps). rewrite tokenize_lenient by done. unfold reference_tokens.
  destruct (lex_spec (length cps) 0 cps Hcps) as (Hend & Hcat & Hidx); [done|].
  split_and!; try done. intros k t Ht. apply Hidx in Ht as (m & Hm & -> & Hpre). rewrite Hpre.
  rewrite code_points_utf8_form by (by apply is_scalar_range, Forall_take).
  rewrite length_take. lia.
Qed.

End Tokenize.

(** ** Examples *)
Definition icu_properties_example : IcuProperties := {|
  u_isIDStart c := is_ascii_alpha c;
  u_isIDPart c := is_ascii_alphanumeric c || (c =? c_underscore);
|}.

Definition tokenizer_example : bytes := Eval compute in sv "/:id(\d+)\*(x".

Lemma tokenizer_example_valid : valid_utf8 tokenizer_example.
Proof. apply ascii_valid_utf8; [apply (sv_bytes "/:id(\d+)\*(x")|done]. Qed.

Lemma tokenize_reference_witness :
  @tokenize simdutf_example icu_properties_example tokenizer_example Strict
  = Returned (ErrorInfo (sv "Error processing a token")).
Proof.
  refine (eq_trans (@tokenize_reference simdutf_example simdutf_example_ok icu_properties_example
    tokenizer_example Strict tokenizer_example_valid _) _); [vm_compute; reflexivity|vm_compute; reflexivity].
Defined.

Lemma tokenize_covers_witness :
  ∃ tokens, @tokenize simdutf_example icu_properties_example tokenizer_example Lenient = Returned (Value tokens)
    ∧ concat (token_source <$> tokens) = tokenizer_example.
Proof.
  destruct (@tokenize_covers simdutf_example simdutf_example_ok icu_properties_example
    tokenizer_example tokenizer_example_valid ltac:(vm_compute; reflexivity)) as (tokens & Ht & Hcat & _).
  exact (ex_intro _ tokens (conj Ht Hcat)).
Defined.

End Tokenizer.
