(* ===== verification/UrlPatternParts.v ===== *)
(** * URL patterns: parts, options and pattern strings

    LibURL/Pattern/Part.{h,cpp}, Options.{h,cpp} and String.{h,cpp}: the data a
    pattern string is parsed into, and the strings generated from it. *)
From S2P Require Import Prelude CharacterTypes Externals Utf8 StringView Utf8View UrlPatternTokenizer.

(** ** Part.h *)
Module PartType.
Inductive part_type := FixedText | Regexp | SegmentWildcard | FullWildcard.

#[global] Instance eq_dec : EqDecision part_type.
Proof. solve_decision. Defined.
End PartType.

Module Modifier.
Inductive modifier := None | Optional | ZeroOrMore | OneOrMore.

#[global] Instance eq_dec : EqDecision modifier.
Proof. solve_decision. Defined.
End Modifier.

Record Part := mk_part {
  type : PartType.part_type;
  part_value : bytes;
  part_modifier : Modifier.modifier;
  name : bytes;
  prefix : bytes;
  suffix : bytes;
}.

#[global] Instance Part_eq_dec : EqDecision Part.
Proof. solve_decision. Defined.

(** The constructor that leaves the name, the prefix and the suffix empty. *)
Definition mk_simple_part (type : PartType.part_type) (value : bytes) (modifier : Modifier.modifier) : Part :=
  mk_part type value modifier [] [] [].

Definition convert_modifier_to_string (modifier : Modifier.modifier) : bytes :=
  match modifier with
  | Modifier.ZeroOrMore => [c_asterisk]
  | Modifier.Optional => [c_question]
  | Modifier.OneOrMore => [c_plus]
  | Modifier.None => []
  end.

(** ** Options.h *)
Record Options := mk_options {
  delimiter_code_point : option Z;
  prefix_code_point : option Z;
  ignore_case : bool;
}.

Definition options_default : Options := mk_options None None false.
Definition options_hostname : Options := mk_options (Some c_dot) None false.
Definition options_pathname : Options := mk_options (Some c_slash) (Some c_slash) false.

(** ** String.cpp *)
Definition full_wildcard_regexp_value : bytes := Eval compute in sv ".*".

Definition pattern_special : bytes := Eval compute in sv "+*?:{}()\".
Definition regexp_special : bytes := Eval compute in sv ".+*?^${}()[]|/\".

(** [String::from_code_point] *)
Definition string_from_code_point (code_point : Z) : bytes := append_code_point [] code_point.

Definition is_empty (s : bytes) : bool := match s with [] => true | _ => false end.

(** Dereferencing [string.code_points().begin()]. *)
Definition first_code_point (s : bytes) : outcome Z := iterator_deref s.

(** The loop that writes a backslash before the given characters. *)
Definition escape_chars (special input : bytes) : bytes :=
  flat_map (λ c, if contains_char special c then [c_backslash; c] else [c]) input.

Section Model.
Context `{Simdutf} `{IcuProperties}.

Definition escape_a_pattern_string (input : bytes) : outcome bytes :=
  verify (sv_is_ascii input) (Returned (escape_chars pattern_special input)).

Definition escape_a_regexp_string (input : bytes) : outcome bytes :=
  verify (sv_is_ascii input) (Returned (escape_chars regexp_special input)).

Definition generate_a_segment_wildcard_regexp (options : Options) : outcome bytes :=
  delimiter ← match delimiter_code_point options with
              | Some c => escape_a_regexp_string (string_from_code_point c)
              | None => Returned []
              end;
  Returned (sv "[^" ++ delimiter ++ sv "]+?").

(** The string is the prefix code point, if the options have one. *)
Definition is_prefix_code_point (options : Options) (s : bytes) : bool :=
  match prefix_code_point options with
  | Some c => bool_decide (s = string_from_code_point c)
  | None => false
  end.

(** Step 6. *)
Definition needs_grouping_by_affixes (part : Part) (options : Options) : bool :=
  negb (is_empty (suffix part))
  || (negb (is_empty (prefix part))
      && match prefix_code_point options with
         | Some c => negb (bool_decide (prefix part = string_from_code_point c))
         | None => false
         end).

(** Step 7: whether the text of the next part would continue the name. *)
Definition needs_grouping_by_next (part : Part) (next_part : option Part) (custom_name needs_grouping : bool)
    : outcome bool :=
  match next_part with
  | Some next =>
      if negb needs_grouping && custom_name
         && bool_decide (type part = PartType.SegmentWildcard)
         && bool_decide (part_modifier part = Modifier.None)
         && is_empty (prefix next) && is_empty (suffix next)
      then
        if bool_decide (type next = PartType.FixedText) then
          c ← first_code_point (part_value next);
          Returned (Tokenizer.is_a_valid_name_code_point c false)
        else
          c ← first_code_point (name next);
          Returned (is_ascii_digit c)
      else Returned needs_grouping
  | None => Returned needs_grouping
  end.

(** Step 8: whether the previous fixed text would be taken for the prefix. *)
Definition needs_grouping_by_previous (part : Part) (previous_part : option Part) (options : Options)
    (needs_grouping : bool) : bool :=
  match previous_part with
  | Some previous =>
      if negb needs_grouping && is_empty (prefix part)
         && bool_decide (type previous = PartType.FixedText)
         && ((is_empty (part_value previous) && negb (match prefix_code_point options with Some _ => true | None => false end))
             || is_prefix_code_point options (part_value previous))
      then true else needs_grouping
  | None => needs_grouping
  end.

(** Steps 13 to 15. *)
Definition generate_group (part : Part) (previous_part : option Part) (options : Options)
    (custom_name needs_grouping : bool) : outcome bytes :=
  match type part with
  | PartType.Regexp => Returned ([c_lparen] ++ part_value part ++ [c_rparen])
  | PartType.SegmentWildcard =>
      if negb custom_name then
        regexp ← generate_a_segment_wildcard_regexp options;
        Returned ([c_lparen] ++ regexp ++ [c_rparen])
      else Returned []
  | PartType.FullWildcard =>
      if negb custom_name
         && (match previous_part with
             | None => true
             | Some previous =>
                 bool_decide (type previous = PartType.FixedText)
                 || negb (bool_decide (part_modifier previous = Modifier.None))
             end
             || needs_grouping || negb (is_empty (prefix part)))
      then Returned [c_asterisk]
      else Returned ([c_lparen] ++ full_wildcard_regexp_value ++ [c_rparen])
  | PartType.FixedText => Returned []
  end.

(** The body of the loop of [generate_a_pattern_string]: what is appended. *)
Definition generate_part_string (previous_part : option Part) (part : Part) (next_part : option Part)
    (options : Options) : outcome bytes :=
  if bool_decide (type part = PartType.FixedText) then
    escaped ← escape_a_pattern_string (part_value part);
    if bool_decide (part_modifier part = Modifier.None) then Returned escaped
    else Returned ([c_lbrace] ++ escaped ++ [c_rbrace] ++ convert_modifier_to_string (part_modifier part))
  else
    first ← at_index (name part) 0;
    let custom_name := negb (is_ascii_digit first) in
    let needs_grouping := needs_grouping_by_affixes part options in
    needs_grouping ← needs_grouping_by_next part next_part custom_name needs_grouping;
    let needs_grouping := needs_grouping_by_previous part previous_part options needs_grouping in
    verify (negb (is_empty (name part))) (
      escaped_prefix ← escape_a_pattern_string (prefix part);
      group ← generate_group part previous_part options custom_name needs_grouping;
      separator ←
        (if bool_decide (type part = PartType.SegmentWildcard) && custom_name && negb (is_empty (suffix part)) then
           c ← first_code_point (suffix part);
           Returned (if Tokenizer.is_a_valid_name_code_point c false then [c_backslash] else [])
         else Returned []);
      escaped_suffix ← escape_a_pattern_string (suffix part);
      Returned (
        (if needs_grouping then [c_lbrace] else []) ++ escaped_prefix
        ++ (if custom_name then [c_colon] ++ name part else [])
        ++ group ++ separator ++ escaped_suffix
        ++ (if needs_grouping then [c_rbrace] else [])
        ++ convert_modifier_to_string (part_modifier part))).

Fixpoint generate_loop (previous_part : option Part) (part_list : list Part) (options : Options) (result : bytes)
    : outcome bytes :=
  match part_list with
  | [] => Returned result
  | part :: rest =>
      s ← generate_part_string previous_part part (head rest) options;
      generate_loop (Some part) rest options (result ++ s)
  end.

Definition generate_a_pattern_string (part_list : list Part) (options : Options) : outcome bytes :=
  generate_loop None part_list options [].

End Model.
