(* ===== verification/UrlPatternParser.v ===== *)
(** * URL patterns: the parser of pattern strings

    LibURL/Pattern/PatternParser.{h,cpp}.  The encoding callback and the segment
    wildcard expression are set when the parser is created and do not change:
    they are variables of the section. *)
From S2P Require Import Prelude CharacterTypes Externals Utf8 StringView Utf8View Format UrlPatternTokenizer UrlPatternParts.
Import Tokenizer (token_ok, tokens_ok).

(** An encoding callback. *)
Definition EncodingCallback : Type := bytes → outcome (PatternErrorOr bytes).

Module PatternParser.

Record PatternParser := mk_pattern_parser {
  m_token_list : list Token;
  m_part_list : list Part;
  m_pending_fixed_value : bytes;
  m_index : nat;
  m_next_numeric_name : Z;
}.

Definition with_pending (p : PatternParser) (pending : bytes) : PatternParser :=
  mk_pattern_parser (m_token_list p) (m_part_list p) pending (m_index p) (m_next_numeric_name p).

Definition append_part (p : PatternParser) (part : Part) : PatternParser :=
  mk_pattern_parser (m_token_list p) (m_part_list p ++ [part]) (m_pending_fixed_value p) (m_index p)
    (m_next_numeric_name p).

Definition with_index (p : PatternParser) (i : nat) : PatternParser :=
  mk_pattern_parser (m_token_list p) (m_part_list p) (m_pending_fixed_value p) i (m_next_numeric_name p).

(** ** Consuming tokens *)
Definition try_to_consume_a_token (p : PatternParser) (type : TokenType.token_type)
    : outcome (option Token * PatternParser) :=
  verify (m_index p <? length (m_token_list p))%nat (
    next_token ← at_index (m_token_list p) (m_index p);
    if negb (bool_decide (token_kind next_token = type)) then Returned (None, p)
    else Returned (Some next_token, with_index p (S (m_index p)))).

Definition try_to_consume_a_modifier_token (p : PatternParser) : outcome (option Token * PatternParser) :=
  '(token, p) ← try_to_consume_a_token p TokenType.OtherModifier;
  match token with
  | Some token => Returned (Some token, p)
  | None => try_to_consume_a_token p TokenType.Asterisk
  end.

Definition try_to_consume_a_regexp_or_wildcard_token (p : PatternParser) (name_token : option Token)
    : outcome (option Token * PatternParser) :=
  '(token, p) ← try_to_consume_a_token p TokenType.Regexp;
  match name_token, token with
  | None, None => try_to_consume_a_token p TokenType.Asterisk
  | _, _ => Returned (token, p)
  end.

Definition consume_a_required_token (p : PatternParser) (type : TokenType.token_type)
    : outcome (PatternErrorOr PatternParser) :=
  '(result, p) ← try_to_consume_a_token p type;
  match result with
  | None => Returned (ErrorInfo (sv "Missing required token '" ++ token_type_to_string type ++ sv "' in URL pattern"))
  | Some _ => Returned (Value p)
  end.

Fixpoint consume_text_loop (fuel : nat) (p : PatternParser) (result : bytes) : outcome (bytes * PatternParser) :=
  match fuel with
  | O => OutOfFuel
  | S fuel =>
      '(token, p) ← try_to_consume_a_token p TokenType.Char;
      '(token, p) ← match token with
                    | Some token => Returned (Some token, p)
                    | None => try_to_consume_a_token p TokenType.EscapedChar
                    end;
      match token with
      | None => Returned (result, p)
      | Some token => consume_text_loop fuel p (result ++ value token)
      end
  end.

Definition consume_text (p : PatternParser) : outcome (bytes * PatternParser) :=
  consume_text_loop (S (length (m_token_list p))) p [].

(** ** Adding parts *)
Definition is_a_duplicate_name (p : PatternParser) (n : bytes) : bool :=
  existsb (λ part, bool_decide (name part = n)) (m_part_list p).

Definition modifier_of_token (modifier_token : option Token) : Modifier.modifier :=
  match modifier_token with
  | Some token =>
      if bool_decide (value token = [c_question]) then Modifier.Optional
      else if bool_decide (value token = [c_asterisk]) then Modifier.ZeroOrMore
      else if bool_decide (value token = [c_plus]) then Modifier.OneOrMore
      else Modifier.None
  | None => Modifier.None
  end.

Section Model.
Context `{Simdutf} `{IcuProperties}.
Context (m_encoding_callback : EncodingCallback) (m_segment_wildcard_regexp : bytes).

Definition maybe_add_a_part_from_the_pending_fixed_value (p : PatternParser)
    : outcome (PatternErrorOr PatternParser) :=
  if is_empty (m_pending_fixed_value p) then Returned (Value p)
  else
    encoded_value ←? m_encoding_callback (m_pending_fixed_value p);
    Returned (Value (append_part (with_pending p [])
      (mk_simple_part PartType.FixedText encoded_value Modifier.None))).

(** Steps 6 to 12 of [add_a_part]: the type and the value of a matching group. *)
Definition group_type_and_value (regexp_or_wildcard_token : option Token) : PartType.part_type * bytes :=
  let regexp_value :=
    match regexp_or_wildcard_token with
    | None => m_segment_wildcard_regexp
    | Some token =>
        if bool_decide (token_kind token = TokenType.Asterisk) then full_wildcard_regexp_value else value token
    end in
  if bool_decide (regexp_value = m_segment_wildcard_regexp) then (PartType.SegmentWildcard, [])
  else if bool_decide (regexp_value = full_wildcard_regexp_value) then (PartType.FullWildcard, [])
  else (PartType.Regexp, regexp_value).

(** Steps 13 to 15: the name of a matching group. *)
Definition group_name (p : PatternParser) (name_token regexp_or_wildcard_token : option Token)
    : outcome (bytes * PatternParser) :=
  match name_token, regexp_or_wildcard_token with
  | Some token, _ => Returned (value token, p)
  | None, Some _ =>
      n ← format_decimal (m_next_numeric_name p);
      Returned (n, mk_pattern_parser (m_token_list p) (m_part_list p) (m_pending_fixed_value p) (m_index p)
                     (wrap64 (m_next_numeric_name p + 1)))
  | None, None => Returned ([], p)
  end.

Definition add_a_part (p : PatternParser) (prefix : bytes) (name_token regexp_or_wildcard_token : option Token)
    (suffix : bytes) (modifier_token : option Token) : outcome (PatternErrorOr PatternParser) :=
  let modifier := modifier_of_token modifier_token in
  match name_token, regexp_or_wildcard_token with
  | None, None =>
      if bool_decide (modifier = Modifier.None)
      then Returned (Value (with_pending p (m_pending_fixed_value p ++ prefix)))
      else
        p ←? maybe_add_a_part_from_the_pending_fixed_value p;
        verify (is_empty suffix) (
          if is_empty prefix then Returned (Value p)
          else
            encoded_value ←? m_encoding_callback prefix;
            Returned (Value (append_part p (mk_simple_part PartType.FixedText encoded_value modifier))))
  | _, _ =>
      p ←? maybe_add_a_part_from_the_pending_fixed_value p;
      let '(type, regexp_value) := group_type_and_value regexp_or_wildcard_token in
      '(name, p) ← group_name p name_token regexp_or_wildcard_token;
      if is_a_duplicate_name p name
      then Returned (ErrorInfo (sv "Duplicate name '" ++ name ++ sv "' provided in URL pattern"))
      else
        encoded_prefix ←? m_encoding_callback prefix;
        encoded_suffix ←? m_encoding_callback suffix;
        Returned (Value (append_part p (mk_part type regexp_value modifier name encoded_prefix encoded_suffix)))
  end.

(** ** The parser *)

(** The body of the loop of [parse]. *)
Definition pattern_step (options : Options) (p : PatternParser) : outcome (PatternErrorOr PatternParser) :=
  '(char_token, p) ← try_to_consume_a_token p TokenType.Char;
  '(name_token, p) ← try_to_consume_a_token p TokenType.Name;
  '(regexp_or_wildcard_token, p) ← try_to_consume_a_regexp_or_wildcard_token p name_token;
  match name_token, regexp_or_wildcard_token with
  | None, None =>
      '(fixed_token, p) ← match char_token with
                          | Some token => Returned (Some token, p)
                          | None => try_to_consume_a_token p TokenType.EscapedChar
                          end;
      match fixed_token with
      | Some token => Returned (Value (with_pending p (m_pending_fixed_value p ++ value token)))
      | None =>
          '(open_token, p) ← try_to_consume_a_token p TokenType.Open;
          match open_token with
          | Some _ =>
              '(prefix, p) ← consume_text p;
              '(name_token, p) ← try_to_consume_a_token p TokenType.Name;
              '(regexp_or_wildcard_token, p) ← try_to_consume_a_regexp_or_wildcard_token p name_token;
              '(suffix, p) ← consume_text p;
              p ←? consume_a_required_token p TokenType.Close;
              '(modifier_token, p) ← try_to_consume_a_modifier_token p;
              add_a_part p prefix name_token regexp_or_wildcard_token suffix modifier_token
          | None =>
              p ←? maybe_add_a_part_from_the_pending_fixed_value p;
              consume_a_required_token p TokenType.End
          end
      end
  | _, _ =>
      let prefix := match char_token with Some token => value token | None => [] end in
      let '(prefix, p) :=
        if negb (is_empty prefix) && negb (is_prefix_code_point options prefix)
        then ([], with_pending p (m_pending_fixed_value p ++ prefix)) else (prefix, p) in
      p ←? maybe_add_a_part_from_the_pending_fixed_value p;
      '(modifier_token, p) ← try_to_consume_a_modifier_token p;
      add_a_part p prefix name_token regexp_or_wildcard_token [] modifier_token
  end.

Fixpoint pattern_loop (fuel : nat) (options : Options) (p : PatternParser) : outcome (PatternErrorOr PatternParser) :=
  match fuel with
  | O => OutOfFuel
  | S fuel =>
      if (m_index p <? length (m_token_list p))%nat
      then p ←? pattern_step options p; pattern_loop fuel options p
      else Returned (Value p)
  end.

End Model.

Definition parse `{Simdutf} `{IcuProperties} (input : bytes) (options : Options)
    (encoding_callback : EncodingCallback) : outcome (PatternErrorOr (list Part)) :=
  segment_wildcard_regexp ← generate_a_segment_wildcard_regexp options;
  token_list ←? Tokenizer.tokenize input Strict;
  p ←? pattern_loop encoding_callback segment_wildcard_regexp (S (length token_list)) options
         (mk_pattern_parser token_list [] [] 0 0);
  Returned (Value (m_part_list p)).

(** ** The parser returns, and what its parts are *)

(** What the pattern parser relies on in an encoding callback: it returns on
    well-formed text, and the text it returns is ASCII. *)
Class EncodingCallbackOk (callback : EncodingCallback) : Prop := {
  callback_returns : ∀ s, valid_utf8 s → returns (callback s);
  callback_ascii : ∀ s v, valid_utf8 s → callback s = Returned (Value v) → forallb is_ascii v = true;
}.

(** A callback that encodes no text to the empty string. *)
Class EncodingCallbackNonempty (callback : EncodingCallback) : Prop := {
  callback_nonempty : ∀ s v, valid_utf8 s → s ≠ [] → callback s = Returned (Value v) → v ≠ [];
}.

(** A fixed text has nothing but its text; a matching group has a name, and a
    value exactly when it is a regular expression.  All text that is copied to
    the regular expression is ASCII. *)
Definition part_ok (part : Part) : Prop :=
  forallb is_ascii (part_value part) = true ∧ forallb is_ascii (prefix part) = true
  ∧ forallb is_ascii (suffix part) = true ∧ valid_utf8 (name part)
  ∧ match type part with
    | PartType.FixedText => name part = [] ∧ prefix part = [] ∧ suffix part = []
    | PartType.Regexp => name part ≠ [] ∧ part_value part ≠ []
    | _ => name part ≠ [] ∧ part_value part = []
    end.

Definition is_group (part : Part) : Prop := type part ≠ PartType.FixedText.

#[global] Instance is_group_dec part : Decision (is_group part).
Proof. unfold is_group. apply _. Defined.

Definition parts_ok (parts : list Part) : Prop :=
  Forall part_ok parts ∧ NoDup (name <$> filter is_group parts).

(** The texts of the fixed parts satisfy a predicate. *)
Definition fixed_texts (Q : bytes → Prop) (parts : list Part) : Prop :=
  Forall (λ part, type part = PartType.FixedText → Q (part_value part)) parts.

Section Correct.
Context `{SimdutfOk} `{IcuProperties}.
Context (callback : EncodingCallback) `{Hcallback : !EncodingCallbackOk callback}.
Context (segment_wildcard_regexp : bytes).
Context (Q : bytes → Prop) (HQ : ∀ s v, valid_utf8 s → s ≠ [] → callback s = Returned (Value v) → Q v).

Definition parser_ok (p : PatternParser) : Prop :=
  tokens_ok (m_token_list p) ∧ (m_index p ≤ length (m_token_list p))%nat
  ∧ valid_utf8 (m_pending_fixed_value p) ∧ (parts_ok (m_part_list p) ∧ fixed_texts Q (m_part_list p))
  ∧ 0 ≤ m_next_numeric_name p < 2 ^ 64.

(** *** Consuming tokens *)
Lemma with_index_same p : with_index p (m_index p) = p.
Proof. by destruct p. Qed.

Lemma parser_ok_index p k :
  parser_ok p → (k ≤ length (m_token_list p))%nat → parser_ok (with_index p k).
Proof. by intros (? & _ & ?) Hk. Qed.

Lemma parser_ok_pending p s : parser_ok p → valid_utf8 s → parser_ok (with_pending p s).
Proof. by intros (? & ? & _ & ?) Hk. Qed.

(** A token that was consumed, or none. *)
Definition consumed (i k : nat) (types : list TokenType.token_type) (token : option Token) : Prop :=
  match token with
  | Some t => k = S i ∧ token_ok t ∧ token_kind t ∈ types
  | None => k = i
  end.

Lemma consume_spec p k type :
  tokens_ok (m_token_list p) → (k < length (m_token_list p))%nat → type ≠ TokenType.End →
  ∃ token k', try_to_consume_a_token (with_index p k) type = Returned (token, with_index p k')
    ∧ (k' < length (m_token_list p))%nat ∧ consumed k k' [type] token.
Proof.
  intros (init & e & Hl & He & Hinit) Hk Htype. unfold try_to_consume_a_token, with_index. cbn [m_token_list m_index].
  rewrite (proj2 (Nat.ltb_lt _ _)) by done. cbn [verify].
  destruct (at_index_total _ _ Hk) as (t & -> & Ht). cbn [mbind outcome_bind].
  case_bool_decide as Hkind; cbn [negb].
  - exists (Some t), (S k). rewrite Hl in Ht, Hk |- *. rewrite length_app in Hk |- *. cbn [length] in *.
    destruct (Nat.lt_ge_cases k (length init)) as [Hlt|Hge].
    + rewrite lookup_app_l in Ht by done. split_and!; [done|lia|]. split_and!; [done|by eapply Forall_lookup_1|set_solver].
    + rewrite lookup_app_r in Ht by done. replace (k - length init)%nat with O in Ht by lia.
      injection Ht as <-. congruence.
  - exists None, k. done.
Qed.

Lemma consume_modifier_spec p k :
  tokens_ok (m_token_list p) → (k < length (m_token_list p))%nat →
  ∃ token k', try_to_consume_a_modifier_token (with_index p k) = Returned (token, with_index p k')
    ∧ (k ≤ k' < length (m_token_list p))%nat.
Proof.
  intros Hok Hk. unfold try_to_consume_a_modifier_token.
  destruct (consume_spec p k TokenType.OtherModifier) as (token & k1 & -> & Hk1 & Hc1); [done..|].
  cbn [mbind outcome_bind]. destruct token as [t|].
  - exists (Some t), k1. destruct Hc1 as (-> & _). split; [done|lia].
  - destruct (consume_spec p k1 TokenType.Asterisk) as (token & k2 & -> & Hk2 & Hc2); [done..|].
    exists token, k2. split; [done|]. cbn in Hc1. destruct token; [destruct Hc2|cbn in Hc2]; lia.
Qed.

Lemma consume_regexp_spec p k name_token :
  tokens_ok (m_token_list p) → (k < length (m_token_list p))%nat →
  ∃ token k', try_to_consume_a_regexp_or_wildcard_token (with_index p k) name_token
      = Returned (token, with_index p k')
    ∧ (k' < length (m_token_list p))%nat ∧ consumed k k' [TokenType.Regexp; TokenType.Asterisk] token.
Proof.
  intros Hok Hk. unfold try_to_consume_a_regexp_or_wildcard_token.
  destruct (consume_spec p k TokenType.Regexp) as (token & k1 & -> & Hk1 & Hc1); [done..|].
  cbn [mbind outcome_bind]. destruct token as [t|].
  - exists (Some t), k1. split_and!; [by destruct name_token|done|]. destruct Hc1 as (? & ? & ?). split_and!; set_solver.
  - cbn in Hc1. subst k1. destruct name_token; [by exists None, k|].
    destruct (consume_spec p k TokenType.Asterisk) as (token & k2 & -> & Hk2 & Hc2); [done..|].
    exists token, k2. split_and!; [done|done|]. destruct token; [|done].
    destruct Hc2 as (? & ? & ?). split_and!; set_solver.
Qed.

Lemma consume_text_loop_spec p k fuel result :
  tokens_ok (m_token_list p) → (k < length (m_token_list p))%nat → valid_utf8 result →
  (length (m_token_list p) - k < fuel)%nat →
  ∃ text k', consume_text_loop fuel (with_index p k) result = Returned (text, with_index p k')
    ∧ (k ≤ k' < length (m_token_list p))%nat ∧ valid_utf8 text
    ∧ ∀ fuel' r, consume_text_loop (S fuel') (with_index p k') r = Returned (r, with_index p k').
Proof.
  intros Hok. revert k result. induction fuel as [|fuel IH]; intros k result Hk Hresult Hfuel; [lia|].
  cbn [consume_text_loop].
  destruct (consume_spec p k TokenType.Char) as (token & k1 & Ec & Hk1 & Hc1); [done..|]. rewrite Ec.
  cbn [mbind outcome_bind]. destruct token as [t|].
  - destruct Hc1 as (-> & (_ & Ht & _) & _). cbn [mbind outcome_bind].
    destruct (IH (S k) (result ++ value t)) as (text & k' & -> & Hk' & Htext & Hstop); [done|eauto with ladybird|lia|].
    exists text, k'. split_and!; [done|lia..|done|done].
  - cbn in Hc1. subst k1.
    destruct (consume_spec p k TokenType.EscapedChar) as (token & k1 & Ee & Hk2 & Hc1); [done..|]. rewrite Ee.
    cbn [mbind outcome_bind]. destruct token as [t|].
    + destruct Hc1 as (-> & (_ & Ht & _) & _).
      destruct (IH (S k) (result ++ value t)) as (text & k' & -> & Hk' & Htext & Hstop); [done|eauto with ladybird|lia|].
      exists text, k'. split_and!; [done|lia..|done|done].
    + cbn in Hc1. subst k1. exists result, k. split_and!; try done. intros fuel' r. cbn [consume_text_loop].
      rewrite Ec. cbn [mbind outcome_bind]. rewrite Ee. done.
Qed.

Lemma consume_text_spec p k :
  tokens_ok (m_token_list p) → (k < length (m_token_list p))%nat →
  ∃ text k', consume_text (with_index p k) = Returned (text, with_index p k')
    ∧ (k ≤ k' < length (m_token_list p))%nat ∧ valid_utf8 text
    ∧ consume_text (with_index p k') = Returned ([], with_index p k').
Proof.
  intros Hok Hk. destruct (consume_text_loop_spec p k (S (length (m_token_list p))) [])
    as (text & k' & Ht & Hk' & Htext & Hstop); [done..|eauto with ladybird|lia|].
  exists text, k'. split_and!; try done; try lia. apply Hstop.
Qed.

(** *** Adding parts *)

(** The result of an operation that consumes no token. *)
Definition good (p : PatternParser) (r : outcome (PatternErrorOr PatternParser)) : Prop :=
  (∃ m, r = Returned (ErrorInfo m))
  ∨ ∃ p', r = Returned (Value p') ∧ parser_ok p' ∧ m_index p' = m_index p ∧ m_token_list p' = m_token_list p.

Lemma good_error p m : good p (Returned (ErrorInfo m)).
Proof. left. by exists m. Qed.

Lemma good_value p p' :
  parser_ok p' → m_index p' = m_index p → m_token_list p' = m_token_list p → good p (Returned (Value p')).
Proof. right. by exists p'. Qed.

Lemma good_try p m f :
  good p m →
  (∀ p', parser_ok p' → m_index p' = m_index p → m_token_list p' = m_token_list p → good p' (f p')) →
  good p (pattern_try m f).
Proof.
  intros [[e ->]|(p' & -> & Hok & Hi & Ht)] Hf; [apply good_error|].
  destruct (Hf p' Hok Hi Ht) as [[e He]|(p'' & He & Hok' & Hi' & Ht')].
  - left. by exists e.
  - right. exists p''. by rewrite <-Hi, <-Ht.
Qed.

Lemma good_callback p s f :
  valid_utf8 s → (∀ v, forallb is_ascii v = true → (s ≠ [] → Q v) → good p (f v)) →
  good p (pattern_try (callback s) f).
Proof.
  intros Hs Hf. destruct (callback_returns s Hs) as [[m|v] Hr]; rewrite Hr; [apply good_error|].
  cbn. apply Hf; [by apply (callback_ascii s)|]. intros Hne. by eapply HQ.
Qed.

Lemma fixed_part_ok v modifier :
  forallb is_ascii v = true → part_ok (mk_simple_part PartType.FixedText v modifier).
Proof. intros Hv. repeat split; eauto with ladybird. Qed.

Lemma append_part_ok p part :
  parser_ok p → part_ok part → (is_group part → name part ∉ (name <$> m_part_list p)) →
  (type part = PartType.FixedText → Q (part_value part)) → parser_ok (append_part p part).
Proof.
  intros (Ht & Hi & Hp & [[Hparts Hdup] Hfix] & Hn) Hpart Hnew HQpart.
  split_and!; cbn; try done; try lia.
  2:{ apply Forall_app. split; [done|by constructor]. }
  split; [by apply Forall_app; split; [|constructor]|].
  rewrite filter_app, fmap_app. apply NoDup_app. split_and!; [done| |].
  - intros n Hn' Hin. rewrite filter_cons in Hin. case_decide as Hg; [|set_solver].
    apply list_elem_of_fmap in Hn' as (q & -> & [_ Hq]%list_elem_of_filter).
    apply (Hnew Hg). cbn in Hin. assert (name q = name part) as <- by set_solver.
    by apply list_elem_of_fmap_2.
  - rewrite filter_cons. case_decide; [|constructor]. apply NoDup_singleton.
Qed.

Lemma maybe_add_good p : parser_ok p → good p (maybe_add_a_part_from_the_pending_fixed_value callback p).
Proof.
  intros Hok. unfold maybe_add_a_part_from_the_pending_fixed_value.
  destruct (m_pending_fixed_value p) as [|b pending] eqn:Ep; [by apply good_value|]. cbn [is_empty].
  apply good_callback; [rewrite <-Ep; apply Hok|]. intros v Hv HQv. apply good_value; [|done..].
  apply append_part_ok; [|by apply fixed_part_ok|done|by intros _; apply HQv].
  apply parser_ok_pending; eauto with ladybird.
Qed.

Definition group_token_ok (token : option Token) : Prop :=
  ∀ t, token = Some t → token_ok t ∧ token_kind t ∈ [TokenType.Regexp; TokenType.Asterisk].

Definition name_token_ok (token : option Token) : Prop :=
  ∀ t, token = Some t → token_ok t ∧ token_kind t = TokenType.Name.

Lemma group_type_and_value_spec token :
  group_token_ok token →
  let '(type, v) := group_type_and_value segment_wildcard_regexp token in
  type ≠ PartType.FixedText ∧ forallb is_ascii v = true
  ∧ match type with PartType.Regexp => v ≠ [] | _ => v = [] end.
Proof.
  intros Htoken. unfold group_type_and_value. case_bool_decide as Hs; [done|]. case_bool_decide as Hf; [done|].
  destruct token as [t|]; [|done]. destruct (Htoken t eq_refl) as ((_ & _ & Hne & Ha) & Hin).
  case_bool_decide as Hast; [done|].
  assert (token_kind t = TokenType.Regexp) as Hre by set_solver. split_and!; [done|auto|auto].
Qed.

Lemma not_duplicate p n : is_a_duplicate_name p n = false → n ∉ (name <$> m_part_list p).
Proof.
  unfold is_a_duplicate_name. intros Hd%existsb_false_Forall Hn.
  apply list_elem_of_fmap in Hn as (q & -> & Hq). rewrite Forall_forall in Hd.
  specialize (Hd q Hq). cbv beta in Hd. by rewrite bool_decide_eq_true_2 in Hd.
Qed.

Lemma decimal_valid n : forallb (is_digit_in 10) n = true → valid_utf8 n.
Proof.
  intros Hn%forallb_Forall.
  assert (Forall (λ c, 0 ≤ c < 0x80) n) as Hr.
  { eapply Forall_impl; [done|]. intros c Hc. cbv beta in Hc. unfold is_digit_in, digit_value in Hc. unfold_ctypes.
    repeat case_match; bool_to_prop; simplify_eq; lia. }
  apply ascii_valid_utf8.
  - eapply Forall_impl; [done|]. unfold is_byte. intros c Hc. cbv beta in Hc. lia.
  - apply forallb_Forall. eapply Forall_impl; [done|]. intros c Hc. cbv beta in Hc. unfold is_ascii. lia.
Qed.

Lemma group_name_spec p name_token token :
  parser_ok p → name_token_ok name_token → name_token ≠ None ∨ token ≠ None →
  ∃ n k, group_name p name_token token
    = Returned (n, mk_pattern_parser (m_token_list p) (m_part_list p) (m_pending_fixed_value p) (m_index p) k)
    ∧ n ≠ [] ∧ valid_utf8 n ∧ 0 ≤ k < 2 ^ 64.
Proof.
  intros (_ & _ & _ & _ & Hn) Hname Hsome. unfold group_name. destruct name_token as [t|].
  - destruct (Hname t eq_refl) as ((_ & Hv & Hne & _) & Hk). exists (value t), (m_next_numeric_name p).
    split_and!; try done; try lia; [by destruct p|by apply Hne; left].
  - destruct token as [t|]; [|naive_solver].
    destruct (format_decimal_printed (m_next_numeric_name p) Hn) as (n & -> & Hd). cbn [mbind outcome_bind].
    exists n, (wrap64 (m_next_numeric_name p + 1)).
    split_and!; [done|by eapply printed_nonempty|by eapply decimal_valid, printed_digits|apply Z.mod_pos_bound; lia..].
Qed.

Lemma add_a_part_good p prefix name_token token suffix modifier_token :
  parser_ok p → valid_utf8 prefix → valid_utf8 suffix → name_token_ok name_token → group_token_ok token →
  (name_token = None → token = None → suffix = []) →
  good p (add_a_part callback segment_wildcard_regexp p prefix name_token token suffix modifier_token).
Proof.
  intros Hok Hprefix Hsuffix Hname Htoken Hempty.
  assert (name_token ≠ None ∨ token ≠ None → good p (
    p ←? maybe_add_a_part_from_the_pending_fixed_value callback p;
    let '(type, regexp_value) := group_type_and_value segment_wildcard_regexp token in
    '(name, p) ← group_name p name_token token;
    if is_a_duplicate_name p name
    then Returned (ErrorInfo (sv "Duplicate name '" ++ name ++ sv "' provided in URL pattern"))
    else
      encoded_prefix ←? callback prefix;
      encoded_suffix ←? callback suffix;
      Returned (Value (append_part p (mk_part type regexp_value (modifier_of_token modifier_token) name
        encoded_prefix encoded_suffix))))) as Hgroup.
  { intros Hsome. apply good_try; [by apply maybe_add_good|]. intros q Hq _ _. clear p Hok. rename q into p, Hq into Hok.
    pose proof (group_type_and_value_spec token Htoken) as Hg.
    destruct (group_type_and_value segment_wildcard_regexp token) as [type v]. destruct Hg as (Ht & Ha & Hv).
    destruct (group_name_spec p name_token token Hok Hname Hsome) as (n & k & -> & Hn & Hvn & Hk).
    cbn [mbind outcome_bind]. destruct (is_a_duplicate_name _ n) eqn:Ed; [apply good_error|].
    apply not_duplicate in Ed. cbn [m_part_list] in Ed.
    apply good_callback; [done|]. intros ep Hep _. apply good_callback; [done|]. intros es Hes _.
    apply good_value; [|done..]. apply append_part_ok; [| |done|by intros].
    2:{ unfold part_ok. cbn. split_and!; try done. by destruct type. }
    destruct Hok as (? & ? & ? & [? ?] & _). split_and!; (done || apply Hk). }
  unfold add_a_part. destruct name_token as [nt|]; [apply Hgroup; by left|].
  destruct token as [t|]; [apply Hgroup; by right|]. clear Hgroup.
  case_bool_decide.
  { apply good_value; [|done..]. apply parser_ok_pending; [done|]. apply valid_utf8_app; [apply Hok|done]. }
  apply good_try; [by apply maybe_add_good|]. intros p' Hok' _ _. rewrite (Hempty eq_refl eq_refl). cbn [is_empty verify].
  destruct prefix as [|b prefix]; [by apply good_value|]. cbn [is_empty].
  apply good_callback; [done|]. intros v Hv HQv. apply good_value; [|done..].
  apply append_part_ok; [done|by apply fixed_part_ok|done|by intros _; apply HQv].
Qed.

(** *** The loop *)

(** One run of the loop's body consumes a token or fails. *)
Definition progress (p : PatternParser) (r : outcome (PatternErrorOr PatternParser)) : Prop :=
  (∃ m, r = Returned (ErrorInfo m))
  ∨ ∃ p', r = Returned (Value p') ∧ parser_ok p' ∧ (m_index p < m_index p')%nat
      ∧ m_token_list p' = m_token_list p.

Lemma progress_good p p' r :
  good p' r → (m_index p < m_index p')%nat → m_token_list p' = m_token_list p → progress p r.
Proof.
  intros [He|(q & -> & Hok & Hi & Ht)] Hlt Hl; [by left|]. right. exists q. split_and!; [done|done|lia|congruence].
Qed.

Lemma required_spec p type r :
  consume_a_required_token p type = r → parser_ok p → (m_index p < length (m_token_list p))%nat →
  (∃ m, r = Returned (ErrorInfo m)) ∨ r = Returned (Value (with_index p (S (m_index p)))).
Proof.
  intros <- Hok Hlt. unfold consume_a_required_token, try_to_consume_a_token.
  rewrite (proj2 (Nat.ltb_lt _ _)) by done. cbn [verify].
  destruct (at_index_total _ _ Hlt) as (t & -> & Ht). cbn [mbind outcome_bind].
  destruct (bool_decide (token_kind t = type)); cbn; [by right|left; by eexists].
Qed.

Lemma consumed_name k k' t :
  consumed k k' [TokenType.Name] t → name_token_ok t ∧ (k ≤ k')%nat ∧ (t ≠ None → k < k')%nat.
Proof.
  destruct t as [t|]; cbn.
  - intros (-> & Hok & Hin). split_and!; [|lia..]. intros t' [= <-]. split; [done|set_solver].
  - intros ->. split_and!; [by intros t|lia|done].
Qed.

Lemma consumed_group k k' t :
  consumed k k' [TokenType.Regexp; TokenType.Asterisk] t →
  group_token_ok t ∧ (k ≤ k')%nat ∧ (t ≠ None → k < k')%nat.
Proof.
  destruct t as [t|]; cbn.
  - intros (-> & Hok & Hin). split_and!; [|lia..]. by intros t' [= <-].
  - intros ->. split_and!; [by intros t|lia|done].
Qed.

(** The steps after a matching group was seen outside of braces. *)
Lemma group_step p k prefix name_token token options :
  parser_ok p → (m_index p < k < length (m_token_list p))%nat → valid_utf8 prefix →
  name_token_ok name_token → group_token_ok token →
  progress p (
    let '(prefix, p) :=
      if negb (is_empty prefix) && negb (is_prefix_code_point options prefix)
      then ([], with_pending (with_index p k) (m_pending_fixed_value (with_index p k) ++ prefix))
      else (prefix, with_index p k) in
    p ←? maybe_add_a_part_from_the_pending_fixed_value callback p;
    '(modifier_token, p) ← try_to_consume_a_modifier_token p;
    add_a_part callback segment_wildcard_regexp p prefix name_token token [] modifier_token).
Proof.
  intros Hok Hk Hprefix Hname Htoken.
  set (r := if negb (is_empty prefix) && _ then _ else _).
  assert (parser_ok r.2 ∧ m_index r.2 = k ∧ m_token_list r.2 = m_token_list p ∧ valid_utf8 r.1) as (Hok' & Hi & Ht & Hv).
  { assert (parser_ok (with_index p k)) as Hp by (apply parser_ok_index; [done|lia]).
    unfold r. destruct (negb (is_empty prefix) && _); split_and!; cbn [fst snd]; eauto with ladybird.
    apply parser_ok_pending; [done|]. apply valid_utf8_app; [apply Hok|done]. }
  destruct r as [pre q]. cbn [fst snd] in *.
  destruct (maybe_add_good q Hok') as [[m ->]|(q' & -> & Hq & Hi' & Ht')]; [left; by exists m|].
  unfold pattern_try at 1. cbn [mbind outcome_bind].
  destruct (consume_modifier_spec q' k) as (modifier & k' & Hm & Hk'); [apply Hq|congruence || (rewrite Ht', Ht; lia)|].
  assert (with_index q' k = q') as Hsame by (rewrite <-Hi, <-Hi'; apply with_index_same).
  rewrite Hsame in Hm. rewrite Hm. cbn [mbind outcome_bind].
  eapply (progress_good _ (with_index q' k')); [|cbn; lia|cbn; congruence].
  apply add_a_part_good; eauto with ladybird. apply parser_ok_index; [done|lia].
Qed.

(** The steps after an opening brace. *)
Lemma braces_step p k :
  parser_ok p → (m_index p < k < length (m_token_list p))%nat →
  progress p (
    '(prefix, p) ← consume_text (with_index p k);
    '(name_token, p) ← try_to_consume_a_token p TokenType.Name;
    '(token, p) ← try_to_consume_a_regexp_or_wildcard_token p name_token;
    '(suffix, p) ← consume_text p;
    p ←? consume_a_required_token p TokenType.Close;
    '(modifier_token, p) ← try_to_consume_a_modifier_token p;
    add_a_part callback segment_wildcard_regexp p prefix name_token token suffix modifier_token).
Proof.
  intros Hok Hk. assert (tokens_ok (m_token_list p)) as Htok by apply Hok.
  destruct (consume_text_spec p k) as (pre & k1 & -> & Hk1 & Hpre & Hstop); [done|lia|]. cbn [mbind outcome_bind].
  destruct (consume_spec p k1 TokenType.Name) as (nt & k2 & -> & Hk2 & Hc2); [done|lia|done|]. cbn [mbind outcome_bind].
  destruct (consume_regexp_spec p k2 nt) as (t & k3 & -> & Hk3 & Hc3); [done|lia|]. cbn [mbind outcome_bind].
  destruct (consumed_name _ _ _ Hc2) as (Hnt & Hle2 & _). destruct (consumed_group _ _ _ Hc3) as (Hgt & Hle3 & _).
  destruct (consume_text_spec p k3) as (suf & k4 & Hsuf & Hk4 & Hsufv & _); [done|lia|]. rewrite Hsuf.
  cbn [mbind outcome_bind].
  assert (nt = None → t = None → suf = []) as Hempty.
  { intros -> ->. cbn in Hc2, Hc3. subst k3 k2. rewrite Hstop in Hsuf. by injection Hsuf. }
  unfold consume_a_required_token.
  destruct (consume_spec p k4 TokenType.Close) as (close & k5 & -> & Hk5 & Hc5); [done|lia|done|]. cbn [mbind outcome_bind].
  destruct close as [close|]; [|left; by eexists]. destruct Hc5 as (-> & _). unfold pattern_try at 1. cbn [mbind outcome_bind].
  destruct (consume_modifier_spec p (S k4)) as (modifier & k6 & -> & Hk6); [done|lia|]. cbn [mbind outcome_bind].
  eapply (progress_good _ (with_index p k6)); [|cbn; lia|done].
  apply add_a_part_good; try done. apply parser_ok_index; [done|lia].
Qed.

Lemma parse_step_progress options p :
  parser_ok p → (m_index p < length (m_token_list p))%nat →
  progress p (pattern_step callback segment_wildcard_regexp options p).
Proof.
  intros Hok Hlt. assert (tokens_ok (m_token_list p)) as Htok by apply Hok. unfold pattern_step.
  destruct (consume_spec p (m_index p) TokenType.Char) as (ct & k1 & Ec1 & Hk1 & Hc1); [done..|].
  rewrite with_index_same in Ec1. rewrite Ec1. cbn [mbind outcome_bind].
  assert (m_index p ≤ k1 ∧ (ct ≠ None → m_index p < k1))%nat as [Hle1 Hlt1].
  { destruct ct; [destruct Hc1 as (-> & _)|cbn in Hc1]; split; lia || done. }
  destruct (consume_spec p k1 TokenType.Name) as (nt & k2 & -> & Hk2 & Hc2); [done..|]. cbn [mbind outcome_bind].
  destruct (consume_regexp_spec p k2 nt) as (t & k3 & -> & Hk3 & Hc3); [done..|]. cbn [mbind outcome_bind].
  destruct (consumed_name _ _ _ Hc2) as (Hnt & Hle2 & Hlt2). destruct (consumed_group _ _ _ Hc3) as (Hgt & Hle3 & Hlt3).
  assert (valid_utf8 (match ct with Some token => value token | None => [] end)) as Hctv.
  { destruct ct as [c|]; [|apply valid_utf8_nil]. by destruct Hc1 as (_ & (_ & ? & _) & _). }
  destruct nt as [nt|]; [|destruct t as [t|]].
  { assert (k1 < k2)%nat by (by apply Hlt2).
    apply (group_step p k3 (match ct with Some token => value token | None => [] end)); done || lia. }
  { assert (k2 < k3)%nat by (by apply Hlt3).
    apply (group_step p k3 (match ct with Some token => value token | None => [] end)); done || lia. }
  cbn in Hc2, Hc3. subst k2 k3. clear Hnt Hgt Hle2 Hle3 Hlt2 Hlt3.
  destruct ct as [c|].
  { cbn [mbind outcome_bind]. right. eexists. split; [done|]. destruct Hc1 as (-> & _).
    split_and!; [|cbn; lia|done]. apply parser_ok_pending; [apply parser_ok_index; [done|lia]|].
    apply valid_utf8_app; [apply Hok|done]. }
  cbn in Hc1. subst k1.
  destruct (consume_spec p (m_index p) TokenType.EscapedChar) as (ft & k2 & -> & Hk2' & Hc2'); [done..|].
  cbn [mbind outcome_bind]. destruct ft as [f|].
  { right. eexists. split; [done|]. destruct Hc2' as (-> & (_ & Hv & _) & _).
    split_and!; [|cbn; lia|done]. apply parser_ok_pending; [apply parser_ok_index; [done|lia]|].
    apply valid_utf8_app; [apply Hok|done]. }
  cbn in Hc2'. subst k2.
  destruct (consume_spec p (m_index p) TokenType.Open) as (ot & k2 & -> & Hk4 & Hc4); [done..|].
  cbn [mbind outcome_bind]. destruct ot as [o|].
  { destruct Hc4 as (-> & _). apply braces_step; [done|lia]. }
  cbn in Hc4. subst k2. rewrite with_index_same.
  destruct (maybe_add_good p Hok) as [[m ->]|(q & -> & Hq & Hi & Ht)]; [left; by exists m|].
  unfold pattern_try. cbn [mbind outcome_bind].
  destruct (required_spec q TokenType.End _ eq_refl Hq) as [[m ->]| ->]; [rewrite Hi, Ht; lia|left; by exists m|].
  right. eexists. split; [done|]. split_and!; [apply parser_ok_index; [done|rewrite Ht; lia]|cbn; lia|done].
Qed.

Lemma pattern_loop_spec options p fuel :
  parser_ok p → (length (m_token_list p) - m_index p < fuel)%nat →
  (∃ m, pattern_loop callback segment_wildcard_regexp fuel options p = Returned (ErrorInfo m))
  ∨ ∃ p', pattern_loop callback segment_wildcard_regexp fuel options p = Returned (Value p') ∧ parser_ok p'.
Proof.
  revert p. induction fuel as [|fuel IH]; intros p Hok Hfuel; [lia|]. cbn [pattern_loop].
  destruct (Nat.ltb_spec (m_index p) (length (m_token_list p))) as [Hlt|Hge]; [|right; by exists p].
  destruct (parse_step_progress options p Hok Hlt) as [[m ->]|(q & -> & Hq & Hi & Ht)]; [left; by exists m|].
  unfold pattern_try. cbn [mbind outcome_bind]. apply IH; [done|rewrite Ht; lia].
Qed.

End Correct.

Section Parse.
Context `{SimdutfOk} `{IcuProperties}.

Definition options_ok (options : Options) : Prop :=
  ∀ c, delimiter_code_point options = Some c → 0 ≤ c < 0x80.

Lemma ascii_view_spec s : sv_is_ascii s = forallb is_ascii s.
Proof. unfold sv_is_ascii. destruct s; [done|]. apply validate_ascii_spec. Qed.

Lemma escape_regexp_ascii s :
  forallb is_ascii s = true → escape_a_regexp_string s = Returned (escape_chars regexp_special s).
Proof. intros Hs. unfold escape_a_regexp_string. by rewrite ascii_view_spec, Hs. Qed.

Lemma string_from_ascii c : 0 ≤ c < 0x80 → string_from_code_point c = [c].
Proof.
  intros Hc. unfold string_from_code_point, append_code_point, is_unicode, code_point_to_utf8.
  rewrite (proj2 (Z.leb_le c 0x10FFFF)), (proj2 (Z.leb_le c 0x7f)) by lia. done.
Qed.

Lemma segment_wildcard_returns options :
  options_ok options → returns (generate_a_segment_wildcard_regexp options).
Proof.
  intros Ho. unfold generate_a_segment_wildcard_regexp. destruct (delimiter_code_point options) as [c|] eqn:Ec.
  - specialize (Ho c Ec). rewrite string_from_ascii, escape_regexp_ascii by (done || cbn; unfold is_ascii; lia).
    eauto with ladybird.
  - eauto with ladybird.
Qed.

Lemma pattern_parse_spec s options callback `{!EncodingCallbackOk callback} Q :
  valid_utf8 s → Z.of_nat (length (code_points s)) < 2 ^ 32 → options_ok options →
  (∀ s v, valid_utf8 s → s ≠ [] → callback s = Returned (Value v) → Q v) →
  ∃ r, parse s options callback = Returned r ∧ ∀ parts, r = Value parts → parts_ok parts ∧ fixed_texts Q parts.
Proof.
  intros Hs Hlen Ho HQ. unfold parse.
  destruct (segment_wildcard_returns options Ho) as [re ->]. cbn [mbind outcome_bind].
  destruct Hs as (cps & Hcps & ->). rewrite code_points_utf8_form in Hlen by (by apply is_scalar_range).
  rewrite Tokenizer.tokenize_spec by done. unfold Tokenizer.tokens_result.
  destruct (_ && _); [by eexists; split|]. unfold pattern_try at 1. cbn [mbind outcome_bind].
  pose proof (Tokenizer.reference_tokens_ok cps Hcps) as Htok.
  edestruct (pattern_loop_spec callback re Q HQ options
    (mk_pattern_parser (Tokenizer.reference_tokens cps) [] [] 0 0)) as [[m ->]|(p & -> & Hp)].
  - split_and!; cbn; eauto with ladybird; try lia; [|constructor]. split; constructor.
  - cbn. lia.
  - by eexists.
  - cbn. eexists. split; [done|]. intros parts [= <-]. apply Hp.
Qed.

(** C34: with an encoding callback that returns on UTF-8 text and answers an error or ASCII
    text, as the canonicalizers of all components do, the pattern parser returns on every
    pattern string of UTF-8 text with fewer than 2^32 code points: no token
    index leaves the token list, the assertion about suffixes holds and the loop
    ends.  The parts it returns are well-formed, and no two matching groups have
    the same name. *)
Theorem pattern_parse_wf (s : bytes) (options : Options) (callback : EncodingCallback)
    `{Hc : !EncodingCallbackOk callback} (Hs : valid_utf8 s)
    (Hlen : Z.of_nat (length (code_points s)) < 2 ^ 32) (Ho : options_ok options) :
  ∃ r, parse s options callback = Returned r
    ∧ ∀ parts, r = Value parts → Forall part_ok parts ∧ NoDup (name <$> filter is_group parts).
Proof.
  destruct (pattern_parse_spec s options callback (λ _, True)) as (r & -> & Hr); [done..|].
  exists r. split; [done|]. intros parts Hp. apply (Hr parts Hp).
Qed.

(** ** Escaped text *)

(** The tokens of escaped text: one per character, then the end. *)
Definition text_token (c : Z) (t : Token) : Prop :=
  (token_kind t = TokenType.Char ∨ token_kind t = TokenType.EscapedChar) ∧ value t = [c].

Lemma lex_one_plain c rest :
  contains_char pattern_special c = false → Tokenizer.lex_one c rest = (TokenType.Char, [c], 1%nat).
Proof.
  unfold contains_char, pattern_special. cbn [existsb]. intros Hc. unfold Tokenizer.lex_one.
  rewrite !orb_false_iff in Hc. destruct Hc as (? & ? & ? & ? & ? & ? & ? & ? & ? & _).
  bool_to_prop. by repeat (rewrite (proj2 (Z.eqb_neq _ _)) by done; cbn [orb]).
Qed.

Lemma lex_escaped fuel position s :
  (length (escape_chars pattern_special s) ≤ fuel)%nat → Forall (λ c, 0 ≤ c < 0x80) s →
  ∃ init e, Tokenizer.lex fuel position (escape_chars pattern_special s) = init ++ [e]
    ∧ token_kind e = TokenType.End ∧ Forall2 text_token s init.
Proof.
  intros Hfuel Hs. revert fuel position Hfuel. induction Hs as [|c s Hc Hs IH]; intros fuel position Hfuel.
  { exists [], (mk_token TokenType.End (Z.of_nat position) []). split_and!; [by destruct fuel|done|constructor]. }
  unfold escape_chars in *. cbn [flat_map] in *. rewrite length_app in Hfuel.
  destruct (contains_char pattern_special c) eqn:Ec; cbn [app length] in *; (destruct fuel as [|fuel]; [lia|]);
    cbn [Tokenizer.lex];
    assert (utf8_of [c] = [c]) as Hform by (cbn; unfold utf8_form; by rewrite (proj2 (Z.leb_le _ _)) by lia).
  - change (Tokenizer.lex_one c_backslash (c :: _)) with (TokenType.EscapedChar, [c], 2%nat).
    cbv beta match. rewrite Hform. cbn [drop]. rewrite drop_0.
    destruct (IH fuel (position + 2)%nat) as (init & e & -> & He & Hinit); [lia|].
    eexists (_ :: init), e. split_and!; [done|done|]. constructor; [|done]. split; [by right|done].
  - rewrite lex_one_plain by done. cbv beta match. rewrite Hform. cbn [drop]. rewrite drop_0.
    destruct (IH fuel (position + 1)%nat) as (init & e & -> & He & Hinit); [lia|].
    eexists (_ :: init), e. split_and!; [done|done|]. constructor; [|done]. split; [by left|done].
Qed.

Definition text_kinds : list TokenType.token_type := [TokenType.Char; TokenType.EscapedChar; TokenType.End].

Lemma consume_at p k t type :
  m_token_list p !! k = Some t →
  try_to_consume_a_token (with_index p k) type
  = Returned (if bool_decide (token_kind t = type) then (Some t, with_index p (S k)) else (None, with_index p k)).
Proof.
  intros Ht. unfold try_to_consume_a_token, with_index. cbn [m_token_list m_index].
  rewrite (proj2 (Nat.ltb_lt _ _)) by (by eapply lookup_lt_Some). cbn [verify].
  rewrite (at_index_lt _ _ _ Ht). cbn [mbind outcome_bind]. by destruct (bool_decide (token_kind t = type)).
Qed.

(** No matching group starts at a token of text. *)
Lemma consume_no_group p k t :
  m_token_list p !! k = Some t → token_kind t ∈ text_kinds →
  try_to_consume_a_token (with_index p k) TokenType.Name = Returned (None, with_index p k)
  ∧ try_to_consume_a_regexp_or_wildcard_token (with_index p k) None = Returned (None, with_index p k).
Proof.
  intros Ht Hk. unfold try_to_consume_a_regexp_or_wildcard_token, text_kinds in *.
  rewrite !(consume_at _ _ _ _ Ht).
  rewrite !bool_decide_eq_false_2 by (intros Heq; rewrite Heq in Hk; set_solver). cbn [mbind outcome_bind].
  rewrite (consume_at _ _ _ _ Ht). by rewrite bool_decide_eq_false_2 by (intros Heq; rewrite Heq in Hk; set_solver).
Qed.

Lemma parse_step_text callback re options p k t t' :
  m_token_list p !! k = Some t → m_token_list p !! S k = Some t' →
  (token_kind t = TokenType.Char ∨ token_kind t = TokenType.EscapedChar) → token_kind t' ∈ text_kinds →
  pattern_step callback re options (with_index p k)
  = Returned (Value (with_pending (with_index p (S k)) (m_pending_fixed_value p ++ value t))).
Proof.
  intros Ht Ht' Hk Hk'. unfold pattern_step. rewrite (consume_at _ _ _ _ Ht).
  destruct Hk as [Hk|Hk]; rewrite Hk; cbn [mbind outcome_bind].
  - rewrite bool_decide_eq_true_2 by done. cbn [mbind outcome_bind].
    destruct (consume_no_group p (S k) t' Ht' Hk') as [-> Hr]. cbn [mbind outcome_bind]. rewrite Hr. done.
  - rewrite bool_decide_eq_false_2 by done. cbn [mbind outcome_bind].
    destruct (consume_no_group p k t Ht) as [-> Hr]; [rewrite Hk; set_solver|]. cbn [mbind outcome_bind]. rewrite Hr.
    cbn [mbind outcome_bind]. rewrite (consume_at _ _ _ _ Ht), bool_decide_eq_true_2 by done. done.
Qed.

Lemma parse_step_end callback re options p k e :
  m_token_list p !! k = Some e → token_kind e = TokenType.End → m_index p = k →
  pattern_step callback re options p
  = (p ←? maybe_add_a_part_from_the_pending_fixed_value callback p; consume_a_required_token p TokenType.End).
Proof.
  intros He Hk <-. unfold pattern_step. pose proof (with_index_same p) as Hsame.
  assert (∀ type, type ≠ TokenType.End → try_to_consume_a_token p type = Returned (None, p)) as Hnone.
  { intros type Htype. pose proof (consume_at p _ _ type He) as Hc. rewrite Hsame in Hc. rewrite Hc.
    by rewrite bool_decide_eq_false_2 by congruence. }
  destruct (consume_no_group p _ _ He) as [_ Hr]; [rewrite Hk; set_solver|]. rewrite Hsame in Hr.
  rewrite Hnone by done. cbn [mbind outcome_bind]. rewrite Hnone by done. cbn [mbind outcome_bind].
  rewrite Hr. cbn [mbind outcome_bind]. rewrite Hnone by done. cbn [mbind outcome_bind]. by rewrite Hnone.
Qed.

(** At the end token the part of the pending text is made. *)
Lemma pattern_loop_end callback re options tokens init e pending fuel :
  tokens = init ++ [e] → token_kind e = TokenType.End → (1 < fuel)%nat → pending ≠ [] →
  (p ←? pattern_loop callback re fuel options (mk_pattern_parser tokens [] pending (length init) 0);
   Returned (Value (m_part_list p)))
  = (v ←? callback pending; Returned (Value [mk_simple_part PartType.FixedText v Modifier.None])).
Proof.
  intros Hl He Hfuel Hne. set (k := length init).
  assert (tokens !! k = Some e) as Hend by (rewrite Hl; by apply list_lookup_middle).
  pose proof (lookup_lt_Some _ _ _ Hend) as Hlt.
  destruct fuel as [|[|fuel]]; [lia..|]. cbn [pattern_loop m_index m_token_list].
  rewrite (proj2 (Nat.ltb_lt _ _)) by done. rewrite (parse_step_end _ _ _ _ k e) by done.
  unfold maybe_add_a_part_from_the_pending_fixed_value. cbn [m_pending_fixed_value].
  destruct pending as [|b pending]; [done|]. cbn [is_empty]. unfold pattern_try.
  destruct (callback (b :: pending)) as [[m|v]| |]; [done| |done|done].
  cbn [mbind outcome_bind]. unfold consume_a_required_token.
  set (p := append_part _ _). pose proof (consume_at p k e TokenType.End Hend) as Hc.
  assert (with_index p k = p) as Hsame by done. rewrite Hsame in Hc. rewrite Hc, bool_decide_eq_true_2 by done.
  cbn [mbind outcome_bind]. unfold with_index. cbn [m_index m_token_list].
  assert (length (m_token_list p) = S k) as Hlen by (unfold p; cbn; rewrite Hl, length_app; cbn; lia).
  rewrite (proj2 (Nat.ltb_ge _ _)) by lia. done.
Qed.

(** From a position in the text on, the rest of the text is collected; then the
    part is made and the end token consumed. *)
Lemma parse_loop_text callback re options tokens init e pending k s fuel :
  tokens = init ++ [e] → token_kind e = TokenType.End → Forall2 text_token s (drop k init) →
  (k ≤ length init)%nat → (length s + 1 < fuel)%nat → pending ++ s ≠ [] →
  (p ←? pattern_loop callback re fuel options (mk_pattern_parser tokens [] pending k 0);
   Returned (Value (m_part_list p)))
  = (v ←? callback (pending ++ s); Returned (Value [mk_simple_part PartType.FixedText v Modifier.None])).
Proof.
  intros Hl He. revert pending k fuel. induction s as [|c s IH]; intros pending k fuel Hs Hk Hfuel Hne.
  - apply Forall2_nil_inv_l in Hs. apply (f_equal length) in Hs. rewrite length_drop in Hs. cbn [length] in Hs.
    rewrite app_nil_r in *. replace k with (length init) by lia. apply (pattern_loop_end _ _ _ _ init e); (done || lia).
  - destruct (drop k init) as [|t rest] eqn:Ed; [by inversion Hs|].
    apply Forall2_cons in Hs as [[Hkind Hval] Hs].
    assert (init !! k = Some t) as Ht by (by rewrite <-(Nat.add_0_r k), <-lookup_drop, Ed).
    pose proof (lookup_lt_Some _ _ _ Ht) as Hlt.
    assert (drop (S k) init = rest) as Hrest by (rewrite (drop_S _ _ _ Ht) in Ed; by injection Ed).
    assert (∃ t', tokens !! S k = Some t' ∧ token_kind t' ∈ text_kinds) as (t' & Ht' & Hk').
    { destruct rest as [|t' rest].
      - apply (f_equal length) in Hrest. rewrite length_drop in Hrest. cbn in Hrest. exists e. split.
        + rewrite Hl, lookup_app_r by lia. by replace (S k - length init)%nat with O by lia.
        + rewrite He. set_solver.
      - assert (init !! S k = Some t') as Ht' by (by rewrite <-(Nat.add_0_r (S k)), <-lookup_drop, Hrest).
        exists t'. split; [rewrite Hl, lookup_app_l; [done|by eapply lookup_lt_Some]|].
        inversion Hs as [|? ? ? ? [Hkt _] _]; subst. unfold text_kinds. set_solver. }
    destruct fuel as [|fuel]; [cbn in Hfuel; lia|]. cbn [pattern_loop m_index m_token_list].
    rewrite (proj2 (Nat.ltb_lt _ _)) by (rewrite Hl, length_app; cbn; lia).
    assert (tokens !! k = Some t) as Htk by (by rewrite Hl, lookup_app_l).
    pose proof (parse_step_text callback re options (mk_pattern_parser tokens [] pending k 0) k t t' Htk Ht' Hkind Hk')
      as Hstep.
    unfold with_index, with_pending in Hstep. cbn [m_token_list m_part_list m_pending_fixed_value m_index m_next_numeric_name] in Hstep.
    rewrite Hstep. unfold pattern_try at 2. cbn [mbind outcome_bind]. rewrite Hval.
    rewrite (IH (pending ++ [c])); [by rewrite <-app_assoc|by rewrite Hrest|lia|cbn in Hfuel; lia|].
    rewrite <-app_assoc. by destruct pending.
Qed.

Lemma escape_bytes_range s : Forall (λ c, 0 ≤ c < 0x80) s → Forall (λ c, 0 ≤ c < 0x80) (escape_chars pattern_special s).
Proof.
  induction 1 as [|c s Hc _ IH]; [constructor|]. unfold escape_chars. cbn [flat_map]. apply Forall_app. split; [|done].
  destruct (contains_char pattern_special c); repeat constructor; lia.
Qed.

Lemma escape_length s : (length (escape_chars pattern_special s) ≤ 2 * length s)%nat.
Proof.
  induction s as [|c s IH]; [done|]. unfold escape_chars in *. cbn [flat_map]. rewrite length_app.
  destruct (contains_char pattern_special c); cbn [length]; lia.
Qed.

Lemma ascii_scalars s : Forall (λ c, 0 ≤ c < 0x80) s → Forall is_scalar s ∧ utf8_of s = s.
Proof.
  intros Hs. assert (forallb is_ascii s = true) as Ha.
  { apply forallb_Forall. eapply Forall_impl; [done|]. unfold is_ascii. intros c Hc. cbv beta in Hc. lia. }
  assert (Forall is_scalar s) as Hsc.
  { eapply Forall_impl; [done|]. intros c Hc. cbv beta in Hc. unfold is_scalar, is_unicode_surrogate. lia. }
  split; [done|by apply Tokenizer.utf8_of_ascii].
Qed.

Lemma parse_escaped s options callback :
  Forall (λ c, 0 ≤ c < 0x80) s → s ≠ [] → 2 * Z.of_nat (length s) < 2 ^ 32 → options_ok options →
  parse (escape_chars pattern_special s) options callback
  = (v ←? callback s; Returned (Value [mk_simple_part PartType.FixedText v Modifier.None])).
Proof.
  intros Hs Hne Hlen Ho. unfold parse. destruct (segment_wildcard_returns options Ho) as [re ->].
  cbn [mbind outcome_bind]. destruct (ascii_scalars _ (escape_bytes_range s Hs)) as [Hsc Hu].
  pose proof (escape_length s) as Hl. rewrite <-Hu at 1. rewrite Tokenizer.tokenize_spec by (done || lia).
  unfold Tokenizer.reference_tokens.
  destruct (lex_escaped (length (escape_chars pattern_special s)) 0 s) as (init & e & -> & He & Hinit); [done..|].
  assert (existsb Tokenizer.is_invalid (init ++ [e]) = false) as Hinv.
  { apply existsb_false_Forall, Forall_app. split.
    - eapply Forall2_Forall_r; [exact Hinit|]. apply Forall_true. intros c t [[Hk|Hk] _];
        unfold Tokenizer.is_invalid; by rewrite Hk.
    - constructor; [|constructor]. unfold Tokenizer.is_invalid. by rewrite He. }
  unfold Tokenizer.tokens_result. rewrite Hinv, andb_false_r. unfold pattern_try at 1. cbn [mbind outcome_bind].
  apply (parse_loop_text callback re options _ init e [] 0 s); try done; try lia.
  rewrite length_app, <-(Forall2_length _ _ _ Hinit). cbn [length]. lia.
Qed.

(** escaping a string protects it: the pattern string that
    [escape_a_pattern_string] writes for a non-empty ASCII string is parsed as one
    fixed text, whose value is the encoding of exactly that string. *)
Theorem pattern_escape_roundtrip (s : bytes) (options : Options) (callback : EncodingCallback)
    (Hs : Forall (λ c, 0 ≤ c < 0x80) s) (Hne : s ≠ []) (Hlen : 2 * Z.of_nat (length s) < 2 ^ 32)
    (Ho : options_ok options) :
  ∃ escaped, escape_a_pattern_string s = Returned escaped
    ∧ parse escaped options callback
      = (v ←? callback s; Returned (Value [mk_simple_part PartType.FixedText v Modifier.None])).
Proof.
  exists (escape_chars pattern_special s). split; [|by apply parse_escaped].
  unfold escape_a_pattern_string. rewrite ascii_view_spec. replace (forallb is_ascii s) with true; [done|].
  symmetry. apply forallb_Forall. eapply Forall_impl; [done|]. unfold is_ascii. intros c Hc. cbv beta in Hc. lia.
Qed.

End Parse.

(** ** Examples *)

(** A callback that accepts ASCII text as it is. *)
Definition ascii_callback : EncodingCallback := λ s,
  Returned (if forallb is_ascii s then Value s else ErrorInfo (sv "not ASCII")).

#[global] Instance ascii_callback_ok : EncodingCallbackOk ascii_callback.
Proof.
  split.
  - intros s _. by eexists.
  - intros s v _. unfold ascii_callback. destruct (forallb is_ascii s) eqn:Ea; [|done]. by intros [= <-].
Qed.

#[global] Instance ascii_callback_nonempty : EncodingCallbackNonempty ascii_callback.
Proof.
  split. intros s v _ Hne. unfold ascii_callback. destruct (forallb is_ascii s); [|done]. by intros [= <-].
Qed.

Lemma pathname_options_ok : options_ok options_pathname.
Proof. intros c [= <-]. lia. Qed.

(** A pattern with a fixed text, two named groups, one of them optional, and a wildcard. *)
Definition pattern_example : bytes := sv "/users/:id/:tab?*".

Lemma pattern_parse_wf_witness :
  ∃ parts, @parse simdutf_example Tokenizer.icu_properties_example pattern_example options_pathname ascii_callback
      = Returned (Value parts)
    ∧ (name <$> parts) = [[]; sv "id"; sv "tab"; sv "0"]
    ∧ Forall part_ok parts ∧ NoDup (name <$> filter is_group parts).
Proof.
  destruct (@pattern_parse_wf simdutf_example simdutf_example_ok Tokenizer.icu_properties_example
    pattern_example options_pathname ascii_callback ascii_callback_ok (ascii_valid_utf8 pattern_example (sv_bytes _) eq_refl)
    ltac:(vm_compute; reflexivity) pathname_options_ok) as (r & Hr & Hparts).
  assert (∃ parts, r = Value parts ∧ (name <$> parts) = [[]; sv "id"; sv "tab"; sv "0"]) as (parts & -> & Hn)
    by (vm_compute in Hr; injection Hr as <-; by eexists).
  exists parts. split; [exact Hr|]. split; [exact Hn|]. by apply Hparts.
Defined.

Lemma pattern_escape_roundtrip_witness :
  ∃ escaped, @escape_a_pattern_string simdutf_example (sv "a:b?") = Returned escaped
    ∧ @parse simdutf_example Tokenizer.icu_properties_example escaped options_pathname ascii_callback
      = Returned (Value [mk_simple_part PartType.FixedText (sv "a:b?") Modifier.None]).
Proof.
  refine (@pattern_escape_roundtrip simdutf_example simdutf_example_ok Tokenizer.icu_properties_example
    (sv "a:b?") options_pathname ascii_callback _ _ _ pathname_options_ok).
  - cbn. repeat (constructor; [lia|]). constructor.
  - discriminate.
  - vm_compute. reflexivity.
Defined.

End PatternParser.
