(* ===== verification/UrlPatternCanon.v ===== *)
(** * URL patterns: canonicalization

    LibURL/Pattern/Canonicalization.{h,cpp}: the encoding callbacks, which run
    the URL parser on a dummy URL.  Each of them meets what the pattern parser
    expects of a callback. *)
From S2P Require Import Prelude CharacterTypes Externals Utf8 StringView Utf8View Format PercentEncoding Ipv4 Ipv6 Host PublicSuffix TextCodec Origin Url UrlParser UrlWellFormed UrlSerializer UrlParserInvariant UrlParserSteps UrlParserCorrect UrlSetters UrlPatternTokenizer UrlPatternParts UrlPatternParser.
Import PatternParser (EncodingCallbackOk(..), EncodingCallbackNonempty(..)).

Section Model.
Context `{Simdutf} `{FastFloat} `{Icu} `{LegacyEncoders}.

Definition create_a_dummy_url : outcome URL :=
  '(parsed, _) ← basic_parse (sv "https://dummy.invalid/") None None None None; must parsed.

Definition canonicalize_a_protocol (value : bytes) : outcome (PatternErrorOr bytes) :=
  if is_empty value then Returned (Value value)
  else
    '(parse_result, _) ← basic_parse (value ++ sv "://dummy.invalid") None None None None;
    match parse_result with
    | None => Returned (ErrorInfo (sv "Failed to canonicalize URL protocol string"))
    | Some u => Returned (Value (scheme u))
    end.

Definition canonicalize_a_username (value : bytes) : outcome bytes :=
  if is_empty value then Returned value
  else dummy_url ← create_a_dummy_url; dummy_url ← set_username dummy_url value; Returned (username dummy_url).

Definition canonicalize_a_password (value : bytes) : outcome bytes :=
  if is_empty value then Returned value
  else dummy_url ← create_a_dummy_url; dummy_url ← set_password dummy_url value; Returned (password dummy_url).

Definition canonicalize_a_hostname (value : bytes) : outcome (PatternErrorOr bytes) :=
  if is_empty value then Returned (Value value)
  else
    dummy_url ← create_a_dummy_url;
    '(parse_result, dummy_url) ← basic_parse value None (Some dummy_url) (Some State.Hostname) None;
    match parse_result with
    | None => Returned (ErrorInfo (sv "Failed to canonicalize URL hostname string"))
    | Some _ =>
        match host dummy_url with
        | None => Returned (Value [])
        | Some h => s ← host_serialize h; Returned (Value s)
        end
    end.

(** The loop over the code points of an IPv6 hostname. *)
Fixpoint ipv6_hostname_loop (cps : list Z) (result : bytes) : PatternErrorOr bytes :=
  match cps with
  | [] => Value result
  | code_point :: cps =>
      if negb (is_ascii_hex_digit code_point) && negb (code_point =? c_lbracket)
         && negb (code_point =? c_rbracket) && negb (code_point =? c_colon)
      then ErrorInfo (sv "Failed to canonicalize IPv6 hostname string")
      else ipv6_hostname_loop cps (result ++ [to_ascii_lowercase code_point])
  end.

Definition canonicalize_an_ipv6_hostname (value : bytes) : outcome (PatternErrorOr bytes) :=
  Returned (ipv6_hostname_loop (code_points value) []).

Definition canonicalize_a_port (port_value : bytes) (protocol_value : option bytes)
    : outcome (PatternErrorOr bytes) :=
  if is_empty port_value then Returned (Value port_value)
  else
    dummy_url ← create_a_dummy_url;
    let dummy_url := match protocol_value with Some s => with_scheme dummy_url s | None => dummy_url end in
    '(parse_result, dummy_url) ← basic_parse port_value None (Some dummy_url) (Some State.Port) None;
    match parse_result with
    | None => Returned (ErrorInfo (sv "Failed to canonicalize port string"))
    | Some _ =>
        match port dummy_url with
        | None => Returned (Value [])
        | Some p => s ← format_decimal p; Returned (Value s)
        end
    end.

Definition canonicalize_a_pathname (value : bytes) : outcome bytes :=
  if is_empty value then Returned value
  else
    first ← at_index value 0;
    let leading_slash := first =? c_slash in
    let modified_value := (if leading_slash then [] else sv "/-") ++ value in
    dummy_url ← create_a_dummy_url;
    dummy_url ← set_paths dummy_url [];
    '(_, dummy_url) ← basic_parse modified_value None (Some dummy_url) (Some State.PathStart) None;
    result ← serialize_path dummy_url;
    if leading_slash then Returned result
    else
      view ← unicode_substring_view_from result 2;
      string ← from_utf8 view;
      must string.

Definition canonicalize_an_opaque_pathname (value : bytes) : outcome (PatternErrorOr bytes) :=
  if is_empty value then Returned (Value value)
  else
    dummy_url ← create_a_dummy_url;
    dummy_url ← set_paths dummy_url [[]];
    let dummy_url := with_opaque_path dummy_url true in
    '(parse_result, dummy_url) ← basic_parse value None (Some dummy_url) (Some State.OpaquePath) None;
    match parse_result with
    | None => Returned (ErrorInfo (sv "Failed to canonicalize opaque pathname string"))
    | Some _ => path ← serialize_path dummy_url; Returned (Value path)
    end.

Definition canonicalize_a_search (value : bytes) : outcome bytes :=
  if is_empty value then Returned value
  else
    dummy_url ← create_a_dummy_url;
    let dummy_url := with_query dummy_url (Some []) in
    '(_, dummy_url) ← basic_parse value None (Some dummy_url) (Some State.Query) None;
    must (query dummy_url).

Definition canonicalize_a_hash (value : bytes) : outcome bytes :=
  if is_empty value then Returned value
  else
    dummy_url ← create_a_dummy_url;
    let dummy_url := with_fragment dummy_url (Some []) in
    '(_, dummy_url) ← basic_parse value None (Some dummy_url) (Some State.Fragment) None;
    must (fragment dummy_url).

(** The conversion of a [Function<String(...)>] to an encoding callback. *)
Definition infallible (f : bytes → outcome bytes) : EncodingCallback := λ s, v ← f s; Returned (Value v).

End Model.

(** ** Running the URL parser on a concrete input

    [parse_loop], one run of the switch at a time: the parser to go on with, or
    the result. *)
Section Run.
Context `{Simdutf} `{FastFloat} `{Icu} `{LegacyEncoders}.
Context (input : bytes) (base_url : option URL) (state_override : option State.t).

Definition loop_step (p : parser) : outcome (parser + bool * URL) :=
  c ← current_code_point input p;
  result ← run_state input base_url state_override p c;
  match result with
  | Continue p => Returned (inl p)
  | Break p =>
      if iterator_done input (iterator p) then Returned (inr (true, url p))
      else it ← increment input (iterator p); Returned (inl (with_iterator p it))
  | ReturnUrl u => Returned (inr (true, u))
  | ReturnFailure u => Returned (inr (false, u))
  end.

Fixpoint loop_steps (n : nat) (p : parser) : outcome (parser + bool * URL) :=
  match n with
  | O => Returned (inl p)
  | S n => r ← loop_step p; match r with inl p => loop_steps n p | inr r => Returned (inr r) end
  end.

Lemma parse_loop_steps n fuel p :
  parse_loop input base_url state_override (n + fuel) p
  = (r ← loop_steps n p;
     match r with inl p => parse_loop input base_url state_override fuel p | inr r => Returned r end).
Proof.
  revert p. induction n as [|n IH]; intros p; [done|]. cbn [Nat.add parse_loop loop_steps]. unfold loop_step.
  destruct (current_code_point input p) as [c| |]; [|done..]. cbn [mbind outcome_bind].
  destruct (run_state input base_url state_override p c) as [r| |]; [|done..]. cbn [mbind outcome_bind].
  destruct r as [q|q|u|u]; cbn [mbind outcome_bind]; [| |done|done].
  - destruct (iterator_done input (iterator q)); [done|].
    destruct (increment input (iterator q)) as [it| |]; [|done..]. cbn [mbind outcome_bind]. apply IH.
  - apply IH.
Qed.

End Run.

(** ** The dummy URL *)
Definition dummy : URL :=
  Eval compute in mk_url (sv "https") [] [] (Some (HostString (sv "dummy.invalid"))) None [[]] None None false None.

Section Dummy.
Context `{SimdutfOk} `{FastFloatOk} `{Icu} `{LegacyEncoders}.

Lemma parse_host_dummy : parse_host (sv "dummy.invalid") false = Returned (Some (HostString (sv "dummy.invalid"))).
Proof.
  rewrite parse_host_domain; [done|done|cbn; repeat (constructor; [unfold ascii_byte; lia|]); constructor
    |cbn; repeat (constructor; [done|]); constructor|cbn; repeat (constructor; [done|]); constructor|done].
Qed.

Lemma process_input_ascii s url_given :
  valid_utf8 s → forallb is_ascii s = true → contains_ascii_tab_or_newline s = false →
  skip_leading (S (length s)) s 0 = Returned 0%nat →
  skip_trailing (S (length s)) s 0 (length s) = Returned (length s) →
  process_input s url_given = Returned s.
Proof.
  intros Hv Ha Ht Hl Hr. unfold process_input. rewrite Hl. cbn [mbind outcome_bind]. rewrite Hr. cbn [mbind outcome_bind].
  destruct url_given; cbn [mbind outcome_bind]; rewrite size_sub_le by lia; cbn [mbind outcome_bind];
    rewrite Nat.sub_0_r, substring_view_in_range by lia; cbn [mbind outcome_bind];
    rewrite drop_0, take_ge by lia; rewrite from_utf8_with_replacement_character_id by done;
    cbn [mbind outcome_bind]; by rewrite Ht.
Qed.

(** The parser at the slash that ends the host, and after the host is parsed. *)
Definition dummy_parser (state : State.t) (buffer : bytes) (h : option Host) (e : Encoder) : parser :=
  mk_parser state 21 buffer false false false [] [] (with_host (with_scheme new_url (sv "https")) h) e.

Lemma dummy_host_step e :
  loop_step (sv "https://dummy.invalid/") None None (dummy_parser State.Host (sv "dummy.invalid") None e)
  = Returned (inl (dummy_parser State.Port [] (Some (HostString (sv "dummy.invalid"))) e)).
Proof.
  set (p := dummy_parser State.Host (sv "dummy.invalid") None e). unfold loop_step.
  assert (current_code_point (sv "https://dummy.invalid/") p = Returned c_slash) as -> by (vm_compute; reflexivity).
  cbn [mbind outcome_bind].
  assert (run_state (sv "https://dummy.invalid/") None None p c_slash
    = (host ← parse_host (sv "dummy.invalid") false;
       match host with
       | None => Returned (ReturnFailure (url p))
       | Some host => Returned (Continue (dummy_parser State.Port [] (Some host) e))
       end)) as -> by reflexivity.
  by rewrite parse_host_dummy.
Qed.

Lemma dummy_parse_loop e :
  parse_loop (sv "https://dummy.invalid/") None None (22 + (1 + (5 + 356)))
    (mk_parser State.SchemeStart 0 [] false false false [] [] new_url e) = Returned (true, dummy).
Proof.
  rewrite parse_loop_steps.
  assert (loop_steps (sv "https://dummy.invalid/") None None 22
    (mk_parser State.SchemeStart 0 [] false false false [] [] new_url e)
    = Returned (inl (dummy_parser State.Host (sv "dummy.invalid") None e))) as -> by (vm_compute; reflexivity).
  rewrite bind_value, parse_loop_steps. cbn [loop_steps]. rewrite dummy_host_step, !bind_value, parse_loop_steps.
  assert (loop_steps (sv "https://dummy.invalid/") None None 5
    (dummy_parser State.Port [] (Some (HostString (sv "dummy.invalid"))) e)
    = Returned (inr (true, dummy))) as -> by (vm_compute; reflexivity).
  by rewrite bind_value.
Qed.

Lemma create_a_dummy_url_returns : create_a_dummy_url = Returned dummy.
Proof.
  unfold create_a_dummy_url, basic_parse.
  rewrite process_input_ascii; [|apply ascii_valid_utf8; [apply sv_bytes|done]|vm_compute; reflexivity..].
  rewrite bind_value. destruct (select_encoder_returns None) as (e & ->). rewrite bind_value. cbv zeta.
  assert (parse_fuel (sv "https://dummy.invalid/") = (22 + (1 + (5 + 356)))%nat) as -> by (vm_compute; reflexivity).
  unfold default. rewrite dummy_parse_loop. done.
Qed.

End Dummy.

(** ** Opaque paths

    The dummy URL with an opaque path is not a URL the parser makes (its scheme is
    special), so the run from the opaque path state has an invariant of its own. *)
Section OpaquePath.
Context `{SimdutfOk} `{FastFloatOk} `{Icu} `{!IcuOk} `{LegacyEncodersOk}.
Context (input : bytes) (Hinput : valid_utf8 input).

Definition opaque_ended (u : URL) : Prop :=
  has_an_opaque_path u = true ∧ ∃ s, paths u = [s] ∧ Forall printable s.

Definition opaque_run (p : parser) : Prop :=
  (state p = State.OpaquePath ∧ has_an_opaque_path (url p) = true ∧ paths (url p) = [[]]
   ∧ Forall (encoded_byte C0Control) (buffer p))
  ∨ ((state p = State.Query ∨ state p = State.Fragment) ∧ opaque_ended (url p) ∧ Forall is_byte (buffer p)).

(** Every run of the switch ends in [break]. *)
Lemma opaque_step p c :
  opaque_run p → code_point_at input (iterator p) c →
  ∃ p', run_state input None (Some State.OpaquePath) p c = Returned (Break p')
    ∧ iterator p' = iterator p ∧ (if c =? end_of_file then opaque_ended (url p') else opaque_run p').
Proof.
  intros [(Hst & Ho & Hp & Hb)|(Hst & Hu & Hb)] Hc; unfold run_state.
  - assert (opaque_ended (with_paths (url p) [buffer p])) as Hend.
    { split; [done|]. exists (buffer p). split; [done|by eapply encoded_printable]. }
    rewrite Hst. unfold opaque_path_state. cbv zeta. rewrite Hp, verify_true by done.
    destruct (Z.eqb_spec c c_question) as [->|Hnq].
    { eexists. split_and!; [done|done|]. right. split_and!; [by left|done|constructor]. }
    destruct (Z.eqb_spec c c_hash) as [->|Hnh].
    { eexists. split_and!; [done|done|]. right. split_and!; [by right|done|constructor]. }
    destruct (Z.eqb_spec c c_space) as [->|Hns].
    { rewrite (get_remaining_ascii input Hinput p c_space) by (done || by apply (code_point_at_ascii _ _ _ Hc)).
      cbn [mbind outcome_bind]. eexists. split_and!; [done|done|]. left. split_and!; [done..|].
      destruct (_ || _); apply Forall_app; (split; [done|]);
        cbn; repeat (constructor; [split; [lia|by (left + right)]|]); constructor. }
    destruct (Z.eqb_spec c end_of_file) as [->|Hne]; cbn [negb].
    { eexists. by split_and!. }
    rewrite append_if_necessary_encode by (by eapply code_point_at_range). cbn [mbind outcome_bind].
    eexists. split_and!; [done|done|]. left. split_and!; [done..|]. apply Forall_app. split; [done|].
    apply encode_code_point_encoded. by eapply code_point_at_range.
  - assert (c ≠ end_of_file → Forall is_byte (append_code_point (buffer p) c)) as Hnext.
    { intros Hne. apply append_code_point_bytes; [done|by eapply code_point_at_range]. }
    destruct Hst as [Hst|Hst]; rewrite Hst.
    + unfold query_state. cbv zeta.
      match goal with |- context [mbind _ ?m] => assert (∃ e, m = Returned e) as (e & ->) end.
      { destruct (_ || _); [rewrite encoder_for_utf8|]; by eexists. }
      cbn [mbind outcome_bind]. change (overridden (Some State.OpaquePath)) with true. cbn [negb andb orb].
      destruct (Z.eqb_spec c end_of_file) as [->|Hne].
      * destruct (percent_encode_after_encoding_encoded e (buffer p) (query_set (is_special (url p))) Hb)
          as (q & Hq & _). unfold query_set in Hq. cbn [buffer with_encoder]. rewrite Hq. cbn [mbind outcome_bind].
        eexists. by split_and!.
      * eexists. split_and!; [done|done|]. right. split_and!; [by left|done|by apply Hnext].
    + unfold fragment_state. destruct (Z.eqb_spec c end_of_file) as [->|Hne]; cbn [negb].
      * rewrite encoder_for_utf8. cbn [must mbind outcome_bind].
        destruct (percent_encode_after_encoding_encoded s_utf8_encoder (buffer p) Fragment Hb) as (f & -> & _).
        cbn [mbind outcome_bind]. eexists. by split_and!.
      * eexists. split_and!; [done|done|]. right. split_and!; [by right|done|by apply Hnext].
Qed.

Lemma opaque_loop fuel : ∀ p,
  opaque_run p → (iterator p ≤ length input)%nat → (length input - iterator p < fuel)%nat →
  ∃ u, parse_loop input None (Some State.OpaquePath) fuel p = Returned (true, u) ∧ opaque_ended u.
Proof.
  induction fuel as [|fuel IH]; intros p Hp Hit Hfuel; [lia|]. cbn [parse_loop].
  destruct (current_code_point_spec _ Hinput p Hit) as (c & -> & Hc). cbn [mbind outcome_bind].
  destruct (opaque_step p c Hp Hc) as (p' & -> & Hit' & Hp'). cbn [mbind outcome_bind]. rewrite Hit'.
  destruct (Z.eqb_spec c end_of_file) as [->|Hne].
  - apply code_point_at_eof in Hc. rewrite iterator_done_spec, bool_decide_eq_true_2 by lia. by eexists.
  - pose proof (code_point_at_lt _ _ _ Hc Hne) as Hlt. rewrite iterator_not_done by done.
    destruct (increment_spec input (iterator p) Hlt) as [-> Hs]. cbn [mbind outcome_bind].
    apply IH; [|cbn; lia|cbn; lia]. exact Hp'.
Qed.

End OpaquePath.

(** ** The canonicalizers as encoding callbacks *)
Lemma printable_ascii s : Forall printable s → forallb is_ascii s = true ∧ Forall is_byte s.
Proof.
  intros Hs. split; [apply forallb_Forall|]; (eapply Forall_impl; [done|]); unfold printable, is_ascii, is_byte;
    intros c Hc; cbv beta in Hc; lia.
Qed.

Lemma dummy_wf : url_wf dummy.
Proof.
  assert (host_wf false (HostString (sv "dummy.invalid"))) as Hh.
  { split_and!; [done|cbn; repeat (constructor; [unfold ascii_byte; lia|]); constructor
      |cbn; repeat (constructor; [done|]); constructor|done]. }
  split; [|done]. constructor; try done; try constructor.
  - done.
  - cbn. repeat (constructor; [done|]). constructor.
  - exact Hh.
  - by apply segment_ok_nil.
  - constructor.
Qed.

Section Callbacks.
Context `{SimdutfOk} `{FastFloatOk} `{Icu} `{!IcuOk} `{LegacyEncodersOk}.

(** A canonicalizer returns on well-formed text, and what it makes is printable
    ASCII: it meets what the pattern parser expects. *)
Class Canonicalizer (f : EncodingCallback) : Prop :=
  canonicalizes : ∀ s, valid_utf8 s → ∃ r, f s = Returned r ∧ ∀ v, r = Value v → Forall printable v.

#[global] Instance canonicalizer_callback f : Canonicalizer f → EncodingCallbackOk f.
Proof.
  intros Hf. split; intros s.
  - intros Hs. destruct (Hf s Hs) as (r & -> & _). by eexists.
  - intros v Hs. destruct (Hf s Hs) as (r & -> & Hr). intros [= ->]. by apply printable_ascii, Hr.
Qed.

(** A canonicalizer that cannot fail, by what it returns. *)
Lemma infallible_ok f :
  (∀ s, valid_utf8 s → ∃ v, f s = Returned v ∧ Forall printable v) → Canonicalizer (infallible f).
Proof.
  intros Hf s Hs. unfold infallible. destruct (Hf s Hs) as (v & -> & Hv). eexists. split; [done|]. by intros w [= <-].
Qed.

(** One that can fail. *)
Lemma fallible_ok (f : EncodingCallback) :
  (∀ s, valid_utf8 s → (∃ m, f s = Returned (ErrorInfo m)) ∨ ∃ v, f s = Returned (Value v) ∧ Forall printable v) →
  Canonicalizer f.
Proof.
  intros Hf s Hs. destruct (Hf s Hs) as [[m ->]|(v & -> & Hv)]; (eexists; split; [done|]); [done|]. by intros w [= <-].
Qed.

#[global] Instance canonicalize_a_protocol_ok : Canonicalizer canonicalize_a_protocol.
Proof.
  apply fallible_ok. intros s Hs. unfold canonicalize_a_protocol.
  destruct s as [|b s]; [right; by eexists|]. cbn [is_empty].
  destruct (basic_parse_returns ((b :: s) ++ sv "://dummy.invalid") None None) as (r & u & -> & Hr); [|done|].
  { apply Forall_app. split; [by apply valid_utf8_bytes|apply sv_bytes]. }
  cbn [mbind outcome_bind]. destruct r as [v|]; [|left; by eexists].
  right. eexists. split; [done|]. apply scheme_printable, (Hr v eq_refl).
Qed.

#[global] Instance canonicalize_a_username_ok : Canonicalizer (infallible canonicalize_a_username).
Proof.
  apply infallible_ok. intros s Hs. unfold canonicalize_a_username.
  destruct s as [|b s]; [by eexists|]. cbn [is_empty]. rewrite create_a_dummy_url_returns. cbn [mbind outcome_bind].
  unfold set_username. destruct (percent_encode_returns (b :: s) Userinfo) as (n & -> & Hn); [by apply valid_utf8_bytes|].
  eexists. split; [done|]. by eapply encoded_printable.
Qed.

#[global] Instance canonicalize_a_password_ok : Canonicalizer (infallible canonicalize_a_password).
Proof.
  apply infallible_ok. intros s Hs. unfold canonicalize_a_password.
  destruct s as [|b s]; [by eexists|]. cbn [is_empty]. rewrite create_a_dummy_url_returns. cbn [mbind outcome_bind].
  unfold set_password. destruct (percent_encode_returns (b :: s) Userinfo) as (n & -> & Hn); [by apply valid_utf8_bytes|].
  eexists. split; [done|]. by eapply encoded_printable.
Qed.

#[global] Instance canonicalize_a_hostname_ok : Canonicalizer canonicalize_a_hostname.
Proof.
  apply fallible_ok. intros s Hs. unfold canonicalize_a_hostname.
  destruct s as [|b s]; [right; by eexists|]. cbn [is_empty]. rewrite create_a_dummy_url_returns, bind_value.
  destruct (basic_parse_override (b :: s) dummy State.Hostname) as (r & v & -> & Hv & _);
    [by apply valid_utf8_bytes|by split; [apply dummy_wf|]|].
  cbn [mbind outcome_bind]. destruct r as [w|]; [right|left; by eexists].
  pose proof (core_host _ (proj1 Hv)) as Hh. destruct (host v) as [h|]; [|by eexists].
  destruct (host_serialize_returns _ _ Hh) as (out & -> & Hout). by eexists.
Qed.

Lemma ipv6_hostname_loop_spec cps result v :
  ipv6_hostname_loop cps result = Value v → Forall printable result → Forall printable v.
Proof.
  revert result. induction cps as [|c cps IH]; intros result; cbn [ipv6_hostname_loop]; [by intros [= <-]|].
  destruct (_ && _) eqn:E; [done|]. intros Hv Hr. eapply IH; [exact Hv|]. apply Forall_app. split; [done|].
  apply Forall_singleton. unfold printable, to_ascii_lowercase. unfold_ctypes. case_match; bool_to_prop; lia.
Qed.

#[global] Instance canonicalize_an_ipv6_hostname_ok : Canonicalizer canonicalize_an_ipv6_hostname.
Proof.
  apply fallible_ok. intros s _. unfold canonicalize_an_ipv6_hostname.
  destruct (ipv6_hostname_loop (code_points s) []) as [m|v] eqn:E; [left; by eexists|right].
  eexists. split; [done|]. by eapply ipv6_hostname_loop_spec.
Qed.

(** The run from the port state, whatever the scheme of the URL. *)
Definition port_in_range (u : URL) : Prop := match port u with Some n => 0 ≤ n < 2 ^ 16 | None => True end.

Lemma port_loop input fuel : ∀ p,
  valid_utf8 input → state p = State.Port → port_in_range (url p) →
  (iterator p ≤ length input)%nat → (length input - iterator p < fuel)%nat →
  ∃ b v, parse_loop input None (Some State.Port) fuel p = Returned (b, v) ∧ port_in_range v.
Proof.
  induction fuel as [|fuel IH]; intros p Hin Hst Hp Hit Hfuel; [lia|]. cbn [parse_loop].
  destruct (current_code_point_spec _ Hin p Hit) as (c & -> & Hc). rewrite bind_value.
  unfold run_state. rewrite Hst. unfold port_state. rewrite bind_value.
  destruct (is_ascii_digit c) eqn:Ed.
  - assert (c ≠ end_of_file) as Hne by (intros ->; by vm_compute in Ed).
    pose proof (code_point_at_lt _ _ _ Hc Hne) as Hlt. cbn [iterator with_buffer]. rewrite iterator_not_done by done.
    destruct (increment_spec input (iterator p) Hlt) as [-> Hs]. rewrite bind_value. apply IH; try done; cbn; lia.
  - cbn [overridden is_Some]. change (overridden (Some State.Port)) with true. rewrite orb_true_r.
    destruct (bool_decide (buffer p = [])); cbn [negb]; [by eexists _, _|].
    destruct (parse_number 0xFFFF 10 (buffer p)) as [n|] eqn:En; [|by eexists _, _].
    apply parse_number_range in En; [|lia]. eexists _, _. split; [done|].
    destruct (bool_decide _); cbn; [done|lia].
Qed.

Lemma canonicalize_a_port_cases s protocol :
  valid_utf8 s →
  (∃ m, canonicalize_a_port s protocol = Returned (ErrorInfo m))
  ∨ ∃ v, canonicalize_a_port s protocol = Returned (Value v) ∧ Forall printable v.
Proof.
  intros Hs. unfold canonicalize_a_port.
  destruct s as [|b s]; [right; by eexists|]. cbn [is_empty]. rewrite create_a_dummy_url_returns, bind_value. cbv zeta.
  set (u := match protocol with Some _ => _ | None => _ end). assert (port u = None) as Hu by (by destruct protocol).
  unfold basic_parse. destruct (process_input_returns (b :: s) true (valid_utf8_bytes _ Hs)) as (input & -> & Hinput).
  rewrite bind_value. destruct (select_encoder_returns None) as (e & ->). rewrite bind_value. cbv zeta. unfold from_option, id.
  destruct (port_loop input (parse_fuel input) (mk_parser State.Port 0 [] false false false [] [] u e))
    as (ok & v & -> & Hv); [done|done| |cbn; lia|unfold parse_fuel; cbn [iterator]; lia|].
  { unfold port_in_range. cbn [url]. by rewrite Hu. }
  rewrite bind_value. destruct ok; [right|left; by eexists]. rewrite bind_value. unfold port_in_range in Hv.
  destruct (port v) as [n|]; [|by eexists].
  destruct (format_decimal_printed n) as (digits & -> & Hd); [lia|]. eexists. split; [done|]. by eapply printed_printable.
Qed.

#[global] Instance canonicalize_a_port_ok protocol : Canonicalizer (λ value, canonicalize_a_port value protocol).
Proof. apply fallible_ok. intros s. apply canonicalize_a_port_cases. Qed.

Lemma dummy_special_path v : masked State.PathStart v = masked State.PathStart (with_paths dummy []) → is_special v = true.
Proof. intros Hm. unfold is_special. by rewrite (f_equal scheme Hm : scheme v = scheme dummy). Qed.

#[global] Instance canonicalize_a_pathname_ok : Canonicalizer (infallible canonicalize_a_pathname).
Proof.
  apply infallible_ok. intros s Hs. unfold canonicalize_a_pathname.
  destruct s as [|b s]; [by eexists|]. cbn [is_empty]. cbv zeta. cbn [at_index lookup list_lookup must]. rewrite bind_value.
  rewrite create_a_dummy_url_returns, bind_value. unfold set_paths. cbn [percent_encode_all]. rewrite !bind_value.
  set (m := (if b =? c_slash then [] else sv "/-") ++ b :: s).
  assert (Forall is_byte m) as Hm.
  { apply Forall_app. split; [destruct (b =? c_slash); [constructor|apply sv_bytes]|by apply valid_utf8_bytes]. }
  destruct (basic_parse_override m (with_paths dummy []) State.PathStart) as (r & v & Hp & Hv & _); [done| |].
  { destruct dummy_wf as [[] _]. split; [|done]. split; [|done]. constructor; try done. constructor. }
  rewrite Hp. cbn [mbind outcome_bind].
  destruct (serialize_path_returns v (proj1 Hv)) as (out & Hout & Hpr). rewrite Hout. cbn [mbind outcome_bind].
  destruct (b =? c_slash); [by eexists|].
  assert (out ≠ []) as Hne.
  { apply basic_parse_frame in Hp; [|done]. apply dummy_special_path in Hp as Hsp.
    assert (has_an_opaque_path v = false) as Ho.
    { destruct (has_an_opaque_path v) eqn:Eo; [|done]. pose proof (core_path _ (proj1 Hv)) as Hc. rewrite Eo in Hc.
      destruct Hc as [Hc _]. congruence. }
    unfold serialize_path in Hout. rewrite Ho in Hout. injection Hout as <-.
    destruct (paths v) eqn:Ep; [|done]. destruct Hv as [_ Hv]. destruct (Hv Ep). congruence. }
  destruct (printable_ascii out Hpr) as [Ha Hb].
  destruct (unicode_substring_view_from_ascii printable out 2 Hpr Hb Ha Hne) as (view & -> & Hview).
  cbn [mbind outcome_bind]. destruct (printable_ascii view Hview) as [Ha' _]. rewrite from_utf8_ascii by done.
  by eexists.
Qed.

#[global] Instance canonicalize_an_opaque_pathname_ok : Canonicalizer canonicalize_an_opaque_pathname.
Proof.
  apply fallible_ok. intros s Hs. unfold canonicalize_an_opaque_pathname.
  destruct s as [|b s]; [right; by eexists|]. cbn [is_empty]. rewrite create_a_dummy_url_returns, bind_value.
  assert (set_paths dummy [[]] = Returned dummy) as ->.
  { unfold set_paths. cbn [percent_encode_all]. by rewrite percent_encode_spec by constructor. }
  rewrite bind_value. cbv zeta. unfold basic_parse.
  destruct (process_input_returns (b :: s) true (valid_utf8_bytes _ Hs)) as (input & -> & Hinput). rewrite bind_value.
  destruct (select_encoder_returns None) as (e & ->). rewrite bind_value. cbv zeta. unfold from_option, id.
  destruct (opaque_loop input Hinput (parse_fuel input)
    (mk_parser State.OpaquePath 0 [] false false false [] [] (with_opaque_path dummy true) e)) as (u & -> & Ho & p & Hp & Hpr).
  { left. by split_and!. } { cbn. lia. } { unfold parse_fuel. cbn [iterator]. lia. }
  cbn [mbind outcome_bind]. right. unfold serialize_path. rewrite Ho, Hp. by eexists.
Qed.

(** The runs from the query and the fragment state keep that component. *)
Definition tail_present (start : State.t) (u : URL) : Prop :=
  match start with State.Query => is_Some (query u) | State.Fragment => is_Some (fragment u) | _ => False end.

Lemma kept_tail_step input start p c r :
  state p = start → tail_present start (url p) → run_state input None (Some start) p c = Returned r →
  ∃ p', r = Break p' ∧ state p' = start ∧ tail_present start (url p').
Proof.
  intros Hst Hp. unfold run_state. rewrite Hst. destruct start; try done.
  - unfold query_state. cbv zeta. intros (e & _ & Hr)%bind_returned.
    change (overridden (Some State.Query)) with true in Hr. cbn [negb andb orb] in Hr.
    destruct (Z.eqb_spec c end_of_file) as [->|_].
    + apply bind_returned in Hr as (q & _ & [= <-]). eexists. split_and!; [done|done|by eexists].
    + injection Hr as <-. by eexists.
  - unfold fragment_state. destruct (negb (c =? end_of_file)); [intros [= <-]; by eexists|].
    intros (e & _ & Hr)%bind_returned. apply bind_returned in Hr as (f & _ & [= <-]).
    eexists. split_and!; [done|done|by eexists].
Qed.

Lemma tail_loop input start fuel : ∀ p b v,
  state p = start → tail_present start (url p) →
  parse_loop input None (Some start) fuel p = Returned (b, v) → tail_present start v.
Proof.
  induction fuel as [|fuel IH]; intros p b v Hst Hp; [done|]. cbn [parse_loop].
  intros (c & _ & Hl)%bind_returned. apply bind_returned in Hl as (r & Hr & Hl).
  apply kept_tail_step in Hr as (p' & -> & Hst' & Hp'); [|done..].
  destruct (iterator_done input (iterator p')); [by simplify_eq|].
  apply bind_returned in Hl as (it & _ & Hl). by eapply IH in Hl.
Qed.

Lemma tail_parse raw u start r v :
  tail_present start u → basic_parse raw None (Some u) (Some start) None = Returned (r, v) → tail_present start v.
Proof.
  intros Hu. unfold basic_parse. intros (input & _ & Hp)%bind_returned.
  apply bind_returned in Hp as (e & _ & Hp). cbv zeta in Hp.
  apply bind_returned in Hp as ([b w] & Hl & Hp). apply tail_loop in Hl; [|done..]. by simplify_eq.
Qed.

#[global] Instance canonicalize_a_search_ok : Canonicalizer (infallible canonicalize_a_search).
Proof.
  apply infallible_ok. intros s Hs. unfold canonicalize_a_search.
  destruct s as [|b s]; [by eexists|]. cbn [is_empty]. rewrite create_a_dummy_url_returns, bind_value. cbv zeta.
  destruct (basic_parse_override (b :: s) (with_query dummy (Some [])) State.Query) as (r & v & Hp & Hv & _);
    [by apply valid_utf8_bytes|apply url_wf_query; [apply dummy_wf|constructor]|].
  rewrite Hp, bind_value. apply tail_parse in Hp as [q Hq]; [|by eexists]. rewrite Hq. eexists. split; [done|].
  pose proof (core_query _ (proj1 Hv)) as Hc. rewrite Hq in Hc. by eapply encoded_printable.
Qed.

#[global] Instance canonicalize_a_hash_ok : Canonicalizer (infallible canonicalize_a_hash).
Proof.
  apply infallible_ok. intros s Hs. unfold canonicalize_a_hash.
  destruct s as [|b s]; [by eexists|]. cbn [is_empty]. rewrite create_a_dummy_url_returns, bind_value. cbv zeta.
  destruct (basic_parse_override (b :: s) (with_fragment dummy (Some [])) State.Fragment) as (r & v & Hp & Hv & _);
    [by apply valid_utf8_bytes|apply url_wf_fragment; [apply dummy_wf|constructor]|].
  rewrite Hp, bind_value. apply tail_parse in Hp as [q Hq]; [|by eexists]. rewrite Hq. eexists. split; [done|].
  pose proof (core_fragment _ (proj1 Hv)) as Hc. rewrite Hq in Hc. by eapply encoded_printable.
Qed.

(** *** Callbacks that encode no text to the empty string *)
Lemma code_points_nonempty s : s ≠ [] → Forall is_byte s → code_points s ≠ [].
Proof.
  intros Hs Hb. destruct (iterator_deref_returns s Hs) as [c Hc]. by rewrite (code_points_unfold s c).
Qed.

Lemma percent_encode_nonempty s set v :
  valid_utf8 s → s ≠ [] → percent_encode s set SpaceAsPlusNo = Returned v → v ≠ [].
Proof.
  intros Hs%valid_utf8_bytes Hne. rewrite percent_encode_spec by done. intros [= <-].
  pose proof (code_points_nonempty s Hne Hs) as Hc. pose proof (code_points_range s Hs) as Hr.
  destruct Hr as [|c cps Hr _]; [done|]. cbn [flat_map]. by intros [?%encode_code_point_nonempty _]%app_nil.
Qed.

Lemma host_serialize_nonempty h v : host_wf false h → host_serialize h = Returned v → v ≠ [].
Proof.
  destruct h as [address|m_data|d]; cbn [host_wf host_serialize].
  - intros [_ Ha]. destruct (ipv4_parse_serialized address Ha) as (out & -> & Hout & _). intros [= <-] ->.
    by vm_compute in Hout.
  - intros _ (out & _ & [= <-])%bind_returned. by destruct out.
  - intros [Hd _]. by intros [= <-].
Qed.

#[global] Instance canonicalize_a_protocol_nonempty : EncodingCallbackNonempty canonicalize_a_protocol.
Proof.
  split. intros s v Hs Hne. unfold canonicalize_a_protocol. destruct s as [|b s]; [done|]. cbn [is_empty].
  destruct (basic_parse_returns ((b :: s) ++ sv "://dummy.invalid") None None) as (r & u & -> & Hr); [|done|].
  { apply Forall_app. split; [by apply valid_utf8_bytes|apply sv_bytes]. }
  cbn [mbind outcome_bind]. destruct r as [w|]; [|done]. intros [= <-].
  apply scheme_ok_nonempty, core_scheme, (Hr w eq_refl).
Qed.

#[global] Instance canonicalize_a_username_nonempty : EncodingCallbackNonempty (infallible canonicalize_a_username).
Proof.
  split. intros s v Hs Hne. unfold infallible, canonicalize_a_username. destruct s as [|b s]; [done|]. cbn [is_empty].
  rewrite create_a_dummy_url_returns, bind_value. unfold set_username.
  destruct (percent_encode (b :: s) Userinfo SpaceAsPlusNo) as [n| |] eqn:E; [|done..]. intros [= <-].
  by eapply percent_encode_nonempty.
Qed.

#[global] Instance canonicalize_a_password_nonempty : EncodingCallbackNonempty (infallible canonicalize_a_password).
Proof.
  split. intros s v Hs Hne. unfold infallible, canonicalize_a_password. destruct s as [|b s]; [done|]. cbn [is_empty].
  rewrite create_a_dummy_url_returns, bind_value. unfold set_password.
  destruct (percent_encode (b :: s) Userinfo SpaceAsPlusNo) as [n| |] eqn:E; [|done..]. intros [= <-].
  by eapply percent_encode_nonempty.
Qed.

#[global] Instance canonicalize_a_hostname_nonempty : EncodingCallbackNonempty canonicalize_a_hostname.
Proof.
  split. intros s v Hs Hne. unfold canonicalize_a_hostname. destruct s as [|b s]; [done|]. cbn [is_empty].
  rewrite create_a_dummy_url_returns, bind_value.
  destruct (basic_parse_override (b :: s) dummy State.Hostname) as (r & w & Hp & Hw & _);
    [by apply valid_utf8_bytes|by split; [apply dummy_wf|]|]. rewrite Hp.
  apply basic_parse_frame in Hp; [|done]. apply (f_equal scheme) in Hp. cbn [masked scheme with_host] in Hp.
  cbn [mbind outcome_bind]. destruct r as [w'|]; [|done].
  pose proof (core_host _ (proj1 Hw)) as Hh. unfold is_special, host_ok in Hh. rewrite Hp in Hh.
  destruct (host w) as [h|]; [|done].
  intros (out & Hout & [= <-])%bind_returned. eapply host_serialize_nonempty; [|exact Hout].
  destruct Hh as [Hh|[? _]]; [done|discriminate].
Qed.

Lemma ipv6_hostname_loop_length cps result v :
  ipv6_hostname_loop cps result = Value v → length v = (length result + length cps)%nat.
Proof.
  revert result. induction cps as [|c cps IH]; intros result; cbn [ipv6_hostname_loop]; [intros [= <-]; cbn; lia|].
  destruct (_ && _); [done|]. intros Hv%IH. rewrite Hv, length_app. cbn. lia.
Qed.

#[global] Instance canonicalize_an_ipv6_hostname_nonempty : EncodingCallbackNonempty canonicalize_an_ipv6_hostname.
Proof.
  split. intros s v Hs Hne. unfold canonicalize_an_ipv6_hostname. intros [= Hv%ipv6_hostname_loop_length].
  pose proof (code_points_nonempty s Hne (valid_utf8_bytes _ Hs)) as Hc. intros ->. by destruct (code_points s).
Qed.

(** The encoding callbacks of [Pattern::create]. *)
Definition canonicalizers : list EncodingCallback :=
  [canonicalize_a_protocol; infallible canonicalize_a_username; infallible canonicalize_a_password;
   canonicalize_a_hostname; canonicalize_an_ipv6_hostname; (λ value, canonicalize_a_port value None);
   infallible canonicalize_a_pathname; canonicalize_an_opaque_pathname; infallible canonicalize_a_search;
   infallible canonicalize_a_hash].

(** on well-formed text each of the ten canonicalizers returns: the URL parser
    that it runs on the dummy URL terminates and no VERIFY, MUST or value() of the
    canonicalizer fails.  What it makes of the text is printable ASCII, which
    the generators of patterns and regular expressions rely on. *)
Theorem canonicalizers_total (f : EncodingCallback) (s : bytes)
    (Hf : f ∈ canonicalizers) (Hs : valid_utf8 s) :
  ∃ r, f s = Returned r ∧ ∀ v, r = Value v → Forall printable v.
Proof.
  assert (Forall Canonicalizer canonicalizers) as Hall by (repeat (constructor; [apply _|]); constructor).
  by apply (proj1 (Forall_forall _ _) Hall f Hf).
Qed.

End Callbacks.

Lemma canonicalizers_total_witness :
  ∃ r, @canonicalize_a_hostname simdutf_example fast_float_example icu_example legacy_encoders_example (sv "EXAMPLE.com") = Returned r ∧ ∀ v, r = Value v → Forall printable v.
Proof.
  apply (@canonicalizers_total simdutf_example simdutf_example_ok fast_float_example fast_float_example_ok
    icu_example icu_example_ok legacy_encoders_example legacy_encoders_example_ok).
  - unfold canonicalizers. do 3 right. left.
  - apply ascii_valid_utf8; [apply sv_bytes|done].
Defined.
