(* ===== verification/UrlPatternComponent.v ===== *)
(** * URL patterns: components

    LibURL/Pattern/Component.{h,cpp}: a component of a pattern is compiled from a
    pattern string to a regular expression and a list of group names, and matched
    against a component of a URL.  The regular expression engine is a parameter. *)
From S2P Require Import Prelude CharacterTypes Externals Utf8 StringView Utf8View Format PercentEncoding Ipv4 Ipv6 Host PublicSuffix TextCodec Origin Url UrlParser UrlWellFormed UrlSearchParams UrlPatternTokenizer UrlPatternParts UrlPatternParser.

(** ** UTF-16 strings

    A [Utf16View] with ASCII storage is its bytes, another one its code units. *)
Definition is_utf16_low_surrogate (code_unit : Z) : bool :=
  (0xdc00 <=? code_unit) && (code_unit <=? 0xdfff).

(** The three bytes written for an unpaired surrogate. *)
Definition surrogate_bytes (code_unit : Z) : bytes :=
  [Z.lor (Z.land (Z.shiftr code_unit 12) 0x0f) 0xe0;
   Z.lor (Z.land (Z.shiftr code_unit 6) 0x3f) 0x80;
   Z.lor (Z.land (Z.shiftr code_unit 0) 0x3f) 0x80].

(** The [do ... while] loop after the first unpaired surrogate: the bytes written
    and the view that remains. *)
Fixpoint append_low_surrogates (remaining_view : list Z) : bytes * list Z :=
  match remaining_view with
  | code_unit :: rest =>
      if is_utf16_low_surrogate code_unit then
        let '(written, rest) := append_low_surrogates rest in (surrogate_bytes code_unit ++ written, rest)
      else ([], remaining_view)
  | [] => ([], [])
  end.

(** The loop of [StringBuilder::try_append(Utf16View const&)] in UTF-8 mode. *)
Fixpoint append_utf16 `{SimdutfUtf16} (fuel : nat) (buffer : bytes) (remaining_view : list Z) : outcome bytes :=
  match fuel with
  | O => OutOfFuel
  | S fuel =>
      match convert_utf16_to_utf8_with_errors remaining_view with
      | (written, None) => Returned (buffer ++ written)
      | (written, Some first_invalid_code_unit) =>
          code_unit ← at_index remaining_view first_invalid_code_unit;
          let '(more, rest) := append_low_surrogates (drop (S first_invalid_code_unit) remaining_view) in
          append_utf16 fuel (buffer ++ written ++ surrogate_bytes code_unit ++ more) rest
      end
  end.

(** [MUST(view.to_utf8())] *)
Definition utf16_to_utf8 `{Simdutf} `{SimdutfUtf16} (ascii_storage : bool) (view : list Z) : outcome bytes :=
  match view with
  | [] => Returned []
  | _ =>
      if ascii_storage then Returned view
      else s ← append_utf16 (S (length view)) [] view; must_to_string s
  end.

(** ** Components *)
Record ComponentResult := mk_component_result {
  result_input : bytes;
  groups : list (bytes * option bytes);
}.

Record ExecutionResult := mk_execution_result {
  success : bool;
  captures : list (option bytes);
}.

Record RegularExpressionAndNameList := mk_regexp_and_names {
  regular_expression_string : bytes;
  name_list : list bytes;
}.

(** [OrderedHashMap::set]: the entry of a key keeps its place, a new one is the
    last. *)
Fixpoint ordered_map_set {V} (m : list (bytes * V)) (key : bytes) (v : V) : list (bytes * V) :=
  match m with
  | [] => [(key, v)]
  | (k, w) :: m => if bool_decide (k = key) then (k, v) :: m else (k, w) :: ordered_map_set m key v
  end.

Module Component.

Record Component `{RegexEngine} := mk_component {
  pattern_string : bytes;
  regular_expression : ECMAScriptRegex;
  group_name_list : list bytes;
  has_regexp_groups : bool;
}.
Arguments Component {_}.
Arguments mk_component {_}.

Section Model.
Context `{Simdutf} `{SimdutfUtf16} `{IcuProperties} `{RegexEngine}.

(** The regular expression of a matching group, steps 4 to 6. *)
Definition group_regexp (part : Part) (options : Options) : outcome bytes :=
  match type part with
  | PartType.SegmentWildcard => generate_a_segment_wildcard_regexp options
  | PartType.FullWildcard => string ← from_utf8 full_wildcard_regexp_value; must string
  | _ => Returned (part_value part)
  end.

(** The body of the loop: what is appended to the result, and the names. *)
Definition part_regexp (part : Part) (options : Options) : outcome (bytes * list bytes) :=
  let modifier := convert_modifier_to_string (part_modifier part) in
  if bool_decide (type part = PartType.FixedText) then
    escaped ← escape_a_regexp_string (part_value part);
    if bool_decide (part_modifier part = Modifier.None) then Returned (escaped, [])
    else Returned (sv "(?:" ++ escaped ++ sv ")" ++ modifier, [])
  else
    verify (negb (is_empty (name part))) (
      regexp_value ← group_regexp part options;
      let once := bool_decide (part_modifier part = Modifier.None)
                  || bool_decide (part_modifier part = Modifier.Optional) in
      if is_empty (prefix part) && is_empty (suffix part) then
        if once then Returned (sv "(" ++ regexp_value ++ sv ")" ++ modifier, [name part])
        else Returned (sv "((?:" ++ regexp_value ++ sv ")" ++ modifier ++ sv ")", [name part])
      else
        escaped_prefix ← escape_a_regexp_string (prefix part);
        if once then
          escaped_suffix ← escape_a_regexp_string (suffix part);
          Returned (sv "(?:" ++ escaped_prefix ++ sv "(" ++ regexp_value ++ sv ")" ++ escaped_suffix ++ sv ")"
                    ++ modifier, [name part])
        else
          escaped_suffix ← escape_a_regexp_string (suffix part);
          Returned (sv "(?:" ++ escaped_prefix ++ sv "((?:" ++ regexp_value ++ sv ")(?:" ++ escaped_suffix
                    ++ escaped_prefix ++ sv "(?:" ++ regexp_value ++ sv "))*)" ++ escaped_suffix ++ sv ")"
                    ++ (if bool_decide (part_modifier part = Modifier.ZeroOrMore) then sv "?" else []), [name part])).

Fixpoint names_loop (part_list : list Part) (options : Options) (result : bytes) (names : list bytes)
    : outcome (bytes * list bytes) :=
  match part_list with
  | [] => Returned (result, names)
  | part :: part_list =>
      '(s, n) ← part_regexp part options;
      names_loop part_list options (result ++ s) (names ++ n)
  end.

Definition generate_a_regular_expression_and_name_list (part_list : list Part) (options : Options)
    : outcome RegularExpressionAndNameList :=
  '(result, names) ← names_loop part_list options (sv "^") [];
  Returned (mk_regexp_and_names (result ++ sv "$") names).

Definition compile (input : bytes) (encoding_callback : EncodingCallback) (options : Options)
    : outcome (PatternErrorOr Component) :=
  part_list ←? PatternParser.parse input options encoding_callback;
  generated ← generate_a_regular_expression_and_name_list part_list options;
  let flags := mk_compile_flags false (ignore_case options) false false false true false false in
  match regex_compile (regular_expression_string generated) flags with
  | inl message => Returned (ErrorInfo (sv "RegExp compile error: " ++ message))
  | inr regex =>
      pattern_string ← generate_a_pattern_string part_list options;
      let has_regexp_groups := existsb (λ part, bool_decide (type part = PartType.Regexp)) part_list in
      Returned (Value (mk_component pattern_string regex (name_list generated) has_regexp_groups))
  end.

(** ** Matching *)

(** The captures after a match.  The engine's positions are [int]s whose difference is cast
    to [size_t].  Where the end is before the start the sum wraps around and the check of
    [substring_view] passes, but the view has a length near 2^64 and its conversion reads
    outside the input: the model fails there. *)
Fixpoint capture_loop (ascii_storage : bool) (utf16_input : list Z) (slots : nat → Z) (index : nat)
    (names : list bytes) : outcome (list (option bytes)) :=
  match names with
  | [] => Returned []
  | _ :: names =>
      let start := slots (2 * index)%nat in
      let stop := slots (2 * index + 1)%nat in
      capture ←
        (if (start <? 0) || (stop <? 0) then Returned None
         else
           verify (wrap64 (start + wrap64 (stop - start)) <=? Z.of_nat (length utf16_input)) (
           verify (wrap64 (stop - start) <=? Z.of_nat (length utf16_input) - start) (
             let view := take (Z.to_nat (stop - start)) (drop (Z.to_nat start) utf16_input) in
             s ← utf16_to_utf8 ascii_storage view; Returned (Some s))));
      rest ← capture_loop ascii_storage utf16_input slots (S index) names;
      Returned (capture :: rest)
  end.

Definition execute (c : Component) (input : bytes) : outcome ExecutionResult :=
  utf16_input ← utf16_from_utf8 convert_utf8_to_utf16 input;
  let '(match_result, slots) := regex_exec (regular_expression c) utf16_input 0 in
  if negb (bool_decide (match_result = Match)) then Returned (mk_execution_result false [])
  else
    captures ← capture_loop (sv_is_ascii input) utf16_input slots 1 (group_name_list c);
    Returned (mk_execution_result true captures).

Definition matches (c : Component) (input : bytes) : outcome bool :=
  utf16_input ← utf16_from_utf8 convert_utf8_to_utf16 input;
  Returned (bool_decide (regex_test (regular_expression c) utf16_input 0 = Match)).

Fixpoint groups_loop (names : list bytes) (captures : list (option bytes)) (groups : list (bytes * option bytes))
    : outcome (list (bytes * option bytes)) :=
  match names with
  | [] => Returned groups
  | name :: names =>
      capture ← at_index captures 0;
      groups_loop names (tail captures) (ordered_map_set groups name capture)
  end.

Definition create_match_result (c : Component) (input : bytes) (exec_result : ExecutionResult)
    : outcome ComponentResult :=
  verify (length (captures exec_result) =? length (group_name_list c))%nat (
    groups ← groups_loop (group_name_list c) (captures exec_result) [];
    Returned (mk_component_result input groups)).

Fixpoint any_scheme_matches (c : Component) (schemes : list bytes) : outcome bool :=
  match schemes with
  | [] => Returned false
  | scheme :: schemes =>
      test_result ← matches c scheme;
      if (test_result : bool) then Returned true else any_scheme_matches c schemes
  end.

Definition protocol_component_matches_a_special_scheme (c : Component) : outcome bool :=
  any_scheme_matches c special_schemes.

End Model.

(** ** Compiling *)
Section Compile.
Context `{SimdutfOk} `{SimdutfUtf16} `{IcuProperties} `{RegexEngine}.

Lemma group_regexp_returns part options :
  PatternParser.options_ok options → returns (group_regexp part options).
Proof.
  intros Ho. unfold group_regexp. destruct (type part); eauto with ladybird.
  - by apply PatternParser.segment_wildcard_returns.
  - rewrite from_utf8_ascii by done. by eexists.
Qed.

Lemma part_regexp_spec part options :
  PatternParser.part_ok part → PatternParser.options_ok options →
  ∃ s, part_regexp part options = Returned (s, name <$> filter PatternParser.is_group [part]).
Proof.
  intros (Hv & Hp & Hs & _ & Htype) Ho. unfold part_regexp. cbv zeta. rewrite filter_cons, filter_nil.
  destruct (bool_decide (type part = PartType.FixedText)) eqn:Ef; bool_to_prop.
  - rewrite decide_False by (by intros Hg; apply Hg). rewrite PatternParser.escape_regexp_ascii by done.
    cbn [mbind outcome_bind]. destruct (bool_decide _); by eexists.
  - rewrite decide_True by done. assert (name part ≠ []) as Hn by (destruct (type part); naive_solver).
    change (name <$> [part]) with [name part]. destruct (name part) as [|b n]; [done|]. cbn [is_empty negb verify].
    destruct (group_regexp_returns part options Ho) as [re ->]. cbn [mbind outcome_bind].
    destruct (is_empty (prefix part) && is_empty (suffix part)); [destruct (_ || _); by eexists|].
    rewrite !PatternParser.escape_regexp_ascii by done. cbn [mbind outcome_bind]. destruct (_ || _); by eexists.
Qed.

Lemma names_loop_spec parts options result names :
  Forall PatternParser.part_ok parts → PatternParser.options_ok options →
  ∃ s, names_loop parts options result names
    = Returned (s, names ++ (name <$> filter PatternParser.is_group parts)).
Proof.
  intros Hparts Ho. revert result names. induction Hparts as [|part parts Hpart _ IH]; intros result names.
  - exists result. by rewrite filter_nil, app_nil_r.
  - cbn [names_loop]. destruct (part_regexp_spec part options Hpart Ho) as (s & ->). cbn [mbind outcome_bind].
    destruct (IH (result ++ s) (names ++ (name <$> filter PatternParser.is_group [part]))) as (s' & ->).
    exists s'. change (part :: parts) with ([part] ++ parts). by rewrite filter_app, fmap_app, app_assoc.
Qed.

Lemma generate_regexp_spec parts options :
  Forall PatternParser.part_ok parts → PatternParser.options_ok options →
  ∃ s, generate_a_regular_expression_and_name_list parts options
    = Returned (mk_regexp_and_names s (name <$> filter PatternParser.is_group parts)).
Proof.
  intros Hparts Ho. unfold generate_a_regular_expression_and_name_list.
  destruct (names_loop_spec parts options (sv "^") [] Hparts Ho) as (s & ->). by eexists.
Qed.

(** *** The pattern string *)
Lemma escape_pattern_ascii s :
  forallb is_ascii s = true → escape_a_pattern_string s = Returned (escape_chars pattern_special s).
Proof. intros Hs. unfold escape_a_pattern_string. by rewrite PatternParser.ascii_view_spec, Hs. Qed.

Lemma first_code_point_returns s : s ≠ [] → returns (first_code_point s).
Proof. apply iterator_deref_returns. Qed.

Lemma needs_grouping_by_next_returns part next custom_name grouping :
  (∀ q, next = Some q → PatternParser.part_ok q ∧ (type q = PartType.FixedText → part_value q ≠ [])) →
  returns (needs_grouping_by_next part next custom_name grouping).
Proof.
  intros Hnext. unfold needs_grouping_by_next. destruct next as [q|]; [|eauto with ladybird].
  destruct (Hnext q eq_refl) as [(_ & _ & _ & _ & Htype) Hfix].
  destruct (_ && _); [|eauto with ladybird]. destruct (bool_decide (type q = _)) eqn:Ef; bool_to_prop.
  - destruct (first_code_point_returns (part_value q)) as [c ->]; [by apply Hfix|]. eauto with ladybird.
  - destruct (first_code_point_returns (name q)) as [c ->]; [destruct (type q); naive_solver|]. eauto with ladybird.
Qed.

Lemma generate_group_returns part previous options custom_name grouping :
  PatternParser.options_ok options → returns (generate_group part previous options custom_name grouping).
Proof.
  intros Ho. unfold generate_group. destruct (type part); eauto with ladybird.
  - destruct custom_name; cbn [negb]; [eauto with ladybird|].
    destruct (PatternParser.segment_wildcard_returns options Ho) as [re ->]. eauto with ladybird.
  - destruct (_ && _); eauto with ladybird.
Qed.

Lemma generate_part_string_returns previous part next options :
  PatternParser.options_ok options → PatternParser.part_ok part →
  (∀ q, next = Some q → PatternParser.part_ok q ∧ (type q = PartType.FixedText → part_value q ≠ [])) →
  returns (generate_part_string previous part next options).
Proof.
  intros Ho (Hv & Hp & Hs & _ & Htype) Hnext. unfold generate_part_string.
  destruct (bool_decide (type part = PartType.FixedText)) eqn:Ef; bool_to_prop.
  { rewrite escape_pattern_ascii by done. cbn [mbind outcome_bind]. destruct (bool_decide _); eauto with ladybird. }
  assert (name part ≠ []) as Hn by (destruct (type part); naive_solver).
  destruct (name part) as [|b n] eqn:En; [done|]. cbn [at_index lookup list_lookup must mbind outcome_bind]. cbv zeta.
  edestruct (needs_grouping_by_next_returns part next) as [g ->]; [done|]. cbn [mbind outcome_bind is_empty negb verify].
  rewrite !escape_pattern_ascii by done. cbn [mbind outcome_bind].
  edestruct (generate_group_returns part previous options) as [s ->]; [done|]. cbn [mbind outcome_bind].
  destruct (bool_decide (type part = PartType.SegmentWildcard) && _ && _) eqn:Esep; cbn [mbind outcome_bind];
    [|eauto with ladybird].
  apply andb_prop in Esep as [_ Esep]. destruct (first_code_point_returns (suffix part)) as [c ->].
  { intros He. by rewrite He in Esep. }
  cbn [mbind outcome_bind]. eauto with ladybird.
Qed.

Lemma generate_loop_returns previous parts options result :
  PatternParser.options_ok options → Forall PatternParser.part_ok parts →
  PatternParser.fixed_texts (.≠ []) parts → returns (generate_loop previous parts options result).
Proof.
  intros Ho Hparts. revert previous result. induction Hparts as [|part parts Hpart Hparts IH]; intros previous result Hfix;
    cbn [generate_loop]; [eauto with ladybird|]. apply Forall_cons in Hfix as [_ Hfix].
  destruct (generate_part_string_returns previous part (head parts) options Ho Hpart) as [s ->].
  { intros q Hq. destruct parts as [|q' parts]; [done|]. injection Hq as ->.
    apply Forall_cons in Hparts as [Hok _]. by apply Forall_cons in Hfix as [Hq _]. }
  cbn [mbind outcome_bind]. by apply IH.
Qed.

Lemma generate_a_pattern_string_returns parts options :
  PatternParser.options_ok options → Forall PatternParser.part_ok parts →
  PatternParser.fixed_texts (.≠ []) parts → returns (generate_a_pattern_string parts options).
Proof. apply generate_loop_returns. Qed.

(** From the parts to the component. *)
Lemma compile_parts s options callback parts :
  PatternParser.parse s options callback = Returned (Value parts) → PatternParser.parts_ok parts →
  PatternParser.options_ok options →
  (∀ c, compile s callback options = Returned (Value c) → NoDup (group_name_list c))
  ∧ (PatternParser.fixed_texts (.≠ []) parts → returns (compile s callback options)).
Proof.
  intros Hparse [Hparts Hdup] Ho. unfold compile, pattern_try. rewrite Hparse, bind_value.
  destruct (generate_regexp_spec parts options Hparts Ho) as (re & ->). rewrite bind_value.
  cbn [regular_expression_string name_list]. cbv zeta.
  destruct (regex_compile re _) as [m|regex]; [by split; [|eauto with ladybird]|]. split.
  - by intros c (ps & _ & [= <-])%bind_returned.
  - intros Hfix. destruct (generate_a_pattern_string_returns parts options Ho Hparts Hfix) as [ps ->].
    rewrite bind_value. eauto with ladybird.
Qed.

(** Whatever the callback makes of the fixed texts, the names are distinct. *)
Lemma compile_names s options callback `{!PatternParser.EncodingCallbackOk callback} c :
  valid_utf8 s → Z.of_nat (length (code_points s)) < 2 ^ 32 → PatternParser.options_ok options →
  compile s callback options = Returned (Value c) → NoDup (group_name_list c).
Proof.
  intros Hs Hlen Ho. destruct (PatternParser.pattern_parse_spec s options callback (λ _, True) Hs Hlen Ho) as (r & Hr & Hok); [done|].
  destruct r as [m|parts]; [by unfold compile, pattern_try; rewrite Hr|].
  destruct (Hok parts eq_refl) as [Hparts _]. by apply (compile_parts s options callback parts Hr Hparts Ho).
Qed.

Lemma compile_spec s options callback `{!PatternParser.EncodingCallbackOk callback}
    `{!PatternParser.EncodingCallbackNonempty callback} :
  valid_utf8 s → Z.of_nat (length (code_points s)) < 2 ^ 32 → PatternParser.options_ok options →
  ∃ r, compile s callback options = Returned r
    ∧ ∀ c, r = Value c → NoDup (group_name_list c).
Proof.
  intros Hs Hlen Ho.
  destruct (PatternParser.pattern_parse_spec s options callback (.≠ []) Hs Hlen Ho) as (r & Hr & Hok).
  { intros s' v. apply PatternParser.callback_nonempty. }
  destruct r as [m|parts]; [unfold compile, pattern_try; rewrite Hr; by eexists|].
  destruct (Hok parts eq_refl) as [Hparts Hfix].
  destruct (compile_parts s options callback parts Hr Hparts Ho) as [Hdup Hret].
  destruct (Hret Hfix) as [x Hx]. exists x. split; [done|]. intros c ->. by apply Hdup.
Qed.

(** The pattern that a missing component has: it has no fixed text. *)
Lemma parse_wildcard options callback parts `{!PatternParser.EncodingCallbackOk callback} :
  PatternParser.options_ok options →
  PatternParser.parse (sv "*") options callback = Returned (Value parts) →
  PatternParser.fixed_texts (.≠ []) parts.
Proof.
  intros Ho. unfold PatternParser.parse.
  destruct (PatternParser.segment_wildcard_returns options Ho) as [re ->]. rewrite bind_value.
  change (sv "*") with (utf8_of [c_asterisk]). rewrite Tokenizer.tokenize_spec by (repeat constructor; done).
  destruct (PatternParser.callback_returns [] valid_utf8_nil) as [cb Hcb].
  set (asterisk := mk_token TokenType.Asterisk 0 [c_asterisk]). set (tokens := [asterisk; mk_token TokenType.End 1 []]).
  change (Tokenizer.tokens_result Strict (Tokenizer.reference_tokens [c_asterisk])) with (Value tokens).
  destruct (PatternParser.group_type_and_value re (Some asterisk)) as [type rv] eqn:Et.
  assert (type ≠ PartType.FixedText) as Htype.
  { revert Et. unfold PatternParser.group_type_and_value. cbv zeta. repeat case_bool_decide; by intros [= <- _]. }
  unfold pattern_try at 1. rewrite bind_value. change (S (length tokens)) with 3%nat.
  set (start := PatternParser.mk_pattern_parser tokens [] [] 0 0).
  set (later index a b := PatternParser.mk_pattern_parser tokens
    [mk_part type rv Modifier.None (sv "0") a b] [] index 1).
  assert (∀ a b, PatternParser.pattern_loop callback re 2 options (later 1%nat a b) = Returned (Value (later 2%nat a b)))
    as Hend by reflexivity.
  assert (PatternParser.pattern_step callback re options start
    = (a ←? callback []; b ←? callback []; Returned (Value (later 1%nat a b)))) as Hstart.
  { transitivity (PatternParser.add_a_part callback re (PatternParser.mk_pattern_parser tokens [] [] 1 0) [] None
      (Some asterisk) [] None); [reflexivity|]. unfold PatternParser.add_a_part. rewrite Et. reflexivity. }
  change (PatternParser.pattern_loop callback re 3 options start)
    with (pattern_try (PatternParser.pattern_step callback re options start) (PatternParser.pattern_loop callback re 2 options)).
  rewrite Hstart, Hcb. unfold pattern_try. rewrite bind_value. destruct cb as [m|v]; [done|].
  rewrite !bind_value, Hend, bind_value. intros [= <-]. by repeat constructor.
Qed.

Lemma compile_wildcard options callback `{!PatternParser.EncodingCallbackOk callback} :
  PatternParser.options_ok options →
  ∃ r, compile (sv "*") callback options = Returned r ∧ ∀ c, r = Value c → NoDup (group_name_list c).
Proof.
  intros Ho. assert (valid_utf8 (sv "*")) as Hs by (apply ascii_valid_utf8; [apply sv_bytes|done]).
  assert (Z.of_nat (length (code_points (sv "*"))) < 2 ^ 32) as Hlen by (by vm_compute).
  destruct (PatternParser.pattern_parse_spec (sv "*") options callback (λ _, True) Hs Hlen Ho) as (r & Hr & Hok); [done|].
  destruct r as [m|parts]; [unfold compile, pattern_try; rewrite Hr; by eexists|].
  destruct (Hok _ eq_refl) as [Hparts _]. destruct (compile_parts _ _ _ _ Hr Hparts Ho) as [Hdup Hret].
  destruct Hret as [x Hx]; [by eapply parse_wildcard|].
  exists x. split; [done|]. intros c ->. by apply Hdup.
Qed.

(** compiling a pattern string returns a component or an error, whatever the
    regular expression engine does: no VERIFY of the pattern parser or of the two
    generators fails.  The groups of the component have distinct names. *)
Theorem component_compile_total (s : bytes) (callback : EncodingCallback) (options : Options)
    `{Hc : !PatternParser.EncodingCallbackOk callback} `{Hn : !PatternParser.EncodingCallbackNonempty callback}
    (Hs : valid_utf8 s) (Hlen : Z.of_nat (length (code_points s)) < 2 ^ 32)
    (Ho : PatternParser.options_ok options) :
  ∃ r, compile s callback options = Returned r ∧ ∀ c, r = Value c → NoDup (group_name_list c).
Proof. by apply compile_spec. Qed.

End Compile.

(** ** Matching *)

(** A contiguous piece of a string. *)
Definition piece_of {A} (view s : list A) : Prop := ∃ pre post, s = pre ++ view ++ post.

Lemma piece_of_slice {A} (s : list A) a n : piece_of (take n (drop a s)) s.
Proof. exists (take a s), (drop n (drop a s)). by rewrite !take_drop. Qed.

Lemma ordered_map_set_new {V} (m : list (bytes * V)) key v :
  key ∉ m.*1 → ordered_map_set m key v = m ++ [(key, v)].
Proof.
  induction m as [|[k w] m IH]; [done|]. cbn [fmap list_fmap fst]. intros [Hk Hm]%not_elem_of_cons.
  cbn [ordered_map_set app]. rewrite bool_decide_eq_false_2 by congruence. by rewrite IH.
Qed.

Section Matching.
Context `{SimdutfOk} `{SimdutfUtf16} `{RegexEngine}.

Lemma utf16_from_ascii s :
  forallb is_ascii s = true → Forall is_byte s → utf16_from_utf8 convert_utf8_to_utf16 s = Returned s.
Proof.
  intros Ha Hb. rewrite utf16_from_utf8_valid by (by apply ascii_valid_utf8). unfold sort_key.
  by rewrite PatternParser.ascii_view_spec, Ha.
Qed.

Lemma any_scheme_matches_returns c schemes :
  Forall (λ s, forallb is_ascii s = true ∧ Forall is_byte s) schemes → returns (any_scheme_matches c schemes).
Proof.
  induction 1 as [|s schemes [Ha Hb] _ IH]; cbn [any_scheme_matches]; [eauto with ladybird|].
  unfold matches. rewrite utf16_from_ascii, !bind_value by done. destruct (bool_decide _); eauto with ladybird.
Qed.

Lemma matches_a_special_scheme_returns c : returns (protocol_component_matches_a_special_scheme c).
Proof.
  apply any_scheme_matches_returns.
  unfold special_schemes. repeat (apply Forall_cons; split; [split; [done|apply sv_bytes]|]). constructor.
Qed.

(** A computation over the engine's answers: it returns what [P] describes, or fails and the
    engine did not keep its promise. *)
Definition settles {A} (m : outcome A) (P : A → Prop) : Prop :=
  (∃ a, m = Returned a ∧ P a) ∨ (m = VerifyFailed ∧ ¬ RegexEngineOk).

Lemma settles_bind {A B} (m : outcome A) (f : A → outcome B) P Q :
  settles m P → (∀ a, P a → settles (f a) Q) → settles (m ≫= f) Q.
Proof. intros [(a & -> & Ha)|[-> Hbad]] Hf; [by apply Hf|by right]. Qed.

Lemma settles_returned {A} (a : A) (P : A → Prop) : P a → settles (Returned a) P.
Proof. left. by exists a. Qed.

Definition slots_ok (s : list Z) (slots : nat → Z) : Prop :=
  (∀ slot, slots slot < 2 ^ 31)
  ∧ ∀ index, slots (2 * index)%nat < 0 ∨ slots (2 * index + 1)%nat < 0
      ∨ 0 ≤ slots (2 * index)%nat ≤ slots (2 * index + 1)%nat ≤ Z.of_nat (length s).

(** What [execute] makes of the capture slots of a match. *)
Lemma capture_loop_spec s slots index names :
  (¬ slots_ok s slots → ¬ RegexEngineOk) →
  settles (capture_loop true s slots index names) (λ captures,
    length captures = length names ∧ ∀ capture, Some capture ∈ captures → piece_of capture s).
Proof.
  intros Hbad. revert index. induction names as [|name names IH]; intros index; cbn [capture_loop].
  { apply settles_returned. split; [done|]. by intros c Hc%not_elem_of_nil. }
  cbv zeta. set (start := slots (2 * index)%nat). set (stop := slots (2 * index + 1)%nat).
  eapply (settles_bind _ _ (λ capture, ∀ c, capture = Some c → piece_of c s)).
  - destruct ((start <? 0) || (stop <? 0)) eqn:E; bool_to_prop; [by apply settles_returned|].
    assert (slots_ok s slots → 0 ≤ start ≤ stop ∧ stop ≤ Z.of_nat (length s) ∧ stop < 2 ^ 31) as Hrange.
    { intros [Hint Hslots]. specialize (Hslots index). specialize (Hint (2 * index + 1)%nat). lia. }
    unfold verify. destruct (wrap64 (start + _) <=? _) eqn:E1; [destruct (wrap64 _ <=? _ - start) eqn:E2|].
    + assert (∀ view, utf16_to_utf8 true view = Returned view) as -> by (by intros []).
      apply settles_returned. intros c [= <-]. apply piece_of_slice.
    + right. split; [done|]. apply Hbad. intros Hok. specialize (Hrange Hok). rewrite wrap64_small in E2 by lia. lia.
    + right. split; [done|]. apply Hbad. intros Hok. specialize (Hrange Hok).
      rewrite (wrap64_small (stop - start)), wrap64_small in E1 by lia. lia.
  - intros capture Hc. eapply settles_bind; [apply IH|]. intros captures [Hl Hp]. apply settles_returned.
    split; [cbn; by rewrite Hl|]. intros c [<-|Hin]%elem_of_cons; [by apply Hc|by apply Hp].
Qed.

(** What [execute] promises of the captures. *)
Definition execution_ok (c : Component) (s : bytes) (result : ExecutionResult) : Prop :=
  success result = true →
  length (captures result) = length (group_name_list c)
  ∧ ∀ capture, Some capture ∈ captures result → piece_of capture s.

Lemma execute_spec c s :
  forallb is_ascii s = true → Forall is_byte s → settles (execute c s) (execution_ok c s).
Proof.
  intros Ha Hb. unfold execute. rewrite utf16_from_ascii by done. rewrite bind_value.
  destruct (regex_exec (regular_expression c) s 0) as [m slots] eqn:E.
  destruct (bool_decide (m = Match)) eqn:Em; bool_to_prop; cbn [negb]; [|by apply settles_returned]. subst m.
  rewrite PatternParser.ascii_view_spec, Ha. eapply settles_bind; [apply capture_loop_spec|].
  { intros Hbad Hok. apply Hbad. split; [intros slot; by eapply capture_slot_is_int|intros index; by eapply capture_slots_in_input]. }
  intros captures Hc. apply settles_returned. by intros _.
Qed.

Lemma groups_loop_spec names captures groups :
  length captures = length names → NoDup (groups.*1 ++ names) →
  groups_loop names captures groups = Returned (groups ++ zip names captures).
Proof.
  revert captures groups. induction names as [|name names IH]; intros captures groups Hl Hdup; cbn [groups_loop].
  - by rewrite app_nil_r.
  - destruct captures as [|capture captures]; [done|]. rewrite (at_index_lt _ _ capture) by done.
    rewrite bind_value. cbn [tail]. rewrite ordered_map_set_new.
    2:{ apply NoDup_app in Hdup as (_ & Hd & _). intros Hin. apply (Hd _ Hin). by left. }
    rewrite IH; [by rewrite <- app_assoc|by injection Hl|]. rewrite fmap_app, <- app_assoc. exact Hdup.
Qed.

Lemma create_match_result_spec c s result :
  NoDup (group_name_list c) → length (captures result) = length (group_name_list c) →
  create_match_result c s result
  = Returned (mk_component_result s (zip (group_name_list c) (captures result))).
Proof.
  intros Hdup Hl. unfold create_match_result. rewrite verify_true by (by apply Nat.eqb_eq).
  by rewrite groups_loop_spec.
Qed.

End Matching.
End Component.

(** ** An engine

    It knows a literal text and the full wildcard, which captures its input. *)
#[local] Definition example_slots (input : list Z) (groups : nat) (slot : nat) : Z :=
  if (slot <? 2 * S groups)%nat then if Nat.even slot then 0 else Z.of_nat (length input) else -1.

Definition regex_engine_example : RegexEngine := {|
  ECMAScriptRegex := bytes;
  regex_compile := λ regex _, inr regex;
  regex_exec := λ regex input _,
    if bool_decide (Z.of_nat (length input) < 2 ^ 31) then
      if bool_decide (regex = sv "^(.*)$") then (Match, example_slots input 1)
      else if bool_decide (regex = sv "^" ++ escape_chars regexp_special input ++ sv "$") then (Match, example_slots input 0)
      else (NoMatch, λ _, -1)
    else (LimitExceeded, λ _, -1);
  regex_test := λ regex input _,
    if bool_decide (regex = sv "^(.*)$") || bool_decide (regex = sv "^" ++ escape_chars regexp_special input ++ sv "$")
    then Match else NoMatch;
|}.

#[local] Lemma example_slots_spec input groups index :
  Z.of_nat (length input) < 2 ^ 31 →
  example_slots input groups index < 2 ^ 31
  ∧ (example_slots input groups (2 * index) < 0
     ∨ 0 ≤ example_slots input groups (2 * index) ≤ example_slots input groups (2 * index + 1) ≤ Z.of_nat (length input)).
Proof.
  intros Hl. unfold example_slots. rewrite Nat.add_comm, Nat.even_add, Nat.even_mul. cbn [Nat.even orb Bool.eqb negb].
  repeat case_match; bool_to_prop; lia.
Qed.

Lemma regex_engine_example_ok : @RegexEngineOk regex_engine_example.
Proof.
  split; intros regex input start slots index; cbn [regex_exec regex_engine_example];
    (case_bool_decide as Hl; [|done]); (case_bool_decide; [|case_bool_decide; [|done]]); intros [= <-].
  all: match goal with |- context [example_slots _ ?n] => destruct (example_slots_spec input n index Hl) as [??] end; tauto.
Qed.

(** Conversions that are right on the Basic Multilingual Plane. *)
Definition simdutf_utf16_example : SimdutfUtf16 := {|
  convert_utf8_to_utf16 := λ s, flat_map code_point_to_utf16 (code_points s);
  convert_utf16_to_utf8_with_errors := λ units, (flat_map (λ c, (code_point_to_utf8 c).1) units, None);
|}.

Lemma component_compile_total_witness :
  ∃ r, @Component.compile simdutf_example Tokenizer.icu_properties_example regex_engine_example
         Tokenizer.tokenizer_example PatternParser.ascii_callback options_pathname = Returned r
    ∧ ∀ c, r = Value c → NoDup (@Component.group_name_list regex_engine_example c).
Proof.
  apply (@Component.component_compile_total simdutf_example simdutf_example_ok Tokenizer.icu_properties_example
    regex_engine_example Tokenizer.tokenizer_example PatternParser.ascii_callback options_pathname
    PatternParser.ascii_callback_ok PatternParser.ascii_callback_nonempty Tokenizer.tokenizer_example_valid).
  - vm_compute. reflexivity.
  - exact PatternParser.pathname_options_ok.
Defined.
