(* ===== verification/UrlPatternInit.v ===== *)
(** * URL patterns: URLPatternInit

    LibURL/Pattern/Init.{h,cpp}: the dictionary of component patterns (or of the
    components of a URL to match), and how it is completed from its base URL. *)
From S2P Require Import Prelude CharacterTypes Externals Utf8 StringView Utf8View Format PercentEncoding Ipv4 Ipv6 Host PublicSuffix TextCodec Origin Url UrlParser UrlWellFormed UrlSerializer UrlParserInvariant UrlParserSteps UrlParserCorrect UrlSetters UrlPatternTokenizer UrlPatternParts UrlPatternParser UrlPatternCanon.

Module PatternProcessType.
Inductive process_type := Pattern | URL.

#[global] Instance process_type_eq_dec : EqDecision process_type.
Proof. solve_decision. Defined.
End PatternProcessType.

Record Init := mk_init {
  init_protocol : option bytes;
  init_username : option bytes;
  init_password : option bytes;
  init_hostname : option bytes;
  init_port : option bytes;
  init_pathname : option bytes;
  init_search : option bytes;
  init_hash : option bytes;
  init_base_url : option bytes;
}.

Definition new_init : Init := mk_init None None None None None None None None None.

(** Assignments to one member. *)
Definition with_protocol (i : Init) x :=
  mk_init x (init_username i) (init_password i) (init_hostname i) (init_port i) (init_pathname i) (init_search i)
    (init_hash i) (init_base_url i).
Definition with_init_username (i : Init) x :=
  mk_init (init_protocol i) x (init_password i) (init_hostname i) (init_port i) (init_pathname i) (init_search i)
    (init_hash i) (init_base_url i).
Definition with_init_password (i : Init) x :=
  mk_init (init_protocol i) (init_username i) x (init_hostname i) (init_port i) (init_pathname i) (init_search i)
    (init_hash i) (init_base_url i).
Definition with_hostname (i : Init) x :=
  mk_init (init_protocol i) (init_username i) (init_password i) x (init_port i) (init_pathname i) (init_search i)
    (init_hash i) (init_base_url i).
Definition with_init_port (i : Init) x :=
  mk_init (init_protocol i) (init_username i) (init_password i) (init_hostname i) x (init_pathname i) (init_search i)
    (init_hash i) (init_base_url i).
Definition with_pathname (i : Init) x :=
  mk_init (init_protocol i) (init_username i) (init_password i) (init_hostname i) (init_port i) x (init_search i)
    (init_hash i) (init_base_url i).
Definition with_search (i : Init) x :=
  mk_init (init_protocol i) (init_username i) (init_password i) (init_hostname i) (init_port i) (init_pathname i) x
    (init_hash i) (init_base_url i).
Definition with_hash (i : Init) x :=
  mk_init (init_protocol i) (init_username i) (init_password i) (init_hostname i) (init_port i) (init_pathname i)
    (init_search i) x (init_base_url i).
Definition with_base_url (i : Init) x :=
  mk_init (init_protocol i) (init_username i) (init_password i) (init_hostname i) (init_port i) (init_pathname i)
    (init_search i) (init_hash i) x.

Definition absent {A} (o : option A) : bool := match o with None => true | Some _ => false end.

Section Model.
Context `{Simdutf} `{FastFloat} `{Icu} `{LegacyEncoders}.

(** [MUST(string.substring_from_byte_offset(start, byte_count))] *)
Definition substring_from_byte_offset (s : bytes) (start byte_count : nat) : outcome bytes :=
  if (byte_count =? 0)%nat then Returned []
  else view ← substring_view s start byte_count; string ← from_utf8 view; must string.

(** [String::starts_with(u32 code_point)] *)
Definition string_starts_with (s : bytes) (code_point : Z) : outcome bool :=
  if is_empty s then Returned false else c ← first_code_point s; Returned (c =? code_point).

Definition process_a_base_url_string (input : bytes) (type : PatternProcessType.process_type) : outcome bytes :=
  if negb (bool_decide (type = PatternProcessType.Pattern)) then Returned input
  else escape_a_pattern_string input.

Definition is_an_absolute_pathname (input : bytes) (type : PatternProcessType.process_type) : bool :=
  match input with
  | [] => false
  | c :: rest =>
      if c =? c_slash then true
      else if bool_decide (type = PatternProcessType.URL) then false
      else
        match rest with
        | [] => false
        | d :: _ =>
            if (c =? c_backslash) && (d =? c_slash) then true
            else (c =? c_lbrace) && (d =? c_slash)
        end
  end.

Definition process_protocol_for_init (value : bytes) (type : PatternProcessType.process_type) : outcome (PatternErrorOr bytes) :=
  stripped_value ←
    (if ends_with value [c_colon] then substring_from_byte_offset value 0 (length value - 1) else Returned value);
  if bool_decide (type = PatternProcessType.Pattern) then Returned (Value stripped_value)
  else canonicalize_a_protocol stripped_value.

Definition process_username_for_init (value : bytes) (type : PatternProcessType.process_type) : outcome bytes :=
  if bool_decide (type = PatternProcessType.Pattern) then Returned value else canonicalize_a_username value.

Definition process_password_for_init (value : bytes) (type : PatternProcessType.process_type) : outcome bytes :=
  if bool_decide (type = PatternProcessType.Pattern) then Returned value else canonicalize_a_password value.

Definition process_hostname_for_init (value : bytes) (type : PatternProcessType.process_type) : outcome (PatternErrorOr bytes) :=
  if bool_decide (type = PatternProcessType.Pattern) then Returned (Value value) else canonicalize_a_hostname value.

Definition process_port_for_init (port_value protocol_value : bytes) (type : PatternProcessType.process_type)
    : outcome (PatternErrorOr bytes) :=
  if bool_decide (type = PatternProcessType.Pattern) then Returned (Value port_value)
  else canonicalize_a_port port_value (Some protocol_value).

Definition process_pathname_for_init (pathname_value protocol_value : bytes) (type : PatternProcessType.process_type)
    : outcome (PatternErrorOr bytes) :=
  if bool_decide (type = PatternProcessType.Pattern) then Returned (Value pathname_value)
  else if is_empty protocol_value || is_special_scheme protocol_value
  then path ← canonicalize_a_pathname pathname_value; Returned (Value path)
  else canonicalize_an_opaque_pathname pathname_value.

(** The value without a single leading character. *)
Definition strip_leading (value : bytes) (code_point : Z) : outcome bytes :=
  starts ← string_starts_with value code_point;
  if (starts : bool) then substring_from_byte_offset value 1 (length value - 1) else Returned value.

Definition process_search_for_init (value : bytes) (type : PatternProcessType.process_type) : outcome bytes :=
  stripped_value ← strip_leading value c_question;
  if bool_decide (type = PatternProcessType.Pattern) then Returned stripped_value
  else canonicalize_a_search stripped_value.

Definition process_hash_for_init (value : bytes) (type : PatternProcessType.process_type) : outcome bytes :=
  stripped_value ← strip_leading value c_hash;
  if bool_decide (type = PatternProcessType.Pattern) then Returned stripped_value
  else canonicalize_a_hash stripped_value.

(** [result.member = process_a_base_url_string(string, type)] under a condition. *)
Definition inherit (condition : bool) (set : Init → option bytes → Init) (result : Init) (string : outcome bytes)
    (type : PatternProcessType.process_type) : outcome Init :=
  if condition then s ← string; processed ← process_a_base_url_string s type; Returned (set result (Some processed))
  else Returned result.

(** Steps 11.3 to 11.10. *)
Definition inherit_from_base_url (init result : Init) (base_url : URL) (type : PatternProcessType.process_type) : outcome Init :=
  let not_pattern := negb (bool_decide (type = PatternProcessType.Pattern)) in
  let no_protocol := absent (init_protocol init) in
  let no_hostname := no_protocol && absent (init_hostname init) in
  let no_port := no_hostname && absent (init_port init) in
  let no_username := no_port && absent (init_username init) in
  let no_pathname := no_port && absent (init_pathname init) in
  let no_search := no_pathname && absent (init_search init) in
  let no_hash := no_search && absent (init_hash init) in
  result ← inherit no_protocol with_protocol result (Returned (scheme base_url)) type;
  result ← inherit (not_pattern && no_username) with_init_username result (Returned (username base_url)) type;
  result ← inherit (not_pattern && (no_username && absent (init_password init))) with_init_password result
             (Returned (password base_url)) type;
  result ← inherit no_hostname with_hostname result
             (match host base_url with Some h => host_serialize h | None => Returned [] end) type;
  result ← (if no_port then
              match port base_url with
              | None => Returned (with_init_port result (Some []))
              | Some p => s ← format_decimal p; Returned (with_init_port result (Some s))
              end
            else Returned result);
  result ← inherit no_pathname with_pathname result (serialize_path base_url) type;
  result ← inherit no_search with_search result (Returned (default [] (query base_url))) type;
  inherit no_hash with_hash result (Returned (default [] (fragment base_url))) type.

(** Steps 18.1 and 18.2: the given pathname, relative to the base URL's. *)
Definition resolve_pathname (pathname : bytes) (base_url : option URL) (type : PatternProcessType.process_type) : outcome bytes :=
  match base_url with
  | Some base_url =>
      if negb (has_an_opaque_path base_url) && negb (is_an_absolute_pathname pathname type) then
        path ← serialize_path base_url;
        base_url_path ← process_a_base_url_string path type;
        match find_last base_url_path c_slash with
        | Some slash_index =>
            new_pathname ← substring_view base_url_path 0 (slash_index + 1);
            must_to_string (new_pathname ++ pathname)
        | None => Returned pathname
        end
      else Returned pathname
  | None => Returned pathname
  end.

(** [result.member = TRY(f(init.member.value()))] if the member exists. *)
Definition given (member : option bytes) (set : Init → option bytes → Init) (result : Init)
    (f : bytes → outcome (PatternErrorOr bytes)) : outcome (PatternErrorOr Init) :=
  match member with
  | Some value => processed ←? f value; Returned (Value (set result (Some processed)))
  | None => Returned (Value result)
  end.

(** Steps 12 to 20. *)
Definition process_members (init result : Init) (base_url : option URL) (type : PatternProcessType.process_type)
    : outcome (PatternErrorOr Init) :=
  result ←? given (init_protocol init) with_protocol result (λ v, process_protocol_for_init v type);
  result ←? given (init_username init) with_init_username result (infallible (λ v, process_username_for_init v type));
  result ←? given (init_password init) with_init_password result (infallible (λ v, process_password_for_init v type));
  result ←? given (init_hostname init) with_hostname result (λ v, process_hostname_for_init v type);
  let result_protocol_string := default [] (init_protocol result) in
  result ←? given (init_port init) with_init_port result (λ v, process_port_for_init v result_protocol_string type);
  result ←? given (init_pathname init) with_pathname result
    (λ v, pathname ← resolve_pathname v base_url type;
          process_pathname_for_init pathname result_protocol_string type);
  result ←? given (init_search init) with_search result (infallible (λ v, process_search_for_init v type));
  given (init_hash init) with_hash result (infallible (λ v, process_hash_for_init v type)).

Definition process_a_url_pattern_init (init : Init) (type : PatternProcessType.process_type)
    (protocol username password hostname port pathname search hash : option bytes) : outcome (PatternErrorOr Init) :=
  let result := mk_init protocol username password hostname port pathname search hash None in
  match init_base_url init with
  | Some base_url_string =>
      '(base_url, _) ← basic_parse base_url_string None None None None;
      match base_url with
      | None =>
          message ← must_to_string (sv "Invalid base URL '" ++ base_url_string ++ sv "' provided for URLPattern");
          Returned (ErrorInfo message)
      | Some base_url =>
          result ← inherit_from_base_url init result base_url type;
          process_members init result (Some base_url) type
      end
  | None => process_members init result None type
  end.

End Model.

(** ** What processing makes of the members *)

(** For matching, every component is there and is printable ASCII; in a pattern a
    component may be missing, and is any well-formed text. *)
Definition member_ok (type : PatternProcessType.process_type) (member : option bytes) : Prop :=
  match type, member with
  | PatternProcessType.Pattern, Some s => valid_utf8 s
  | PatternProcessType.Pattern, None => True
  | PatternProcessType.URL, Some s => Forall printable s
  | PatternProcessType.URL, None => False
  end.

Definition components (i : Init) : list (option bytes) :=
  [init_protocol i; init_username i; init_password i; init_hostname i; init_port i; init_pathname i; init_search i;
   init_hash i].

Definition components_ok (type : PatternProcessType.process_type) (i : Init) : Prop := Forall (member_ok type) (components i).

(** The given members are well-formed text. *)
Definition init_valid (i : Init) : Prop :=
  Forall (from_option valid_utf8 True) (components i ++ [init_base_url i]).

(** An assignment to one component. *)
Definition is_setter (set : Init → option bytes → Init) : Prop :=
  ∀ type i s, components_ok type i → member_ok type (Some s) → components_ok type (set i (Some s)).

Ltac solve_setter :=
  intros ? ? ? ? ?; unfold components_ok, components in *; cbn;
  repeat match goal with H : Forall _ (_ :: _) |- _ => apply Forall_cons in H as [? ?] end;
  by repeat constructor.

#[local] Hint Extern 1 (is_setter _) => solve_setter : ladybird.

(** A step that returns an error, or an init whose components are as they should
    be. *)
Definition init_goal (type : PatternProcessType.process_type) (m : outcome (PatternErrorOr Init)) : Prop :=
  ∃ r, m = Returned r ∧ ∀ i, r = Value i → components_ok type i.

Lemma init_goal_value type i : components_ok type i → init_goal type (Returned (Value i)).
Proof. intros Hi. eexists. split; [done|]. by intros j [= <-]. Qed.

Lemma init_goal_try type m k :
  init_goal type m → (∀ i, components_ok type i → init_goal type (k i)) → init_goal type (pattern_try m k).
Proof.
  intros (r & -> & Hr) Hk. unfold pattern_try. rewrite bind_value. destruct r as [e|i]; [by eexists|].
  by apply Hk, Hr.
Qed.

(** A function that processes a member. *)
Definition processes (type : PatternProcessType.process_type) (f : bytes → outcome (PatternErrorOr bytes)) : Prop :=
  ∀ v, valid_utf8 v → ∃ r, f v = Returned r ∧ ∀ w, r = Value w → member_ok type (Some w).

Lemma init_goal_given type member set result f :
  is_setter set → components_ok type result → from_option valid_utf8 True member → processes type f →
  init_goal type (given member set result f).
Proof.
  intros Hset Hr Hm Hf. destruct member as [v|]; [|by apply init_goal_value]. cbn [given].
  destruct (Hf v Hm) as (r & Hv & Hw). unfold pattern_try. rewrite Hv, bind_value.
  destruct r as [e|w]; [by eexists|]. apply init_goal_value, Hset; [done|by apply Hw].
Qed.

Lemma printable_valid s : Forall printable s → valid_utf8 s.
Proof. intros [Ha Hb]%printable_ascii. by apply ascii_valid_utf8. Qed.

Lemma member_ok_printable type s : Forall printable s → member_ok type (Some s).
Proof. intros Hs. destruct type; [by apply printable_valid|done]. Qed.

Section Process.
Context `{SimdutfOk} `{FastFloatOk} `{Icu} `{!IcuOk} `{LegacyEncodersOk}.

(** *** The functions that process one member *)
Lemma canonicalizer_processes type (f : EncodingCallback) `{!Canonicalizer f} : processes type f.
Proof.
  intros v Hv. destruct (canonicalizes v Hv) as (r & -> & Hr). eexists. split; [done|].
  intros w Hw. by apply member_ok_printable, Hr.
Qed.

(** In a pattern a member is taken as it is. *)
Lemma process_if_pattern type (f : EncodingCallback) `{!Canonicalizer f} :
  processes type (λ v, if bool_decide (type = PatternProcessType.Pattern) then Returned (Value v) else f v).
Proof.
  case_bool_decide as Ht; [|by apply canonicalizer_processes]. subst type. intros v Hv.
  eexists. split; [done|]. by intros w [= <-].
Qed.

Lemma substring_offset_valid s start n :
  (start + n ≤ length s)%nat → valid_utf8 (take n (drop start s)) →
  substring_from_byte_offset s start n = Returned (take n (drop start s)).
Proof.
  intros Hl Hv. unfold substring_from_byte_offset. destruct (Nat.eqb_spec n 0) as [->|Hn]; [done|].
  rewrite substring_view_in_range by lia. rewrite bind_value, from_utf8_valid by done. done.
Qed.

(** A step before the processing that keeps the text well-formed. *)
Lemma processes_after type (strip : bytes → outcome bytes) f :
  (∀ v, valid_utf8 v → ∃ w, strip v = Returned w ∧ valid_utf8 w) → processes type f →
  processes type (λ v, w ← strip v; f w).
Proof. intros Hs Hf v Hv. destruct (Hs v Hv) as (w & -> & Hw). rewrite bind_value. by apply Hf. Qed.

Lemma strip_trailing_colon_spec v :
  valid_utf8 v →
  ∃ w, (if ends_with v [c_colon] then substring_from_byte_offset v 0 (length v - 1) else Returned v) = Returned w
    ∧ valid_utf8 w ∧ (length w ≤ length v)%nat.
Proof.
  intros Hv. destruct (ends_with v [c_colon]) eqn:E; [|by eexists].
  unfold ends_with in E. destruct v as [|b v] using rev_ind; [done|]. clear IHv.
  assert (b = c_colon) as ->.
  { destruct (v ++ [b]) eqn:Ev; [by destruct v|]. rewrite <- Ev in E. case_match; [done|]. bool_to_prop.
    rewrite length_app, Nat.add_sub, drop_app_length in E. by injection E. }
  apply valid_utf8_snoc in Hv; [|done]. exists v. rewrite length_app. split_and!; [|done|lia].
  rewrite Nat.add_sub, substring_offset_valid; rewrite ?drop_0; [by rewrite take_app_length|rewrite length_app; lia|].
  by rewrite take_app_length.
Qed.

Lemma strip_trailing_colon v :
  valid_utf8 v →
  ∃ w, (if ends_with v [c_colon] then substring_from_byte_offset v 0 (length v - 1) else Returned v) = Returned w
    ∧ valid_utf8 w.
Proof. intros Hv. destruct (strip_trailing_colon_spec v Hv) as (w & -> & Hw & _). by exists w. Qed.

Lemma strip_leading_returns v c :
  c < 0x80 → valid_utf8 v → ∃ w, strip_leading v c = Returned w ∧ valid_utf8 w.
Proof.
  intros Hc Hv. unfold strip_leading, string_starts_with. destruct v as [|b v]; [by eexists|]. cbn [is_empty].
  destruct (iterator_deref_returns (b :: v)) as [d Hd]; [done|]. unfold first_code_point. rewrite Hd, !bind_value.
  destruct (Z.eqb_spec d c) as [->|Hne]; [|by eexists].
  assert (valid_utf8 v) as Ht.
  { eapply (valid_utf8_tail b); [|done]. destruct (Z.lt_ge_cases b 0x80) as [|Hb]; [done|].
    destruct (valid_utf8_deref (b :: v) 0 b c Hv eq_refl Hd) as [[? _]|[_ ?]]; lia. }
  exists v. split; [|done]. cbn [length]. rewrite Nat.sub_succ, Nat.sub_0_r.
  rewrite substring_offset_valid; cbn [drop]; rewrite ?drop_0, ?take_ge by lia; done.
Qed.

(** *** The base URL *)
Lemma escape_chars_ascii special s :
  Forall printable s → Forall printable (escape_chars special s).
Proof.
  intros Hs. unfold escape_chars. induction Hs as [|c s Hc _ IH]; cbn [flat_map]; [constructor|].
  apply Forall_app. split; [|done]. destruct (contains_char special c);
    repeat (apply Forall_cons; split; [first [done|unfold printable; lia]|]); constructor.
Qed.

Lemma base_url_string_returns s type :
  Forall printable s → ∃ w, process_a_base_url_string s type = Returned w ∧ Forall printable w.
Proof.
  intros Hs. unfold process_a_base_url_string. destruct (negb _); [by eexists|].
  unfold escape_a_pattern_string. rewrite PatternParser.ascii_view_spec, verify_true by (by apply printable_ascii).
  eexists. split; [done|]. by apply escape_chars_ascii.
Qed.

Lemma inherit_returns condition set result string type :
  is_setter set → components_ok type result → (∃ s, string = Returned s ∧ Forall printable s) →
  ∃ i, inherit condition set result string type = Returned i ∧ components_ok type i.
Proof.
  intros Hset Hr (s & -> & Hs). unfold inherit. destruct condition; [|by eexists]. rewrite bind_value.
  destruct (base_url_string_returns s type Hs) as (w & -> & Hw). rewrite bind_value.
  eexists. split; [done|]. by apply Hset, member_ok_printable.
Qed.

Lemma option_printable set (o : option bytes) :
  match o with Some q => Forall (encoded_byte set) q | None => True end → Forall printable (default [] o).
Proof. destruct o; cbn; [by apply encoded_printable|constructor]. Qed.

(** The components of a URL as strings. *)
Lemma host_string_returns u :
  url_core u →
  ∃ s, match host u with Some h => host_serialize h | None => Returned [] end = Returned s ∧ Forall printable s.
Proof.
  intros Hu. pose proof (core_host _ Hu) as Hh. destruct (host u) as [h|]; [|by eexists].
  destruct (host_serialize_returns _ _ Hh) as (out & -> & Hout). by eexists.
Qed.

Lemma port_string_returns u :
  url_core u →
  ∃ s, match port u with Some p => format_decimal p | None => Returned [] end = Returned s ∧ Forall printable s.
Proof.
  intros Hu. pose proof (core_port _ Hu) as Hp. destruct (port u) as [n|]; [|by eexists]. destruct Hp as [Hr _].
  destruct (format_decimal_printed n) as (digits & -> & Hd); [lia|]. eexists. split; [done|]. by eapply printed_printable.
Qed.

(** One assignment, and the rest. *)
Lemma inherit_then condition set result string type (k : Init → outcome Init) :
  is_setter set → components_ok type result → (∃ s, string = Returned s ∧ Forall printable s) →
  (∀ i, components_ok type i → ∃ j, k i = Returned j ∧ components_ok type j) →
  ∃ j, (i ← inherit condition set result string type; k i) = Returned j ∧ components_ok type j.
Proof.
  intros Hset Hr Hs Hk. destruct (inherit_returns condition set result string type Hset Hr Hs) as (i & -> & Hi).
  rewrite bind_value. by apply Hk.
Qed.

Lemma inherit_from_base_url_returns init result base_url type :
  url_core base_url → components_ok type result →
  ∃ i, inherit_from_base_url init result base_url type = Returned i ∧ components_ok type i.
Proof.
  intros Hu Hr. unfold inherit_from_base_url. cbv zeta.
  apply inherit_then; [eauto with ladybird|done|eexists; split; [done|apply scheme_printable, Hu]|]. intros r1 Hr1.
  apply inherit_then; [eauto with ladybird|done|eexists; split; [done|eapply encoded_printable, Hu]|]. intros r2 Hr2.
  apply inherit_then; [eauto with ladybird|done|eexists; split; [done|eapply encoded_printable, Hu]|]. intros r3 Hr3.
  apply inherit_then; [eauto with ladybird|done|by apply host_string_returns|]. intros r4 Hr4.
  match goal with |- context [mbind _ ?m] => assert (∃ r5, m = Returned r5 ∧ components_ok type r5) as (r5 & -> & Hr5) end.
  { assert (is_setter with_init_port) as Hset by eauto with ladybird. destruct (_ && _); [|by eexists].
    destruct (port_string_returns base_url Hu) as (s & Hs & Hp). destruct (port base_url) as [n|].
    - rewrite Hs, bind_value. eexists. split; [done|]. by apply Hset, member_ok_printable.
    - eexists. split; [done|]. by apply Hset, member_ok_printable. }
  rewrite bind_value.
  apply inherit_then; [eauto with ladybird|done|by apply serialize_path_returns|]. intros r6 Hr6.
  apply inherit_then; [eauto with ladybird|done|eexists; split; [done|eapply option_printable, Hu]|]. intros r7 Hr7.
  apply inherit_returns; [eauto with ladybird|done|eexists; split; [done|eapply option_printable, Hu]].
Qed.

Lemma resolve_pathname_returns v base_url type :
  valid_utf8 v → (∀ u, base_url = Some u → url_core u) →
  ∃ w, resolve_pathname v base_url type = Returned w ∧ valid_utf8 w.
Proof.
  intros Hv Hbase. destruct base_url as [u|]; [|by eexists]. cbn [resolve_pathname].
  destruct (_ && _); [|by eexists].
  destruct (serialize_path_returns u (Hbase u eq_refl)) as (path & -> & Hp). rewrite bind_value.
  destruct (base_url_string_returns path type Hp) as (base & -> & Hb). rewrite bind_value.
  destruct (find_last base c_slash) as [k|] eqn:Ek; [|by eexists].
  pose proof (find_last_spec base c_slash) as Hk. rewrite Ek in Hk. destruct Hk as [Hk _].
  rewrite substring_view_in_range by lia. rewrite bind_value, drop_0. unfold must_to_string.
  assert (valid_utf8 (take (k + 1) base ++ v)) as Hw.
  { apply valid_utf8_app; [|done]. by apply printable_valid, Forall_take. }
  rewrite from_utf8_valid by done. by eexists.
Qed.

(** *** The given members *)
Lemma infallible_if_pattern type (f : bytes → outcome bytes) `{!Canonicalizer (infallible f)} :
  processes type (infallible (λ v, if bool_decide (type = PatternProcessType.Pattern) then Returned v else f v)).
Proof.
  intros v Hv. destruct (process_if_pattern type (infallible f) v Hv) as (r & Hr & Hw). exists r. split; [|done].
  rewrite <- Hr. unfold infallible. by destruct (bool_decide _).
Qed.

(** The stripped members: search and hash. *)
Lemma infallible_after type (strip : bytes → outcome bytes) (f : bytes → outcome bytes) :
  (∀ v, valid_utf8 v → ∃ w, strip v = Returned w ∧ valid_utf8 w) → processes type (infallible f) →
  processes type (infallible (λ v, w ← strip v; f w)).
Proof.
  intros Hs Hf v Hv. destruct (Hs v Hv) as (w & Hw & Hvw). destruct (Hf w Hvw) as (r & Hr & Hok).
  exists r. split; [|done]. unfold infallible in *. by rewrite Hw, bind_value.
Qed.

Lemma process_protocol_processes type : processes type (λ v, process_protocol_for_init v type).
Proof.
  apply (processes_after type (λ v, if ends_with v [c_colon] then _ else _)); [apply strip_trailing_colon|].
  apply (process_if_pattern type canonicalize_a_protocol).
Qed.

Lemma process_pathname_processes protocol type : processes type (λ v, process_pathname_for_init v protocol type).
Proof.
  unfold process_pathname_for_init. destruct (is_empty protocol || is_special_scheme protocol).
  - apply (process_if_pattern type (infallible canonicalize_a_pathname)).
  - apply (process_if_pattern type canonicalize_an_opaque_pathname).
Qed.

Lemma process_members_goal init result base_url type :
  init_valid init → components_ok type result → (∀ u, base_url = Some u → url_core u) →
  init_goal type (process_members init result base_url type).
Proof.
  intros Hinit Hr Hbase. unfold process_members.
  unfold init_valid, components in Hinit. cbn [app] in Hinit.
  repeat match goal with H : Forall _ (_ :: _) |- _ => apply Forall_cons in H as [? ?] end.
  apply init_goal_try; [apply init_goal_given; [eauto with ladybird|done..|apply process_protocol_processes]|].
  intros r1 Hr1. apply init_goal_try; [apply init_goal_given; [eauto with ladybird|done..|]|].
  { apply (infallible_if_pattern type canonicalize_a_username). }
  intros r2 Hr2. apply init_goal_try; [apply init_goal_given; [eauto with ladybird|done..|]|].
  { apply (infallible_if_pattern type canonicalize_a_password). }
  intros r3 Hr3. apply init_goal_try; [apply init_goal_given; [eauto with ladybird|done..|]|].
  { apply (process_if_pattern type canonicalize_a_hostname). }
  intros r4 Hr4. cbv zeta. apply init_goal_try; [apply init_goal_given; [eauto with ladybird|done..|]|].
  { apply (process_if_pattern type (λ v, canonicalize_a_port v (Some (default [] (init_protocol r4))))). }
  intros r5 Hr5. apply init_goal_try; [apply init_goal_given; [eauto with ladybird|done..|]|].
  { apply (processes_after type (λ v, resolve_pathname v base_url type)); [|apply process_pathname_processes].
    intros v Hv. by apply resolve_pathname_returns. }
  intros r6 Hr6. apply init_goal_try; [apply init_goal_given; [eauto with ladybird|done..|]|].
  { apply (infallible_after type (λ v, strip_leading v c_question)); [intros v; by apply strip_leading_returns|].
    apply (infallible_if_pattern type canonicalize_a_search). }
  intros r7 Hr7. apply init_goal_given; [eauto with ladybird|done..|].
  apply (infallible_after type (λ v, strip_leading v c_hash)); [intros v; by apply strip_leading_returns|].
  apply (infallible_if_pattern type canonicalize_a_hash).
Qed.

Lemma process_init_goal init type protocol username password hostname port pathname search hash :
  init_valid init →
  components_ok type (mk_init protocol username password hostname port pathname search hash None) →
  init_goal type (process_a_url_pattern_init init type protocol username password hostname port pathname search hash).
Proof.
  intros Hinit Hr. unfold process_a_url_pattern_init. cbv zeta.
  destruct (init_base_url init) as [base|] eqn:Eb; [|by apply process_members_goal].
  assert (valid_utf8 base) as Hb.
  { unfold init_valid in Hinit. rewrite Eb in Hinit. by apply Forall_app in Hinit as [_ [Hb _]%Forall_cons]. }
  destruct (basic_parse_returns base None None) as (r & u & -> & Hwf); [by apply valid_utf8_bytes|done|].
  rewrite bind_value. destruct r as [v|].
  - destruct (Hwf v eq_refl) as [Hcore _].
    destruct (inherit_from_base_url_returns init _ v type Hcore Hr) as (i & -> & Hi). rewrite bind_value.
    apply process_members_goal; [done..|]. by intros w [= <-].
  - unfold must_to_string. rewrite from_utf8_valid; [by eexists|].
    apply valid_utf8_app; [by apply ascii_valid_utf8; [apply sv_bytes|]|].
    apply valid_utf8_app; [done|]. by apply ascii_valid_utf8; [apply sv_bytes|].
Qed.

End Process.
