(* ===== verification/UrlPatternConstructor.v ===== *)
(** * URL patterns: constructor strings

    LibURL/Pattern/ConstructorStringParser.{h,cpp}: the state machine that splits a
    constructor string into the patterns of its components. *)
From S2P Require Import Prelude CharacterTypes Externals Utf8 StringView Utf8View Format PercentEncoding Ipv4 Ipv6 Host PublicSuffix TextCodec Origin Url UrlParser UrlWellFormed UrlSerializer UrlParserInvariant UrlParserSteps UrlParserCorrect UrlSetters UrlPatternTokenizer UrlPatternParts UrlPatternParser UrlPatternCanon UrlPatternComponent UrlPatternInit.

Module ConstructorState.
Inductive constructor_state :=
| Initial
| Protocol
| Authority
| Username
| Password
| Hostname
| Port
| Pathname
| Search
| Hash
| Done.

#[global] Instance constructor_state_eq_dec : EqDecision constructor_state.
Proof. solve_decision. Defined.
End ConstructorState.


Module ConstructorStringParser.

(** The members but [m_input] are [u32]s, lists and flags. *)
Record ConstructorStringParser := mk_constructor_parser {
  m_input : bytes;
  m_token_list : list Token;
  m_result : Init;
  m_component_start : Z;
  m_token_index : Z;
  m_token_increment : Z;
  m_group_depth : Z;
  m_hostname_ipv6_bracket_depth : Z;
  m_protocol_matches_a_special_scheme : bool;
  m_state : ConstructorState.constructor_state;
}.

Definition new_parser (input : bytes) (token_list : list Token) : ConstructorStringParser :=
  mk_constructor_parser input token_list new_init 0 0 1 0 0 false ConstructorState.Initial.

(** Assignments to one member. *)
Definition with_result (p : ConstructorStringParser) x :=
  mk_constructor_parser (m_input p) (m_token_list p) x (m_component_start p) (m_token_index p) (m_token_increment p)
    (m_group_depth p) (m_hostname_ipv6_bracket_depth p) (m_protocol_matches_a_special_scheme p) (m_state p).
Definition with_component_start (p : ConstructorStringParser) x :=
  mk_constructor_parser (m_input p) (m_token_list p) (m_result p) x (m_token_index p) (m_token_increment p)
    (m_group_depth p) (m_hostname_ipv6_bracket_depth p) (m_protocol_matches_a_special_scheme p) (m_state p).
Definition with_token_index (p : ConstructorStringParser) x :=
  mk_constructor_parser (m_input p) (m_token_list p) (m_result p) (m_component_start p) x (m_token_increment p)
    (m_group_depth p) (m_hostname_ipv6_bracket_depth p) (m_protocol_matches_a_special_scheme p) (m_state p).
Definition with_token_increment (p : ConstructorStringParser) x :=
  mk_constructor_parser (m_input p) (m_token_list p) (m_result p) (m_component_start p) (m_token_index p) x
    (m_group_depth p) (m_hostname_ipv6_bracket_depth p) (m_protocol_matches_a_special_scheme p) (m_state p).
Definition with_group_depth (p : ConstructorStringParser) x :=
  mk_constructor_parser (m_input p) (m_token_list p) (m_result p) (m_component_start p) (m_token_index p)
    (m_token_increment p) x (m_hostname_ipv6_bracket_depth p) (m_protocol_matches_a_special_scheme p) (m_state p).
Definition with_bracket_depth (p : ConstructorStringParser) x :=
  mk_constructor_parser (m_input p) (m_token_list p) (m_result p) (m_component_start p) (m_token_index p)
    (m_token_increment p) (m_group_depth p) x (m_protocol_matches_a_special_scheme p) (m_state p).
Definition with_special_flag (p : ConstructorStringParser) x :=
  mk_constructor_parser (m_input p) (m_token_list p) (m_result p) (m_component_start p) (m_token_index p)
    (m_token_increment p) (m_group_depth p) (m_hostname_ipv6_bracket_depth p) x (m_state p).
Definition with_parser_state (p : ConstructorStringParser) x :=
  mk_constructor_parser (m_input p) (m_token_list p) (m_result p) (m_component_start p) (m_token_index p)
    (m_token_increment p) (m_group_depth p) (m_hostname_ipv6_bracket_depth p)
    (m_protocol_matches_a_special_scheme p) x.

Section Model.
Context `{Simdutf} `{SimdutfUtf16} `{FastFloat} `{Icu} `{IcuProperties} `{LegacyEncoders} `{RegexEngine}.

(** ** Looking at tokens *)
Definition get_a_safe_token (p : ConstructorStringParser) (index : Z) : outcome Token :=
  if index <? Z.of_nat (length (m_token_list p)) then at_index (m_token_list p) (Z.to_nat index)
  else
    token ← must (last (m_token_list p));
    verify (bool_decide (token_kind token = TokenType.End)) (Returned token).

Definition is_a_non_special_pattern_char (p : ConstructorStringParser) (index value' : Z) : outcome bool :=
  token ← get_a_safe_token p index;
  Returned (
    match value token with
    | [] => false
    | first :: _ =>
        if negb (first =? value') then false
        else bool_decide (token_kind token = TokenType.Char)
             || bool_decide (token_kind token = TokenType.EscapedChar)
             || bool_decide (token_kind token = TokenType.InvalidChar)
    end).

Definition next_is_authority_slashes (p : ConstructorStringParser) : outcome bool :=
  first ← is_a_non_special_pattern_char p (wrap32 (m_token_index p + 1)) c_slash;
  if negb first then Returned false
  else
    second ← is_a_non_special_pattern_char p (wrap32 (m_token_index p + 2)) c_slash;
    if negb second then Returned false else Returned true.

Definition is_an_identity_terminator (p : ConstructorStringParser) : outcome bool :=
  is_a_non_special_pattern_char p (m_token_index p) c_at.
Definition is_a_password_prefix (p : ConstructorStringParser) : outcome bool :=
  is_a_non_special_pattern_char p (m_token_index p) c_colon.
Definition is_a_port_prefix (p : ConstructorStringParser) : outcome bool :=
  is_a_non_special_pattern_char p (m_token_index p) c_colon.
Definition is_a_pathname_start (p : ConstructorStringParser) : outcome bool :=
  is_a_non_special_pattern_char p (m_token_index p) c_slash.
Definition is_a_protocol_suffix (p : ConstructorStringParser) : outcome bool :=
  is_a_non_special_pattern_char p (m_token_index p) c_colon.
Definition is_a_hash_prefix (p : ConstructorStringParser) : outcome bool :=
  is_a_non_special_pattern_char p (m_token_index p) c_hash.
Definition is_an_ipv6_open (p : ConstructorStringParser) : outcome bool :=
  is_a_non_special_pattern_char p (m_token_index p) c_lbracket.
Definition is_an_ipv6_close (p : ConstructorStringParser) : outcome bool :=
  is_a_non_special_pattern_char p (m_token_index p) c_rbracket.

Definition current_token (p : ConstructorStringParser) : outcome Token :=
  at_index (m_token_list p) (Z.to_nat (m_token_index p)).

Definition is_a_search_prefix (p : ConstructorStringParser) : outcome bool :=
  prefix ← is_a_non_special_pattern_char p (m_token_index p) c_question;
  if (prefix : bool) then Returned true
  else
    token ← current_token p;
    if negb (bool_decide (value token = sv "?")) then Returned false
    else if m_token_index p =? 0 then Returned true
    else
      previous_token ← get_a_safe_token p (m_token_index p - 1);
      Returned (negb (bool_decide (token_kind previous_token = TokenType.Name)
                      || bool_decide (token_kind previous_token = TokenType.Regexp)
                      || bool_decide (token_kind previous_token = TokenType.Close)
                      || bool_decide (token_kind previous_token = TokenType.Asterisk))).

Definition is_a_group_open (p : ConstructorStringParser) : outcome bool :=
  token ← current_token p; Returned (bool_decide (token_kind token = TokenType.Open)).

Definition is_a_group_close (p : ConstructorStringParser) : outcome bool :=
  token ← current_token p; Returned (bool_decide (token_kind token = TokenType.Close)).

(** ** Changing state *)
Definition make_a_component_string (p : ConstructorStringParser) : outcome bytes :=
  verify (m_token_index p <? Z.of_nat (length (m_token_list p))) (
    token ← current_token p;
    component_start_token ← get_a_safe_token p (m_component_start p);
    let component_start_input_index := index component_start_token in
    let end_index := index token in
    sub_view ← unicode_substring_view (m_input p) component_start_input_index
                 (wrap32 (end_index - component_start_input_index));
    string ← from_utf8 sub_view;
    must string).

Definition set_result_for_active_state (p : ConstructorStringParser) (v : option bytes)
    : outcome ConstructorStringParser :=
  let result := m_result p in
  match m_state p with
  | ConstructorState.Protocol => Returned (with_result p (with_protocol result v))
  | ConstructorState.Username => Returned (with_result p (with_init_username result v))
  | ConstructorState.Password => Returned (with_result p (with_init_password result v))
  | ConstructorState.Hostname => Returned (with_result p (with_hostname result v))
  | ConstructorState.Port => Returned (with_result p (with_init_port result v))
  | ConstructorState.Pathname => Returned (with_result p (with_pathname result v))
  | ConstructorState.Search => Returned (with_result p (with_search result v))
  | ConstructorState.Hash => Returned (with_result p (with_hash result v))
  | ConstructorState.Initial | ConstructorState.Authority | ConstructorState.Done => VerifyFailed
  end.

Definition result_for_active_state (p : ConstructorStringParser) : outcome (option bytes) :=
  let result := m_result p in
  match m_state p with
  | ConstructorState.Protocol => Returned (init_protocol result)
  | ConstructorState.Username => Returned (init_username result)
  | ConstructorState.Password => Returned (init_password result)
  | ConstructorState.Hostname => Returned (init_hostname result)
  | ConstructorState.Port => Returned (init_port result)
  | ConstructorState.Pathname => Returned (init_pathname result)
  | ConstructorState.Search => Returned (init_search result)
  | ConstructorState.Hash => Returned (init_hash result)
  | ConstructorState.Initial | ConstructorState.Authority | ConstructorState.Done => VerifyFailed
  end.

Definition first_is_one_of (state : ConstructorState.constructor_state) (states : list ConstructorState.constructor_state) : bool :=
  existsb (λ s, bool_decide (state = s)) states.

(** Step 2 of [change_state]: the components that are skipped. *)
Definition fill_skipped (p : ConstructorStringParser) (new_state : ConstructorState.constructor_state) : Init :=
  let from := first_is_one_of (m_state p) in
  let to := first_is_one_of new_state in
  let result := m_result p in
  let result :=
    if from [ConstructorState.Protocol; ConstructorState.Authority; ConstructorState.Username; ConstructorState.Password]
       && to [ConstructorState.Port; ConstructorState.Pathname; ConstructorState.Search; ConstructorState.Hash]
       && absent (init_hostname result)
    then with_hostname result (Some []) else result in
  let result :=
    if from [ConstructorState.Protocol; ConstructorState.Authority; ConstructorState.Username;
             ConstructorState.Password; ConstructorState.Hostname; ConstructorState.Port]
       && to [ConstructorState.Search; ConstructorState.Hash] && absent (init_pathname result)
    then with_pathname result (Some (if m_protocol_matches_a_special_scheme p then sv "/" else [])) else result in
  if from [ConstructorState.Protocol; ConstructorState.Authority; ConstructorState.Username;
           ConstructorState.Password; ConstructorState.Hostname; ConstructorState.Port; ConstructorState.Pathname]
     && bool_decide (new_state = ConstructorState.Hash) && absent (init_search result)
  then with_search result (Some []) else result.

Definition change_state (p : ConstructorStringParser) (new_state : ConstructorState.constructor_state) (skip : Z)
    : outcome ConstructorStringParser :=
  p ← (if negb (first_is_one_of (m_state p)
                  [ConstructorState.Initial; ConstructorState.Authority; ConstructorState.Done])
       then component ← make_a_component_string p; set_result_for_active_state p (Some component)
       else Returned p);
  let p :=
    if negb (bool_decide (m_state p = ConstructorState.Initial)) && negb (bool_decide (new_state = ConstructorState.Done))
    then with_result p (fill_skipped p new_state) else p in
  let p := with_parser_state p new_state in
  let p := with_token_index p (wrap32 (m_token_index p + skip)) in
  let p := with_component_start p (m_token_index p) in
  Returned (with_token_increment p 0).

Definition rewind (p : ConstructorStringParser) : ConstructorStringParser :=
  with_token_increment (with_token_index p (m_component_start p)) 0.

Definition rewind_and_set_state (p : ConstructorStringParser) (state : ConstructorState.constructor_state) : ConstructorStringParser :=
  with_parser_state (rewind p) state.

Definition compute_protocol_matches_a_special_scheme_flag (p : ConstructorStringParser)
    : outcome (PatternErrorOr ConstructorStringParser) :=
  protocol_string ← make_a_component_string p;
  protocol_component ←? Component.compile protocol_string canonicalize_a_protocol options_default;
  matches ← Component.protocol_component_matches_a_special_scheme protocol_component;
  Returned (Value (if (matches : bool) then with_special_flag p true else p)).

(** ** The state machine *)

(** Conditions in the order of the code; the second is evaluated only when the
    first is false. *)
Definition or_else (first second : outcome bool) : outcome bool :=
  b ← first; if (b : bool) then Returned true else second.

Definition ends_to_search_or_hash (p : ConstructorStringParser) : outcome ConstructorStringParser :=
  search ← is_a_search_prefix p;
  if (search : bool) then change_state p ConstructorState.Search 1
  else
    hash ← is_a_hash_prefix p;
    if (hash : bool) then change_state p ConstructorState.Hash 1 else Returned p.

Definition ends_to_pathname (p : ConstructorStringParser) : outcome ConstructorStringParser :=
  pathname ← is_a_pathname_start p;
  if (pathname : bool) then change_state p ConstructorState.Pathname 0 else ends_to_search_or_hash p.

Definition initial_state (p : ConstructorStringParser) : outcome ConstructorStringParser :=
  suffix ← is_a_protocol_suffix p;
  if (suffix : bool) then Returned (rewind_and_set_state p ConstructorState.Protocol) else Returned p.

Definition protocol_state (p : ConstructorStringParser) : outcome (PatternErrorOr ConstructorStringParser) :=
  suffix ← is_a_protocol_suffix p;
  if (suffix : bool) then
    p ←? compute_protocol_matches_a_special_scheme_flag p;
    slashes ← next_is_authority_slashes p;
    p ← (if (slashes : bool) then change_state p ConstructorState.Authority 3
         else if m_protocol_matches_a_special_scheme p then change_state p ConstructorState.Authority 1
         else change_state p ConstructorState.Pathname 1);
    Returned (Value p)
  else Returned (Value p).

Definition pattern_authority_state (p : ConstructorStringParser) : outcome ConstructorStringParser :=
  identity ← is_an_identity_terminator p;
  if (identity : bool) then Returned (rewind_and_set_state p ConstructorState.Username)
  else
    ends ← or_else (is_a_pathname_start p) (or_else (is_a_search_prefix p) (is_a_hash_prefix p));
    if (ends : bool) then Returned (rewind_and_set_state p ConstructorState.Hostname) else Returned p.

Definition username_state (p : ConstructorStringParser) : outcome ConstructorStringParser :=
  password ← is_a_password_prefix p;
  if (password : bool) then change_state p ConstructorState.Password 1
  else
    identity ← is_an_identity_terminator p;
    if (identity : bool) then change_state p ConstructorState.Hostname 1 else Returned p.

Definition password_state (p : ConstructorStringParser) : outcome ConstructorStringParser :=
  identity ← is_an_identity_terminator p;
  if (identity : bool) then change_state p ConstructorState.Hostname 1 else Returned p.

Definition hostname_state (p : ConstructorStringParser) : outcome ConstructorStringParser :=
  opens ← is_an_ipv6_open p;
  if (opens : bool) then Returned (with_bracket_depth p (wrap32 (m_hostname_ipv6_bracket_depth p + 1)))
  else
    closes ← is_an_ipv6_close p;
    if (closes : bool) then
      verify (negb (m_hostname_ipv6_bracket_depth p =? 0))
        (Returned (with_bracket_depth p (m_hostname_ipv6_bracket_depth p - 1)))
    else
      port ← is_a_port_prefix p;
      if port && (m_hostname_ipv6_bracket_depth p =? 0) then change_state p ConstructorState.Port 1
      else ends_to_pathname p.

Definition search_state (p : ConstructorStringParser) : outcome ConstructorStringParser :=
  hash ← is_a_hash_prefix p;
  if (hash : bool) then change_state p ConstructorState.Hash 1 else Returned p.

(** The switch on the state. *)
Definition run_constructor_state (p : ConstructorStringParser) : outcome (PatternErrorOr ConstructorStringParser) :=
  let ok m := p ← m; Returned (Value p) in
  match m_state p with
  | ConstructorState.Initial => ok (initial_state p)
  | ConstructorState.Protocol => protocol_state p
  | ConstructorState.Authority => ok (pattern_authority_state p)
  | ConstructorState.Username => ok (username_state p)
  | ConstructorState.Password => ok (password_state p)
  | ConstructorState.Hostname => ok (hostname_state p)
  | ConstructorState.Port => ok (ends_to_pathname p)
  | ConstructorState.Pathname => ok (ends_to_search_or_hash p)
  | ConstructorState.Search => ok (search_state p)
  | ConstructorState.Hash => ok (Returned p)
  | ConstructorState.Done => VerifyFailed
  end.

(** [m_token_index += m_token_increment] *)
Definition advance (p : ConstructorStringParser) : ConstructorStringParser :=
  with_token_index p (wrap32 (m_token_index p + m_token_increment p)).

(** The end token in the initial state: a relative pattern. *)
Definition begin_relative (p : ConstructorStringParser) : outcome ConstructorStringParser :=
  let p := rewind p in
  hash ← is_a_hash_prefix p;
  if (hash : bool) then change_state p ConstructorState.Hash 1
  else
    search ← is_a_search_prefix p;
    if (search : bool) then change_state p ConstructorState.Search 1 else change_state p ConstructorState.Pathname 0.

(** The body of the loop: the parser to go on with, or the one that is left after
    [break]. *)
Definition constructor_step (p : ConstructorStringParser)
    : outcome (PatternErrorOr (ConstructorStringParser + ConstructorStringParser)) :=
  let p := with_token_increment p 1 in
  token ← current_token p;
  if bool_decide (token_kind token = TokenType.End) then
    if bool_decide (m_state p = ConstructorState.Initial) then
      p ← begin_relative p; Returned (Value (inl (advance p)))
    else if bool_decide (m_state p = ConstructorState.Authority) then
      Returned (Value (inl (advance (rewind_and_set_state p ConstructorState.Hostname))))
    else p ← change_state p ConstructorState.Done 0; Returned (Value (inr p))
  else
    opens ← is_a_group_open p;
    if (opens : bool) then Returned (Value (inl (advance (with_group_depth p (wrap32 (m_group_depth p + 1))))))
    else
      let switch p := p ←? run_constructor_state p; Returned (Value (inl (advance p))) in
      if m_group_depth p >? 0 then
        closes ← is_a_group_close p;
        if (closes : bool)
        then verify (negb (m_group_depth p =? 0)) (switch (with_group_depth p (m_group_depth p - 1)))
        else Returned (Value (inl (advance p)))
      else switch p.

Fixpoint constructor_loop (fuel : nat) (p : ConstructorStringParser) : outcome (PatternErrorOr ConstructorStringParser) :=
  match fuel with
  | O => OutOfFuel
  | S fuel =>
      if m_token_index p <? Z.of_nat (length (m_token_list p)) then
        next ←? constructor_step p;
        match next with inl p => constructor_loop fuel p | inr p => Returned (Value p) end
      else Returned (Value p)
  end.

(** Eleven states, each of which reads every token at most once. *)
Definition constructor_fuel (token_list : list Token) : nat := S (11 * S (length token_list)).

Definition parse (input : bytes) : outcome (PatternErrorOr Init) :=
  token_list ←? Tokenizer.tokenize input Lenient;
  parser ←? constructor_loop (constructor_fuel token_list) (new_parser input token_list);
  let result := m_result parser in
  Returned (Value (
    if negb (absent (init_hostname result)) && absent (init_port result)
    then with_init_port result (Some []) else result)).

End Model.
(** ** The parser returns *)

(** The positions of the tokens do not decrease. *)
Lemma lex_monotone `{IcuProperties} fuel position l :
  Forall is_scalar l → (length l ≤ fuel)%nat →
  ∀ i j a b, (i ≤ j)%nat → Tokenizer.lex fuel position l !! i = Some a → Tokenizer.lex fuel position l !! j = Some b →
  index a ≤ index b.
Proof.
  revert position l. induction fuel as [|fuel IH]; intros position l Hl Hfuel i j a b Hij Ha Hb.
  all: destruct l as [|c l]; [destruct i, j; try lia; cbn in Ha, Hb; by simplify_eq|].
  { cbn in Hfuel. lia. }
  apply Forall_cons in Hl as Hc. destruct Hc as [Hc _].
  destruct (Tokenizer.lex_cons fuel position c l Hc) as (type & val & n & _ & Hn & _ & _ & Hlex).
  rewrite Hlex in Ha, Hb. cbn [length] in Hfuel. destruct i as [|i], j as [|j]; try lia.
  - by simplify_eq.
  - injection Ha as <-. apply Tokenizer.lex_spec in Hb as (m & _ & -> & _);
      [cbn [index]; lia|by apply Forall_drop|rewrite length_drop; cbn [length]; lia].
  - eapply (IH (position + n)%nat (drop n (c :: l))); [by apply Forall_drop|rewrite length_drop; cbn [length]; lia| |done|done].
    lia.
Qed.

Definition state_rank (state : ConstructorState.constructor_state) : nat :=
  match state with
  | ConstructorState.Initial => 0
  | ConstructorState.Protocol => 1
  | ConstructorState.Authority => 2
  | ConstructorState.Username => 3
  | ConstructorState.Password => 4
  | ConstructorState.Hostname => 5
  | ConstructorState.Port => 6
  | ConstructorState.Pathname => 7
  | ConstructorState.Search => 8
  | ConstructorState.Hash => 9
  | ConstructorState.Done => 10
  end.

Section Total.
Context `{SimdutfOk} `{SimdutfUtf16} `{FastFloatOk} `{Icu} `{!IcuOk} `{IcuProperties} `{LegacyEncodersOk} `{RegexEngine}.
Context (cps : list Z) (Hcps : Forall is_scalar cps) (Hlen : Z.of_nat (length cps) + 3 < 2 ^ 32).
Context (Hbracket : c_rbracket ∉ utf8_of cps).

Notation toks := (Tokenizer.reference_tokens cps).
Notation count := (length toks).

Record wf (p : ConstructorStringParser) : Prop := {
  wf_input : m_input p = utf8_of cps;
  wf_tokens : m_token_list p = toks;
  wf_index : 0 ≤ m_component_start p ≤ m_token_index p ∧ m_token_index p < Z.of_nat count;
  wf_result : init_valid (m_result p);
}.

(** *** The tokens *)
Lemma tokens_end : ∃ init, toks = init ++ [mk_token TokenType.End (Z.of_nat (length cps)) []].
Proof.
  destruct (Tokenizer.lex_spec (length cps) 0 cps Hcps) as ((init & Hinit & _) & _); [done|]. by exists init.
Qed.

Lemma lex_length fuel position l : (length (Tokenizer.lex fuel position l) ≤ S fuel)%nat.
Proof.
  revert position l. induction fuel as [|fuel IH]; intros position [|c l]; cbn [Tokenizer.lex length]; try lia.
  destruct (Tokenizer.lex_one c l) as [[type val] n]. cbn [length]. specialize (IH (position + n)%nat (drop n (c :: l))). lia.
Qed.

Lemma count_small : Z.of_nat count + 2 < 2 ^ 32.
Proof. pose proof (lex_length (length cps) 0 cps). unfold Tokenizer.reference_tokens. lia. Qed.

(** A token that is not the end token is not the last one. *)
Lemma token_not_last i t : toks !! i = Some t → token_kind t ≠ TokenType.End → (S i < count)%nat.
Proof.
  destruct tokens_end as [init Hinit]. rewrite Hinit, length_app. cbn [length]. intros Ht Hk.
  apply lookup_app_Some in Ht as [Ht%lookup_lt_Some|[Hge Ht]]; [lia|].
  destruct (i - length init)%nat; [|done]. by injection Ht as <-.
Qed.

Lemma token_value_in i t b rest :
  toks !! i = Some t → value t = b :: rest → b ∈ utf8_of cps.
Proof.
  intros Ht Hv. destruct (Tokenizer.lex_spec (length cps) 0 cps Hcps) as (_ & Hcat & _); [done|].
  fold toks in Hcat. rewrite <- Hcat. apply list_elem_of_In, in_concat. exists (Tokenizer.token_source t). split.
  - apply in_map_iff. exists t. split; [done|]. by eapply list_elem_of_In, list_elem_of_lookup_2.
  - apply list_elem_of_In. unfold Tokenizer.token_source. rewrite Hv. destruct (token_kind t); set_solver.
Qed.

Lemma token_index_range i t : toks !! i = Some t → 0 ≤ index t ≤ Z.of_nat (length cps).
Proof.
  intros Ht. apply Tokenizer.lex_spec in Ht as (m & Hm & -> & _); [lia|done|done].
Qed.

Lemma safe_token_spec p i :
  wf p → 0 ≤ i → ∃ t, get_a_safe_token p i = Returned t
    ∧ (i < Z.of_nat count → toks !! Z.to_nat i = Some t) ∧ (Z.of_nat count ≤ i → token_kind t = TokenType.End).
Proof.
  intros Hp Hi. unfold get_a_safe_token. rewrite (wf_tokens p Hp). destruct (Z.ltb_spec i (Z.of_nat count)) as [Hlt|Hge].
  - destruct (at_index_total toks (Z.to_nat i)) as (t & -> & Ht); [lia|]. exists t. split_and!; [done|done|lia].
  - destruct tokens_end as [init Hinit]. assert (last toks = Some (mk_token TokenType.End (Z.of_nat (length cps)) [])) as ->.
    { rewrite Hinit. apply last_snoc. }
    cbn [must mbind outcome_bind]. rewrite verify_true by done. eexists. split_and!; [done|lia|done].
Qed.

Lemma current_token_spec p :
  wf p → ∃ t, current_token p = Returned t ∧ toks !! Z.to_nat (m_token_index p) = Some t.
Proof.
  intros Hp. pose proof (wf_index p Hp). unfold current_token. rewrite (wf_tokens p Hp).
  apply at_index_total. lia.
Qed.

(** *** The tests *)

(** A test of the token at a position: a positive answer means that it is not the
    last one. *)
Definition tests (i : Z) (m : outcome bool) : Prop :=
  ∃ b, m = Returned b ∧ (b = true → i + 1 < Z.of_nat count).

Lemma non_special_tests p i v : wf p → 0 ≤ i → tests i (is_a_non_special_pattern_char p i v).
Proof.
  intros Hp Hi. unfold is_a_non_special_pattern_char. destruct (safe_token_spec p i Hp Hi) as (t & -> & Hin & Hout).
  rewrite bind_value. eexists. split; [done|]. destruct (value t) as [|first rest]; [done|].
  destruct (negb (first =? v)); [done|]. intros Hk.
  assert (token_kind t ≠ TokenType.End) as Hne by (intros He; by rewrite He in Hk).
  destruct (Z.lt_ge_cases i (Z.of_nat count)) as [Hlt|Hge]; [|by apply Hout in Hge].
  specialize (Hin Hlt). apply token_not_last in Hin; [lia|done].
Qed.

Lemma ipv6_close_false p : wf p → is_an_ipv6_close p = Returned false.
Proof.
  intros Hp. unfold is_an_ipv6_close, is_a_non_special_pattern_char. pose proof (wf_index p Hp) as Hi.
  destruct (safe_token_spec p (m_token_index p) Hp) as (t & -> & Hin & _); [lia|]. rewrite bind_value.
  destruct (value t) as [|first rest] eqn:Ev; [done|]. destruct (Z.eqb_spec first c_rbracket) as [->|]; [|done].
  by specialize (token_value_in _ _ _ _ (Hin ltac:(lia)) Ev).
Qed.

Lemma search_prefix_tests p : wf p → tests (m_token_index p) (is_a_search_prefix p).
Proof.
  intros Hp. unfold is_a_search_prefix. pose proof (wf_index p Hp) as Hi.
  destruct (non_special_tests p (m_token_index p) c_question Hp) as (b & -> & Hb); [lia|]. rewrite bind_value.
  destruct b; [by eexists|]. destruct (current_token_spec p Hp) as (t & -> & Ht). rewrite bind_value.
  case_bool_decide as Hv; cbn [negb]; [|by eexists].
  assert (m_token_index p + 1 < Z.of_nat count) as Hnext.
  { destruct (decide (Z.to_nat (m_token_index p) = pred count)) as [He|]; [|lia]. exfalso.
    destruct tokens_end as [init Hinit]. rewrite He, Hinit, length_app in Ht. cbn [length] in Ht.
    replace (pred (length init + 1)) with (length init) in Ht by lia. rewrite list_lookup_middle in Ht by done.
    by injection Ht as <-. }
  destruct (m_token_index p =? 0) eqn:E0; [by eexists|]. bool_to_prop.
  destruct (safe_token_spec p (m_token_index p - 1) Hp) as (t' & -> & _); [lia|]. rewrite bind_value. by eexists.
Qed.

(** *** Component strings and changes of state *)
Lemma component_string_spec p :
  wf p → ∃ s, make_a_component_string p = Returned s ∧ valid_utf8 s
    ∧ Z.of_nat (length (code_points s)) < 2 ^ 32.
Proof.
  intros Hp. pose proof (wf_index p Hp) as Hi. unfold make_a_component_string. rewrite verify_true.
  2:{ rewrite (wf_tokens p Hp). apply Z.ltb_lt. lia. }
  destruct (current_token_spec p Hp) as (t & -> & Ht). rewrite bind_value.
  destruct (safe_token_spec p (m_component_start p) Hp) as (t' & -> & Ht' & _); [lia|]. rewrite bind_value.
  specialize (Ht' ltac:(lia)). pose proof (token_index_range _ _ Ht) as Hr. pose proof (token_index_range _ _ Ht') as Hr'.
  assert (index t' ≤ index t) as Hle.
  { eapply (lex_monotone (length cps) 0 cps Hcps); [done| |exact Ht'|exact Ht]. lia. }
  cbv zeta. unfold wrap32. rewrite Z.mod_small by lia. rewrite (wf_input p Hp), unicode_substring_view_spec by (done || lia).
  rewrite bind_value. set (part := take _ _). assert (Forall is_scalar part) as Hpart by (by apply Forall_take, Forall_drop).
  rewrite from_utf8_valid by (by exists part). exists (utf8_of part). split_and!; [done|by exists part|].
  rewrite code_points_utf8_form by (by apply is_scalar_range). unfold part. rewrite length_take, length_drop. lia.
Qed.

(** What the switch makes of a parser: it keeps its place, which is before the end
    token, or goes to a later state. *)
Definition moved (p p' : ConstructorStringParser) : Prop :=
  wf p' ∧ m_state p' ≠ ConstructorState.Done
  ∧ ((m_state p' = m_state p ∧ m_token_index p' = m_token_index p ∧ m_token_increment p' = 1
      ∧ m_token_index p + 1 < Z.of_nat count)
     ∨ ((state_rank (m_state p) < state_rank (m_state p'))%nat ∧ m_token_increment p' = 0)).

Definition moves (p : ConstructorStringParser) (m : outcome ConstructorStringParser) : Prop :=
  ∃ p', m = Returned p' ∧ moved p p'.

Lemma init_valid_set set i s :
  is_setter set → (∀ i x, init_base_url (set i x) = init_base_url i) →
  init_valid i → valid_utf8 s → init_valid (set i (Some s)).
Proof.
  unfold init_valid. rewrite !Forall_app, !Forall_singleton. intros Hset Hb [Hc Hbase] Hs. rewrite Hb. split; [|done].
  assert (∀ l, Forall (member_ok PatternProcessType.Pattern) l ↔ Forall (from_option valid_utf8 True) l) as Heq.
  { intros l. apply Forall_iff. by intros [x|]. }
  apply (proj1 (Heq _)), Hset; [by apply (proj2 (Heq _))|done].
Qed.

Lemma fill_skipped_valid p st : init_valid (m_result p) → init_valid (fill_skipped p st).
Proof.
  assert (valid_utf8 (sv "/")) as Hslash by (apply ascii_valid_utf8; [apply sv_bytes|done]).
  intros Hr. unfold fill_skipped. cbv zeta.
  destruct (_ && absent (init_hostname _)); destruct (_ && absent (init_pathname _));
    destruct (_ && absent (init_search _)); repeat (apply init_valid_set; [solve_setter|done| |]);
    try done; try apply valid_utf8_nil; by destruct (m_protocol_matches_a_special_scheme p); [|apply valid_utf8_nil].
Qed.

Lemma record_component p :
  wf p → m_state p ≠ ConstructorState.Done →
  ∃ result, (if negb (first_is_one_of (m_state p)
                        [ConstructorState.Initial; ConstructorState.Authority; ConstructorState.Done])
             then component ← make_a_component_string p; set_result_for_active_state p (Some component)
             else Returned p) = Returned (with_result p result) ∧ init_valid result.
Proof.
  intros Hp Hdone. pose proof (wf_result p Hp) as Hr. destruct (component_string_spec p Hp) as (s & -> & Hs & _).
  unfold set_result_for_active_state, first_is_one_of. rewrite bind_value.
  destruct (m_state p) eqn:Est; try done; simpl.
  1,3: exists (m_result p); split; [by destruct p|done].
  all: eexists; split; [reflexivity|]; by apply init_valid_set; [solve_setter|..].
Qed.

Lemma change_state_spec p st skip :
  wf p → m_state p ≠ ConstructorState.Done → 0 ≤ skip → m_token_index p + skip < Z.of_nat count →
  ∃ p', change_state p st skip = Returned p' ∧ wf p' ∧ m_state p' = st ∧ m_token_increment p' = 0.
Proof.
  intros Hp Hdone Hskip Hi. pose proof count_small. unfold change_state.
  destruct (record_component p Hp Hdone) as (result & -> & Hr). rewrite bind_value. cbv zeta.
  eexists. split; [done|]. split; [|done]. destruct Hp as [Hin Htok Hidx _].
  destruct (negb _ && negb _); constructor; cbn; try done; unfold wrap32; try (rewrite Z.mod_small by lia; lia).
  by apply fill_skipped_valid.
Qed.

Lemma change_moves p st skip :
  wf p → (state_rank (m_state p) < state_rank st)%nat → st ≠ ConstructorState.Done → 0 ≤ skip →
  m_token_index p + skip < Z.of_nat count → moves p (change_state p st skip).
Proof.
  intros Hp Hrank Hst Hskip Hi. destruct (change_state_spec p st skip) as (p' & -> & Hp' & Hs & Hinc); try done.
  { intros He. rewrite He in Hrank. destruct st; cbn in Hrank; lia. }
  exists p'. split; [done|]. split_and!; [done|congruence|]. right. by rewrite Hs.
Qed.

Lemma rewind_moved p st :
  wf p → (state_rank (m_state p) < state_rank st)%nat → st ≠ ConstructorState.Done → moved p (rewind_and_set_state p st).
Proof.
  intros [Hin Htok Hidx Hr] Hrank Hst. split_and!; [|done|by right]. constructor; cbn; try done. lia.
Qed.

Lemma stays p :
  wf p → m_state p ≠ ConstructorState.Done → m_token_increment p = 1 → m_token_index p + 1 < Z.of_nat count →
  moves p (Returned p).
Proof. intros. exists p. split; [done|]. split_and!; [done..|]. by left. Qed.

(** *** The states *)

(** A parser at a token that is not the end token. *)
Definition ready (p : ConstructorStringParser) : Prop :=
  wf p ∧ m_token_increment p = 1 ∧ m_token_index p + 1 < Z.of_nat count.

(** A test, and what follows each answer. *)
Lemma moves_if p m (yes no : outcome ConstructorStringParser) :
  tests (m_token_index p) m → (m_token_index p + 1 < Z.of_nat count → moves p yes) → moves p no →
  moves p (b ← m; if (b : bool) then yes else no).
Proof. intros (b & -> & Hb) Hyes Hno. rewrite bind_value. destruct b; auto. Qed.

Ltac solve_moves :=
  repeat (apply moves_if; [by (apply search_prefix_tests || (apply non_special_tests; [|lia]))|intros _|]);
  repeat match goal with
  | |- moves _ (Returned (rewind_and_set_state _ _)) =>
      eexists; split; [reflexivity|apply rewind_moved; [done| |done]]
  | |- moves _ (Returned _) => apply stays
  | |- moves _ (change_state _ _ _) => apply change_moves
  end; try done; try lia.

Lemma search_or_hash_moves p :
  ready p → (state_rank (m_state p) < state_rank ConstructorState.Search)%nat → moves p (ends_to_search_or_hash p).
Proof.
  intros (Hp & Hinc & Hi) Hrank. pose proof (wf_index p Hp). cbn in Hrank.
  assert (m_state p ≠ ConstructorState.Done) by (intros He; rewrite He in Hrank; cbn in Hrank; lia).
  unfold ends_to_search_or_hash. solve_moves; cbn; lia.
Qed.

Lemma pathname_moves p :
  ready p → (state_rank (m_state p) < state_rank ConstructorState.Pathname)%nat → moves p (ends_to_pathname p).
Proof.
  intros Hready Hrank. pose proof Hready as (Hp & Hinc & Hi). pose proof (wf_index p Hp). cbn in Hrank.
  unfold ends_to_pathname.
  apply moves_if; [apply non_special_tests; [done|lia]|intros _; apply change_moves; (done || lia)|].
  apply search_or_hash_moves; [done|cbn; lia].
Qed.

Lemma or_else_tests i a b : tests i a → tests i b → tests i (or_else a b).
Proof. intros (x & -> & Hx) Hb. unfold or_else. rewrite bind_value. destruct x; [by eexists|done]. Qed.

Lemma hostname_moves p : ready p → m_state p = ConstructorState.Hostname → moves p (hostname_state p).
Proof.
  intros Hready Hst. pose proof Hready as (Hp & Hinc & Hi). pose proof (wf_index p Hp). unfold hostname_state.
  apply moves_if; [apply non_special_tests; [done|lia]|intros _|].
  - eexists. split; [reflexivity|]. split_and!; [by destruct Hp|by cbn; rewrite Hst|by left].
  - rewrite ipv6_close_false, bind_value by done.
    destruct (non_special_tests p (m_token_index p) c_colon Hp) as (b & Hb & _); [lia|].
    unfold is_a_port_prefix. rewrite Hb, bind_value.
    destruct (b && _); [|apply pathname_moves; [done|rewrite Hst; cbn; lia]].
    apply change_moves; try done; rewrite ?Hst; cbn; lia.
Qed.

Lemma simple_state_moves p :
  ready p →
  match m_state p with
  | ConstructorState.Initial => moves p (initial_state p)
  | ConstructorState.Authority => moves p (pattern_authority_state p)
  | ConstructorState.Username => moves p (username_state p)
  | ConstructorState.Password => moves p (password_state p)
  | ConstructorState.Search => moves p (search_state p)
  | _ => True
  end.
Proof.
  intros (Hp & Hinc & Hi). pose proof (wf_index p Hp). destruct (m_state p) eqn:Hst; try done.
  - unfold initial_state. solve_moves; rewrite Hst; cbn; (done || lia).
  - unfold pattern_authority_state. apply moves_if; [apply non_special_tests; [done|lia]|intros _|].
    + solve_moves; rewrite Hst; cbn; lia.
    + apply moves_if; [|intros _|].
      * apply or_else_tests; [|apply or_else_tests]; (apply search_prefix_tests; done) || (apply non_special_tests; [done|lia]).
      * solve_moves; rewrite Hst; cbn; lia.
      * apply stays; (done || by rewrite Hst).
  - unfold username_state. solve_moves; rewrite Hst; cbn; (done || lia).
  - unfold password_state. solve_moves; rewrite Hst; cbn; (done || lia).
  - unfold search_state. solve_moves; rewrite Hst; cbn; (done || lia).
Qed.

Lemma authority_slashes_spec p :
  wf p → ∃ b, next_is_authority_slashes p = Returned b ∧ (b = true → m_token_index p + 3 < Z.of_nat count).
Proof.
  intros Hp. pose proof (wf_index p Hp). pose proof count_small. unfold next_is_authority_slashes, wrap32.
  rewrite !Z.mod_small by lia.
  destruct (non_special_tests p (m_token_index p + 1) c_slash Hp) as (a & -> & Ha); [lia|]. rewrite bind_value.
  destruct a; cbn [negb]; [|by eexists]. specialize (Ha eq_refl).
  destruct (non_special_tests p (m_token_index p + 2) c_slash Hp) as (b & -> & Hb); [lia|]. rewrite bind_value.
  destruct b; cbn [negb]; [|by eexists]. specialize (Hb eq_refl). eexists. split; [done|]. lia.
Qed.

(** A step that may return an error. *)
Definition try_moves (p : ConstructorStringParser) (m : outcome (PatternErrorOr ConstructorStringParser)) : Prop :=
  ∃ r, m = Returned r ∧ ∀ p', r = Value p' → moved p p'.

Lemma moves_try p m : moves p m → try_moves p (p ← m; Returned (Value p)).
Proof. intros (p' & -> & Hp'). eexists. split; [done|]. by intros q [= <-]. Qed.

Lemma protocol_moves p : ready p → m_state p = ConstructorState.Protocol → try_moves p (protocol_state p).
Proof.
  intros (Hp & Hinc & Hi) Hst. pose proof (wf_index p Hp). unfold protocol_state.
  destruct (non_special_tests p (m_token_index p) c_colon Hp) as (b & Hb & _); [lia|].
  unfold is_a_protocol_suffix. rewrite Hb, bind_value.
  destruct b; [|apply (moves_try p (Returned p)), stays; (done || by rewrite Hst)].
  unfold compute_protocol_matches_a_special_scheme_flag.
  destruct (component_string_spec p Hp) as (s & -> & Hs & Hl). rewrite bind_value.
  destruct (Component.compile_spec s options_default canonicalize_a_protocol Hs Hl) as (r & -> & _); [by intros c [=]|].
  unfold pattern_try. rewrite bind_value. destruct r as [m|component]; [by eexists|].
  destruct (Component.matches_a_special_scheme_returns component) as [special ->]. rewrite !bind_value.
  set (q := if special then with_special_flag p true else p).
  assert (wf q ∧ m_state q = m_state p ∧ m_token_index q = m_token_index p) as (Hq & Hqs & Hqi).
  { unfold q. destruct special; [|done]. split_and!; [|done..]. by destruct Hp. }
  destruct (authority_slashes_spec q Hq) as (slashes & -> & Hslash). rewrite bind_value.
  apply moves_try. assert (∀ m, moves q m → moves p m) as Hpq.
  { intros m (p' & -> & Hw & Hd & Hm). exists p'. split; [done|]. split_and!; [done..|]. by rewrite <- Hqs, <- Hqi. }
  apply Hpq. destruct slashes; [|destruct (m_protocol_matches_a_special_scheme q)];
    (apply change_moves; [done|rewrite Hqs, Hst; cbn; lia|done|lia|]); [by apply Hslash|lia..].
Qed.

Lemma run_constructor_state_moves p :
  ready p → m_state p ≠ ConstructorState.Done → try_moves p (run_constructor_state p).
Proof.
  intros Hready Hdone. pose proof (simple_state_moves p Hready) as Hs. unfold run_constructor_state. cbv zeta.
  destruct (m_state p) eqn:Hst; try done; try by apply moves_try.
  - by apply protocol_moves.
  - by apply moves_try, hostname_moves.
  - apply moves_try, pathname_moves; [done|rewrite Hst; cbn; lia].
  - apply moves_try, search_or_hash_moves; [done|rewrite Hst; cbn; lia].
  - apply (moves_try p (Returned p)). destruct Hready as (Hp & Hinc & Hi). apply stays; (done || by rewrite Hst).
Qed.

(** *** The loop *)
Definition constructor_measure (p : ConstructorStringParser) : nat :=
  (10 - state_rank (m_state p)) * S count + (count - Z.to_nat (m_token_index p)).

Definition constructor_goal (p : ConstructorStringParser)
    (m : outcome (PatternErrorOr (ConstructorStringParser + ConstructorStringParser))) : Prop :=
  ∃ r, m = Returned r ∧ ∀ next, r = Value next →
    match next with
    | inl p' => wf p' ∧ m_state p' ≠ ConstructorState.Done ∧ (constructor_measure p' < constructor_measure p)%nat
    | inr p' => init_valid (m_result p')
    end.

Lemma moved_step p p' :
  wf p → m_state p ≠ ConstructorState.Done → moved p p' → constructor_goal p (Returned (Value (inl (advance p')))).
Proof.
  intros Hp Hdone (Hp' & Hd' & Hm). pose proof (wf_index p Hp). pose proof (wf_index p' Hp'). pose proof count_small.
  eexists. split; [done|]. intros next [= <-]. unfold constructor_measure, advance. cbn [m_state m_token_index with_token_index].
  destruct Hm as [(Hs & Hi & Hinc & Hlt)|[Hrank Hinc]]; rewrite Hinc; unfold wrap32.
  - rewrite Hi, Hs, Z.mod_small by lia. split_and!; [|congruence|lia]. destruct Hp'. constructor; cbn; try done. lia.
  - rewrite Z.add_0_r, Z.mod_small by lia. split_and!; [|done|].
    + destruct Hp'. constructor; cbn; done.
    + assert (state_rank (m_state p') ≤ 10)%nat by (destruct (m_state p'); cbn; lia). nia.
Qed.

Lemma begin_relative_moves p :
  wf p → m_state p = ConstructorState.Initial → moves p (begin_relative p).
Proof.
  intros Hp Hst. unfold begin_relative. cbv zeta.
  assert (wf (rewind p)) as Hq by (destruct Hp; constructor; cbn; try done; lia).
  pose proof (wf_index _ Hq) as Hi.
  assert (∀ st skip, (0 < state_rank st < 10)%nat → 0 ≤ skip → m_token_index (rewind p) + skip < Z.of_nat count →
    moves p (change_state (rewind p) st skip)) as Hchange.
  { intros st skip Hrank Hskip Hlt.
    destruct (change_state_spec (rewind p) st skip) as (p' & -> & Hp' & Hs & Hinc); [done|by cbn; rewrite Hst|done..|].
    exists p'. split; [done|]. split_and!; [done|intros He; rewrite <- Hs, He in Hrank; cbn in Hrank; lia|].
    right. rewrite Hs, Hst. cbn. lia. }
  destruct (non_special_tests (rewind p) (m_token_index (rewind p)) c_hash Hq) as (h & Hh & Hhash); [lia|].
  unfold is_a_hash_prefix. rewrite Hh, bind_value. destruct h; [apply Hchange; cbn [state_rank]; auto; lia|].
  destruct (search_prefix_tests (rewind p) Hq) as (s & -> & Hsearch). rewrite bind_value.
  destruct s; apply Hchange; cbn [state_rank]; auto; lia.
Qed.

Lemma constructor_step_goal p : wf p → m_state p ≠ ConstructorState.Done → constructor_goal p (constructor_step p).
Proof.
  intros Hp0 Hdone. unfold constructor_step. cbv zeta. set (q := with_token_increment p 1).
  assert (wf q) as Hp by (by destruct Hp0).
  assert (∀ m, constructor_goal q m → constructor_goal p m) as Hqp by done. apply Hqp. clear Hqp.
  pose proof (wf_index q Hp) as Hi. destruct (current_token_spec q Hp) as (t & Ht & Hlookup). rewrite Ht, bind_value.
  case_bool_decide as Hend.
  - case_bool_decide as Hst.
    { destruct (begin_relative_moves q Hp Hst) as (p' & -> & Hp'). rewrite bind_value. by apply moved_step. }
    clear Hst. case_bool_decide as Hst.
    { apply moved_step; [done..|]. apply rewind_moved; [done|rewrite Hst; cbn; lia|done]. }
    destruct (change_state_spec q ConstructorState.Done 0) as (p' & -> & Hp' & _); [done..|lia|]. rewrite bind_value.
    eexists. split; [done|]. intros next [= <-]. apply (wf_result p' Hp').
  - apply token_not_last in Hlookup; [|done]. assert (m_token_index q + 1 < Z.of_nat count) as Hnext by lia.
    assert (∀ r, ready r → m_state r ≠ ConstructorState.Done → constructor_measure r = constructor_measure p →
      constructor_goal q (r ←? run_constructor_state r; Returned (Value (inl (advance r))))) as Hswitch.
    { intros r Hr Hdr Hm. destruct (run_constructor_state_moves r Hr Hdr) as (x & -> & Hx). unfold pattern_try. rewrite bind_value.
      destruct x as [m|p']; [by eexists|].
      destruct (moved_step r p' (proj1 Hr) Hdr (Hx p' eq_refl)) as (y & [= <-] & Hy).
      eexists. split; [done|]. intros next [= <-]. specialize (Hy _ eq_refl). cbn in Hy |- *.
      change (constructor_measure q) with (constructor_measure p). by rewrite <- Hm. }
    assert (∀ depth, moved q (with_group_depth q depth)) as Hgroup.
    { intros depth. split_and!; [by destruct Hp|done|by left]. }
    unfold is_a_group_open. rewrite Ht, bind_value, bind_value.
    case_bool_decide as Hopen; [by apply moved_step|].
    destruct (m_group_depth q >? 0) eqn:Ed; [|by apply Hswitch].
    unfold is_a_group_close. rewrite Ht, bind_value, bind_value. case_bool_decide as Hclose.
    + rewrite verify_true by (apply negb_true_iff, Z.eqb_neq; lia). apply Hswitch; [|done..]. by split; [destruct Hp|].
    + apply moved_step; [done..|]. split_and!; [done..|]. by left.
Qed.

Lemma constructor_loop_spec fuel p :
  wf p → m_state p ≠ ConstructorState.Done → (constructor_measure p < fuel)%nat →
  ∃ r, constructor_loop fuel p = Returned r ∧ ∀ p', r = Value p' → init_valid (m_result p').
Proof.
  revert p. induction fuel as [|fuel IH]; intros p Hp Hdone Hfuel; [lia|]. cbn [constructor_loop].
  pose proof (wf_index p Hp). rewrite (wf_tokens p Hp), (proj2 (Z.ltb_lt _ _)) by lia.
  destruct (constructor_step_goal p Hp Hdone) as (r & -> & Hr). unfold pattern_try. rewrite bind_value.
  destruct r as [m|[p'|p']]; [by eexists| |].
  - destruct (Hr _ eq_refl) as (Hp' & Hd' & Hm). apply IH; [done..|lia].
  - eexists. split; [done|]. intros q [= <-]. exact (Hr _ eq_refl).
Qed.

Lemma constructor_parse_spec :
  ∃ r, parse (utf8_of cps) = Returned r
    ∧ ∀ i, r = Value i → init_valid i ∧ (is_Some (init_hostname i) → is_Some (init_port i)).
Proof.
  unfold parse. rewrite Tokenizer.tokenize_lenient by (done || lia). unfold pattern_try. rewrite bind_value.
  destruct (constructor_loop_spec (constructor_fuel toks) (new_parser (utf8_of cps) toks)) as (r & -> & Hr).
  - constructor; cbn; try done; [|repeat constructor].
    destruct tokens_end as [init ->]. rewrite length_app. cbn [length]. lia.
  - done.
  - unfold constructor_measure, constructor_fuel. cbn. lia.
  - rewrite bind_value. destruct r as [m|p]; [by eexists|]. cbv zeta. eexists. split; [done|].
    intros i [= <-]. specialize (Hr p eq_refl).
    destruct (init_hostname (m_result p)) as [h|] eqn:Eh, (init_port (m_result p)) as [n|] eqn:En; cbn [absent negb andb].
    + split; [done|]. by rewrite En.
    + split; [|done]. apply (init_valid_set with_init_port); [solve_setter|done..|apply valid_utf8_nil].
    + split; [done|]. by rewrite En.
    + split; [done|]. rewrite Eh. by intros [? [=]].
Qed.

End Total.

Section Claims.
Context `{SimdutfOk} `{SimdutfUtf16} `{FastFloatOk} `{Icu} `{!IcuOk} `{IcuProperties} `{LegacyEncodersOk} `{RegexEngine}.

(** C30: the constructor string parser terminates on every well-formed string, with
    an init or an error, whatever the regular expression engine does: no token
    index leaves the list, no VERIFY fails, and every component of the init is
    well-formed text.  An init with a hostname has a port.  Strings with a closing
    bracket are excluded: the VERIFY on the bracket depth can fail for them. *)
Theorem constructor_parse_total (s : bytes) (Hs : valid_utf8 s)
    (Hlen : Z.of_nat (length (code_points s)) + 3 < 2 ^ 32) (Hbracket : c_rbracket ∉ s) :
  ∃ r, parse s = Returned r
    ∧ ∀ i, r = Value i → init_valid i ∧ (is_Some (init_hostname i) → is_Some (init_port i)).
Proof.
  destruct Hs as (cps & Hcps & ->). rewrite code_points_utf8_form in Hlen by (by apply is_scalar_range).
  by apply constructor_parse_spec.
Qed.

End Claims.

(** ** Examples *)
#[local] Existing Instances simdutf_example fast_float_example icu_example legacy_encoders_example.
#[local] Existing Instances regex_engine_example simdutf_utf16_example Tokenizer.icu_properties_example.
#[local] Existing Instances simdutf_example_ok fast_float_example_ok icu_example_ok legacy_encoders_example_ok.

Definition constructor_example : bytes := Eval compute in sv "https://example.com:80/:id?x#y".

Lemma constructor_parse_total_witness :
  ∃ r, parse constructor_example = Returned r
    ∧ ∀ i, r = Value i → init_valid i ∧ (is_Some (init_hostname i) → is_Some (init_port i)).
Proof.
  apply constructor_parse_total.
  - apply ascii_valid_utf8; [|done]. apply (sv_bytes "https://example.com:80/:id?x#y").
  - by vm_compute.
  - apply (bool_decide_unpack _). reflexivity.
Defined.

(** What the parser makes of the example, and of a bracketed address. *)
Example constructor_example_init :
  parse constructor_example = Returned (Value (mk_init (Some (sv "https")) None None (Some (sv "example.com"))
    (Some (sv "80")) (Some (sv "/:id?x")) (Some []) (Some (sv "y")) None)).
Proof. vm_compute. reflexivity. Qed.

Example constructor_ipv6_init :
  parse (sv "https://[::1]:80") = Returned (Value (mk_init (Some (sv "https")) None None (Some (sv "[::1]"))
    (Some (sv "80")) None None None None)).
Proof. vm_compute. reflexivity. Qed.

(** a closing bracket in a hostname that no opening bracket precedes stops the
    program: the VERIFY on the bracket depth of the hostname state fails.  The
    algorithm it implements only decrements the depth. *)
Theorem constructor_bracket_aborts : parse (sv "https://a]/") = VerifyFailed.
Proof. vm_compute. reflexivity. Qed.

End ConstructorStringParser.
