(* ===== verification/UrlPattern.v ===== *)
(** * URL patterns

    LibURL/Pattern/Pattern.{h,cpp}: a pattern is made of eight components, from an
    init or a constructor string, and matched against a URL, a string or an init. *)
From S2P Require Import Prelude CharacterTypes Externals Utf8 StringView Utf8View Format PercentEncoding Ipv4 Ipv6 Host PublicSuffix TextCodec Origin Url UrlParser UrlWellFormed UrlSerializer UrlParserInvariant UrlParserSteps UrlParserCorrect UrlSetters UrlPatternTokenizer UrlPatternParts UrlPatternParser UrlPatternCanon UrlPatternComponent UrlPatternInit UrlPatternConstructor.
Import Component (Component).

Inductive Input := InputString (string : bytes) | InputInit (init : Init).

Inductive IgnoreCase := IgnoreCaseYes | IgnoreCaseNo.

#[global] Instance IgnoreCase_eq_dec : EqDecision IgnoreCase.
Proof. solve_decision. Defined.

(** [Variant<String, Init, URL>] *)
Inductive MatchInput := MatchString (string : bytes) | MatchInit (init : Init) | MatchUrl (url : URL).

Record Result := mk_result {
  inputs : list Input;
  protocol_result : ComponentResult;
  username_result : ComponentResult;
  password_result : ComponentResult;
  hostname_result : ComponentResult;
  port_result : ComponentResult;
  pathname_result : ComponentResult;
  search_result : ComponentResult;
  hash_result : ComponentResult;
}.

Record Pattern `{RegexEngine} := mk_pattern {
  m_protocol_component : Component;
  m_username_component : Component;
  m_password_component : Component;
  m_hostname_component : Component;
  m_port_component : Component;
  m_pathname_component : Component;
  m_search_component : Component;
  m_hash_component : Component;
}.
Arguments Pattern {_}.
Arguments mk_pattern {_}.

Definition hostname_pattern_is_an_ipv6_address (input : bytes) : bool :=
  match input with
  | a :: b :: _ =>
      if a =? c_lbracket then true
      else if (a =? c_lbrace) && (b =? c_lbracket) then true
      else (a =? c_backslash) && (b =? c_lbracket)
  | _ => false
  end.

(** A copy of options with the [ignore_case] member set. *)
Definition with_ignore_case (options : Options) (x : bool) : Options :=
  mk_options (delimiter_code_point options) (prefix_code_point options) x.

Section Model.
Context `{Simdutf} `{SimdutfUtf16} `{FastFloat} `{Icu} `{IcuProperties} `{LegacyEncoders} `{RegexEngine}.

(** ** Creating a pattern *)

(** Steps 1 to 3. *)
Definition init_of_input (input : Input) (base_url : option bytes) : outcome (PatternErrorOr Init) :=
  match input with
  | InputString input_string =>
      init ←? ConstructorStringParser.parse input_string;
      if absent base_url && absent (init_protocol init)
      then Returned (ErrorInfo (sv "Relative URLPattern constructor must provide one of baseURL or protocol"))
      else
        Returned (Value (match base_url with Some _ => with_base_url init base_url | None => init end))
  | InputInit init =>
      match base_url with
      | Some _ => Returned (ErrorInfo (sv "Constructor with URLPatternInit should provide no baseURL"))
      | None => Returned (Value init)
      end
  end.

(** Step 6: the port, emptied if it is the default port of the protocol. *)
Definition without_default_port (protocol port : bytes) : outcome bytes :=
  if is_special_scheme protocol then
    match parse_number 0xFFFF 10 port with
    | Some maybe_port =>
        default_port ← must (default_port_for_scheme protocol);
        Returned (if maybe_port =? default_port then [] else port)
    | None => Returned port
    end
  else Returned port.

(** Steps 5 to 19. *)
Definition compile_components (processed_init : Init) (ignore_case : IgnoreCase) : outcome (PatternErrorOr Pattern) :=
  let protocol := default (sv "*") (init_protocol processed_init) in
  let username := default (sv "*") (init_username processed_init) in
  let password := default (sv "*") (init_password processed_init) in
  let hostname := default (sv "*") (init_hostname processed_init) in
  let port := default (sv "*") (init_port processed_init) in
  let pathname := default (sv "*") (init_pathname processed_init) in
  let search := default (sv "*") (init_search processed_init) in
  let hash := default (sv "*") (init_hash processed_init) in
  port ← without_default_port protocol port;
  protocol_component ←? Component.compile protocol canonicalize_a_protocol options_default;
  username_component ←? Component.compile username (infallible canonicalize_a_username) options_default;
  password_component ←? Component.compile password (infallible canonicalize_a_password) options_default;
  hostname_component ←?
    (if hostname_pattern_is_an_ipv6_address hostname
     then Component.compile hostname canonicalize_an_ipv6_hostname options_hostname
     else Component.compile hostname canonicalize_a_hostname options_hostname);
  port_component ←? Component.compile port (λ value, canonicalize_a_port value None) options_default;
  let ignore := bool_decide (ignore_case = IgnoreCaseYes) in
  let compile_options := with_ignore_case options_default ignore in
  special ← Component.protocol_component_matches_a_special_scheme protocol_component;
  pathname_component ←?
    (if (special : bool)
     then Component.compile pathname (infallible canonicalize_a_pathname) (with_ignore_case options_pathname ignore)
     else Component.compile pathname canonicalize_an_opaque_pathname compile_options);
  search_component ←? Component.compile search (infallible canonicalize_a_search) compile_options;
  hash_component ←? Component.compile hash (infallible canonicalize_a_hash) compile_options;
  Returned (Value (mk_pattern protocol_component username_component password_component hostname_component
    port_component pathname_component search_component hash_component)).

Definition create (input : Input) (base_url : option bytes) (ignore_case : IgnoreCase) : outcome (PatternErrorOr Pattern) :=
  init ←? init_of_input input base_url;
  processed_init ←? process_a_url_pattern_init init PatternProcessType.Pattern None None None None None None None None;
  compile_components processed_init ignore_case.

Definition has_regexp_groups (p : Pattern) : bool :=
  Component.has_regexp_groups (m_protocol_component p) || Component.has_regexp_groups (m_username_component p)
  || Component.has_regexp_groups (m_password_component p) || Component.has_regexp_groups (m_hostname_component p)
  || Component.has_regexp_groups (m_port_component p) || Component.has_regexp_groups (m_pathname_component p)
  || Component.has_regexp_groups (m_search_component p) || Component.has_regexp_groups (m_hash_component p).

(** ** Matching *)

(** Steps 13.4 to 13.11: the components of a URL. *)
Definition url_components (u : URL) : outcome Init :=
  hostname ← match host u with Some h => host_serialize h | None => Returned [] end;
  port ← match port u with Some p => format_decimal p | None => Returned [] end;
  pathname ← serialize_path u;
  Returned (mk_init (Some (scheme u)) (Some (username u)) (Some (password u)) (Some hostname) (Some port)
    (Some pathname) (Some (default [] (query u))) (Some (default [] (fragment u))) None).

(** [execute], with the early return when there is no match. *)
Definition execute_or_none (c : Component) (input : bytes)
    (k : ExecutionResult → outcome (PatternErrorOr (option Result))) : outcome (PatternErrorOr (option Result)) :=
  exec_result ← Component.execute c input;
  if negb (success exec_result) then Returned (Value None) else k exec_result.

(** Steps 14 to 33. *)
Definition match_components (p : Pattern) (inputs : list Input)
    (protocol username password hostname port pathname search hash : bytes) : outcome (PatternErrorOr (option Result)) :=
  execute_or_none (m_protocol_component p) protocol (λ protocol_exec_result,
  execute_or_none (m_username_component p) username (λ username_exec_result,
  execute_or_none (m_password_component p) password (λ password_exec_result,
  execute_or_none (m_hostname_component p) hostname (λ hostname_exec_result,
  execute_or_none (m_port_component p) port (λ port_exec_result,
  execute_or_none (m_pathname_component p) pathname (λ pathname_exec_result,
  execute_or_none (m_search_component p) search (λ search_exec_result,
  execute_or_none (m_hash_component p) hash (λ hash_exec_result,
    protocol ← Component.create_match_result (m_protocol_component p) protocol protocol_exec_result;
    username ← Component.create_match_result (m_username_component p) username username_exec_result;
    password ← Component.create_match_result (m_password_component p) password password_exec_result;
    hostname ← Component.create_match_result (m_hostname_component p) hostname hostname_exec_result;
    port ← Component.create_match_result (m_port_component p) port port_exec_result;
    pathname ← Component.create_match_result (m_pathname_component p) pathname pathname_exec_result;
    search ← Component.create_match_result (m_search_component p) search search_exec_result;
    hash ← Component.create_match_result (m_hash_component p) hash hash_exec_result;
    Returned (Value (Some (mk_result inputs protocol username password hostname port pathname search hash))))))))))).

(** The same for components that are read with [value()]. *)
Definition match_init (p : Pattern) (inputs : list Input) (i : Init) : outcome (PatternErrorOr (option Result)) :=
  protocol ← must (init_protocol i);
  username ← must (init_username i);
  password ← must (init_password i);
  hostname ← must (init_hostname i);
  port ← must (init_port i);
  pathname ← must (init_pathname i);
  search ← must (init_search i);
  hash ← must (init_hash i);
  match_components p inputs protocol username password hostname port pathname search hash.

Definition match_url (p : Pattern) (inputs : list Input) (u : URL) : outcome (PatternErrorOr (option Result)) :=
  i ← url_components u; match_init p inputs i.

Definition match_pattern (p : Pattern) (input : MatchInput) (base_url_string : option bytes)
    : outcome (PatternErrorOr (option Result)) :=
  match input with
  | MatchUrl input_url =>
      serialized ← serialize input_url ExcludeFragmentNo;
      match_url p [InputString serialized] input_url
  | MatchInit input_init =>
      match base_url_string with
      | Some _ => Returned (ErrorInfo (sv "Base URL cannot be provided when URLPatternInput is provided"))
      | None =>
          apply_result_or_error ← process_a_url_pattern_init input_init PatternProcessType.URL
            (Some []) (Some []) (Some []) (Some []) (Some []) (Some []) (Some []) (Some []);
          match apply_result_or_error with
          | ErrorInfo _ => Returned (Value None)
          | Value apply_result => match_init p [InputInit input_init] apply_result
          end
      end
  | MatchString input_string =>
      match base_url_string with
      | Some base_url_string =>
          '(base_url, _) ← basic_parse base_url_string None None None None;
          match base_url with
          | None => Returned (Value None)
          | Some base_url =>
              '(maybe_url, _) ← basic_parse input_string (Some base_url) None None None;
              match maybe_url with
              | None => Returned (Value None)
              | Some u => match_url p [InputString input_string; InputString base_url_string] u
              end
          end
      | None =>
          '(maybe_url, _) ← basic_parse input_string None None None None;
          match maybe_url with
          | None => Returned (Value None)
          | Some u => match_url p [InputString input_string] u
          end
      end
  end.

End Model.

(** ** Matching returns *)
Section Match.
Context `{SimdutfOk} `{SimdutfUtf16} `{FastFloatOk} `{Icu} `{!IcuOk} `{IcuProperties} `{LegacyEncodersOk}.
Context `{RegexEngine}.

Definition pattern_components (p : Pattern) : list Component :=
  [m_protocol_component p; m_username_component p; m_password_component p; m_hostname_component p; m_port_component p;
   m_pathname_component p; m_search_component p; m_hash_component p].

Definition result_components (r : Result) : list ComponentResult :=
  [protocol_result r; username_result r; password_result r; hostname_result r; port_result r; pathname_result r;
   search_result r; hash_result r].

(** The groups of each component have distinct names. *)
Definition pattern_wf (p : Pattern) : Prop :=
  Forall (λ c, NoDup (Component.group_name_list c)) (pattern_components p).

(** The groups of the result are the groups of the component, in their order, and
    what they captured is a piece of the input. *)
Definition component_matched (c : Component) (r : ComponentResult) : Prop :=
  (groups r).*1 = Component.group_name_list c
  ∧ ∀ name capture, (name, Some capture) ∈ groups r → Component.piece_of capture (result_input r).

(** What matching the components of an init gives. *)
Definition match_goal (p : Pattern) (i : Init) (m : outcome (PatternErrorOr (option Result))) : Prop :=
  Component.settles m (λ r, ∀ result, r = Value (Some result) →
    (Some ∘ result_input <$> result_components result) = components i
    ∧ Forall2 component_matched (pattern_components p) (result_components result)).

(** A component that was executed with success. *)
Definition executed (c : Component) (s : bytes) (e : ExecutionResult) : Prop :=
  ∃ gs, Component.create_match_result c s e = Returned (mk_component_result s gs)
    ∧ component_matched c (mk_component_result s gs).

Lemma execute_then p i c s k :
  NoDup (Component.group_name_list c) → Forall printable s →
  (∀ e, executed c s e → match_goal p i (k e)) → match_goal p i (execute_or_none c s k).
Proof.
  intros Hdup [Ha Hb]%printable_ascii Hk. unfold execute_or_none.
  eapply Component.settles_bind; [by apply Component.execute_spec|]. intros e He.
  destruct (success e) eqn:Es; cbn [negb]; [|by apply Component.settles_returned]. destruct (He Es) as [Hl Hp]. apply Hk.
  eexists. split; [by apply Component.create_match_result_spec|]. split; cbn [groups result_input].
  - apply fst_zip. lia.
  - intros name capture Hin. apply Hp. by apply elem_of_zip_r in Hin.
Qed.

Lemma match_init_goal p inputs i :
  pattern_wf p → components_ok PatternProcessType.URL i → match_goal p i (match_init p inputs i).
Proof.
  intros Hp Hi. unfold pattern_wf, pattern_components in Hp. unfold components_ok, components in Hi.
  repeat match goal with H : Forall _ (_ :: _) |- _ => apply Forall_cons in H as [? ?] end.
  destruct i as [[]  [] [] [] [] [] [] [] base]; try done. cbn [init_protocol init_username init_password init_hostname
    init_port init_pathname init_search init_hash member_ok] in *.
  unfold match_init, match_components. cbn [init_protocol init_username init_password init_hostname
    init_port init_pathname init_search init_hash must]. rewrite !bind_value.
  do 8 (apply execute_then; [done|done|]; intros ? (? & ? & ?)).
  repeat match goal with E : Component.create_match_result _ _ _ = _ |- _ => rewrite E, bind_value; clear E end.
  apply Component.settles_returned. intros result [= <-]. split; [done|].
  unfold pattern_components, result_components. repeat (apply Forall2_cons; split; [done|]). constructor.
Qed.

Lemma url_components_spec u :
  url_core u → ∃ i, url_components u = Returned i ∧ components_ok PatternProcessType.URL i.
Proof.
  intros Hu. unfold url_components. destruct (host_string_returns u Hu) as (h & -> & Hh). rewrite bind_value.
  destruct (port_string_returns u Hu) as (n & -> & Hn). rewrite bind_value.
  destruct (serialize_path_returns u Hu) as (path & -> & Hpath). rewrite bind_value.
  eexists. split; [done|]. unfold components_ok, components. cbn [init_protocol init_username init_password init_hostname
    init_port init_pathname init_search init_hash].
  repeat (apply Forall_cons; split); try done; cbn [member_ok];
    [apply scheme_printable, Hu|eapply encoded_printable, Hu|eapply encoded_printable, Hu|eapply option_printable, Hu..].
Qed.

Lemma match_url_goal p inputs u :
  pattern_wf p → url_core u →
  ∃ i, url_components u = Returned i ∧ match_goal p i (match_url p inputs u).
Proof.
  intros Hp Hu. unfold match_url. destruct (url_components_spec u Hu) as (i & -> & Hi). rewrite bind_value.
  exists i. split; [done|]. by apply match_init_goal.
Qed.

Definition match_input_valid (input : MatchInput) : Prop :=
  match input with
  | MatchString s => valid_utf8 s
  | MatchInit i => init_valid i
  | MatchUrl u => url_wf u
  end.

(** What matching an input gives. *)
Definition match_result_ok (p : Pattern) (input : MatchInput) (r : PatternErrorOr (option Result)) : Prop :=
  ∀ result, r = Value (Some result) →
    (∀ u, input = MatchUrl u → ∃ i, url_components u = Returned i
       ∧ (Some ∘ result_input <$> result_components result) = components i)
    ∧ Forall2 component_matched (pattern_components p) (result_components result).

(** A match of a string, relative to a base URL. *)
Lemma match_parsed_goal p s base inputs :
  pattern_wf p → valid_utf8 s → (∀ b, base = Some b → url_wf b) →
  Component.settles ('(maybe_url, _) ← basic_parse s base None None None;
        match maybe_url with None => Returned (Value None) | Some u => match_url p inputs u end) (match_result_ok p (MatchString s)).
Proof.
  intros Hp Hs Hb. destruct (basic_parse_returns s base None) as (r & w & -> & Hr); [by apply valid_utf8_bytes|done|].
  rewrite bind_value. destruct r as [u|]; [|by apply Component.settles_returned].
  destruct (match_url_goal p inputs u Hp (proj1 (Hr u eq_refl))) as (i & _ & [(r & -> & Hx)|Hbad]); [|by right].
  apply Component.settles_returned. intros result Hres. split; [done|by apply (Hx result)].
Qed.

Lemma match_pattern_settles p input base_url_string :
  pattern_wf p → match_input_valid input → from_option valid_utf8 True base_url_string →
  Component.settles (match_pattern p input base_url_string) (match_result_ok p input).
Proof.
  intros Hp Hinput Hbase. destruct input as [s|i|u]; cbn [match_pattern match_input_valid] in *.
  - destruct base_url_string as [b|]; cbn [from_option] in Hbase; [|by apply match_parsed_goal].
    destruct (basic_parse_returns b None None) as (r & w & -> & Hr); [by apply valid_utf8_bytes|done|].
    rewrite bind_value. destruct r as [base|]; [|by apply Component.settles_returned].
    apply match_parsed_goal; [done..|]. by intros ? [= <-]; apply Hr.
  - destruct base_url_string as [b|]; [by apply Component.settles_returned|].
    destruct (process_init_goal i PatternProcessType.URL (Some []) (Some []) (Some []) (Some []) (Some []) (Some [])
      (Some []) (Some []) Hinput) as (r & -> & Hr); [by repeat constructor|]. rewrite bind_value.
    destruct r as [m|applied]; [by apply Component.settles_returned|].
    destruct (match_init_goal p [InputInit i] applied Hp (Hr _ eq_refl)) as [(r & -> & Hx)|Hbad]; [|by right].
    apply Component.settles_returned. intros result Hres. split; [done|by apply (Hx result)].
  - destruct (serialize_returns u ExcludeFragmentNo (proj1 Hinput)) as (s & -> & _). rewrite bind_value.
    destruct (match_url_goal p [InputString s] u Hp (proj1 Hinput)) as (i & Hi & [(r & -> & Hx)|Hbad]); [|by right].
    apply Component.settles_returned. intros result Hres. destruct (Hx result Hres) as [Heq Hall].
    split; [|done]. intros v [= <-]. by exists i.
Qed.

(** C29: matching a pattern whose groups have distinct names returns for every well-formed
    URL, string and init of UTF-8 text, if the capture slots that the engine leaves after a
    match are [int]s inside its input, as its header says: no component is missing after an
    init was processed and no VERIFY of the matching code fails.  And whatever the engine
    answers, when there is a result, its inputs are the components of the URL that was
    given, its groups are the groups of the pattern, by name and in their order, and what
    a group captured is a piece of its component. *)
Theorem pattern_match_total (p : Pattern) (input : MatchInput) (base_url_string : option bytes)
    (Hp : pattern_wf p) (Hinput : match_input_valid input) (Hbase : from_option valid_utf8 True base_url_string) :
  (RegexEngineOk → returns (match_pattern p input base_url_string))
  ∧ ∀ result, match_pattern p input base_url_string = Returned (Value (Some result)) →
    (∀ u, input = MatchUrl u → ∃ i, url_components u = Returned i
       ∧ (Some ∘ result_input <$> result_components result) = components i)
    ∧ Forall2 component_matched (pattern_components p) (result_components result).
Proof.
  destruct (match_pattern_settles p input base_url_string Hp Hinput Hbase) as [(r & -> & Hr)|[-> Hbad]]; [|by split].
  split; [by exists r|]. intros result [= ->]. by apply Hr.
Qed.

(** ** A base URL and nothing else *)

(** A result without its inputs. *)
Definition drop_inputs (m : outcome (PatternErrorOr (option Result))) : outcome (PatternErrorOr (option (list ComponentResult))) :=
  match m with
  | Returned (Value o) => Returned (Value (result_components <$> (o : option Result)))
  | Returned (ErrorInfo message) => Returned (ErrorInfo message)
  | VerifyFailed => VerifyFailed
  | OutOfFuel => OutOfFuel
  end.

Lemma execute_drop_inputs c s k k' :
  (∀ e, drop_inputs (k e) = drop_inputs (k' e)) →
  drop_inputs (execute_or_none c s k) = drop_inputs (execute_or_none c s k').
Proof.
  intros Hk. unfold execute_or_none. destruct (Component.execute c s) as [e| |]; [|done..]. rewrite !bind_value.
  by destruct (negb (success e)).
Qed.

Lemma bind_drop_inputs {A} (m : outcome A) k k' :
  (∀ a, drop_inputs (k a) = drop_inputs (k' a)) → drop_inputs (m ≫= k) = drop_inputs (m ≫= k').
Proof. intros Hk. destruct m; [apply Hk|done..]. Qed.

Lemma match_init_inputs p inputs inputs' i :
  drop_inputs (match_init p inputs i) = drop_inputs (match_init p inputs' i).
Proof.
  unfold match_init. do 8 (apply bind_drop_inputs; intros ?). unfold match_components.
  do 8 (apply execute_drop_inputs; intros ?). do 8 (apply bind_drop_inputs; intros ?). done.
Qed.

(** What an init that gives only a base URL becomes. *)
Lemma base_url_only_init u :
  url_core u →
  ∃ i, url_components u = Returned i ∧ ∀ base,
    (result ← inherit_from_base_url (with_base_url new_init base) (mk_init (Some []) (Some []) (Some []) (Some [])
       (Some []) (Some []) (Some []) (Some []) None) u PatternProcessType.URL;
     process_members (with_base_url new_init base) result (Some u) PatternProcessType.URL) = Returned (Value i).
Proof.
  intros Hu. unfold url_components. destruct (host_string_returns u Hu) as (h & Hh & _). rewrite Hh, bind_value.
  destruct (port_string_returns u Hu) as (n & Hn & _). rewrite Hn, bind_value.
  destruct (serialize_path_returns u Hu) as (path & Hpath & _). rewrite Hpath, bind_value.
  eexists. split; [done|]. intros base. unfold inherit_from_base_url, inherit. cbn [absent with_base_url new_init
    init_protocol init_username init_password init_hostname init_port init_pathname init_search init_hash andb]. cbv zeta.
  rewrite Hh, Hpath. destruct (port u) as [m|]; [rewrite Hn|injection Hn as <-]; reflexivity.
Qed.

(** an init that gives only a base URL matches as the base URL itself does: the
    components it takes over are the components of the URL. *)
Theorem match_base_url_init (p : Pattern) (base : bytes) (Hbase : valid_utf8 base) :
  drop_inputs (match_pattern p (MatchInit (with_base_url new_init (Some base))) None)
  = drop_inputs (match_pattern p (MatchString base) None).
Proof.
  cbn [match_pattern]. unfold process_a_url_pattern_init. cbn [init_base_url with_base_url]. cbv zeta.
  destruct (basic_parse_returns base None None) as (r & w & -> & Hr); [by apply valid_utf8_bytes|done|].
  rewrite !bind_value. destruct r as [u|].
  - destruct (base_url_only_init u (proj1 (Hr u eq_refl))) as (i & Hi & Hinit).
    fold (with_base_url new_init (Some base)). rewrite Hinit, bind_value. unfold match_url. rewrite Hi, bind_value.
    apply match_init_inputs.
  - unfold must_to_string. rewrite from_utf8_valid; [done|].
    repeat apply valid_utf8_app; try done; apply ascii_valid_utf8; (apply sv_bytes || done).
Qed.

End Match.

(** ** Creating a pattern *)
Section Create.
Context `{SimdutfOk} `{SimdutfUtf16} `{FastFloatOk} `{Icu} `{!IcuOk} `{IcuProperties} `{LegacyEncodersOk}.
Context `{RegexEngine}.

(** The positions in a pattern string are [u32]s. *)
Definition short (s : bytes) : Prop := Z.of_nat (length (code_points s)) < 2 ^ 32.

Definition pattern_text (s : bytes) : Prop := valid_utf8 s ∧ short s.

Lemma default_text o :
  member_ok PatternProcessType.Pattern o → from_option short True o → pattern_text (default (sv "*") o).
Proof.
  destruct o as [s|]; [done|]. intros _ _. split; [|by vm_compute].
  apply ascii_valid_utf8; [apply sv_bytes|done].
Qed.

(** A component that is compiled, if it is. *)
Definition names_distinct (r : PatternErrorOr Component) : Prop :=
  ∀ c, r = Value c → NoDup (Component.group_name_list c).

Definition compiles (m : outcome (PatternErrorOr Component)) : Prop := ∃ r, m = Returned r ∧ names_distinct r.

Lemma options_ok_all x :
  PatternParser.options_ok (with_ignore_case options_default x) ∧ PatternParser.options_ok (with_ignore_case options_hostname x)
  ∧ PatternParser.options_ok (with_ignore_case options_pathname x).
Proof. split_and!; intros c [=]; lia. Qed.

(** The order in which the components are compiled; [P] is kept by all of them. *)
Lemma try_compile {B} (P : outcome (PatternErrorOr B) → Prop) m (k : Component → outcome (PatternErrorOr B)) :
  compiles m → (∀ e, P (Returned (ErrorInfo e))) →
  (∀ c, NoDup (Component.group_name_list c) → P (k c)) → P (pattern_try m k).
Proof.
  intros (r & -> & Hr) He Hk. unfold pattern_try. rewrite bind_value. destruct r as [e|c]; [apply He|].
  by apply Hk, Hr.
Qed.

Lemma compiles_text s callback options
    `{!PatternParser.EncodingCallbackOk callback} `{!PatternParser.EncodingCallbackNonempty callback} :
  pattern_text s → PatternParser.options_ok options → compiles (Component.compile s callback options).
Proof. intros [Hv Hs] Ho. by apply Component.compile_spec. Qed.

Lemma compiles_missing callback options `{!PatternParser.EncodingCallbackOk callback} :
  PatternParser.options_ok options → compiles (Component.compile (sv "*") callback options).
Proof. intros Ho. by apply Component.compile_wildcard. Qed.

(** A wildcard is not a default port. *)
Lemma wildcard_port protocol : without_default_port protocol (sv "*") = Returned (sv "*").
Proof.
  unfold without_default_port. destruct (is_special_scheme protocol); [|done].
  rewrite parse_number_spec by lia. by vm_compute.
Qed.

Definition create_goal (m : outcome (PatternErrorOr Pattern)) : Prop :=
  ∃ r, m = Returned r ∧ ∀ p, r = Value p → pattern_wf p.

Lemma compile_components_goal processed ignore_case :
  components_ok PatternProcessType.Pattern processed → Forall (from_option short True) (components processed) →
  init_port processed = None → init_pathname processed = None → init_search processed = None →
  init_hash processed = None → create_goal (compile_components processed ignore_case).
Proof.
  intros Hok Hshort Hport Hpath Hsearch Hhash. unfold components_ok, components in Hok, Hshort.
  repeat match goal with H : Forall _ (_ :: _) |- _ => apply Forall_cons in H as [? ?] end.
  unfold compile_components. rewrite Hport, Hpath, Hsearch, Hhash. cbv zeta. cbn [default].
  rewrite wildcard_port, bind_value.
  assert (∀ e, create_goal (Returned (ErrorInfo e))) as He by (intros e; by eexists).
  destruct (options_ok_all false) as (Ho & Hh & _).
  apply try_compile; [apply compiles_text; [apply _..|by apply default_text|done]|done|]. intros c1 H1'.
  apply try_compile; [apply compiles_text; [apply _..|by apply default_text|done]|done|]. intros c2 H2'.
  apply try_compile; [apply compiles_text; [apply _..|by apply default_text|done]|done|]. intros c3 H3'.
  apply try_compile; [|done|].
  { destruct (hostname_pattern_is_an_ipv6_address _); (apply compiles_text; [apply _..|by apply default_text|done]). }
  intros c4 H4'. apply try_compile; [by apply compiles_missing; [apply _|]|done|]. intros c5 H5'.
  destruct (Component.matches_a_special_scheme_returns c1) as [special ->]. rewrite bind_value.
  apply try_compile; [destruct special; (apply compiles_missing; [apply _|apply options_ok_all])|done|]. intros c6 H6'.
  apply try_compile; [apply compiles_missing; [apply _|apply options_ok_all]|done|]. intros c7 H7'.
  apply try_compile; [apply compiles_missing; [apply _|apply options_ok_all]|done|]. intros c8 H8'.
  eexists. split; [done|]. intros p [= <-]. unfold pattern_wf, pattern_components. by repeat constructor.
Qed.

(** An init of the components before the port, without a base URL: in a pattern only
    the colon of the protocol is removed. *)
Lemma process_pattern_init protocol username password hostname :
  from_option valid_utf8 True protocol →
  ∃ stripped, process_a_url_pattern_init (mk_init protocol username password hostname None None None None None)
      PatternProcessType.Pattern None None None None None None None None
    = Returned (Value (mk_init stripped username password hostname None None None None None))
    ∧ match protocol, stripped with
      | Some v, Some w => (length w ≤ length v)%nat
      | None, None => True
      | _, _ => False
      end.
Proof.
  intros Hv. destruct protocol as [v|]; cbn [from_option] in Hv.
  - destruct (strip_trailing_colon_spec v Hv) as (w & Hw & _ & Hl). exists (Some w). split; [|done].
    unfold process_a_url_pattern_init, process_members, given. cbn [init_base_url init_protocol]. cbv zeta.
    unfold process_protocol_for_init. rewrite Hw. by destruct username, password, hostname.
  - exists None. split; [|done]. by destruct username, password, hostname.
Qed.

(** C37: from an init of UTF-8 text that gives no port, pathname, search, hash or base URL
    and whose components are shorter than 2^32 bytes, the
    creation of a pattern returns a pattern or an error, whatever the engine answers,
    and the groups of each of its components have distinct names, which is what
    matching relies on.  (An init with a port, pathname, search or hash can stop the
    program: see the examples below.) *)
Theorem pattern_create_total (init : Init) (ignore_case : IgnoreCase)
    (Hvalid : init_valid init)
    (Hlen : Forall (from_option (λ s : bytes, Z.of_nat (length s) < 2 ^ 32) True) (components init))
    (Hrest : init_port init = None ∧ init_pathname init = None ∧ init_search init = None ∧ init_hash init = None)
    (Hbase : init_base_url init = None) :
  ∃ r, create (InputInit init) None ignore_case = Returned r ∧ ∀ p, r = Value p → pattern_wf p.
Proof.
  destruct init as [protocol username password hostname port pathname search hash base]. cbn in Hrest, Hbase.
  destruct Hrest as (-> & -> & -> & ->). subst base.
  pose proof (process_init_goal _ PatternProcessType.Pattern None None None None None None None None Hvalid
    ltac:(by repeat constructor)) as (r & Hr & Hok).
  unfold init_valid, components in *. cbn [app] in Hvalid.
  repeat match goal with H : Forall _ (_ :: _) |- _ => apply Forall_cons in H as [? ?] end.
  unfold create, init_of_input, pattern_try. rewrite !bind_value.
  destruct (process_pattern_init protocol username password hostname) as (stripped & Hs & Hl); [done|].
  rewrite Hs in Hr. injection Hr as <-. specialize (Hok _ eq_refl). rewrite Hs, bind_value.
  apply compile_components_goal; try done. unfold components.
  assert (∀ o : option bytes, from_option (λ s, Z.of_nat (length s) < 2 ^ 32) True o → from_option short True o) as Hshort.
  { intros [s|]; [|done]. cbn. unfold short. pose proof (code_points_length s). lia. }
  cbn [init_protocol init_username init_password init_hostname init_port init_pathname init_search init_hash] in *.
  repeat (apply Forall_cons; split); try done; try by apply Hshort.
  apply Hshort. destruct protocol as [v|], stripped as [w|]; try done. cbn in *. lia.
Qed.

End Create.

(** ** Examples *)
#[local] Existing Instances simdutf_example fast_float_example icu_example legacy_encoders_example.
#[local] Existing Instances regex_engine_example simdutf_utf16_example Tokenizer.icu_properties_example.
#[local] Existing Instances simdutf_example_ok fast_float_example_ok icu_example_ok legacy_encoders_example_ok.
#[local] Existing Instances regex_engine_example_ok.

(** An init with the given protocol, port, pathname and search. *)
Definition init_example (protocol port pathname search : option bytes) : Init :=
  mk_init protocol None None None port pathname search None None.

Definition pattern_strings (r : outcome (PatternErrorOr Pattern)) : option (list bytes) :=
  match r with Returned (Value p) => Some (Component.pattern_string <$> pattern_components p) | _ => None end.

Definition verify_fails {A} (r : outcome A) : bool := match r with VerifyFailed => true | _ => false end.

(** The pattern of which every component is a wildcard. *)
Definition wildcard_component : Component := Component.mk_component (sv "*") (sv "^(.*)$") [sv "0"] false.
Definition wildcard_pattern : Pattern :=
  mk_pattern wildcard_component wildcard_component wildcard_component wildcard_component wildcard_component
    wildcard_component wildcard_component wildcard_component.

Example create_wildcard :
  pattern_strings (create (InputInit new_init) None IgnoreCaseNo) = pattern_strings (Returned (Value wildcard_pattern)).
Proof. vm_compute. reflexivity. Qed.

Example create_from_string :
  pattern_strings (create (InputString (sv "https://example.com/*")) None IgnoreCaseNo)
  = Some (sv <$> ["https"; "*"; "*"; "example.com"; ""; "/*"; "*"; "*"]%string).
Proof. vm_compute. reflexivity. Qed.

Lemma wildcard_pattern_wf : pattern_wf wildcard_pattern.
Proof. unfold pattern_wf. repeat (constructor; [apply NoDup_singleton|]). constructor. Qed.

Lemma pattern_match_total_witness :
  ∃ result, match_pattern wildcard_pattern (MatchString (sv "https://a/b")) None = Returned (Value (Some result))
    ∧ Forall2 component_matched (pattern_components wildcard_pattern) (result_components result).
Proof.
  destruct (pattern_match_total wildcard_pattern (MatchString (sv "https://a/b")) None wildcard_pattern_wf) as [Htotal Hres];
    [apply ascii_valid_utf8; [apply sv_bytes|reflexivity]|exact I|].
  destruct (Htotal regex_engine_example_ok) as (r & Hr).
  assert (∃ result, r = Value (Some result)) as (result & ->) by (vm_compute in Hr; injection Hr as <-; by eexists).
  exists result. split; [exact Hr|]. by apply Hres.
Defined.

(** The match has a result: the pathname is captured. *)
Example match_wildcard :
  (λ r, match r with Returned (Value (Some r)) => Some (groups (pathname_result r)) | _ => None end)
    (match_pattern wildcard_pattern (MatchString (sv "https://a/b")) None) = Some [(sv "0", Some (sv "/b"))].
Proof. vm_compute. reflexivity. Qed.

Lemma match_base_url_init_witness :
  drop_inputs (match_pattern wildcard_pattern (MatchInit (with_base_url new_init (Some (sv "https://a/b")))) None)
  = drop_inputs (match_pattern wildcard_pattern (MatchString (sv "https://a/b")) None).
Proof. apply match_base_url_init. apply ascii_valid_utf8; [apply sv_bytes|reflexivity]. Defined.

Lemma pattern_create_total_witness :
  ∃ r, create (InputInit (init_example (Some (sv "https:")) None None None)) None IgnoreCaseYes = Returned r
    ∧ ∀ p, r = Value p → pattern_wf p.
Proof.
  apply pattern_create_total; [|by repeat constructor|by split_and!|reflexivity].
  unfold init_valid. cbn. repeat (constructor; [first [exact I|apply ascii_valid_utf8; [apply (sv_bytes "https:")|reflexivity]]|]).
  constructor.
Defined.

(** the pattern string of a component is not the pattern it was made from.  A
    group with a prefix is printed without its braces when the options have no prefix
    code point, so that only the name is optional in what is printed; so is a group
    whose prefix is empty after a text that ends in the prefix code point, which then
    takes the slash into the group. *)
Theorem pattern_string_drops_grouping :
  pattern_strings (create (InputInit (init_example None None None (Some (sv "{foo:bar}?")))) None IgnoreCaseNo)
    = Some (sv <$> ["*"; "*"; "*"; "*"; "*"; "*"; "foo:bar?"; "*"]%string)
  ∧ pattern_strings (create (InputInit (init_example None None (Some (sv "/foo/{:bar}?")) None)) None IgnoreCaseNo)
    = Some (sv <$> ["*"; "*"; "*"; "*"; "*"; "/foo/:bar?"; "*"; "*"]%string).
Proof. vm_compute. split; reflexivity. Qed.

(** two inits stop the program.  For the protocol "file", which is special and has
    no default port, any port that is a number reads the default port of the scheme
    with value(); and a fixed text that is encoded to the empty string after a named
    group, here the default port of the dummy URL, has no first code point to
    dereference when the pattern string is generated. *)
Theorem pattern_create_aborts :
  verify_fails (create (InputInit (init_example (Some (sv "file")) (Some (sv "80")) None None)) None IgnoreCaseNo) = true
  ∧ verify_fails (create (InputInit (init_example None (Some (sv ":a{443}")) None None)) None IgnoreCaseNo) = true.
Proof. vm_compute. split; reflexivity. Qed.
