(* ===== verification/Time.v ===== *)
(** * AK/Time.h and AK/Time.cpp: the calendar, durations and UNIX times

    The calendar functions ([is_leap_year] .. [days_since_epoch]), the
    saturating [Duration] and the [UnixDateTime] built on it.  Divisions are
    C++'s (towards zero): [Z.quot] and [Z.rem].  [Checked<i64>] is an [option]
    that stays [None] once a result left the range. *)
From S2P Require Import Prelude.

(** ** Machine integers *)
Definition i64_min : Z := - 2 ^ 63.
Definition i64_max : Z := 2 ^ 63 - 1.
Definition fits_i64 (z : Z) : bool := (i64_min <=? z) && (z <=? i64_max).

(** [static_cast<i32>] and [static_cast<i64>] of a wider value. *)
Definition to_i32 (z : Z) : Z := (z + 2 ^ 31) mod 2 ^ 32 - 2 ^ 31.
Definition to_i64 (z : Z) : Z := (z + 2 ^ 63) mod 2 ^ 64 - 2 ^ 63.

Definition checked_i64 (z : Z) : option Z := if fits_i64 z then Some z else None.
Definition checked_add (a : option Z) (b : Z) : option Z := a ≫= λ a, checked_i64 (a + b).
Definition checked_sub (a : option Z) (b : Z) : option Z := a ≫= λ a, checked_i64 (a - b).
Definition checked_mul (a : option Z) (b : Z) : option Z := a ≫= λ a, checked_i64 (a * b).

(** ** The calendar *)
Module Calendar.

Definition is_leap_year (year : Z) : bool :=
  (Z.rem year 4 =? 0) && (negb (Z.rem year 100 =? 0) || (Z.rem year 400 =? 0)).

Definition days_in_month (year month : Z) : outcome Z :=
  verify ((1 <=? month) && (month <=? 12)) (
    if month =? 2 then Returned (if is_leap_year year then 29 else 28)
    else
      let is_long_month := (month =? 1) || (month =? 3) || (month =? 5) || (month =? 7)
        || (month =? 8) || (month =? 10) || (month =? 12) in
      Returned (if is_long_month then 31 else 30)).

Definition day_of_week_seek_table : list Z := [0; 3; 2; 5; 0; 3; 5; 1; 4; 6; 2; 4].

Definition day_of_week (year month day : Z) : outcome Z :=
  verify ((1 <=? month) && (month <=? 12)) (
    let year := if month <? 3 then year - 1 else year in
    entry ← at_index day_of_week_seek_table (Z.to_nat (month - 1));
    Returned (wrap32
      (Z.rem (year + Z.quot year 4 - Z.quot year 100 + Z.quot year 400 + entry + day) 7))).

Definition day_of_year_seek_table : list Z := [0; 31; 59; 90; 120; 151; 181; 212; 243; 273; 304; 334].

(** At run time a month out of range gives 0. *)
Definition day_of_year (year month day : Z) : outcome Z :=
  if negb ((1 <=? month) && (month <=? 12)) then Returned 0
  else
    entry ← at_index day_of_year_seek_table (Z.to_nat (month - 1));
    let day_of_year := entry + day - 1 in
    Returned (if is_leap_year year && (3 <=? month) then day_of_year + 1 else day_of_year).

Definition days_in_year (year : Z) : Z := 365 + (if is_leap_year year then 1 else 0).

Definition iso8061_weeks_in_year (year : Z) : outcome Z :=
  this_year ← day_of_week year 12 31;
  if this_year =? 4 then Returned 53
  else
    last_year ← day_of_week (year - 1) 12 31;
    Returned (if last_year =? 3 then 53 else 52).

Definition floor_div_by (divisor dividend : Z) : Z :=
  let is_negative := if dividend <? 0 then 1 else 0 in
  Z.quot (dividend + is_negative) divisor - is_negative.

Definition mod_zeros_in_range (positive_mod begin' end' : Z) : Z :=
  floor_div_by positive_mod (end' - 1) - floor_div_by positive_mod (begin' - 1).

Definition years_to_days_since_epoch (year : Z) : Z :=
  let '(begin_year, end_year, leap_sign) :=
    if year <? 1970 then (year, 1970, -1) else (1970, year, 1) in
  let days := 365 * (year - 1970) in
  let extra_leap_days := mod_zeros_in_range 4 begin_year end_year in
  let extra_leap_days := extra_leap_days - mod_zeros_in_range 100 begin_year end_year in
  let extra_leap_days := extra_leap_days + mod_zeros_in_range 400 begin_year end_year in
  days + extra_leap_days * leap_sign.

Definition days_since_epoch (year month day : Z) : outcome Z :=
  d ← day_of_year year month day;
  Returned (years_to_days_since_epoch year + d).

End Calendar.
Export Calendar.

(** ** Duration *)
Record Duration := mk_duration { m_seconds : Z; m_nanoseconds : Z }.

#[global] Instance Duration_eq_dec : EqDecision Duration.
Proof. solve_decision. Defined.

Module DurationOps.

Definition sane_mod (numerator denominator : Z) : outcome (Z * Z) :=
  verify ((2 <=? denominator) && (denominator <=? 1000000000)) (
    let dividend := Z.quot numerator denominator in
    let numerator := Z.rem numerator denominator in
    if numerator <? 0 then Returned (dividend - 1, numerator + denominator)
    else Returned (dividend, numerator)).

Definition from_seconds (seconds : Z) : Duration := mk_duration seconds 0.

Definition from_nanoseconds (nanoseconds : Z) : outcome Duration :=
  '(seconds, nanoseconds) ← sane_mod nanoseconds 1000000000;
  Returned (mk_duration seconds nanoseconds).

Definition from_microseconds (microseconds : Z) : outcome Duration :=
  '(seconds, microseconds) ← sane_mod microseconds 1000000;
  Returned (mk_duration seconds (microseconds * 1000)).

Definition from_milliseconds (milliseconds : Z) : outcome Duration :=
  '(seconds, milliseconds) ← sane_mod milliseconds 1000;
  Returned (mk_duration seconds (milliseconds * 1000000)).

Definition duration_min : Duration := mk_duration i64_min 0.
Definition duration_zero : Duration := mk_duration 0 0.
Definition duration_max : Duration := mk_duration i64_max 999999999.

Definition from_half_sanitized (seconds extra_seconds nanoseconds : Z) : outcome Duration :=
  verify (nanoseconds <? 1000000000) (
    let '(seconds, extra_seconds) :=
      if ((seconds <=? 0) && (0 <? extra_seconds)) || ((0 <=? seconds) && (extra_seconds <? 0))
      then (seconds + extra_seconds, 0) else (seconds, extra_seconds) in
    if negb (fits_i64 (seconds + extra_seconds)) then
      Returned (if seconds <? 0 then duration_min else duration_max)
    else Returned (mk_duration (seconds + extra_seconds) nanoseconds)).

(** The [timespec] and [timeval] fields are at most [i64]; the sub-second field
    is narrowed to [i32] first. *)
Definition from_timespec (tv_sec tv_nsec : Z) : outcome Duration :=
  '(extra_secs, nsecs) ← sane_mod (to_i32 tv_nsec) 1000000000;
  from_half_sanitized tv_sec extra_secs nsecs.

Definition from_timeval (tv_sec tv_usec : Z) : outcome Duration :=
  '(extra_secs, usecs) ← sane_mod (to_i32 tv_usec) 1000000;
  verify ((0 <=? usecs) && (usecs <? 1000000)) (
    from_half_sanitized tv_sec extra_secs (usecs * 1000)).

Definition from_ticks (ticks ticks_per_second : Z) : outcome Duration :=
  let secs := Z.rem ticks ticks_per_second in
  let nsecs := to_i32 (Z.quot (1000000000 * (ticks - ticks_per_second * secs)) ticks_per_second) in
  '(extra_secs, nsecs) ← sane_mod nsecs 1000000000;
  from_half_sanitized secs extra_secs nsecs.

Definition from_time_units (time_units numerator denominator : Z) : outcome Duration :=
  verify (negb (numerator =? 0)) (verify (negb (denominator =? 0)) (
    if negb (fits_i64 (time_units * numerator)) then
      Returned (mk_duration (if 0 <=? time_units then i64_max else i64_min) 0)
    else
      let time_units_product := time_units * numerator in
      let seconds := Z.quot time_units_product denominator in
      let time_units_remainder := Z.rem time_units_product denominator in
      if (time_units_remainder <? 0) && (seconds =? i64_min) then Returned (mk_duration i64_min 0)
      else
        let '(seconds, time_units_remainder) :=
          if time_units_remainder <? 0 then (seconds - 1, time_units_remainder + denominator)
          else (seconds, time_units_remainder) in
        let nanoseconds :=
          Z.quot (time_units_remainder * 1000000000 + Z.quot denominator 2) denominator in
        let '(seconds, nanoseconds) :=
          if nanoseconds =? 1000000000 then (seconds + 1, 0) else (seconds, nanoseconds) in
        verify (0 <=? nanoseconds) (verify (nanoseconds <? 1000000000) (
          Returned (mk_duration seconds nanoseconds))))).

Definition scaled_by (this : Duration) (numerator denominator : Z) : outcome Duration :=
  verify (negb (denominator =? 0)) (
    if numerator =? 0 then Returned duration_zero
    else if numerator =? denominator then Returned this
    else if negb (fits_i64 (m_seconds this * numerator)) then
      Returned (mk_duration (if m_seconds this <? 0 then i64_min else i64_max) 0)
    else
      let seconds_product := m_seconds this * numerator in
      let seconds := Z.quot seconds_product denominator in
      let seconds_remainder := Z.rem seconds_product denominator in
      if (seconds_remainder <? 0) && (seconds =? i64_min) then Returned (mk_duration i64_min 0)
      else
        let '(seconds, seconds_remainder) :=
          if seconds_remainder <? 0 then (seconds - 1, seconds_remainder + denominator) else (seconds, seconds_remainder) in
        let numerator_ns := seconds_remainder * 1000000000 + m_nanoseconds this * numerator in
        let total_ns := Z.quot (numerator_ns + Z.quot denominator 2) denominator in
        let extra_seconds := Z.quot total_ns 1000000000 in
        let nanoseconds := Z.rem total_ns 1000000000 in
        match (if 0 <? extra_seconds then checked_add (Some seconds) extra_seconds else Some seconds) with
        | None => Returned duration_max
        | Some seconds =>
            verify (0 <=? nanoseconds) (verify (nanoseconds <? 1000000000) (Returned (mk_duration seconds nanoseconds)))
        end).

(** [tv_sec] and [tv_nsec]. *)
Definition to_timespec (d : Duration) : outcome (Z * Z) :=
  verify (m_nanoseconds d <? 1000000000) (Returned (m_seconds d, m_nanoseconds d)).

(** [tv_sec] and [tv_usec]. *)
Definition to_timeval (d : Duration) : outcome (Z * Z) :=
  verify (m_nanoseconds d <? 1000000000) (Returned (m_seconds d, Z.quot (m_nanoseconds d) 1000)).

Definition to_truncated_seconds (d : Duration) : outcome Z :=
  verify (m_nanoseconds d <? 1000000000) (
    if (m_seconds d <? 0) && negb (m_nanoseconds d =? 0) then Returned (m_seconds d + 1)
    else Returned (m_seconds d)).

(** The three truncating conversions are the same code with another unit:
    [unit] sub-second units in a second, each of [ns] nanoseconds. *)
Definition to_truncated_units (unit ns : Z) (d : Duration) : outcome Z :=
  verify (m_nanoseconds d <? 1000000000) (
    let negative := m_seconds d <? 0 in
    let n := Some (if negative then m_seconds d + 1 else m_seconds d) in
    let n := checked_mul n unit in
    let n := checked_add n (m_nanoseconds d / ns) in
    let n :=
      if negative then
        let n := if negb (m_nanoseconds d mod ns =? 0) then checked_add n 1 else n in
        checked_sub n unit
      else n in
    Returned (match n with Some n => n | None => if negative then i64_min else i64_max end)).

Definition to_truncated_milliseconds : Duration → outcome Z := to_truncated_units 1000 1000000.
Definition to_truncated_microseconds : Duration → outcome Z := to_truncated_units 1000000 1000.

Definition to_seconds (d : Duration) : outcome Z :=
  verify (m_nanoseconds d <? 1000000000) (
    if (0 <=? m_seconds d) && negb (m_nanoseconds d =? 0) then
      Returned (default i64_max (checked_add (Some (m_seconds d)) 1))
    else Returned (m_seconds d)).

(** [to_milliseconds] and [to_microseconds]; [to_nanoseconds] is the case where
    no nanosecond is left over. *)
Definition to_units (unit ns : Z) (d : Duration) : outcome Z :=
  verify (m_nanoseconds d <? 1000000000) (
    let negative := m_seconds d <? 0 in
    let n := Some (if negative then m_seconds d + 1 else m_seconds d) in
    let n := checked_mul n unit in
    let n := checked_add n (m_nanoseconds d / ns) in
    let n := if negb negative && negb (m_nanoseconds d mod ns =? 0) then checked_add n 1 else n in
    let n := if negative then checked_sub n unit else n in
    Returned (match n with Some n => n | None => if negative then i64_min else i64_max end)).

Definition to_milliseconds : Duration → outcome Z := to_units 1000 1000000.
Definition to_microseconds : Duration → outcome Z := to_units 1000000 1000.
Definition to_nanoseconds : Duration → outcome Z := to_units 1000000000 1.

Definition duration_add (this other : Duration) : outcome Duration :=
  verify (m_nanoseconds this <? 1000000000) (verify (m_nanoseconds other <? 1000000000) (
    let new_nsecs := m_nanoseconds this + m_nanoseconds other in
    let extra_secs := new_nsecs / 1000000000 in
    let new_nsecs := new_nsecs mod 1000000000 in
    let this_secs := m_seconds this in
    let other_secs := m_seconds other in
    let finish this_secs other_secs :=
      match checked_add (Some this_secs) other_secs with
      | None => Returned (if 0 <? other_secs then duration_max else duration_min)
      | Some new_secs => Returned (mk_duration new_secs new_nsecs)
      end in
    if negb (extra_secs =? 0) then
      verify (extra_secs =? 1) (
        if negb (this_secs =? 0x7fffffffffffffff) then finish (this_secs + 1) other_secs
        else if negb (other_secs =? 0x7fffffffffffffff) then finish this_secs (other_secs + 1)
        else Returned duration_max)
    else finish this_secs other_secs)).

Definition duration_sub (this other : Duration) : outcome Duration :=
  verify (m_nanoseconds this <? 1000000000) (verify (m_nanoseconds other <? 1000000000) (
    if negb (m_nanoseconds other =? 0) then
      duration_add this (mk_duration (to_i64 (Z.lnot (m_seconds other))) (1000000000 - m_nanoseconds other))
    else if negb (m_seconds other =? - 0x8000000000000000) then
      duration_add this (mk_duration (- m_seconds other) 0)
    else if 0 <=? m_seconds this then Returned duration_max
    else Returned (mk_duration ((m_seconds this + 0x4000000000000000) + 0x4000000000000000)
                    (m_nanoseconds this)))).

(** [operator<=>] *)
Definition duration_compare (this other : Duration) : Z :=
  let cmp := if m_seconds other <? m_seconds this then 1
             else if m_seconds this <? m_seconds other then -1 else 0 in
  if negb (cmp =? 0) then cmp
  else if m_nanoseconds other <? m_nanoseconds this then 1
  else if m_nanoseconds this <? m_nanoseconds other then -1 else 0.

Definition duration_lt (a b : Duration) : bool := duration_compare a b <? 0.

End DurationOps.
Export DurationOps.

(** ** UnixDateTime: an offset from 1970-01-01 00:00:00Z *)
Notation UnixDateTime := Duration (only parsing).

(** The integer [z] as a [double], rounded to the nearest one (ties to even). *)
Definition round_to_double (z : Z) : Z :=
  let e := Z.log2 (Z.abs z) - 52 in
  if e <=? 0 then z
  else
    let q := Z.abs z / 2 ^ e in
    let r := Z.abs z mod 2 ^ e in
    let q := if (2 ^ (e - 1) <? r) || ((r =? 2 ^ (e - 1)) && Z.odd q) then q + 1 else q in
    Z.sgn z * (q * 2 ^ e).

Module UnixTime.

Definition from_seconds_since_epoch (seconds : Z) : UnixDateTime := from_seconds seconds.

Definition from_milliseconds_since_epoch (milliseconds : Z) : outcome UnixDateTime :=
  from_milliseconds milliseconds.

Definition earliest : UnixDateTime := duration_min.
Definition latest : UnixDateTime := duration_max.

(** [seconds_per_day] is a [double], so the product with the days is one too. *)
Definition from_unix_time_parts (year month day hour minute second millisecond : Z)
    : outcome UnixDateTime :=
  days ← days_since_epoch year month day;
  let seconds_since_epoch := round_to_double (days * 86400) in
  let seconds_since_epoch := seconds_since_epoch + hour * 3600 in
  let seconds_since_epoch := seconds_since_epoch + minute * 60 in
  let seconds_since_epoch := seconds_since_epoch + second in
  ms ← from_milliseconds millisecond;
  duration_add (from_seconds_since_epoch seconds_since_epoch) ms.

Definition seconds_since_epoch (t : UnixDateTime) : outcome Z := to_seconds t.
Definition milliseconds_since_epoch (t : UnixDateTime) : outcome Z := to_milliseconds t.
Definition truncated_seconds_since_epoch (t : UnixDateTime) : outcome Z := to_truncated_seconds t.

Definition month_starts_normal : list Z := [1; 32; 60; 91; 121; 152; 182; 213; 244; 274; 305; 335].
Definition month_starts_leap : list Z := [1; 32; 61; 92; 122; 153; 183; 214; 245; 275; 306; 336].

(** The arithmetic is on [u32]; the month and the day are narrowed to [u8]. *)
Definition from_ordinal_date (year day : Z) : outcome UnixDateTime :=
  let month_starts := if is_leap_year (to_i32 year) then month_starts_leap else month_starts_normal in
  let estimated_month := wrap32 (wrap32 (day * 12) + 6) / 367 in
  start ← at_index month_starts (Z.to_nat estimated_month);
  let estimated_month := if day <? start then wrap32 (estimated_month - 1) else estimated_month in
  let month := wrap32 (estimated_month + 1) in
  start ← at_index month_starts (Z.to_nat estimated_month);
  let day_of_month := wrap32 (wrap32 (day - start) + 1) in
  from_unix_time_parts (to_i32 year) (month mod 256) (day_of_month mod 256) 0 0 0 0.

Definition from_iso8601_week (week_year week : Z) : outcome UnixDateTime :=
  dow ← day_of_week (to_i32 week_year) 1 4;
  let day_of_week_january_4th := wrap32 (dow + 6) mod 7 in
  let ordinal_day := to_i32 (wrap32 (wrap32 (7 * week) - day_of_week_january_4th - 3)) in
  if ordinal_day <? 1 then
    from_ordinal_date (wrap32 (week_year - 1))
      (wrap32 (ordinal_day + days_in_year (to_i32 (week_year - 1))))
  else
    let days_in_week_year := days_in_year (to_i32 week_year) in
    if days_in_week_year <? ordinal_day then
      from_ordinal_date (wrap32 (week_year + 1)) (ordinal_day - days_in_week_year)
    else from_ordinal_date week_year ordinal_day.

End UnixTime.
Export UnixTime.

(** ** AK/DateConstants.h *)
Definition long_day_names : list bytes :=
  [sv "Sunday"; sv "Monday"; sv "Tuesday"; sv "Wednesday"; sv "Thursday"; sv "Friday"; sv "Saturday"].

Definition short_day_names : list bytes := [sv "Sun"; sv "Mon"; sv "Tue"; sv "Wed"; sv "Thu"; sv "Fri"; sv "Sat"].

Definition long_month_names : list bytes :=
  [sv "January"; sv "February"; sv "March"; sv "April"; sv "May"; sv "June"; sv "July"; sv "August"; sv "September";
   sv "October"; sv "November"; sv "December"].

Definition short_month_names : list bytes :=
  [sv "Jan"; sv "Feb"; sv "Mar"; sv "Apr"; sv "May"; sv "Jun"; sv "Jul"; sv "Aug"; sv "Sep"; sv "Oct"; sv "Nov"; sv "Dec"].

(** ** The value of a duration *)
Definition duration_ns (d : Duration) : Z := m_seconds d * 1000000000 + m_nanoseconds d.

Definition duration_valid (d : Duration) : Prop :=
  i64_min ≤ m_seconds d ≤ i64_max ∧ 0 ≤ m_nanoseconds d < 1000000000.

(** The closest legal value. *)
Definition duration_clamp (ns : Z) : Z :=
  Z.max (duration_ns duration_min) (Z.min (duration_ns duration_max) ns).

Ltac unfold_duration :=
  unfold duration_valid, duration_clamp, duration_min, duration_max, fits_i64, i64_min, i64_max in *;
  unfold duration_ns in *; cbn [m_seconds m_nanoseconds] in *.

Lemma checked_add_some a b : checked_add (Some a) b = if fits_i64 (a + b) then Some (a + b) else None.
Proof. done. Qed.

Lemma duration_add_saturates a b :
  duration_valid a → duration_valid b →
  ∃ c, duration_add a b = Returned c ∧ duration_valid c
    ∧ duration_ns c = duration_clamp (duration_ns a + duration_ns b).
Proof.
  destruct a as [sa na], b as [sb nb]. unfold_duration. intros [Hsa Hna] [Hsb Hnb].
  unfold duration_add. cbn [m_seconds m_nanoseconds]. unfold verify.
  replace (na <? 1000000000) with true by lia. replace (nb <? 1000000000) with true by lia.
  assert ((na + nb) / 1000000000 = 0 ∧ (na + nb) mod 1000000000 = na + nb ∧ na + nb < 1000000000
    ∨ (na + nb) / 1000000000 = 1 ∧ (na + nb) mod 1000000000 = na + nb - 1000000000
      ∧ 1000000000 ≤ na + nb)
    as [(-> & -> & Hn)|(-> & -> & Hn)] by div_lia;
    cbn [Z.eqb negb Pos.eqb]; rewrite ?checked_add_some;
    repeat case_match; bool_to_prop; simplify_eq; eexists; (split; [reflexivity|]);
    unfold_duration; lia.
Qed.

Lemma duration_sub_saturates a b :
  duration_valid a → duration_valid b →
  ∃ c, duration_sub a b = Returned c ∧ duration_valid c
    ∧ duration_ns c = duration_clamp (duration_ns a - duration_ns b).
Proof.
  intros Ha Hb. unfold duration_sub, verify.
  replace (m_nanoseconds a <? 1000000000) with true by (unfold_duration; lia).
  replace (m_nanoseconds b <? 1000000000) with true by (unfold_duration; lia).
  assert (to_i64 (Z.lnot (m_seconds b)) = - m_seconds b - 1) as Hlnot.
  { unfold to_i64, Z.lnot. unfold_duration. rewrite Z.mod_small; lia. }
  repeat case_goal; bool_to_prop; try rewrite Hlnot.
  - destruct (duration_add_saturates a
      (mk_duration (- m_seconds b - 1) (1000000000 - m_nanoseconds b))) as (c & Hc & Hv & Hns);
      [done|unfold_duration; lia|].
    exists c. split_and!; [done..|]. rewrite Hns. f_equal. unfold duration_ns. simpl. lia.
  - destruct (duration_add_saturates a (mk_duration (- m_seconds b) 0)) as (c & Hc & Hv & Hns);
      [done|unfold_duration; lia|].
    exists c. split_and!; [done..|]. rewrite Hns. f_equal. unfold duration_ns. simpl. lia.
  - eexists. split; [reflexivity|]. unfold_duration. lia.
  - eexists. split; [reflexivity|]. unfold_duration. lia.
Qed.

(** [from_ticks] takes the remainder of the ticks where it needs the quotient: 150
    ticks of a clock of 100 ticks per second are 48.7 seconds instead of 1.5. *)
Example from_ticks_wrong :
  from_ticks 150 100 = Returned (mk_duration 48 744640256) ∧ from_milliseconds 1500 = Returned (mk_duration 1 500000000).
Proof. split; reflexivity. Qed.

(** [from_time_units] saturates to a value below the greatest duration. *)
Example from_time_units_not_closest :
  from_time_units (2 ^ 62) 4 1 = Returned (mk_duration i64_max 0)
  ∧ duration_compare (mk_duration i64_max 0) duration_max < 0.
Proof. split; reflexivity. Qed.

(** C39: Adding and subtracting durations never aborts on legal durations and
    gives the exact result when it is representable and the closest legal value
    otherwise; the comparison is that of the nanosecond counts. *)
Theorem duration_arithmetic_saturates (a b : Duration)
    (Ha : duration_valid a) (Hb : duration_valid b) :
  (∃ c, duration_add a b = Returned c ∧ duration_valid c
    ∧ duration_ns c = duration_clamp (duration_ns a + duration_ns b))
  ∧ (∃ c, duration_sub a b = Returned c ∧ duration_valid c
    ∧ duration_ns c = duration_clamp (duration_ns a - duration_ns b))
  ∧ (duration_compare a b <? 0) = (duration_ns a <? duration_ns b).
Proof.
  split_and!; [by apply duration_add_saturates|by apply duration_sub_saturates|].
  unfold duration_compare. unfold_duration.
  destruct (Z.ltb_spec (m_seconds b) (m_seconds a)), (Z.ltb_spec (m_seconds a) (m_seconds b)),
    (Z.ltb_spec (m_nanoseconds b) (m_nanoseconds a)), (Z.ltb_spec (m_nanoseconds a) (m_nanoseconds b));
    cbn; lia.
Qed.

Lemma duration_arithmetic_saturates_witness :
  ∃ c, duration_add (mk_duration i64_max 5) (mk_duration (-2) 999999999) = Returned c
    ∧ duration_ns c = duration_clamp
        (duration_ns (mk_duration i64_max 5) + duration_ns (mk_duration (-2) 999999999)).
Proof.
  destruct (duration_arithmetic_saturates (mk_duration i64_max 5) (mk_duration (-2) 999999999))
    as [(c & Hc & _ & Hns) _]; [unfold_duration; lia..|]. by exists c.
Defined.

(** ** The calendar counts days *)
Definition valid_date (year month day : Z) : Prop :=
  1 ≤ month ≤ 12 ∧ ∃ n, days_in_month year month = Returned n ∧ 1 ≤ day ≤ n.

(** The day after a date. *)
Definition next_date (year month day : Z) : Z * Z * Z :=
  match days_in_month year month with
  | Returned n =>
      if day <? n then (year, month, day + 1)
      else if month <? 12 then (year, month + 1, 1) else (year + 1, 1, 1)
  | _ => (year, month, day)
  end.

Lemma floor_div_by_floor divisor n : 1 < divisor → floor_div_by divisor n = n / divisor.
Proof.
  intros Hd. unfold floor_div_by. destruct (Z.ltb_spec n 0).
  - rewrite Z.quot_div by lia.
    pose proof (Z.div_mod (-(n + 1)) divisor ltac:(lia)).
    pose proof (Z.mod_pos_bound (-(n + 1)) divisor ltac:(lia)).
    replace (Z.sgn (n + 1) * Z.sgn divisor * (Z.abs (n + 1) / Z.abs divisor)) with (- (-(n + 1) / divisor)).
    + apply (Z.div_unique_pos _ _ _ (divisor - 1 - (-(n + 1)) mod divisor)); nia.
    + rewrite (Z.abs_neq (n + 1)), (Z.abs_eq divisor), (Z.sgn_pos divisor) by lia.
      destruct (decide (n = -1)) as [->|].
      * rewrite Z.div_0_l; lia.
      * rewrite Z.sgn_neg by lia. lia.
  - by rewrite Z.add_0_r, Z.sub_0_r, Z.quot_div_nonneg by lia.
Qed.

(** Leap years by floor division: the number of leap days before [year]. *)
Definition leap_days_before (year : Z) : Z := (year - 1) / 4 - (year - 1) / 100 + (year - 1) / 400.

Lemma years_to_days_closed year :
  years_to_days_since_epoch year = 365 * (year - 1970) + leap_days_before year - leap_days_before 1970.
Proof.
  unfold years_to_days_since_epoch, mod_zeros_in_range, leap_days_before.
  destruct (Z.ltb_spec year 1970); rewrite !floor_div_by_floor by lia; lia.
Qed.

Lemma rem_zero_mod a b : 0 < b → (Z.rem a b =? 0) = (a mod b =? 0).
Proof.
  intros Hb. destruct (Z.eqb_spec (Z.rem a b) 0) as [E|E]; symmetry.
  - apply Z.eqb_eq. apply Z.rem_divide in E; [|lia]. by apply Z.mod_divide; [lia|].
  - apply Z.eqb_neq. intros Hm. apply E. apply Z.rem_divide; [lia|]. apply Z.mod_divide; [lia|done].
Qed.

Lemma is_leap_year_mod year :
  is_leap_year year = (year mod 4 =? 0) && (negb (year mod 100 =? 0) || (year mod 400 =? 0)).
Proof. unfold is_leap_year. by rewrite !rem_zero_mod by lia. Qed.

Lemma years_to_days_step year :
  years_to_days_since_epoch (year + 1) = years_to_days_since_epoch year + days_in_year year.
Proof.
  rewrite !years_to_days_closed. unfold leap_days_before, days_in_year. rewrite is_leap_year_mod.
  replace (year + 1 - 1) with year by lia.
  destruct (Z.eqb_spec (year mod 4) 0), (Z.eqb_spec (year mod 100) 0), (Z.eqb_spec (year mod 400) 0);
    cbn; div_lia.
Qed.

Lemma days_since_epoch_value year month day :
  1 ≤ month ≤ 12 →
  ∃ entry, day_of_year_seek_table !! Z.to_nat (month - 1) = Some entry
    ∧ days_since_epoch year month day = Returned (years_to_days_since_epoch year +
        (entry + day - 1 + if is_leap_year year && (3 <=? month) then 1 else 0)).
Proof.
  intros Hm. destruct (lookup_lt_is_Some_2 day_of_year_seek_table (Z.to_nat (month - 1))) as [e He].
  { cbn [day_of_year_seek_table length]. lia. }
  exists e. split; [done|]. unfold days_since_epoch, day_of_year.
  replace (negb _) with false by lia. unfold at_index. rewrite He. cbn [must mbind outcome_bind].
  do 2 f_equal. case_match; lia.
Qed.

(** [days_since_epoch] counts days: 1970-01-01 is day 0 and the day after a
    date, in any year before or after the epoch, across months, years and leap
    days, is one more. *)
Theorem days_since_epoch_counts (year month day : Z) (Hdate : valid_date year month day) :
  days_since_epoch 1970 1 1 = Returned 0
  ∧ ∃ n, days_since_epoch year month day = Returned n
    ∧ let '(y, m, d) := next_date year month day in days_since_epoch y m d = Returned (n + 1).
Proof.
  split; [reflexivity|]. destruct Hdate as [Hm (n & Hn & Hd)].
  destruct (days_since_epoch_value year month day Hm) as (e & He & ->).
  eexists. split; [reflexivity|]. unfold next_date. rewrite Hn.
  destruct (Z.ltb_spec day n) as [Hlt|Hge].
  { destruct (days_since_epoch_value year month (day + 1) Hm) as (e' & He' & ->).
    simplify_eq. f_equal. lia. }
  assert (day = n) as -> by lia. clear Hd Hge. revert Hn He.
  pose proof (years_to_days_step year) as Hstep. unfold days_in_year in Hstep.
  assert (month = 1 ∨ month = 2 ∨ month = 3 ∨ month = 4 ∨ month = 5 ∨ month = 6 ∨ month = 7
    ∨ month = 8 ∨ month = 9 ∨ month = 10 ∨ month = 11 ∨ month = 12) as Hcases by lia.
  destruct_or! Hcases; subst month; intros Hn He; cbn in Hn; vm_compute in He; simplify_eq; cbn [Z.ltb Z.compare Pos.compare Pos.compare_cont];
    match goal with |- days_since_epoch ?y ?m ?d = _ =>
      destruct (days_since_epoch_value y m d ltac:(lia)) as (e' & He' & ->) end;
    vm_compute in He'; simplify_eq; f_equal; rewrite ?Hstep; repeat case_match; bool_to_prop; lia.
Qed.

Lemma days_since_epoch_counts_witness :
  days_since_epoch 1900 2 28 = Returned (-25509) ∧ days_since_epoch 1900 3 1 = Returned (-25508).
Proof.
  destruct (days_since_epoch_counts 1900 2 28) as [_ (n & Hn & Hnext)].
  { split; [lia|]. exists 28. split; [reflexivity|lia]. }
  split; [reflexivity|]. vm_compute in Hn. injection Hn as <-. exact Hnext.
Defined.

(** ** Times from calendar parts *)
Lemma round_to_double_exact z : Z.abs z < 2 ^ 53 → round_to_double z = z.
Proof.
  intros Hz. unfold round_to_double. destruct (Z.leb_spec (Z.log2 (Z.abs z) - 52) 0) as [|Hl]; [done|].
  exfalso. destruct (decide (z = 0)) as [->|Hne]; [vm_compute in Hl; done|].
  pose proof (proj1 (Z.log2_lt_pow2 (Z.abs z) 53 ltac:(lia)) Hz). lia.
Qed.

Lemma days_since_epoch_bound year month day n :
  1 ≤ month ≤ 12 → 0 ≤ year ≤ 9999 → 0 ≤ day ≤ 31 → days_since_epoch year month day = Returned n → - 800000 ≤ n ≤ 3000000.
Proof.
  intros Hm Hy Hd Hn. destruct (days_since_epoch_value year month day Hm) as (e & He & Hv). rewrite Hn in Hv.
  injection Hv as ->. rewrite years_to_days_closed. unfold leap_days_before.
  assert (0 ≤ e ≤ 334) as Hel.
  { assert (Forall (λ e, 0 ≤ e ≤ 334) day_of_year_seek_table) as Hall by (repeat constructor; done).
    by eapply (Forall_lookup_1 _ _ _ _ Hall He). }
  destruct (_ && _); div_lia.
Qed.

Lemma duration_add_zero t :
  i64_min ≤ t ≤ i64_max → duration_add (mk_duration t 0) duration_zero = Returned (mk_duration t 0).
Proof.
  intros Ht. unfold duration_add. cbn [m_seconds m_nanoseconds duration_zero].
  change (0 + 0) with 0. change (0 / 1000000000) with 0. change (0 mod 1000000000) with 0.
  change (0 <? 1000000000) with true. change (0 =? 0) with true. cbn [negb verify].
  rewrite checked_add_some, Z.add_0_r. unfold fits_i64.
  by rewrite (proj2 (Z.leb_le i64_min t)), (proj2 (Z.leb_le t i64_max)) by lia.
Qed.

(** The seconds since the epoch of a date and a time of day. *)
Lemma from_unix_time_parts_value year month day hour minute second :
  1 ≤ month ≤ 12 → 0 ≤ year ≤ 9999 → 0 ≤ day ≤ 31 → 0 ≤ hour ≤ 23 → 0 ≤ minute ≤ 59 → 0 ≤ second ≤ 59 →
  ∃ days, days_since_epoch year month day = Returned days ∧ - 800000 ≤ days ≤ 3000000
    ∧ from_unix_time_parts year month day hour minute second 0
      = Returned (mk_duration (days * 86400 + hour * 3600 + minute * 60 + second) 0).
Proof.
  intros Hm Hy Hd Hh Hmi Hs. destruct (days_since_epoch_value year month day Hm) as (e & He & Hv).
  eexists. split; [exact Hv|]. pose proof (days_since_epoch_bound _ _ _ _ Hm Hy Hd Hv) as Hb. split; [done|].
  unfold from_unix_time_parts. rewrite Hv, bind_value, round_to_double_exact by lia.
  change (from_milliseconds 0) with (Returned duration_zero). rewrite bind_value.
  apply duration_add_zero. unfold i64_min, i64_max. lia.
Qed.

Lemma to_seconds_value t :
  duration_valid t → ∃ n, to_seconds t = Returned n ∧ m_seconds t ≤ n ≤ m_seconds t + 1 ∧ (m_nanoseconds t = 0 → n = m_seconds t).
Proof.
  intros [Hs Hn]. unfold to_seconds. rewrite verify_true by (apply Z.ltb_lt; lia).
  destruct ((0 <=? m_seconds t) && negb (m_nanoseconds t =? 0)) eqn:E; eexists; (split; [done|]); [|split; [lia|done]].
  apply andb_prop in E as [_ E%negb_true_iff%Z.eqb_neq]. rewrite checked_add_some. unfold fits_i64, i64_min, i64_max in *.
  destruct (_ && _) eqn:E1; cbn [default id]; bool_to_prop; [lia|]. apply andb_false_iff in E1 as [E1|E1]; bool_to_prop; lia.
Qed.
