(* ===== verification/GenericLexer.v ===== *)
(** * AK/GenericLexer.h over bytes, and the number conversions of AK/StringConversions.cpp

    The lexer is its input and an index; every operation returns the new lexer
    beside its result.  The scanning loops ([consume_until], [consume_while],
    [ignore_until], ...) advance over the rest of the input, so they are
    structural on it. *)
From S2P Require Import Prelude CharacterTypes Externals Utf8 StringView Format Ipv4.

(** ** Whitespace and numbers *)
Definition whitespace_characters : bytes := [c_space; c_lf; c_tab; c_vt; c_ff; c_cr].

Definition trim_whitespace (str : bytes) (mode : TrimMode) : bytes :=
  trim str whitespace_characters mode.

Inductive TrimWhitespace := TrimWhitespaceNo | TrimWhitespaceYes.

(** [parse_number<T>] at an unsigned type. *)
Definition to_number `{FastFloat} (max base : Z) (string : bytes) (trim_whitespace' : TrimWhitespace)
    : option Z :=
  let string := match trim_whitespace' with
    | TrimWhitespaceYes => trim_whitespace string TrimBoth
    | TrimWhitespaceNo => string
    end in
  parse_number max base string.

Notation u32_max := 0xffffffff (only parsing).
Notation u64_max := 0xffffffffffffffff (only parsing).

(** [fast_float::from_chars_advanced] at a signed type from [min] to [max], with
    [allow_leading_plus]. *)
Class FastFloatSigned := {
  from_chars_signed : Z → Z → Z → bytes → option (Z * nat);
}.

(** A value that the type cannot represent is an error. *)
Class FastFloatSignedOk `{FastFloatSigned} := {
  from_chars_signed_range : ∀ min max base s v n, from_chars_signed min max base s = Some (v, n) → min ≤ v ≤ max;
}.

(** [parse_number<T>] at a signed type. *)
Definition to_signed_number `{FastFloatSigned} (min max base : Z) (string : bytes)
    (trim_whitespace' : TrimWhitespace) : option Z :=
  let string := match trim_whitespace' with
    | TrimWhitespaceYes => trim_whitespace string TrimBoth
    | TrimWhitespaceNo => string
    end in
  match from_chars_signed min max base string with
  | None => None
  | Some (value, characters_parsed) =>
      if negb (characters_parsed =? length string)%nat then None else Some value
  end.

(** ** GenericLexer *)
Record GenericLexer := mk_lexer { m_input : bytes; m_index : nat }.

Definition lexer_of (input : bytes) : GenericLexer := mk_lexer input 0.

Module Lexer.

Definition is_eof (l : GenericLexer) : bool := (length (m_input l) <=? m_index l)%nat.

Definition peek (l : GenericLexer) (offset : nat) : Z :=
  if (m_index l + offset <? length (m_input l))%nat
  then default 0 (m_input l !! (m_index l + offset)%nat) else 0.

Definition peek_string (l : GenericLexer) (length' offset : nat) : outcome (option bytes) :=
  if (length (m_input l) <? m_index l + offset + length')%nat then Returned None
  else s ← substring_view (m_input l) (m_index l + offset) length'; Returned (Some s).

Definition next_is (l : GenericLexer) (expected : Z) : bool := peek l 0 =? expected.

Definition next_is_view (l : GenericLexer) (expected : bytes) : outcome bool :=
  s ← peek_string l (length expected) 0;
  Returned (bool_decide (s = Some expected)).

Definition retreat (l : GenericLexer) (count : nat) : outcome GenericLexer :=
  verify (count <=? m_index l)%nat (Returned (mk_lexer (m_input l) (m_index l - count))).

Definition consume (l : GenericLexer) : outcome (Z * GenericLexer) :=
  verify (negb (is_eof l)) (
    c ← at_index (m_input l) (m_index l);
    Returned (c, mk_lexer (m_input l) (m_index l + 1))).

(** [min(count, input_length() - m_index)]: the index never passes the end, so
    the subtraction of the source does not wrap. *)
Definition ignore (l : GenericLexer) (count : nat) : GenericLexer :=
  let count := Nat.min count (length (m_input l) - m_index l) in
  mk_lexer (m_input l) (m_index l + count).

Definition consume_specific (l : GenericLexer) (next : Z) : bool * GenericLexer :=
  if negb (next_is l next) then (false, l) else (true, ignore l 1).

Definition consume_specific_view (l : GenericLexer) (next : bytes) : outcome (bool * GenericLexer) :=
  b ← next_is_view l next;
  Returned (if negb b then (false, l) else (true, ignore l (length next))).

Definition consume_count (l : GenericLexer) (count : nat) : outcome (bytes * GenericLexer) :=
  let start := m_index l in
  let length' := Nat.min count (length (m_input l) - m_index l) in
  s ← substring_view (m_input l) start length';
  Returned (s, mk_lexer (m_input l) (m_index l + length')).

Definition consume_all (l : GenericLexer) : outcome (bytes * GenericLexer) :=
  rest ← substring_view (m_input l) (m_index l) (length (m_input l) - m_index l);
  Returned (rest, mk_lexer (m_input l) (length (m_input l))).

(** [while (!is_eof() && pred(peek())) ++m_index;]: how many characters. *)
Fixpoint scan_while (pred : Z → bool) (rest : bytes) : nat :=
  match rest with
  | [] => 0
  | c :: rest => if pred c then S (scan_while pred rest) else 0
  end.

Definition ignore_while (pred : Z → bool) (l : GenericLexer) : GenericLexer :=
  mk_lexer (m_input l) (m_index l + scan_while pred (drop (m_index l) (m_input l))).

Definition ignore_until (pred : Z → bool) (l : GenericLexer) : GenericLexer :=
  ignore_while (λ c, negb (pred c)) l.

Definition consume_while (pred : Z → bool) (l : GenericLexer) : outcome (bytes * GenericLexer) :=
  let start := m_index l in
  let l := ignore_while pred l in
  s ← substring_view (m_input l) start (m_index l - start);
  Returned (s, l).

Definition consume_until (pred : Z → bool) (l : GenericLexer) : outcome (bytes * GenericLexer) :=
  consume_while (λ c, negb (pred c)) l.

Definition consume_line (l : GenericLexer) : outcome (bytes * GenericLexer) :=
  '(s, l) ← consume_until (λ c, (c =? c_cr) || (c =? c_lf)) l;
  let '(_, l) := consume_specific l c_cr in
  let '(_, l) := consume_specific l c_lf in
  Returned (s, l).

(** [consume_decimal_integer<u64>]: [None] is the error, on which the scope
    guard restores the index. *)
Definition consume_decimal_integer_u64 `{FastFloat} (l : GenericLexer)
    : outcome (option Z * GenericLexer) :=
  let rollback := l in
  '(has_minus_sign, l) ←
    (if next_is l c_plus || next_is l c_minus then
       '(c, l) ← consume l; Returned (c =? c_minus, l)
     else Returned (false, l));
  '(number_view, l) ← consume_while is_ascii_digit l;
  if bool_decide (number_view = []) then Returned (None, rollback)
  else match to_number u64_max 10 number_view TrimWhitespaceNo with
  | None => Returned (None, rollback)
  | Some number =>
      if negb has_minus_sign then
        if u64_max <? number then Returned (None, rollback) else Returned (Some number, l)
      else if negb (number =? 0) then Returned (None, rollback)
      else Returned (Some 0, l)
  end.

(** [consume_decimal_integer<int>]: the number is read as an [unsigned]. *)
Definition consume_decimal_integer_int `{FastFloat} (l : GenericLexer)
    : outcome (option Z * GenericLexer) :=
  let rollback := l in
  '(has_minus_sign, l) ←
    (if next_is l c_plus || next_is l c_minus then
       '(c, l) ← consume l; Returned (c =? c_minus, l)
     else Returned (false, l));
  '(number_view, l) ← consume_while is_ascii_digit l;
  if bool_decide (number_view = []) then Returned (None, rollback)
  else match to_number u32_max 10 number_view TrimWhitespaceNo with
  | None => Returned (None, rollback)
  | Some number =>
      if negb has_minus_sign then
        if 2 ^ 31 - 1 <? number then Returned (None, rollback) else Returned (Some number, l)
      else if 2 ^ 31 <? number then Returned (None, rollback)
      else Returned (Some (- number), l)
  end.

(** [m_index++] in the loop of [consume_quoted_string], with the step over an
    escape: the index may pass the end by one. *)
Fixpoint quoted_scan (fuel : nat) (l : GenericLexer) (escape_char quote_char : Z) : outcome GenericLexer :=
  if is_eof l then Returned l
  else
    match fuel with
    | O => OutOfFuel
    | S fuel =>
        if next_is l escape_char then quoted_scan fuel (mk_lexer (m_input l) (m_index l + 2)) escape_char quote_char
        else if next_is l quote_char then Returned l
        else quoted_scan fuel (mk_lexer (m_input l) (m_index l + 1)) escape_char quote_char
    end.

Definition is_quote (c : Z) : bool := contains_char [0x27; 0x22] c.

(** [None] is the empty view of a string without quotes or of an unterminated
    one, which leave the index where it was. *)
Definition consume_quoted_string (l : GenericLexer) (escape_char : Z) : outcome (option bytes * GenericLexer) :=
  if negb (is_quote (peek l 0)) then Returned (None, l)
  else
    '(quote_char, l) ← consume l;
    let start := m_index l in
    l ← quoted_scan (length (m_input l)) l escape_char quote_char;
    if negb (peek l 0 =? quote_char) then Returned (None, mk_lexer (m_input l) (start - 1))
    else
      s ← substring_view (m_input l) start (m_index l - start);
      Returned (Some s, ignore l 1).

End Lexer.
Export Lexer.

(** [is_any_of(values)] *)
Definition is_any_of (values : bytes) (c : Z) : bool := contains_char values c.

(** ** Scanning *)
Definition lexer_ok (l : GenericLexer) : Prop := (m_index l ≤ length (m_input l))%nat.

(** What is left to read. *)
Definition remaining (l : GenericLexer) : bytes := drop (m_index l) (m_input l).

Lemma is_eof_remaining l : is_eof l = bool_decide (remaining l = []).
Proof.
  unfold is_eof, remaining. destruct (Nat.leb_spec (length (m_input l)) (m_index l)).
  - by rewrite drop_ge, bool_decide_eq_true_2.
  - rewrite bool_decide_eq_false_2; [done|]. intros E%(f_equal length). rewrite length_drop in E.
    simpl in E. lia.
Qed.

Lemma scan_while_le pred rest : (scan_while pred rest ≤ length rest)%nat.
Proof. induction rest; simpl; [lia|]. case_match; simpl; lia. Qed.

Lemma scan_while_spec pred rest :
  Forall (λ c, pred c = true) (take (scan_while pred rest) rest)
  ∧ match drop (scan_while pred rest) rest with c :: _ => pred c = false | [] => True end.
Proof.
  induction rest as [|c rest IH]; simpl; [done|]. destruct (pred c) eqn:E; simpl; [|done].
  destruct IH. by split; [constructor|].
Qed.

Lemma scan_while_app pred s rest :
  Forall (λ c, pred c = true) s →
  match rest with c :: _ => pred c = false | [] => True end →
  scan_while pred (s ++ rest) = length s.
Proof.
  induction 1 as [|c s Hc Hs IH]; intros Hr; simpl.
  - destruct rest as [|c rest]; simpl; [done|]. by rewrite Hr.
  - by rewrite Hc, IH.
Qed.

Lemma ignore_while_ok pred l : lexer_ok l → lexer_ok (ignore_while pred l).
Proof.
  unfold lexer_ok, ignore_while. simpl. intros Hl.
  pose proof (scan_while_le pred (drop (m_index l) (m_input l))) as H.
  rewrite length_drop in H. lia.
Qed.

Lemma remaining_ignore_while pred l :
  remaining (ignore_while pred l) = drop (scan_while pred (remaining l)) (remaining l).
Proof. unfold remaining, ignore_while. simpl. by rewrite drop_drop. Qed.

Lemma consume_while_returns pred l :
  lexer_ok l →
  consume_while pred l = Returned (take (scan_while pred (remaining l)) (remaining l), ignore_while pred l).
Proof.
  intros Hl. unfold consume_while. cbn [m_input ignore_while m_index].
  replace (m_index l + scan_while pred (drop (m_index l) (m_input l)) - m_index l)%nat
    with (scan_while pred (drop (m_index l) (m_input l))) by lia.
  pose proof (scan_while_le pred (drop (m_index l) (m_input l))) as Hle. rewrite length_drop in Hle.
  rewrite substring_view_in_range by (unfold lexer_ok in Hl; lia). done.
Qed.

Lemma remaining_cons l c rest :
  remaining l = c :: rest → lexer_ok l ∧ m_input l !! m_index l = Some c
  ∧ remaining (ignore l 1) = rest ∧ lexer_ok (ignore l 1) ∧ (length rest < length (m_input l))%nat.
Proof.
  unfold remaining, lexer_ok. intros E. pose proof (f_equal length E) as El.
  rewrite length_drop in El. simpl in El.
  assert (m_input l !! m_index l = Some c) as Hc.
  { rewrite <-(Nat.add_0_r (m_index l)), <-lookup_drop, E. done. }
  split_and!; [lia|done| |unfold ignore; cbn [m_input m_index]; lia|lia].
  unfold ignore. cbn [m_input m_index]. rewrite Nat.min_l by lia.
  by rewrite <-drop_drop, E.
Qed.

Lemma peek_remaining l : peek l 0 = default 0 (head (remaining l)).
Proof.
  unfold peek, remaining. rewrite Nat.add_0_r.
  destruct (Nat.ltb_spec (m_index l) (length (m_input l))) as [Hlt|Hge].
  - by rewrite head_lookup, lookup_drop, Nat.add_0_r.
  - by rewrite drop_ge.
Qed.

Lemma consume_cons l c rest :
  remaining l = c :: rest →
  consume l = Returned (c, ignore l 1) ∧ remaining (ignore l 1) = rest ∧ lexer_ok (ignore l 1).
Proof.
  intros E. destruct (remaining_cons _ _ _ E) as (Hok & Hc & Hr & Hok' & _). split; [|done].
  unfold consume. rewrite is_eof_remaining, E, bool_decide_eq_false_2 by done. simpl.
  rewrite (at_index_lt _ _ _ Hc). simpl. unfold ignore.
  apply lookup_lt_Some in Hc. by rewrite Nat.min_l by lia.
Qed.

(** ** The lexer by what is left to read *)

(** [rest] does not start with a character of the class. *)
Definition stops (pred : Z → bool) (rest : bytes) : Prop :=
  match rest with c :: _ => pred c = false | [] => True end.

Lemma consume_while_app pred l s rest :
  lexer_ok l → remaining l = s ++ rest → Forall (λ c, pred c = true) s → stops pred rest →
  ∃ l', consume_while pred l = Returned (s, l') ∧ remaining l' = rest ∧ lexer_ok l' ∧ m_input l' = m_input l.
Proof.
  intros Hl Hr Hs Hstop. exists (ignore_while pred l). rewrite consume_while_returns by done. rewrite Hr.
  rewrite scan_while_app by done. rewrite take_app_length. split; [done|].
  rewrite remaining_ignore_while, Hr, scan_while_app, drop_app_length by done.
  split; [done|]. by split; [apply ignore_while_ok|].
Qed.

Lemma consume_specific_cons l c rest :
  remaining l = c :: rest →
  ∃ l', consume_specific l c = (true, l') ∧ remaining l' = rest ∧ lexer_ok l' ∧ m_input l' = m_input l.
Proof.
  intros Hr. destruct (remaining_cons _ _ _ Hr) as (_ & _ & Hr' & Hok' & _). exists (ignore l 1).
  unfold consume_specific, next_is. rewrite peek_remaining, Hr. cbn [head default id]. by rewrite Z.eqb_refl.
Qed.

Lemma consume_specific_other l c :
  c ≠ 0 → head (remaining l) ≠ Some c → consume_specific l c = (false, l).
Proof.
  intros Hc Hh. unfold consume_specific, next_is. rewrite peek_remaining.
  destruct (head (remaining l)) as [d|]; cbn [default id]; [|by destruct (Z.eqb_spec 0 c); [congruence|]].
  by destruct (Z.eqb_spec d c); [congruence|].
Qed.

Lemma ignore_app l s rest :
  lexer_ok l → remaining l = s ++ rest →
  remaining (ignore l (length s)) = rest ∧ lexer_ok (ignore l (length s)).
Proof.
  intros Hl Hr. pose proof (f_equal length Hr) as Hlen. unfold remaining in Hlen.
  rewrite length_drop, length_app in Hlen. unfold lexer_ok in *.
  assert (ignore l (length s) = mk_lexer (m_input l) (m_index l + length s)) as ->
    by (unfold ignore; f_equal; lia).
  split; [|cbn; lia]. unfold remaining in *. cbn [m_input m_index]. by rewrite <-drop_drop, Hr, drop_app_length.
Qed.

Lemma consume_specific_view_app l s rest :
  lexer_ok l → remaining l = s ++ rest →
  ∃ l', consume_specific_view l s = Returned (true, l') ∧ remaining l' = rest ∧ lexer_ok l' ∧ m_input l' = m_input l.
Proof.
  intros Hl Hr. destruct (ignore_app l s rest Hl Hr) as [Hr' Hok']. exists (ignore l (length s)). split; [|done].
  unfold consume_specific_view, next_is_view, peek_string.
  pose proof (f_equal length Hr) as Hlen. unfold remaining in Hlen. rewrite length_drop, length_app in Hlen.
  unfold lexer_ok in Hl. rewrite Nat.add_0_r. rewrite (proj2 (Nat.ltb_ge _ _)) by lia.
  rewrite substring_view_in_range by lia. rewrite !bind_value. unfold remaining in Hr.
  rewrite Hr, take_app_length, bool_decide_eq_true_2 by done. done.
Qed.

Lemma is_digit_in_10 c : is_digit_in 10 c = is_ascii_digit c.
Proof.
  unfold is_digit_in, digit_value.
  destruct (is_ascii_digit c) eqn:E1; [unfold_ctypes; lia|].
  destruct (is_ascii_lower_alpha c) eqn:E2; [unfold_ctypes; lia|].
  destruct (is_ascii_upper_alpha c) eqn:E3; [unfold_ctypes; lia|done].
Qed.

Section Numbers.
Context `{FastFloatOk}.

(** A printed number is read back, whatever follows it. *)
Lemma to_number_printed max value s trim_whitespace' :
  printed_number 10 value s → 0 ≤ value ≤ max → to_number max 10 s trim_whitespace' = Some value.
Proof.
  intros Hp Hv. unfold to_number.
  assert (Forall (λ c, contains_char whitespace_characters c = false) s) as Hws.
  { pose proof (printed_digits _ _ _ Hp) as Hd. apply forallb_Forall in Hd. eapply Forall_impl; [exact Hd|].
    cbn beta. intros c. rewrite is_digit_in_10. unfold_ctypes. cbn. lia. }
  assert (∀ t, Forall (λ c, contains_char whitespace_characters c = false) t →
    trim_left t whitespace_characters = t) as Hleft.
  { intros t [|c t' Hc _]; [done|]. cbn [trim_left]. by rewrite Hc. }
  replace (match trim_whitespace' with TrimWhitespaceNo => s | _ => _ end) with s; cycle 1.
  { destruct trim_whitespace'; [done|]. unfold trim_whitespace, trim, trim_right. rewrite (Hleft s Hws).
    rewrite (Hleft (rev s)) by (by apply Forall_rev). by rewrite rev_involutive. }
  rewrite parse_number_spec by lia. rewrite bool_decide_eq_false_2 by apply (printed_nonempty _ _ _ Hp).
  rewrite (printed_digits _ _ _ Hp), (printed_value _ _ _ Hp). cbn [negb andb].
  by rewrite (proj2 (Z.leb_le value max)) by lia.
Qed.

Lemma printed_ascii_digits value s : printed_number 10 value s → Forall (λ c, is_ascii_digit c = true) s.
Proof.
  intros Hp. pose proof (printed_digits _ _ _ Hp) as Hd. apply forallb_Forall in Hd.
  eapply Forall_impl; [exact Hd|]. cbn beta. intros c. by rewrite is_digit_in_10.
Qed.

Lemma consume_decimal_integer_printed l value s rest :
  lexer_ok l → remaining l = s ++ rest → printed_number 10 value s → 0 ≤ value ≤ u64_max → stops is_ascii_digit rest →
  ∃ l', consume_decimal_integer_u64 l = Returned (Some value, l') ∧ remaining l' = rest ∧ lexer_ok l' ∧ m_input l' = m_input l.
Proof.
  intros Hl Hr Hp Hv Hstop. unfold consume_decimal_integer_u64.
  pose proof (printed_ascii_digits _ _ Hp) as Hd. pose proof (printed_nonempty _ _ _ Hp) as Hne.
  assert (next_is l c_plus || next_is l c_minus = false) as ->.
  { unfold next_is. rewrite peek_remaining, Hr. destruct Hd as [|c s' Hc Hd]; [done|].
    cbn [app head default id]. unfold_ctypes. lia. }
  rewrite bind_value. destruct (consume_while_app is_ascii_digit l s rest) as (l' & -> & Hr' & Hok' & Hin'); [done..|].
  rewrite bind_value, bool_decide_eq_false_2 by done. rewrite (to_number_printed u64_max value) by done.
  cbn [negb]. rewrite (proj2 (Z.ltb_ge _ value)) by lia. by exists l'.
Qed.

End Numbers.

(** Reading a decimal number with an optional sign. *)
Definition fast_float_signed_example : FastFloatSigned := {|
  from_chars_signed min max base s :=
    let '(sign, ds) := match s with c :: ds => if c =? c_minus then (-1, ds) else (1, s) | [] => (1, []) end in
    if bool_decide (ds = []) || negb (forallb (is_digit_in base) ds) then None
    else
      let v := sign * digits_value base 0 ds in
      if (min <=? v) && (v <=? max) then Some (v, length s) else None;
|}.

Lemma fast_float_signed_example_ok : @FastFloatSignedOk fast_float_signed_example.
Proof.
  split. intros min max base s v n. cbn. destruct (match s with [] => _ | _ => _ end) as [sign ds].
  case_goal; [done|]. case_goal; [|done]. intros [= <- _]. lia.
Qed.
