(* ===== verification/DateFormat.v ===== *)
(** * UNIX times as text

    [UnixDateTime::to_string] and [UnixDateTime::parse] of AK/Time.cpp: printing
    and reading a time by a format of [strftime]'s letters.  The C library's
    [gmtime_r] and [timegm] are defined here, on the proleptic Gregorian calendar;
    what depends on the time zone of the process is a class.  [int] arithmetic on
    the fields is exact: the source does not define its overflow. *)
From S2P Require Import Prelude CharacterTypes Externals StringView Utf8 Utf8View Format Ipv4 Time GenericLexer.

(** ** The broken-down time of the C library *)
Record tm := mk_tm { tm_sec : Z; tm_min : Z; tm_hour : Z; tm_mday : Z; tm_mon : Z; tm_year : Z; tm_wday : Z; tm_yday : Z }.

(** [localtime_r], [mktime] as it normalizes its argument, and [tzname]. *)
Class TimeZone := {
  localtime : Z → tm;
  mktime_normalize : tm → tm;
  tzname : tm → bytes;
}.

(** The civil date of a day that is counted from the epoch: the year by an estimate
    that is off by at most one, the month by its first day. *)
Definition year_of_days (days : Z) : Z :=
  let year := 1970 + days * 400 / 146097 in
  if days <? years_to_days_since_epoch year then year - 1
  else if years_to_days_since_epoch (year + 1) <=? days then year + 1
  else year.

Definition month_start (year month : Z) : Z :=
  nth (Z.to_nat (month - 1)) day_of_year_seek_table 0 + (if is_leap_year year && (3 <=? month) then 1 else 0).

Definition month_of_day (year day_of_year : Z) : Z :=
  let started month := month_start year month <=? day_of_year in
  if started 7 then
    if started 10 then if started 12 then 12 else if started 11 then 11 else 10
    else if started 9 then 9 else if started 8 then 8 else 7
  else if started 4 then if started 6 then 6 else if started 5 then 5 else 4
  else if started 3 then 3 else if started 2 then 2 else 1.

Definition civil_from_days (days : Z) : Z * Z * Z :=
  let year := year_of_days days in
  let day_of_year := days - years_to_days_since_epoch year in
  let month := month_of_day year day_of_year in
  (year, month, day_of_year - month_start year month + 1).

(** [gmtime_r]: [None] when the year does not fit in an [int], where the source goes
    on with a time that was never written. *)
Definition gmtime (t : Z) : option tm :=
  let days := t / 86400 in
  let seconds := t mod 86400 in
  let '(year, month, day) := civil_from_days days in
  if negb ((- 2 ^ 31 <=? year - 1900) && (year - 1900 <=? 2 ^ 31 - 1)) then None
  else
    Some (mk_tm (seconds mod 60) (seconds / 60 mod 60) (seconds / 3600) day (month - 1) (year - 1900)
            ((days + 4) mod 7) (days - years_to_days_since_epoch year)).

(** [timegm]: fields out of range are carried. *)
Definition timegm (t : tm) : outcome Z :=
  days ← days_since_epoch (tm_year t + 1900 + tm_mon t / 12) (tm_mon t mod 12 + 1) 1;
  Returned ((days + tm_mday t - 1) * 86400 + tm_hour t * 3600 + tm_min t * 60 + tm_sec t).

(** ** Printing *)
Inductive LocalTime := LocalTimeYes | LocalTimeNo.

(** [{}], [{:2}], [{:02}] and [{:03}] of an [int]. *)
Definition format_int (value : Z) (zero_pad : bool) (width : nat) : outcome bytes :=
  put_u64 [] (Z.abs value) 10 false false zero_pad false AlignDefault width c_space SignOnlyIfNeeded (value <? 0).

Definition format_2 (value : Z) : outcome bytes := format_int value true 2.

Definition display_hour (t : tm) : Z :=
  let h := Z.rem (tm_hour t) 12 in if h =? 0 then 12 else h.

Definition am_pm (t : tm) : bytes := if tm_hour t <? 12 then sv "AM" else sv "PM".

(** The case of [%V]: the week of ISO 8601. *)
Definition iso_week (t : tm) : Z :=
  let wday_of_year_beginning := Z.rem (tm_wday t + 6 + 6 * tm_yday t) 7 in
  let week_number := Z.quot (tm_yday t + wday_of_year_beginning) 7 + 1 in
  if 3 <? wday_of_year_beginning then
    if 7 - wday_of_year_beginning <=? tm_yday t then week_number - 1
    else
      let days_of_last_year := days_in_year (tm_year t + 1900 - 1) in
      let wday_of_last_year_beginning := Z.rem (wday_of_year_beginning + 6 * days_of_last_year) 7 in
      let week_number := Z.quot (days_of_last_year + wday_of_last_year_beginning) 7 + 1 in
      if 3 <? wday_of_last_year_beginning then week_number - 1 else week_number
  else week_number.

Section Printing.
Context `{TimeZone}.

(** What the character [c] after a percent sign prints. *)
Definition format_directive (t : tm) (c : Z) : outcome bytes :=
  if c =? 0x61 (* a *) then at_index short_day_names (Z.to_nat (tm_wday t))
  else if c =? 0x41 (* A *) then at_index long_day_names (Z.to_nat (tm_wday t))
  else if (c =? 0x62) || (c =? 0x68) (* b h *) then at_index short_month_names (Z.to_nat (tm_mon t))
  else if c =? 0x42 (* B *) then at_index long_month_names (Z.to_nat (tm_mon t))
  else if c =? 0x43 (* C *) then format_2 (Z.quot (tm_year t + 1900) 100)
  else if c =? 0x64 (* d *) then format_2 (tm_mday t)
  else if c =? 0x44 (* D *) then
    m ← format_2 (tm_mon t + 1); d ← format_2 (tm_mday t); y ← format_2 (Z.rem (tm_year t + 1900) 100);
    Returned (m ++ [c_slash] ++ d ++ [c_slash] ++ y)
  else if c =? 0x65 (* e *) then format_int (tm_mday t) false 2
  else if c =? 0x48 (* H *) then format_2 (tm_hour t)
  else if c =? 0x49 (* I *) then format_2 (display_hour t)
  else if c =? 0x6a (* j *) then format_int (tm_yday t + 1) true 3
  else if c =? 0x6c (* l *) then format_int (display_hour t) false 2
  else if c =? 0x6d (* m *) then format_2 (tm_mon t + 1)
  else if c =? 0x4d (* M *) then format_2 (tm_min t)
  else if c =? 0x6e (* n *) then Returned [c_lf]
  else if c =? 0x70 (* p *) then Returned (am_pm t)
  else if c =? 0x72 (* r *) then
    h ← format_2 (display_hour t); m ← format_2 (tm_min t); s ← format_2 (tm_sec t);
    Returned (h ++ [c_colon] ++ m ++ [c_colon] ++ s ++ [c_space] ++ am_pm t)
  else if c =? 0x52 (* R *) then
    h ← format_2 (tm_hour t); m ← format_2 (tm_min t); Returned (h ++ [c_colon] ++ m)
  else if c =? 0x53 (* S *) then format_2 (tm_sec t)
  else if c =? 0x74 (* t *) then Returned [c_tab]
  else if c =? 0x54 (* T *) then
    h ← format_2 (tm_hour t); m ← format_2 (tm_min t); s ← format_2 (tm_sec t);
    Returned (h ++ [c_colon] ++ m ++ [c_colon] ++ s)
  else if c =? 0x75 (* u *) then format_int (if tm_wday t =? 0 then 7 else tm_wday t) false 0
  else if c =? 0x55 (* U *) then
    let wday_of_year_beginning := Z.rem (tm_wday t + 6 * tm_yday t) 7 in
    format_2 (Z.quot (tm_yday t + wday_of_year_beginning) 7)
  else if c =? 0x56 (* V *) then format_2 (iso_week t)
  else if c =? 0x77 (* w *) then format_int (tm_wday t) false 0
  else if c =? 0x57 (* W *) then
    let wday_of_year_beginning := Z.rem (tm_wday t + 6 + 6 * tm_yday t) 7 in
    format_2 (Z.quot (tm_yday t + wday_of_year_beginning) 7)
  else if c =? 0x79 (* y *) then format_2 (Z.rem (tm_year t + 1900) 100)
  else if c =? 0x59 (* Y *) then format_int (tm_year t + 1900) false 0
  else if c =? 0x5a (* Z *) then Returned (tzname t)
  else if c =? c_percent then Returned [c_percent]
  else Returned [c_percent; c].

(** The loop over the format; a percent sign at its end clears the text. *)
Fixpoint format_loop (t : tm) (format builder : bytes) : outcome bytes :=
  match format with
  | [] => Returned builder
  | c :: format =>
      if negb (c =? c_percent) then format_loop t format (builder ++ [c])
      else
        match format with
        | [] => Returned []
        | d :: format => s ← format_directive t d; format_loop t format (builder ++ s)
        end
  end.

(** [None] when [gmtime_r] fails. *)
Definition to_byte_string (time : UnixDateTime) (format : bytes) (local_time : LocalTime) : outcome (option bytes) :=
  '(timestamp, _) ← to_timespec time;
  match (match local_time with LocalTimeYes => Some (localtime timestamp) | LocalTimeNo => gmtime timestamp end) with
  | None => Returned None
  | Some t => s ← format_loop t format []; Returned (Some s)
  end.

End Printing.

(** ** Reading *)

(** The lexer, the fields so far and [parsing_failed]. *)
Record ParseState := mk_parse_state { string_lexer : GenericLexer; fields : tm; parsing_failed : bool }.

Definition set_lexer (s : ParseState) (l : GenericLexer) : ParseState := mk_parse_state l (fields s) (parsing_failed s).
Definition set_fields (s : ParseState) (t : tm) : ParseState := mk_parse_state (string_lexer s) t (parsing_failed s).
Definition set_failed (s : ParseState) : ParseState := mk_parse_state (string_lexer s) (fields s) true.

Definition with_sec (t : tm) (v : Z) : tm := mk_tm v (tm_min t) (tm_hour t) (tm_mday t) (tm_mon t) (tm_year t) (tm_wday t) (tm_yday t).
Definition with_min (t : tm) (v : Z) : tm := mk_tm (tm_sec t) v (tm_hour t) (tm_mday t) (tm_mon t) (tm_year t) (tm_wday t) (tm_yday t).
Definition with_hour (t : tm) (v : Z) : tm := mk_tm (tm_sec t) (tm_min t) v (tm_mday t) (tm_mon t) (tm_year t) (tm_wday t) (tm_yday t).
Definition with_mday (t : tm) (v : Z) : tm := mk_tm (tm_sec t) (tm_min t) (tm_hour t) v (tm_mon t) (tm_year t) (tm_wday t) (tm_yday t).
Definition with_mon (t : tm) (v : Z) : tm := mk_tm (tm_sec t) (tm_min t) (tm_hour t) (tm_mday t) v (tm_year t) (tm_wday t) (tm_yday t).
Definition with_year (t : tm) (v : Z) : tm := mk_tm (tm_sec t) (tm_min t) (tm_hour t) (tm_mday t) (tm_mon t) v (tm_wday t) (tm_yday t).
Definition with_wday (t : tm) (v : Z) : tm := mk_tm (tm_sec t) (tm_min t) (tm_hour t) (tm_mday t) (tm_mon t) (tm_year t) v (tm_yday t).

Section Reading.
Context `{FastFloat} `{TimeZone}.

(** [parse_number]: 0 on failure. *)
Definition read_number (s : ParseState) : outcome (Z * ParseState) :=
  '(result, l) ← consume_decimal_integer_int (string_lexer s);
  Returned (match result with
    | None => (0, set_failed (set_lexer s l))
    | Some n => (n, set_lexer s l)
    end).

(** [consume] of a character. *)
Definition read_char (s : ParseState) (c : Z) : ParseState :=
  let '(b, l) := consume_specific (string_lexer s) c in
  if b then set_lexer s l else set_failed (set_lexer s l).

(** [consume_specific_ascii_case_insensitive] *)
Definition read_name (s : ParseState) (name : bytes) : outcome (bool * ParseState) :=
  next_string ← peek_string (string_lexer s) (length name) 0;
  match next_string with
  | Some next_string =>
      if equals_ignoring_ascii_case next_string name then
        '(_, l) ← consume_count (string_lexer s) (length name); Returned (true, set_lexer s l)
      else Returned (false, s)
  | None => Returned (false, s)
  end.

(** The loops over the names of days and months: the index of the name, or the
    number of names. *)
Fixpoint read_names (s : ParseState) (names : list bytes) (i : Z) : outcome (Z * bool * ParseState) :=
  match names with
  | [] => Returned (i, false, s)
  | name :: names =>
      '(b, s) ← read_name s name;
      if b : bool then Returned (i, true, s) else read_names s names (i + 1)
  end.

Definition read_day_name (s : ParseState) (names : list bytes) : outcome (option ParseState) :=
  '(wday, found, s) ← read_names s names 0;
  Returned (if negb found then None else Some (set_fields s (with_wday (fields s) wday))).

Definition read_month_name (s : ParseState) (names : list bytes) : outcome (option ParseState) :=
  '(mon, found, s) ← read_names s names 0;
  Returned (if negb found then None else Some (set_fields s (with_mon (fields s) mon))).

(** A directive that reads one number into a field. *)
Definition read_field (s : ParseState) (set : tm → Z → tm) : outcome (option ParseState) :=
  '(n, s) ← read_number s; Returned (Some (set_fields s (set (fields s) n))).

(** [%D] *)
Definition read_date (s : ParseState) : outcome (option ParseState) :=
  '(mon, s) ← read_number s;
  let s := read_char s c_slash in
  '(day, s) ← read_number s;
  let s := read_char s c_slash in
  '(year, s) ← read_number s;
  let year := if 1900 <? year then year - 1900 else if (year <=? 99) && (69 <? year) then year else 100 + year in
  Returned (Some (set_fields s (with_year (with_mday (with_mon (fields s) (mon - 1)) day) year))).

(** [%R], and the start of [%T] *)
Definition read_hour_minute (s : ParseState) : outcome ParseState :=
  '(hour, s) ← read_number s;
  let s := read_char (set_fields s (with_hour (fields s) hour)) c_colon in
  '(minute, s) ← read_number s;
  Returned (set_fields s (with_min (fields s) minute)).

(** [%r] and [%p] *)
Definition read_am_pm (s : ParseState) : outcome (option ParseState) :=
  '(ampm, l) ← consume_count (string_lexer s) 2;
  let s := set_lexer s l in
  Returned (
    if bool_decide (ampm = sv "PM") then
      Some (if tm_hour (fields s) <? 12 then set_fields s (with_hour (fields s) (tm_hour (fields s) + 12)) else s)
    else if negb (bool_decide (ampm = sv "AM")) then None
    else Some s).

(** [%x]: the offset of a time zone *)
Definition read_zone (s : ParseState) : outcome (option ParseState) :=
  '(hours, s) ← read_number s;
  let '(colon, l) := consume_specific (string_lexer s) c_colon in
  '(hours, minutes, s) ←
    (if colon : bool then
       '(minutes, s) ← read_number (set_lexer s l); Returned (hours, minutes, s)
     else Returned (Z.quot hours 100, Z.rem hours 100, set_lexer s l));
  let t := fields s in
  Returned (Some (set_fields s (with_min (with_hour t (tm_hour t - hours)) (tm_min t - minutes)))).

(** One directive, given the character after it; [None] returns no time at once. *)
Definition parse_directive (s : ParseState) (c : Z) (next_format_character : option Z) : outcome (option ParseState) :=
  if c =? 0x61 (* a *) then read_day_name s short_day_names
  else if c =? 0x41 (* A *) then read_day_name s long_day_names
  else if (c =? 0x68) || (c =? 0x62) (* h b *) then read_month_name s short_month_names
  else if c =? 0x42 (* B *) then read_month_name s long_month_names
  else if c =? 0x43 (* C *) then read_field s (λ t num, with_year t ((num - 19) * 100 + Z.rem (tm_year t) 100))
  else if (c =? 0x64) || (c =? 0x65) (* d e *) then read_field s with_mday
  else if c =? 0x44 (* D *) then read_date s
  else if c =? 0x48 (* H *) then read_field s with_hour
  else if c =? 0x49 (* I *) then read_field s (λ t num, with_hour t (Z.rem num 12))
  else if c =? 0x6a (* j *) then read_field s (λ t num, mktime_normalize (with_mon (with_mday t num) 0))
  else if c =? 0x6d (* m *) then read_field s (λ t num, with_mon t (num - 1))
  else if c =? 0x4d (* M *) then read_field s with_min
  else if (c =? 0x6e) || (c =? 0x74) (* n t *) then
    '(_, l) ← consume_while is_ascii_space (string_lexer s); Returned (Some (set_lexer s l))
  else if (c =? 0x72) || (c =? 0x70) (* r p *) then read_am_pm s
  else if c =? 0x52 (* R *) then s ← read_hour_minute s; Returned (Some s)
  else if c =? 0x53 (* S *) then read_field s with_sec
  else if c =? 0x54 (* T *) then s ← read_hour_minute s; read_field (read_char s c_colon) with_sec
  else if c =? 0x77 (* w *) then read_field s with_wday
  else if c =? 0x79 (* y *) then
    read_field s (λ t year, with_year t (if (year <=? 99) && (69 <? year) then 1900 + year else 2000 + year))
  else if c =? 0x59 (* Y *) then read_field s (λ t year, with_year t (year - 1900))
  else if c =? 0x78 (* x *) then read_zone s
  else if c =? 0x58 (* X *) then
    let '(b, l) := consume_specific (string_lexer s) c_dot in
    if negb b then Returned None else '(_, s) ← read_number (set_lexer s l); Returned (Some s)
  else if c =? c_plus then
    if bool_decide (next_format_character = Some c_percent) then Returned None
    else
      '(discarded, l) ← consume_until (λ ch, bool_decide (Some ch = next_format_character)) (string_lexer s);
      Returned (if bool_decide (discarded = []) then None else Some (set_lexer s l))
  else if c =? c_percent then Returned (Some (read_char s c_percent))
  else Returned (Some (set_failed s)).

(** The loop over the format while text is left: the state at its end and the rest of
    the format.  A failure is noticed after a directive only. *)
Fixpoint parse_format (s : ParseState) (format : bytes) : outcome (option (ParseState * bytes)) :=
  match format with
  | [] => Returned (Some (s, []))
  | c :: rest =>
      if is_eof (string_lexer s) then Returned (Some (s, format))
      else if negb (c =? c_percent) then parse_format (read_char s c) rest
      else
        match rest with
        | [] => Returned None
        | d :: rest =>
            r ← parse_directive s d (head rest);
            match r with
            | None => Returned None
            | Some s => if parsing_failed s then Returned None else parse_format s rest
            end
        end
  end.

Definition to_u8 (z : Z) : Z := z mod 256.

Definition parse_unix_time (format string : bytes) (from_gmt : bool) : outcome (option UnixDateTime) :=
  r ← parse_format (mk_parse_state (lexer_of string) (mk_tm 0 0 0 0 0 0 0 0) false) format;
  match r with
  | None => Returned None
  | Some (s, rest) =>
      if negb (is_eof (string_lexer s)) || negb (bool_decide (rest = [])) then Returned None
      else
        let t := fields s in
        if from_gmt then
          gmt_time ← timegm t;
          Returned (if gmt_time =? -1 then None else Some (from_seconds_since_epoch gmt_time))
        else
          time ← from_unix_time_parts (tm_year t + 1900) (to_u8 (tm_mon t + 1)) (to_u8 (tm_mday t)) (to_u8 (tm_hour t))
                   (to_u8 (tm_min t)) (to_u8 (tm_sec t)) 0;
          Returned (Some time)
  end.

End Reading.

(** The format of HTTP dates in LibHTTP/Cache/Utilities.cpp. *)
Definition http_date_format : bytes := sv "%a, %d %b %Y %T GMT".

(** ** The calendar of the C library *)
Lemma year_of_days_spec days :
  years_to_days_since_epoch (year_of_days days) ≤ days < years_to_days_since_epoch (year_of_days days + 1).
Proof.
  unfold year_of_days. set (year := 1970 + days * 400 / 146097).
  assert (years_to_days_since_epoch (year - 1) ≤ days < years_to_days_since_epoch (year + 2)) as Hy.
  { rewrite !years_to_days_closed. unfold leap_days_before. subst year. div_lia. }
  destruct (Z.ltb_spec days (years_to_days_since_epoch year)) as [Hlt|Hge].
  { replace (year - 1 + 1) with year by lia. lia. }
  destruct (Z.leb_spec (years_to_days_since_epoch (year + 1)) days) as [Hle|Hgt]; [|lia].
  replace (year + 1 + 1) with (year + 2) by lia. lia.
Qed.

Lemma month_of_day_spec year day :
  0 ≤ day < days_in_year year →
  1 ≤ month_of_day year day ≤ 12 ∧
  ∃ n, days_in_month year (month_of_day year day) = Returned n
    ∧ 1 ≤ day - month_start year (month_of_day year day) + 1 ≤ n.
Proof.
  unfold days_in_year, month_of_day. intros Hd.
  repeat match goal with |- context [if ?x <=? ?y then _ else _] => destruct (Z.leb_spec x y) end.
  all: (split; [lia|]); unfold days_in_month, month_start in *; destruct (is_leap_year year); eexists; (split; [reflexivity|]).
  all: repeat match goal with
    | _ : context [nth (Z.to_nat ?k) ?t 0] |- _ => let v := eval vm_compute in (nth (Z.to_nat k) t 0) in change (nth (Z.to_nat k) t 0) with v in *
    | |- context [nth (Z.to_nat ?k) ?t 0] => let v := eval vm_compute in (nth (Z.to_nat k) t 0) in change (nth (Z.to_nat k) t 0) with v in *
    end; cbn in *; lia.
Qed.

Lemma days_since_epoch_month_start year month day :
  1 ≤ month ≤ 12 → days_since_epoch year month day = Returned (years_to_days_since_epoch year + month_start year month + day - 1).
Proof.
  intros Hm. destruct (days_since_epoch_value year month day Hm) as (e & He & ->).
  unfold month_start. rewrite (nth_lookup_Some _ _ _ _ He). f_equal. lia.
Qed.

Lemma civil_from_days_spec days :
  let '(year, month, day) := civil_from_days days in
  valid_date year month day ∧ days_since_epoch year month day = Returned days.
Proof.
  unfold civil_from_days. cbv zeta. pose proof (year_of_days_spec days) as Hy. rewrite years_to_days_step in Hy.
  destruct (month_of_day_spec (year_of_days days) (days - years_to_days_since_epoch (year_of_days days))) as (Hm & n & Hn & Hd); [lia|].
  split; [by split; [|exists n]|]. rewrite days_since_epoch_month_start by done. f_equal. lia.
Qed.

(** [gmtime_r] and [timegm] are inverse to each other. *)
Lemma timegm_gmtime t f : gmtime t = Some f → timegm f = Returned t.
Proof.
  unfold gmtime, timegm. pose proof (civil_from_days_spec (t / 86400)) as Hc.
  destruct (civil_from_days (t / 86400)) as [[year month] day]. destruct Hc as [[Hm _] Hd].
  case_goal; [done|]. intros [= <-]. cbn [tm_year tm_mon tm_mday tm_hour tm_min tm_sec].
  replace (year - 1900 + 1900 + (month - 1) / 12) with year by div_lia.
  replace ((month - 1) mod 12 + 1) with month by div_lia.
  rewrite days_since_epoch_month_start in * by done. injection Hd as Hd. rewrite bind_value. f_equal. div_lia.
Qed.

Record tm_ok (f : tm) : Prop := mk_tm_ok {
  ok_sec : 0 ≤ tm_sec f ≤ 59; ok_min : 0 ≤ tm_min f ≤ 59; ok_hour : 0 ≤ tm_hour f ≤ 23; ok_mday : 1 ≤ tm_mday f ≤ 31;
  ok_mon : 0 ≤ tm_mon f ≤ 11; ok_year : - 2 ^ 31 ≤ tm_year f ≤ 2 ^ 31 - 1; ok_wday : 0 ≤ tm_wday f ≤ 6;
  ok_yday : 0 ≤ tm_yday f ≤ 365;
}.

Lemma gmtime_ok t f : gmtime t = Some f → tm_ok f.
Proof.
  unfold gmtime. pose proof (civil_from_days_spec (t / 86400)) as Hc. pose proof (year_of_days_spec (t / 86400)) as Hy.
  rewrite years_to_days_step in Hy. unfold civil_from_days in *. cbv zeta in *. destruct Hc as [(Hm & n & Hn & Hd) _].
  assert (n ≤ 31) as Hn31.
  { revert Hn. unfold days_in_month, verify. repeat case_goal; intros [= <-]; lia. }
  case_goal; [done|]. intros [= <-]. unfold days_in_year in Hy.
  split; cbn [tm_sec tm_min tm_hour tm_mday tm_mon tm_year tm_wday tm_yday]; try div_lia.
  destruct (is_leap_year _); lia.
Qed.
