(* ===== verification/DateFormatCorrect.v ===== *)
(** * A time that is printed as an HTTP date is read back

    [UnixDateTime::to_string] and [UnixDateTime::parse] at the format that
    [parse_http_date] of LibHTTP/Cache/Utilities.cpp uses: the text of a time is
    read back as that time in whole seconds.  The reader is described by what is left of
    the text and the fields it has set. *)
From S2P Require Import Prelude CharacterTypes Externals StringView Utf8 Utf8View Format Ipv4 Time GenericLexer DateFormat.
Import Lexer.

(** ** Numbers as text, leading zeros included *)
Record digit_string (value : Z) (s : bytes) : Prop := mk_digit_string {
  ds_nonempty : s ≠ [];
  ds_digits : Forall (λ c, is_ascii_digit c = true) s;
  ds_value : digits_value 10 0 s = value;
}.

Lemma digits_value_zeros base n s : digits_value base 0 (replicate n c_0 ++ s) = digits_value base 0 s.
Proof. induction n; [done|]. cbn [replicate app digits_value]. done. Qed.

Lemma format_int_digits value zero_pad width :
  0 ≤ value < 2 ^ 64 → zero_pad = true ∨ width = 0%nat →
  ∃ s, format_int value zero_pad width = Returned s ∧ digit_string value s.
Proof.
  intros Hv Hpad. unfold format_int. rewrite Z.abs_eq by lia. rewrite (proj2 (Z.ltb_ge value 0)) by lia.
  destruct (convert_unsigned_printed value 10 false) as (s & Hs & Hp); [lia|done|].
  rewrite (put_u64_plain _ _ _ _ _ _ Hs). eexists. split; [done|].
  assert (Forall (λ c, is_ascii_digit c = true) s) as Hd.
  { pose proof (printed_digits _ _ _ Hp) as Hd. apply forallb_Forall in Hd.
    eapply Forall_impl; [exact Hd|]. cbn beta. intros c. by rewrite is_digit_in_10. }
  assert (replicate (width - length s) (if zero_pad then c_0 else c_space) = replicate (width - length s) c_0) as ->
    by (destruct Hpad as [-> | ->]; done).
  split; [|apply Forall_app; split; [by apply Forall_replicate|done]|].
  - intros [_ ?]%app_nil. by apply (printed_nonempty _ _ _ Hp).
  - rewrite digits_value_zeros. apply (printed_value _ _ _ Hp).
Qed.

(** ** The state of the reader *)
Record state_at (s : ParseState) (rest : bytes) (t : tm) : Prop := mk_state_at {
  at_ok : lexer_ok (string_lexer s);
  at_rest : remaining (string_lexer s) = rest;
  at_fields : fields s = t;
  at_good : parsing_failed s = false;
}.

Lemma state_at_fields s rest t t' : state_at s rest t → state_at (set_fields s t') rest t'.
Proof. by intros [Ho Hr Hf Hp]. Qed.

Lemma read_char_at s c rest t : state_at s (c :: rest) t → state_at (read_char s c) rest t.
Proof.
  intros [Ho Hr Hf Hp]. unfold read_char. destruct (consume_specific_cons _ _ _ Hr) as (l & -> & Hl & Hlo & _). by split.
Qed.

Section WithFastFloat.
Context `{FastFloatOk}.

Lemma read_number_at s value ds rest t :
  state_at s (ds ++ rest) t → digit_string value ds → 0 ≤ value ≤ 2 ^ 31 - 1 → stops is_ascii_digit rest →
  ∃ s', read_number s = Returned (value, s') ∧ state_at s' rest t.
Proof.
  intros [Ho Hr Hf Hp] Hds Hv Hstop. unfold read_number, consume_decimal_integer_int.
  pose proof (ds_digits _ _ Hds) as Hd. pose proof (ds_nonempty _ _ Hds) as Hne.
  assert (next_is (string_lexer s) c_plus || next_is (string_lexer s) c_minus = false) as ->.
  { unfold next_is. rewrite peek_remaining, Hr. destruct Hd as [|c s' Hc Hd]; [done|].
    cbn [app head default id]. unfold_ctypes. lia. }
  rewrite bind_value.
  destruct (consume_while_app is_ascii_digit (string_lexer s) ds rest) as (l' & -> & Hr' & Hok' & _); [done..|].
  rewrite bind_value, bool_decide_eq_false_2 by done.
  unfold to_number. rewrite parse_number_spec by lia. rewrite bool_decide_eq_false_2 by done.
  rewrite (forallb_ext (is_digit_in 10) is_ascii_digit) by apply is_digit_in_10.
  rewrite (proj2 (forallb_Forall _ _)) by done. rewrite (ds_value _ _ Hds). cbn [negb andb].
  rewrite (proj2 (Z.leb_le value _)) by lia. cbn [negb]. rewrite (proj2 (Z.ltb_ge _ value)) by lia.
  rewrite bind_value. eexists. by split.
Qed.

Lemma read_field_at s value ds rest t set :
  state_at s (ds ++ rest) t → digit_string value ds → 0 ≤ value ≤ 2 ^ 31 - 1 → stops is_ascii_digit rest →
  ∃ s', read_field s set = Returned (Some s') ∧ state_at s' rest (set t value).
Proof.
  intros Hs Hds Hv Hstop. unfold read_field.
  destruct (read_number_at s value ds rest t) as (s' & -> & Hs'); [done..|]. rewrite bind_value.
  eexists. split; [done|]. rewrite (at_fields _ _ _ Hs'). by eapply state_at_fields.
Qed.

End WithFastFloat.

(** ** Names *)
Lemma peek_string_app l s rest :
  lexer_ok l → remaining l = s ++ rest → peek_string l (length s) 0 = Returned (Some s).
Proof.
  intros Hl Hr. unfold peek_string. pose proof (f_equal length Hr) as Hlen. unfold remaining in Hlen.
  rewrite length_drop, length_app in Hlen. unfold lexer_ok in Hl. rewrite Nat.add_0_r.
  rewrite (proj2 (Nat.ltb_ge _ _)) by lia. rewrite substring_view_in_range by lia. rewrite bind_value.
  unfold remaining in Hr. by rewrite Hr, take_app_length.
Qed.

Lemma consume_count_app l s rest :
  lexer_ok l → remaining l = s ++ rest →
  ∃ l', consume_count l (length s) = Returned (s, l') ∧ remaining l' = rest ∧ lexer_ok l'.
Proof.
  intros Hl Hr. unfold consume_count. pose proof (f_equal length Hr) as Hlen. unfold remaining in *.
  rewrite length_drop, length_app in Hlen. unfold lexer_ok in *. rewrite Nat.min_l by lia.
  rewrite substring_view_in_range by lia. rewrite bind_value, Hr, take_app_length. eexists. split; [done|].
  cbn [m_input m_index]. rewrite <-drop_drop, Hr, drop_app_length. split; [done|lia].
Qed.

Lemma read_name_at s name rest t :
  state_at s (name ++ rest) t → ∃ s', read_name s name = Returned (true, s') ∧ state_at s' rest t.
Proof.
  intros [Ho Hr Hf Hp]. unfold read_name. rewrite (peek_string_app _ _ _ Ho Hr), bind_value.
  assert (equals_ignoring_ascii_case name name = true) as -> by (apply equals_ignoring_ascii_case_lowercase; done).
  destruct (consume_count_app _ _ _ Ho Hr) as (l & -> & Hl & Hlo). rewrite bind_value. eexists. by split.
Qed.

Lemma read_other_name s name text rest t :
  state_at s (text ++ rest) t → length name = length text → lowercase_bytes name ≠ lowercase_bytes text →
  read_name s name = Returned (false, s).
Proof.
  intros [Ho Hr Hf Hp] Hlen Hne. unfold read_name. rewrite Hlen, (peek_string_app _ _ _ Ho Hr), bind_value.
  by destruct (equals_ignoring_ascii_case text name) eqn:E; [apply equals_ignoring_ascii_case_lowercase in E|].
Qed.

(** The name at index [k] of a table of names of one length is found at [k]. *)
Lemma read_names_at s names i k name rest t n :
  state_at s (name ++ rest) t → names !! k = Some name → Forall (λ x, length x = n) names →
  NoDup (lowercase_bytes <$> names) →
  ∃ s', read_names s names i = Returned (i + Z.of_nat k, true, s') ∧ state_at s' rest t.
Proof.
  intros Hs. revert i k. induction names as [|x names IH]; [done|]. intros i k Hk Hlen Hnd.
  apply Forall_cons in Hlen as [Hx Hlen]. rewrite fmap_cons in Hnd. apply NoDup_cons in Hnd as [Hnot Hnd].
  cbn [read_names]. destruct k as [|k]; cbn [lookup list_lookup] in Hk.
  - injection Hk as ->. destruct (read_name_at _ _ _ _ Hs) as (s' & -> & Hs'). rewrite bind_value.
    exists s'. by rewrite Z.add_0_r.
  - rewrite (read_other_name s x name rest t), bind_value; [|done| |].
    + destruct (IH (i + 1) k Hk Hlen Hnd) as (s' & -> & Hs'). exists s'. split; [|done].
      by replace (i + 1 + Z.of_nat k) with (i + Z.of_nat (S k)) by lia.
    + rewrite Hx. symmetry. exact (Forall_lookup_1 _ _ _ _ Hlen Hk).
    + intros E. apply Hnot. rewrite E. by apply list_elem_of_fmap_2, list_elem_of_lookup_2 with k.
Qed.

(** ** The text of an HTTP date *)
Lemma table_name names i : 0 ≤ i < Z.of_nat (length names) →
  ∃ name, at_index names (Z.to_nat i) = Returned name ∧ names !! Z.to_nat i = Some (name : bytes).
Proof.
  intros Hi. destruct (lookup_lt_is_Some_2 names (Z.to_nat i)) as [name Hn]; [lia|].
  exists name. split; [|done]. unfold at_index. by rewrite Hn.
Qed.

(** The fields of a time as [%a, %d %b %Y %T GMT] prints them. *)
Record http_date_text (t : tm) (text : bytes) : Prop := mk_http_date_text {
  http_date_parts : ∃ wday mday mon year hour minute second,
    short_day_names !! Z.to_nat (tm_wday t) = Some wday ∧ short_month_names !! Z.to_nat (tm_mon t) = Some mon
    ∧ digit_string (tm_mday t) mday ∧ digit_string (tm_year t + 1900) year ∧ digit_string (tm_hour t) hour
    ∧ digit_string (tm_min t) minute ∧ digit_string (tm_sec t) second
    ∧ text = wday ++ sv ", " ++ mday ++ sv " " ++ mon ++ sv " " ++ year ++ sv " "
               ++ hour ++ sv ":" ++ minute ++ sv ":" ++ second ++ sv " GMT";
}.

Lemma http_date_printed `{TimeZone} t :
  tm_ok t → 0 ≤ tm_year t + 1900 ≤ 2 ^ 31 - 1 →
  ∃ text, format_loop t http_date_format [] = Returned text ∧ http_date_text t text.
Proof.
  intros [] Hy.
  destruct (table_name short_day_names (tm_wday t)) as (wday & Ew & Hw); [cbn; lia|].
  destruct (table_name short_month_names (tm_mon t)) as (mon & Em & Hm); [cbn; lia|].
  destruct (format_int_digits (tm_mday t) true 2) as (mday & Ed & Hd); [lia|by left|].
  destruct (format_int_digits (tm_year t + 1900) false 0) as (year & Ey & Hyr); [lia|by right|].
  destruct (format_int_digits (tm_hour t) true 2) as (hour & Eh & Hh); [lia|by left|].
  destruct (format_int_digits (tm_min t) true 2) as (minute & Emi & Hmi); [lia|by left|].
  destruct (format_int_digits (tm_sec t) true 2) as (second & Es & Hs); [lia|by left|].
  eexists. split; cycle 1.
  { split. exists wday, mday, mon, year, hour, minute, second. split_and!; try done; reflexivity. }
  unfold http_date_format. vm_compute (sv "%a, %d %b %Y %T GMT").
  cbn [format_loop Z.eqb Pos.eqb negb]. unfold format_directive, format_2.
  cbn [Z.eqb Pos.eqb orb]. rewrite Ew, bind_value.
  cbn [format_loop Z.eqb Pos.eqb negb]. rewrite Ed, bind_value.
  cbn [format_loop Z.eqb Pos.eqb negb]. rewrite Em, bind_value.
  cbn [format_loop Z.eqb Pos.eqb negb]. rewrite Ey, bind_value.
  cbn [format_loop Z.eqb Pos.eqb negb]. rewrite Eh, Emi, Es, !bind_value.
  f_equal. do 3 (rewrite <-?app_assoc; cbn [app]). reflexivity.
Qed.

(** ** Reading it *)
Section ReadDate.
Context `{FastFloatOk} `{TimeZone}.

Lemma parse_format_literal s c rest_format rest t :
  state_at s (c :: rest) t → (c =? c_percent) = false →
  ∃ s', parse_format s (c :: rest_format) = parse_format s' rest_format ∧ state_at s' rest t.
Proof.
  intros Hs Hc. exists (read_char s c). split; [|by apply read_char_at]. cbn [parse_format].
  rewrite is_eof_remaining, (at_rest _ _ _ Hs), bool_decide_eq_false_2, Hc by done. done.
Qed.

Lemma parse_format_step s d rest_format text rest t s' t' :
  state_at s text t → text ≠ [] → parse_directive s d (head rest_format) = Returned (Some s') → state_at s' rest t' →
  parse_format s (c_percent :: d :: rest_format) = parse_format s' rest_format.
Proof.
  intros Hs Ht Hd Hs'. cbn [parse_format]. rewrite is_eof_remaining, (at_rest _ _ _ Hs), bool_decide_eq_false_2 by done.
  cbn [Z.eqb Pos.eqb negb]. by rewrite Hd, bind_value, (at_good _ _ _ Hs').
Qed.

(** The three kinds of directives of the format. *)
Lemma parse_number_directive s d set value ds rest_format rest t :
  (∀ s next, parse_directive s d next = read_field s set) →
  state_at s (ds ++ rest) t → digit_string value ds → 0 ≤ value ≤ 2 ^ 31 - 1 → stops is_ascii_digit rest →
  ∃ s', parse_format s (c_percent :: d :: rest_format) = parse_format s' rest_format ∧ state_at s' rest (set t value).
Proof.
  intros Hset Hs Hds Hv Hstop. destruct (read_field_at s value ds rest t set) as (s' & Hr & Hs'); [done..|].
  exists s'. split; [|done]. eapply parse_format_step; [exact Hs| |by rewrite Hset|done].
  intros [? _]%app_nil. by apply (ds_nonempty _ _ Hds).
Qed.

Lemma parse_time_directive s hour minute second h m sec rest_format rest t :
  state_at s (h ++ c_colon :: m ++ c_colon :: sec ++ rest) t →
  digit_string hour h → digit_string minute m → digit_string second sec →
  0 ≤ hour ≤ 23 → 0 ≤ minute ≤ 59 → 0 ≤ second ≤ 59 → stops is_ascii_digit rest →
  ∃ s', parse_format s (c_percent :: 0x54 :: rest_format) = parse_format s' rest_format
    ∧ state_at s' rest (with_sec (with_min (with_hour t hour) minute) second).
Proof.
  intros Hs Hh Hm Hsec Bh Bm Bs Hstop.
  destruct (read_number_at s hour h (c_colon :: m ++ c_colon :: sec ++ rest) t) as (s1 & E1 & G1); [done|done|lia|done|].
  pose proof (state_at_fields _ _ _ (with_hour (fields s1) hour) G1) as G2. apply read_char_at in G2.
  destruct (read_number_at _ minute m (c_colon :: sec ++ rest) _ G2) as (s3 & E3 & G3); [done|lia|done|].
  pose proof (state_at_fields _ _ _ (with_min (fields s3) minute) G3) as G4. apply read_char_at in G4.
  destruct (read_field_at _ second sec rest _ with_sec G4) as (s5 & E5 & G5); [done|lia|done|].
  exists s5. split; cycle 1.
  { rewrite (at_fields _ _ _ G3), (at_fields _ _ _ G1) in G5. exact G5. }
  eapply parse_format_step; [exact Hs| | |exact G5].
  { intros [? _]%app_nil. by apply (ds_nonempty _ _ Hh). }
  unfold parse_directive. cbn [Z.eqb Pos.eqb orb]. unfold read_hour_minute. by rewrite E1, bind_value, E3, !bind_value, E5.
Qed.

Lemma parse_names_directive s d names set i name rest_format rest t :
  (∀ s next, parse_directive s d next = ('(v, found, s) ← read_names s names 0;
     Returned (if negb found then None else Some (set_fields s (set (fields s) v))))) →
  state_at s (name ++ rest) t → 0 ≤ i → names !! Z.to_nat i = Some name → Forall (λ x, length x = 3%nat) names →
  NoDup (lowercase_bytes <$> names) →
  ∃ s', parse_format s (c_percent :: d :: rest_format) = parse_format s' rest_format ∧ state_at s' rest (set t i).
Proof.
  intros Hset Hs Hi Hname Hlen Hnd.
  destruct (read_names_at s names 0 (Z.to_nat i) name rest t 3) as (s' & Hr & Hs'); [done..|].
  exists (set_fields s' (set (fields s') i)). split; cycle 1.
  { rewrite (at_fields _ _ _ Hs'). by eapply state_at_fields. }
  eapply parse_format_step; [exact Hs| | |by eapply state_at_fields].
  - intros [-> _]%app_nil. by pose proof (Forall_lookup_1 _ _ _ _ Hlen Hname).
  - rewrite Hset, Hr, bind_value. cbn [negb]. by rewrite Z.add_0_l, Z2Nat.id by done.
Qed.

Lemma http_date_read t text s :
  tm_ok t → 0 ≤ tm_year t + 1900 ≤ 2 ^ 31 - 1 → http_date_text t text → state_at s text (mk_tm 0 0 0 0 0 0 0 0) →
  ∃ s', parse_format s http_date_format = Returned (Some (s', [])) ∧ state_at s' [] (mk_tm (tm_sec t) (tm_min t)
    (tm_hour t) (tm_mday t) (tm_mon t) (tm_year t) (tm_wday t) 0).
Proof.
  intros [] Hy [(wday & mday & mon & year & hour & minute & second & Hw & Hm & Hd & Hyr & Hh & Hmi & Hse & ->)] Hs.
  unfold http_date_format. repeat match goal with
    | |- context [sv ?x] => let v := eval vm_compute in (sv x) in change (sv x) with v
    | H : context [sv ?x] |- _ => let v := eval vm_compute in (sv x) in change (sv x) with v in H end.
  cbn [app] in Hs.
  edestruct (parse_names_directive s 0x61 short_day_names with_wday (tm_wday t) wday) as (s1 & -> & G1);
    [done|exact Hs|lia|done|by repeat constructor|apply (bool_decide_unpack _); vm_compute; reflexivity|].
  edestruct parse_format_literal as (s2 & -> & G2); [exact G1|done|].
  edestruct parse_format_literal as (s3 & -> & G3); [exact G2|done|].
  edestruct (parse_number_directive s3 0x64 with_mday (tm_mday t) mday) as (s4 & -> & G4); [done|exact G3|done|lia|done|].
  edestruct parse_format_literal as (s5 & -> & G5); [exact G4|done|].
  edestruct (parse_names_directive s5 0x62 short_month_names with_mon (tm_mon t) mon) as (s6 & -> & G6);
    [done|exact G5|lia|done|by repeat constructor|apply (bool_decide_unpack _); vm_compute; reflexivity|].
  edestruct parse_format_literal as (s7 & -> & G7); [exact G6|done|].
  edestruct (parse_number_directive s7 0x59 (λ t year, with_year t (year - 1900)) (tm_year t + 1900) year) as (s8 & -> & G8);
    [done|exact G7|done|lia|done|].
  edestruct parse_format_literal as (s9 & -> & G9); [exact G8|done|].
  edestruct (parse_time_directive s9 (tm_hour t) (tm_min t) (tm_sec t) hour minute second) as (s10 & -> & G10);
    [exact G9|done|done|done|lia|lia|lia|done|].
  edestruct parse_format_literal as (s11 & -> & G11); [exact G10|done|].
  edestruct parse_format_literal as (s12 & -> & G12); [exact G11|done|].
  edestruct parse_format_literal as (s13 & -> & G13); [exact G12|done|].
  edestruct parse_format_literal as (s14 & -> & G14); [exact G13|done|].
  exists s14. split; [done|]. cbn in G14. by rewrite Z.add_simpl_r in G14.
Qed.

End ReadDate.

(** Times of the years 0 to 9999. *)
Definition http_date_range (t : Z) : Prop := -62167219200 ≤ t < 253402300800.

Lemma http_date_gmtime t : http_date_range t → ∃ f, gmtime t = Some f ∧ 0 ≤ tm_year f + 1900 ≤ 9999.
Proof.
  unfold http_date_range. intros Ht. unfold gmtime, civil_from_days. cbv zeta. pose proof (year_of_days_spec (t / 86400)) as Hy.
  set (year := year_of_days (t / 86400)) in *.
  assert (0 ≤ year ≤ 9999) as Hyear.
  { rewrite !years_to_days_closed in Hy. unfold leap_days_before in Hy. div_lia. }
  rewrite (proj2 (Z.leb_le (- 2 ^ 31) _)), (proj2 (Z.leb_le _ (2 ^ 31 - 1))) by lia. cbn [andb negb].
  eexists. split; [done|]. cbn [tm_year]. lia.
Qed.

(** C18: the text [%a, %d %b %Y %T GMT] of a time of the years 0 to 9999 is read back as
    that time in whole seconds, for every time but the last second of 1969 (whose
    number, -1, is [timegm]'s error). *)
Theorem http_date_roundtrip `{FastFloatOk} `{TimeZone} seconds nanoseconds :
  http_date_range seconds → seconds ≠ -1 → 0 ≤ nanoseconds < 1000000000 →
  ∃ text, to_byte_string (mk_duration seconds nanoseconds) http_date_format LocalTimeNo = Returned (Some text)
    ∧ parse_unix_time http_date_format text true = Returned (Some (from_seconds_since_epoch seconds)).
Proof.
  intros Hr Hne Hn. destruct (http_date_gmtime seconds Hr) as (f & Hf & Hy). pose proof (gmtime_ok _ _ Hf) as Hok.
  destruct (http_date_printed f Hok) as (text & Et & Htext); [lia|]. exists text. split.
  { unfold to_byte_string, to_timespec. cbn [m_seconds m_nanoseconds].
    rewrite (proj2 (Z.ltb_lt nanoseconds _)) by lia. cbn [verify]. rewrite bind_value. by rewrite Hf, Et, bind_value. }
  unfold parse_unix_time.
  destruct (http_date_read f text (mk_parse_state (lexer_of text) (mk_tm 0 0 0 0 0 0 0 0) false)) as (s & -> & Hs);
    [done|lia|done|split; try done; unfold lexer_ok; cbn; lia|].
  rewrite bind_value, is_eof_remaining, (at_rest _ _ _ Hs), (at_fields _ _ _ Hs). cbn [negb orb bool_decide decide_rel].
  rewrite !bool_decide_eq_true_2 by done. cbn [negb orb].
  assert (timegm (mk_tm (tm_sec f) (tm_min f) (tm_hour f) (tm_mday f) (tm_mon f) (tm_year f) (tm_wday f) 0) = timegm f) as -> by done.
  rewrite (timegm_gmtime _ _ Hf), bind_value. by rewrite (proj2 (Z.eqb_neq seconds (-1))).
Qed.

(** A process in the zone UTC; [mktime] carries as [timegm] does. *)
Definition utc : TimeZone := {|
  localtime t := default (mk_tm 0 0 0 0 0 0 0 0) (gmtime t);
  mktime_normalize t := match timegm t with Returned s => default t (gmtime s) | _ => t end;
  tzname _ := sv "UTC";
|}.

Lemma http_date_roundtrip_witness :
  (http_date_range 784111777 ∧ 784111777 ≠ -1 ∧ 0 ≤ 500 < 1000000000) ∧
  let _ := fast_float_example in
  let _ := utc in
  ∃ text, to_byte_string (mk_duration 784111777 500) http_date_format LocalTimeNo = Returned (Some text)
    ∧ parse_unix_time http_date_format text true = Returned (Some (from_seconds_since_epoch 784111777)).
Proof.
  split; [done|]. intros ff tz. refine (@http_date_roundtrip ff fast_float_example_ok tz 784111777 500 _ _ _); done.
Defined.

(** ** The reader always returns *)
Definition reader_ok (s : ParseState) : Prop := lexer_ok (string_lexer s).

(** It stops, or goes on from a state whose index is within the text. *)
Definition reads_on (m : outcome (option ParseState)) : Prop :=
  ∃ r, m = Returned r ∧ ∀ s, r = Some s → reader_ok s.

Lemma reads_on_intro r : (∀ s, r = Some s → reader_ok s) → reads_on (Returned r).
Proof. by exists r. Qed.

Lemma ignore_ok l n : lexer_ok l → lexer_ok (ignore l n).
Proof. unfold lexer_ok, ignore. cbn. lia. Qed.

Lemma consume_specific_ok l c : lexer_ok l → lexer_ok (consume_specific l c).2.
Proof. intros Hl. unfold consume_specific. case_match; [done|]. by apply ignore_ok. Qed.

Lemma next_is_consume l c : c ≠ 0 → next_is l c = true → consume l = Returned (c, ignore l 1) ∧ lexer_ok (ignore l 1).
Proof.
  intros Hc. unfold next_is. rewrite peek_remaining. intros E. apply Z.eqb_eq in E.
  destruct (remaining l) as [|d rest] eqn:Hr; cbn in E; [by subst|]. subst d.
  by destruct (consume_cons _ _ _ Hr) as (? & _ & ?).
Qed.

Lemma consume_count_returns l n : lexer_ok l → ∃ s l', consume_count l n = Returned (s, l') ∧ lexer_ok l'.
Proof.
  intros Hl. unfold consume_count, lexer_ok in *. rewrite substring_view_in_range by lia. rewrite bind_value.
  do 2 eexists. split; [done|]. cbn. lia.
Qed.

Section Total.
Context `{FastFloat} `{TimeZone}.

(** The optional sign. *)
Lemma sign_returns l :
  lexer_ok l → ∃ b l1, (if next_is l c_plus || next_is l c_minus then '(c, l) ← consume l; Returned (c =? c_minus, l)
    else Returned (false, l)) = Returned (b, l1) ∧ lexer_ok l1.
Proof.
  intros Hl. destruct (next_is l c_plus) eqn:E1; cbn [orb].
  { destruct (next_is_consume l c_plus ltac:(lia) E1) as [-> ?]. cbn. eauto. }
  destruct (next_is l c_minus) eqn:E2; [|eauto]. destruct (next_is_consume l c_minus ltac:(lia) E2) as [-> ?]. cbn. eauto.
Qed.

Lemma consume_decimal_integer_returns l :
  lexer_ok l → ∃ r l', consume_decimal_integer_int l = Returned (r, l') ∧ lexer_ok l'.
Proof.
  intros Hl. unfold consume_decimal_integer_int.
  destruct (sign_returns l Hl) as (b & l1 & -> & Hl1).
  rewrite bind_value, consume_while_returns, bind_value by done. repeat case_goal; eauto using ignore_while_ok.
Qed.

Lemma read_number_returns s : reader_ok s → ∃ n s', read_number s = Returned (n, s') ∧ reader_ok s'.
Proof.
  intros Hs. unfold read_number. destruct (consume_decimal_integer_returns _ Hs) as (r & l & -> & Hl).
  rewrite bind_value. destruct r; eauto.
Qed.

Lemma read_char_ok s c : reader_ok s → reader_ok (read_char s c).
Proof.
  intros Hs. unfold read_char. pose proof (consume_specific_ok (string_lexer s) c Hs) as Hl.
  by destruct (consume_specific _ _) as [[] l].
Qed.

Lemma read_names_returns s names i :
  reader_ok s → ∃ k b s', read_names s names i = Returned (k, b, s') ∧ reader_ok s'.
Proof.
  intros Hs. revert i. induction names as [|name names IH]; intros i; cbn [read_names]; [eauto|].
  unfold read_name, peek_string. case_goal; cbn [mbind outcome_bind]; [apply IH|]. apply Nat.ltb_ge in E.
  rewrite substring_view_in_range, bind_value by lia. cbn [mbind outcome_bind]. case_goal; [|apply IH].
  destruct (consume_count_returns (string_lexer s) (length name) Hs) as (t & l & -> & Hl). cbn. eauto 10.
Qed.

Lemma read_hour_minute_returns s : reader_ok s → ∃ s', read_hour_minute s = Returned s' ∧ reader_ok s'.
Proof.
  intros Hs. unfold read_hour_minute. destruct (read_number_returns s Hs) as (h & s1 & -> & H1). rewrite bind_value.
  destruct (read_number_returns (read_char (set_fields s1 (with_hour (fields s1) h)) c_colon)) as (m & s2 & -> & H2);
    [by apply read_char_ok|]. rewrite bind_value. eauto.
Qed.

Lemma read_field_returns s set : reader_ok s → reads_on (read_field s set).
Proof.
  intros Hs. unfold read_field. destruct (read_number_returns s Hs) as (n & s' & -> & Hs'). rewrite bind_value.
  apply reads_on_intro. by intros ? [= <-].
Qed.

Lemma read_date_returns s : reader_ok s → reads_on (read_date s).
Proof.
  intros Hs. unfold read_date. destruct (read_number_returns s Hs) as (n & s1 & -> & G1). rewrite bind_value. cbv zeta.
  destruct (read_number_returns _ (read_char_ok _ c_slash G1)) as (d & s2 & -> & G2). rewrite bind_value.
  destruct (read_number_returns _ (read_char_ok _ c_slash G2)) as (y & s3 & -> & G3). rewrite bind_value.
  apply reads_on_intro. by intros ? [= <-].
Qed.

Lemma read_zone_returns s : reader_ok s → reads_on (read_zone s).
Proof.
  intros Hs. unfold read_zone. destruct (read_number_returns s Hs) as (n & s1 & -> & G1). rewrite bind_value.
  pose proof (consume_specific_ok (string_lexer s1) c_colon G1) as Hl. destruct (consume_specific _ _) as [[] l].
  - destruct (read_number_returns (set_lexer s1 l) Hl) as (m & s2 & -> & G2). cbn [mbind outcome_bind].
    apply reads_on_intro. by intros ? [= <-].
  - cbn [mbind outcome_bind]. apply reads_on_intro. by intros ? [= <-].
Qed.

Lemma read_am_pm_returns s : reader_ok s → reads_on (read_am_pm s).
Proof.
  intros Hs. unfold read_am_pm. destruct (consume_count_returns _ 2 Hs) as (t & l & -> & Hl). rewrite bind_value.
  apply reads_on_intro. intros s'. repeat case_goal; by intros [= <-].
Qed.

Lemma read_table_returns s names set :
  reader_ok s → reads_on ('(v, found, s) ← read_names s names 0;
    Returned (if negb found then None else Some (set_fields s (set (fields s) v)))).
Proof.
  intros Hs. destruct (read_names_returns s names 0 Hs) as (k & b & s' & -> & Hs'). rewrite bind_value.
  apply reads_on_intro. intros s''. by destruct b; intros [= <-].
Qed.

Lemma parse_directive_returns s c next : reader_ok s → reads_on (parse_directive s c next).
Proof.
  intros Hs. unfold parse_directive, read_day_name, read_month_name.
  repeat (case_goal; [eauto using read_table_returns, read_field_returns, read_date_returns, read_zone_returns, read_am_pm_returns|]).
  - rewrite consume_while_returns, bind_value by done. apply reads_on_intro. intros ? [= <-]. by apply ignore_while_ok.
  - destruct (read_hour_minute_returns s Hs) as (s' & -> & Hs'). rewrite bind_value. apply reads_on_intro. by intros ? [= <-].
  - destruct (read_hour_minute_returns s Hs) as (s' & -> & Hs'). rewrite bind_value. by apply read_field_returns, read_char_ok.
  - pose proof (consume_specific_ok (string_lexer s) c_dot Hs) as Hl. destruct (consume_specific _ _) as [[] l]; cbn [negb].
    + destruct (read_number_returns (set_lexer s l) Hl) as (m & s2 & -> & G2). rewrite bind_value.
      apply reads_on_intro. by intros ? [= <-].
    + by apply reads_on_intro.
  - by apply reads_on_intro.
  - unfold consume_until. rewrite consume_while_returns, bind_value by done. apply reads_on_intro. intros ?.
    case_goal; [done|]. intros [= <-]. by apply ignore_while_ok.
  - apply reads_on_intro. intros ? [= <-]. by apply read_char_ok.
  - apply reads_on_intro. by intros ? [= <-].
Qed.

Lemma parse_format_returns s format : reader_ok s → returns (parse_format s format).
Proof.
  remember (length format) as n eqn:Hn. revert s format Hn.
  induction n as [n IH] using lt_wf_ind. intros s [|c rest] Hn Hs; cbn [parse_format length] in *; [eauto with ladybird|].
  case_goal; [eauto with ladybird|]. case_goal; [eapply IH; [|done|by apply read_char_ok]; lia|].
  destruct rest as [|d rest]; [eauto with ladybird|]. cbn [length] in Hn.
  destruct (parse_directive_returns s d (head rest) Hs) as (r & -> & Hr). rewrite bind_value.
  destruct r as [s'|]; [|eauto with ladybird]. case_goal; [eauto with ladybird|]. eapply IH; [|done|by apply Hr]. lia.
Qed.

Lemma days_since_epoch_returns year month day : returns (days_since_epoch year month day).
Proof.
  unfold days_since_epoch, day_of_year. case_goal; [cbn; eauto with ladybird|]. bool_to_prop.
  destruct (at_index_total day_of_year_seek_table (Z.to_nat (month - 1))) as (x & -> & _); [cbn; lia|].
  cbn. eauto with ladybird.
Qed.

Lemma from_unix_time_parts_returns year month day hour minute second :
  returns (from_unix_time_parts year month day hour minute second 0).
Proof.
  unfold from_unix_time_parts. destruct (days_since_epoch_returns year month day) as (d & ->). rewrite bind_value.
  change (from_milliseconds 0) with (Returned duration_zero). rewrite bind_value. cbv zeta. unfold duration_add.
  cbn [m_nanoseconds from_seconds_since_epoch from_seconds duration_zero]. change ((0 + 0) / 1000000000) with 0.
  change (0 <? 1000000000) with true. cbn [Z.eqb negb verify]. repeat case_goal; eauto with ladybird.
Qed.

(** Reading a time returns on every format and every text: no check of the lexer
    fails, whatever the directives. *)
Lemma parse_unix_time_returns format text from_gmt : returns (parse_unix_time format text from_gmt).
Proof.
  unfold parse_unix_time.
  destruct (parse_format_returns (mk_parse_state (lexer_of text) (mk_tm 0 0 0 0 0 0 0 0) false) format) as (r & ->).
  { unfold reader_ok, lexer_ok. cbn. lia. }
  rewrite bind_value. destruct r as [[s rest]|]; [|eauto with ladybird]. case_goal; [eauto with ladybird|].
  destruct from_gmt.
  - unfold timegm. edestruct days_since_epoch_returns as (d & ->). cbn. eauto with ladybird.
  - edestruct from_unix_time_parts_returns as (d & ->). rewrite bind_value. eauto with ladybird.
Qed.

End Total.

(** ** What the reader does at the edges *)
Section Edges.
#[local] Existing Instances fast_float_example utc.

(** Literal characters of the format that do not match are skipped when no directive
    follows: [parsing_failed] is looked at after a directive only, so the text after
    the last directive can be any of the literals, in order. *)
Example trailing_literals_skipped :
  parse_unix_time http_date_format (sv "Sun, 06 Nov 1994 08:49:37T") true
  = parse_unix_time http_date_format (sv "Sun, 06 Nov 1994 08:49:37 GMT") true
  ∧ parse_unix_time http_date_format (sv "Sun, 06 Nov 1994 08:49:37T") true = Returned (Some (from_seconds_since_epoch 784111777)).
Proof. vm_compute. done. Qed.

(** The year of [%y] is counted from 1900 twice: 94 is the year 3894. *)
Example two_digit_year :
  parse_unix_time (sv "%d/%m/%y") (sv "06/11/94") true = parse_unix_time (sv "%d/%m/%Y") (sv "06/11/3894") true
  ∧ parse_unix_time (sv "%D") (sv "11/06/94") true = parse_unix_time (sv "%d/%m/%Y") (sv "06/11/1994") true.
Proof. vm_compute. done. Qed.

(** The last second of 1969 is not read. *)
Example last_second_of_1969 :
  parse_unix_time http_date_format (sv "Wed, 31 Dec 1969 23:59:59 GMT") true = Returned None
  ∧ parse_unix_time http_date_format (sv "Wed, 31 Dec 1969 23:59:58 GMT") true = Returned (Some (from_seconds_since_epoch (-2))).
Proof. vm_compute. done. Qed.

(** An offset east of UTC that is larger than the hour: the hour, below zero, becomes a
    [u8], so one o'clock at +02:00 is ten days late. *)
Example zone_wraps_hour :
  parse_unix_time (sv "%Y-%m-%dT%H:%M:%S%x") (sv "2024-05-02T01:00:00+02:00") false
  = parse_unix_time (sv "%Y-%m-%dT%H:%M:%S") (sv "2024-05-12T15:00:00") false.
Proof. vm_compute. done. Qed.

End Edges.

(** ** The times that are read from HTTP dates are representable *)
Definition fields_bounded (t : tm) : Prop :=
  (- 2 ^ 31 ≤ tm_sec t ≤ 2 ^ 31) ∧ (- 2 ^ 31 ≤ tm_min t ≤ 2 ^ 31) ∧ (- 2 ^ 31 ≤ tm_hour t ≤ 2 ^ 31)
  ∧ (- 2 ^ 31 ≤ tm_mday t ≤ 2 ^ 31) ∧ 0 ≤ tm_mon t ≤ 12 ∧ - 2 ^ 32 ≤ tm_year t ≤ 2 ^ 32.

Section Bounds.
Context `{FastFloatOk} `{TimeZone}.

Lemma read_number_bound s n s' :
  reader_ok s → read_number s = Returned (n, s') → - 2 ^ 31 ≤ n ≤ 2 ^ 31 ∧ fields s' = fields s.
Proof.
  intros Hs. unfold read_number, consume_decimal_integer_int.
  destruct (sign_returns _ Hs) as (b & l1 & -> & Hl1).
  rewrite bind_value, consume_while_returns, bind_value by done. case_bool_decide; [by intros [= <- <-]|].
  destruct (to_number _ _ _ _) as [v|] eqn:Ev; [|by intros [= <- <-]]. apply parse_number_range in Ev; [|lia].
  destruct b; cbn [negb]; case_goal; intros [= <- <-]; bool_to_prop; (split; [lia|done]).
Qed.

(** A step of the reader that keeps the fields bounded. *)
Definition keeps_bounded (m : outcome (option ParseState)) : Prop :=
  ∀ s', m = Returned (Some s') → fields_bounded (fields s').

Lemma read_field_bounded s set :
  reader_ok s → (∀ n, - 2 ^ 31 ≤ n ≤ 2 ^ 31 → fields_bounded (set (fields s) n)) → keeps_bounded (read_field s set).
Proof.
  intros Hs Hset s'. unfold read_field. destruct (read_number s) as [[n s1]| |] eqn:E; [|done..]. rewrite bind_value.
  apply read_number_bound in E as [Hn Hf]; [|done]. intros [= <-]. cbn. rewrite Hf. by apply Hset.
Qed.

Lemma read_names_index s names i k b s' :
  read_names s names i = Returned (k, b, s') → (b = true → i ≤ k < i + Z.of_nat (length names)) ∧ fields s' = fields s.
Proof.
  revert i. induction names as [|name names IH]; intros i; cbn [read_names]; [by intros [= <- <- <-]|].
  destruct (read_name s name) as [[found s1]| |] eqn:E; [|done..]. rewrite bind_value.
  assert (fields s1 = fields s ∧ (found = false → s1 = s)) as [Hf Hs].
  { revert E. unfold read_name. destruct (peek_string _ _ _) as [[v|]| |]; cbn [mbind outcome_bind]; try done; [|by intros [= <- <-]].
    case_goal; [|by intros [= <- <-]]. by destruct (consume_count _ _) as [[? ?]| |]; cbn [mbind outcome_bind]; intros [= <- <-]. }
  destruct found.
  - intros [= <- <- <-]. cbn [length]. split; [lia|done].
  - rewrite Hs by done. intros E2. apply IH in E2 as [Hk ->]. cbn [length]. split; [intros Hb; specialize (Hk Hb); lia|done].
Qed.

Lemma read_hour_minute_bounded s s' :
  reader_ok s → fields_bounded (fields s) → read_hour_minute s = Returned s' → fields_bounded (fields s') ∧ reader_ok s'.
Proof.
  intros Hs Hf. unfold read_hour_minute. destruct (read_number_returns s Hs) as (h & s1 & E1 & G1). rewrite E1, bind_value.
  apply read_number_bound in E1 as [Hh F1]; [|done]. cbv zeta. set (s2 := read_char _ _).
  assert (reader_ok s2) as G2 by (by apply read_char_ok). assert (fields s2 = with_hour (fields s) h) as F2.
  { unfold s2, read_char. destruct (consume_specific _ _) as [[] ?]; cbn; by rewrite F1. }
  destruct (read_number_returns s2 G2) as (m & s3 & E3 & G3). rewrite E3, bind_value.
  apply read_number_bound in E3 as [Hm F3]; [|done]. intros [= <-]. split; [|done]. cbn. rewrite F3, F2.
  unfold fields_bounded in *. cbn. lia.
Qed.

Definition http_date_directive (c : Z) : Prop := c = 0x61 ∨ c = 0x64 ∨ c = 0x62 ∨ c = 0x59 ∨ c = 0x54.

Lemma http_date_directive_bounded s c next :
  http_date_directive c → reader_ok s → fields_bounded (fields s) → keeps_bounded (parse_directive s c next).
Proof.
  intros Hc Hs Hf. unfold parse_directive. destruct Hc as [-> | [-> | [-> | [-> | ->]]]]; cbn [Z.eqb Pos.eqb orb].
  - intros s'. unfold read_day_name. destruct (read_names _ _ _) as [[[k b] s1]| |] eqn:E; [|done..]. rewrite bind_value.
    apply read_names_index in E as [_ Hf1]. destruct b; intros [= <-]. cbn. by rewrite Hf1.
  - apply read_field_bounded; [done|]. intros n Hn. unfold fields_bounded in *. cbn. lia.
  - intros s'. unfold read_month_name. destruct (read_names _ _ _) as [[[k b] s1]| |] eqn:E; [|done..]. rewrite bind_value.
    apply read_names_index in E as [Hk Hf1]. destruct b; intros [= <-]. specialize (Hk eq_refl). cbn. rewrite Hf1.
    unfold fields_bounded in *. cbn in *. lia.
  - apply read_field_bounded; [done|]. intros n Hn. unfold fields_bounded in *. cbn. lia.
  - destruct (read_hour_minute s) as [s1| |] eqn:E; [|done..]. rewrite bind_value.
    apply read_hour_minute_bounded in E as [Hf1 Hs1]; [|done..].
    assert (fields (read_char s1 c_colon) = fields s1) as F1 by (unfold read_char; by destruct (consume_specific _ _) as [[] ?]).
    apply read_field_bounded; [by apply read_char_ok|]. rewrite F1. intros n Hn. unfold fields_bounded in *. cbn. lia.
Qed.

(** The directives of a format. *)
Fixpoint format_directives (format : bytes) : list Z :=
  match format with
  | [] => []
  | c :: rest => if c =? c_percent then match rest with [] => [] | d :: rest => d :: format_directives rest end
                 else format_directives rest
  end.

Lemma parse_format_bounded s format s' rest :
  Forall http_date_directive (format_directives format) → reader_ok s → fields_bounded (fields s) →
  parse_format s format = Returned (Some (s', rest)) → fields_bounded (fields s').
Proof.
  remember (length format) as n eqn:Hn. revert s format Hn. induction n as [n IH] using lt_wf_ind.
  intros s [|c format] Hn Hd Hs Hf; cbn [parse_format length] in *; [by intros [= <- _]|].
  case_goal; [by intros [= <- _]|]. cbn [format_directives] in Hd. destruct (Z.eqb_spec c c_percent) as [->|Hc]; cbn [negb]; cycle 1.
  { eapply IH; [|reflexivity|done|by apply read_char_ok|]; [lia|]. unfold read_char. by destruct (consume_specific _ _) as [[] ?]. }
  destruct format as [|d format]; [done|]. apply Forall_cons in Hd as [Hd Hds]. cbn [length] in Hn.
  destruct (parse_directive_returns s d (head format) Hs) as (r & Er & Hr). rewrite Er, bind_value.
  destruct r as [s1|]; [|done]. case_goal; [done|]. eapply IH; [|reflexivity|done|by apply Hr|]; [lia|].
  by apply (http_date_directive_bounded s d (head format) Hd Hs Hf).
Qed.

Lemma timegm_bounded t n :
  fields_bounded t → timegm t = Returned n → i64_min ≤ n ≤ i64_max.
Proof.
  intros Hf. unfold timegm.
  destruct (days_since_epoch_value (tm_year t + 1900 + tm_mon t / 12) (tm_mon t mod 12 + 1) 1) as (e & He & ->); [div_lia|].
  assert (0 ≤ e ≤ 334) as Hel.
  { assert (Forall (λ e, 0 ≤ e ≤ 334) day_of_year_seek_table) as Hall by (repeat constructor; done).
    by eapply (Forall_lookup_1 _ _ _ _ Hall He). }
  rewrite bind_value, years_to_days_closed. intros [= <-]. unfold fields_bounded in Hf. unfold leap_days_before, i64_min, i64_max.
  destruct (_ && _); div_lia.
Qed.

(** Every time that is read from an HTTP date can be computed with. *)
Lemma http_date_valid text t :
  parse_unix_time http_date_format text true = Returned (Some t) → duration_valid t.
Proof.
  unfold parse_unix_time. destruct (parse_format _ _) as [[[s rest]|]| |] eqn:E; [|done..]. rewrite bind_value.
  apply parse_format_bounded in E; [|by repeat constructor; cbv; tauto|unfold reader_ok, lexer_ok; cbn; lia|by cbv].
  case_goal; [done|]. destruct (timegm (fields s)) as [n| |] eqn:Et; [|done..]. rewrite bind_value.
  apply timegm_bounded in Et; [|done]. case_goal; [done|]. intros [= <-]. split; cbn; [done|lia].
Qed.

End Bounds.
