(* ===== verification/Http.v ===== *)
(** * LibHTTP: code point classes, methods and quoted strings

    LibHTTP/HTTP.h, HTTP.cpp and Method.cpp.  [collect_an_http_quoted_string]
    works on a lexer; its value is what a reader gets back from the quoted form
    of any text. *)
From S2P Require Import Prelude CharacterTypes Externals Utf8 StringView Utf8View GenericLexer.

Definition HTTP_TAB_OR_SPACE : bytes := [c_tab; c_space].
Definition HTTP_WHITESPACE : bytes := [c_lf; c_cr; c_tab; c_space].

Notation c_quote := 0x22 (only parsing).
Notation c_comma := 0x2C (only parsing).
Notation c_semicolon := 0x3B (only parsing).

Definition is_http_newline (code_point : Z) : bool := (code_point =? 0x0A) || (code_point =? 0x0D).

Definition is_http_tab_or_space (code_point : Z) : bool := (code_point =? 0x09) || (code_point =? 0x20).

Definition is_http_token_code_point (code_point : Z) : bool :=
  if ((c_0 <=? code_point) && (code_point <=? c_9))
     || ((c_A <=? code_point) && (code_point <=? c_Z))
     || ((c_a <=? code_point) && (code_point <=? c_z)) then true
  else contains_char (sv "!#$%&'*+-.^_`|~") code_point.

(** ** Method.cpp *)
Definition is_method (method : bytes) : bool :=
  negb (bool_decide (method = [])) && forallb is_http_token_code_point method.

Definition is_cors_safelisted_method (method : bytes) : bool :=
  existsb (λ m, bool_decide (method = m)) [sv "GET"; sv "HEAD"; sv "POST"].

Definition is_forbidden_method (method : bytes) : bool :=
  is_one_of_ignoring_ascii_case method [sv "CONNECT"; sv "TRACE"; sv "TRACK"].

Definition NORMALIZED_METHODS : list bytes :=
  [sv "DELETE"; sv "GET"; sv "HEAD"; sv "OPTIONS"; sv "POST"; sv "PUT"].

Definition normalize_method (method : bytes) : bytes :=
  default method (List.find (λ m, equals_ignoring_ascii_case m method) NORMALIZED_METHODS).

(** ** HTTP.cpp *)
Inductive HttpQuotedStringExtractValue := ExtractNo | ExtractYes.

#[global] Instance HttpQuotedStringExtractValue_eq_dec : EqDecision HttpQuotedStringExtractValue.
Proof. solve_decision. Defined.

Section QuotedString.
Context `{Simdutf}.

(** Step 5: every turn reads at least one character or ends the loop. *)
Fixpoint quoted_string_loop (fuel : nat) (lexer : GenericLexer) (value : bytes)
    : outcome (bytes * GenericLexer) :=
  match fuel with
  | O => OutOfFuel
  | S fuel =>
      '(value_part, lexer) ← consume_until (λ ch, (ch =? c_quote) || (ch =? c_backslash)) lexer;
      let value := value ++ value_part in
      if is_eof lexer then Returned (value, lexer)
      else
        '(quote_or_backslash, lexer) ← consume lexer;
        if quote_or_backslash =? c_backslash then
          if is_eof lexer then Returned (value ++ [c_backslash], lexer)
          else
            '(c, lexer) ← consume lexer;
            quoted_string_loop fuel lexer (value ++ [c])
        else verify (quote_or_backslash =? c_quote) (Returned (value, lexer))
  end.

Definition collect_an_http_quoted_string (lexer : GenericLexer)
    (extract_value : HttpQuotedStringExtractValue) : outcome (bytes * GenericLexer) :=
  let position_start := m_index lexer in
  verify (peek lexer 0 =? c_quote) (
    let lexer := ignore lexer 1 in
    '(value, lexer) ← quoted_string_loop (S (length (m_input lexer))) lexer [];
    match extract_value with
    | ExtractYes => s ← from_utf8 value; value ← must s; Returned (value, lexer)
    | ExtractNo =>
        s ← substring_view (m_input lexer) position_start (m_index lexer - position_start);
        s ← from_utf8 s; value ← must s; Returned (value, lexer)
    end).

End QuotedString.

(** ** A reference for the quoted string

    What a quoted string reads from the text after its opening quote: the value,
    and what is left. *)
Fixpoint quoted_value (s : bytes) : bytes * bytes :=
  match s with
  | [] => ([], [])
  | c :: s' =>
      if c =? c_quote then ([], s')
      else if c =? c_backslash then
        match s' with
        | [] => ([c_backslash], [])
        | d :: s'' => let '(v, rest) := quoted_value s'' in (d :: v, rest)
        end
      else let '(v, rest) := quoted_value s' in (c :: v, rest)
  end.

(** The characters a quoted string must escape, and the escaped text. *)
Definition needs_escape (c : Z) : bool := (c =? c_quote) || (c =? c_backslash).

Definition escape_quoted (s : bytes) : bytes :=
  flat_map (λ c, if needs_escape c then [c_backslash; c] else [c]) s.

Lemma quoted_value_escape s rest : quoted_value (escape_quoted s ++ c_quote :: rest) = (s, rest).
Proof.
  induction s as [|c s IH]; [done|]. cbn [escape_quoted flat_map].
  rewrite <-app_assoc. fold (escape_quoted s). unfold needs_escape.
  destruct (Z.eqb_spec c c_quote) as [->|]; [cbn; by rewrite IH|].
  destruct (Z.eqb_spec c c_backslash) as [->|]; [cbn; by rewrite IH|]. cbn [orb app quoted_value].
  rewrite (proj2 (Z.eqb_neq c c_quote)), (proj2 (Z.eqb_neq c c_backslash)) by done. by rewrite IH.
Qed.

Lemma quoted_value_plain part s :
  Forall (λ c, needs_escape c = false) part →
  quoted_value (part ++ s) = (part ++ (quoted_value s).1, (quoted_value s).2).
Proof.
  induction 1 as [|c part Hc _ IH]; cbn [app quoted_value]; [by destruct (quoted_value s)|].
  unfold needs_escape in Hc. apply orb_false_iff in Hc as [-> ->]. by rewrite IH.
Qed.

Lemma quoted_value_suffix s :
  ∃ p, s = p ++ (quoted_value s).2 ∧ ((quoted_value s).2 = [] ∨ ∃ p', p = p' ++ [c_quote]).
Proof.
  induction s as [s IH] using (induction_ltof1 _ length). unfold ltof in IH.
  destruct s as [|c s]; [exists []; by split; [|left]|]. cbn [quoted_value].
  destruct (Z.eqb_spec c c_quote) as [->|]; [exists [c_quote]; split; [done|right; by exists []]|].
  destruct (c =? c_backslash).
  - destruct s as [|d s]; [exists [c]; by split; [|left]|]. destruct (IH s) as (p & Hp & Hend); [cbn; lia|].
    destruct (quoted_value s) as [v rest]. exists (c :: d :: p). cbn in *. rewrite <-Hp. split; [done|].
    destruct Hend as [|[p' ->]]; [by left|right]. by exists (c :: d :: p').
  - destruct (IH s) as (p & Hp & Hend); [cbn; lia|].
    destruct (quoted_value s) as [v rest]. exists (c :: p). cbn in *. rewrite <-Hp. split; [done|].
    destruct Hend as [|[p' ->]]; [by left|right]. by exists (c :: p').
Qed.

(** The value of well-formed text is well-formed, and so is what is left. *)
Lemma quoted_value_valid_acc s acc :
  valid_utf8 (acc ++ s) →
  valid_utf8 (acc ++ (quoted_value s).1) ∧ valid_utf8 (quoted_value s).2.
Proof.
  revert acc. induction s as [s IH] using (induction_ltof1 _ length). unfold ltof in IH.
  intros acc Hv. destruct s as [|c s]; cbn [quoted_value].
  { split; [done|apply valid_utf8_nil]. }
  destruct (Z.eqb_spec c c_quote) as [->|].
  { cbn [fst snd]. rewrite app_nil_r. by apply (valid_utf8_split_ascii _ c_quote). }
  destruct (Z.eqb_spec c c_backslash) as [->|].
  - destruct s as [|d s]; [by split; [|apply valid_utf8_nil]|].
    apply valid_utf8_drop_ascii in Hv; [|done]. rewrite cons_middle, app_assoc in Hv.
    destruct (IH s ltac:(cbn; lia) _ Hv) as [H1 H2]. destruct (quoted_value s). cbn [fst snd] in *.
    by rewrite <-app_assoc in H1.
  - rewrite cons_middle, app_assoc in Hv.
    destruct (IH s ltac:(cbn; lia) _ Hv) as [H1 H2]. destruct (quoted_value s). cbn [fst snd] in *.
    by rewrite <-app_assoc in H1.
Qed.

Section QuotedStringCorrect.
Context `{SimdutfOk}.

(** The position of a lexer that has read its input up to [rest]. *)
Definition lexer_at (l : GenericLexer) (rest : bytes) : GenericLexer :=
  mk_lexer (m_input l) (length (m_input l) - length rest).

Lemma lexer_at_remaining l : lexer_ok l → lexer_at l (remaining l) = l.
Proof.
  intros Hl. unfold lexer_at, remaining. rewrite length_drop. destruct l as [input index].
  unfold lexer_ok in Hl. cbn in *. f_equal. lia.
Qed.

Lemma remaining_lexer_at l p rest : m_input l = p ++ rest → remaining (lexer_at l rest) = rest.
Proof.
  intros E. unfold remaining, lexer_at. cbn. rewrite E, length_app.
  replace (length p + length rest - length rest)%nat with (length p) by lia. apply drop_app_length.
Qed.

Lemma quoted_string_loop_spec fuel l value :
  lexer_ok l → (length (remaining l) < fuel)%nat →
  quoted_string_loop fuel l value =
    Returned (value ++ (quoted_value (remaining l)).1, lexer_at l (quoted_value (remaining l)).2).
Proof.
  revert l value. induction fuel as [|fuel IH]; intros l value Hl Hf; [lia|]. cbn [quoted_string_loop].
  unfold consume_until. rewrite consume_while_returns by done. rewrite bind_value.
  set (pred := λ c, negb _).
  destruct (scan_while_spec pred (remaining l)) as [Hpart Hrest].
  pose proof (take_drop (scan_while pred (remaining l)) (remaining l)) as Hsplit.
  pose proof (remaining_ignore_while pred l) as Hr.
  pose proof (ignore_while_ok pred l Hl) as Hok.
  set (part := take _ _) in *. remember (drop _ _) as rest eqn:Erest. set (l1 := ignore_while pred l) in *.
  assert (∀ r, lexer_at l r = lexer_at l1 r) as Hat by done.
  rewrite is_eof_remaining, Hr, <-Hsplit, quoted_value_plain; cycle 1.
  { eapply Forall_impl; [exact Hpart|]. cbn. intros c Hc. by apply negb_true_iff in Hc. }
  clear Erest. destruct rest as [|c rest].
  { rewrite bool_decide_eq_true_2 by done. cbn. rewrite app_nil_r, Hat, <-Hr. by rewrite lexer_at_remaining. }
  rewrite bool_decide_eq_false_2 by done.
  destruct (consume_cons _ _ _ Hr) as (-> & Hr2 & Hok2). rewrite bind_value.
  assert (lexer_at l rest = ignore l1 1) as Hat2.
  { rewrite Hat, <-Hr2. change (lexer_at l1) with (lexer_at (ignore l1 1)). by apply lexer_at_remaining. }
  subst pred. apply negb_false_iff, orb_true_iff in Hrest. rewrite !Z.eqb_eq in Hrest.
  destruct Hrest as [-> | ->]; cbn [quoted_value].
  { cbn. by rewrite app_nil_r, Hat2. }
  cbn [Z.eqb Pos.eqb]. rewrite is_eof_remaining, Hr2. destruct rest as [|d rest].
  { rewrite bool_decide_eq_true_2 by done. cbn [fst snd]. by rewrite Hat2, app_assoc. }
  rewrite bool_decide_eq_false_2 by done.
  destruct (consume_cons _ _ _ Hr2) as (-> & Hr3 & Hok3). rewrite bind_value.
  rewrite IH; [|done|].
  - rewrite Hr3. destruct (quoted_value rest) as [v r]. cbn [fst snd].
    by rewrite <-!app_assoc.
  - rewrite Hr3. rewrite <-Hsplit, length_app in Hf. cbn in Hf. lia.
Qed.

(** What [collect_an_http_quoted_string] returns and where it stops. *)
Lemma collect_quoted_spec l rest extract :
  valid_utf8 (m_input l) → remaining l = c_quote :: rest →
  collect_an_http_quoted_string l extract = Returned
    (match extract with
     | ExtractYes => (quoted_value rest).1
     | ExtractNo => take (length (remaining l) - length (quoted_value rest).2) (remaining l)
     end, lexer_at l (quoted_value rest).2).
Proof.
  intros Hvalid Hr. unfold collect_an_http_quoted_string.
  rewrite peek_remaining, Hr. cbn [head default Z.eqb Pos.eqb verify].
  destruct (remaining_cons _ _ _ Hr) as (Hok & Hc & Hr1 & Hok1 & Hlen).
  rewrite quoted_string_loop_spec by (rewrite ?Hr1; cbn in *; done || lia).
  rewrite Hr1, bind_value. cbn [app].
  assert (m_input l = take (m_index l) (m_input l) ++ c_quote :: rest) as Hsplit.
  { rewrite <-Hr. unfold remaining. by rewrite take_drop. }
  assert (valid_utf8 (take (m_index l) (m_input l)) ∧ valid_utf8 rest) as [Hvp Hvr].
  { rewrite Hsplit in Hvalid. by apply (valid_utf8_split_ascii _ c_quote) in Hvalid. }
  destruct (quoted_value_valid_acc rest [] Hvr) as [Hv1 Hv2].
  destruct (quoted_value_suffix rest) as (p & Hp & Hend).
  change (lexer_at (ignore l 1)) with (lexer_at l). destruct extract.
  - cbn [m_input m_index lexer_at]. set (q := (quoted_value rest).2) in *.
    assert (length (m_input l) = m_index l + S (length rest))%nat as Hil.
    { rewrite Hsplit, length_app, length_take. unfold lexer_ok in Hok. cbn. lia. }
    assert (length rest = length p + length q)%nat as Hpl by (rewrite Hp at 1; apply length_app).
    rewrite substring_view_in_range by lia. cbn [mbind outcome_bind]. fold (remaining l).
    replace (length (m_input l) - length q - m_index l)%nat with (length (remaining l) - length q)%nat
      by (rewrite Hr; cbn; lia).
    rewrite from_utf8_valid; [by rewrite Hr|]. rewrite Hr. cbn [length].
    replace (S (length rest) - length q)%nat with (S (length p)) by lia. cbn [take].
    rewrite Hp, take_app_length. apply (valid_utf8_app [c_quote] p); [by apply valid_utf8_ascii_char|].
    fold q in Hp. rewrite Hp in Hvr. destruct Hend as [Hq|[p' ->]]; [by rewrite Hq, app_nil_r in Hvr|].
    rewrite <-app_assoc in Hvr. apply (valid_utf8_split_ascii _ c_quote) in Hvr as [Hvp' _]; [|done].
    apply valid_utf8_app; [done|by apply valid_utf8_ascii_char].
  - rewrite from_utf8_valid by done. done.
Qed.

End QuotedStringCorrect.
