(* ===== verification/QuickSort.v ===== *)
(** * AK/QuickSort.h: the dual-pivot quick sort

    [quick_sort(collection)]: the partition around two pivots, the recursion into
    the two smaller parts with the loop continuing on the largest one, and the
    cutoff to the ranged [insertion_sort] of AK/InsertionSort.h.  Indices are the
    source's [int]s, which may be -1 for an empty collection; an index outside the
    collection aborts. *)
From Stdlib Require Import Sorted.
From S2P Require Import Prelude InsertionSort.

Section Model.
Context {A : Type} (less_than : A → A → bool).

(** [col[i]] at an [int], and [swap(col[i], col[j])]. *)
Definition at_int (col : list A) (i : Z) : outcome A :=
  if i <? 0 then VerifyFailed else at_index col (Z.to_nat i).

Definition swap_at (col : list A) (i j : Z) : outcome (list A) :=
  a ← at_int col i;
  b ← at_int col j;
  Returned (<[Z.to_nat j := a]> (<[Z.to_nat i := b]> col)).

(** [insertion_sort(col, start, end, comparator)], [end] inclusive: the inner loop
    with [j = start + distance]. *)
Fixpoint insertion_sort_range_inner (start : Z) (distance : nat) (col : list A) : outcome (list A) :=
  match distance with
  | O => Returned col
  | S distance' =>
      let j := start + Z.of_nat distance in
      a ← at_int col j;
      b ← at_int col (j - 1);
      if less_than a b then
        col ← swap_at col j (j - 1);
        insertion_sort_range_inner start distance' col
      else Returned col
  end.

Fixpoint insertion_sort_range_outer (steps : nat) (start : Z) (distance : nat) (col : list A)
    : outcome (list A) :=
  match steps with
  | O => Returned col
  | S steps =>
      col ← insertion_sort_range_inner start distance col;
      insertion_sort_range_outer steps start (S distance) col
  end.

Definition insertion_sort_range (col : list A) (start end' : Z) : outcome (list A) :=
  insertion_sort_range_outer (Z.to_nat (end' - start)) start 1 col.

Definition INSERTION_SORT_CUTOFF : Z := 7.

(** The choice of the pivots, which are moved to the two ends of the range. *)
Definition choose_pivots (col : list A) (start end' : Z) : outcome (list A) :=
  let size := end' - start + 1 in
  if 3 <? size then
    let third := Z.quot size 3 in
    a ← at_int col (start + third);
    b ← at_int col (end' - third);
    if less_than a b then
      col ← swap_at col (start + third) start;
      swap_at col (end' - third) end'
    else
      col ← swap_at col (start + third) end';
      swap_at col (end' - third) start
  else
    a ← at_int col start;
    b ← at_int col end';
    if negb (less_than a b) then swap_at col start end' else Returned col.

(** [while (!less_than(col[g], right_pivot) && k < g) g--;] *)
Fixpoint scan_right (fuel : nat) (col : list A) (end' k g : Z) : outcome Z :=
  match fuel with
  | O => OutOfFuel
  | S fuel =>
      right_pivot ← at_int col end';
      c ← at_int col g;
      if negb (less_than c right_pivot) && (k <? g) then scan_right fuel col end' k (g - 1)
      else Returned g
  end.

(** [while (k <= g)]; the pivots are references into the collection. *)
Fixpoint partition_loop (fuel : nat) (col : list A) (start end' j k g : Z)
    : outcome (list A * Z * Z) :=
  match fuel with
  | O => OutOfFuel
  | S fuel =>
      if k <=? g then
        left_pivot ← at_int col start;
        right_pivot ← at_int col end';
        c ← at_int col k;
        if less_than c left_pivot then
          col ← swap_at col k j;
          partition_loop fuel col start end' (j + 1) (k + 1) g
        else if negb (less_than c right_pivot) then
          g ← scan_right (length col) col end' k g;
          col ← swap_at col k g;
          let g := g - 1 in
          left_pivot ← at_int col start;
          c ← at_int col k;
          if less_than c left_pivot then
            col ← swap_at col k j;
            partition_loop fuel col start end' (j + 1) (k + 1) g
          else partition_loop fuel col start end' j (k + 1) g
        else partition_loop fuel col start end' j (k + 1) g
      else Returned (col, j, g)
  end.

(** The smaller parts by recursion, the largest by another turn of the loop. *)
Definition sort_parts_in_order (sort : bool → list A → Z → Z → outcome (list A))
    (start end' left_pointer right_pointer : Z) (col : list A) : outcome (list A) :=
  let left_size := left_pointer - start in
  let middle_size := right_pointer - (left_pointer + 1) in
  let right_size := (end' + 1) - (right_pointer + 1) in
  if (middle_size <=? left_size) && (right_size <=? left_size) then
    col ← sort true col (left_pointer + 1) (right_pointer - 1);
    col ← sort true col (right_pointer + 1) end';
    sort false col start (left_pointer - 1)
  else if right_size <=? middle_size then
    col ← sort true col start (left_pointer - 1);
    col ← sort true col (right_pointer + 1) end';
    sort false col (left_pointer + 1) (right_pointer - 1)
  else
    col ← sort true col start (left_pointer - 1);
    col ← sort true col (left_pointer + 1) (right_pointer - 1);
    sort false col (right_pointer + 1) end'.

(** [entering] distinguishes a call, which checks the cutoff, from another turn of
    the [while (start < end)] loop, which does not. *)
Fixpoint dual_pivot_quick_sort (fuel : nat) (entering : bool) (col : list A) (start end' : Z)
    : outcome (list A) :=
  match fuel with
  | O => OutOfFuel
  | S fuel =>
      if entering && ((end' + 1) - start <=? INSERTION_SORT_CUTOFF) then insertion_sort_range col start end'
      else if start <? end' then
        col ← choose_pivots col start end';
        '(col, j, g) ← partition_loop (length col) col start end' (start + 1) (start + 1) (end' - 1);
        let j := j - 1 in
        let g := g + 1 in
        col ← swap_at col start j;
        col ← swap_at col end' g;
        sort_parts_in_order (dual_pivot_quick_sort fuel) start end' j g col
      else Returned col
  end.

(** The [size_t] difference is narrowed to [int]. *)
Definition quick_sort (collection : list A) : outcome (list A) :=
  let end' := (Z.of_nat (length collection) - 1 + 2 ^ 31) mod 2 ^ 32 - 2 ^ 31 in
  dual_pivot_quick_sort (S (S (length collection))) true collection 0 end'.

End Model.

(** ** Indexing and swapping inside a list *)
Section Indexing.
Context {A : Type} (less_than : A → A → bool).

Lemma at_int_middle (a : list A) x b i : i = Z.of_nat (length a) → at_int (a ++ x :: b) i = Returned x.
Proof.
  intros ->. unfold at_int. rewrite (proj2 (Z.ltb_ge _ _)) by lia. apply at_index_lt.
  by rewrite Nat2Z.id, list_lookup_middle.
Qed.

Lemma at_int_is (col a : list A) x b i :
  col = a ++ x :: b → i = Z.of_nat (length a) → at_int col i = Returned x.
Proof. intros ->. apply at_int_middle. Qed.

Lemma swap_at_same (a : list A) x b i : i = Z.of_nat (length a) → swap_at (a ++ x :: b) i i = Returned (a ++ x :: b).
Proof.
  intros Hi. unfold swap_at. rewrite at_int_middle by done. rewrite !bind_value. f_equal. subst i.
  assert (<[Z.to_nat (Z.of_nat (length a)):=x]> (a ++ x :: b) = a ++ x :: b) as Hid.
  { apply list_insert_id. rewrite Nat2Z.id. by apply list_lookup_middle. }
  by rewrite !Hid.
Qed.

Lemma swap_at_middle (a : list A) x b y c i j :
  i = Z.of_nat (length a) → j = Z.of_nat (length a) + 1 + Z.of_nat (length b) →
  swap_at (a ++ x :: b ++ y :: c) i j = Returned (a ++ y :: b ++ x :: c)
  ∧ swap_at (a ++ x :: b ++ y :: c) j i = Returned (a ++ y :: b ++ x :: c).
Proof.
  intros Hi Hj. unfold swap_at. rewrite (at_int_middle a x _ i Hi).
  assert (at_int (a ++ x :: b ++ y :: c) j = Returned y) as ->.
  { replace (a ++ x :: b ++ y :: c) with ((a ++ x :: b) ++ y :: c) by (by rewrite <-app_assoc).
    apply at_int_middle. rewrite length_app. cbn. lia. }
  rewrite !bind_value.
  assert (Z.to_nat i = length a) as -> by lia.
  assert (Z.to_nat j = length a + S (length b))%nat as -> by lia.
  assert (∀ z w : A, <[(length a + S (length b))%nat:=w]> (a ++ z :: b ++ y :: c) = a ++ z :: b ++ w :: c) as Hins.
  { intros z w. replace (a ++ z :: b ++ y :: c) with ((a ++ z :: b) ++ y :: c) by (by rewrite <-app_assoc).
    rewrite insert_app_r_alt by (rewrite length_app; cbn; lia). rewrite length_app. cbn [length].
    rewrite Nat.sub_diag. cbn. by rewrite <-app_assoc. }
  assert (∀ l (z w : A), <[length a:=w]> (a ++ z :: l) = a ++ w :: l) as Hins'.
  { intros l z w. rewrite <-(Nat.add_0_r (length a)), insert_app_r. done. }
  by rewrite Hins', Hins, Hins, Hins'.
Qed.

(** [swap(col[k], col[j])] where [j] is the start of a run [m] that ends just before
    [k]: the run moves right by one place, up to its order. *)
Lemma swap_before_run (a m : list A) x b j k :
  j = Z.of_nat (length a) → k = Z.of_nat (length a) + Z.of_nat (length m) →
  ∃ m', swap_at (a ++ m ++ x :: b) k j = Returned (a ++ x :: m' ++ b) ∧ m' ≡ₚ m.
Proof.
  intros Hj Hk. destruct m as [|y m].
  - exists []. cbn in *. assert (k = j) as -> by lia. by rewrite swap_at_same.
  - exists (m ++ [y]). split; [|by rewrite Permutation_app_comm].
    cbn [app]. rewrite (proj2 (swap_at_middle a y m x b j k Hj ltac:(cbn in *; lia))).
    by rewrite <-app_assoc.
Qed.

(** The same with the run on the other side. *)
Lemma swap_after_run (a m : list A) x b j k :
  k = Z.of_nat (length a) → j = Z.of_nat (length a) + Z.of_nat (length m) →
  ∃ m', swap_at (a ++ x :: m ++ b) k j = Returned (a ++ m' ++ x :: b) ∧ m' ≡ₚ m.
Proof.
  intros Hk Hj. destruct m as [|y m _] using rev_ind.
  - exists []. cbn in *. assert (k = j) as -> by lia. by rewrite swap_at_same.
  - exists (y :: m). split; [|by rewrite Permutation_app_comm].
    rewrite length_app in Hj. cbn in Hj. rewrite <-app_assoc. cbn [app].
    by rewrite (proj1 (swap_at_middle a x m y b k j Hk ltac:(lia))).
Qed.

End Indexing.

(** ** The ranged insertion sort *)
Section Insertion.
Context {A : Type} (less : A → A → bool).

Lemma insertion_sort_range_inner_spec pre x reversed post :
  insertion_sort_range_inner less (Z.of_nat (length pre)) (length reversed) (pre ++ rev reversed ++ x :: post)
  = Returned (pre ++ rev (insert_left less x reversed) ++ post).
Proof.
  revert post. induction reversed as [|y reversed IH]; intros post; [done|].
  cbn [length insertion_sort_range_inner rev insert_left].
  replace (pre ++ (rev reversed ++ [y]) ++ x :: post) with ((pre ++ rev reversed) ++ y :: [] ++ x :: post)
    by (by rewrite <-!app_assoc).
  assert (length (pre ++ rev reversed) = length pre + length reversed)%nat as Hl
    by (by rewrite length_app, length_rev).
  destruct (swap_at_middle (pre ++ rev reversed) y [] x post
    (Z.of_nat (length pre) + Z.of_nat (S (length reversed)) - 1)
    (Z.of_nat (length pre) + Z.of_nat (S (length reversed)))) as [_ Hswap]; [lia|cbn; lia|].
  replace ((pre ++ rev reversed) ++ y :: [] ++ x :: post) with ((pre ++ rev reversed ++ [y]) ++ x :: post) at 1
    by (by rewrite <-!app_assoc).
  rewrite (at_int_middle (pre ++ rev reversed ++ [y]) x post), bind_value
    by (rewrite !length_app, length_rev; cbn; lia).
  rewrite (at_int_middle (pre ++ rev reversed) y), bind_value by lia. destruct (less x y).
  - rewrite Hswap, bind_value. cbn [app]. rewrite <-app_assoc. rewrite IH. cbn [rev]. by rewrite <-app_assoc.
  - cbn [rev app]. by rewrite <-!app_assoc.
Qed.

Lemma insertion_sort_range_outer_spec pre reversed mid post :
  insertion_sort_range_outer less (length mid) (Z.of_nat (length pre)) (length reversed)
    (pre ++ rev reversed ++ mid ++ post)
  = Returned (pre ++ rev (sort_reversed less reversed mid) ++ post).
Proof.
  revert reversed. induction mid as [|x mid IH]; intros reversed; [done|].
  cbn [length insertion_sort_range_outer sort_reversed app].
  rewrite insertion_sort_range_inner_spec, bind_value.
  rewrite <-(insert_left_length less x). apply IH.
Qed.

Lemma insertion_sort_range_spec pre mid post :
  insertion_sort_range less (pre ++ mid ++ post) (Z.of_nat (length pre))
    (Z.of_nat (length pre) + Z.of_nat (length mid) - 1)
  = Returned (pre ++ rev (sort_reversed less [] mid) ++ post).
Proof.
  unfold insertion_sort_range. destruct mid as [|x mid].
  { cbn. by rewrite (proj1 (Z.leb_le 0 0)) || (replace (Z.to_nat _) with 0%nat by lia). }
  replace (Z.to_nat _) with (length mid) by (cbn; lia).
  exact (insertion_sort_range_outer_spec pre [x] mid post).
Qed.
End Insertion.

(** ** The partition *)
Section Partition.
Context {A : Type} (less : A → A → bool)
        (less_asymmetric : ∀ a b, less a b = true → less b a = false)
        (less_transitive : ∀ a b c, less b a = false → less c b = false → less c a = false).

(** Equal up to the grouping of [++]; and the lengths that give an index. *)
Local Ltac list_eq := repeat (progress (cbn [app]; rewrite <-?app_assoc)); reflexivity.
Local Ltac index_eq := repeat (progress (cbn [app length]; rewrite ?length_app)); lia.

Lemma scan_right_spec fuel a k rp (U R : list A) x b :
  k = Z.of_nat (length a) → (length U < fuel)%nat →
  ∃ V W, U = V ++ W ∧ Forall (λ y, less y rp = false) W
    ∧ match last V with Some y => less y rp = true | None => True end
    ∧ scan_right less fuel (a ++ x :: U ++ R ++ rp :: b)
        (k + 1 + Z.of_nat (length U) + Z.of_nat (length R)) k (k + Z.of_nat (length U))
      = Returned (k + Z.of_nat (length V)).
Proof.
  intros Hk. revert fuel R. induction U as [|y U IH] using rev_ind; intros fuel R Hf; destruct fuel as [|fuel]; try lia.
  - exists [], []. split_and!; [done..|]. cbn [scan_right app length].
    rewrite (at_int_is _ (a ++ x :: R) rp b (k + 1 + _ + _)), bind_value by (list_eq || index_eq).
    rewrite (at_int_is _ a x (R ++ rp :: b)), bind_value by (list_eq || index_eq).
    rewrite (proj2 (Z.ltb_ge k _)), andb_false_r by lia. done.
  - rewrite length_app in *. cbn [length] in *. cbn [scan_right].
    rewrite (at_int_is _ (a ++ x :: U ++ y :: R) rp b (k + 1 + _ + _)), bind_value by (list_eq || index_eq).
    rewrite (at_int_is _ (a ++ x :: U) y (R ++ rp :: b)), bind_value by (list_eq || index_eq).
    rewrite (proj2 (Z.ltb_lt k _)), andb_true_r by lia. destruct (less y rp) eqn:Ey; cbn [negb].
    + exists (U ++ [y]), []. rewrite app_nil_r, last_snoc, length_app. by split_and!.
    + destruct (IH fuel (y :: R) ltac:(lia)) as (V & W & -> & HW & HV & Hscan).
      exists V, (W ++ [y]). split_and!; [by rewrite <-app_assoc| |done|].
      * apply Forall_app. split; [done|by constructor].
      * rewrite <-Hscan. f_equal; [list_eq|cbn [length]; lia|lia].
Qed.

(** What the loop has established: less than the left pivot, between the pivots,
    not less than the right pivot. *)
Record partitioned (lp rp : A) (L M R : list A) : Prop := {
  part_left : Forall (λ x, less x lp = true) L;
  part_middle : Forall (λ x, less x lp = false ∧ less x rp = true) M;
  part_right : Forall (λ x, less x rp = false) R;
}.

Lemma partition_loop_done fuel col start end' j k g :
  g < k → partition_loop less (S fuel) col start end' j k g = Returned (col, j, g).
Proof. intros Hk. cbn [partition_loop]. by rewrite (proj2 (Z.leb_gt k g)) by lia. Qed.

Definition partition_result (pre : list A) (lp rp : A) (post all : list A) (r : outcome (list A * Z * Z)) : Prop :=
  ∃ L M R, r = Returned (pre ++ lp :: L ++ M ++ R ++ rp :: post,
      Z.of_nat (length pre) + 1 + Z.of_nat (length L), Z.of_nat (length pre) + Z.of_nat (length L) + Z.of_nat (length M))
    ∧ L ++ M ++ R ≡ₚ all ∧ partitioned lp rp L M R.

Lemma partition_result_permutation pre lp rp post all all' r :
  all ≡ₚ all' → partition_result pre lp rp post all r → partition_result pre lp rp post all' r.
Proof. intros Hp (L & M & R & ? & ? & ?). exists L, M, R. by rewrite <-Hp. Qed.

(** The loop partitions whatever is left between [k] and [g], with [fuel] turns. *)
Definition loop_ok (pre : list A) (lp rp : A) (post : list A) (fuel : nat) : Prop := ∀ L M U R,
  partitioned lp rp L M R → (length U < fuel)%nat →
  let start := Z.of_nat (length pre) in
  let j := start + 1 + Z.of_nat (length L) in
  let k := j + Z.of_nat (length M) in
  partition_result pre lp rp post (L ++ M ++ U ++ R)
    (partition_loop less fuel (pre ++ lp :: L ++ M ++ U ++ R ++ rp :: post)
       start (k + Z.of_nat (length U) + Z.of_nat (length R)) j k (k + Z.of_nat (length U) - 1)).

Section Step.
Context (pre : list A) (lp rp : A) (post : list A) (fuel : nat) (IH : loop_ok pre lp rp post fuel).
Context (L M U R : list A) (x : A) (HP : partitioned lp rp L M R) (HU : (length U < fuel)%nat).
Let start : Z := Z.of_nat (length pre).
Let j : Z := start + 1 + Z.of_nat (length L).
Let k : Z := j + Z.of_nat (length M).
Let end' : Z := k + 1 + Z.of_nat (length U) + Z.of_nat (length R).

(** [x] at [k] goes to the left part. *)
Lemma partition_step_left :
  less x lp = true →
  partition_result pre lp rp post (L ++ M ++ x :: U ++ R)
    (col ← swap_at (pre ++ lp :: L ++ M ++ x :: U ++ R ++ rp :: post) k j;
     partition_loop less fuel col start end' (j + 1) (k + 1) (k + Z.of_nat (length U))).
Proof.
  intros Hx. destruct HP as [HL HM HR].
  destruct (swap_before_run (pre ++ lp :: L) M x (U ++ R ++ rp :: post) j k) as (M' & Hswap & HM');
    [subst j start; index_eq..|].
  replace (pre ++ lp :: L ++ M ++ x :: U ++ R ++ rp :: post)
    with ((pre ++ lp :: L) ++ M ++ x :: U ++ R ++ rp :: post) by list_eq.
  rewrite Hswap, bind_value.
  replace ((pre ++ lp :: L) ++ x :: M' ++ U ++ R ++ rp :: post)
    with (pre ++ lp :: (L ++ [x]) ++ M' ++ U ++ R ++ rp :: post) by list_eq.
  apply Permutation_length in HM' as HMl.
  eapply partition_result_permutation; cycle 1.
  - specialize (IH (L ++ [x]) M' U R). cbn zeta in IH. fold start in IH.
    replace (start + 1 + Z.of_nat (length (L ++ [x]))) with (j + 1) in IH by (subst j; index_eq).
    replace (j + 1 + Z.of_nat (length M')) with (k + 1) in IH by (rewrite HMl; subst k; lia).
    replace (k + 1 + Z.of_nat (length U) - 1) with (k + Z.of_nat (length U)) in IH by lia.
    apply IH; [constructor; [|by rewrite HM'|done]|done]. apply Forall_app. split; [done|by constructor].
  - rewrite HM', <-!app_assoc. apply Permutation_app_head. cbn. by rewrite Permutation_middle.
Qed.

(** [x] at [k] stays in the middle part. *)
Lemma partition_step_middle :
  less x lp = false → less x rp = true →
  partition_result pre lp rp post (L ++ M ++ x :: U ++ R)
    (partition_loop less fuel (pre ++ lp :: L ++ M ++ x :: U ++ R ++ rp :: post) start end' j (k + 1)
       (k + Z.of_nat (length U))).
Proof.
  intros Hx Hx'. destruct HP as [HL HM HR].
  replace (pre ++ lp :: L ++ M ++ x :: U ++ R ++ rp :: post)
    with (pre ++ lp :: L ++ (M ++ [x]) ++ U ++ R ++ rp :: post) by list_eq.
  eapply partition_result_permutation; cycle 1.
  - specialize (IH L (M ++ [x]) U R). cbn zeta in IH. fold start j in IH.
    replace (j + Z.of_nat (length (M ++ [x]))) with (k + 1) in IH by (subst k; index_eq).
    replace (k + 1 + Z.of_nat (length U) - 1) with (k + Z.of_nat (length U)) in IH by lia.
    apply IH; [constructor; [done| |done]|done]. apply Forall_app. split; [done|by constructor].
  - by rewrite <-!app_assoc.
Qed.
End Step.

Lemma exchanged_unsorted (L M : list A) x V y W R :
  L ++ M ++ y :: V ++ x :: W ++ R ≡ₚ L ++ M ++ (x :: (V ++ [y]) ++ W) ++ R.
Proof.
  do 2 apply Permutation_app_head. cbn [app]. rewrite <-!app_assoc. cbn [app]. rewrite <-?app_assoc.
  rewrite <-(Permutation_middle V (W ++ R) x), <-(Permutation_middle V (W ++ R) y). constructor.
Qed.

Lemma partition_loop_spec pre lp rp post fuel : less rp lp = false → loop_ok pre lp rp post fuel.
Proof.
  intros Hpivots. induction fuel as [|fuel IH]; intros L M U R HP Hf start j k; [lia|].
  destruct U as [|x U].
  { rewrite partition_loop_done by (cbn; lia). exists L, M, R. subst k j start. cbn [app length].
    split_and!; [do 3 f_equal; lia|done..]. }
  cbn [partition_loop length]. rewrite (proj2 (Z.leb_le k _)) by lia. cbn [length] in Hf.
  set (col := pre ++ lp :: L ++ M ++ (x :: U) ++ R ++ rp :: post).
  replace (k + Z.of_nat (S (length U)) - 1) with (k + Z.of_nat (length U)) by lia.
  replace (k + Z.of_nat (S (length U)) + Z.of_nat (length R))
    with (k + 1 + Z.of_nat (length U) + Z.of_nat (length R)) by lia.
  rewrite (at_int_is col pre lp (L ++ M ++ (x :: U) ++ R ++ rp :: post) start), bind_value by done.
  rewrite (at_int_is col (pre ++ lp :: L ++ M ++ (x :: U) ++ R) rp post (k + 1 + _ + _)), bind_value
    by (subst col k j start; list_eq || index_eq).
  rewrite (at_int_is col (pre ++ lp :: L ++ M) x (U ++ R ++ rp :: post) k), bind_value
    by (subst col k j start; list_eq || index_eq).
  destruct (less x lp) eqn:Exl; [by apply partition_step_left; [..|lia|]|].
  destruct (less x rp) eqn:Exr; cbn [negb]; [by apply partition_step_middle; [..|lia| |]|].
  destruct (scan_right_spec (length col) (pre ++ lp :: L ++ M) k rp U R x post)
    as (V & W & -> & HW & HV & Hscan); [subst k j start; index_eq|subst col; index_eq|].
  replace ((pre ++ lp :: L ++ M) ++ x :: (V ++ W) ++ R ++ rp :: post) with col in Hscan by (subst col; list_eq).
  rewrite Hscan, bind_value. destruct HP as [HL HM HR].
  assert (partitioned lp rp L M (x :: W ++ R)) as HP'.
  { constructor; [done..|]. constructor; [done|]. by apply Forall_app. }
  destruct V as [|y V _] using rev_ind; [|clear Hscan].
  - replace col with ((pre ++ lp :: L ++ M) ++ x :: W ++ R ++ rp :: post) by (subst col; list_eq). cbn [length].
    replace (k + Z.of_nat 0) with k by lia.
    rewrite swap_at_same, bind_value by (subst k j start; index_eq).
    rewrite (at_int_is _ pre lp (L ++ M ++ x :: W ++ R ++ rp :: post) start), bind_value by (list_eq || done).
    rewrite (at_int_is _ (pre ++ lp :: L ++ M) x (W ++ R ++ rp :: post) k), bind_value
      by (done || (subst k j start; index_eq)).
    rewrite Exl. destruct fuel as [|fuel]; [cbn in Hf; lia|]. rewrite partition_loop_done by lia.
    exists L, M, (x :: W ++ R). subst k j start. split_and!; [|by list_eq|done].
    rewrite <-!app_assoc. cbn [app]. rewrite <-!app_assoc. do 2 f_equal. lia.
  - rewrite last_snoc in HV. rewrite !length_app in *. cbn [length] in *.
    destruct (swap_at_middle (pre ++ lp :: L ++ M) x V y (W ++ R ++ rp :: post) k (k + Z.of_nat (length V + 1)))
      as [Hswap _]; [subst k j start; index_eq|subst k j start; index_eq|].
    replace col with ((pre ++ lp :: L ++ M) ++ x :: V ++ y :: W ++ R ++ rp :: post) by (subst col; list_eq).
    rewrite Hswap, bind_value. clear Hswap col.
    set (col := pre ++ lp :: L ++ M ++ y :: V ++ (x :: W ++ R) ++ rp :: post).
    replace ((pre ++ lp :: L ++ M) ++ y :: V ++ x :: W ++ R ++ rp :: post) with col by (subst col; list_eq).
    rewrite (at_int_is col pre lp (L ++ M ++ y :: V ++ (x :: W ++ R) ++ rp :: post) start), bind_value by done.
    rewrite (at_int_is col (pre ++ lp :: L ++ M) y (V ++ (x :: W ++ R) ++ rp :: post) k), bind_value
      by (subst col k j start; list_eq || index_eq).
    replace (k + Z.of_nat (length V + 1) - 1) with (k + Z.of_nat (length V)) by lia.
    replace (k + 1 + Z.of_nat (length V + 1 + length W) + Z.of_nat (length R))
      with (k + 1 + Z.of_nat (length V) + Z.of_nat (length (x :: W ++ R))) by index_eq.
    apply (partition_result_permutation _ _ _ _ (L ++ M ++ y :: V ++ x :: W ++ R)); [apply exchanged_unsorted|].
    destruct (less y lp) eqn:Eyl; [by apply (partition_step_left _ _ _ _ _ IH); [..|lia|]|].
    by apply (partition_step_middle _ _ _ _ _ IH); [..|lia| |].
Qed.

(** ** The choice of the pivots *)
Lemma exchange (a : list A) x b y c : a ++ y :: b ++ x :: c ≡ₚ a ++ x :: b ++ y :: c.
Proof. apply Permutation_app_head. rewrite <-(Permutation_middle b c x), <-(Permutation_middle b c y). constructor. Qed.

Lemma two_positions (mid : list A) n :
  (2 * n + 2 ≤ length mid)%nat →
  ∃ A1 p B q C, mid = A1 ++ p :: B ++ q :: C ∧ length A1 = n ∧ length C = n.
Proof.
  intros Hn. destruct (lookup_lt_is_Some_2 mid n) as [p Hp]; [lia|].
  destruct (lookup_lt_is_Some_2 (drop (S n) mid) (length mid - S n - S n)) as [q Hq];
    [rewrite length_drop; lia|].
  exists (take n mid), p, (take (length mid - S n - S n) (drop (S n) mid)), q,
    (drop (S (length mid - S n - S n)) (drop (S n) mid)).
  rewrite (take_drop_middle _ _ _ Hq), (take_drop_middle _ _ _ Hp), length_take, !length_drop.
  split_and!; [done|lia..].
Qed.

(** The exchanges that bring the two chosen elements to the ends. *)
Lemma pivots_straight (m : A) A1 p B q C e :
  p :: (A1 ++ m :: B ++ e :: C) ++ [q] ≡ₚ m :: (A1 ++ p :: B ++ q :: C) ++ [e].
Proof.
  replace (m :: (A1 ++ p :: B ++ q :: C) ++ [e]) with ((m :: A1 ++ p :: B) ++ q :: C ++ [e]) by list_eq.
  rewrite <-(exchange (m :: A1 ++ p :: B) q C e []).
  replace ((m :: A1 ++ p :: B) ++ e :: C ++ [q]) with ([] ++ m :: A1 ++ p :: B ++ e :: C ++ [q]) by list_eq.
  rewrite <-(exchange [] m A1 p (B ++ e :: C ++ [q])). list_eq.
Qed.

Lemma pivots_crossed (m : A) A1 p B q C e :
  q :: (A1 ++ e :: B ++ m :: C) ++ [p] ≡ₚ m :: (A1 ++ p :: B ++ q :: C) ++ [e].
Proof.
  replace (m :: (A1 ++ p :: B ++ q :: C) ++ [e]) with ((m :: A1) ++ p :: (B ++ q :: C) ++ [e]) by list_eq.
  rewrite <-(exchange (m :: A1) p (B ++ q :: C) e []).
  replace ((m :: A1) ++ e :: (B ++ q :: C) ++ [p]) with ([] ++ m :: (A1 ++ e :: B) ++ q :: C ++ [p]) by list_eq.
  rewrite <-(exchange [] m (A1 ++ e :: B) q (C ++ [p])). list_eq.
Qed.

Lemma choose_pivots_spec pre mid post :
  (2 ≤ length mid)%nat →
  ∃ lp U rp, lp :: U ++ [rp] ≡ₚ mid ∧ less rp lp = false
    ∧ choose_pivots less (pre ++ mid ++ post) (Z.of_nat (length pre))
        (Z.of_nat (length pre) + Z.of_nat (length mid) - 1)
      = Returned (pre ++ lp :: U ++ rp :: post).
Proof.
  intros Hlen. destruct mid as [|m mid]; [cbn in Hlen; lia|]. destruct mid as [|e mid _] using rev_ind; [cbn in Hlen; lia|].
  clear Hlen. cbn [length]. rewrite length_app. cbn [length]. set (start := Z.of_nat (length pre)).
  unfold choose_pivots. replace (start + _ - 1) with (start + 1 + Z.of_nat (length mid)) by lia.
  set (end' := start + 1 + Z.of_nat (length mid)).
  replace (end' - start + 1) with (2 + Z.of_nat (length mid)) by lia.
  replace (pre ++ (m :: mid ++ [e]) ++ post) with (pre ++ m :: mid ++ e :: post) by list_eq.
  destruct (Z.ltb_spec 3 (2 + Z.of_nat (length mid))) as [Hbig|Hsmall]; cycle 1.
  { rewrite (at_int_is _ pre m (mid ++ e :: post) start), bind_value by done.
    rewrite (at_int_is _ (pre ++ m :: mid) e post end'), bind_value by (list_eq || (subst end' start; index_eq)).
    destruct (less m e) eqn:E; cbn [negb].
    - exists m, mid, e. by split_and!; [|apply less_asymmetric|].
    - exists e, mid, m. split_and!; [|done|].
      + rewrite Permutation_app_comm. cbn. by rewrite (Permutation_app_comm mid [e]), (perm_swap m e).
      + by rewrite (proj1 (swap_at_middle pre m mid e post start end' ltac:(done) ltac:(subst end' start; lia))). }
  set (third := Z.quot (2 + Z.of_nat (length mid)) 3).
  assert (1 ≤ third ∧ 2 * third ≤ Z.of_nat (length mid)) as Hthird by (subst third; div_lia).
  destruct (two_positions mid (Z.to_nat (third - 1))) as (A1 & p & B & q & C & -> & HA & HC); [lia|].
  clearbody third.
  assert (start + third = Z.of_nat (length (pre ++ m :: A1))) as Hp by (subst start; index_eq).
  assert (end' - third = Z.of_nat (length (pre ++ m :: A1 ++ p :: B))) as Hq by (subst end' start; index_eq).
  assert (end' = Z.of_nat (length (pre ++ m :: A1 ++ p :: B ++ q :: C))) as He by (subst end' start; index_eq).
  rewrite (at_int_is _ (pre ++ m :: A1) p (B ++ q :: C ++ e :: post) (start + third)), bind_value by (list_eq || done).
  rewrite (at_int_is _ (pre ++ m :: A1 ++ p :: B) q (C ++ e :: post) (end' - third)), bind_value by (list_eq || done).
  destruct (less p q) eqn:E.
  - exists p, (A1 ++ m :: B ++ e :: C), q. split_and!; [|by apply less_asymmetric|].
    + apply pivots_straight.
    + replace (pre ++ m :: (A1 ++ p :: B ++ q :: C) ++ e :: post) with (pre ++ m :: A1 ++ p :: B ++ q :: C ++ e :: post) by list_eq.
      rewrite (proj2 (swap_at_middle pre m A1 p (B ++ q :: C ++ e :: post) start (start + third)
        ltac:(done) ltac:(subst start; lia))), bind_value.
      replace (pre ++ p :: A1 ++ m :: B ++ q :: C ++ e :: post)
        with ((pre ++ p :: A1 ++ m :: B) ++ q :: C ++ e :: post) by list_eq.
      rewrite (proj1 (swap_at_middle (pre ++ p :: A1 ++ m :: B) q C e post (end' - third) end'
        ltac:(rewrite Hq; index_eq) ltac:(rewrite He; index_eq))). by f_equal; list_eq.
  - exists q, (A1 ++ e :: B ++ m :: C), p. split_and!; [|done|].
    + apply pivots_crossed.
    + replace (pre ++ m :: (A1 ++ p :: B ++ q :: C) ++ e :: post)
        with ((pre ++ m :: A1) ++ p :: (B ++ q :: C) ++ e :: post) by list_eq.
      rewrite (proj1 (swap_at_middle (pre ++ m :: A1) p (B ++ q :: C) e post (start + third) end'
        ltac:(done) ltac:(rewrite He; index_eq))), bind_value.
      replace ((pre ++ m :: A1) ++ e :: (B ++ q :: C) ++ p :: post)
        with (pre ++ m :: (A1 ++ e :: B) ++ q :: C ++ p :: post) by list_eq.
      rewrite (proj2 (swap_at_middle pre m (A1 ++ e :: B) q (C ++ p :: post) start (end' - third)
        ltac:(done) ltac:(rewrite Hq; subst start; index_eq))). by f_equal; list_eq.
Qed.

(** ** The sort *)
Notation sorted := (StronglySorted (λ a b, less b a = false)).

Lemma sorted_app l1 l2 :
  sorted l1 → sorted l2 → Forall (λ a, Forall (λ b, less b a = false) l2) l1 → sorted (l1 ++ l2).
Proof.
  induction 1 as [|a l1 Hs IH Ha]; intros Hl2 Hall; [done|]. apply Forall_cons in Hall as [Hal2 Hall].
  cbn. constructor; [by apply IH|]. by apply Forall_app.
Qed.

Lemma sorted_around_pivots lp rp L M R :
  less rp lp = false → partitioned lp rp L M R → sorted L → sorted M → sorted R →
  sorted (L ++ lp :: M ++ rp :: R).
Proof.
  intros Hp [HL HM HR] SL SM SR.
  assert (Forall (λ b, less b rp = false) R) as HrpR by done.
  assert (Forall (λ b, less b lp = false) (M ++ rp :: R)) as Hlp.
  { apply Forall_app. split; [by eapply Forall_impl; [exact HM|cbn; intros; tauto]|].
    constructor; [done|]. eapply Forall_impl; [exact HR|]. cbn. intros b Hb. by apply (less_transitive lp rp b). }
  apply sorted_app; [done| |].
  - constructor; [|done]. apply sorted_app; [done|by constructor|].
    eapply Forall_impl; [exact HM|]. cbn. intros a [_ Ha%less_asymmetric]. constructor; [done|].
    eapply Forall_impl; [exact HR|]. cbn. intros b Hb. by apply (less_transitive a rp b).
  - eapply Forall_impl; [exact HL|]. cbn. intros a Ha%less_asymmetric. constructor; [done|].
    eapply Forall_impl; [exact Hlp|]. cbn. intros b Hb. by apply (less_transitive a lp b).
Qed.

(** Sorting one range, which leaves the rest of the collection alone. *)
Definition sorts_range (fuel : nat) (entering : bool) (mid : list A) : Prop := ∀ pre post start end',
  start = Z.of_nat (length pre) → end' = Z.of_nat (length pre) + Z.of_nat (length mid) - 1 →
  ∃ mid', dual_pivot_quick_sort less fuel entering (pre ++ mid ++ post) start end' = Returned (pre ++ mid' ++ post)
    ∧ mid' ≡ₚ mid ∧ sorted mid'.

(** The three parts are sorted one after the other, in any order: sorting one of them
    leaves the pivots and the other two alone. *)
Section Parts.
Context (fuel : nat) (lp rp : A) (L M R pre post : list A).
Context (Hpivots : less rp lp = false) (HP : partitioned lp rp L M R).
Context (IH : ∀ b mid, (length mid ≤ length L + length M + length R)%nat → sorts_range fuel b mid).
Let start : Z := Z.of_nat (length pre).
Let lptr : Z := start + Z.of_nat (length L).
Let rptr : Z := lptr + 1 + Z.of_nat (length M).
Let end' : Z := rptr + Z.of_nat (length R).
Let sort b col s e := dual_pivot_quick_sort less fuel b col s e.
Let whole (L1 M1 R1 : list A) : list A := pre ++ L1 ++ lp :: M1 ++ rp :: R1 ++ post.

Lemma sort_left b L1 M1 R1 :
  L1 ≡ₚ L → ∃ L2, sort b (whole L1 M1 R1) start (lptr - 1) = Returned (whole L2 M1 R1) ∧ L2 ≡ₚ L ∧ sorted L2.
Proof.
  intros EL. apply Permutation_length in EL as El.
  destruct (IH b L1 ltac:(lia) pre (lp :: M1 ++ rp :: R1 ++ post) start (lptr - 1)) as (L2 & HL & HL2 & HS);
    [done|subst lptr start; lia|]. exists L2. split; [exact HL|]. by split; [etransitivity|].
Qed.

Lemma sort_middle b L1 M1 R1 :
  L1 ≡ₚ L → M1 ≡ₚ M →
  ∃ M2, sort b (whole L1 M1 R1) (lptr + 1) (rptr - 1) = Returned (whole L1 M2 R1) ∧ M2 ≡ₚ M ∧ sorted M2.
Proof.
  intros EL EM. apply Permutation_length in EL as El. apply Permutation_length in EM as Em.
  destruct (IH b M1 ltac:(lia) (pre ++ L1 ++ [lp]) (rp :: R1 ++ post) (lptr + 1) (rptr - 1)) as (M2 & HM & HM2 & HS);
    [subst lptr start; index_eq|subst rptr lptr start; index_eq|].
  exists M2. split; [|by split; [etransitivity|]]. subst sort whole. cbn beta.
  replace (pre ++ L1 ++ lp :: M1 ++ rp :: R1 ++ post) with ((pre ++ L1 ++ [lp]) ++ M1 ++ rp :: R1 ++ post) by list_eq.
  rewrite HM. f_equal. list_eq.
Qed.

Lemma sort_right b L1 M1 R1 :
  L1 ≡ₚ L → M1 ≡ₚ M → R1 ≡ₚ R →
  ∃ R2, sort b (whole L1 M1 R1) (rptr + 1) end' = Returned (whole L1 M1 R2) ∧ R2 ≡ₚ R ∧ sorted R2.
Proof.
  intros EL EM ER. apply Permutation_length in EL as El. apply Permutation_length in EM as Em.
  apply Permutation_length in ER as Er.
  destruct (IH b R1 ltac:(lia) (pre ++ L1 ++ lp :: M1 ++ [rp]) post (rptr + 1) end') as (R2 & HR & HR2 & HS);
    [subst rptr lptr start; index_eq|subst end' rptr lptr start; index_eq|].
  exists R2. split; [|by split; [etransitivity|]]. subst sort whole. cbn beta.
  replace (pre ++ L1 ++ lp :: M1 ++ rp :: R1 ++ post) with ((pre ++ L1 ++ lp :: M1 ++ [rp]) ++ R1 ++ post) by list_eq.
  rewrite HR. f_equal. list_eq.
Qed.

Let good (r : outcome (list A)) : Prop :=
  ∃ mid', r = Returned (pre ++ mid' ++ post) ∧ mid' ≡ₚ L ++ lp :: M ++ rp :: R ∧ sorted mid'.

Lemma sorted_parts_good L2 M2 R2 :
  L2 ≡ₚ L → M2 ≡ₚ M → R2 ≡ₚ R → sorted L2 → sorted M2 → sorted R2 → good (Returned (whole L2 M2 R2)).
Proof.
  intros EL EM ER ???. exists (L2 ++ lp :: M2 ++ rp :: R2). split_and!; [f_equal; list_eq|by rewrite EL, EM, ER|].
  apply sorted_around_pivots; [done| |done..]. destruct HP. constructor; by rewrite ?EL, ?EM, ?ER.
Qed.

Lemma sort_parts :
  good (col ← sort true (whole L M R) (lptr + 1) (rptr - 1); col ← sort true col (rptr + 1) end';
        sort false col start (lptr - 1))
  ∧ good (col ← sort true (whole L M R) start (lptr - 1); col ← sort true col (rptr + 1) end';
          sort false col (lptr + 1) (rptr - 1))
  ∧ good (col ← sort true (whole L M R) start (lptr - 1); col ← sort true col (lptr + 1) (rptr - 1);
          sort false col (rptr + 1) end').
Proof.
  split_and!.
  - destruct (sort_middle true L M R) as (M2 & -> & EM & HM); [done..|]. rewrite bind_value.
    destruct (sort_right true L M2 R) as (R2 & -> & ER & HR); [done..|]. rewrite bind_value.
    destruct (sort_left false L M2 R2) as (L2 & -> & EL & HL); [done..|]. by apply sorted_parts_good.
  - destruct (sort_left true L M R) as (L2 & -> & EL & HL); [done..|]. rewrite bind_value.
    destruct (sort_right true L2 M R) as (R2 & -> & ER & HR); [done..|]. rewrite bind_value.
    destruct (sort_middle false L2 M R2) as (M2 & -> & EM & HM); [done..|]. by apply sorted_parts_good.
  - destruct (sort_left true L M R) as (L2 & -> & EL & HL); [done..|]. rewrite bind_value.
    destruct (sort_middle true L2 M R) as (M2 & -> & EM & HM); [done..|]. rewrite bind_value.
    destruct (sort_right false L2 M2 R) as (R2 & -> & ER & HR); [done..|]. by apply sorted_parts_good.
Qed.
End Parts.

(** One turn of the loop: the pivots at their final places between the three parts. *)
Lemma pivots_placed pre mid post :
  (2 ≤ length mid)%nat →
  let start := Z.of_nat (length pre) in
  let end' := start + Z.of_nat (length mid) - 1 in
  ∃ lp rp L M R, less rp lp = false ∧ partitioned lp rp L M R ∧ L ++ lp :: M ++ rp :: R ≡ₚ mid
    ∧ let lptr := start + Z.of_nat (length L) in
      let rptr := lptr + 1 + Z.of_nat (length M) in
      ∀ B (k : Z → Z → list A → outcome B),
      (col ← choose_pivots less (pre ++ mid ++ post) start end';
       '(col, j, g) ← partition_loop less (length col) col start end' (start + 1) (start + 1) (end' - 1);
       col ← swap_at col start (j - 1); col ← swap_at col end' (g + 1); k (j - 1) (g + 1) col)
      = k lptr rptr (pre ++ L ++ lp :: M ++ rp :: R ++ post).
Proof.
  intros Hlen start end'.
  destruct (choose_pivots_spec pre mid post Hlen) as (lp & U & rp & Hmid & Hpivots & Hchoose).
  apply Permutation_length in Hmid as Hlm. cbn [length] in Hlm. rewrite length_app in Hlm. cbn [length] in Hlm.
  destruct (partition_loop_spec pre lp rp post (length (pre ++ lp :: U ++ rp :: post)) Hpivots [] [] U [])
    as (L & M & R & Hloop & Hperm & HP); [by repeat constructor|index_eq|].
  cbn [app length] in Hloop. fold start in Hloop. rewrite !Z.add_0_r in Hloop.
  replace (start + 1 + Z.of_nat (length U)) with end' in Hloop by (subst end'; lia).
  rewrite app_nil_r in Hperm. cbn [app] in Hperm.
  apply Permutation_length in Hperm as HlenU. rewrite !length_app in HlenU.
  destruct (swap_after_run pre L lp (M ++ R ++ rp :: post) (start + 1 + Z.of_nat (length L) - 1) start)
    as (L1 & Hswap1 & EL); [done|subst start; lia|].
  apply Permutation_length in EL as El.
  destruct (swap_before_run (pre ++ L1 ++ lp :: M) R rp post (start + Z.of_nat (length L) + Z.of_nat (length M) + 1) end')
    as (R1 & Hswap2 & ER); [subst start; index_eq|subst end' start; index_eq|].
  apply Permutation_length in ER as Er. exists lp, rp, L1, M, R1. split_and!; [done| | |].
  { destruct HP. constructor; by rewrite ?EL, ?ER. }
  { rewrite <-Hmid, <-Hperm, EL, ER. rewrite <-Permutation_middle. apply Permutation_skip. rewrite <-!app_assoc.
    do 2 apply Permutation_app_head. by rewrite Permutation_app_comm. }
  intros lptr rptr B k. subst start end'. rewrite Hchoose, bind_value, Hloop, bind_value, Hswap1, bind_value.
  replace (pre ++ L1 ++ lp :: M ++ R ++ rp :: post) with ((pre ++ L1 ++ lp :: M) ++ R ++ rp :: post) by list_eq.
  rewrite Hswap2, bind_value. f_equal; [subst lptr; lia|subst rptr lptr; lia|list_eq].
Qed.

Lemma dual_pivot_quick_sort_spec fuel entering mid : (length mid < fuel)%nat → sorts_range fuel entering mid.
Proof.
  revert entering mid. induction fuel as [|fuel IH]; intros entering mid Hf pre post start end' -> ->; [lia|].
  cbn [dual_pivot_quick_sort]. destruct (entering && _) eqn:Ecut.
  { rewrite insertion_sort_range_spec. eexists. split; [done|]. split.
    - rewrite <-Permutation_rev. by rewrite sort_reversed_permutation.
    - apply (StronglySorted_rev (not_greater less)). by apply sort_reversed_sorted; [..|constructor]. }
  destruct (Z.ltb_spec (Z.of_nat (length pre)) (Z.of_nat (length pre) + Z.of_nat (length mid) - 1)) as [Hlt|Hge]; cycle 1.
  { exists mid. split_and!; [done..|]. destruct mid as [|x [|y mid]]; [constructor|by repeat constructor|cbn in Hge; lia]. }
  destruct (pivots_placed pre mid post ltac:(lia)) as (lp & rp & L & M & R & Hpivots & HP & Hperm & Hstep).
  apply Permutation_length in Hperm as Hlen. rewrite length_app in Hlen. cbn [length] in Hlen.
  rewrite length_app in Hlen. cbn [length] in Hlen.
  pose proof (sort_parts fuel lp rp L M R pre post Hpivots HP ltac:(intros b l Hl; apply IH; lia)) as Hparts.
  cbn zeta in Hstep, Hparts.
  replace (Z.of_nat (length pre) + Z.of_nat (length L) + 1 + Z.of_nat (length M) + Z.of_nat (length R))
    with (Z.of_nat (length pre) + Z.of_nat (length mid) - 1) in Hparts by lia.
  set (good := λ r, ∃ mid', r = Returned (pre ++ mid' ++ post) ∧ mid' ≡ₚ L ++ lp :: M ++ rp :: R ∧ sorted mid').
  assert (∀ r, good r → ∃ mid', r = Returned (pre ++ mid' ++ post) ∧ mid' ≡ₚ mid ∧ sorted mid') as Hweaken.
  { intros r (mid' & ? & Hp & ?). exists mid'. split_and!; [done|by rewrite Hp|done]. }
  apply Hweaken. clear Hweaken. set (start := Z.of_nat (length pre)). set (end' := start + Z.of_nat (length mid) - 1).
  eapply (eq_ind_r good); [|exact (Hstep _ (sort_parts_in_order (dual_pivot_quick_sort less fuel) start end'))].
  unfold sort_parts_in_order. destruct Hparts as (H1 & H2 & H3). do 2 (case_goal; [done|]). done.
Qed.

End Partition.

Lemma quick_sort_correct {A} (less : A → A → bool) (l : list A)
    (less_asymmetric : ∀ a b, less a b = true → less b a = false)
    (less_transitive : ∀ a b c, less b a = false → less c b = false → less c a = false)
    (Hlen : Z.of_nat (length l) < 2 ^ 31) :
  ∃ l', quick_sort less l = Returned l' ∧ l' ≡ₚ l ∧ StronglySorted (λ a b, less b a = false) l'.
Proof.
  destruct (dual_pivot_quick_sort_spec less less_asymmetric less_transitive (S (S (length l))) true l ltac:(lia)
    [] [] 0 (Z.of_nat (length l) - 1)) as (l' & Hsort & Hperm & Hsorted); [done|cbn; lia|].
  exists l'. split; [|done]. unfold quick_sort. cbn [app] in Hsort. rewrite !app_nil_r in Hsort.
  rewrite Z.mod_small by lia. rewrite <-Hsort. f_equal. lia.
Qed.

(** C17: [quick_sort] sorts: for every strict weak order and every collection that an
    [int] can index, the dual-pivot quick sort returns (no index leaves the
    collection and every loop ends) a permutation of the collection in which no
    element is less than one before it. *)
Theorem quick_sort_sorts {A} (less : A → A → bool) (l : list A)
    (less_asymmetric : ∀ a b, less a b = true → less b a = false)
    (less_transitive : ∀ a b c, less b a = false → less c b = false → less c a = false)
    (Hlen : Z.of_nat (length l) < 2 ^ 31) :
  ∃ l', quick_sort less l = Returned l' ∧ l' ≡ₚ l ∧ StronglySorted (λ a b, less b a = false) l'.
Proof. by apply quick_sort_correct. Qed.

Lemma quick_sort_sorts_witness :
  ∃ l', quick_sort Z.ltb [5; 3; 9; 1; 5; 8; 2; 7; 0; 6; 4] = Returned l'
    ∧ l' = [0; 1; 2; 3; 4; 5; 5; 6; 7; 8; 9] ∧ StronglySorted (λ a b, (b <? a) = false) l'.
Proof.
  destruct (quick_sort_sorts Z.ltb [5; 3; 9; 1; 5; 8; 2; 7; 0; 6; 4]) as (l' & Hsort & _ & Hsorted);
    [intros; lia..|cbn; lia|].
  exists l'. split; [done|]. split; [|done]. vm_compute in Hsort. by injection Hsort as <-.
Defined.
