(* ===== verification/HttpHeader.v ===== *)
(** * LibHTTP/Header.cpp: header names, values, splitting and ranges

    A header is a pair of byte strings.  [get_decode_and_split_header_value]
    splits a value at the commas outside quoted strings; the range parsers read
    [u64]s, an optional number being [None] where the source has an empty
    [Optional]. *)
From S2P Require Import Prelude CharacterTypes Externals Utf8 StringView Utf8View Format Ipv4 TextCodec QuickSort GenericLexer Http.

Record Header := mk_header { header_name : bytes; header_value : bytes }.

#[global] Instance Header_eq_dec : EqDecision Header.
Proof. solve_decision. Defined.

Definition header_isomorphic_encode (name value : bytes) : Header :=
  mk_header (isomorphic_encode name) (isomorphic_encode value).

Definition is_header_name (header_name : bytes) : bool :=
  negb (bool_decide (header_name = [])) && forallb is_http_token_code_point header_name.

Definition is_header_value (header_value : bytes) : outcome bool :=
  if bool_decide (header_value = []) then Returned true
  else
    first_byte ← at_index header_value 0;
    last_byte ← at_index header_value (length header_value - 1);
    if is_http_tab_or_space first_byte || is_http_tab_or_space last_byte then Returned false
    else Returned (negb (existsb (λ byte, (byte =? 0) || is_http_newline byte) header_value)).

Definition normalize_header_value (potential_value : bytes) : bytes :=
  if bool_decide (potential_value = []) then [] else trim potential_value HTTP_WHITESPACE TrimBoth.

(** [for (auto& part : value.split(','))] *)
Fixpoint extract_tokens (parts : list bytes) : option (list bytes) :=
  match parts with
  | [] => Some []
  | part :: parts =>
      let trimmed := trim part HTTP_WHITESPACE TrimBoth in
      if bool_decide (trimmed = []) then extract_tokens parts
      else if negb (is_header_name trimmed) then None
      else cons trimmed <$> extract_tokens parts
  end.

Definition extract_token_headers (value : bytes) : outcome (option (list bytes)) :=
  parts ← split_view value [c_comma] SplitNothing;
  Returned (extract_tokens parts).

Definition extract_header_values (header : Header) : outcome (option (list bytes)) :=
  if is_one_of_ignoring_ascii_case (header_name header)
       [sv "Access-Control-Expose-Headers"; sv "Access-Control-Allow-Headers"; sv "Access-Control-Allow-Methods"]
  then extract_token_headers (header_value header)
  else if is_one_of_ignoring_ascii_case (header_name header)
       [sv "Access-Control-Request-Headers"; sv "Accept-Ranges"] then
    headers ← extract_token_headers (header_value header);
    Returned (match headers with
      | Some [] => None
      | Some headers => Some headers
      | None => None
      end)
  else Returned (Some [header_value header]).

Section Split.
Context `{Simdutf}.

(** Steps 5.3 to 5.8: the value is complete; [continue] is the next turn. *)
Definition append_header_value (continue : GenericLexer → list bytes → outcome (list bytes))
    (lexer : GenericLexer) (builder : bytes) (values : list bytes) : outcome (list bytes) :=
  s ← from_utf8 (trim builder HTTP_TAB_OR_SPACE TrimBoth);
  temporary_value ← must s;
  let values := values ++ [temporary_value] in
  if is_eof lexer then Returned values
  else verify (peek lexer 0 =? c_comma) (continue (ignore lexer 1) values).

(** Step 5: [builder] is [temporary_value_builder]. *)
Fixpoint split_header_loop (fuel : nat) (lexer : GenericLexer) (builder : bytes) (values : list bytes)
    : outcome (list bytes) :=
  match fuel with
  | O => OutOfFuel
  | S fuel =>
      '(part, lexer) ← consume_until (is_any_of [c_quote; c_comma]) lexer;
      let builder := builder ++ part in
      let continue lexer values := split_header_loop fuel lexer [] values in
      if negb (is_eof lexer) && (peek lexer 0 =? c_quote) then
        '(quoted, lexer) ← collect_an_http_quoted_string lexer ExtractNo;
        let builder := builder ++ quoted in
        if negb (is_eof lexer) then split_header_loop fuel lexer builder values
        else append_header_value continue lexer builder values
      else append_header_value continue lexer builder values
  end.

Definition get_decode_and_split_header_value (value : bytes) : outcome (list bytes) :=
  let input := isomorphic_decode value in
  split_header_loop (S (length input)) (lexer_of input) [] [].

Definition is_forbidden_request_header (header : Header) : outcome bool :=
  let name := header_name header in
  if is_one_of_ignoring_ascii_case name
       [sv "Accept-Charset"; sv "Accept-Encoding"; sv "Access-Control-Request-Headers";
        sv "Access-Control-Request-Method"; sv "Connection"; sv "Content-Length"; sv "Cookie";
        sv "Cookie2"; sv "Date"; sv "DNT"; sv "Expect"; sv "Host"; sv "Keep-Alive"; sv "Origin";
        sv "Referer"; sv "Set-Cookie"; sv "TE"; sv "Trailer"; sv "Transfer-Encoding"; sv "Upgrade"; sv "Via"]
  then Returned true
  else if starts_with name (sv "proxy-") CaseInsensitive || starts_with name (sv "sec-") CaseInsensitive
  then Returned true
  else if is_one_of_ignoring_ascii_case name
       [sv "X-HTTP-Method"; sv "X-HTTP-Method-Override"; sv "X-Method-Override"] then
    parsed_values ← get_decode_and_split_header_value (header_value header);
    Returned (existsb is_forbidden_method parsed_values)
  else Returned false.

End Split.

Definition is_forbidden_response_header_name (header_name : bytes) : bool :=
  is_one_of_ignoring_ascii_case header_name [sv "Set-Cookie"; sv "Set-Cookie2"].

(** [StringView::compare(...) < 0]: the bytes of the common prefix, then the lengths. *)
Fixpoint bytes_less (a b : bytes) : bool :=
  match a, b with
  | [], [] => false
  | [], _ :: _ => true
  | _ :: _, [] => false
  | x :: a, y :: b => if x =? y then bytes_less a b else x <? y
  end.

(** The first name of every class of names that differ in case only, in order:
    [header_names_seen] compares without case. *)
Fixpoint unique_ignoring_case (seen : list bytes) (names : list bytes) : list bytes :=
  match names with
  | [] => []
  | name :: names =>
      if existsb (equals_ignoring_ascii_case name) seen then unique_ignoring_case seen names
      else name :: unique_ignoring_case (name :: seen) names
  end.

Definition convert_header_names_to_a_sorted_lowercase_set (header_names : list bytes) : outcome (list bytes) :=
  quick_sort bytes_less (map (map to_ascii_lowercase) (unique_ignoring_case [] header_names)).

Definition build_content_range (range_start range_end full_length : Z) : outcome bytes :=
  s ← format_decimal range_start;
  e ← format_decimal range_end;
  n ← format_decimal full_length;
  Returned (sv "bytes " ++ s ++ sv "-" ++ e ++ sv "/" ++ n).

Record RangeHeaderValue := mk_range { range_start : option Z; range_end : option Z }.

Section Ranges.
Context `{FastFloat}.

Definition skip_tab_or_space (allow_whitespace : bool) (lexer : GenericLexer) : GenericLexer :=
  if allow_whitespace then ignore_while is_http_tab_or_space lexer else lexer.

Definition parse_single_range_header_value (value : bytes) (allow_whitespace : bool)
    : outcome (option RangeHeaderValue) :=
  let data := isomorphic_decode value in
  if negb (starts_with data (sv "bytes") CaseSensitive) then Returned None
  else
    let lexer := ignore (lexer_of data) 5 in
    let lexer := skip_tab_or_space allow_whitespace lexer in
    let '(matched, lexer) := consume_specific lexer c_equals in
    if negb matched then Returned None
    else
      let lexer := skip_tab_or_space allow_whitespace lexer in
      '(range_start, lexer) ← consume_while is_ascii_digit lexer;
      let range_start_value := to_number u64_max 10 range_start TrimWhitespaceYes in
      let lexer := skip_tab_or_space allow_whitespace lexer in
      let '(matched, lexer) := consume_specific lexer c_minus in
      if negb matched then Returned None
      else
        let lexer := skip_tab_or_space allow_whitespace lexer in
        '(range_end, lexer) ← consume_while is_ascii_digit lexer;
        let range_end_value := to_number u64_max 10 range_end TrimWhitespaceYes in
        if negb (is_eof lexer) then Returned None
        else match range_end_value, range_start_value with
        | None, None => Returned None
        | Some e, Some s => if e <? s then Returned None else Returned (Some (mk_range (Some s) (Some e)))
        | _, _ => Returned (Some (mk_range range_start_value range_end_value))
        end.

End Ranges.

(** ** Splitting outside quoted strings

    The reference: a comma separates two values unless it is inside a quoted
    string, in which a backslash escapes the next character. *)
Inductive QuoteState := Outside | Inside | Escaped.

Fixpoint split_quoted (state : QuoteState) (current s : bytes) : list bytes :=
  match s with
  | [] => [current]
  | c :: s =>
      match state with
      | Outside =>
          if c =? c_comma then current :: split_quoted Outside [] s
          else split_quoted (if c =? c_quote then Inside else Outside) (current ++ [c]) s
      | Inside =>
          split_quoted (if c =? c_quote then Outside else if c =? c_backslash then Escaped else Inside)
            (current ++ [c]) s
      | Escaped => split_quoted Inside (current ++ [c]) s
      end
  end.

Lemma split_quoted_plain part cur s :
  Forall (λ c, is_any_of [c_quote; c_comma] c = false) part →
  split_quoted Outside cur (part ++ s) = split_quoted Outside (cur ++ part) s.
Proof.
  intros Hpart. revert cur. induction Hpart as [|c part Hc _ IH]; intros cur; [by rewrite app_nil_r|].
  cbn [app split_quoted]. cbn in Hc. rewrite orb_false_r in Hc. apply orb_false_iff in Hc as [Hq Hc].
  rewrite Hc, Hq, IH. by rewrite <-app_assoc.
Qed.

Lemma split_quoted_inside s cur :
  split_quoted Inside cur s =
  split_quoted Outside (cur ++ take (length s - length (quoted_value s).2) s) (quoted_value s).2.
Proof.
  revert cur. induction s as [s IH] using (induction_ltof1 _ length). unfold ltof in IH. intros cur.
  destruct s as [|c s]; [by rewrite app_nil_r|]. cbn [split_quoted quoted_value].
  assert (∀ t : bytes, (length (quoted_value t).2 ≤ length t)%nat) as Hle.
  { intros t. destruct (quoted_value_suffix t) as (p & E & _). rewrite E at 2. rewrite length_app. lia. }
  destruct (Z.eqb_spec c c_quote) as [->|Hq].
  { cbn [fst snd length]. replace (S (length s) - length s)%nat with 1%nat by lia. done. }
  destruct (Z.eqb_spec c c_backslash) as [->|Hb].
  - destruct s as [|d s]; [done|]. cbn [split_quoted]. rewrite IH by (cbn; lia). specialize (Hle s).
    destruct (quoted_value s) as [v r]. cbn [fst snd length] in *.
    replace (S (S (length s)) - length r)%nat with (S (S (length s - length r))) by lia.
    cbn [take]. by rewrite <-!app_assoc.
  - rewrite IH by (cbn; lia). specialize (Hle s).
    destruct (quoted_value s) as [v r]. cbn [fst snd length] in *.
    replace (S (length s) - length r)%nat with (S (length s - length r)) by lia.
    cbn [take]. by rewrite <-app_assoc.
Qed.

Lemma trim_left_valid s chars :
  Forall (λ c, c < 0x80) chars → valid_utf8 s → valid_utf8 (trim_left s chars).
Proof.
  intros Hc. induction s as [|c s IH]; intros Hv; [done|]. cbn [trim_left].
  destruct (contains_char chars c) eqn:E; [|done]. apply IH, (valid_utf8_tail c); [|done].
  unfold contains_char in E. apply existsb_exists in E as (d & Hd & ->%Z.eqb_eq).
  rewrite List.Forall_forall in Hc. auto.
Qed.

Lemma trim_right_valid s chars :
  Forall (λ c, c < 0x80) chars → valid_utf8 s → valid_utf8 (trim_right s chars).
Proof.
  intros Hc. unfold trim_right. induction s as [|c s IH] using rev_ind; intros Hv; [done|].
  rewrite rev_unit. cbn [trim_left]. destruct (contains_char chars c) eqn:E.
  - apply IH, (valid_utf8_snoc s c); [|done].
    unfold contains_char in E. apply existsb_exists in E as (d & Hd & ->%Z.eqb_eq).
    rewrite List.Forall_forall in Hc. auto.
  - cbn [rev]. by rewrite rev_involutive.
Qed.

Lemma trim_valid s chars mode :
  Forall (λ c, c < 0x80) chars → valid_utf8 s → valid_utf8 (trim s chars mode).
Proof. intros Hc Hv. destruct mode; cbn [trim]; auto using trim_left_valid, trim_right_valid. Qed.

Lemma http_whitespace_ascii :
  Forall (λ c, c < 0x80) HTTP_TAB_OR_SPACE ∧ Forall (λ c, c < 0x80) HTTP_WHITESPACE.
Proof. split; repeat constructor. Qed.

Section SplitCorrect.
Context `{SimdutfOk}.

Lemma append_header_value_spec continue l b values r :
  remaining l = r → valid_utf8 b →
  append_header_value continue l b values =
    let values := values ++ [trim b HTTP_TAB_OR_SPACE TrimBoth] in
    match r with
    | [] => Returned values
    | c :: _ => verify (c =? c_comma) (continue (ignore l 1) values)
    end.
Proof.
  intros Hr Hb. unfold append_header_value.
  rewrite from_utf8_valid by (by apply trim_valid; [apply http_whitespace_ascii|]).
  rewrite bind_value. cbn [must]. rewrite bind_value. rewrite is_eof_remaining, peek_remaining, Hr.
  by destruct r.
Qed.

(** A quoted string in the middle of a value. *)
Lemma collect_quoted_raw l rest :
  valid_utf8 (m_input l) → remaining l = c_quote :: rest →
  ∃ p q, rest = p ++ q ∧ collect_an_http_quoted_string l ExtractNo = Returned (c_quote :: p, lexer_at l q)
    ∧ remaining (lexer_at l q) = q ∧ lexer_ok (lexer_at l q)
    ∧ ∀ cur, split_quoted Outside cur (c_quote :: rest) = split_quoted Outside (cur ++ c_quote :: p) q.
Proof.
  intros Hv Hr. destruct (quoted_value_suffix rest) as (p & Hp & _). set (q := (quoted_value rest).2) in *.
  assert (length rest = length p + length q)%nat as Hlen by (rewrite Hp at 1; apply length_app).
  exists p, q. split; [done|]. split; [|split; [|split]].
  - rewrite (collect_quoted_spec l rest) by done. fold q. rewrite Hr. cbn [length].
    replace (S (length rest) - length q)%nat with (S (length p)) by lia. cbn [take].
    by rewrite Hp, take_app_length.
  - apply (remaining_lexer_at l (take (m_index l) (m_input l) ++ c_quote :: p)).
    rewrite <-app_assoc. cbn [app]. rewrite <-Hp, <-Hr. unfold remaining. by rewrite take_drop.
  - unfold lexer_ok, lexer_at. cbn. lia.
  - intros cur. cbn [split_quoted Z.eqb Pos.eqb]. rewrite split_quoted_inside. fold q.
    replace (length rest - length q)%nat with (length p) by lia.
    rewrite Hp at 1. by rewrite take_app_length, <-app_assoc.
Qed.

Lemma split_header_loop_spec fuel l builder values :
  lexer_ok l → valid_utf8 (m_input l) → valid_utf8 (builder ++ remaining l) →
  (length (remaining l) < fuel)%nat →
  split_header_loop fuel l builder values = Returned
    (values ++ map (λ p, trim p HTTP_TAB_OR_SPACE TrimBoth) (split_quoted Outside builder (remaining l))).
Proof.
  revert l builder values. induction fuel as [|fuel IH]; intros l builder values Hok Hin Hv Hf; [lia|].
  cbn [split_header_loop]. unfold consume_until. rewrite consume_while_returns by done. rewrite bind_value.
  set (pred := λ c, negb _).
  destruct (scan_while_spec pred (remaining l)) as [Hpart Hstop].
  pose proof (take_drop (scan_while pred (remaining l)) (remaining l)) as Hsplit.
  pose proof (remaining_ignore_while pred l) as Hr. pose proof (ignore_while_ok pred l Hok) as Hok1.
  set (part := take _ _) in *. remember (drop _ _) as rest eqn:Erest. clear Erest.
  set (l1 := ignore_while pred l) in *.
  assert (Forall (λ c, is_any_of [c_quote; c_comma] c = false) part) as Hplain.
  { eapply Forall_impl; [exact Hpart|]. cbn beta. intros c Hc. by apply negb_true_iff in Hc. }
  rewrite <-Hsplit, split_quoted_plain by done. rewrite <-Hsplit, app_assoc in Hv. rewrite <-Hsplit, length_app in Hf.
  change (m_input l) with (m_input l1) in Hin. clearbody l1 part.
  rewrite is_eof_remaining, Hr. destruct rest as [|c rest].
  { rewrite bool_decide_eq_true_2 by done. cbn [negb andb]. rewrite app_nil_r in Hv.
    by rewrite (append_header_value_spec _ l1 _ _ [] Hr Hv). }
  rewrite bool_decide_eq_false_2 by done. cbn [negb andb]. rewrite peek_remaining, Hr. cbn [head default id].
  cbn [length] in Hf. destruct (Z.eqb_spec c c_quote) as [->|Hnq].
  - destruct (collect_quoted_raw l1 rest Hin Hr) as (p & q & -> & -> & Hrq & Hokq & Hq).
    rewrite bind_value, Hq, is_eof_remaining, Hrq. rewrite length_app in Hf.
    destruct q as [|d q].
    + rewrite app_nil_r in Hv. rewrite bool_decide_eq_true_2 by done. cbn [negb].
      rewrite (append_header_value_spec _ _ _ _ [] Hrq); [done|done].
    + rewrite bool_decide_eq_false_2 by done. cbn [negb]. rewrite <-Hrq at 2.
      apply IH; [done|exact Hin| |rewrite Hrq; lia]. rewrite Hrq, <-app_assoc. exact Hv.
  - apply negb_false_iff in Hstop. cbn in Hstop. rewrite (proj2 (Z.eqb_neq c c_quote)), orb_false_r in Hstop by done.
    cbn [orb] in Hstop. apply Z.eqb_eq in Hstop as ->.
    apply (valid_utf8_split_ascii _ c_comma) in Hv as [Hv1 Hv2]; [|done].
    rewrite (append_header_value_spec _ l1 _ _ _ Hr Hv1). cbn [Z.eqb Pos.eqb verify split_quoted map].
    destruct (remaining_cons _ _ _ Hr) as (_ & _ & Hr2 & Hok2 & _).
    rewrite IH; [by rewrite Hr2, <-app_assoc|done|exact Hin|by rewrite Hr2|rewrite Hr2; lia].
Qed.

Lemma header_split_spec (value : bytes) (Hbytes : Forall is_byte value) :
  get_decode_and_split_header_value value = Returned
    (map (λ p, trim p HTTP_TAB_OR_SPACE TrimBoth) (split_quoted Outside [] (isomorphic_decode value))).
Proof.
  pose proof (isomorphic_decode_valid value Hbytes) as Hv. unfold get_decode_and_split_header_value.
  rewrite split_header_loop_spec; [done|unfold lexer_ok; cbn; lia|done|done|].
  unfold remaining, lexer_of. cbn [m_index m_input]. rewrite drop_0. lia.
Qed.

(** C25: Getting, decoding and splitting a header value returns, for every byte
    string, the text between the commas that are outside quoted strings, each with
    its tabs and spaces trimmed: the lexer-driven loop agrees with a three-state
    reference scanner, no [VERIFY] or [MUST] fails and at least one value results. *)
Theorem header_split_reference (value : bytes) (Hbytes : Forall is_byte value) :
  get_decode_and_split_header_value value = Returned
    (map (λ p, trim p HTTP_TAB_OR_SPACE TrimBoth) (split_quoted Outside [] (isomorphic_decode value))).
Proof. by apply header_split_spec. Qed.

End SplitCorrect.

(** ** Sets of names *)
Lemma existsb_ignoring_case name seen :
  existsb (equals_ignoring_ascii_case name) seen = true ↔ lowercase_bytes name ∈ map (map to_ascii_lowercase) seen.
Proof.
  rewrite existsb_exists, list_elem_of_In, in_map_iff. split; intros (x & H1 & H2); exists x.
  - split; [|done]. symmetry. by apply equals_ignoring_ascii_case_lowercase.
  - split; [done|]. by apply equals_ignoring_ascii_case_lowercase.
Qed.

Lemma unique_ignoring_case_spec seen names :
  NoDup (map (map to_ascii_lowercase) (unique_ignoring_case seen names))
  ∧ ∀ n, n ∈ map (map to_ascii_lowercase) (unique_ignoring_case seen names) ↔
      n ∈ map (map to_ascii_lowercase) names ∧ n ∉ map (map to_ascii_lowercase) seen.
Proof.
  revert seen. induction names as [|name names IH]; intros seen; cbn [unique_ignoring_case map].
  { split; [constructor|]. intros n. set_solver. }
  destruct (existsb _ seen) eqn:E.
  - apply existsb_ignoring_case in E. destruct (IH seen) as [Hnd Hin]. split; [done|].
    intros n. rewrite Hin, elem_of_cons. naive_solver.
  - assert (lowercase_bytes name ∉ map (map to_ascii_lowercase) seen) as Hn.
    { rewrite <-existsb_ignoring_case, E. done. }
    destruct (IH (name :: seen)) as [Hnd Hin]. cbn [map] in *. split.
    + constructor; [|done]. rewrite Hin. set_solver.
    + intros n. rewrite !elem_of_cons, Hin, elem_of_cons. split; [naive_solver|].
      intros [[->|?] ?]; [by left|]. destruct (decide (n = lowercase_bytes name)); naive_solver.
Qed.

Lemma bytes_less_asymmetric a b : bytes_less a b = true → bytes_less b a = false.
Proof.
  revert b. induction a as [|x a IH]; intros [|y b]; cbn; try done.
  rewrite (Z.eqb_sym y x). destruct (Z.eqb_spec x y); [apply IH|lia].
Qed.

Lemma bytes_less_transitive a b c :
  bytes_less b a = false → bytes_less c b = false → bytes_less c a = false.
Proof.
  revert b c. induction a as [|x a IH]; intros [|y b] [|z c]; cbn; try done.
  destruct (Z.eqb_spec y x), (Z.eqb_spec z y), (Z.eqb_spec z x); try lia; subst; try done; intros; try lia.
  by apply (IH b).
Qed.

Lemma bytes_less_total a b : bytes_less a b = false → bytes_less b a = false → a = b.
Proof.
  revert b. induction a as [|x a IH]; intros [|y b]; cbn; try done.
  rewrite (Z.eqb_sym y x). destruct (Z.eqb_spec x y) as [->|]; [|lia]. intros. f_equal. by apply IH.
Qed.

(** The names of the sorted set: strictly ascending, each the lower case of a name
    of the list, and none missing. *)
Lemma convert_header_names_spec names :
  Z.of_nat (length names) < 2 ^ 31 →
  ∃ l, convert_header_names_to_a_sorted_lowercase_set names = Returned l
    ∧ Sorted.StronglySorted (λ a b, bytes_less a b = true) l
    ∧ ∀ n, n ∈ l ↔ n ∈ map (map to_ascii_lowercase) names.
Proof.
  intros Hlen. destruct (unique_ignoring_case_spec [] names) as [Hnd Hin].
  assert (∀ seen, length (unique_ignoring_case seen names) ≤ length names)%nat as Hle.
  { clear. induction names as [|n names IH]; intros seen; cbn; [lia|]. case_match; cbn; [rewrite IH; lia|].
    specialize (IH (n :: seen)). lia. }
  destruct (quick_sort_correct bytes_less (map (map to_ascii_lowercase) (unique_ignoring_case [] names))
    bytes_less_asymmetric bytes_less_transitive) as (l & Hsort & Hperm & Hsorted).
  { rewrite length_map. specialize (Hle []). lia. }
  exists l. split_and!; [done| |].
  - rewrite <-Hperm in Hnd. clear -Hnd Hsorted. induction Hsorted as [|a l Hs IH Ha]; [constructor|].
    apply NoDup_cons in Hnd as [Hn Hnd]. constructor; [by apply IH|].
    rewrite Forall_forall in Ha |- *. intros b Hb. destruct (bytes_less a b) eqn:E; [done|].
    exfalso. apply Hn. by rewrite (bytes_less_total a b E (Ha b Hb)).
  - intros n. rewrite Hperm, Hin. set_solver.
Qed.

(** ** Ranges *)
Section RangesCorrect.
Context `{FastFloatOk}.

(** A sequence of digits as the source reads it: nothing when there is no digit, and
    nothing when the number does not fit. *)
Definition u64_of_digits (ds : bytes) : option Z :=
  if bool_decide (ds = []) then None
  else if digits_value 10 0 ds <=? u64_max then Some (digits_value 10 0 ds) else None.

Lemma trim_digits ds : Forall (λ c, is_ascii_digit c = true) ds → trim_whitespace ds TrimBoth = ds.
Proof.
  intros Hd. assert (∀ t, Forall (λ c, is_ascii_digit c = true) t → trim_left t whitespace_characters = t) as Hleft.
  { intros t [|c t' Hc _]; [done|]. cbn [trim_left].
    assert (contains_char whitespace_characters c = false) as -> by (unfold_ctypes; cbn; lia). done. }
  unfold trim_whitespace, trim, trim_right. rewrite (Hleft ds Hd), (Hleft (rev ds)) by (by apply Forall_rev).
  apply rev_involutive.
Qed.

Lemma to_number_digits ds :
  Forall (λ c, is_ascii_digit c = true) ds → to_number u64_max 10 ds TrimWhitespaceYes = u64_of_digits ds.
Proof.
  intros Hd. unfold to_number, u64_of_digits. rewrite trim_digits by done. rewrite parse_number_spec by lia.
  rewrite (forallb_ext (is_digit_in 10) is_ascii_digit) by apply is_digit_in_10.
  rewrite (proj2 (forallb_Forall _ _)) by done. by case_bool_decide.
Qed.

Lemma skip_tab_or_space_none b l rest :
  remaining l = rest → stops is_http_tab_or_space rest → lexer_ok l →
  remaining (skip_tab_or_space b l) = rest ∧ lexer_ok (skip_tab_or_space b l).
Proof.
  intros Hr Hs Hok. destruct b; [|done]. cbn [skip_tab_or_space]. rewrite remaining_ignore_while, Hr.
  split; [|by apply ignore_while_ok]. destruct rest as [|c rest]; [done|]. cbn [scan_while]. cbn in Hs. by rewrite Hs.
Qed.

Lemma stops_digits_then ds rest :
  Forall (λ c, is_ascii_digit c = true) ds → stops is_http_tab_or_space rest → stops is_http_tab_or_space (ds ++ rest).
Proof. intros [|c ds' Hc _] Hr; [done|]. cbn. unfold is_http_tab_or_space. unfold_ctypes. lia. Qed.

Lemma range_header_value_spec ds de allow_whitespace :
  Forall (λ c, is_ascii_digit c = true) ds → Forall (λ c, is_ascii_digit c = true) de →
  parse_single_range_header_value (sv "bytes=" ++ ds ++ sv "-" ++ de) allow_whitespace = Returned (
    match u64_of_digits ds, u64_of_digits de with
    | None, None => None
    | Some s, Some e => if e <? s then None else Some (mk_range (Some s) (Some e))
    | s, e => Some (mk_range s e)
    end).
Proof.
  intros Hds Hde. unfold parse_single_range_header_value.
  assert (∀ t, Forall (λ c, is_ascii_digit c = true) t → Forall (λ b, 0 ≤ b < 0x80) t) as Hascii.
  { intros t Ht. eapply Forall_impl; [exact Ht|]. cbn beta. intros c. unfold_ctypes. lia. }
  rewrite isomorphic_decode_ascii; cycle 1.
  { repeat apply Forall_app_2; try (by apply Hascii); repeat (constructor; [cbn; lia|]); constructor. }
  set (data := sv "bytes=" ++ ds ++ sv "-" ++ de).
  assert (starts_with data (sv "bytes") CaseSensitive = true) as -> by done. cbn [negb].
  destruct (ignore_app (lexer_of data) (sv "bytes") (sv "=" ++ ds ++ sv "-" ++ de)) as [Hr0 Hok0];
    [unfold lexer_ok; cbn; lia|done|]. change (length (sv "bytes")) with 5%nat in *.
  destruct (skip_tab_or_space_none allow_whitespace _ _ Hr0 ltac:(done) Hok0) as [Hr1 Hok1].
  destruct (consume_specific_cons _ c_equals (ds ++ sv "-" ++ de) Hr1) as (l2 & -> & Hr2 & Hok2 & _). cbn [negb].
  destruct (skip_tab_or_space_none allow_whitespace l2 _ Hr2) as [Hr3 Hok3]; [by apply stops_digits_then|done|].
  destruct (consume_while_app is_ascii_digit _ ds (sv "-" ++ de) Hok3 Hr3) as (l4 & -> & Hr4 & Hok4 & _); [done..|].
  rewrite bind_value, to_number_digits by done.
  destruct (skip_tab_or_space_none allow_whitespace l4 _ Hr4 ltac:(done) Hok4) as [Hr5 Hok5].
  destruct (consume_specific_cons _ c_minus de Hr5) as (l6 & -> & Hr6 & Hok6 & _). cbn [negb].
  rewrite <-(app_nil_r de) in Hr6.
  destruct (skip_tab_or_space_none allow_whitespace l6 _ Hr6) as [Hr7 Hok7]; [by apply stops_digits_then|done|].
  destruct (consume_while_app is_ascii_digit _ de [] Hok7 Hr7) as (l8 & -> & Hr8 & Hok8 & _); [done..|].
  rewrite bind_value, to_number_digits by done. rewrite is_eof_remaining, Hr8. cbn [negb].
  rewrite bool_decide_eq_true_2 by done. cbn [negb].
  destruct (u64_of_digits ds), (u64_of_digits de); try done. by case_goal.
Qed.

(** A single range "bytes=<start>-<end>" is read digit string by digit string: a
    number that is missing or does not fit in 64 bits is null, both null or an end
    before the start is a failure.  In particular a start beyond 64 bits is not
    refused: the range becomes the suffix range of its end. *)
Theorem range_header_value_read (ds de : bytes) (allow_whitespace : bool)
    (Hds : Forall (λ c, is_ascii_digit c = true) ds) (Hde : Forall (λ c, is_ascii_digit c = true) de) :
  parse_single_range_header_value (sv "bytes=" ++ ds ++ sv "-" ++ de) allow_whitespace = Returned (
    match u64_of_digits ds, u64_of_digits de with
    | None, None => None
    | Some s, Some e => if e <? s then None else Some (mk_range (Some s) (Some e))
    | s, e => Some (mk_range s e)
    end).
Proof. by apply range_header_value_spec. Qed.

End RangesCorrect.

#[local] Existing Instances simdutf_example simdutf_example_ok.

Lemma header_split_reference_witness :
  let quoted := [c_quote] ++ sv "b,\" ++ [c_quote] ++ sv "c" ++ [c_quote] in
  get_decode_and_split_header_value (sv "a, " ++ quoted ++ sv " ,d") = Returned [sv "a"; quoted; sv "d"].
Proof.
  cbn zeta. rewrite header_split_reference; [reflexivity|].
  repeat apply Forall_app_2; try apply sv_bytes; (constructor; [unfold is_byte; lia|constructor]).
Defined.

#[local] Existing Instances fast_float_example fast_float_example_ok.

Lemma range_header_value_read_witness :
  parse_single_range_header_value (sv "bytes=18446744073709551616-5") false
  = Returned (Some (mk_range None (Some 5))).
Proof.
  change (sv "bytes=18446744073709551616-5") with (sv "bytes=" ++ sv "18446744073709551616" ++ sv "-" ++ sv "5").
  rewrite range_header_value_read; [reflexivity|repeat (constructor; [reflexivity|]); constructor..].
Defined.
