(* ===== verification/HttpHeaderList.v ===== *)
(** * LibHTTP/HeaderList.cpp: lists of headers

    One definition per method of [HeaderList]; the list is the state.  Lookups
    ignore the case of names. *)
From S2P Require Import Prelude CharacterTypes Externals Utf8 StringView Utf8View Format Ipv4 TextCodec QuickSort GenericLexer Http HttpHeader.

Notation HeaderList := (list Header) (only parsing).

Module HeaderListOps.

(** [header.name.equals_ignoring_ascii_case(name)] *)
Definition has_name (name : bytes) (header : Header) : bool :=
  equals_ignoring_ascii_case (header_name header) name.

Definition contains (m_headers : HeaderList) (name : bytes) : bool := existsb (has_name name) m_headers.

Fixpoint get_loop (m_headers : HeaderList) (name builder : bytes) (first : bool) : bytes :=
  match m_headers with
  | [] => builder
  | header :: m_headers =>
      if negb (has_name name header) then get_loop m_headers name builder first
      else
        let builder := if negb first then builder ++ sv ", " else builder in
        get_loop m_headers name (builder ++ header_value header) false
  end.

Definition get (m_headers : HeaderList) (name : bytes) : option bytes :=
  if negb (contains m_headers name) then None else Some (get_loop m_headers name [] true).

Definition get_decode_and_split `{Simdutf} (m_headers : HeaderList) (name : bytes)
    : outcome (option (list bytes)) :=
  match get m_headers name with
  | None => Returned None
  | Some value => values ← get_decode_and_split_header_value value; Returned (Some values)
  end.

Definition append (m_headers : HeaderList) (header : Header) : HeaderList :=
  let matching_header := List.find (has_name (header_name header)) m_headers in
  let header := match matching_header with
    | Some matching => mk_header (header_name matching) (header_value header)
    | None => header
    end in
  m_headers ++ [header].

Definition delete_ (m_headers : HeaderList) (name : bytes) : HeaderList :=
  List.filter (λ header, negb (has_name name header)) m_headers.

(** [find_if]: the position of the first match. *)
Fixpoint find_index (m_headers : HeaderList) (name : bytes) : option nat :=
  match m_headers with
  | [] => None
  | header :: m_headers =>
      if has_name name header then Some 0%nat else S <$> find_index m_headers name
  end.

(** [remove_all_matching] with the position [i] of the predicate. *)
Fixpoint remove_after (m_headers : HeaderList) (i index : nat) (name : bytes) : HeaderList :=
  match m_headers with
  | [] => []
  | header :: m_headers =>
      if (i <=? index)%nat then header :: remove_after m_headers (S i) index name
      else if has_name name header then remove_after m_headers (S i) index name
      else header :: remove_after m_headers (S i) index name
  end.

Definition set (m_headers : HeaderList) (header : Header) : outcome HeaderList :=
  match find_index m_headers (header_name header) with
  | Some index =>
      it ← at_index m_headers index;
      let it := mk_header (header_name it) (header_value header) in
      let m_headers := <[index := it]> m_headers in
      Returned (remove_after m_headers 0 index (header_name it))
  | None => Returned (append m_headers header)
  end.

Fixpoint combine_first (m_headers : HeaderList) (header : Header) : option HeaderList :=
  match m_headers with
  | [] => None
  | existing :: m_headers =>
      if has_name (header_name header) existing then
        Some (mk_header (header_name existing)
                (header_value existing ++ sv ", " ++ header_value header) :: m_headers)
      else cons existing <$> combine_first m_headers header
  end.

Definition combine (m_headers : HeaderList) (header : Header) : HeaderList :=
  match combine_first m_headers header with
  | Some m_headers => m_headers
  | None => append m_headers header
  end.

(** [for (auto& name : names)] *)
Fixpoint sort_and_combine_loop (m_headers : HeaderList) (names : list bytes) : outcome HeaderList :=
  match names with
  | [] => Returned []
  | name :: names =>
      here ←
        (if bool_decide (name = sv "set-cookie") then
           Returned (map (λ header, mk_header name (header_value header)) (List.filter (has_name name) m_headers))
         else value ← must (get m_headers name); Returned [mk_header name value]);
      rest ← sort_and_combine_loop m_headers names;
      Returned (here ++ rest)
  end.

Definition sort_and_combine (m_headers : HeaderList) : outcome HeaderList :=
  names ← convert_header_names_to_a_sorted_lowercase_set (map header_name m_headers);
  sort_and_combine_loop m_headers names.

(** [Variant<Empty, Vector<ByteString>, ExtractHeaderParseFailure>] and its like. *)
Inductive Extracted (A : Type) : Type :=
| ExtractedEmpty
| ExtractedValue (a : A)
| ExtractedFailure.
Arguments ExtractedEmpty {A}.
Arguments ExtractedValue {A} a.
Arguments ExtractedFailure {A}.

Fixpoint extract_values_loop (m_headers : HeaderList) (name : bytes) (values : list bytes)
    : outcome (Extracted (list bytes)) :=
  match m_headers with
  | [] => Returned (ExtractedValue values)
  | header :: m_headers =>
      if negb (has_name name header) then extract_values_loop m_headers name values
      else
        extract ← extract_header_values header;
        match extract with
        | None => Returned ExtractedFailure
        | Some extract => extract_values_loop m_headers name (values ++ extract)
        end
  end.

Definition extract_header_list_values (m_headers : HeaderList) (name : bytes)
    : outcome (Extracted (list bytes)) :=
  if negb (contains m_headers name) then Returned ExtractedEmpty
  else extract_values_loop m_headers name [].

(** Step 4 of [extract_length]: [None] is the failure. *)
Fixpoint candidate_loop (values : list bytes) (candidate_value : option bytes) : option (option bytes) :=
  match values with
  | [] => Some candidate_value
  | value :: values =>
      match candidate_value with
      | None => candidate_loop values (Some value)
      | Some candidate => if negb (bool_decide (candidate = value)) then None else candidate_loop values candidate_value
      end
  end.

Definition extract_length `{Simdutf} `{FastFloat} (m_headers : HeaderList) : outcome (Extracted Z) :=
  values ← get_decode_and_split m_headers (sv "Content-Length");
  match values with
  | None => Returned ExtractedEmpty
  | Some values =>
      match candidate_loop values None with
      | None => Returned ExtractedFailure
      | Some candidate_value =>
          candidate ← must candidate_value;
          Returned (match to_number u64_max 10 candidate TrimWhitespaceNo with
            | None => ExtractedEmpty
            | Some result => ExtractedValue result
            end)
      end
  end.

Record ContentRangeValues := mk_content_range {
  first_byte_pos : Z;
  last_byte_pos : Z;
  complete_length : option Z;
}.

Definition parse_single_byte_content_range_as_values `{FastFloat} (string : bytes)
    : outcome (option ContentRangeValues) :=
  let lexer := lexer_of string in
  '(matched, lexer) ← consume_specific_view lexer (sv "bytes ");
  if negb matched then Returned None
  else
    '(first, lexer) ← consume_decimal_integer_u64 lexer;
    match first with
    | None => Returned None
    | Some first =>
        let '(matched, lexer) := consume_specific lexer c_minus in
        if negb matched then Returned None
        else
          '(last, lexer) ← consume_decimal_integer_u64 lexer;
          match last with
          | None => Returned None
          | Some last =>
              let '(matched, lexer) := consume_specific lexer c_slash in
              if negb matched then Returned None
              else
                let '(matched, lexer) := consume_specific lexer c_asterisk in
                if matched then
                  Returned (if negb (is_eof lexer) then None else Some (mk_content_range first last None))
                else
                  '(complete, lexer) ← consume_decimal_integer_u64 lexer;
                  match complete with
                  | None => Returned None
                  | Some complete =>
                      Returned (if negb (is_eof lexer) then None
                                else Some (mk_content_range first last (Some complete)))
                  end
          end
    end.

(** [None] is [ExtractContentRangeFailure]. *)
Definition extract_content_range_values `{FastFloat} (m_headers : HeaderList)
    : outcome (option ContentRangeValues) :=
  match get m_headers (sv "Content-Range") with
  | None => Returned None
  | Some content_range_value => parse_single_byte_content_range_as_values content_range_value
  end.

Definition unique_names (m_headers : HeaderList) : list bytes :=
  unique_ignoring_case [] (map header_name m_headers).

Definition delete_all_matching (callback : Header → bool) (m_headers : HeaderList) : HeaderList :=
  List.filter (λ header, negb (callback header)) m_headers.

(** The values a [for_each_header_value] callback is given, up to the one for
    which it returns [IterationDecision::Break] ([true]). *)
Fixpoint for_each_header_value (m_headers : HeaderList) (name : bytes) (breaks : bytes → bool) : list bytes :=
  match m_headers with
  | [] => []
  | header :: m_headers =>
      if negb (has_name name header) then for_each_header_value m_headers name breaks
      else if breaks (header_value header) then [header_value header]
      else header_value header :: for_each_header_value m_headers name breaks
  end.

End HeaderListOps.
Export HeaderListOps.

(** ** The abstract header list

    What a header list promises its clients: for every name, case aside, the
    values in order.  The operations on that view are the specification the list
    operations implement. *)
Definition header_map : Type := bytes → list bytes.

Definition lowercase (name : bytes) : bytes := map to_ascii_lowercase name.

(** The values of a name; the argument is a name in lower case. *)
Definition values_of (l : HeaderList) : header_map := λ name,
  header_value <$> List.filter (λ h, bool_decide (lowercase (header_name h) = name)) l.

Definition update_values (m : header_map) (name : bytes) (values : list bytes) : header_map :=
  λ n, if bool_decide (n = lowercase name) then values else m n.

Module HeaderMap.
Definition append_values (m : header_map) (h : Header) : header_map :=
  update_values m (header_name h) (m (lowercase (header_name h)) ++ [header_value h]).
Definition delete_values (m : header_map) (name : bytes) : header_map := update_values m name [].
Definition set_values (m : header_map) (h : Header) : header_map := update_values m (header_name h) [header_value h].
Definition combine_values (m : header_map) (h : Header) : header_map :=
  update_values m (header_name h)
    (match m (lowercase (header_name h)) with
     | [] => [header_value h]
     | v :: vs => (v ++ sv ", " ++ header_value h) :: vs
     end).
Fixpoint join (vs : list bytes) : bytes :=
  match vs with
  | [] => []
  | [v] => v
  | v :: vs => v ++ sv ", " ++ join vs
  end.
Definition get_combined (m : header_map) (name : bytes) : option bytes :=
  match m (lowercase name) with [] => None | vs => Some (join vs) end.
End HeaderMap.

Lemma has_name_lowercase name h :
  has_name name h = bool_decide (lowercase (header_name h) = lowercase name).
Proof.
  unfold has_name. apply eq_bool_prop_intro. rewrite !Is_true_true, bool_decide_eq_true.
  apply equals_ignoring_ascii_case_lowercase.
Qed.

Lemma values_of_has_name l name :
  values_of l (lowercase name) = header_value <$> List.filter (has_name name) l.
Proof. unfold values_of. f_equal. apply filter_ext. intros h. by rewrite has_name_lowercase. Qed.

Lemma values_of_cons h l n :
  values_of (h :: l) n =
  if bool_decide (n = lowercase (header_name h)) then header_value h :: values_of l n else values_of l n.
Proof.
  unfold values_of. cbn [List.filter]. destruct (decide (n = lowercase (header_name h))) as [->|N].
  - by rewrite !bool_decide_eq_true_2 by done.
  - by rewrite !bool_decide_eq_false_2 by done.
Qed.

Lemma values_of_app l l' n : values_of (l ++ l') n = values_of l n ++ values_of l' n.
Proof. unfold values_of. by rewrite List.filter_app, fmap_app. Qed.

Lemma values_of_append l h n : values_of (append l h) n = HeaderMap.append_values (values_of l) h n.
Proof.
  unfold append, HeaderMap.append_values, update_values. rewrite values_of_app.
  assert (∀ h', lowercase (header_name h') = lowercase (header_name h) → header_value h' = header_value h →
    values_of [h'] n = if bool_decide (n = lowercase (header_name h)) then [header_value h] else []) as Hone.
  { intros h' Hn Hv. rewrite values_of_cons, Hn, Hv. by case_match. }
  assert (values_of l n ++ (if bool_decide (n = lowercase (header_name h)) then [header_value h] else []) =
    if bool_decide (n = lowercase (header_name h)) then values_of l (lowercase (header_name h)) ++ [header_value h]
    else values_of l n) as Hadd by (case_bool_decide; subst; [done|by rewrite app_nil_r]).
  rewrite <-Hadd. f_equal. destruct (List.find _ l) as [m|] eqn:E; apply Hone; try done.
  apply List.find_some in E as [_ E]. rewrite has_name_lowercase in E. by apply bool_decide_eq_true in E.
Qed.

Lemma values_of_delete l name n : values_of (delete_ l name) n = HeaderMap.delete_values (values_of l) name n.
Proof.
  unfold delete_, HeaderMap.delete_values, update_values. induction l as [|h l IH]; [by case_bool_decide|].
  cbn [List.filter]. rewrite has_name_lowercase, values_of_cons.
  destruct (decide (lowercase (header_name h) = lowercase name)) as [E|E].
  - rewrite bool_decide_eq_true_2 by done. cbn [negb]. rewrite IH, E. by case_bool_decide.
  - rewrite (bool_decide_eq_false_2 (lowercase (header_name h) = lowercase name)) by done. cbn [negb].
    rewrite values_of_cons, IH. case_bool_decide as E1; [|done]. subst n.
    by rewrite bool_decide_eq_false_2.
Qed.

(** The list up to and with the first header of a name. *)
Lemma find_index_split l name :
  match find_index l name with
  | None => Forall (λ h, has_name name h = false) l
  | Some i => ∃ before h after, l = before ++ h :: after ∧ i = length before
      ∧ Forall (λ h, has_name name h = false) before ∧ has_name name h = true
  end.
Proof.
  induction l as [|h l IH]; cbn; [done|]. destruct (has_name name h) eqn:E.
  { by exists [], h, l. }
  destruct (find_index l name) as [i|]; cbn.
  - destruct IH as (before & h' & after & -> & -> & Hb & Hh). exists (h :: before), h', after.
    split_and!; [done..| |done]. by constructor.
  - by constructor.
Qed.

Lemma remove_after_split before h after name :
  remove_after (before ++ h :: after) 0 (length before) name = before ++ h :: delete_ after name.
Proof.
  assert (∀ l i index, (index < i)%nat → remove_after l i index name = delete_ l name) as Hpast.
  { intros l. induction l as [|x l IH]; intros i index Hi; [done|]. cbn [remove_after delete_ List.filter].
    rewrite (proj2 (Nat.leb_gt i index)) by done. unfold delete_ in IH.
    destruct (has_name name x); cbn [negb]; rewrite IH by lia; done. }
  assert (∀ n, remove_after (before ++ h :: after) n (n + length before) name = before ++ h :: delete_ after name) as Hgen.
  { induction before as [|x before IH]; intros n; cbn [app remove_after length].
    - rewrite (proj2 (Nat.leb_le n _)) by lia. by rewrite Hpast by lia.
    - rewrite (proj2 (Nat.leb_le n _)) by lia. f_equal. rewrite <-(IH (S n)). f_equal. lia. }
  apply (Hgen 0%nat).
Qed.

Lemma values_of_without l name :
  Forall (λ h, has_name name h = false) l → values_of l (lowercase name) = [].
Proof.
  intros Hl. rewrite values_of_has_name. induction Hl as [|h l Hh _ IH]; [done|]. cbn. by rewrite Hh.
Qed.

Lemma lowercase_eq_has_name h h' name :
  header_name h = header_name h' → has_name name h = has_name name h'.
Proof. unfold has_name. by intros ->. Qed.

(** What [set] does to the list. *)
Lemma set_spec l h :
  (Forall (λ h', has_name (header_name h) h' = false) l ∧ set l h = Returned (append l h))
  ∨ ∃ before h0 after, l = before ++ h0 :: after
      ∧ Forall (λ h', has_name (header_name h) h' = false) before ∧ has_name (header_name h) h0 = true
      ∧ set l h = Returned (before ++ mk_header (header_name h0) (header_value h) :: delete_ after (header_name h0)).
Proof.
  unfold set. pose proof (find_index_split l (header_name h)) as Hf.
  destruct (find_index l (header_name h)) as [i|]; [right|by left].
  destruct Hf as (before & h0 & after & -> & -> & Hb & Hh). exists before, h0, after. split_and!; [done..|].
  rewrite (at_index_lt _ _ h0), bind_value by (by apply list_lookup_middle).
  rewrite <-(Nat.add_0_r (length before)) at 1. rewrite insert_app_r. cbn. by rewrite remove_after_split.
Qed.

Lemma values_of_set l h l' n : set l h = Returned l' → values_of l' n = HeaderMap.set_values (values_of l) h n.
Proof.
  intros Hset. unfold HeaderMap.set_values, update_values.
  destruct (set_spec l h) as [[Hl E]|(before & h0 & after & -> & Hb & Hh & E)];
    rewrite E in Hset; injection Hset as <-.
  - rewrite values_of_append. unfold HeaderMap.append_values, update_values. by rewrite values_of_without.
  - rewrite has_name_lowercase in Hh. apply bool_decide_eq_true in Hh.
    rewrite !values_of_app, !values_of_cons, values_of_delete. cbn [header_name header_value].
    unfold HeaderMap.delete_values, update_values. rewrite Hh. case_bool_decide as En; [|done]. subst n.
    by rewrite values_of_without.
Qed.

Lemma values_of_combine l h n : values_of (combine l h) n = HeaderMap.combine_values (values_of l) h n.
Proof.
  unfold combine.
  assert (match combine_first l h with
    | Some l' => HeaderMap.combine_values (values_of l) h n = values_of l' n ∧ values_of l (lowercase (header_name h)) ≠ []
    | None => values_of l (lowercase (header_name h)) = []
    end) as Hc; cycle 1.
  { destruct (combine_first l h); [by destruct Hc as [-> _]|]. rewrite values_of_append.
    unfold HeaderMap.combine_values, HeaderMap.append_values, update_values. by rewrite Hc. }
  unfold HeaderMap.combine_values, update_values. induction l as [|x l IH]; [done|]. cbn [combine_first].
  rewrite !values_of_cons, has_name_lowercase.
  destruct (decide (lowercase (header_name x) = lowercase (header_name h))) as [E|E].
  - rewrite bool_decide_eq_true_2 by done. rewrite values_of_cons. cbn [header_name header_value]. rewrite E.
    rewrite (bool_decide_eq_true_2 (lowercase (header_name h) = _)) by done. split; [|done].
    by case_bool_decide as En; [rewrite En|].
  - rewrite (bool_decide_eq_false_2 (lowercase (header_name x) = _)) by done.
    rewrite (bool_decide_eq_false_2 (lowercase (header_name h) = _)) by (by intros ?; apply E).
    destruct (combine_first l h) as [l'|]; [change (cons x <$> Some l') with (Some (x :: l')); cbv iota beta|done].
    destruct IH as [IH Hne]. split; [|done].
    rewrite values_of_cons, <-IH. case_bool_decide as E1; case_bool_decide as E2; subst; done || congruence.
Qed.

Lemma get_loop_join l name builder :
  get_loop l name builder true = builder ++ HeaderMap.join (values_of l (lowercase name))
  ∧ get_loop l name builder false = builder ++ concat (map (λ v, sv ", " ++ v) (values_of l (lowercase name))).
Proof.
  assert (∀ v vs, HeaderMap.join (v :: vs) = v ++ concat (map (λ v, sv ", " ++ v) vs)) as Hjoin.
  { intros v vs. revert v. induction vs as [|w vs IH]; intros v; [cbn; by rewrite app_nil_r|].
    change (HeaderMap.join (v :: w :: vs)) with (v ++ sv ", " ++ HeaderMap.join (w :: vs)). rewrite IH.
    cbn [map concat]. by rewrite <-!app_assoc. }
  revert builder. induction l as [|h l IH]; intros builder; cbn [get_loop].
  { by rewrite !app_nil_r. }
  rewrite values_of_cons, has_name_lowercase.
  destruct (decide (lowercase (header_name h) = lowercase name)) as [E|E].
  - rewrite !bool_decide_eq_true_2 by done. cbn [negb]. rewrite !(proj2 (IH _)), Hjoin. cbn [map concat].
    by rewrite <-!app_assoc.
  - rewrite !bool_decide_eq_false_2 by congruence. cbn [negb]. apply IH.
Qed.

Lemma contains_values l name :
  contains l name = match values_of l (lowercase name) with [] => false | _ :: _ => true end.
Proof.
  unfold contains. induction l as [|h l IH]; [done|]. cbn [existsb]. rewrite values_of_cons, has_name_lowercase, IH.
  destruct (decide (lowercase (header_name h) = lowercase name)) as [E|E].
  - rewrite E. by rewrite bool_decide_eq_true_2.
  - rewrite (bool_decide_eq_false_2 (lowercase (header_name h) = _)) by done.
    by rewrite (bool_decide_eq_false_2 (lowercase name = _)) by congruence.
Qed.

Lemma get_values l name : get l name = HeaderMap.get_combined (values_of l) name.
Proof.
  unfold get, HeaderMap.get_combined. rewrite contains_values, (proj1 (get_loop_join _ _ _)).
  by destruct (values_of l (lowercase name)).
Qed.

Lemma set_returns l h : returns (set l h).
Proof. destruct (set_spec l h) as [[_ ->]|(before & h0 & after & _ & _ & _ & ->)]; apply returns_intro. Qed.

(** C26: [HeaderList] implements a map from case-insensitive names to the values in
    order: [append] adds at the end, [delete_] forgets the name, [set] leaves one
    value, [combine] extends the first value, [get] joins the values with ", " and
    [contains] says whether there is one; no other name is affected. *)
Theorem header_list_refines (l : HeaderList) (h : Header) (name : bytes) :
  get l name = HeaderMap.get_combined (values_of l) name
  ∧ contains l name = bool_decide (is_Some (HeaderMap.get_combined (values_of l) name))
  ∧ (∀ n, values_of (append l h) n = HeaderMap.append_values (values_of l) h n)
  ∧ (∀ n, values_of (delete_ l name) n = HeaderMap.delete_values (values_of l) name n)
  ∧ (∃ l', set l h = Returned l' ∧ ∀ n, values_of l' n = HeaderMap.set_values (values_of l) h n)
  ∧ (∀ n, values_of (combine l h) n = HeaderMap.combine_values (values_of l) h n).
Proof.
  split_and!.
  - apply get_values.
  - rewrite contains_values. unfold HeaderMap.get_combined. by destruct (values_of l (lowercase name)).
  - apply values_of_append.
  - apply values_of_delete.
  - destruct (set_returns l h) as [l' Hl']. exists l'. split; [done|]. intros n. by apply values_of_set.
  - apply values_of_combine.
Qed.

(** ** One spelling per name *)
Definition one_spelling (l : HeaderList) : Prop := ∀ h1 h2, h1 ∈ l → h2 ∈ l →
  lowercase (header_name h1) = lowercase (header_name h2) → header_name h1 = header_name h2.

Lemma one_spelling_names l l' :
  one_spelling l → (∀ h, h ∈ l' → ∃ h0, h0 ∈ l ∧ header_name h0 = header_name h) → one_spelling l'.
Proof.
  intros Hl Hsub h1 h2 H1 H2 E. destruct (Hsub h1 H1) as (g1 & Hg1 & E1), (Hsub h2 H2) as (g2 & Hg2 & E2).
  rewrite <-E1, <-E2 in *. by apply Hl.
Qed.

Lemma append_one_spelling l h : one_spelling l → one_spelling (append l h).
Proof.
  intros Hl. unfold append. destruct (List.find (has_name (header_name h)) l) as [m|] eqn:E.
  - apply (one_spelling_names l); [done|]. intros h' [Hh'|Hh']%elem_of_app; [eauto|].
    apply list_elem_of_singleton in Hh' as ->. exists m. apply List.find_some in E as [Hm _].
    by rewrite list_elem_of_In.
  - intros h1 h2 H1%elem_of_app H2%elem_of_app. rewrite !list_elem_of_singleton in *.
    assert (∀ h', h' ∈ l → lowercase (header_name h') ≠ lowercase (header_name h)) as Hno.
    { intros h' Hh' Eq. apply List.find_none with (x := h') in E; [|by rewrite <-list_elem_of_In].
      by rewrite has_name_lowercase, bool_decide_eq_true_2 in E. }
    destruct H1 as [H1| ->], H2 as [H2| ->]; intros Eq; [by apply Hl| | |done]; exfalso.
    + by apply (Hno h1).
    + by apply (Hno h2).
Qed.

(** "If there are multiple matched headers their names will all be identical":
    from the empty list on, [append], [set], [combine], [delete_] and
    [delete_all_matching] keep one spelling for every name. *)
Theorem header_list_one_spelling (l : HeaderList) (h : Header) (name : bytes) (callback : Header → bool)
    (Hl : one_spelling l) :
  one_spelling [] ∧ one_spelling (append l h) ∧ one_spelling (delete_ l name)
  ∧ one_spelling (delete_all_matching callback l) ∧ one_spelling (combine l h)
  ∧ ∃ l', set l h = Returned l' ∧ one_spelling l'.
Proof.
  assert (∀ f, one_spelling (List.filter f l)) as Hfilter.
  { intros f. apply (one_spelling_names l); [done|]. intros h'. rewrite list_elem_of_In.
    intros [Hin _]%filter_In. exists h'. by rewrite list_elem_of_In. }
  split_and!; [intros ??; set_solver|by apply append_one_spelling|apply Hfilter..| |].
  - unfold combine. destruct (combine_first l h) as [l'|] eqn:E; [|by apply append_one_spelling].
    apply (one_spelling_names l); [done|]. clear -E. revert l' E. induction l as [|x l IH]; [done|].
    intros l'. cbn [combine_first]. destruct (has_name (header_name h) x).
    + intros [= <-] h'. rewrite elem_of_cons. intros [->|?]; [exists x|exists h']; set_solver.
    + destruct (combine_first l h) as [l1|]; [|done]. intros [= <-] h'. rewrite elem_of_cons.
      intros [->|Hh']; [exists x; set_solver|]. destruct (IH l1 eq_refl h' Hh') as (h0 & ? & ?). exists h0. set_solver.
  - destruct (set_spec l h) as [[_ ->]|(before & h0 & after & -> & _ & _ & ->)]; eexists; (split; [done|]).
    { by apply append_one_spelling. }
    apply (one_spelling_names (before ++ h0 :: after)); [done|]. intros h'.
    rewrite elem_of_app, elem_of_cons. intros [?|[->|Hin]]; [exists h'; set_solver|exists h0; set_solver|].
    unfold delete_ in Hin. rewrite list_elem_of_In in Hin. apply filter_In in Hin as [Hin%list_elem_of_In _].
    exists h'. set_solver.
Qed.

Lemma header_list_one_spelling_witness :
  let l := [mk_header (sv "Accept") (sv "a"); mk_header (sv "Accept") (sv "b")] in
  one_spelling (append l (mk_header (sv "ACCEPT") (sv "c"))).
Proof.
  intros l. refine (proj1 (proj2 (header_list_one_spelling l (mk_header (sv "ACCEPT") (sv "c")) [] (λ _, true) _))).
  intros h1 h2 H1 H2 _. subst l. set_unfold. naive_solver.
Defined.

(** ** Sorting and combining *)

(** The values of a name after combining: one joined value, except for cookies. *)
Definition combined_values (m : header_map) (n : bytes) : list bytes :=
  if bool_decide (n = sv "set-cookie") then m n
  else match m n with [] => [] | vs => [HeaderMap.join vs] end.

Lemma values_of_same name l n :
  lowercase name = name →
  values_of (map (λ h, mk_header name (header_value h)) l) n =
  if bool_decide (n = name) then header_value <$> l else [].
Proof.
  intros Hname. induction l as [|h l IH]; [by case_bool_decide|]. cbn [map]. rewrite values_of_cons. cbn [header_name header_value].
  rewrite Hname, IH. by case_bool_decide.
Qed.

(** One turn of the loop. *)
Lemma sort_and_combine_step l name rest :
  lowercase name = name → values_of l name ≠ [] →
  ∃ here, sort_and_combine_loop l (name :: rest) =
      (r ← sort_and_combine_loop l rest; Returned (here ++ r))
    ∧ Forall (λ h, header_name h = name) here
    ∧ ∀ n, values_of here n = if bool_decide (n = name) then combined_values (values_of l) n else [].
Proof.
  intros Hname Hne. cbn [sort_and_combine_loop]. unfold combined_values.
  destruct (decide (name = sv "set-cookie")) as [E|E].
  - rewrite (bool_decide_eq_true_2 _ E), bind_value. eexists. split; [done|]. split.
    + rewrite Forall_map. by apply List.Forall_forall.
    + intros n. rewrite values_of_same by done. case_bool_decide as En; [|done]. rewrite En, E, bool_decide_eq_true_2 by done.
      rewrite <-values_of_has_name. by rewrite <-E, Hname.
  - rewrite (bool_decide_eq_false_2 _ E), get_values. unfold HeaderMap.get_combined. rewrite Hname.
    destruct (values_of l name) as [|v vs] eqn:Ev; [done|]. cbn [must]. rewrite !bind_value.
    eexists. split; [done|]. split; [by constructor|].
    intros n. rewrite values_of_cons. cbn [header_name header_value]. rewrite Hname.
    case_bool_decide as En; [|done]. rewrite En, Ev. by rewrite bool_decide_eq_false_2.
Qed.

Lemma sort_and_combine_loop_spec l names :
  Sorted.StronglySorted (λ a b, bytes_less a b = true) names →
  Forall (λ n, lowercase n = n ∧ values_of l n ≠ []) names →
  ∃ l', sort_and_combine_loop l names = Returned l'
    ∧ Sorted.StronglySorted (λ a b, bytes_less (header_name b) (header_name a) = false) l'
    ∧ Forall (λ h, header_name h ∈ names) l'
    ∧ ∀ n, values_of l' n = if bool_decide (n ∈ names) then combined_values (values_of l) n else [].
Proof.
  induction 1 as [|name names Hs IH Hlt]; intros Hnames; [exists []; split_and!; [done|constructor|done|done]|].
  apply Forall_cons in Hnames as [[Hname Hne] Hnames]. destruct (IH Hnames) as (r & Hr & Hrs & Hrn & Hrv).
  destruct (sort_and_combine_step l name names Hname Hne) as (here & -> & Hhn & Hhv). rewrite Hr, bind_value.
  exists (here ++ r). split; [done|]. split; [|split].
  - clear -Hhn Hrs Hrn Hlt. induction Hhn as [|h here Hh Hhn IH]; [done|]. cbn. constructor; [done|].
    assert (∀ h', header_name h' = name → bytes_less (header_name h') (header_name h) = false) as Hsame.
    { intros h' ->. rewrite Hh. destruct (bytes_less name name) eqn:E; [|done]. by rewrite (bytes_less_asymmetric _ _ E) in E. }
    apply Forall_app. split; [eapply Forall_impl; [exact Hhn|]; auto|].
    eapply Forall_impl; [exact Hrn|]. intros h' Hin. rewrite Forall_forall in Hlt.
    apply bytes_less_asymmetric. rewrite Hh. by apply Hlt.
  - apply Forall_app. split; (eapply Forall_impl; [eassumption|]); cbn; set_solver.
  - intros n. rewrite values_of_app, Hhv, Hrv. destruct (decide (n = name)) as [->|Hn].
    + rewrite (bool_decide_eq_true_2 (name = name)), (bool_decide_eq_true_2 (name ∈ name :: names)) by set_solver.
      assert (name ∉ names) as Hnot.
      { intros Hin. rewrite Forall_forall in Hlt. specialize (Hlt _ Hin).
        by rewrite (bytes_less_asymmetric _ _ Hlt) in Hlt. }
      by rewrite bool_decide_eq_false_2, app_nil_r.
    + rewrite (bool_decide_eq_false_2 (n = name)) by done. cbn [app].
      by rewrite (bool_decide_ext (n ∈ name :: names) (n ∈ names)) by set_solver.
Qed.

Lemma lowercase_idemp n : lowercase (lowercase n) = lowercase n.
Proof. unfold lowercase. rewrite map_map. apply map_ext. apply to_ascii_lowercase_idemp. Qed.

Lemma values_of_nonempty l n : values_of l n ≠ [] ↔ n ∈ map lowercase (map header_name l).
Proof.
  induction l as [|h l IH]; [cbn; set_solver|]. rewrite values_of_cons. cbn [map]. rewrite elem_of_cons, <-IH.
  case_bool_decide; naive_solver.
Qed.

(** C27: [sort_and_combine] never aborts; its result is in ascending order of the
    lower-cased names and holds, for every name, exactly the combined values of the
    list: one header with the values joined by ", ", and for Set-Cookie one header
    per value in order. *)
Theorem sort_and_combine_correct (l : HeaderList) (Hlen : Z.of_nat (length l) < 2 ^ 31) :
  ∃ l', sort_and_combine l = Returned l'
    ∧ Sorted.StronglySorted (λ a b, bytes_less (header_name b) (header_name a) = false) l'
    ∧ Forall (λ h, lowercase (header_name h) = header_name h) l'
    ∧ ∀ n, values_of l' n = combined_values (values_of l) n.
Proof.
  unfold sort_and_combine.
  destruct (convert_header_names_spec (map header_name l)) as (names & -> & Hs & Hin); [by rewrite length_map|].
  rewrite bind_value.
  assert (Forall (λ n, lowercase n = n) names) as Hlow.
  { apply Forall_forall. intros n. rewrite Hin, list_elem_of_In, in_map_iff. intros (m & <- & _). apply lowercase_idemp. }
  destruct (sort_and_combine_loop_spec l names Hs) as (l' & -> & Hs' & Hn' & Hv').
  { rewrite Forall_forall in Hlow |- *. intros n Hn. split; [by apply Hlow|]. by apply values_of_nonempty, Hin. }
  exists l'. split_and!; [done..| |].
  - eapply Forall_impl; [exact Hn'|]. intros h Hh. rewrite Forall_forall in Hlow. by apply Hlow.
  - intros n. rewrite Hv'. case_bool_decide as En; [done|].
    assert (values_of l n = []) as E.
    { destruct (values_of l n) eqn:Ev; [done|]. exfalso. apply En, Hin. apply values_of_nonempty. by rewrite Ev. }
    unfold combined_values. rewrite E. by case_bool_decide.
Qed.

Lemma sort_and_combine_correct_witness :
  let l := [mk_header (sv "Set-Cookie") (sv "a=1"); mk_header (sv "Accept") (sv "x");
            mk_header (sv "set-cookie") (sv "b=2"); mk_header (sv "ACCEPT") (sv "y")] in
  ∃ l', sort_and_combine l = Returned l' ∧ values_of l' (sv "accept") = [sv "x, y"]
    ∧ values_of l' (sv "set-cookie") = [sv "a=1"; sv "b=2"].
Proof.
  intros l. destruct (sort_and_combine_correct l) as (l' & Hl' & _ & _ & Hv); [cbn; lia|].
  exists l'. by rewrite !Hv.
Defined.

(** ** Lengths and ranges *)
Section Extraction.
Context `{SimdutfOk} `{FastFloatOk}.

Lemma split_quoted_nonempty state current s : split_quoted state current s ≠ [].
Proof.
  revert state current. induction s as [|c s IH]; intros state current; [done|]. cbn [split_quoted].
  destruct state; [case_match|..]; [done|apply IH..].
Qed.

Lemma candidate_loop_spec values candidate :
  candidate_loop values (Some candidate) =
  if forallb (λ v, bool_decide (candidate = v)) values then Some (Some candidate) else None.
Proof. induction values as [|v values IH]; [done|]. cbn. case_bool_decide; [apply IH|done]. Qed.

Lemma get_decode_and_split_spec l name :
  Forall (λ h, Forall is_byte (header_value h)) l →
  get_decode_and_split l name = Returned (
    match get l name with
    | None => None
    | Some value => Some (map (λ p, trim p HTTP_TAB_OR_SPACE TrimBoth) (split_quoted Outside [] (isomorphic_decode value)))
    end).
Proof.
  intros Hl. unfold get_decode_and_split. destruct (get l name) as [value|] eqn:E; [|done].
  assert (Forall is_byte value) as Hb.
  { rewrite get_values in E. unfold HeaderMap.get_combined in E.
    assert (Forall (Forall is_byte) (values_of l (lowercase name))) as Hvs.
    { unfold values_of. rewrite Forall_fmap. rewrite Forall_forall in Hl. apply Forall_forall. intros h.
      rewrite list_elem_of_In. intros [Hin%list_elem_of_In _]%filter_In. by apply Hl. }
    assert (∀ vs, Forall (Forall is_byte) vs → Forall is_byte (HeaderMap.join vs)) as Hjoin.
    { induction 1 as [|v [|w vs] Hv Hvs' IH]; [constructor|done|].
      change (HeaderMap.join (v :: w :: vs)) with (v ++ sv ", " ++ HeaderMap.join (w :: vs)).
      apply Forall_app_2; [done|]. by apply Forall_app_2; [apply sv_bytes|]. }
    destruct (values_of l (lowercase name)) as [|v vs]; [done|]. injection E as <-. exact (Hjoin (v :: vs) Hvs). }
  by rewrite header_split_spec.
Qed.

(** [extract_length] never aborts: without a Content-Length it is null, values
    that are not all the same are a failure, and otherwise the single candidate is
    read as a [u64], null when it is not a number in range. *)
Theorem extract_length_total (l : HeaderList) (Hl : Forall (λ h, Forall is_byte (header_value h)) l) :
  extract_length l = Returned (
    match get l (sv "Content-Length") with
    | None => ExtractedEmpty
    | Some value =>
        match map (λ p, trim p HTTP_TAB_OR_SPACE TrimBoth) (split_quoted Outside [] (isomorphic_decode value)) with
        | [] => ExtractedFailure
        | candidate :: others =>
            if negb (forallb (λ v, bool_decide (candidate = v)) others) then ExtractedFailure
            else if negb (bool_decide (candidate = [])) && forallb is_ascii_digit candidate
                    && (digits_value 10 0 candidate <=? u64_max)
            then ExtractedValue (digits_value 10 0 candidate) else ExtractedEmpty
        end
    end).
Proof.
  unfold extract_length. rewrite get_decode_and_split_spec, bind_value by done.
  destruct (get l (sv "Content-Length")) as [value|]; [|done].
  pose proof (split_quoted_nonempty Outside [] (isomorphic_decode value)) as Hne.
  destruct (split_quoted Outside [] (isomorphic_decode value)) as [|p ps]; [done|]. cbn [map candidate_loop].
  rewrite candidate_loop_spec. destruct (forallb _ (map _ ps)); [|done]. cbn [must negb]. rewrite bind_value.
  unfold to_number. rewrite parse_number_spec by lia.
  rewrite (forallb_ext (is_digit_in 10) is_ascii_digit) by apply is_digit_in_10.
  by destruct (negb _ && _ && _).
Qed.

(** [build_content_range], and a Content-Range header whose length is unknown. *)
Lemma content_range_parts first last complete :
  0 ≤ first < 2 ^ 64 → 0 ≤ last < 2 ^ 64 → match complete with Some n => 0 ≤ n < 2 ^ 64 | None => True end →
  ∃ f la c, format_decimal first = Returned f ∧ format_decimal last = Returned la
    ∧ match complete with Some n => format_decimal n = Returned c | None => c = sv "*" end
    ∧ parse_single_byte_content_range_as_values (sv "bytes " ++ f ++ sv "-" ++ la ++ sv "/" ++ c)
      = Returned (Some (mk_content_range first last complete)).
Proof.
  intros Hf Hla Hc. destruct (format_decimal_printed first Hf) as (f & Ef & Pf).
  destruct (format_decimal_printed last Hla) as (la & Ela & Pla).
  assert (∃ c, match complete with Some n => format_decimal n = Returned c ∧ printed_number 10 n c | None => c = sv "*" end)
    as [c Pc].
  { destruct complete as [n|]; [|by eexists]. by destruct (format_decimal_printed n Hc) as (c & ? & ?); exists c. }
  exists f, la, c. split_and!; [done..|by destruct complete as [n|]; [destruct Pc|]|].
  set (s := sv "bytes " ++ _). unfold parse_single_byte_content_range_as_values.
  destruct (consume_specific_view_app (lexer_of s) (sv "bytes ") (f ++ sv "-" ++ la ++ sv "/" ++ c))
    as (l0 & -> & Hr & Hok & _); [unfold lexer_ok; cbn; lia|done|]. rewrite bind_value. cbn [negb].
  destruct (consume_decimal_integer_printed _ first f _ Hok Hr Pf) as (l1 & -> & Hr1 & Hok1 & _); [lia|done|].
  rewrite bind_value. destruct (consume_specific_cons l1 c_minus (la ++ sv "/" ++ c) Hr1) as (l2 & -> & Hr2 & Hok2 & _). cbn [negb].
  destruct (consume_decimal_integer_printed _ last la _ Hok2 Hr2 Pla) as (l3 & -> & Hr3 & Hok3 & _); [lia|done|].
  rewrite bind_value. destruct (consume_specific_cons l3 c_slash c Hr3) as (l4 & -> & Hr4 & Hok4 & _). cbn [negb].
  destruct complete as [n|].
  - destruct Pc as [_ Pn]. rewrite consume_specific_other; [|done|].
    + rewrite <-(app_nil_r c) in Hr4.
      destruct (consume_decimal_integer_printed _ n c _ Hok4 Hr4 Pn) as (l5 & -> & Hr5 & _); [lia|done|].
      rewrite bind_value. rewrite is_eof_remaining, Hr5. done.
    + change (map _ _) with c in Hr4. rewrite Hr4. destruct (printed_ascii_digits _ _ Pn) as [|d c' Hd _]; [done|].
      cbn. intros [= ->]. done.
  - subst c. destruct (consume_specific_cons l4 c_asterisk [] Hr4) as (l5 & -> & Hr5 & _). by rewrite is_eof_remaining, Hr5.
Qed.

(** A Content-Range value that [build_content_range] writes is read back by
    [extract_content_range_values] as the same three numbers, for all [u64]s. *)
Theorem content_range_roundtrip (first last full : Z)
    (Hf : 0 ≤ first < 2 ^ 64) (Hla : 0 ≤ last < 2 ^ 64) (Hfull : 0 ≤ full < 2 ^ 64) :
  ∃ s, build_content_range first last full = Returned s
    ∧ extract_content_range_values [mk_header (sv "content-range") s]
      = Returned (Some (mk_content_range first last (Some full))).
Proof.
  destruct (content_range_parts first last (Some full)) as (f & la & c & Ef & Ela & Ec & Hp); [done..|].
  eexists. unfold build_content_range. rewrite Ef, Ela, Ec, !bind_value. split; [done|].
  unfold extract_content_range_values. rewrite get_values. cbn. done.
Qed.
End Extraction.

#[local] Existing Instances simdutf_example simdutf_example_ok fast_float_example fast_float_example_ok.

Lemma extract_length_total_witness :
  extract_length [mk_header (sv "Content-Length") (sv "42"); mk_header (sv "content-length") (sv "42")]
  = Returned (ExtractedValue 42).
Proof.
  rewrite extract_length_total; [reflexivity|]. repeat (constructor; [apply sv_bytes|]). constructor.
Defined.

Lemma content_range_roundtrip_witness :
  ∃ s, build_content_range 0 499 1234 = Returned s ∧ s = sv "bytes 0-499/1234"
    ∧ extract_content_range_values [mk_header (sv "content-range") s]
      = Returned (Some (mk_content_range 0 499 (Some 1234))).
Proof.
  destruct (content_range_roundtrip 0 499 1234) as (s & Hs & He); [lia..|].
  exists s. split; [done|]. split; [|done]. vm_compute in Hs. by injection Hs as <-.
Defined.

(** The numbers of a Content-Range may have a sign, which its grammar does not allow. *)
Example content_range_signed :
  extract_content_range_values [mk_header (sv "content-range") (sv "bytes +1-+2/-0")]
  = Returned (Some (mk_content_range 1 2 (Some 0))).
Proof. vm_compute. reflexivity. Qed.
