(* ===== verification/MimeType.v ===== *)
(** * LibWeb/MimeSniff/MimeType.cpp: MIME types

    Parsing, serializing and classifying MIME types.  The parameters, an
    [OrderedHashMap], are the list of their entries in insertion order. *)
From S2P Require Import Prelude CharacterTypes Externals Utf8 StringView Utf8View GenericLexer Http HttpHeader.

Record MimeType := mk_mime_type {
  m_type : bytes;
  m_subtype : bytes;
  m_parameters : list (bytes * bytes);
  m_cached_essence : bytes;
}.

#[global] Instance MimeType_eq_dec : EqDecision MimeType.
Proof. solve_decision. Defined.

Definition s_javascript_mime_type_essence_strings : list bytes :=
  [sv "application/ecmascript"; sv "application/javascript"; sv "application/x-ecmascript";
   sv "application/x-javascript"; sv "text/ecmascript"; sv "text/javascript"; sv "text/javascript1.0";
   sv "text/javascript1.1"; sv "text/javascript1.2"; sv "text/javascript1.3"; sv "text/javascript1.4";
   sv "text/javascript1.5"; sv "text/jscript"; sv "text/livescript"; sv "text/x-ecmascript";
   sv "text/x-javascript"].

Definition is_javascript_mime_type_essence_match (string : bytes) : bool :=
  existsb (equals_ignoring_ascii_case string) s_javascript_mime_type_essence_strings.

(** One code point of [contains_only_http_quoted_string_token_code_points]. *)
Definition is_http_quoted_string_token (ch : Z) : bool :=
  (ch =? c_tab) || ((0x20 <=? ch) && (ch <=? 0x7E)) || ((0x80 <=? ch) && (ch <=? 0xFF)).

Definition contains_only_http_quoted_string_token_code_points (string : bytes) : bool :=
  forallb is_http_quoted_string_token (code_points string).

Definition is_certain_token_character (ch : Z) : bool :=
  is_any_of (sv "!#$%&'*+-.^_`|~") ch || is_ascii_alphanumeric ch.

Definition contains_only_http_token_code_points (string : bytes) : bool :=
  forallb is_certain_token_character string.

(** The constructor and [MimeType::create]. *)
Definition mime_type_create (type subtype : bytes) : outcome MimeType :=
  verify (negb (bool_decide (type = [])) && contains_only_http_token_code_points type) (
  verify (negb (bool_decide (subtype = [])) && contains_only_http_token_code_points subtype) (
    Returned (mk_mime_type type subtype [] (type ++ [c_slash] ++ subtype)))).

Definition contains_parameter (parameters : list (bytes * bytes)) (name : bytes) : bool :=
  existsb (λ p, bool_decide (p.1 = name)) parameters.

(** [OrderedHashMap::set]: an entry keeps its place. *)
Fixpoint set_entry (parameters : list (bytes * bytes)) (name value : bytes) : list (bytes * bytes) :=
  match parameters with
  | [] => [(name, value)]
  | (n, v) :: parameters =>
      if bool_decide (n = name) then (n, value) :: parameters else (n, v) :: set_entry parameters name value
  end.

Definition with_parameters (m : MimeType) (parameters : list (bytes * bytes)) : MimeType :=
  mk_mime_type (m_type m) (m_subtype m) parameters (m_cached_essence m).

Section WithLibraries.
Context `{Simdutf}.

(** [Utf8View::contains(u32)] *)
Definition utf8_contains (s : bytes) (needle : Z) : bool :=
  if needle <=? 0x7f then contains_char s needle else existsb (Z.eqb needle) (code_points s).

(** The loop of [Utf8View::trim] on the right: [seen_whitespace_length]. *)
Fixpoint seen_whitespace (fuel : nat) (p characters : bytes) (seen : nat) : outcome nat :=
  match p with
  | [] => Returned seen
  | _ =>
      match fuel with
      | O => OutOfFuel
      | S fuel =>
          code_point ← iterator_deref p;
          seen ← (if utf8_contains characters code_point then
                    n ← underlying_code_point_length_in_bytes p; Returned (seen + n)%nat
                  else Returned 0%nat);
          p ← iterator_next p;
          seen_whitespace fuel p characters seen
      end
  end.

(** [String::trim(characters, TrimMode::Right)] *)
Definition string_trim_right (s characters : bytes) : outcome (option bytes) :=
  seen ← seen_whitespace (length s) s characters 0;
  trimmed ← (if (length s <=? seen)%nat then Returned []
             else substring_view s 0 (length s - seen));
  from_utf8 trimmed.

(** [MUST(value.replace(needle, replacement, ReplaceMode::All))] *)
Definition string_replace (s needle replacement : bytes) : outcome bytes :=
  if bool_decide (s = []) then Returned s
  else
    maybe_first ← memmem_optional s needle;
    match maybe_first with
    | None => Returned s
    | Some first => r ← replace_into_builder s needle replacement first; r ← from_utf8 r; must r
    end.

(** Step 11.7 to 11.10 once the name and its [=] are read; [continue] is the next
    turn of the loop. *)
Definition parse_parameter_value (continue : GenericLexer → MimeType → outcome MimeType)
    (lexer : GenericLexer) (mime_type : MimeType) (parameter_name : bytes) : outcome MimeType :=
  let add parameter_value :=
    if negb (bool_decide (parameter_name = []))
       && contains_only_http_token_code_points parameter_name
       && contains_only_http_quoted_string_token_code_points parameter_value
       && negb (contains_parameter (m_parameters mime_type) parameter_name)
    then with_parameters mime_type (set_entry (m_parameters mime_type) parameter_name parameter_value)
    else mime_type in
  if peek lexer 0 =? c_quote then
    '(parameter_value, lexer) ← collect_an_http_quoted_string lexer ExtractYes;
    let lexer := ignore_until (Z.eqb c_semicolon) lexer in
    continue lexer (add parameter_value)
  else
    '(parameter_value, lexer) ← consume_until (Z.eqb c_semicolon) lexer;
    s ← string_trim_right parameter_value HTTP_WHITESPACE;
    parameter_value ← must s;
    if bool_decide (parameter_value = []) then continue lexer mime_type
    else continue lexer (add parameter_value).

(** Step 11: [while (!lexer.is_eof())]. *)
Fixpoint parse_parameters (fuel : nat) (lexer : GenericLexer) (mime_type : MimeType) : outcome MimeType :=
  match fuel with
  | O => OutOfFuel
  | S fuel =>
      if is_eof lexer then Returned mime_type
      else
        let lexer := ignore lexer 1 in
        let lexer := ignore_while (is_any_of HTTP_WHITESPACE) lexer in
        '(parameter_name_view, lexer) ← consume_until (λ ch, (ch =? c_semicolon) || (ch =? c_equals)) lexer;
        parameter_name ← to_ascii_lowercase_string parameter_name_view;
        if negb (is_eof lexer) && (peek lexer 0 =? c_semicolon) then parse_parameters fuel lexer mime_type
        else
          let lexer := if negb (is_eof lexer) then ignore lexer 1 else lexer in
          if is_eof lexer then Returned mime_type
          else parse_parameter_value (parse_parameters fuel) lexer mime_type parameter_name
  end.

Definition mime_type_parse (string : bytes) : outcome (option MimeType) :=
  valid ← utf8_validate string AllowYes;
  if negb valid then Returned None
  else
    let trimmed_string := trim string HTTP_WHITESPACE TrimBoth in
    let lexer := lexer_of trimmed_string in
    '(type, lexer) ← consume_until (Z.eqb c_slash) lexer;
    if bool_decide (type = []) || negb (contains_only_http_token_code_points type) then Returned None
    else if is_eof lexer then Returned None
    else
      let lexer := ignore lexer 1 in
      '(subtype, lexer) ← consume_until (Z.eqb c_semicolon) lexer;
      let subtype := trim subtype HTTP_WHITESPACE TrimRight in
      if bool_decide (subtype = []) || negb (contains_only_http_token_code_points subtype) then Returned None
      else
        type ← to_ascii_lowercase_string type;
        subtype ← to_ascii_lowercase_string subtype;
        mime_type ← mime_type_create type subtype;
        mime_type ← parse_parameters (S (length trimmed_string)) lexer mime_type;
        Returned (Some mime_type).

(** One parameter of [MimeType::serialized]. *)
Definition serialized_parameter (name value : bytes) : outcome bytes :=
  value ←
    (if negb (contains_only_http_token_code_points value) || bool_decide (value = []) then
       value ← string_replace value [c_backslash] [c_backslash; c_backslash];
       value ← string_replace value [c_quote] [c_backslash; c_quote];
       formatted ← from_utf8 ([c_quote] ++ value ++ [c_quote]);
       must formatted
     else Returned value);
  Returned ([c_semicolon] ++ name ++ [c_equals] ++ value).

Fixpoint serialized_parameters (parameters : list (bytes * bytes)) : outcome bytes :=
  match parameters with
  | [] => Returned []
  | (name, value) :: parameters =>
      p ← serialized_parameter name value;
      rest ← serialized_parameters parameters;
      Returned (p ++ rest)
  end.

Definition serialized (m : MimeType) : outcome bytes :=
  parameters ← serialized_parameters (m_parameters m);
  Returned (m_type m ++ [c_slash] ++ m_subtype m ++ parameters).

End WithLibraries.

Definition set_parameter (m : MimeType) (name value : bytes) : outcome MimeType :=
  verify (contains_only_http_quoted_string_token_code_points name) (
  verify (contains_only_http_quoted_string_token_code_points value) (
    Returned (with_parameters m (set_entry (m_parameters m) name value)))).

(** ** Groups of MIME types *)
Definition essence (m : MimeType) : bytes := m_cached_essence m.

Definition is_one_of (s : bytes) (others : list bytes) : bool := existsb (λ o, bool_decide (s = o)) others.

Definition is_image (m : MimeType) : bool := bool_decide (m_type m = sv "image").

Definition is_audio_or_video (m : MimeType) : bool :=
  is_one_of (m_type m) [sv "audio"; sv "video"] || bool_decide (essence m = sv "application/ogg").

Definition is_font (m : MimeType) : bool :=
  if bool_decide (m_type m = sv "font") then true
  else is_one_of (essence m)
    [sv "application/font-cff"; sv "application/font-otf"; sv "application/font-sfnt";
     sv "application/font-ttf"; sv "application/font-woff"; sv "application/vnd.ms-fontobject";
     sv "application/vnd.ms-opentype"].

Definition is_zip_based (m : MimeType) : bool :=
  ends_with (m_subtype m) (sv "+zip") || is_one_of (essence m) [sv "application/zip"].

Definition is_archive (m : MimeType) : bool :=
  is_one_of (essence m) [sv "application/x-rar-compressed"; sv "application/zip"; sv "application/x-gzip"].

Definition is_xml (m : MimeType) : bool :=
  ends_with (m_subtype m) (sv "+xml") || is_one_of (essence m) [sv "text/xml"; sv "application/xml"].

Definition is_html (m : MimeType) : bool := is_one_of (essence m) [sv "text/html"].

Definition is_scriptable (m : MimeType) : bool :=
  is_xml m || is_html m || bool_decide (essence m = sv "application/pdf").

Definition is_javascript (m : MimeType) : bool :=
  is_one_of (essence m) s_javascript_mime_type_essence_strings.

Definition is_json (m : MimeType) : bool :=
  ends_with (m_subtype m) (sv "+json") || is_one_of (essence m) [sv "application/json"; sv "text/json"].

Definition minimise_a_supported_mime_type (m : MimeType) : bytes :=
  if is_javascript m then sv "text/javascript"
  else if is_json m then sv "application/json"
  else if bool_decide (essence m = sv "image/svg+xml") then sv "image/svg+xml"
  else if is_xml m then sv "application/xml"
  else [].

(** ** Trimming and replacing well-formed text *)
Lemma trim_left_app s t chars :
  trim_left (s ++ t) chars = if forallb (contains_char chars) s then trim_left t chars else trim_left s chars ++ t.
Proof. induction s as [|c s IH]; [done|]. cbn. by destruct (contains_char chars c). Qed.

Lemma forallb_rev {A} (P : A → bool) l : forallb P (rev l) = forallb P l.
Proof. induction l as [|a l IH]; [done|]. cbn. rewrite forallb_app, IH. cbn. by destruct (P a), (forallb P l). Qed.

Lemma trim_right_app s t chars :
  trim_right (s ++ t) chars = if forallb (contains_char chars) t then trim_right s chars else s ++ trim_right t chars.
Proof.
  unfold trim_right. rewrite rev_app_distr, trim_left_app, forallb_rev. case_match; [done|].
  by rewrite rev_app_distr, rev_involutive.
Qed.

Lemma trim_right_le s chars : (length (trim_right s chars) ≤ length s)%nat.
Proof.
  unfold trim_right. rewrite length_rev, <-(length_rev s). generalize (rev s). clear s.
  intros s. induction s as [|c s IH]; [done|]. cbn. case_match; cbn; lia.
Qed.

Lemma trim_right_all s chars : forallb (contains_char chars) s = true → trim_right s chars = [].
Proof. intros Ha. rewrite <-(app_nil_l s), trim_right_app, Ha. done. Qed.

Lemma trim_right_split s chars : ∃ w, s = trim_right s chars ++ w ∧ forallb (contains_char chars) w = true.
Proof.
  induction s as [|c s (w & Hs & Hw)] using rev_ind; [by exists []|].
  rewrite trim_right_app. cbn [forallb]. rewrite andb_true_r. destruct (contains_char chars c) eqn:E.
  - exists (w ++ [c]). rewrite app_assoc, <-Hs, forallb_app, Hw. cbn. by rewrite E.
  - exists []. unfold trim_right. cbn. rewrite E. cbn. by rewrite app_nil_r.
Qed.

Lemma contains_char_ascii chars c : Forall (λ c, c < 0x80) chars → contains_char chars c = true → c < 0x80.
Proof.
  unfold contains_char. intros Hchars (d & Hd & ->%Z.eqb_eq)%existsb_exists.
  rewrite List.Forall_forall in Hchars. auto.
Qed.

Lemma ascii_utf8_of cps : Forall (λ c, 0 ≤ c < 0x80) cps → utf8_of cps = cps.
Proof.
  induction 1 as [|c cps Hc _ IH]; [done|]. cbn [flat_map]. rewrite IH. unfold utf8_form.
  by rewrite (proj2 (Z.leb_le c 0x7f)) by lia.
Qed.

Section Text.
Context `{SimdutfOk}.

Lemma seen_whitespace_spec fuel chars cps seen :
  Forall is_scalar cps → Forall (λ c, c < 0x80) chars → (length (flat_map utf8_form cps) ≤ fuel)%nat →
  seen_whitespace fuel (flat_map utf8_form cps) chars seen = Returned (
    if forallb (contains_char chars) cps then (seen + length cps)%nat
    else (length cps - length (trim_right cps chars))%nat).
Proof.
  intros Hcps Hchars. revert fuel seen. induction Hcps as [|c cps [Hc Hsur] Hcps IH]; intros fuel seen Hf.
  { destruct fuel; cbn; by rewrite Nat.add_0_r. }
  cbn [flat_map] in *. rewrite length_app in Hf.
  destruct (utf8_form_shape c Hc) as (b & ext & Hform & _ & Hext & Hlow & Hhigh).
  rewrite Hform in *. cbn [app length] in *. destruct fuel as [|fuel]; [lia|]. cbn [seen_whitespace].
  change (b :: ext ++ flat_map utf8_form cps) with ((b :: ext) ++ flat_map utf8_form cps). rewrite <-Hform.
  rewrite iterator_deref_form, bind_value by done.
  assert (utf8_contains chars c = contains_char chars c) as ->.
  { unfold utf8_contains. destruct (Z.leb_spec c 0x7f); [done|]. rewrite code_points_ascii.
    - unfold contains_char. done.
    - apply forallb_Forall. eapply Forall_impl; [exact Hchars|]. unfold is_ascii. cbn. intros; lia. }
  rewrite (iterator_next_form c) by done.
  pose proof (trim_right_app [c] cps chars) as Htrim. cbn [app] in Htrim. rewrite Htrim. cbn [forallb].
  pose proof (trim_right_le cps chars).
  destruct (contains_char chars c) eqn:E.
  - destruct (Hlow (contains_char_ascii _ _ Hchars E)) as [-> ->]. rewrite Hform.
    unfold underlying_code_point_length_in_bytes. cbn [app]. rewrite bind_value.
    assert (code_point_length (c :: utf8_of cps) = 1%nat) as ->.
    { unfold code_point_length. cbn [head default tail]. pose proof (contains_char_ascii _ _ Hchars E).
      rewrite decode_leading_byte_spec by (cbn [id]; unfold is_byte; lia). unfold leading_byte_reference. cbn [id].
      by rewrite (proj2 (Z.ltb_lt c 0x80)) by lia. }
    rewrite !bind_value, IH by lia. cbn [andb]. destruct (forallb _ cps); f_equal; cbn [app length]; lia.
  - rewrite !bind_value, IH by lia. cbn [andb]. destruct (forallb _ cps) eqn:Ea; [|done].
    f_equal. unfold trim_right. cbn. rewrite E. cbn. lia.
Qed.

Lemma string_trim_right_spec cps chars :
  Forall is_scalar cps → Forall (λ c, 0 ≤ c < 0x80) chars →
  string_trim_right (utf8_of cps) chars = Returned (Some (utf8_of (trim_right cps chars))).
Proof.
  intros Hcps Hchars. unfold string_trim_right.
  rewrite seen_whitespace_spec, bind_value by (done || (eapply Forall_impl; [done|]; cbn; lia)).
  destruct (trim_right_split cps chars) as (w & Hs & Hw).
  assert (utf8_of w = w) as Hw'.
  { apply ascii_utf8_of. apply List.Forall_forall. intros c Hc.
    rewrite forallb_forall in Hw. specialize (Hw c Hc). unfold contains_char in Hw.
    apply existsb_exists in Hw as (d & Hd & ->%Z.eqb_eq). rewrite List.Forall_forall in Hchars. auto. }
  assert (Forall is_scalar (trim_right cps chars)) as Hscalar.
  { rewrite Hs in Hcps. by apply Forall_app in Hcps as []. }
  assert (∀ seen, seen = length w → (if (length (utf8_of cps) <=? seen)%nat then Returned []
      else substring_view (utf8_of cps) 0 (length (utf8_of cps) - seen))
      = Returned (utf8_of (trim_right cps chars))) as Hsub.
  { intros seen ->. clear Hscalar. revert Hs. generalize (trim_right cps chars) as t. intros t ->.
    rewrite utf8_of_app, Hw', length_app.
    destruct (Nat.leb_spec (length (utf8_of t) + length w) (length w)).
    - symmetry. f_equal. apply length_zero_iff_nil. lia.
    - rewrite substring_view_in_range by (rewrite length_app; lia). f_equal.
      rewrite drop_0. replace (_ + _ - _)%nat with (length (utf8_of t)) by lia.
      apply take_app_length. }
  rewrite Hsub, bind_value.
  - apply from_utf8_valid. by exists (trim_right cps chars).
  - apply (f_equal length) in Hs. rewrite length_app in Hs. destruct (forallb _ cps) eqn:Ea; [|lia].
    rewrite (trim_right_all cps) in Hs by done. cbn in Hs. lia.
Qed.

(** ** Well-formed MIME types *)
Definition lower_token (s : bytes) : Prop :=
  s ≠ [] ∧ contains_only_http_token_code_points s = true ∧ map to_ascii_lowercase s = s.

Record parameter_wf (p : bytes * bytes) : Prop := mk_parameter_wf {
  parameter_name_token : lower_token p.1;
  parameter_value_valid : valid_utf8 p.2;
  parameter_value_quotable : contains_only_http_quoted_string_token_code_points p.2 = true;
}.

Record mime_type_wf (m : MimeType) : Prop := mk_mime_type_wf {
  type_token : lower_token (m_type m);
  subtype_token : lower_token (m_subtype m);
  essence_is : m_cached_essence m = m_type m ++ [c_slash] ++ m_subtype m;
  parameters_wf : Forall parameter_wf (m_parameters m);
  parameters_unique : NoDup (map fst (m_parameters m));
}.

Lemma token_character_byte c :
  is_certain_token_character c = true →
  0x20 < c < 0x7f ∧ c ≠ c_slash ∧ c ≠ c_semicolon ∧ c ≠ c_equals ∧ c ≠ c_quote ∧ c ≠ c_backslash.
Proof.
  unfold is_certain_token_character. intros [Hc|Hc]%orb_prop.
  - unfold is_any_of, contains_char in Hc. apply existsb_exists in Hc as (d & Hd & ->%Z.eqb_eq).
    vm_compute in Hd. repeat (destruct Hd as [<-|Hd]; [by vm_compute|]). done.
  - unfold_ctypes. lia.
Qed.

Lemma token_character_lowercase c :
  is_certain_token_character c = true → is_certain_token_character (to_ascii_lowercase c) = true.
Proof.
  unfold to_ascii_lowercase. destruct (is_ascii_upper_alpha c) eqn:E; [|done]. intros _.
  unfold is_certain_token_character. apply orb_true_iff. right. unfold_ctypes. lia.
Qed.

Lemma lowercase_token s :
  s ≠ [] → contains_only_http_token_code_points s = true → lower_token (map to_ascii_lowercase s).
Proof.
  unfold lower_token, contains_only_http_token_code_points. intros Hne Ha. split_and!.
  - by destruct s.
  - rewrite forallb_forall in *. intros d (c & <- & Hc)%in_map_iff. by apply token_character_lowercase, Ha.
  - rewrite map_map. apply map_ext, to_ascii_lowercase_idemp.
Qed.

Lemma lowercase_string_valid s : valid_utf8 s → to_ascii_lowercase_string s = Returned (map to_ascii_lowercase s).
Proof. intros Hv. unfold to_ascii_lowercase_string. by rewrite utf8_validate_valid. Qed.

Lemma set_entry_new ps name value :
  contains_parameter ps name = false → set_entry ps name value = ps ++ [(name, value)] ∧ name ∉ map fst ps.
Proof.
  induction ps as [|[n v] ps IH]; cbn; [by split; [|apply not_elem_of_nil]|].
  case_bool_decide as Hn; [done|]. cbn. intros [-> Hnin]%IH. split; [done|]. by rewrite not_elem_of_cons.
Qed.

(** ** Reading well-formed text *)
Record reading (l : GenericLexer) : Prop := mk_reading {
  reading_ok : lexer_ok l;
  reading_input : valid_utf8 (m_input l);
  reading_remaining : valid_utf8 (remaining l);
}.

Lemma valid_utf8_cut (pred : Z → bool) s t :
  (∀ c, pred c = true → 0 ≤ c < 0x80) → match t with c :: _ => pred c = true | [] => True end →
  valid_utf8 (s ++ t) → valid_utf8 s ∧ valid_utf8 t.
Proof.
  intros Hp Ht Hv. destruct t as [|c t]; [rewrite app_nil_r in Hv; by split; [|apply valid_utf8_nil]|].
  pose proof (Hp c Ht) as Hc. destruct (valid_utf8_split_ascii s c t ltac:(lia) Hv) as [Hs Ht']. split; [done|].
  apply (valid_utf8_app [c] t); [by apply valid_utf8_ascii_char|done].
Qed.

Lemma reading_cons l c rest :
  reading l → remaining l = c :: rest → c < 0x80 →
  reading (ignore l 1) ∧ remaining (ignore l 1) = rest ∧ m_input (ignore l 1) = m_input l.
Proof.
  intros [Hok Hi Hr] E Hc. destruct (remaining_cons _ _ _ E) as (_ & _ & Hr' & Hok' & _). split_and!; [|done..].
  split; [done..|]. rewrite Hr'. rewrite E in Hr. by apply (valid_utf8_split_ascii [] c rest Hc).
Qed.

Lemma consume_until_reading pred l :
  (∀ c, pred c = true → 0 ≤ c < 0x80) → reading l →
  ∃ t l', consume_until pred l = Returned (t, l') ∧ ignore_until pred l = l' ∧ reading l' ∧ valid_utf8 t
    ∧ remaining l = t ++ remaining l' ∧ m_input l' = m_input l
    ∧ match remaining l' with c :: _ => pred c = true | [] => True end.
Proof.
  intros Hp [Hok Hi Hr]. unfold consume_until, ignore_until. rewrite consume_while_returns by done.
  set (p' := λ c, negb (pred c)). exists (take (scan_while p' (remaining l)) (remaining l)), (ignore_while p' l).
  assert (remaining l = take (scan_while p' (remaining l)) (remaining l) ++ remaining (ignore_while p' l)) as Hs.
  { by rewrite remaining_ignore_while, take_drop. }
  assert (match remaining (ignore_while p' l) with c :: _ => pred c = true | [] => True end) as Hstop.
  { rewrite remaining_ignore_while. destruct (scan_while_spec p' (remaining l)) as [_ H1].
    destruct (drop _ _); [done|]. unfold p' in H1. by apply negb_false_iff in H1. }
  rewrite Hs in Hr. destruct (valid_utf8_cut pred _ _ Hp Hstop Hr) as [Ht Hr'].
  split_and!; try done. split; [by apply ignore_while_ok|done|done].
Qed.

Lemma ignore_while_reading pred l :
  (∀ c, pred c = true → 0 ≤ c < 0x80) → reading l →
  reading (ignore_while pred l) ∧ (length (remaining (ignore_while pred l)) ≤ length (remaining l))%nat.
Proof.
  intros Hp [Hok Hi Hr]. rewrite remaining_ignore_while, length_drop. split; [|lia].
  split; [by apply ignore_while_ok|done|]. rewrite remaining_ignore_while.
  destruct (scan_while_spec pred (remaining l)) as [Hall _]. revert Hall Hr.
  generalize (scan_while pred (remaining l)). generalize (remaining l). intros s n. revert s.
  induction n as [|n IH]; intros s; [by rewrite drop_0|].
  destruct s as [|c s]; [done|]. cbn [take drop]. intros [Hc Hall]%Forall_cons Hv. apply Hp in Hc.
  apply IH; [done|]. by apply (valid_utf8_split_ascii [] c s ltac:(lia)).
Qed.

Lemma is_semicolon_ascii c : (c_semicolon =? c) = true → 0 ≤ c < 0x80.
Proof. by intros <-%Z.eqb_eq. Qed.

Lemma is_http_whitespace_ascii c : is_any_of HTTP_WHITESPACE c = true → 0 ≤ c < 0x80.
Proof.
  unfold is_any_of, contains_char. intros (d & Hd & ->%Z.eqb_eq)%existsb_exists. cbn in Hd.
  repeat (destruct Hd as [<-|Hd]; [by vm_compute|]). done.
Qed.

(** The entry a parameter adds: none when it is not well-formed or is a duplicate. *)
Lemma add_parameter_wf m name value :
  mime_type_wf m → map to_ascii_lowercase name = name → valid_utf8 value →
  mime_type_wf (if negb (bool_decide (name = [])) && contains_only_http_token_code_points name
       && contains_only_http_quoted_string_token_code_points value
       && negb (contains_parameter (m_parameters m) name)
    then with_parameters m (set_entry (m_parameters m) name value) else m).
Proof.
  intros [Ht Hs He Hp Hu] Hn Hv. destruct (_ && _ && _ && _) eqn:E; [|by split].
  apply andb_prop in E as [[[Hne Htok]%andb_prop Hq]%andb_prop Hnew].
  apply negb_true_iff in Hnew. apply negb_true_iff, bool_decide_eq_false in Hne.
  destruct (set_entry_new _ _ value Hnew) as [-> Hnin]. split; cbn; try done.
  - apply Forall_app. split; [done|]. apply Forall_singleton. by split.
  - rewrite map_app. apply NoDup_app. split; [done|]. split; [|apply NoDup_singleton].
    intros x Hx ->%list_elem_of_singleton. done.
Qed.

Notation at_semicolon l := (match remaining l with c :: _ => (c_semicolon =? c) = true | [] => True end) (only parsing).

Lemma parse_parameter_value_step continue l m name :
  reading l → remaining l ≠ [] →
  ∃ l' m', parse_parameter_value continue l m name = continue l' m' ∧ reading l' ∧ at_semicolon l'
    ∧ (length (remaining l') ≤ length (remaining l))%nat
    ∧ (mime_type_wf m → map to_ascii_lowercase name = name → mime_type_wf m').
Proof.
  intros Hl Hne. unfold parse_parameter_value. rewrite peek_remaining.
  destruct (remaining l) as [|c rest] eqn:Er; [done|]. cbn [head default id].
  destruct (Z.eqb_spec c c_quote) as [->|Hc].
  - rewrite (collect_quoted_spec l rest ExtractYes (reading_input _ Hl) Er), bind_value.
    destruct (quoted_value_suffix rest) as (p & Hp & _).
    assert (remaining (lexer_at l (quoted_value rest).2) = (quoted_value rest).2) as Hrest.
    { apply (remaining_lexer_at _ (take (m_index l) (m_input l) ++ c_quote :: p)).
      rewrite <-app_assoc. cbn [app]. rewrite <-Hp, <-Er. unfold remaining. by rewrite take_drop. }
    assert (valid_utf8 (quoted_value rest).1 ∧ valid_utf8 (quoted_value rest).2) as [Hv1 Hv2].
    { apply (quoted_value_valid_acc rest []). pose proof (reading_remaining _ Hl) as Hr. rewrite Er in Hr.
      by apply (valid_utf8_split_ascii [] c_quote rest). }
    destruct (consume_until_reading (Z.eqb c_semicolon) (lexer_at l (quoted_value rest).2) is_semicolon_ascii)
      as (t & l' & _ & -> & Hl' & _ & Ht & _ & Hstop).
    { split; [unfold lexer_ok, lexer_at; cbn; lia|exact (reading_input _ Hl)|by rewrite Hrest]. }
    eexists l', _. split; [done|]. split_and!; [done..| |by intros; apply add_parameter_wf].
    rewrite Hrest in Ht. apply (f_equal length) in Hp, Ht. rewrite length_app in *. cbn. lia.
  - destruct (consume_until_reading (Z.eqb c_semicolon) l is_semicolon_ascii Hl)
      as (t & l' & -> & _ & Hl' & (cps & Hcps & ->) & Ht & _ & Hstop).
    rewrite bind_value, string_trim_right_spec, bind_value by (done || by repeat constructor).
    cbn [must]. rewrite bind_value. rewrite <-Er, Ht, length_app.
    case_bool_decide; eexists l', _; (split; [done|]); split_and!; try done; try lia.
    intros Hwf Hn. apply add_parameter_wf; [done..|].
    destruct (trim_right_split cps HTTP_WHITESPACE) as (w & Hs & _). exists (trim_right cps HTTP_WHITESPACE).
    split; [|done]. rewrite Hs in Hcps. by apply Forall_app in Hcps as [].
Qed.

(** The loop returns a well-formed MIME type. *)
Lemma parse_parameters_wf fuel l m :
  reading l → at_semicolon l → mime_type_wf m → (length (remaining l) < fuel)%nat →
  ∃ m', parse_parameters fuel l m = Returned m' ∧ mime_type_wf m'.
Proof.
  revert l m. induction fuel as [|fuel IH]; intros l m Hl Hsemi Hm Hf; [lia|]. cbn [parse_parameters].
  rewrite is_eof_remaining. case_bool_decide as Heof; [by exists m|].
  destruct (remaining l) as [|c rest] eqn:Er; [done|]. apply Z.eqb_eq in Hsemi as <-.
  destruct (reading_cons l _ rest Hl Er ltac:(done)) as (Hl1 & Hr1 & _).
  destruct (ignore_while_reading _ _ is_http_whitespace_ascii Hl1) as [Hl2 Hlen2].
  destruct (consume_until_reading (λ ch, (ch =? c_semicolon) || (ch =? c_equals)) _
    ltac:(by intros c [->%Z.eqb_eq| ->%Z.eqb_eq]%orb_prop) Hl2) as (name & l3 & -> & _ & Hl3 & Hv & Hs & _ & Hstop).
  rewrite bind_value, lowercase_string_valid, bind_value by done.
  apply (f_equal length) in Hs. rewrite length_app in Hs. rewrite Hr1 in Hlen2. cbn [length] in Hf.
  rewrite is_eof_remaining, peek_remaining. case_bool_decide as Heof3; cbn [negb andb].
  { rewrite is_eof_remaining, bool_decide_eq_true_2 by done. by exists m. }
  destruct (remaining l3) as [|d rest3] eqn:Er3; [done|]. cbn [head default id].
  destruct (Z.eqb_spec d c_semicolon) as [->|Hd].
  { apply IH; [done|by rewrite Er3|done|]. rewrite Er3. lia. }
  assert (d = c_equals) as -> by (bool_to_prop; lia).
  destruct (reading_cons l3 _ rest3 Hl3 Er3 ltac:(done)) as (Hl4 & Hr4 & _).
  rewrite is_eof_remaining. case_bool_decide as Heof4; [by exists m|].
  destruct (parse_parameter_value_step (parse_parameters fuel) _ m (map to_ascii_lowercase name) Hl4 Heof4)
    as (l5 & m5 & -> & Hl5 & Hsemi5 & Hlen5 & Hwf5).
  apply IH; [done..| |].
  - apply Hwf5; [done|]. rewrite map_map. apply map_ext, to_ascii_lowercase_idemp.
  - rewrite Hr4 in Hlen5. cbn [length] in Hs. lia.
Qed.

Lemma lower_token_create type subtype :
  lower_token type → lower_token subtype →
  mime_type_create type subtype = Returned (mk_mime_type type subtype [] (type ++ [c_slash] ++ subtype))
  ∧ mime_type_wf (mk_mime_type type subtype [] (type ++ [c_slash] ++ subtype)).
Proof.
  intros Ht Hs. split; [|split; cbn; [done..|apply Forall_nil_2|apply NoDup_nil_2]].
  destruct Ht as (Ht & Htt & _), Hs as (Hs & Hst & _). unfold mime_type_create.
  by rewrite Htt, Hst, !bool_decide_eq_false_2.
Qed.

(** Parsing a MIME type from well-formed text returns; when it finds a MIME
    type, its type, subtype and parameter names are non-empty lower-case tokens,
    no parameter is repeated, every value is well-formed text of quoted-string
    characters and the cached essence is [type/subtype]. *)
Theorem mime_type_parse_wf string :
  valid_utf8 string →
  ∃ r, mime_type_parse string = Returned r ∧ ∀ m, r = Some m → mime_type_wf m.
Proof.
  intros Hv. unfold mime_type_parse. rewrite utf8_validate_valid, bind_value by done. cbn [negb].
  set (s := trim string HTTP_WHITESPACE TrimBoth).
  assert (reading (lexer_of s)) as Hl.
  { assert (valid_utf8 s) by (apply trim_valid; [apply http_whitespace_ascii|done]).
    split; [unfold lexer_ok; cbn; lia|done|]. unfold remaining. cbn. by rewrite drop_0. }
  destruct (consume_until_reading (Z.eqb c_slash) _ ltac:(by intros c <-%Z.eqb_eq) Hl)
    as (type & l1 & -> & _ & Hl1 & Htv & Hs1 & _ & Hslash). rewrite bind_value.
  destruct (bool_decide (type = []) || _) eqn:Etype; [by exists None|].
  apply orb_false_iff in Etype as [Ht1%bool_decide_eq_false Ht2%negb_false_iff].
  rewrite is_eof_remaining. case_bool_decide as Heof; [by exists None|].
  destruct (remaining l1) as [|c r1] eqn:Er1; [done|]. apply Z.eqb_eq in Hslash as <-.
  destruct (reading_cons l1 _ r1 Hl1 Er1 ltac:(done)) as (Hl2 & Hr2 & _).
  destruct (consume_until_reading (Z.eqb c_semicolon) _ is_semicolon_ascii Hl2)
    as (subtype & l3 & -> & _ & Hl3 & Hsv & Hs3 & _ & Hsemi). rewrite bind_value.
  set (sub := trim subtype HTTP_WHITESPACE TrimRight).
  assert (valid_utf8 sub) as Hsubv by (apply trim_valid; [apply http_whitespace_ascii|done]).
  destruct (bool_decide (sub = []) || _) eqn:Esub; [by exists None|].
  rewrite (lowercase_string_valid type), bind_value, (lowercase_string_valid sub), bind_value by done.
  apply orb_false_iff in Esub as [Hs1'%bool_decide_eq_false Hs2'%negb_false_iff].
  destruct (lower_token_create _ _ (lowercase_token _ Ht1 Ht2) (lowercase_token _ Hs1' Hs2')) as [-> Hm].
  rewrite bind_value.
  destruct (parse_parameters_wf (S (length s)) l3 _ Hl3 Hsemi Hm) as (m' & -> & Hm').
  - apply (f_equal length) in Hs1, Hs3. rewrite length_app in *. unfold remaining in Hs1 at 1. cbn in Hs1.
    rewrite drop_0 in Hs1. rewrite Hr2 in Hs3. cbn in *. lia.
  - eexists. split; [done|]. by intros m [= <-].
Qed.

(** ** The serialized text *)
Definition value_text (value : bytes) : bytes :=
  if contains_only_http_token_code_points value && negb (bool_decide (value = [])) then value
  else c_quote :: escape_quoted value ++ [c_quote].

Definition parameter_text (p : bytes * bytes) : bytes := [c_semicolon] ++ p.1 ++ [c_equals] ++ value_text p.2.

Lemma substitute_valid c r s :
  c < 0x80 → valid_utf8 r → valid_utf8 s → valid_utf8 (substitute c r s).
Proof.
  intros Hc Hr (cps & Hcps & ->). induction Hcps as [|x cps Hx Hcps IH]; [apply valid_utf8_nil|].
  cbn [flat_map]. unfold substitute in *. rewrite flat_map_app. apply valid_utf8_app; [|done].
  change (valid_utf8 (substitute c r (utf8_form x))).
  destruct (utf8_form_ascii_or_high x (proj1 Hx)) as [[Hlow Hf]|Hhigh].
  - rewrite Hf. cbn. rewrite app_nil_r. destruct (x =? c); [done|]. apply valid_utf8_ascii_char. destruct Hx. lia.
  - rewrite substitute_absent. { exists [x]. cbn. rewrite app_nil_r. by split; [constructor|]. }
    intros Hin. rewrite Forall_forall in Hhigh. specialize (Hhigh c Hin). lia.
Qed.

Lemma string_replace_char s c r :
  0 ≤ c < 0x80 → valid_utf8 r → valid_utf8 s → string_replace s [c] r = Returned (substitute c r s).
Proof.
  intros Hc Hr Hs. unfold string_replace. case_bool_decide as Hnil; [by rewrite Hnil|].
  rewrite memmem_first, bind_value by (simpl; lia). destruct (first_occurrence s [c]) as [i|] eqn:E.
  - rewrite (replace_into_builder_char _ _ _ _ E), bind_value, from_utf8_valid; [done|].
    apply substitute_valid; [lia|done..].
  - apply first_occurrence_char_none in E. by rewrite substitute_absent.
Qed.

Lemma escape_substitute s :
  substitute c_quote [c_backslash; c_quote] (substitute c_backslash [c_backslash; c_backslash] s) = escape_quoted s.
Proof.
  induction s as [|c s IH]; [done|]. unfold substitute, escape_quoted in *. cbn [flat_map].
  rewrite flat_map_app, IH. f_equal. unfold needs_escape.
  destruct (Z.eqb_spec c c_backslash) as [->|]; [done|]. cbn [flat_map]. rewrite app_nil_r, orb_false_r.
  by destruct (Z.eqb_spec c c_quote) as [->|].
Qed.

Lemma escape_quoted_valid s : valid_utf8 s → valid_utf8 (escape_quoted s).
Proof.
  intros Hs. rewrite <-escape_substitute.
  repeat apply substitute_valid; try done; apply ascii_valid_utf8; by repeat constructor.
Qed.

Lemma serialized_parameter_text p :
  parameter_wf p → serialized_parameter p.1 p.2 = Returned (parameter_text p).
Proof.
  intros [_ Hv _]. unfold serialized_parameter, parameter_text, value_text. destruct p as [n v]. cbn [fst snd] in *.
  destruct (contains_only_http_token_code_points v && _) eqn:E.
  - apply andb_prop in E as [-> Hne%negb_true_iff]. rewrite Hne. done.
  - assert (negb (contains_only_http_token_code_points v) || bool_decide (v = []) = true) as ->.
    { apply andb_false_iff in E as [-> | ->%negb_false_iff]; [done|]. by rewrite orb_true_r. }
    assert (valid_utf8 [c_backslash; c_backslash] ∧ valid_utf8 [c_backslash; c_quote] ∧ valid_utf8 [c_quote]) as (V1 & V2 & V3).
    { split_and!; apply ascii_valid_utf8; by repeat constructor. }
    rewrite (string_replace_char v c_backslash), bind_value by done.
    rewrite string_replace_char, bind_value, escape_substitute by (done || by apply substitute_valid).
    rewrite from_utf8_valid by (by repeat apply valid_utf8_app; try apply escape_quoted_valid). done.
Qed.

Lemma serialized_text m :
  mime_type_wf m →
  serialized m = Returned (m_type m ++ [c_slash] ++ m_subtype m ++ flat_map parameter_text (m_parameters m)).
Proof.
  intros [_ _ _ Hp _]. unfold serialized.
  assert (serialized_parameters (m_parameters m) = Returned (flat_map parameter_text (m_parameters m))) as ->; [|done].
  induction Hp as [|[n v] ps Hp Hps IH]; [done|]. cbn [serialized_parameters flat_map].
  rewrite (serialized_parameter_text (n, v) Hp : serialized_parameter n v = _), bind_value. by rewrite IH.
Qed.

(** ** Reading the serialized text back *)
Lemma token_characters s (Q : Z → Prop) :
  contains_only_http_token_code_points s = true → (∀ c, is_certain_token_character c = true → Q c) → Forall Q s.
Proof.
  unfold contains_only_http_token_code_points. rewrite forallb_forall. intros Hs HQ.
  apply List.Forall_forall. auto.
Qed.

Lemma token_not_whitespace c : is_certain_token_character c = true → contains_char HTTP_WHITESPACE c = false.
Proof. intros Hc%token_character_byte. cbn. bool_to_prop. lia. Qed.

Lemma trim_right_snoc s c chars : contains_char chars c = false → trim_right (s ++ [c]) chars = s ++ [c].
Proof. intros Hc. unfold trim_right. rewrite rev_unit. cbn [trim_left]. rewrite Hc. cbn. by rewrite rev_involutive. Qed.

Lemma token_trim_right s : contains_only_http_token_code_points s = true → trim_right s HTTP_WHITESPACE = s.
Proof.
  intros Hs. destruct s as [|c s _] using rev_ind; [done|]. apply trim_right_snoc, token_not_whitespace.
  pose proof (token_characters _ (λ d, is_certain_token_character d = true) Hs ltac:(done)) as [_ Hc]%Forall_app.
  by inversion Hc.
Qed.

Lemma token_string_trim s :
  contains_only_http_token_code_points s = true → string_trim_right s HTTP_WHITESPACE = Returned (Some s).
Proof.
  intros Hs. assert (Forall (λ c, 0 ≤ c < 0x80) s) as Ha.
  { apply token_characters; [done|]. intros c Hc%token_character_byte. lia. }
  pose proof (string_trim_right_spec s HTTP_WHITESPACE) as Hspec.
  rewrite token_trim_right, ascii_utf8_of in Hspec by done. apply Hspec; [|by repeat constructor].
  eapply Forall_impl; [exact Ha|]. cbn beta. intros c Hc. split; [lia|]. unfold is_unicode_surrogate. lia.
Qed.

Lemma add_parameter_new m name value :
  parameter_wf (name, value) → contains_parameter (m_parameters m) name = false →
  (if negb (bool_decide (name = [])) && contains_only_http_token_code_points name
      && contains_only_http_quoted_string_token_code_points value
      && negb (contains_parameter (m_parameters m) name)
   then with_parameters m (set_entry (m_parameters m) name value) else m)
  = with_parameters m (m_parameters m ++ [(name, value)]).
Proof.
  intros [(Hne & Htok & _) Hv Hq] Hnew. cbn [fst snd] in *.
  by rewrite Htok, Hq, Hnew, (proj1 (set_entry_new _ _ _ Hnew)), (bool_decide_eq_false_2 (name = [])).
Qed.

(** Reading a value: up to the next parameter or the end. *)
Lemma value_text_read continue l m name value rest :
  lexer_ok l → valid_utf8 (m_input l) → remaining l = value_text value ++ rest →
  match rest with c :: _ => c = c_semicolon | [] => True end →
  parameter_wf (name, value) → contains_parameter (m_parameters m) name = false →
  ∃ l', lexer_ok l' ∧ m_input l' = m_input l ∧ remaining l' = rest ∧
    parse_parameter_value continue l m name = continue l' (with_parameters m (m_parameters m ++ [(name, value)])).
Proof.
  intros Hok Hi Hr Hsemi Hwf Hnew. unfold parse_parameter_value. cbn zeta.
  assert (stops (λ c, negb (c_semicolon =? c)) rest) as Hstop by (destruct rest; [done|]; by rewrite Hsemi).
  rewrite peek_remaining, Hr. unfold value_text in *.
  destruct (contains_only_http_token_code_points value && _) eqn:E.
  - apply andb_prop in E as [Hvt Hvne%negb_true_iff%bool_decide_eq_false].
    assert ((default 0 (head (value ++ rest)) =? c_quote) = false) as ->.
    { pose proof (token_characters value _ Hvt token_character_byte) as Hall.
      destruct value as [|d value]; [done|]. apply Forall_cons in Hall as [Hd _]. cbn. lia. }
    destruct (consume_while_app (λ c, negb (c_semicolon =? c)) l value rest Hok Hr) as (l' & Hc & Hr' & Hok' & Hi').
    { apply token_characters; [done|]. intros d Hd%token_character_byte. lia. }
    { done. }
    exists l'. split_and!; try done. unfold consume_until. rewrite Hc, bind_value.
    rewrite token_string_trim, bind_value by done. cbn [must]. rewrite bind_value, (bool_decide_eq_false_2 (value = [])) by done. by rewrite add_parameter_new.
  - cbn [app] in *. rewrite <-app_assoc in Hr. cbn [app head default id] in *.
    rewrite (collect_quoted_spec l _ ExtractYes Hi Hr), bind_value, quoted_value_escape. cbn [fst snd].
    assert (remaining (lexer_at l rest) = rest) as Hr'.
    { apply (remaining_lexer_at _ (take (m_index l) (m_input l) ++ c_quote :: escape_quoted value ++ [c_quote])).
      rewrite <-app_assoc. cbn [app]. rewrite <-app_assoc. cbn [app]. rewrite <-Hr. unfold remaining. by rewrite take_drop. }
    exists (ignore_until (Z.eqb c_semicolon) (lexer_at l rest)). unfold ignore_until. split_and!; [|done| |by rewrite add_parameter_new].
    + apply ignore_while_ok. unfold lexer_ok, lexer_at. cbn. lia.
    + rewrite remaining_ignore_while, Hr'. pose proof (scan_while_app (λ c, negb (c_semicolon =? c)) [] rest) as Hscan.
      cbn [app length] in Hscan. by rewrite Hscan.
Qed.

Lemma lower_token_valid s : lower_token s → valid_utf8 s.
Proof.
  intros (_ & Htok & _). assert (Forall (λ c, 0x20 < c < 0x7f) s) as Ha.
  { apply token_characters; [done|]. intros c Hc%token_character_byte. lia. }
  apply ascii_valid_utf8.
  - eapply Forall_impl; [exact Ha|]. unfold is_byte. cbn. lia.
  - apply forallb_Forall. eapply Forall_impl; [exact Ha|]. unfold is_ascii. cbn. lia.
Qed.

Lemma lower_token_lowercase s : lower_token s → to_ascii_lowercase_string s = Returned s.
Proof.
  intros Hs. rewrite lowercase_string_valid by (by apply lower_token_valid). by rewrite (proj2 (proj2 Hs)).
Qed.

(** One turn of the loop reads one serialized parameter. *)
Lemma parameter_text_read fuel l m name value rest :
  lexer_ok l → valid_utf8 (m_input l) → remaining l = parameter_text (name, value) ++ rest →
  match rest with c :: _ => c = c_semicolon | [] => True end →
  parameter_wf (name, value) → contains_parameter (m_parameters m) name = false →
  ∃ l', lexer_ok l' ∧ m_input l' = m_input l ∧ remaining l' = rest ∧
    parse_parameters (S fuel) l m = parse_parameters fuel l' (with_parameters m (m_parameters m ++ [(name, value)])).
Proof.
  intros Hok Hi Hr Hsemi Hwf Hnew. pose proof (parameter_name_token _ Hwf) as Hname. cbn [fst] in Hname.
  unfold parameter_text in Hr. cbn [fst snd app] in Hr. rewrite <-!app_assoc in Hr. cbn [app] in Hr.
  cbn [parse_parameters]. rewrite is_eof_remaining, Hr, bool_decide_eq_false_2 by done.
  destruct (remaining_cons _ _ _ Hr) as (_ & _ & Hr1 & Hok1 & _).
  pose proof (token_characters name _ (proj1 (proj2 Hname)) (λ c Hc, conj (token_character_byte c Hc) (token_not_whitespace c Hc))) as Hchars.
  assert (ignore_while (is_any_of HTTP_WHITESPACE) (ignore l 1) = ignore l 1) as ->.
  { unfold ignore_while. fold (remaining (ignore l 1)). rewrite Hr1.
    destruct name as [|c name]; [by destruct Hname|]. apply Forall_cons in Hchars as [[_ Hc] _]. cbn [app scan_while].
    unfold is_any_of. rewrite Hc, Nat.add_0_r. by destruct (ignore l 1). }
  destruct (consume_while_app (λ c, negb ((c =? c_semicolon) || (c =? c_equals))) _ name _ Hok1 Hr1)
    as (l2 & Hc2 & Hr2 & Hok2 & Hi2); [|done|].
  { eapply Forall_impl; [exact Hchars|]. cbn. intros c [Hc _]. bool_to_prop. lia. }
  unfold consume_until at 1. rewrite Hc2, bind_value, lower_token_lowercase, bind_value by done.
  rewrite is_eof_remaining, peek_remaining, Hr2, bool_decide_eq_false_2 by done. cbn [negb andb head default id Z.eqb Pos.eqb].
  destruct (remaining_cons _ _ _ Hr2) as (_ & _ & Hr3 & Hok3 & _).
  rewrite is_eof_remaining, Hr3, bool_decide_eq_false_2.
  2:{ intros [Hnil _]%app_nil. unfold value_text in Hnil. destruct (_ && _) eqn:E; [|done]. by rewrite Hnil in E. }
  destruct (value_text_read (parse_parameters fuel) (ignore l2 1) m name value rest) as (l' & Hok' & Hi' & Hr' & ->); try done.
  - cbn. by rewrite Hi2.
  - exists l'. split_and!; try done. rewrite Hi'. exact Hi2.
Qed.

Lemma contains_parameter_absent ps name : name ∉ map fst ps → contains_parameter ps name = false.
Proof.
  induction ps as [|[n v] ps IH]; [done|]. cbn. rewrite not_elem_of_cons. intros [Hn Hnin].
  rewrite bool_decide_eq_false_2 by done. by apply IH.
Qed.

Lemma parameters_text_read ps fuel l m :
  lexer_ok l → valid_utf8 (m_input l) → remaining l = flat_map parameter_text ps →
  Forall parameter_wf ps → NoDup (map fst (m_parameters m ++ ps)) → (length ps < fuel)%nat →
  parse_parameters fuel l m = Returned (with_parameters m (m_parameters m ++ ps)).
Proof.
  intros Hok Hi Hr Hwf. revert fuel l m Hok Hi Hr. induction Hwf as [|[n v] ps Hp Hps IH];
    intros fuel l m Hok Hi Hr Hnd Hf; (destruct fuel as [|fuel]; [cbn in Hf; lia|]).
  - cbn [parse_parameters]. rewrite is_eof_remaining, Hr. cbn. rewrite app_nil_r. by destruct m.
  - destruct (parameter_text_read fuel l m n v (flat_map parameter_text ps)) as (l' & Hok' & Hi' & Hr' & ->); try done.
    + by destruct ps as [|[??]].
    + apply contains_parameter_absent. rewrite map_app in Hnd. apply NoDup_app in Hnd as (_ & Hd & _).
      intros Hin. eapply Hd; [exact Hin|]. cbn. by left.
    + rewrite IH; cbn [m_parameters with_parameters]; try done.
      * by rewrite <-app_assoc.
      * by rewrite Hi'.
      * by rewrite <-app_assoc.
      * cbn in Hf. lia.
Qed.

(** Text no trimming shortens. *)
Definition ends_plain (s : bytes) : Prop := ∃ p c, s = p ++ [c] ∧ contains_char HTTP_WHITESPACE c = false.

Lemma token_ends_plain s : s ≠ [] → contains_only_http_token_code_points s = true → ends_plain s.
Proof.
  intros Hne Hs. destruct s as [|c s _] using rev_ind; [done|]. exists s, c. split; [done|].
  pose proof (token_characters _ _ Hs token_not_whitespace) as [_ Hc]%Forall_app. by inversion Hc.
Qed.

Lemma parameter_text_ends_plain p : ends_plain (parameter_text p).
Proof.
  unfold parameter_text. cut (ends_plain (value_text p.2)).
  { intros (q & c & -> & Hc). exists ([c_semicolon] ++ p.1 ++ [c_equals] ++ q), c. by rewrite !app_assoc. }
  unfold value_text. destruct (_ && _) eqn:E.
  - apply andb_prop in E as [Hvt Hvne%negb_true_iff%bool_decide_eq_false]. by apply token_ends_plain.
  - by exists (c_quote :: escape_quoted p.2), c_quote.
Qed.

Lemma parameters_text_end_plain s ps : ends_plain s → ends_plain (s ++ flat_map parameter_text ps).
Proof.
  revert s. induction ps as [|p ps IH]; intros s Hs; cbn [flat_map]; [by rewrite app_nil_r|].
  rewrite app_assoc. apply IH. destruct (parameter_text_ends_plain p) as (q & c & -> & Hc).
  exists (s ++ q), c. by rewrite app_assoc.
Qed.

Lemma parameter_text_valid p : parameter_wf p → valid_utf8 (parameter_text p).
Proof.
  intros [Hn Hv _]. assert (∀ c, 0 ≤ c < 0x80 → valid_utf8 [c]) as Hc by apply valid_utf8_ascii_char.
  unfold parameter_text. repeat apply valid_utf8_app; [by apply Hc|by apply lower_token_valid|by apply Hc|].
  unfold value_text. case_match; [done|]. apply (valid_utf8_app [c_quote]); [by apply Hc|].
  apply valid_utf8_app; [by apply escape_quoted_valid|by apply Hc].
Qed.

Lemma serialized_valid m :
  mime_type_wf m →
  valid_utf8 (m_type m ++ [c_slash] ++ m_subtype m ++ flat_map parameter_text (m_parameters m)).
Proof.
  intros [Ht Hs _ Hp _]. repeat apply valid_utf8_app; [by apply lower_token_valid|by apply valid_utf8_ascii_char
    |by apply lower_token_valid|]. induction Hp; [apply valid_utf8_nil|]. cbn [flat_map].
  by apply valid_utf8_app; [apply parameter_text_valid|].
Qed.

Lemma serialized_untrimmed m :
  mime_type_wf m →
  let s := m_type m ++ [c_slash] ++ m_subtype m ++ flat_map parameter_text (m_parameters m) in
  trim s HTTP_WHITESPACE TrimBoth = s.
Proof.
  intros [(Hne & Ht & _) (Hsne & Hs & _) _ Hp _] s. cbn [trim].
  assert (trim_left s HTTP_WHITESPACE = s) as ->.
  { unfold s. pose proof (token_characters _ _ Ht token_not_whitespace) as Hall.
    destruct (m_type m) as [|c t]; [done|]. apply Forall_cons in Hall as [Hc _]. cbn [app trim_left]. by rewrite Hc. }
  assert (ends_plain s) as (q & c & -> & Hc); [|by apply trim_right_snoc].
  unfold s. rewrite !app_assoc. apply parameters_text_end_plain.
  destruct (token_ends_plain _ Hsne Hs) as (q & c & -> & Hc). exists ((m_type m ++ [c_slash]) ++ q), c.
  by rewrite app_assoc.
Qed.

Lemma serialized_parsed m :
  mime_type_wf m → ∃ s, serialized m = Returned s ∧ mime_type_parse s = Returned (Some m).
Proof.
  intros Hm. eexists. split; [by apply serialized_text|]. unfold mime_type_parse.
  rewrite utf8_validate_valid, bind_value by (by apply serialized_valid). cbn [negb].
  rewrite serialized_untrimmed by done. pose proof (serialized_valid m Hm) as Hv.
  set (s := _ ++ _) in *. pose proof Hm as [Ht Hs He Hp Hu].
  assert (remaining (lexer_of s) = s) as Hr0 by (unfold remaining; apply drop_0).
  pose proof (token_characters _ _ (proj1 (proj2 Ht)) token_character_byte) as Htc.
  pose proof (token_characters _ _ (proj1 (proj2 Hs)) token_character_byte) as Hsc.
  destruct (consume_while_app (λ c, negb (c_slash =? c)) (lexer_of s) (m_type m) _ ltac:(unfold lexer_ok; cbn; lia) Hr0)
    as (l1 & Hc1 & Hr1 & Hok1 & Hi1); [|done|].
  { eapply Forall_impl; [exact Htc|]. cbn beta. intros c Hc. lia. }
  unfold consume_until. rewrite Hc1, bind_value.
  rewrite (proj1 (proj2 Ht)), bool_decide_eq_false_2 by apply Ht. cbn [negb orb].
  rewrite is_eof_remaining, Hr1, bool_decide_eq_false_2 by done.
  destruct (remaining_cons _ _ _ Hr1) as (_ & _ & Hr2 & Hok2 & _).
  destruct (consume_while_app (λ c, negb (c_semicolon =? c)) (ignore l1 1) (m_subtype m) _ Hok2 Hr2)
    as (l3 & Hc3 & Hr3 & Hok3 & Hi3).
  { eapply Forall_impl; [exact Hsc|]. cbn beta. intros c Hc. lia. }
  { by destruct (m_parameters m) as [|[??]]. }
  rewrite Hc3, bind_value. cbn [trim]. rewrite token_trim_right by apply Hs.
  rewrite (proj1 (proj2 Hs)), bool_decide_eq_false_2 by apply Hs. cbn [negb orb].
  rewrite (lower_token_lowercase _ Ht), bind_value, (lower_token_lowercase _ Hs), bind_value.
  rewrite (proj1 (lower_token_create _ _ Ht Hs)), bind_value.
  rewrite (parameters_text_read (m_parameters m)); try done.
  - unfold with_parameters. cbn [m_type m_subtype m_parameters m_cached_essence app]. rewrite bind_value. change (m_type m ++ c_slash :: m_subtype m) with (m_type m ++ [c_slash] ++ m_subtype m).
    rewrite <-He. by destruct m.
  - rewrite Hi3. cbn. by rewrite Hi1.
  - unfold s. rewrite !length_app. cut (length (m_parameters m) ≤ length (flat_map parameter_text (m_parameters m)))%nat; [lia|].
    generalize (m_parameters m). clear. intros ps. induction ps as [|p ps IH]; [done|]. cbn [flat_map].
    rewrite length_app. unfold parameter_text at 1. cbn [app length]. lia.
Qed.

(** C24: Serializing a well-formed MIME type succeeds, and parsing the text gives
    the same MIME type back: values with characters that are not tokens are quoted
    and escaped so that the parser undoes it. *)
Theorem mime_type_roundtrip m :
  mime_type_wf m → ∃ s, serialized m = Returned s ∧ mime_type_parse s = Returned (Some m).
Proof. apply serialized_parsed. Qed.

End Text.

#[local] Existing Instances simdutf_example simdutf_example_ok.

Definition example_mime_type : MimeType :=
  mk_mime_type (sv "text") (sv "html")
    [(sv "charset", sv "utf-8"); (sv "title", [0x61; c_quote; c_space; c_backslash; 0xC3; 0xA9])] (sv "text/html").

Lemma example_mime_type_wf : mime_type_wf example_mime_type.
Proof.
  assert (∀ s, forallb is_ascii s && forallb (λ b, 0 <=? b) s = true → valid_utf8 s) as Hascii.
  { intros s [Ha Hb]%andb_prop. apply ascii_valid_utf8; [|done].
    rewrite forallb_forall in *. apply List.Forall_forall. intros c Hc. specialize (Ha c Hc). specialize (Hb c Hc).
    unfold is_ascii, is_byte in *. lia. }
  split; try by vm_compute.
  - apply Forall_cons. split; [split; [by vm_compute|by apply Hascii|by vm_compute]|]. apply Forall_singleton.
    split; [by vm_compute| |by vm_compute].
    exists [0x61; c_quote; c_space; c_backslash; 0xE9]. split; [|by vm_compute].
    unfold is_scalar. repeat (apply Forall_cons; split; [by vm_compute|]). apply Forall_nil_2.
  - apply NoDup_cons. split; [|apply NoDup_singleton]. rewrite list_elem_of_singleton. by vm_compute.
Defined.

Lemma mime_type_roundtrip_witness :
  ∃ s, serialized example_mime_type = Returned s ∧ mime_type_parse s = Returned (Some example_mime_type).
Proof. apply (mime_type_roundtrip example_mime_type). apply example_mime_type_wf. Defined.

Lemma mime_type_parse_wf_witness :
  ∃ r, mime_type_parse (sv "Text/HTML ;Charset=x; charset=y") = Returned r ∧ ∀ m, r = Some m → mime_type_wf m.
Proof. apply mime_type_parse_wf. apply ascii_valid_utf8; [by repeat constructor|by vm_compute]. Defined.
