(* ===== verification/MimeSniff.v ===== *)
(** * LibWeb/MimeSniff/Resource.cpp: MIME sniffing

    The type of a resource is computed from its first 1445 bytes and the type it was
    supplied with.  The byte patterns are the tables of the source; spans are indexed
    and sliced with the checks of AK's [Span].  [MimeType::parse] runs on the type of a
    row (MimeType.v, with the UTF-8 validation of simdutf as a parameter). *)
From S2P Require Import Prelude CharacterTypes Externals Utf8 StringView Utf8View Format Ipv4 TextCodec GenericLexer Http HttpHeader MimeType.

Record BytePatternTableRow := mk_row {
  byte_pattern : bytes;
  pattern_mask : bytes;
  ignored_leading_bytes : bytes;
  row_mime_type : bytes;
  is_tag_terminated : bool;
}.

Definition is_tag_terminating_byte (byte : Z) : bool := (byte =? 0x20) || (byte =? 0x3E).

Definition is_binary_data_byte (byte : Z) : bool :=
  (byte <=? 0x08) || (byte =? 0x0B) || ((0x0E <=? byte) && (byte <=? 0x1A)) || ((0x1C <=? byte) && (byte <=? 0x1F)).

(** The loop over the ignored bytes: the index of the first other one. *)
Fixpoint skip_ignored (input ignored : bytes) : nat :=
  match input with
  | [] => 0
  | c :: input => if negb (contains_char ignored c) then 0 else S (skip_ignored input ignored)
  end.

(** The loop over the pattern. *)
Fixpoint match_loop (input : bytes) (s : nat) (pattern mask : bytes) (tag_terminated : bool) : outcome bool :=
  match pattern, mask with
  | [], _ => Returned true
  | _ :: _, [] => VerifyFailed
  | p :: pattern, m :: mask =>
      c ← at_index input s;
      let masked_data := Z.land c m in
      if tag_terminated && bool_decide (pattern = []) then Returned (is_tag_terminating_byte masked_data)
      else if negb (masked_data =? p) then Returned false
      else match_loop input (s + 1) pattern mask tag_terminated
  end.

Definition pattern_matching_algorithm (input pattern mask ignored : bytes) (tag_terminated : bool) : outcome bool :=
  verify (length pattern =? length mask)%nat (
    if (length input <? length pattern)%nat then Returned false
    else match_loop input (skip_ignored input ignored) pattern mask tag_terminated).

Definition ignored_whitespace_bytes : bytes := [0x09; 0x0A; 0x0C; 0x0D; 0x20].

Definition image_pattern_table : list BytePatternTableRow :=
  [mk_row [0x00; 0x00; 0x01; 0x00]
     [0xFF; 0xFF; 0xFF; 0xFF] [] (sv "image/x-icon") false;
   mk_row [0x00; 0x00; 0x02; 0x00]
     [0xFF; 0xFF; 0xFF; 0xFF] [] (sv "image/x-icon") false;
   mk_row [0x42; 0x4D]
     [0xFF; 0xFF] [] (sv "image/bmp") false;
   mk_row [0x47; 0x49; 0x46; 0x38; 0x37; 0x61]
     [0xFF; 0xFF; 0xFF; 0xFF; 0xFF; 0xFF] [] (sv "image/gif") false;
   mk_row [0x47; 0x49; 0x46; 0x38; 0x39; 0x61]
     [0xFF; 0xFF; 0xFF; 0xFF; 0xFF; 0xFF] [] (sv "image/gif") false;
   mk_row [0x52; 0x49; 0x46; 0x46; 0x00; 0x00; 0x00; 0x00; 0x57; 0x45; 0x42; 0x50; 0x56; 0x50]
     [0xFF; 0xFF; 0xFF; 0xFF; 0x00; 0x00; 0x00; 0x00; 0xFF; 0xFF; 0xFF; 0xFF; 0xFF; 0xFF] [] (sv "image/webp") false;
   mk_row [0x89; 0x50; 0x4E; 0x47; 0x0D; 0x0A; 0x1A; 0x0A]
     [0xFF; 0xFF; 0xFF; 0xFF; 0xFF; 0xFF; 0xFF; 0xFF] [] (sv "image/png") false;
   mk_row [0xFF; 0xD8; 0xFF]
     [0xFF; 0xFF; 0xFF] [] (sv "image/jpeg") false].

Definition audio_or_video_pattern_table : list BytePatternTableRow :=
  [mk_row [0x46; 0x4F; 0x52; 0x4D; 0x00; 0x00; 0x00; 0x00; 0x41; 0x49; 0x46; 0x46]
     [0xFF; 0xFF; 0xFF; 0xFF; 0x00; 0x00; 0x00; 0x00; 0xFF; 0xFF; 0xFF; 0xFF] [] (sv "audio/aiff") false;
   mk_row [0x49; 0x44; 0x33]
     [0xFF; 0xFF; 0xFF] [] (sv "audio/mpeg") false;
   mk_row [0x4F; 0x67; 0x67; 0x53; 0x00]
     [0xFF; 0xFF; 0xFF; 0xFF; 0xFF] [] (sv "application/ogg") false;
   mk_row [0x4D; 0x54; 0x68; 0x64; 0x00; 0x00; 0x00; 0x06]
     [0xFF; 0xFF; 0xFF; 0xFF; 0xFF; 0xFF; 0xFF; 0xFF] [] (sv "audio/midi") false;
   mk_row [0x52; 0x49; 0x46; 0x46; 0x00; 0x00; 0x00; 0x00; 0x41; 0x56; 0x49; 0x20]
     [0xFF; 0xFF; 0xFF; 0xFF; 0x00; 0x00; 0x00; 0x00; 0xFF; 0xFF; 0xFF; 0xFF] [] (sv "video/avi") false;
   mk_row [0x52; 0x49; 0x46; 0x46; 0x00; 0x00; 0x00; 0x00; 0x57; 0x41; 0x56; 0x45]
     [0xFF; 0xFF; 0xFF; 0xFF; 0x00; 0x00; 0x00; 0x00; 0xFF; 0xFF; 0xFF; 0xFF] [] (sv "audio/wave") false].

Definition font_pattern_table : list BytePatternTableRow :=
  [mk_row (replicate 34 0x00 ++ [0x4C; 0x50])
     (replicate 34 0x00 ++ [0xFF; 0xFF]) [] (sv "application/vnd.ms-fontobject") false;
   mk_row [0x00; 0x01; 0x00; 0x00]
     [0xFF; 0xFF; 0xFF; 0xFF] [] (sv "font/ttf") false;
   mk_row [0x4F; 0x54; 0x54; 0x4F]
     [0xFF; 0xFF; 0xFF; 0xFF] [] (sv "font/otf") false;
   mk_row [0x74; 0x74; 0x63; 0x66]
     [0xFF; 0xFF; 0xFF; 0xFF] [] (sv "font/collection") false;
   mk_row [0x77; 0x4F; 0x46; 0x46]
     [0xFF; 0xFF; 0xFF; 0xFF] [] (sv "font/woff") false;
   mk_row [0x77; 0x4F; 0x46; 0x32]
     [0xFF; 0xFF; 0xFF; 0xFF] [] (sv "font/woff2") false].

Definition archive_pattern_table : list BytePatternTableRow :=
  [mk_row [0x1F; 0x8B; 0x08]
     [0xFF; 0xFF; 0xFF] [] (sv "application/x-gzip") false;
   mk_row [0x50; 0x4B; 0x03; 0x04]
     [0xFF; 0xFF; 0xFF; 0xFF] [] (sv "application/zip") false;
   mk_row [0x52; 0x61; 0x72; 0x21; 0x1A; 0x07; 0x00]
     [0xFF; 0xFF; 0xFF; 0xFF; 0xFF; 0xFF; 0xFF] [] (sv "application/x-rar-compressed") false].

Definition scriptable_pattern_table : list BytePatternTableRow :=
  [mk_row [0x3C; 0x21; 0x44; 0x4F; 0x43; 0x54; 0x59; 0x50; 0x45; 0x20; 0x48; 0x54; 0x4D; 0x4C; 0x00]
     [0xFF; 0xFF; 0xDF; 0xDF; 0xDF; 0xDF; 0xDF; 0xDF; 0xDF; 0xFF; 0xDF; 0xDF; 0xDF; 0xDF; 0xFF] ignored_whitespace_bytes (sv "text/html") true;
   mk_row [0x3C; 0x48; 0x54; 0x4D; 0x4C; 0x00]
     [0xFF; 0xDF; 0xDF; 0xDF; 0xDF; 0xFF] ignored_whitespace_bytes (sv "text/html") true;
   mk_row [0x3C; 0x48; 0x45; 0x41; 0x44; 0x00]
     [0xFF; 0xDF; 0xDF; 0xDF; 0xDF; 0xFF] ignored_whitespace_bytes (sv "text/html") true;
   mk_row [0x3C; 0x53; 0x43; 0x52; 0x49; 0x50; 0x54; 0x00]
     [0xFF; 0xDF; 0xDF; 0xDF; 0xDF; 0xDF; 0xDF; 0xFF] ignored_whitespace_bytes (sv "text/html") true;
   mk_row [0x3C; 0x49; 0x46; 0x52; 0x41; 0x4D; 0x45; 0x00]
     [0xFF; 0xDF; 0xDF; 0xDF; 0xDF; 0xDF; 0xDF; 0xFF] ignored_whitespace_bytes (sv "text/html") true;
   mk_row [0x3C; 0x48; 0x31; 0x00]
     [0xFF; 0xDF; 0xFF; 0xFF] ignored_whitespace_bytes (sv "text/html") true;
   mk_row [0x3C; 0x44; 0x49; 0x56; 0x00]
     [0xFF; 0xDF; 0xDF; 0xDF; 0xFF] ignored_whitespace_bytes (sv "text/html") true;
   mk_row [0x3C; 0x46; 0x4F; 0x4E; 0x54; 0x00]
     [0xFF; 0xDF; 0xDF; 0xDF; 0xDF; 0xFF] ignored_whitespace_bytes (sv "text/html") true;
   mk_row [0x3C; 0x54; 0x41; 0x42; 0x4C; 0x45; 0x00]
     [0xFF; 0xDF; 0xDF; 0xDF; 0xDF; 0xDF; 0xFF] ignored_whitespace_bytes (sv "text/html") true;
   mk_row [0x3C; 0x41; 0x00]
     [0xFF; 0xDF; 0xFF] ignored_whitespace_bytes (sv "text/html") true;
   mk_row [0x3C; 0x53; 0x54; 0x59; 0x4C; 0x45; 0x00]
     [0xFF; 0xDF; 0xDF; 0xDF; 0xDF; 0xDF; 0xFF] ignored_whitespace_bytes (sv "text/html") true;
   mk_row [0x3C; 0x54; 0x49; 0x54; 0x4C; 0x45; 0x00]
     [0xFF; 0xDF; 0xDF; 0xDF; 0xDF; 0xDF; 0xFF] ignored_whitespace_bytes (sv "text/html") true;
   mk_row [0x3C; 0x42; 0x00]
     [0xFF; 0xDF; 0xFF] ignored_whitespace_bytes (sv "text/html") true;
   mk_row [0x3C; 0x42; 0x4F; 0x44; 0x59; 0x00]
     [0xFF; 0xDF; 0xDF; 0xDF; 0xDF; 0xFF] ignored_whitespace_bytes (sv "text/html") true;
   mk_row [0x3C; 0x42; 0x52; 0x00]
     [0xFF; 0xDF; 0xDF; 0xFF] ignored_whitespace_bytes (sv "text/html") true;
   mk_row [0x3C; 0x50; 0x00]
     [0xFF; 0xDF; 0xFF] ignored_whitespace_bytes (sv "text/html") true;
   mk_row [0x3C; 0x21; 0x2D; 0x2D; 0x00]
     [0xFF; 0xFF; 0xFF; 0xFF; 0xFF] ignored_whitespace_bytes (sv "text/html") true;
   mk_row [0x3C; 0x3F; 0x78; 0x6D; 0x6C]
     [0xFF; 0xFF; 0xFF; 0xFF; 0xFF] ignored_whitespace_bytes (sv "text/xml") false;
   mk_row [0x25; 0x50; 0x44; 0x46; 0x2D]
     [0xFF; 0xFF; 0xFF; 0xFF; 0xFF] [] (sv "application/pdf") false].

Definition text_pattern_table : list BytePatternTableRow :=
  [mk_row [0x25; 0x21; 0x50; 0x53; 0x2D; 0x41; 0x64; 0x6F; 0x62; 0x65; 0x2D]
     [0xFF; 0xFF; 0xFF; 0xFF; 0xFF; 0xFF; 0xFF; 0xFF; 0xFF; 0xFF; 0xFF] [] (sv "application/postscript") false;
   mk_row [0xFE; 0xFF; 0x00; 0x00]
     [0xFF; 0xFF; 0x00; 0x00] [] (sv "text/plain") false;
   mk_row [0xFF; 0xFE; 0x00; 0x00]
     [0xFF; 0xFF; 0x00; 0x00] [] (sv "text/plain") false;
   mk_row [0xEF; 0xBB; 0xBF; 0x00]
     [0xFF; 0xFF; 0xFF; 0x00] [] (sv "text/plain") false].

Module Sniffing.
Section Parsing.
Context `{Simdutf}.

(** The loops over a table of an image, media, font or archive type. *)
Fixpoint match_rows (input : bytes) (rows : list BytePatternTableRow) : outcome (option MimeType) :=
  match rows with
  | [] => Returned None
  | row :: rows =>
      pattern_matched ← pattern_matching_algorithm input (byte_pattern row) (pattern_mask row) (ignored_leading_bytes row) false;
      if pattern_matched : bool then mime_type_parse (row_mime_type row) else match_rows input rows
  end.

Definition match_an_image_type_pattern (input : bytes) : outcome (option MimeType) := match_rows input image_pattern_table.

(** [Span::slice(start, length)] *)
Notation slice := substring_view.

Fixpoint mp4_loop (fuel : nat) (sequence : bytes) (box_size bytes_read : Z) : outcome bool :=
  match fuel with
  | O => OutOfFuel
  | S fuel =>
      if bytes_read <? box_size then
        brand ← slice sequence (Z.to_nat bytes_read) 3;
        if bool_decide (brand = [0x6D; 0x70; 0x34]) then Returned true
        else mp4_loop fuel sequence box_size (bytes_read + 4)
      else Returned false
  end.

Definition matches_mp4_signature (sequence : bytes) : outcome bool :=
  if (length sequence <? 12)%nat then Returned false
  else
    b0 ← at_index sequence 0; b1 ← at_index sequence 1; b2 ← at_index sequence 2; b3 ← at_index sequence 3;
    let box_size := wrap32 (Z.lor (Z.lor (Z.lor (Z.shiftl b0 24) (Z.shiftl b1 16)) (Z.shiftl b2 8)) b3) in
    if (Z.of_nat (length sequence) <? box_size) || negb (box_size mod 4 =? 0) then Returned false
    else
      ftyp ← slice sequence 4 4;
      if negb (bool_decide (ftyp = [0x66; 0x74; 0x79; 0x70])) then Returned false
      else
        brand ← slice sequence 8 3;
        if bool_decide (brand = [0x6D; 0x70; 0x34]) then Returned true
        else mp4_loop (S (length sequence)) sequence box_size 16.

(** The size of a vint: the loop over the first byte, which also shifts the mask. *)
Fixpoint vint_size_loop (fuel : nat) (sequence : bytes) (mask : Z) (number_size : nat) : outcome (Z * nat) :=
  match fuel with
  | O => OutOfFuel
  | S fuel =>
      if (number_size <? 8)%nat && (number_size <? length sequence)%nat then
        c ← at_index sequence 0;
        if negb (Z.land c mask =? 0) then Returned (mask, number_size)
        else vint_size_loop fuel sequence (Z.shiftr mask 1) (number_size + 1)
      else Returned (mask, number_size)
  end.

Fixpoint vint_value_loop (bytes_remaining : nat) (sequence : bytes) (index : nat) (parsed_number : Z) : outcome Z :=
  match bytes_remaining with
  | O => Returned parsed_number
  | S bytes_remaining =>
      c ← at_index sequence index;
      let parsed_number := Z.lor (wrap64 (Z.shiftl parsed_number 8)) c in
      if (length sequence <=? index + 1)%nat then Returned parsed_number
      else vint_value_loop bytes_remaining sequence (index + 1) parsed_number
  end.

(** The value and the length. *)
Definition parse_a_vint (sequence : bytes) (iter : nat) : outcome (Z * nat) :=
  sequence ← substring_view_from sequence iter;
  '(mask, number_size) ← vint_size_loop 9 sequence 128 1;
  c ← at_index sequence 0;
  let parsed_number := Z.land c (Z.lnot mask) in
  parsed_number ← vint_value_loop (number_size - 1) sequence 1 parsed_number;
  Returned (parsed_number, number_size).

Fixpoint webm_loop (fuel : nat) (sequence : bytes) (iter : nat) : outcome bool :=
  match fuel with
  | O => OutOfFuel
  | S fuel =>
      if (iter <? length sequence)%nat && (iter <? 38)%nat then
        if (length sequence <=? iter + 1)%nat then Returned false
        else
          element ← slice sequence iter 2;
          if bool_decide (element = [0x42; 0x82]) then
            let iter := (iter + 2)%nat in
            if (length sequence <=? iter)%nat then Returned false
            else
              '(_, number_size) ← parse_a_vint sequence iter;
              let iter := (iter + number_size)%nat in
              if (length sequence - 4 <=? iter)%nat then Returned false
              else
                doctype ← slice sequence iter 4;
                if bool_decide (doctype = [0x77; 0x65; 0x62; 0x6D]) then Returned true
                else webm_loop fuel sequence (iter + 1)
          else webm_loop fuel sequence (iter + 1)
      else Returned false
  end.

Definition matches_webm_signature (sequence : bytes) : outcome bool :=
  if (length sequence <? 4)%nat then Returned false
  else if negb (starts_with sequence [0x1A; 0x45; 0xDF; 0xA3] CaseSensitive) then Returned false
  else webm_loop 35 sequence 4.

Definition match_mp3_header (sequence : bytes) (s : nat) : outcome bool :=
  if wrap64 (Z.of_nat (length sequence) - Z.of_nat s) <? 4 then Returned false
  else
    c0 ← at_index sequence s;
    if negb (c0 =? 0xff) then Returned false
    else
      c1 ← at_index sequence (s + 1);
      if negb (Z.land c1 0xe0 =? 0xe0) then Returned false
      else
        let layer := Z.shiftr (Z.land c1 0x06) 1 in
        if layer =? 0 then Returned false
        else
          c2 ← at_index sequence (s + 2);
          let bit_rate := Z.shiftr (Z.land c2 0xf0) 4 in
          if bit_rate =? 15 then Returned false
          else
            let sample_rate := Z.shiftr (Z.land c2 0x0c) 2 in
            Returned (negb (sample_rate =? 3)).

Definition matches_mp3_no_id3_signature (sequence : bytes) : outcome bool := match_mp3_header sequence 0.

Definition match_an_audio_or_video_type_pattern (input : bytes) : outcome (option MimeType) :=
  matched ← match_rows input audio_or_video_pattern_table;
  match matched with
  | Some m => Returned (Some m)
  | None =>
      mp4 ← matches_mp4_signature input;
      if mp4 : bool then m ← mime_type_create (sv "video") (sv "mp4"); Returned (Some m)
      else
        webm ← matches_webm_signature input;
        if webm : bool then m ← mime_type_create (sv "video") (sv "webm"); Returned (Some m)
        else
          mp3 ← matches_mp3_no_id3_signature input;
          if mp3 : bool then m ← mime_type_create (sv "audio") (sv "mpeg"); Returned (Some m)
          else Returned None
  end.

Definition match_a_font_type_pattern (input : bytes) : outcome (option MimeType) := match_rows input font_pattern_table.

Definition match_an_archive_type_pattern (input : bytes) : outcome (option MimeType) := match_rows input archive_pattern_table.

(** The loops over the tables of the unknown types: a row whose type cannot be parsed is passed over. *)
Fixpoint match_unknown_rows (input : bytes) (rows : list BytePatternTableRow) (use_tag_terminated : bool) : outcome (option MimeType) :=
  match rows with
  | [] => Returned None
  | row :: rows =>
      pattern_matched ← pattern_matching_algorithm input (byte_pattern row) (pattern_mask row) (ignored_leading_bytes row)
        (use_tag_terminated && is_tag_terminated row);
      if pattern_matched : bool then
        maybe_type ← mime_type_parse (row_mime_type row);
        match maybe_type with
        | Some m => Returned (Some m)
        | None => match_unknown_rows input rows use_tag_terminated
        end
      else match_unknown_rows input rows use_tag_terminated
  end.

Definition rules_for_identifying_an_unknown_mime_type (resource_header : bytes) (sniff_scriptable : bool) : outcome MimeType :=
  scriptable ← (if sniff_scriptable then match_unknown_rows resource_header scriptable_pattern_table true else Returned None);
  match scriptable with
  | Some m => Returned m
  | None =>
      text ← match_unknown_rows resource_header text_pattern_table false;
      match text with
      | Some m => Returned m
      | None =>
          matched_type ← match_an_image_type_pattern resource_header;
          match matched_type with
          | Some m => Returned m
          | None =>
              matched_type ← match_an_audio_or_video_type_pattern resource_header;
              match matched_type with
              | Some m => Returned m
              | None =>
                  matched_type ← match_an_archive_type_pattern resource_header;
                  match matched_type with
                  | Some m => Returned m
                  | None =>
                      if negb (existsb is_binary_data_byte resource_header) then mime_type_create (sv "text") (sv "plain")
                      else mime_type_create (sv "application") (sv "octet-stream")
                  end
              end
          end
      end
  end.

(** ** Resources *)
Inductive SniffingContext := SniffNone | SniffBrowsing | SniffImage | SniffAudioOrVideo | SniffFont | SniffTextOrBinary.

Record SniffingConfiguration := mk_configuration {
  sniffing_context : SniffingContext;
  sniffing_scheme : bytes;
  supplied_type : option MimeType;
  no_sniff : bool;
}.

Record Resource := mk_resource {
  m_supplied_mime_type : option MimeType;
  m_check_for_apache_bug_flag : bool;
  m_no_sniff : bool;
  m_computed_mime_type : MimeType;
  m_resource_header : bytes;
}.

Definition with_computed (r : Resource) (m : MimeType) : Resource :=
  mk_resource (m_supplied_mime_type r) (m_check_for_apache_bug_flag r) (m_no_sniff r) m (m_resource_header r).

Definition read_the_resource_header (data : bytes) : outcome bytes := slice data 0 (min (length data) 1445).

Definition is_http_or_https_scheme (scheme : bytes) : bool :=
  existsb (λ http_scheme, bool_decide (scheme = http_scheme)) [sv "http"; sv "https"].

Definition apache_bug_mime_types : list bytes :=
  [sv "text/plain"; sv "text/plain;charset=ISO-8859-1"; sv "text/plain;charset=iso-8859-1"; sv "text/plain;charset=UTF-8"].

Definition supplied_mime_type_detection_algorithm (r : Resource) (scheme : bytes) (supplied_type : option MimeType) : outcome Resource :=
  apache_bug ←
    (match supplied_type with
     | Some t =>
         if is_http_or_https_scheme scheme then
           serialized_supplied_type ← serialized t;
           Returned (existsb (λ a, bool_decide (serialized_supplied_type = a)) apache_bug_mime_types)
         else Returned false
     | None => Returned false
     end);
  Returned (mk_resource supplied_type (m_check_for_apache_bug_flag r || apache_bug) (m_no_sniff r) (m_computed_mime_type r)
              (m_resource_header r)).

Definition rules_for_distinguishing_if_a_resource_is_text_or_binary (r : Resource) : outcome Resource :=
  let header := m_resource_header r in
  if (2 <=? length header)%nat && (starts_with header [0xFE; 0xFF] CaseSensitive || starts_with header [0xFF; 0xFE] CaseSensitive)
  then m ← mime_type_create (sv "text") (sv "plain"); Returned (with_computed r m)
  else if (3 <=? length header)%nat && starts_with header [0xEF; 0xBB; 0xBF] CaseSensitive
  then m ← mime_type_create (sv "text") (sv "plain"); Returned (with_computed r m)
  else if negb (existsb is_binary_data_byte header)
  then m ← mime_type_create (sv "text") (sv "plain"); Returned (with_computed r m)
  else Returned r.

Definition mime_type_sniffing_algorithm (r : Resource) : outcome Resource :=
  match m_supplied_mime_type r with
  | None =>
      m ← rules_for_identifying_an_unknown_mime_type (m_resource_header r) (negb (m_no_sniff r)); Returned (with_computed r m)
  | Some supplied =>
      if is_xml supplied || is_html supplied then Returned (with_computed r supplied)
      else if is_one_of (essence supplied) [sv "unknown/unknown"; sv "application/unknown"; sv "*/*"] then
        m ← rules_for_identifying_an_unknown_mime_type (m_resource_header r) (negb (m_no_sniff r)); Returned (with_computed r m)
      else if m_no_sniff r then Returned (with_computed r supplied)
      else if m_check_for_apache_bug_flag r then rules_for_distinguishing_if_a_resource_is_text_or_binary r
      else Returned (with_computed r supplied)
  end.

(** The rules of the image, the media and the font context: they differ in the patterns only. *)
Definition sniff_specifically (r : Resource) (matcher : bytes → outcome (option MimeType)) : outcome Resource :=
  if match m_supplied_mime_type r with Some supplied => is_xml supplied | None => false end then
    supplied ← must (m_supplied_mime_type r); Returned (with_computed r supplied)
  else
    matched ← matcher (m_resource_header r);
    Returned (match matched with
      | Some m => with_computed r m
      | None => match m_supplied_mime_type r with Some supplied => with_computed r supplied | None => r end
      end).

Definition rules_for_sniffing_images_specifically (r : Resource) : outcome Resource :=
  sniff_specifically r match_an_image_type_pattern.
Definition rules_for_sniffing_audio_or_video_specifically (r : Resource) : outcome Resource :=
  sniff_specifically r match_an_audio_or_video_type_pattern.
Definition rules_for_sniffing_fonts_specifically (r : Resource) : outcome Resource :=
  sniff_specifically r match_a_font_type_pattern.

Definition context_specific_sniffing_algorithm (r : Resource) (context : SniffingContext) : outcome Resource :=
  match context with
  | SniffNone | SniffBrowsing => mime_type_sniffing_algorithm r
  | _ =>
      match m_no_sniff r, m_supplied_mime_type r with
      | true, Some supplied => Returned (with_computed r supplied)
      | _, _ =>
          match context with
          | SniffImage => rules_for_sniffing_images_specifically r
          | SniffAudioOrVideo => rules_for_sniffing_audio_or_video_specifically r
          | SniffFont => rules_for_sniffing_fonts_specifically r
          | SniffTextOrBinary => rules_for_distinguishing_if_a_resource_is_text_or_binary r
          | _ => Returned r
          end
      end
  end.

Definition resource_create (data : bytes) (configuration : SniffingConfiguration) : outcome Resource :=
  default_computed_mime_type ← mime_type_create (sv "application") (sv "octet-stream");
  header ← read_the_resource_header data;
  let r := mk_resource None false (no_sniff configuration) default_computed_mime_type header in
  r ← supplied_mime_type_detection_algorithm r (sniffing_scheme configuration) (supplied_type configuration);
  context_specific_sniffing_algorithm r (sniffing_context configuration).

Definition sniff (data : bytes) (configuration : SniffingConfiguration) : outcome MimeType :=
  r ← resource_create data configuration; Returned (m_computed_mime_type r).

End Parsing.
End Sniffing.
Export Sniffing.
