(* ===== verification/MimeSniffCorrect.v ===== *)
(** * What sniffing computes

    A byte pattern is compared with a reference; the rules return well-formed types of
    their tables, and a resource becomes scriptable only when its supplied type is or
    when nothing is known of its type and sniffing is allowed. *)
From S2P Require Import Prelude CharacterTypes Externals Utf8 StringView Utf8View Format Ipv4 TextCodec GenericLexer Http HttpHeader MimeType MimeSniff.

(** ** Byte patterns *)
Fixpoint pattern_matches (rest pattern mask : bytes) (tag_terminated : bool) : bool :=
  match pattern, mask, rest with
  | [], _, _ => true
  | p :: pattern, m :: mask, c :: rest =>
      if tag_terminated && bool_decide (pattern = []) then is_tag_terminating_byte (Z.land c m)
      else (Z.land c m =? p) && pattern_matches rest pattern mask tag_terminated
  | _, _, _ => false
  end.

Lemma match_loop_spec input s pattern mask tt :
  length pattern = length mask → (s + length pattern ≤ length input)%nat →
  match_loop input s pattern mask tt = Returned (pattern_matches (drop s input) pattern mask tt).
Proof.
  revert s mask. induction pattern as [|p pattern IH]; intros s [|m mask] Hl Hs; cbn [length] in *; [by destruct (drop s input)|lia|lia|].
  cbn [match_loop]. destruct (lookup_lt_is_Some_2 input s) as [c Hc]; [lia|].
  rewrite (at_index_lt _ _ _ Hc), bind_value, (drop_S _ _ _ Hc). cbn [pattern_matches].
  destruct (tt && bool_decide (pattern = [])); [done|].
  destruct (Z.eqb_spec (Z.land c m) p); cbn [negb andb]; [|done]. rewrite IH by lia. by rewrite Nat.add_1_r.
Qed.

(** The pattern fits behind the ignored bytes, if it fits at all. *)
Definition fits (input pattern ignored : bytes) : Prop :=
  (length pattern ≤ length input)%nat → (skip_ignored input ignored + length pattern ≤ length input)%nat.

Lemma fits_nothing_ignored input pattern : fits input pattern [].
Proof. intros Hl. by destruct input. Qed.

Lemma pattern_matching_spec input pattern mask ignored tt :
  length pattern = length mask → fits input pattern ignored →
  pattern_matching_algorithm input pattern mask ignored tt
  = Returned ((length pattern <=? length input)%nat && pattern_matches (drop (skip_ignored input ignored) input) pattern mask tt).
Proof.
  intros Hl Hf. unfold pattern_matching_algorithm. rewrite verify_true by (by apply Nat.eqb_eq).
  destruct (Nat.ltb_spec (length input) (length pattern)) as [Hlt|Hge].
  - by rewrite (proj2 (Nat.leb_gt _ _)).
  - rewrite (proj2 (Nat.leb_le _ _)) by done. rewrite match_loop_spec; [done..|]. by apply Hf.
Qed.

(** ** Media signatures *)
Lemma mp4_loop_returns fuel sequence box_size bytes_read :
  0 ≤ bytes_read → box_size ≤ Z.of_nat (length sequence) → bytes_read mod 4 = 0 → box_size mod 4 = 0 →
  (0 < fuel)%nat → box_size - bytes_read < Z.of_nat fuel → ∃ b, mp4_loop fuel sequence box_size bytes_read = Returned b.
Proof.
  revert bytes_read. induction fuel as [|fuel IH]; intros bytes_read H0 Hb Hr Hm Hpos Hf; [lia|].
  cbn [mp4_loop]. destruct (Z.ltb_spec bytes_read box_size); [|by eexists].
  assert (bytes_read + 4 ≤ box_size) by (Z.div_mod_to_equations; lia).
  rewrite substring_view_in_range, bind_value by lia. destruct (bool_decide _); [by eexists|].
  apply IH; [lia|done| |done|lia|lia]. Z.div_mod_to_equations; lia.
Qed.

Lemma mp4_returns sequence : ∃ b, matches_mp4_signature sequence = Returned b.
Proof.
  unfold matches_mp4_signature. destruct (Nat.ltb_spec (length sequence) 12) as [|Hl]; [by eexists|].
  destruct sequence as [|b0 [|b1 [|b2 [|b3 rest]]]]; cbn [length] in Hl; try lia. cbn [at_index]. set (seq := b0 :: _) in *.
  unfold at_index. cbn [lookup list_lookup seq must]. rewrite !bind_value. set (box_size := wrap32 _).
  destruct (Z.ltb_spec (Z.of_nat (length seq)) box_size); [by eexists|]. destruct (Z.eqb_spec (box_size mod 4) 0); [|by eexists].
  change (false || negb true) with false. cbv iota.
  rewrite (substring_view_in_range seq 4 4), bind_value by (unfold seq; cbn [length]; lia). destruct (negb _); [by eexists|].
  rewrite (substring_view_in_range seq 8 3), bind_value by (unfold seq; cbn [length]; lia). destruct (bool_decide _); [by eexists|].
  apply mp4_loop_returns; [lia|lia|done|done|lia|lia].
Qed.

Lemma vint_size_returns fuel sequence mask number_size :
  (number_size ≤ length sequence → 0 < number_size → 8 < fuel + number_size → 0 < fuel →
  ∃ mask' size, vint_size_loop fuel sequence mask number_size = Returned (mask', size) ∧ 0 < size ≤ length sequence)%nat.
Proof.
  revert mask number_size. induction fuel as [|fuel IH]; intros mask number_size Hl H0 Hf Hpos; [lia|].
  cbn [vint_size_loop]. destruct (Nat.ltb_spec number_size 8); cbn [andb]; [|by eexists _, _].
  destruct (Nat.ltb_spec number_size (length sequence)); [|by eexists _, _]. destruct sequence as [|c sequence]; [cbn in *; lia|].
  unfold at_index at 1. cbn [lookup list_lookup must]. rewrite bind_value. destruct (negb _); [by eexists _, _|]. apply IH; lia.
Qed.

Lemma vint_value_returns n sequence index parsed :
  (n = 0 ∨ index < length sequence)%nat → ∃ v, vint_value_loop n sequence index parsed = Returned v.
Proof.
  revert index parsed. induction n as [|n IH]; intros index parsed Hi; [by eexists|]. cbn [vint_value_loop].
  destruct (lookup_lt_is_Some_2 sequence index) as [c Hc]; [lia|]. rewrite (at_index_lt _ _ _ Hc), bind_value.
  destruct (Nat.leb_spec (length sequence) (index + 1)); [by eexists|]. apply IH. lia.
Qed.

Lemma vint_returns sequence iter :
  (iter < length sequence)%nat → ∃ v size, parse_a_vint sequence iter = Returned (v, size).
Proof.
  intros Hi. unfold parse_a_vint. rewrite substring_view_from_in_range, bind_value by lia.
  assert (1 ≤ length (drop iter sequence))%nat as Hd by (rewrite length_drop; lia).
  destruct (vint_size_returns 9 (drop iter sequence) 128 1) as (mask & size & -> & Hs); [lia..|]. rewrite bind_value.
  destruct (lookup_lt_is_Some_2 (drop iter sequence) 0) as [c Hc]; [lia|]. rewrite (at_index_lt _ _ _ Hc), bind_value.
  destruct (vint_value_returns (size - 1) (drop iter sequence) 1 (Z.land c (Z.lnot mask))) as [v ->]; [lia|]. by eexists _, _.
Qed.

Lemma webm_loop_returns fuel sequence iter :
  (4 ≤ length sequence → 38 < fuel + iter → 0 < fuel → ∃ b, webm_loop fuel sequence iter = Returned b)%nat.
Proof.
  revert iter. induction fuel as [|fuel IH]; intros iter Hl Hf Hpos; [lia|]. cbn [webm_loop].
  destruct (Nat.ltb_spec iter (length sequence)); cbn [andb]; [|by eexists]. destruct (Nat.ltb_spec iter 38); [|by eexists].
  destruct (Nat.leb_spec (length sequence) (iter + 1)); [by eexists|]. rewrite (substring_view_in_range sequence iter 2), bind_value by lia.
  destruct (bool_decide _); [|apply IH; lia]. destruct (Nat.leb_spec (length sequence) (iter + 2)); [by eexists|].
  destruct (vint_returns sequence (iter + 2)) as (v & size & ->); [done|]. rewrite bind_value.
  destruct (Nat.leb_spec (length sequence - 4) (iter + 2 + size)); [by eexists|]. rewrite substring_view_in_range, bind_value by lia.
  destruct (bool_decide _); [by eexists|]. apply IH; lia.
Qed.

Lemma webm_returns sequence : ∃ b, matches_webm_signature sequence = Returned b.
Proof.
  unfold matches_webm_signature. destruct (Nat.ltb_spec (length sequence) 4); [by eexists|]. destruct (negb _); [by eexists|].
  apply webm_loop_returns; lia.
Qed.

Lemma mp3_returns sequence : ∃ b, matches_mp3_no_id3_signature sequence = Returned b.
Proof.
  unfold matches_mp3_no_id3_signature, match_mp3_header.
  destruct sequence as [|c0 [|c1 [|c2 [|c3 rest]]]]; try (by eexists). unfold at_index. cbn [lookup list_lookup must Nat.add].
  rewrite !bind_value.
  repeat match goal with |- context [if ?b then _ else _] => destruct b; [by eexists|] end. by eexists.
Qed.

(** ** Types of the tables *)
Definition plain_type (text : bytes) : MimeType :=
  match split_on c_slash text with
  | [type; subtype] => mk_mime_type type subtype [] text
  | _ => mk_mime_type [] [] [] []
  end.

Definition lower_token_b (s : bytes) : bool :=
  negb (bool_decide (s = [])) && contains_only_http_token_code_points s && bool_decide (map to_ascii_lowercase s = s).

Definition plain_type_ok (text : bytes) : bool :=
  let m := plain_type text in
  lower_token_b (m_type m) && lower_token_b (m_subtype m) && bool_decide (text = m_type m ++ [c_slash] ++ m_subtype m).

Definition row_ok (row : BytePatternTableRow) : bool :=
  (length (byte_pattern row) =? length (pattern_mask row))%nat && plain_type_ok (row_mime_type row).

Lemma lower_token_b_spec s : lower_token_b s = true → lower_token s.
Proof.
  intros [[H1%negb_true_iff%bool_decide_eq_false H2]%andb_prop H3%bool_decide_eq_true]%andb_prop. done.
Qed.

Lemma plain_type_wf text :
  plain_type_ok text = true → mime_type_wf (plain_type text) ∧ m_parameters (plain_type text) = [] ∧ essence (plain_type text) = text.
Proof.
  intros [[H1%lower_token_b_spec H2%lower_token_b_spec]%andb_prop H3%bool_decide_eq_true]%andb_prop. revert H1 H2 H3.
  unfold plain_type. destruct (split_on c_slash text) as [|t [|u [|? ?]]]; cbn [m_type m_subtype m_parameters]; intros H1 H2 H3;
    try (by destruct H1). split_and!; [|done|done]. split; cbn; try done. apply NoDup_nil_2.
Qed.

Section Tables.
Context `{SimdutfOk}.

Lemma plain_type_parsed text : plain_type_ok text = true → mime_type_parse text = Returned (Some (plain_type text)).
Proof.
  intros Hok. destruct (plain_type_wf text Hok) as (Hwf & Hp & He). destruct (serialized_parsed _ Hwf) as (s & Hs & <-).
  unfold serialized in Hs. rewrite Hp in Hs. cbn [serialized_parameters] in Hs. rewrite bind_value, app_nil_r in Hs.
  injection Hs as <-. rewrite <-He at 1. unfold essence. by rewrite (essence_is _ Hwf).
Qed.

(** A type that the rows of a table give. *)
Definition from_rows (rows : list BytePatternTableRow) (m : MimeType) : Prop := ∃ row, row ∈ rows ∧ m = plain_type (row_mime_type row).

Lemma match_rows_spec input rows :
  forallb row_ok rows = true → Forall (λ row, ignored_leading_bytes row = []) rows →
  ∃ r, match_rows input rows = Returned r ∧ ∀ m, r = Some m → from_rows rows m.
Proof.
  intros Hok Hi. induction Hi as [|row rows Hrow Hi IH]; [by exists None|]. cbn [forallb match_rows] in *.
  apply andb_prop in Hok as [[Hl%Nat.eqb_eq Ht]%andb_prop Hok]. destruct (IH Hok) as (r & Hr & Hm).
  rewrite Hrow, pattern_matching_spec, bind_value by (done || apply fits_nothing_ignored). destruct (_ && _).
  - rewrite plain_type_parsed by done. eexists. split; [done|]. intros m [= <-]. exists row. split; [by left|done].
  - exists r. split; [done|]. intros m E. destruct (Hm m E) as (row' & Hin & ->). exists row'. split; [by right|done].
Qed.

Lemma match_unknown_rows_spec input rows use :
  forallb row_ok rows = true → Forall (λ row, fits input (byte_pattern row) (ignored_leading_bytes row)) rows →
  ∃ r, match_unknown_rows input rows use = Returned r ∧ ∀ m, r = Some m → from_rows rows m.
Proof.
  intros Hok Hi. induction Hi as [|row rows Hrow Hi IH]; [by exists None|]. cbn [forallb match_unknown_rows] in *.
  apply andb_prop in Hok as [[Hl%Nat.eqb_eq Ht]%andb_prop Hok]. destruct (IH Hok) as (r & Hr & Hm).
  rewrite pattern_matching_spec, bind_value by done. destruct (_ && _).
  - rewrite plain_type_parsed, bind_value by done. eexists. split; [done|]. intros m [= <-]. exists row. split; [by left|done].
  - exists r. split; [done|]. intros m E. destruct (Hm m E) as (row' & Hin & ->). exists row'. split; [by right|done].
Qed.

End Tables.

Lemma tables_ok :
  forallb row_ok (image_pattern_table ++ audio_or_video_pattern_table ++ font_pattern_table ++ archive_pattern_table
    ++ scriptable_pattern_table ++ text_pattern_table) = true.
Proof. vm_compute. reflexivity. Qed.

Lemma tables_not_scriptable :
  forallb (λ row, negb (is_scriptable (plain_type (row_mime_type row))) && bool_decide (ignored_leading_bytes row = []))
    (image_pattern_table ++ audio_or_video_pattern_table ++ font_pattern_table ++ archive_pattern_table ++ text_pattern_table) = true.
Proof. vm_compute. reflexivity. Qed.

(** ** The matchers *)
Definition harmless (m : MimeType) : Prop := mime_type_wf m ∧ is_scriptable m = false.

Lemma plain_harmless text : plain_type_ok text = true → is_scriptable (plain_type text) = false → harmless (plain_type text).
Proof. intros Hok Hs. split; [|done]. apply plain_type_wf, Hok. Qed.

Definition harmless_tables : list BytePatternTableRow :=
  image_pattern_table ++ audio_or_video_pattern_table ++ font_pattern_table ++ archive_pattern_table ++ text_pattern_table.

Lemma harmless_row row : row ∈ harmless_tables → row_ok row = true ∧ ignored_leading_bytes row = [] ∧ harmless (plain_type (row_mime_type row)).
Proof.
  intros Hrow%list_elem_of_In. pose proof (proj1 (forallb_forall _ _) tables_not_scriptable row Hrow) as Hs.
  apply andb_prop in Hs as [Hs%negb_true_iff Hi%bool_decide_eq_true].
  assert (row_ok row = true) as Hok.
  { apply (proj1 (forallb_forall _ _) tables_ok). revert Hrow. unfold harmless_tables. rewrite !in_app_iff. tauto. }
  split_and!; [done..|]. apply plain_harmless; [|done]. by apply andb_prop in Hok as [_ ?].
Qed.

Section Matchers.
Context `{SimdutfOk}.

Lemma harmless_match_rows input rows :
  (∀ row, row ∈ rows → row ∈ harmless_tables) →
  ∃ r, match_rows input rows = Returned r ∧ ∀ m, r = Some m → harmless m.
Proof.
  intros Hrows. destruct (match_rows_spec input rows) as (r & Hr & Hm).
  - apply forallb_forall. intros row Hin%list_elem_of_In%Hrows. by apply harmless_row.
  - apply Forall_forall. intros row Hin%Hrows. by apply harmless_row.
  - exists r. split; [done|]. intros m (row & Hin%Hrows & ->)%Hm. by apply harmless_row.
Qed.

Lemma harmless_unknown_rows input :
  ∃ r, match_unknown_rows input text_pattern_table false = Returned r ∧ ∀ m, r = Some m → harmless m.
Proof.
  assert (∀ row, row ∈ text_pattern_table → row ∈ harmless_tables) as Hrows by (unfold harmless_tables; set_solver).
  destruct (match_unknown_rows_spec input text_pattern_table false) as (r & Hr & Hm).
  - apply forallb_forall. intros row Hin%list_elem_of_In%Hrows. by apply harmless_row.
  - apply Forall_forall. intros row Hin%Hrows. destruct (harmless_row row Hin) as (_ & -> & _). apply fits_nothing_ignored.
  - exists r. split; [done|]. intros m (row & Hin%Hrows & ->)%Hm. by apply harmless_row.
Qed.

Lemma image_match input : ∃ r, match_an_image_type_pattern input = Returned r ∧ ∀ m, r = Some m → harmless m.
Proof. apply harmless_match_rows. unfold harmless_tables. set_solver. Qed.

Lemma font_match input : ∃ r, match_a_font_type_pattern input = Returned r ∧ ∀ m, r = Some m → harmless m.
Proof. apply harmless_match_rows. unfold harmless_tables. set_solver. Qed.

Lemma archive_match input : ∃ r, match_an_archive_type_pattern input = Returned r ∧ ∀ m, r = Some m → harmless m.
Proof. apply harmless_match_rows. unfold harmless_tables. set_solver. Qed.

Lemma audio_or_video_match input : ∃ r, match_an_audio_or_video_type_pattern input = Returned r ∧ ∀ m, r = Some m → harmless m.
Proof.
  unfold match_an_audio_or_video_type_pattern. destruct (harmless_match_rows input audio_or_video_pattern_table) as (r & -> & Hr).
  { unfold harmless_tables. set_solver. }
  rewrite bind_value. destruct r as [m|]; [by exists (Some m)|].
  assert (∀ text, plain_type_ok text = true → is_scriptable (plain_type text) = false →
    ∃ r, Returned (Some (plain_type text)) = Returned r ∧ ∀ m, r = Some m → harmless m) as Hc.
  { intros text Hok Hs. eexists. split; [done|]. intros m [= <-]. by apply plain_harmless. }
  destruct (mp4_returns input) as [[] ->]; rewrite bind_value; [by apply (Hc (sv "video/mp4"))|].
  destruct (webm_returns input) as [[] ->]; rewrite bind_value; [by apply (Hc (sv "video/webm"))|].
  destruct (mp3_returns input) as [[] ->]; rewrite bind_value; [by apply (Hc (sv "audio/mpeg"))|]. by exists None.
Qed.

(** The patterns that skip whitespace fit into the header. *)
Definition header_fits (header : bytes) : Prop :=
  skip_ignored header ignored_whitespace_bytes = 0%nat ∨ (skip_ignored header ignored_whitespace_bytes + 15 ≤ length header)%nat.

Lemma scriptable_rows_fit header :
  header_fits header → Forall (λ row, fits header (byte_pattern row) (ignored_leading_bytes row)) scriptable_pattern_table.
Proof.
  intros Hf. apply Forall_forall. intros row Hrow%list_elem_of_In.
  assert (forallb (λ row, (length (byte_pattern row) <=? 15)%nat
    && (bool_decide (ignored_leading_bytes row = ignored_whitespace_bytes) || bool_decide (ignored_leading_bytes row = [])))
    scriptable_pattern_table = true) as Ht by (vm_compute; reflexivity).
  pose proof (proj1 (forallb_forall _ _) Ht row Hrow) as [Hl%Nat.leb_le Hi]%andb_prop. intros Hle.
  apply orb_prop in Hi as [->%bool_decide_eq_true | ->%bool_decide_eq_true].
  - destruct Hf; lia.
  - by apply (fits_nothing_ignored header (byte_pattern row)).
Qed.

Lemma unknown_type_rules header sniff_scriptable :
  (sniff_scriptable = true → header_fits header) →
  ∃ m, rules_for_identifying_an_unknown_mime_type header sniff_scriptable = Returned m ∧ mime_type_wf m
    ∧ (sniff_scriptable = false → is_scriptable m = false).
Proof.
  intros Hf. unfold rules_for_identifying_an_unknown_mime_type.
  assert (∃ r, (if sniff_scriptable then match_unknown_rows header scriptable_pattern_table true else Returned None) = Returned r
    ∧ ∀ m, r = Some m → mime_type_wf m ∧ sniff_scriptable = true) as (r & -> & Hr).
  { destruct sniff_scriptable; [|by exists None].
    assert (forallb row_ok scriptable_pattern_table = true) as Hok by (vm_compute; reflexivity).
    destruct (match_unknown_rows_spec header scriptable_pattern_table true Hok) as (r & Hr & Hm); [by apply scriptable_rows_fit, Hf|].
    exists r. split; [done|]. intros m (row & Hin%list_elem_of_In & ->)%Hm. split; [|done].
    pose proof (proj1 (forallb_forall _ _) Hok row Hin) as [_ Ht]%andb_prop. apply plain_type_wf, Ht. }
  rewrite bind_value. destruct r as [m|]; [destruct (Hr m eq_refl) as [? ->]; by exists m|]. clear Hr.
  destruct (harmless_unknown_rows header) as (r & -> & Hr). rewrite bind_value.
  destruct r as [m|]; [destruct (Hr m eq_refl); by exists m|]. destruct (image_match header) as ([m|] & -> & Hi); rewrite bind_value.
  { destruct (Hi m eq_refl). by exists m. }
  destruct (audio_or_video_match header) as ([m|] & -> & Ha); rewrite bind_value; [destruct (Ha m eq_refl); by exists m|].
  destruct (archive_match header) as ([m|] & -> & Hz); rewrite bind_value; [destruct (Hz m eq_refl); by exists m|].
  destruct (negb _).
  - exists (plain_type (sv "text/plain")). split; [done|]. destruct (plain_harmless (sv "text/plain")); done.
  - exists (plain_type (sv "application/octet-stream")). split; [done|]. destruct (plain_harmless (sv "application/octet-stream")); done.
Qed.

End Matchers.

(** ** Resources *)
Definition unknown_type (t : option MimeType) : bool :=
  match t with
  | None => true
  | Some m => is_one_of (essence m) [sv "unknown/unknown"; sv "application/unknown"; sv "*/*"]
  end.

(** A type that a resource with this supplied type may be given. *)
Definition granted (supplied : option MimeType) (m : MimeType) : Prop := harmless m ∨ (supplied = Some m ∧ mime_type_wf m).

Definition supplied_wf (supplied : option MimeType) : Prop := ∀ m, supplied = Some m → mime_type_wf m.

Section Resources.
Context `{SimdutfOk}.
Implicit Types r : Resource.

Lemma sniff_specifically_spec r matcher :
  supplied_wf (m_supplied_mime_type r) → harmless (m_computed_mime_type r) →
  (∀ input, ∃ t, matcher input = Returned t ∧ ∀ m, t = Some m → harmless m) →
  ∃ r', sniff_specifically r matcher = Returned r' ∧ granted (m_supplied_mime_type r) (m_computed_mime_type r').
Proof.
  intros Hw Hc Hm. unfold sniff_specifically. destruct (Hm (m_resource_header r)) as (t & -> & Ht). destruct (m_supplied_mime_type r) as [s|] eqn:Es.
  - assert (granted (Some s) s) by (right; split; [done|by apply Hw]).
    destruct (is_xml s); cbn [must]; rewrite bind_value; [by exists (with_computed r s)|]. eexists. split; [done|].
    destruct t as [m|]; [left; by apply Ht|done].
  - rewrite bind_value. eexists. split; [done|]. left. destruct t as [m|]; [by apply Ht|done].
Qed.

Lemma text_or_binary_spec r :
  harmless (m_computed_mime_type r) →
  ∃ r', rules_for_distinguishing_if_a_resource_is_text_or_binary r = Returned r' ∧ harmless (m_computed_mime_type r').
Proof.
  intros Hc. assert (harmless (plain_type (sv "text/plain"))) as Hp by (by apply plain_harmless).
  unfold rules_for_distinguishing_if_a_resource_is_text_or_binary.
  do 3 (case_match; [by exists (with_computed r (plain_type (sv "text/plain")))|]). by exists r.
Qed.

Lemma context_specific_spec r context :
  supplied_wf (m_supplied_mime_type r) → harmless (m_computed_mime_type r) → context ≠ SniffNone → context ≠ SniffBrowsing →
  ∃ r', context_specific_sniffing_algorithm r context = Returned r' ∧ granted (m_supplied_mime_type r) (m_computed_mime_type r').
Proof.
  intros Hw Hc Hn Hb. unfold context_specific_sniffing_algorithm.
  assert (∃ r', match context with
    | SniffImage => rules_for_sniffing_images_specifically r
    | SniffAudioOrVideo => rules_for_sniffing_audio_or_video_specifically r
    | SniffFont => rules_for_sniffing_fonts_specifically r
    | SniffTextOrBinary => rules_for_distinguishing_if_a_resource_is_text_or_binary r
    | _ => Returned r
    end = Returned r' ∧ granted (m_supplied_mime_type r) (m_computed_mime_type r')) as Hspec.
  { destruct context; try done.
    - apply sniff_specifically_spec; [done..|apply image_match].
    - apply sniff_specifically_spec; [done..|apply audio_or_video_match].
    - apply sniff_specifically_spec; [done..|apply font_match].
    - destruct (text_or_binary_spec r Hc) as (r' & ? & ?). exists r'. split; [done|by left]. }
  destruct context; try done; destruct (m_no_sniff r); try done; destruct (m_supplied_mime_type r) as [s|]; try done;
    exists (with_computed r s); (split; [done|]); right; (split; [done|]); by apply Hw.
Qed.

Lemma browsing_spec r :
  supplied_wf (m_supplied_mime_type r) → harmless (m_computed_mime_type r) →
  (m_no_sniff r = false → unknown_type (m_supplied_mime_type r) = true → header_fits (m_resource_header r)) →
  ∃ r', mime_type_sniffing_algorithm r = Returned r' ∧ mime_type_wf (m_computed_mime_type r')
    ∧ (granted (m_supplied_mime_type r) (m_computed_mime_type r') ∨ (m_no_sniff r = false ∧ unknown_type (m_supplied_mime_type r) = true)).
Proof.
  intros Hw Hc Hf. unfold mime_type_sniffing_algorithm.
  assert (unknown_type (m_supplied_mime_type r) = true → ∃ m,
    rules_for_identifying_an_unknown_mime_type (m_resource_header r) (negb (m_no_sniff r)) = Returned m ∧ mime_type_wf m
    ∧ (granted (m_supplied_mime_type r) m ∨ m_no_sniff r = false)) as Hu.
  { intros Eu. destruct (unknown_type_rules (m_resource_header r) (negb (m_no_sniff r))) as (m & Hm & Hmw & Hs).
    - intros Hn%negb_true_iff. by apply Hf.
    - exists m. split_and!; [done..|]. destruct (m_no_sniff r); [|by right]. left. left. split; [done|by apply Hs]. }
  destruct (m_supplied_mime_type r) as [s|] eqn:Es; cycle 1.
  { destruct (Hu eq_refl) as (m & -> & Hmw & Hg). exists (with_computed r m). split_and!; [done..|]. by destruct Hg; [left|right]. }
  assert (mime_type_wf s ∧ granted (Some s) s) as [Hsw Hg] by (split; [|right; split; [done|]]; by apply Hw).
  assert (∃ r', Returned (with_computed r s) = Returned r' ∧ mime_type_wf (m_computed_mime_type r')
    ∧ (granted (Some s) (m_computed_mime_type r') ∨ (m_no_sniff r = false ∧ unknown_type (Some s) = true))) as Hsup.
  { exists (with_computed r s). split_and!; [done..|by left]. }
  destruct (_ || _); [done|]. change (is_one_of (essence s) _) with (unknown_type (Some s)). destruct (unknown_type (Some s)).
  { destruct (Hu eq_refl) as (m & -> & Hmw & Hgm). exists (with_computed r m). split_and!; [done..|]. by destruct Hgm; [left|right]. }
  destruct (m_no_sniff r); [done|]. destruct (m_check_for_apache_bug_flag r); [|done].
  destruct (text_or_binary_spec r Hc) as (r' & -> & Hh). exists r'. split_and!; [done|by apply Hh|by left; left].
Qed.

Lemma resource_read data configuration :
  supplied_wf (supplied_type configuration) → ∃ apache_bug,
  resource_create data configuration
  = context_specific_sniffing_algorithm (mk_resource (supplied_type configuration) apache_bug (no_sniff configuration)
      (plain_type (sv "application/octet-stream")) (take 1445 data)) (sniffing_context configuration).
Proof.
  intros Hw. unfold resource_create. change (mime_type_create _ _) with (Returned (plain_type (sv "application/octet-stream"))).
  rewrite bind_value. unfold read_the_resource_header. rewrite substring_view_in_range, bind_value by lia. rewrite drop_0.
  replace (take (length data `min` 1445) data) with (take 1445 data) 
    by (rewrite <-(firstn_all data) at 1; by rewrite take_take, Nat.min_comm).
  unfold supplied_mime_type_detection_algorithm. cbn [m_check_for_apache_bug_flag m_no_sniff m_computed_mime_type m_resource_header orb].
  destruct (supplied_type configuration) as [s|]; [|by exists false].
  destruct (is_http_or_https_scheme _); [|by exists false]. rewrite serialized_text by (by apply Hw). by eexists.
Qed.

(** C12: sniffing a resource of a well-formed supplied type returns a well-formed type,
    provided that the HTML patterns, where they are tried, fit behind the leading
    whitespace of the first 1445 bytes; and that type is scriptable (HTML, XML or PDF)
    only when it is the supplied one, or when the context is browsing or none, the
    supplied type is missing or unknown, and the resource is not marked nosniff. *)
Theorem sniff_scriptable_safe data configuration :
  supplied_wf (supplied_type configuration) →
  (no_sniff configuration = false → unknown_type (supplied_type configuration) = true →
   sniffing_context configuration = SniffNone ∨ sniffing_context configuration = SniffBrowsing → header_fits (take 1445 data)) →
  ∃ m, sniff data configuration = Returned m ∧ mime_type_wf m
    ∧ (is_scriptable m = true →
       supplied_type configuration = Some m
       ∨ (no_sniff configuration = false ∧ unknown_type (supplied_type configuration) = true
          ∧ (sniffing_context configuration = SniffNone ∨ sniffing_context configuration = SniffBrowsing))).
Proof.
  intros Hw Hf. unfold sniff. destruct (resource_read data configuration Hw) as [apache_bug ->]. set (r := mk_resource _ _ _ _ _).
  assert (harmless (m_computed_mime_type r)) as Hc by (by apply plain_harmless).
  assert (∀ m, granted (supplied_type configuration) m → mime_type_wf m ∧ (is_scriptable m = true → supplied_type configuration = Some m)) as Hg.
  { intros m [[Hm Hs]|[-> Hm]]; (split; [done|]); [by rewrite Hs|done]. }
  assert (sniffing_context configuration = SniffNone ∨ sniffing_context configuration = SniffBrowsing
    ∨ (sniffing_context configuration ≠ SniffNone ∧ sniffing_context configuration ≠ SniffBrowsing)) as Hctx
    by (destruct (sniffing_context configuration); auto).
  assert (sniffing_context configuration = SniffNone ∨ sniffing_context configuration = SniffBrowsing →
    context_specific_sniffing_algorithm r (sniffing_context configuration) = mime_type_sniffing_algorithm r) as Halg by (by intros [-> | ->]).
  destruct Hctx as [Hctx|[Hctx|[Hn Hb]]]; cycle 2.
  { destruct (context_specific_spec r _ Hw Hc Hn Hb) as (r' & -> & [Hm Hs]%Hg). rewrite bind_value. eexists. split_and!; [done..|]. auto. }
  all: rewrite Halg by auto; destruct (browsing_spec r Hw Hc) as (r' & -> & Hm & Hr); [by intros; apply Hf; auto|];
    rewrite bind_value; eexists; (split_and!; [done..|]); destruct Hr as [[_ Hs]%Hg|[Hns Hu]]; auto.
Qed.

End Resources.

(** ** Concrete resources *)
Section Examples.
#[local] Existing Instances simdutf_example simdutf_example_ok.

Definition html_data : bytes := sv "  <!doctype html><title>x</title>".

Definition browse (supplied : option MimeType) (no_sniff : bool) : SniffingConfiguration :=
  mk_configuration SniffBrowsing (sv "https") supplied no_sniff.

Example sniffed_types :
  map (λ supplied, sniff html_data (browse supplied false)) [None; Some (plain_type (sv "text/plain")); Some (plain_type (sv "*/*"))]
  = map (λ text, Returned (plain_type (sv text))) ["text/html"; "text/plain"; "text/html"]%string
  ∧ sniff html_data (browse None true) = Returned (plain_type (sv "text/plain"))
  ∧ sniff (sv "GIF89a") (browse (Some (plain_type (sv "image/png"))) false) = Returned (plain_type (sv "image/png"))
  ∧ sniff (sv "GIF89a") (mk_configuration SniffImage [] (Some (plain_type (sv "image/png"))) false) = Returned (plain_type (sv "image/gif"))
  ∧ sniff [0x47; 0x00] (browse (Some (plain_type (sv "text/plain"))) false) = Returned (plain_type (sv "application/octet-stream")).
Proof. split_and!; vm_compute; reflexivity. Qed.

(** The loop over a pattern reads [input[s]] without comparing [s], which has moved
    past the leading whitespace, with the length of the input: three blanks abort the
    process. *)
Example sniff_blank_aborts :
  sniff (sv "   ") (browse None false) = VerifyFailed
  ∧ sniff ([0x0A] ++ sv "<htm") (browse None false) = Returned (plain_type (sv "text/plain"))
  ∧ sniff ([0x0A] ++ sv "<html") (browse None false) = VerifyFailed.
Proof. split_and!; vm_compute; reflexivity. Qed.

Lemma sniff_scriptable_safe_witness :
  ∃ m, sniff html_data (browse None false) = Returned m ∧ mime_type_wf m
    ∧ (is_scriptable m = true →
       supplied_type (browse None false) = Some m
       ∨ (no_sniff (browse None false) = false ∧ unknown_type (supplied_type (browse None false)) = true
          ∧ (sniffing_context (browse None false) = SniffNone ∨ sniffing_context (browse None false) = SniffBrowsing))).
Proof.
  apply (sniff_scriptable_safe html_data (browse None false)); [intros m Hm; discriminate Hm|].
  intros _ _ _. right. vm_compute. lia.
Defined.

End Examples.
