(* ===== verification/HashTable.v ===== *)
(** * AK/HashTable.h, AK/HashMap.h: hash tables

    The robin-hood hash table with closed hashing and backward-shift deletion
    ([IsOrdered = false]), with its buckets, states and masks, and the hash map
    on top of it.  A bucket's [state] is the [u8] of the source: 0 is [Free],
    255 is [CalculateLength] and the values between are a probe length plus one.
    The storage of a bucket is [None] while no value is constructed in it; to
    read it then is a memory error, the outcome [VerifyFailed].  Sizes and
    capacities count buckets in memory and are natural numbers. *)
From stdpp Require Import gmap.
From S2P Require Import Prelude.

Inductive HashSetResult := InsertedNewEntry | ReplacedExistingEntry | KeptExistingEntry.
Inductive HashSetExistingEntryBehavior := Keep | Replace.

(** [TraitsForT]: the hash is a [u32]. *)
Class HashTraits (T : Type) := {
  hash : T → Z;
  equals : T → T → bool;
  may_have_slow_equality_check : bool;
}.

Record Bucket (T : Type) := mk_bucket { state : Z; stored_hash : Z; slot : option T }.
Arguments mk_bucket {T}.
Arguments state {T}.
Arguments stored_hash {T}.
Arguments slot {T}.

Notation Free := 0 (only parsing).
Notation CalculateLength := 255 (only parsing).

(** [m_buckets] is [nullptr] when the list is empty. *)
Record HashTable (T : Type) := mk_hash_table { m_buckets : list (Bucket T); m_size : nat; m_mask : nat }.
Arguments mk_hash_table {T}.
Arguments m_buckets {T}.
Arguments m_size {T}.
Arguments m_mask {T}.

Definition empty_table {T} : HashTable T := mk_hash_table [] 0 0.

Definition grow_capacity_at_least : nat := 8.
Definition grow_at_load_factor_percent : nat := 70.

(** [x & m_mask] *)
Definition masked_index (mask : nat) (x : Z) : nat := Z.to_nat (Z.land x (Z.of_nat mask)).
Definition next_index (mask index : nat) : nat := masked_index mask (Z.of_nat index + 1).

(** [AK::ceil_log2] *)
Definition ceil_log2 (x : nat) : nat := if (x <=? 1)%nat then 0 else (Nat.log2 (x - 1) + 1)%nat.

Section Model.
Context {T : Type} `{HashTraits T}.

Definition table_is_empty (t : HashTable T) : bool := (m_size t =? 0)%nat.

Definition capacity (t : HashTable T) : nat :=
  match m_buckets t with [] => 0%nat | _ => (m_mask t + 1)%nat end.

Definition stored_hash_set (stored h : Z) : Z := if may_have_slow_equality_check then h else stored.
Definition stored_hash_check (stored h : Z) : bool := if may_have_slow_equality_check then stored =? h else true.

(** The stored hash is checked first, then the predicate on the value. *)
Definition bucket_matches (h : Z) (predicate : T → bool) (b : Bucket T) : outcome bool :=
  if stored_hash_check (stored_hash b) h then v ← must (slot b); Returned (predicate v) else Returned false.

Fixpoint lookup_loop (fuel : nat) (buckets : list (Bucket T)) (mask : nat) (h : Z) (predicate : T → bool)
    (bucket_index : nat) : outcome (option nat) :=
  match fuel with
  | O => OutOfFuel
  | S fuel =>
      bucket ← at_index buckets bucket_index;
      if state bucket =? Free then Returned None
      else
        found ← bucket_matches h predicate bucket;
        if found : bool then Returned (Some bucket_index)
        else lookup_loop fuel buckets mask h predicate (next_index mask bucket_index)
  end.

(** The position of the bucket, or [None] for [nullptr]. *)
Definition lookup_with_hash (t : HashTable T) (h : Z) (predicate : T → bool) : outcome (option nat) :=
  if table_is_empty t then Returned None
  else lookup_loop (S (length (m_buckets t))) (m_buckets t) (m_mask t) h predicate (masked_index (m_mask t) h).

Definition used_bucket_probe_length (mask index : nat) (bucket : Bucket T) : outcome nat :=
  verify (negb (state bucket =? Free)) (
    if state bucket =? CalculateLength then
      v ← must (slot bucket);
      let ideal_bucket_index := masked_index mask (hash v) in
      let actual_bucket_index := index in
      Returned (if (actual_bucket_index <? ideal_bucket_index)%nat
                then (mask + 1 + actual_bucket_index - ideal_bucket_index)%nat
                else (actual_bucket_index - ideal_bucket_index)%nat)
    else Returned (Z.to_nat (state bucket - 1))).

Definition bucket_state_for_probe_length (probe_length : nat) : Z :=
  if (253 <? probe_length)%nat then CalculateLength else Z.of_nat probe_length + 1.

Definition with_bucket_state (b : Bucket T) (s : Z) : Bucket T := mk_bucket s (stored_hash b) (slot b).
Definition moved_from (b : Bucket T) : Bucket T := mk_bucket (state b) (stored_hash b) None.

(** The inner loop of [lookup_for_writing]: find a free bucket for
    [bucket_to_move], swapping with buckets of smaller probe length. *)
Fixpoint displace_loop (fuel : nat) (buckets : list (Bucket T)) (mask : nat) (bucket_to_move : Bucket T)
    (bucket_index probe_length : nat) : outcome (list (Bucket T)) :=
  match fuel with
  | O => OutOfFuel
  | S fuel =>
      let bucket_index := next_index mask bucket_index in
      bucket ← at_index buckets bucket_index;
      let probe_length := S probe_length in
      if state bucket =? Free then
        set_index buckets bucket_index (with_bucket_state bucket_to_move (bucket_state_for_probe_length probe_length))
      else
        target_probe_length ← used_bucket_probe_length mask bucket_index bucket;
        if (target_probe_length <? probe_length)%nat then
          buckets ← set_index buckets bucket_index
            (with_bucket_state bucket_to_move (bucket_state_for_probe_length probe_length));
          displace_loop fuel buckets mask bucket bucket_index target_probe_length
        else displace_loop fuel buckets mask bucket_to_move bucket_index probe_length
  end.

(** [lookup_for_writing]: the buckets (with the chosen one tentatively free), the
    result, the position of the bucket and its probe length. *)
Fixpoint writing_loop (fuel : nat) (buckets : list (Bucket T)) (mask : nat) (h : Z) (predicate : T → bool)
    (behavior : HashSetExistingEntryBehavior) (bucket_index probe_length : nat)
    : outcome (list (Bucket T) * HashSetResult * nat * nat) :=
  match fuel with
  | O => OutOfFuel
  | S fuel =>
      bucket ← at_index buckets bucket_index;
      if state bucket =? Free then Returned (buckets, InsertedNewEntry, bucket_index, probe_length)
      else
        found ← bucket_matches h predicate bucket;
        if found : bool then
          Returned (buckets, match behavior with Replace => ReplacedExistingEntry | Keep => KeptExistingEntry end,
                    bucket_index, 0%nat)
        else
          target_probe_length ← used_bucket_probe_length mask bucket_index bucket;
          if (target_probe_length <? probe_length)%nat then
            let stamped := mk_bucket (bucket_state_for_probe_length probe_length)
                             (stored_hash_set (stored_hash bucket) h) None in
            buckets ← set_index buckets bucket_index stamped;
            buckets ← displace_loop (S (length buckets)) buckets mask bucket bucket_index target_probe_length;
            inserted_bucket ← at_index buckets bucket_index;
            buckets ← set_index buckets bucket_index (with_bucket_state inserted_bucket Free);
            Returned (buckets, InsertedNewEntry, bucket_index, probe_length)
          else
            writing_loop fuel buckets mask h predicate behavior (next_index mask bucket_index) (S probe_length)
  end.

Definition lookup_for_writing (t : HashTable T) (h : Z) (predicate : T → bool)
    (behavior : HashSetExistingEntryBehavior) : outcome (list (Bucket T) * HashSetResult * nat * nat) :=
  writing_loop (S (length (m_buckets t))) (m_buckets t) (m_mask t) h predicate behavior (masked_index (m_mask t) h) 0.

(** Construct the value in the bucket and [commit_inserted_bucket]. *)
Definition commit_inserted_bucket (t : HashTable T) (buckets : list (Bucket T)) (index : nat) (value : T) (h : Z)
    (probe_length : nat) : outcome (HashTable T) :=
  bucket ← at_index buckets index;
  buckets ← set_index buckets index
    (mk_bucket (bucket_state_for_probe_length probe_length) (stored_hash_set (stored_hash bucket) h) (Some value));
  Returned (mk_hash_table buckets (m_size t + 1) (m_mask t)).

(** What [write_value] and [ensure] do with the result of [lookup_for_writing]. *)
Definition write_with (t : HashTable T) (h : Z) (predicate : T → bool) (value : T)
    (behavior : HashSetExistingEntryBehavior) : outcome (HashTable T * HashSetResult * nat) :=
  '(buckets, result, index, probe_length) ← lookup_for_writing t h predicate behavior;
  match result with
  | ReplacedExistingEntry =>
      bucket ← at_index buckets index;
      buckets ← set_index buckets index (mk_bucket (state bucket) (stored_hash bucket) (Some value));
      Returned (mk_hash_table buckets (m_size t) (m_mask t), result, index)
  | InsertedNewEntry =>
      t ← commit_inserted_bucket t buckets index value h probe_length;
      Returned (t, result, index)
  | KeptExistingEntry => Returned (t, result, index)
  end.

Definition write_value (t : HashTable T) (value : T) (behavior : HashSetExistingEntryBehavior)
    : outcome (HashTable T * HashSetResult) :=
  '(t, result, _) ← write_with t (hash value) (λ candidate, equals candidate value) value behavior;
  Returned (t, result).

(** Iteration visits the used buckets in order. *)
Definition bucket_value (b : Bucket T) : option T := if state b =? Free then None else slot b.
Definition values (t : HashTable T) : list T := omap bucket_value (m_buckets t).

Fixpoint write_all (t : HashTable T) (vs : list T) : outcome (HashTable T) :=
  match vs with
  | [] => Returned t
  | v :: vs => '(t, _) ← write_value t v Keep; write_all t vs
  end.

Definition free_bucket : Bucket T := mk_bucket Free 0 None.

Definition try_rehash (t : HashTable T) (new_capacity : nat) : outcome (HashTable T) :=
  let new_capacity := (2 ^ ceil_log2 (Nat.max new_capacity (capacity t + 1)))%nat in
  verify (m_size t <=? new_capacity)%nat (
    let buckets := replicate new_capacity free_bucket in
    match m_buckets t with
    | [] => Returned (mk_hash_table buckets (m_size t) (new_capacity - 1))
    | _ => write_all (mk_hash_table buckets 0 (new_capacity - 1)) (values t)
    end).

Definition should_grow (t : HashTable T) : bool :=
  (capacity t * grow_at_load_factor_percent <=? (m_size t + 1) * 100)%nat.

Definition grow_if_needed (t : HashTable T) : outcome (HashTable T) :=
  if should_grow t then try_rehash t (Nat.max (capacity t * 2) grow_capacity_at_least) else Returned t.

Definition try_set (t : HashTable T) (value : T) (behavior : HashSetExistingEntryBehavior)
    : outcome (HashTable T * HashSetResult) :=
  t ← grow_if_needed t;
  write_value t value behavior.

(** [ensure(hash, predicate, initialization_callback, behavior)]: the table and the
    position of the entry. *)
Definition ensure (t : HashTable T) (h : Z) (predicate : T → bool) (initial : T)
    (behavior : HashSetExistingEntryBehavior) : outcome (HashTable T * nat) :=
  t ← grow_if_needed t;
  '(t, _, index) ← write_with t h predicate initial behavior;
  Returned (t, index).

Definition try_ensure_capacity (t : HashTable T) (wanted : nat) : outcome (HashTable T) :=
  let required_capacity := (wanted * 100 / grow_at_load_factor_percent + 1)%nat in
  if (required_capacity <=? capacity t)%nat then Returned t else try_rehash t required_capacity.

Definition find (t : HashTable T) (value : T) : outcome (option nat) :=
  if table_is_empty t then Returned None
  else lookup_with_hash t (hash value) (λ entry, equals entry value).

Definition table_contains (t : HashTable T) (value : T) : outcome bool :=
  it ← find t value; Returned (bool_decide (is_Some it)).

(** The shifting loop of [delete_bucket]. *)
Fixpoint shift_loop (fuel : nat) (buckets : list (Bucket T)) (mask shift_to_index shift_from_index : nat)
    : outcome (list (Bucket T) * nat) :=
  match fuel with
  | O => OutOfFuel
  | S fuel =>
      let shift_from_index := next_index mask shift_from_index in
      shift_from_bucket ← at_index buckets shift_from_index;
      if state shift_from_bucket =? Free then Returned (buckets, shift_to_index)
      else
        shift_from_probe_length ← used_bucket_probe_length mask shift_from_index shift_from_bucket;
        if (shift_from_probe_length =? 0)%nat then Returned (buckets, shift_to_index)
        else
          buckets ← set_index buckets shift_to_index
            (with_bucket_state shift_from_bucket (bucket_state_for_probe_length (shift_from_probe_length - 1)));
          buckets ← set_index buckets shift_from_index (moved_from shift_from_bucket);
          shift_loop fuel buckets mask (next_index mask shift_to_index) shift_from_index
  end.

Definition delete_bucket (t : HashTable T) (index : nat) : outcome (HashTable T) :=
  bucket ← at_index (m_buckets t) index;
  verify (negb (state bucket =? Free)) (
    buckets ← set_index (m_buckets t) index (moved_from bucket);
    verify (index <=? m_mask t)%nat (
      '(buckets, shift_to_index) ← shift_loop (S (length buckets)) buckets (m_mask t) index index;
      last ← at_index buckets shift_to_index;
      buckets ← set_index buckets shift_to_index (with_bucket_state last Free);
      Returned (mk_hash_table buckets (m_size t - 1) (m_mask t)))).

Definition remove (t : HashTable T) (value : T) : outcome (HashTable T * bool) :=
  it ← find t value;
  match it with
  | Some index => t ← delete_bucket t index; Returned (t, true)
  | None => Returned (t, false)
  end.

(** The loop of [take_all_matching]; [remove_all_matching] drops the values.  The
    fuel covers the buckets and one more visit for each deletion. *)
Fixpoint take_loop (fuel : nat) (t : HashTable T) (predicate : T → bool) (i : nat) (taken : list T)
    : outcome (HashTable T * list T) :=
  if (i <? capacity t)%nat then
    match fuel with
    | O => OutOfFuel
    | S fuel =>
        bucket ← at_index (m_buckets t) i;
        if state bucket =? Free then take_loop fuel t predicate (S i) taken
        else
          v ← must (slot bucket);
          if negb (predicate v) then take_loop fuel t predicate (S i) taken
          else
            t ← delete_bucket t i;
            bucket ← at_index (m_buckets t) i;
            take_loop fuel t predicate (if negb (state bucket =? Free) then i else S i) (taken ++ [v])
    end
  else Returned (t, taken).

Definition take_all_matching (t : HashTable T) (predicate : T → bool) : outcome (HashTable T * list T) :=
  take_loop (capacity t + m_size t) t predicate 0 [].

Definition remove_all_matching (t : HashTable T) (predicate : T → bool) : outcome (HashTable T * bool) :=
  '(t, taken) ← take_loop (capacity t + m_size t) t predicate 0 [];
  Returned (t, negb (bool_decide (length taken = 0%nat))).

Definition clear (t : HashTable T) : HashTable T := empty_table.

Definition clear_with_capacity (t : HashTable T) : HashTable T :=
  match m_buckets t with
  | [] => t
  | _ => mk_hash_table (replicate (capacity t) free_bucket) 0 (m_mask t)
  end.

(** A range-based [for] over the table whose body may assign to the value it is
    given, but does not touch the table. *)
Fixpoint for_each_bucket {A} (buckets : list (Bucket T)) (body : T → A → outcome (T * A)) (acc : A)
    : outcome (list (Bucket T) * A) :=
  match buckets with
  | [] => Returned ([], acc)
  | bucket :: buckets =>
      if state bucket =? Free then
        '(buckets, acc) ← for_each_bucket buckets body acc;
        Returned (bucket :: buckets, acc)
      else
        v ← must (slot bucket);
        '(v, acc) ← body v acc;
        '(buckets, acc) ← for_each_bucket buckets body acc;
        Returned (mk_bucket (state bucket) (stored_hash bucket) (Some v) :: buckets, acc)
  end.

Definition for_each_value {A} (t : HashTable T) (body : T → A → outcome (T * A)) (acc : A)
    : outcome (HashTable T * A) :=
  '(buckets, acc) ← for_each_bucket (m_buckets t) body acc;
  Returned (mk_hash_table buckets (m_size t) (m_mask t), acc).

(** The copy constructor. *)
Fixpoint set_all (t : HashTable T) (vs : list T) : outcome (HashTable T) :=
  match vs with
  | [] => Returned t
  | v :: vs => '(t, _) ← try_set t v Replace; set_all t vs
  end.

Definition copy (other : HashTable T) : outcome (HashTable T) :=
  t ← try_rehash empty_table (capacity other);
  set_all t (values other).

End Model.
