(* ===== verification/HashTableCorrect.v ===== *)
(** * Correctness of the hash table

    The buckets represent a list of optional elements that satisfies the robin-hood
    invariant: an element that is [p + 1] buckets away from its ideal position
    follows an element that is at least [p] away from its own.  Lookup, insertion
    and backward-shift deletion are proved against it. *)
From stdpp Require Import gmap.
From S2P Require Import Prelude HashTable.

(** What a key type promises: equality is equality of a canonical form that the
    hash respects. *)
Class HashTraitsOk (T K : Type) `{HashTraits T, EqDecision K} := {
  canon : T → K;
  equals_canon : ∀ a b, equals a b = bool_decide (canon a = canon b);
  hash_canon : ∀ a b, canon a = canon b → hash a = hash b;
  hash_range : ∀ a, 0 ≤ hash a < 2 ^ 32;
}.

(** ** Positions in a table of [cap] buckets *)
Section Positions.
Context (cap : nat).
Local Open Scope nat_scope.

Definition nxt (i : nat) : nat := if i + 1 =? cap then 0 else i + 1.
Definition dist (a i : nat) : nat := if i <? a then cap + i - a else i - a.
Definition pos (a j : nat) : nat := if a + j <? cap then a + j else a + j - cap.

Ltac position_cases :=
  unfold pos, dist, nxt in *; intros;
  repeat match goal with
  | |- context [?a <? ?b] => destruct (Nat.ltb_spec a b)
  | |- context [?a =? ?b] => destruct (Nat.eqb_spec a b)
  | H : context [?a =? ?b] |- _ => destruct (Nat.eqb_spec a b)
  end; lia.

Lemma nxt_lt i : i < cap → nxt i < cap.
Proof. position_cases. Qed.

Lemma nxt_inj i j : i < cap → j < cap → nxt i = nxt j → i = j.
Proof. position_cases. Qed.

Lemma dist_lt a i : a < cap → i < cap → dist a i < cap.
Proof. position_cases. Qed.

Lemma pos_lt a j : a < cap → j < cap → pos a j < cap.
Proof. position_cases. Qed.

Lemma pos_0 a : a < cap → pos a 0 = a.
Proof. position_cases. Qed.

Lemma pos_S a j : a < cap → S j < cap → pos a (S j) = nxt (pos a j).
Proof. position_cases. Qed.

Lemma dist_pos a j : a < cap → j < cap → dist a (pos a j) = j.
Proof. position_cases. Qed.

Lemma pos_dist a i : a < cap → i < cap → pos a (dist a i) = i.
Proof. position_cases. Qed.

Lemma pos_nxt i j : i < cap → S j < cap → pos (nxt i) j = pos i (S j).
Proof. position_cases. Qed.

Lemma pos_pos a j d : a < cap → j ≤ d → d < cap → pos (pos a j) (d - j) = pos a d.
Proof. position_cases. Qed.

Lemma pos_moves i j : i < cap → 0 < j < cap → pos i j ≠ i.
Proof. position_cases. Qed.

Lemma pos_1 i : i < cap → 1 < cap → pos i 1 = nxt i.
Proof. position_cases. Qed.

Lemma dist_nxt a i : a < cap → i < cap → dist a (nxt i) = if nxt i =? a then 0 else S (dist a i).
Proof. position_cases. Qed.

End Positions.

Lemma masked_mod k x : 0 ≤ x → masked_index (2 ^ k - 1) x = Z.to_nat (x mod 2 ^ Z.of_nat k).
Proof.
  intros Hx. unfold masked_index. f_equal.
  replace (Z.of_nat (2 ^ k - 1)) with (Z.ones (Z.of_nat k)).
  - apply Z.land_ones. lia.
  - rewrite Z.ones_equiv, Nat2Z.inj_sub, Nat2Z.inj_pow; [lia|].
    pose proof (Nat.pow_nonzero 2 k). lia.
Qed.

Lemma next_index_nxt k i : (i < 2 ^ k)%nat → next_index (2 ^ k - 1) i = nxt (2 ^ k) i.
Proof.
  intros Hi. unfold next_index. rewrite masked_mod by lia. unfold nxt.
  assert (2 ^ Z.of_nat k = Z.of_nat (2 ^ k)) as -> by (by rewrite Nat2Z.inj_pow).
  destruct (Nat.eqb_spec (i + 1) (2 ^ k)).
  - replace (Z.of_nat i + 1) with (Z.of_nat (2 ^ k)) by lia. by rewrite Z.mod_same by lia.
  - rewrite Z.mod_small by lia. lia.
Qed.

Lemma masked_lt k x : 0 ≤ x → (masked_index (2 ^ k - 1) x < 2 ^ k)%nat.
Proof.
  intros Hx. rewrite masked_mod by done.
  assert (2 ^ Z.of_nat k = Z.of_nat (2 ^ k)) as -> by (by rewrite Nat2Z.inj_pow).
  assert (0 < Z.of_nat (2 ^ k)) by (pose proof (Nat.pow_nonzero 2 k); lia).
  pose proof (Z.mod_pos_bound x (Z.of_nat (2 ^ k))). lia.
Qed.

(** ** The elements of a table *)
Lemma elements_place {A} (E : list (option A)) i v :
  E !! i = Some None → omap id (<[i:=Some v]> E) ≡ₚ v :: omap id E.
Proof.
  intros Hi. pose proof (lookup_lt_Some _ _ _ Hi) as Hlt. rewrite insert_take_drop by done.
  rewrite <-(take_drop_middle E i None Hi) at 3. rewrite !omap_app. cbn. by rewrite Permutation_middle.
Qed.

Lemma elements_replace {A} (E : list (option A)) i v w :
  E !! i = Some (Some w) → w :: omap id (<[i:=Some v]> E) ≡ₚ v :: omap id E.
Proof.
  intros Hi. pose proof (lookup_lt_Some _ _ _ Hi) as Hlt. rewrite insert_take_drop by done.
  rewrite <-(take_drop_middle E i _ Hi) at 3. rewrite !omap_app. cbn.
  rewrite <-!Permutation_middle. apply Permutation_swap.
Qed.

Lemma elements_free {A} (E : list (option A)) i w :
  E !! i = Some (Some w) → w :: omap id (<[i:=None]> E) ≡ₚ omap id E.
Proof.
  intros Hi. pose proof (lookup_lt_Some _ _ _ Hi) as Hlt. rewrite insert_take_drop by done.
  rewrite <-(take_drop_middle E i _ Hi) at 3. rewrite !omap_app. cbn. by rewrite Permutation_middle.
Qed.

Lemma elements_none A n : omap id (replicate n (@None A)) = [].
Proof. by induction n. Qed.

Lemma elements_elem {A} (E : list (option A)) v : v ∈ omap id E ↔ ∃ i, E !! i = Some (Some v).
Proof.
  rewrite list_elem_of_omap. setoid_rewrite list_elem_of_lookup. naive_solver.
Qed.

Section Correct.
Context {T K : Type} `{HashTraitsOk T K}.

(** ** Tables of elements *)
Section Elements.
Context (k : nat).
Notation cap := (2 ^ k)%nat.
Notation mask := (2 ^ k - 1)%nat.

Definition ideal (v : T) : nat := masked_index mask (hash v).
Definition probe (v : T) (i : nat) : nat := dist cap (ideal v) i.

Lemma ideal_lt v : (ideal v < cap)%nat.
Proof. apply masked_lt. pose proof (hash_range v). lia. Qed.

Lemma probe_lt v i : (i < cap)%nat → (probe v i < cap)%nat.
Proof. apply dist_lt, ideal_lt. Qed.

Lemma probe_nxt v i :
  (i < cap)%nat → probe v (nxt cap i) = 0%nat ∨ probe v (nxt cap i) = S (probe v i).
Proof. intros Hi. unfold probe. rewrite dist_nxt by (done || apply ideal_lt). case_match; auto. Qed.

Lemma pos_probe v i : (i < cap)%nat → pos cap (ideal v) (probe v i) = i.
Proof. intros Hi. apply pos_dist; [apply ideal_lt|done]. Qed.

Record robin_hood (E : list (option T)) : Prop := {
  rh_length : length E = cap;
  rh_step : ∀ i w p, (i < cap)%nat → E !! nxt cap i = Some (Some w) → probe w (nxt cap i) = S p →
    ∃ u, E !! i = Some (Some u) ∧ (p ≤ probe u i)%nat;
}.

(** Every bucket on the way from the ideal position of an element to its position
    is used, by an element at least as far from its own ideal position. *)
Lemma rh_chain E i w j :
  robin_hood E → E !! i = Some (Some w) → (j ≤ probe w i)%nat →
  ∃ u, E !! pos cap (ideal w) j = Some (Some u) ∧ (j ≤ probe u (pos cap (ideal w) j))%nat.
Proof.
  intros [Hlen Hstep] Hi. assert (i < cap)%nat as Hic by (rewrite <-Hlen; eapply lookup_lt_Some, Hi).
  pose proof (ideal_lt w) as Hid. pose proof (probe_lt w i Hic) as Hp.
  assert (∀ n, (n ≤ probe w i)%nat → ∃ u, E !! pos cap (ideal w) (probe w i - n) = Some (Some u)
    ∧ (probe w i - n ≤ probe u (pos cap (ideal w) (probe w i - n)))%nat) as Hall.
  { induction n as [|n IH]; intros Hn.
    - rewrite Nat.sub_0_r, pos_probe by done. by exists w.
    - destruct IH as (u & Hu & Hle); [lia|]. set (j' := (probe w i - S n)%nat).
      replace (probe w i - n)%nat with (S j') in * by lia.
      rewrite pos_S in * by lia. assert (pos cap (ideal w) j' < cap)%nat as Hpc by (apply pos_lt; lia).
      destruct (probe_nxt u _ Hpc) as [E0|E0]; [rewrite E0 in Hle; lia|].
      destruct (Hstep _ u _ Hpc Hu E0) as (u' & Hu' & Hle'). exists u'. split; [done|]. lia. }
  intros Hj. specialize (Hall (probe w i - j)%nat ltac:(lia)).
  by replace (probe w i - (probe w i - j))%nat with j in Hall by lia.
Qed.

(** Placing an element: no further from its ideal position than one more than its
    predecessor, and at least as far as the element it takes the place of. *)
Definition follows (E : list (option T)) (v : T) (i : nat) : Prop :=
  probe v i = 0%nat ∨ ∃ j u, (j < cap)%nat ∧ nxt cap j = i ∧ j ≠ i ∧ E !! j = Some (Some u) ∧ (probe v i ≤ S (probe u j))%nat.

Lemma rh_place E v i :
  robin_hood E → (i < cap)%nat → follows E v i →
  (∀ w, E !! i = Some (Some w) → (probe w i ≤ probe v i)%nat) →
  robin_hood (<[i:=Some v]> E).
Proof.
  intros [Hlen Hstep] Hi Hpre Hpost. split; [by rewrite length_insert|].
  intros j w p Hj Hw Hp. destruct (decide (nxt cap j = i)) as [Hn|Hn].
  - rewrite Hn in Hw, Hp. rewrite list_lookup_insert_eq in Hw by lia. injection Hw as <-.
    destruct Hpre as [?|(j' & u & Hj' & Hnj & Hne & Hu & Hle)]; [lia|].
    assert (j' = j) as -> by (apply (nxt_inj cap); congruence). exists u.
    rewrite list_lookup_insert_ne by done. split; [done|lia].
  - rewrite list_lookup_insert_ne in Hw by done. destruct (Hstep j w p Hj Hw Hp) as (u & Hu & Hle).
    destruct (decide (i = j)) as [<-|Hij].
    + exists v. rewrite list_lookup_insert_eq by lia. split; [done|]. specialize (Hpost u Hu). lia.
    + exists u. by rewrite list_lookup_insert_ne.
Qed.

(** An element with the same ideal position can take the place of another. *)
Lemma rh_replace E v x i :
  robin_hood E → E !! i = Some (Some v) → ideal x = ideal v → robin_hood (<[i:=Some x]> E).
Proof.
  intros [Hlen Hstep] Hi Hid. pose proof (lookup_lt_Some _ _ _ Hi) as Hlt.
  assert (∀ j, probe x j = probe v j) as Hp by (intros j; unfold probe; by rewrite Hid).
  split; [by rewrite length_insert|]. intros j w p Hj Hw Hpw.
  assert (∃ w', E !! nxt cap j = Some (Some w') ∧ probe w' (nxt cap j) = S p) as (w' & Hw' & Hpw').
  { apply list_lookup_insert_Some in Hw as [(Heq & [= <-] & _)|[_ Hw]]; [|by exists w].
    exists v. rewrite <-Hp. split; [congruence|done]. }
  destruct (Hstep j w' p Hj Hw' Hpw') as (u & Hu & Hle). destruct (decide (i = j)) as [<-|Hne].
  - exists x. rewrite list_lookup_insert_eq by done. split; [done|]. rewrite Hp. assert (u = v) as <- by congruence. done.
  - exists u. by rewrite list_lookup_insert_ne.
Qed.

(** Copying an element one bucket towards its ideal position. *)
Lemma rh_shift E s w i :
  robin_hood E → (i < cap)%nat → nxt cap i ≠ i → E !! i = Some (Some s) → E !! nxt cap i = Some (Some w) →
  probe w (nxt cap i) = S (probe w i) → robin_hood (<[i:=Some w]> E).
Proof.
  intros [Hlen Hstep] Hi Hne Hs Hw Hp. destruct (Hstep i w _ Hi Hw Hp) as (s' & Hs' & Hle).
  assert (s' = s) as -> by congruence. split; [by rewrite length_insert|]. intros j u p Hj Hu Hpu.
  destruct (decide (i = j)) as [<-|Hij].
  - rewrite list_lookup_insert_ne in Hu by done. assert (u = w) as -> by congruence. exists w.
    rewrite list_lookup_insert_eq by lia. split; [done|lia].
  - apply list_lookup_insert_Some in Hu as [(Heq & [= <-] & _)|[_ Hu]].
    + rewrite <-Heq in Hpu. destruct (probe s i) as [|q] eqn:Eq; [lia|].
      assert (E !! nxt cap j = Some (Some s)) as Hs1 by (by rewrite <-Heq).
      destruct (Hstep j s q Hj Hs1) as (u' & Hu' & Hle'); [by rewrite <-Heq|]. exists u'.
      rewrite list_lookup_insert_ne by done. split; [done|lia].
    + destruct (Hstep j u p Hj Hu Hpu) as (u' & Hu' & Hle'). exists u'. by rewrite list_lookup_insert_ne.
Qed.

(** Freeing a position whose successor is free or at home. *)
Lemma rh_free E i :
  robin_hood E → (i < cap)%nat →
  (∀ w, E !! nxt cap i = Some (Some w) → probe w (nxt cap i) = 0%nat) →
  robin_hood (<[i:=None]> E).
Proof.
  intros [Hlen Hstep] Hi Hnext. split; [by rewrite length_insert|]. intros j w p Hj Hw Hp.
  destruct (decide (i = nxt cap j)) as [Hn|Hn].
  { rewrite <-Hn in Hw. rewrite list_lookup_insert_eq in Hw by lia. done. }
  rewrite list_lookup_insert_ne in Hw by done. destruct (Hstep j w p Hj Hw Hp) as (u & Hu & Hle).
  destruct (decide (i = j)) as [<-|Hij]; [by rewrite (Hnext w Hw) in Hp|].
  exists u. by rewrite list_lookup_insert_ne.
Qed.

(** ** Buckets that represent elements *)
Definition bucket_ok (i : nat) (b : Bucket T) (e : option T) : Prop :=
  match e with
  | None => state b = Free
  | Some v => state b = bucket_state_for_probe_length (probe v i) ∧ slot b = Some v
              ∧ (may_have_slow_equality_check = true → stored_hash b = hash v)
  end.

(** All buckets but the one at [hole]. *)
Record matches_except (hole : option nat) (bs : list (Bucket T)) (E : list (option T)) : Prop := {
  me_length : length bs = length E;
  me_lookup : ∀ i b e, bs !! i = Some b → E !! i = Some e → hole ≠ Some i → bucket_ok i b e;
}.

Lemma bucket_used i b v : bucket_ok i b (Some v) → (state b =? Free) = false.
Proof.
  intros (Hs & _ & _). rewrite Hs. unfold bucket_state_for_probe_length.
  destruct (_ <? _)%nat; [done|]. apply Z.eqb_neq. lia.
Qed.

Lemma used_probe_length i b v :
  (i < cap)%nat → bucket_ok i b (Some v) → used_bucket_probe_length mask i b = Returned (probe v i).
Proof.
  intros Hi Hb. pose proof (bucket_used i b v Hb) as Hu. destruct Hb as (Hs & Hslot & _).
  unfold used_bucket_probe_length. rewrite Hu. cbn [negb verify]. pose proof (probe_lt v i Hi) as Hp.
  assert (1 ≤ cap)%nat by lia. destruct (Z.eqb_spec (state b) CalculateLength) as [Hc|Hc].
  - rewrite Hslot. cbn [must mbind outcome_bind]. fold (ideal v). unfold probe, dist.
    replace (mask + 1)%nat with cap by lia. done.
  - rewrite Hs in *. unfold bucket_state_for_probe_length in *.
    destruct (Nat.ltb_spec 253 (probe v i)); [done|]. f_equal. lia.
Qed.

(** A predicate that tests for the key of [x]. *)
Definition tests (predicate : T → bool) (x : T) : Prop := ∀ c, predicate c = bool_decide (canon c = canon x).

Lemma equals_tests x : tests (λ c, equals c x) x.
Proof. intros c. apply equals_canon. Qed.

Lemma bucket_matches_ok i b v x predicate :
  tests predicate x → bucket_ok i b (Some v) →
  bucket_matches (hash x) predicate b = Returned (bool_decide (canon v = canon x)).
Proof.
  intros Ht (_ & Hslot & Hh). unfold bucket_matches, stored_hash_check. rewrite <-Ht.
  destruct may_have_slow_equality_check.
  - rewrite (Hh eq_refl). destruct (Z.eqb_spec (hash v) (hash x)) as [He|He].
    + by rewrite Hslot.
    + rewrite Ht, bool_decide_eq_false_2; [done|]. intros Hc. by apply He, hash_canon.
  - by rewrite Hslot.
Qed.

Lemma matches_lookup hole bs E i e :
  matches_except hole bs E → E !! i = Some e → hole ≠ Some i →
  ∃ b, at_index bs i = Returned b ∧ bs !! i = Some b ∧ bucket_ok i b e.
Proof.
  intros [Hlen Hall] He Hne. assert (i < length bs)%nat as Hi by (rewrite Hlen; eapply lookup_lt_Some, He).
  destruct (at_index_total bs i Hi) as (b & Hb & Hb'). exists b. split_and!; eauto.
Qed.

Definition absent_from (E : list (option T)) (x : T) : Prop :=
  ∀ i v, E !! i = Some (Some v) → canon v ≠ canon x.

(** The first [j] buckets of the search for [x] hold other elements. *)
Definition searched (E : list (option T)) (x : T) (j : nat) : Prop :=
  ∀ j' v, (j' < j)%nat → E !! pos cap (ideal x) j' = Some (Some v) → canon v ≠ canon x.

Lemma searched_S E x j :
  searched E x j → (∀ v, E !! pos cap (ideal x) j = Some (Some v) → canon v ≠ canon x) → searched E x (S j).
Proof. intros Hs Hj j' v Hj'. destruct (decide (j' = j)) as [->|]; [apply Hj|apply Hs; lia]. Qed.

(** Where the search may stop: at a free bucket or at an element that is closer to
    its ideal position. *)
Lemma search_stops E x j :
  robin_hood E → searched E x j →
  (∀ u, E !! pos cap (ideal x) j = Some (Some u) → (probe u (pos cap (ideal x) j) < j)%nat) → absent_from E x.
Proof.
  intros Hrh Hs Hstop i v Hv Hc. assert (ideal v = ideal x) as Hid by (unfold ideal; by rewrite (hash_canon v x Hc)).
  assert (i < cap)%nat as Hi by (rewrite <-(rh_length _ Hrh); eapply lookup_lt_Some, Hv).
  destruct (Nat.lt_ge_cases (probe v i) j) as [Hp|Hp].
  - apply (Hs (probe v i) v Hp); [|done]. by rewrite <-Hid, pos_probe.
  - destruct (rh_chain E i v j Hrh Hv Hp) as (u & Hu & Hle). rewrite Hid in *. specialize (Hstop u Hu). lia.
Qed.

Lemma lookup_loop_spec bs E x predicate d j fuel :
  tests predicate x → robin_hood E → matches_except None bs E → (d < cap)%nat → E !! pos cap (ideal x) d = Some None →
  searched E x j → (j ≤ d)%nat → (d - j < fuel)%nat →
  ∃ r, lookup_loop fuel bs mask (hash x) predicate (pos cap (ideal x) j) = Returned r ∧
    match r with Some i => ∃ v, E !! i = Some (Some v) ∧ canon v = canon x | None => absent_from E x end.
Proof.
  intros Ht Hrh Hm Hd Hfree. revert j. induction fuel as [|fuel IH]; intros j Hs Hj Hf; [lia|].
  pose proof (ideal_lt x) as Hid. assert (pos cap (ideal x) j < cap)%nat as Hp by (apply pos_lt; lia).
  destruct (lookup_lt_is_Some_2 E (pos cap (ideal x) j)) as [e He]; [by rewrite (rh_length _ Hrh)|].
  destruct (matches_lookup None bs E _ e Hm He ltac:(done)) as (b & Hb & _ & Hok). cbn [lookup_loop].
  rewrite Hb, bind_value. destruct e as [v|].
  - rewrite (bucket_used _ _ _ Hok), (bucket_matches_ok _ _ _ _ _ Ht Hok), bind_value.
    case_bool_decide as Hc; [exists (Some (pos cap (ideal x) j)); split; [done|by exists v]|].
    assert (j ≠ d) as Hjd by (intros ->; congruence).
    rewrite next_index_nxt, <-pos_S by lia. apply IH; [|lia..]. apply searched_S; [done|]. intros v' Hv'. congruence.
  - cbn in Hok. rewrite Hok. cbn. exists None. split; [done|]. apply (search_stops E x j); [done..|]. congruence.
Qed.

Lemma matches_set hole bs E i b e :
  matches_except hole bs E → (hole ≠ Some i → bucket_ok i b e) → matches_except hole (<[i:=b]> bs) (<[i:=e]> E).
Proof.
  intros [Hlen Hall] Hok. split; [by rewrite !length_insert|]. intros j b' e' Hb He Hne.
  apply list_lookup_insert_Some in Hb as [(-> & -> & Hi)|[Hij Hb]].
  - rewrite list_lookup_insert_eq in He by lia. injection He as <-. auto.
  - rewrite list_lookup_insert_ne in He by done. eauto.
Qed.

(** With a free bucket no element is at the far end. *)
Lemma probe_bound E i u f :
  robin_hood E → E !! i = Some (Some u) → E !! f = Some None → (S (probe u i) < cap)%nat.
Proof.
  intros Hrh Hu Hf. assert (i < cap)%nat as Hi by (rewrite <-(rh_length _ Hrh); eapply lookup_lt_Some, Hu).
  assert (f < cap)%nat as Hfc by (rewrite <-(rh_length _ Hrh); eapply lookup_lt_Some, Hf).
  pose proof (ideal_lt u). pose proof (dist_lt cap (ideal u) f ltac:(done) Hfc) as Hd. pose proof (probe_lt u i Hi).
  destruct (Nat.lt_ge_cases (S (probe u i)) cap) as [|Hge]; [done|].
  destruct (rh_chain E i u (dist cap (ideal u) f) Hrh Hu ltac:(lia)) as (u' & Hu' & _).
  rewrite pos_dist in Hu' by done. congruence.
Qed.

(** An element that is displaced past [idx] has not come round to its own place. *)
Lemma probe_displaced E idx u v f :
  robin_hood E → (idx < cap)%nat → E !! idx = Some (Some u) → E !! f = Some None → (probe v idx ≤ probe u idx)%nat →
  probe v (nxt cap idx) = S (probe v idx).
Proof.
  intros Hrh Hidx Hu Hfree Hle. pose proof (probe_bound E idx u _ Hrh Hu Hfree) as Hb. unfold probe in *.
  rewrite dist_nxt by (done || apply ideal_lt). destruct (Nat.eqb_spec (nxt cap idx) (ideal v)) as [Hni|]; [|done].
  exfalso. pose proof (ideal_lt v) as Hv. clear -Hni Hle Hb Hv Hidx. unfold nxt, dist in *.
  destruct (Nat.eqb_spec (idx + 1) cap), (Nat.ltb_spec idx (ideal v)); lia.
Qed.

Lemma displace_loop_spec hole bs E m v u idx d fuel :
  robin_hood E → matches_except (Some hole) bs E → (idx < cap)%nat →
  slot m = Some v → (may_have_slow_equality_check = true → stored_hash m = hash v) →
  E !! idx = Some (Some u) → (probe v idx ≤ probe u idx)%nat →
  (0 < d < cap)%nat → E !! pos cap idx d = Some None → (∀ j, (0 < j ≤ d)%nat → pos cap idx j ≠ hole) → (d ≤ fuel)%nat →
  ∃ bs' E', displace_loop fuel bs mask m idx (probe v idx) = Returned bs' ∧ robin_hood E'
    ∧ matches_except (Some hole) bs' E' ∧ omap id E' ≡ₚ v :: omap id E ∧ E' !! hole = E !! hole ∧ bs' !! hole = bs !! hole.
Proof.
  revert bs E m v u idx d. induction fuel as [|fuel IH];
    intros bs E m v u idx d Hrh Hm Hidx Hslot Hh Hu Hle Hd Hfree Hhole Hf; [lia|].
  cbn [displace_loop]. rewrite next_index_nxt by done. set (n := nxt cap idx).
  assert (n < cap)%nat as Hn by (by apply nxt_lt). assert (n ≠ hole) as Hnh.
  { unfold n. rewrite <-pos_1 by lia. apply Hhole. lia. }
  assert (probe v n = S (probe v idx)) as Hpn by (eapply probe_displaced; eauto).
  destruct (lookup_lt_is_Some_2 E n) as [e He]; [by rewrite (rh_length _ Hrh)|].
  destruct (matches_lookup _ bs E n e Hm He ltac:(congruence)) as (b & Hb & Hbl & Hok). rewrite Hb, bind_value.
  assert (bucket_ok n (with_bucket_state m (bucket_state_for_probe_length (S (probe v idx)))) (Some v)) as Hplaced.
  { cbn. by rewrite Hpn. }
  assert (follows E v n) as Hfollows.
  { right. exists idx, u. split_and!; try done; [|lia]. intros <-. rewrite Hpn in *. lia. }
  assert (length bs = cap) as Hlb by (rewrite (me_length _ _ _ Hm); apply Hrh).
  destruct e as [w|].
  - rewrite (bucket_used _ _ _ Hok), (used_probe_length _ _ _ Hn Hok), bind_value.
    assert (d ≠ 1)%nat as Hd1 by (intros ->; rewrite pos_1 in Hfree by lia; fold n in Hfree; congruence).
    assert (E !! pos cap n (d - 1) = Some None) as Hfree'.
    { unfold n. rewrite pos_nxt by lia. by replace (S (d - 1)) with d by lia. }
    assert (∀ j, (0 < j ≤ d - 1)%nat → pos cap n j ≠ hole) as Hhole'.
    { intros j Hj. unfold n. rewrite pos_nxt by lia. apply Hhole. lia. }
    destruct (Nat.ltb_spec (probe w n) (S (probe v idx))) as [Hlt|Hge].
    + rewrite set_index_lt, bind_value by lia.
      assert (pos cap n (d - 1) ≠ n) as Hnf by congruence. destruct Hok as (_ & Hbs & Hbh).
      destruct (IH (<[n:=with_bucket_state m (bucket_state_for_probe_length (S (probe v idx)))]> bs) (<[n:=Some v]> E) b w v n (d - 1)%nat)
        as (bs' & E' & Hr & Hrh' & Hm' & Hperm & Hh1 & Hh2); try done; try lia.
      * apply rh_place; try done. intros w' Hw'. assert (w' = w) as -> by congruence. lia.
      * by apply matches_set.
      * rewrite list_lookup_insert_eq; [done|]. by rewrite (rh_length _ Hrh).
      * by rewrite list_lookup_insert_ne.
      * exists bs', E'. rewrite Hr. split_and!; try done.
        -- rewrite Hperm. by apply elements_replace.
        -- rewrite Hh1. by rewrite list_lookup_insert_ne.
        -- rewrite Hh2. by rewrite list_lookup_insert_ne.
    + rewrite <-Hpn. rewrite <-Hpn in Hge. apply (IH bs E m v w n (d - 1)%nat); try done; lia.
  - cbn in Hok. rewrite Hok. cbn [Z.eqb]. rewrite set_index_lt by lia.
    exists (<[n:=with_bucket_state m (bucket_state_for_probe_length (S (probe v idx)))]> bs), (<[n:=Some v]> E). split_and!; [done|..].
    + apply rh_place; try done. intros w Hw. congruence.
    + by apply matches_set.
    + by apply elements_place.
    + by rewrite list_lookup_insert_ne.
    + by rewrite list_lookup_insert_ne.
Qed.

Lemma matches_hole bs E i e : matches_except None bs E → matches_except (Some i) bs (<[i:=e]> E).
Proof.
  intros [Hlen Hall]. split; [by rewrite length_insert|]. intros j b e' Hb He Hne.
  rewrite list_lookup_insert_ne in He by congruence. eauto.
Qed.

(** What [lookup_for_writing] finds for [x] in a table of elements [E]. *)
Definition writes (E : list (option T)) (bs : list (Bucket T)) (x : T) (behavior : HashSetExistingEntryBehavior)
    (bs' : list (Bucket T)) (result : HashSetResult) (i q : nat) : Prop :=
  match result with
  | InsertedNewEntry =>
      absent_from E x ∧ q = probe x i ∧ ∃ E' b, robin_hood E' ∧ E' !! i = Some (Some x) ∧ matches_except (Some i) bs' E'
        ∧ omap id E' ≡ₚ x :: omap id E ∧ bs' !! i = Some b ∧ state b = Free
  | _ => bs' = bs ∧ (result = match behavior with Keep => KeptExistingEntry | Replace => ReplacedExistingEntry end)
         ∧ ∃ v, E !! i = Some (Some v) ∧ canon v = canon x
  end.

(** Taking the bucket of an element that is closer to its ideal position. *)
Lemma steal_bucket bs E x u b i d :
  robin_hood E → matches_except None bs E → (i < cap)%nat → bs !! i = Some b → bucket_ok i b (Some u) →
  E !! i = Some (Some u) → (probe u i < probe x i)%nat → follows E x i → absent_from E x →
  (0 < d < cap)%nat → E !! pos cap i d = Some None →
  ∃ bs', (buckets ← set_index bs i (mk_bucket (bucket_state_for_probe_length (probe x i))
                               (stored_hash_set (stored_hash b) (hash x)) None);
     buckets ← displace_loop (S (length buckets)) buckets mask b i (probe u i);
     inserted_bucket ← at_index buckets i;
     set_index buckets i (with_bucket_state inserted_bucket Free)) = Returned bs'
    ∧ ∀ behavior, writes E bs x behavior bs' InsertedNewEntry i (probe x i).
Proof.
  intros Hrh Hm Hi Hb (Hbst & Hbs & Hbh) Hu Hlt Hfollows Habs Hd Hfree.
  assert (length bs = cap) as Hlb by (rewrite (me_length _ _ _ Hm); apply Hrh).
  rewrite set_index_lt, bind_value by lia. set (st := mk_bucket _ _ _).
  destruct (displace_loop_spec i (<[i:=st]> bs) (<[i:=Some x]> E) b u x i d (S (length (<[i:=st]> bs))))
    as (bs1 & E1 & Hr & Hrh1 & Hm1 & Hperm & HE1 & Hbs1); try done; try lia.
  - apply rh_place; try done. intros w Hw. assert (w = u) as -> by congruence. lia.
  - apply matches_set; [|congruence]. destruct Hm as [Hl Ha]. split; [done|]. eauto.
  - rewrite list_lookup_insert_eq; [done|]. by rewrite (rh_length _ Hrh).
  - rewrite list_lookup_insert_ne; [done|]. apply not_eq_sym, pos_moves; lia.
  - intros j Hj. apply pos_moves; lia.
  - rewrite length_insert. lia.
  - rewrite list_lookup_insert_eq in HE1 by (by rewrite (rh_length _ Hrh)).
    rewrite list_lookup_insert_eq in Hbs1 by lia.
    rewrite Hr, bind_value, (at_index_lt _ _ _ Hbs1), bind_value.
    pose proof (lookup_lt_Some _ _ _ Hbs1) as Hi1. rewrite set_index_lt by done. eexists. split; [done|].
    intros behavior. split; [done|]. split; [done|]. exists E1, (with_bucket_state st Free). split_and!; try done.
    + rewrite <-(list_insert_id E1 i _ HE1). apply matches_set; [done|]. congruence.
    + rewrite Hperm. by apply elements_replace.
    + by rewrite list_lookup_insert_eq.
Qed.

Lemma writing_loop_spec bs E x predicate behavior d j fuel :
  tests predicate x → robin_hood E → matches_except None bs E → (d < cap)%nat → E !! pos cap (ideal x) d = Some None →
  searched E x j → follows E x (pos cap (ideal x) j) → (j ≤ d)%nat → (d - j < fuel)%nat →
  ∃ bs' result i q, writing_loop fuel bs mask (hash x) predicate behavior (pos cap (ideal x) j) j
                    = Returned (bs', result, i, q) ∧ writes E bs x behavior bs' result i q.
Proof.
  intros Ht Hrh Hm Hd Hfree. revert j. induction fuel as [|fuel IH]; intros j Hs Hfollows Hj Hf; [lia|].
  pose proof (ideal_lt x) as Hid. set (i := pos cap (ideal x) j) in *.
  assert (i < cap)%nat as Hi by (apply pos_lt; lia).
  assert (probe x i = j) as Hpx by (apply dist_pos; lia).
  destruct (lookup_lt_is_Some_2 E i) as [e He]; [by rewrite (rh_length _ Hrh)|].
  destruct (matches_lookup None bs E _ e Hm He ltac:(done)) as (b & Hb & Hbl & Hok). cbn [writing_loop].
  rewrite Hb, bind_value. destruct e as [u|].
  2:{ cbn in Hok. rewrite Hok. cbn [Z.eqb]. exists bs, InsertedNewEntry, i, j. split; [done|]. split_and!.
      - apply (search_stops E x j); [done..|]. fold i. congruence.
      - done.
      - exists (<[i:=Some x]> E), b. split_and!; try done.
        + apply rh_place; try done. congruence.
        + rewrite list_lookup_insert_eq; [done|]. by rewrite (rh_length _ Hrh).
        + by apply matches_hole.
        + by apply elements_place. }
  rewrite (bucket_used _ _ _ Hok), (bucket_matches_ok _ _ _ _ _ Ht Hok), bind_value.
  case_bool_decide as Hc.
  { eexists bs, _, i, 0%nat. split; [done|]. by destruct behavior; cbn; split_and!; eauto. }
  assert (j ≠ d) as Hjd by (intros ->; unfold i in He; congruence).
  assert (E !! pos cap i (d - j) = Some None) as Hfree' by (unfold i; by rewrite pos_pos by lia).
  rewrite (used_probe_length _ _ _ Hi Hok), bind_value. destruct (Nat.ltb_spec (probe u i) j) as [Hlt|Hge].
  - assert (absent_from E x) as Habs by (apply (search_stops E x j); [done..|]; fold i; congruence).
    destruct (steal_bucket bs E x u b i (d - j)%nat) as (bs' & Hr & Hw); try done; try lia.
    rewrite Hpx in Hr, Hw. cbn zeta. exists bs', InsertedNewEntry, i, j. split; [|apply Hw].
    destruct (set_index bs i _) as [bs1| |]; [|done..]. cbn [mbind outcome_bind] in Hr |- *.
    destruct (displace_loop _ _ _ _ _ _) as [bs2| |]; [|done..]. cbn [mbind outcome_bind] in Hr |- *.
    destruct (at_index bs2 i) as [ib| |]; [|done..]. cbn [mbind outcome_bind] in Hr |- *. by rewrite Hr.
  - rewrite next_index_nxt by done. replace (nxt cap i) with (pos cap (ideal x) (S j)) by (apply pos_S; lia).
    apply IH; try lia.
    + apply searched_S; [done|]. fold i. congruence.
    + right. exists i, u. rewrite pos_S by lia. fold i. split_and!; try done.
      * intros E0. apply (f_equal (dist cap (ideal x))) in E0. unfold i in E0. rewrite <-pos_S, !dist_pos in E0; lia.
      * unfold probe at 1. unfold i. rewrite <-pos_S, dist_pos by lia. fold i. lia.
Qed.

(** ** Tables with buckets *)
Record table_ok (t : HashTable T) (E : list (option T)) : Prop := {
  ok_mask : m_mask t = mask;
  ok_robin_hood : robin_hood E;
  ok_matches : matches_except None (m_buckets t) E;
  ok_unique : NoDup (canon <$> omap id E);
  ok_size : m_size t = length (omap id E);
  ok_room : (m_size t < cap)%nat;
}.

Lemma bucket_value_ok i b e : bucket_ok i b e → bucket_value b = e.
Proof.
  intros Hb. unfold bucket_value. destruct e as [v|].
  - rewrite (bucket_used _ _ _ Hb). apply Hb.
  - cbn in Hb. by rewrite Hb.
Qed.

Lemma values_elements t E : matches_except None (m_buckets t) E → values t = omap id E.
Proof.
  intros [Hlen Hall]. unfold values. revert Hlen Hall. generalize (m_buckets t). intros bs.
  revert E. cut (∀ n E, length bs = length E →
    (∀ i b e, bs !! i = Some b → E !! i = Some e → bucket_ok (n + i) b e) → omap bucket_value bs = omap id E).
  { intros Hcut E Hl Ha. apply (Hcut 0%nat); eauto. }
  induction bs as [|b bs IH]; intros n [|e E] Hlen Hall; try done. cbn.
  rewrite (bucket_value_ok (n + 0) b e) by (by apply Hall). injection Hlen as Hlen.
  rewrite (IH (S n) E Hlen); [by destruct e|]. intros i b' e' Hb He.
  replace (S n + i)%nat with (n + S i)%nat by lia. by apply Hall.
Qed.

Lemma table_length t E : table_ok t E → length (m_buckets t) = cap ∧ capacity t = cap ∧ m_buckets t ≠ [].
Proof.
  intros [Hmask Hrh Hm _ _ Hroom]. assert (length (m_buckets t) = cap) as Hl by (rewrite (me_length _ _ _ Hm); apply Hrh).
  assert (0 < cap)%nat by lia. split_and!; [done| |].
  - unfold capacity. destruct (m_buckets t); [cbn in Hl; lia|]. rewrite Hmask. lia.
  - intros Hnil. rewrite Hnil in Hl. cbn in Hl. lia.
Qed.

(** A table that is not full has a free bucket. *)
Lemma free_exists E : (length (omap id E) < length E)%nat → ∃ f, E !! f = Some (@None T).
Proof.
  induction E as [|[v|] E IH]; cbn; [lia| |by exists 0%nat].
  intros Hl. destruct IH as [f Hf]; [lia|]. by exists (S f).
Qed.

Lemma free_offset t E x :
  table_ok t E → ∃ d, (d < cap)%nat ∧ E !! pos cap (ideal x) d = Some None.
Proof.
  intros [_ Hrh _ _ Hsize Hroom]. destruct (free_exists E) as [f Hf]; [rewrite (rh_length _ Hrh); lia|].
  assert (f < cap)%nat as Hfc by (rewrite <-(rh_length _ Hrh); eapply lookup_lt_Some, Hf).
  exists (dist cap (ideal x) f). rewrite pos_dist by (done || apply ideal_lt). split; [|done].
  apply dist_lt; [apply ideal_lt|done].
Qed.

Lemma lookup_with_hash_spec t E x predicate :
  table_ok t E → tests predicate x →
  ∃ r, lookup_with_hash t (hash x) predicate = Returned r ∧
    match r with Some i => ∃ v, E !! i = Some (Some v) ∧ canon v = canon x | None => absent_from E x end.
Proof.
  intros Hok Ht. unfold lookup_with_hash, table_is_empty. destruct (Nat.eqb_spec (m_size t) 0) as [Hz|Hz].
  - exists None. split; [done|]. intros i v Hv. pose proof (ok_size _ _ Hok) as Hs. rewrite Hz in Hs.
    assert (v ∈ omap id E) as Hin by (apply elements_elem; eauto). destruct (omap id E); [by apply not_elem_of_nil in Hin|done].
  - destruct (free_offset t E x Hok) as (d & Hd & Hfree). rewrite (ok_mask _ _ Hok). fold (ideal x).
    rewrite <-(pos_0 cap (ideal x)) by apply ideal_lt.
    apply (lookup_loop_spec (m_buckets t) E x predicate d 0); try done; try apply Hok.
    + intros j' v Hj'. lia.
    + lia.
    + rewrite (proj1 (table_length t E Hok)). lia.
Qed.

(** ** Writing an element *)
Lemma absent_canon E x : absent_from E x → canon x ∉ canon <$> omap id E.
Proof.
  intros Ha (v & Hc & Hv)%list_elem_of_fmap. apply elements_elem in Hv as [i Hi]. by apply (Ha i v Hi).
Qed.

Definition written (E : list (option T)) (x : T) (behavior : HashSetExistingEntryBehavior)
    (result : HashSetResult) (E' : list (option T)) (i : nat) : Prop :=
  match result with
  | InsertedNewEntry => absent_from E x ∧ omap id E' ≡ₚ x :: omap id E ∧ E' !! i = Some (Some x)
  | ReplacedExistingEntry => behavior = Replace ∧ ∃ v, E !! i = Some (Some v) ∧ canon v = canon x ∧ E' = <[i:=Some x]> E
  | KeptExistingEntry => behavior = Keep ∧ E' = E ∧ ∃ v, E !! i = Some (Some v) ∧ canon v = canon x
  end.

Lemma commit_ok t E x bs' i :
  table_ok t E → (S (m_size t) < cap)%nat → (∀ behavior, writes E (m_buckets t) x behavior bs' InsertedNewEntry i (probe x i)) →
  ∃ t' E', commit_inserted_bucket t bs' i x (hash x) (probe x i) = Returned t' ∧ table_ok t' E'
    ∧ written E x Keep InsertedNewEntry E' i.
Proof.
  intros [Hmask Hrh Hm Hu Hsz Hrm] Hroom Hw.
  destruct (Hw Keep) as (Habs & _ & E' & b & Hrh' & Hx & Hm' & Hperm & Hb & Hfreeb).
  unfold commit_inserted_bucket. rewrite (at_index_lt _ _ _ Hb), bind_value.
  pose proof (lookup_lt_Some _ _ _ Hb) as Hi. rewrite set_index_lt, !bind_value by done.
  eexists _, E'. split; [done|]. split; [|by split_and!]. split; cbn [m_buckets m_size m_mask]; try done.
  - rewrite <-(list_insert_id E' i _ Hx). destruct Hm' as [Hl Ha]. split; [by rewrite !length_insert|].
    intros j b' e' Hb' He' _. apply list_lookup_insert_Some in Hb' as [(-> & <- & _)|[Hij Hb']].
    + rewrite list_lookup_insert_eq in He' by lia. injection He' as <-. cbn. split_and!; try done.
      unfold stored_hash_set. by intros ->.
    + rewrite list_lookup_insert_ne in He' by done. apply Ha; congruence.
  - rewrite Hperm. cbn [fmap list_fmap]. apply NoDup_cons. split; [by apply absent_canon|done].
  - apply Permutation_length in Hperm. cbn in Hperm. lia.
  - lia.
Qed.

Lemma replace_ok t E x v i b :
  table_ok t E → E !! i = Some (Some v) → canon v = canon x → bucket_ok i b (Some v) →
  table_ok (mk_hash_table (<[i:=mk_bucket (state b) (stored_hash b) (Some x)]> (m_buckets t)) (m_size t) (m_mask t))
    (<[i:=Some x]> E).
Proof.
  intros [Hmask Hrh Hm Hu Hsz Hrm] Hv Hc (Hs & _ & Hh).
  assert (ideal x = ideal v) as Hid by (unfold ideal; by rewrite (hash_canon v x Hc)).
  assert (canon <$> omap id (<[i:=Some x]> E) ≡ₚ canon <$> omap id E) as Hcp.
  { pose proof (elements_replace E i x v Hv) as Hrep. apply (fmap_Permutation canon) in Hrep. cbn in Hrep.
    rewrite Hc in Hrep. by apply Permutation_cons_inv in Hrep. }
  split; cbn [m_buckets m_size m_mask]; try done.
  - by apply (rh_replace E v).
  - apply matches_set; [done|]. intros _. cbn. unfold probe. rewrite Hid. split_and!; try done.
    intros Hslow. rewrite (Hh Hslow). by apply hash_canon.
  - by rewrite Hcp.
  - apply Permutation_length in Hcp. rewrite !length_fmap in Hcp. lia.
Qed.

Lemma write_with_spec t E x predicate behavior :
  table_ok t E → tests predicate x → (S (m_size t) < cap)%nat →
  ∃ t' result i E', write_with t (hash x) predicate x behavior = Returned (t', result, i)
    ∧ table_ok t' E' ∧ written E x behavior result E' i.
Proof.
  intros Hok Ht Hroom. destruct (free_offset t E x Hok) as (d & Hd & Hfree).
  destruct (writing_loop_spec (m_buckets t) E x predicate behavior d 0 (S (length (m_buckets t))))
    as (bs' & result & i & q & Hr & Hw); try done; try apply Hok; try lia.
  { intros j' v Hj'. lia. }
  { left. unfold probe. apply dist_pos; [apply ideal_lt|lia]. }
  { rewrite (proj1 (table_length t E Hok)). lia. }
  unfold write_with, lookup_for_writing. rewrite (ok_mask _ _ Hok). fold (ideal x).
  rewrite pos_0 in Hr by apply ideal_lt. rewrite Hr, bind_value.
  destruct result; cbn [writes] in Hw.
  - destruct Hw as (Habs & -> & Hrest). destruct (commit_ok t E x bs' i Hok Hroom) as (t' & E' & -> & Hok' & Hw').
    { intros b'. by split_and!. }
    rewrite bind_value. by eexists t', InsertedNewEntry, i, E'.
  - destruct Hw as (-> & Hbeh & v & Hv & Hc). destruct behavior; [done|].
    destruct (matches_lookup None _ E i _ (ok_matches _ _ Hok) Hv ltac:(done)) as (b & Hb & Hbl & Hbok).
    rewrite Hb, bind_value, set_index_lt, bind_value by (eapply lookup_lt_Some, Hbl).
    eexists _, ReplacedExistingEntry, i, _. split; [done|]. split; [|by split; eauto].
    rewrite <-(ok_mask _ _ Hok). by eapply replace_ok.
  - destruct Hw as (-> & Hbeh & v & Hv & Hc). destruct behavior; [|done].
    eexists _, KeptExistingEntry, i, E. split; [done|]. split; [done|]. by split_and!; eauto.
Qed.

(** ** Deleting an element *)
Lemma matches_hole_move bs E i j b e :
  matches_except (Some i) bs E → i ≠ j → bucket_ok i b e → matches_except (Some j) (<[i:=b]> bs) (<[i:=e]> E).
Proof.
  intros [Hlen Hall] Hij Hok. split; [by rewrite !length_insert|]. intros n b' e' Hb He Hne.
  apply list_lookup_insert_Some in Hb as [(-> & <- & Hi)|[Hin Hb]].
  - rewrite list_lookup_insert_eq in He by lia. injection He as <-. done.
  - rewrite list_lookup_insert_ne in He by done. eapply Hall; [done..|congruence].
Qed.

Lemma matches_any hole bs E b : matches_except (Some hole) bs E → matches_except (Some hole) (<[hole:=b]> bs) E.
Proof.
  intros [Hlen Hall]. split; [by rewrite length_insert|]. intros n b' e' Hb He Hne.
  rewrite list_lookup_insert_ne in Hb by congruence. eauto.
Qed.

(** The loop moves elements one bucket towards their ideal positions; the element
    at the hole, [s], is the one that is gone. *)
Lemma shift_loop_spec bs E s idx d fuel :
  robin_hood E → matches_except (Some idx) bs E → (idx < cap)%nat → E !! idx = Some (Some s) →
  (0 < d < cap)%nat → E !! pos cap idx d = Some None → (d ≤ fuel)%nat →
  ∃ bs' E' last s', shift_loop fuel bs mask idx idx = Returned (bs', last) ∧ (last < cap)%nat
    ∧ robin_hood E' ∧ matches_except (Some last) bs' E' ∧ E' !! last = Some (Some s')
    ∧ (∀ w, E' !! nxt cap last = Some (Some w) → probe w (nxt cap last) = 0%nat)
    ∧ s' :: omap id E ≡ₚ s :: omap id E'
    ∧ ∀ j e, E' !! j = Some e → E !! j = Some e ∨ ∃ o, (o < d)%nat ∧ j = pos cap idx o ∧ E !! nxt cap j = Some e.
Proof.
  revert bs E s idx d. induction fuel as [|fuel IH]; intros bs E s idx d Hrh Hm Hidx Hs Hd Hfree Hf; [lia|].
  cbn [shift_loop]. rewrite next_index_nxt by done. set (n := nxt cap idx).
  assert (n < cap)%nat as Hn by (by apply nxt_lt).
  assert (n ≠ idx) as Hni by (unfold n; rewrite <-pos_1 by lia; apply pos_moves; lia).
  destruct (lookup_lt_is_Some_2 E n) as [e He]; [by rewrite (rh_length _ Hrh)|].
  destruct (matches_lookup _ bs E n e Hm He ltac:(congruence)) as (b & Hb & Hbl & Hok). rewrite Hb, bind_value.
  assert (length bs = cap) as Hlb by (rewrite (me_length _ _ _ Hm); apply Hrh).
  destruct e as [w|].
  2:{ cbn in Hok. rewrite Hok. cbn [Z.eqb]. exists bs, E, idx, s. split_and!; try done; [|by left]. fold n. congruence. }
  rewrite (bucket_used _ _ _ Hok), (used_probe_length _ _ _ Hn Hok), bind_value.
  destruct (Nat.eqb_spec (probe w n) 0) as [Hz|Hz]; [|].
  { exists bs, E, idx, s. split_and!; try done; [|by left]. fold n. congruence. }
  assert (d ≠ 1)%nat as Hd1 by (intros ->; rewrite pos_1 in Hfree by lia; fold n in Hfree; congruence).
  assert (probe w n = S (probe w idx)) as Hpw by (destruct (probe_nxt w idx Hidx); [done|done]).
  rewrite set_index_lt, bind_value by lia. rewrite set_index_lt, bind_value by (rewrite length_insert; lia).
  set (b1 := with_bucket_state b (bucket_state_for_probe_length (probe w n - 1))).
  destruct (IH (<[n:=moved_from b]> (<[idx:=b1]> bs)) (<[idx:=Some w]> E) w n (d - 1)%nat)
    as (bs' & E' & last & s' & Hr & Hlast & Hrh' & Hm' & Hs' & Hhome & Hperm & Hfrom); try done; try lia.
  - by apply (rh_shift E s).
  - apply matches_any, matches_hole_move; [done..|]. destruct Hok as (_ & Hbs & Hbh). cbn. split_and!; try done.
    f_equal. lia.
  - by rewrite list_lookup_insert_ne.
  - unfold n. rewrite pos_nxt by lia. replace (S (d - 1)) with d by lia.
    rewrite list_lookup_insert_ne; [done|]. apply not_eq_sym, pos_moves; lia.
  - exists bs', E', last, s'. rewrite Hr. split_and!; try done.
    + apply (Permutation_cons_inv (a := w)). pose proof (elements_replace E idx w s Hs) as Hrep.
      rewrite (Permutation_swap s' w), <-Hrep, (Permutation_swap s s'), Hperm. apply Permutation_swap.
    + intros j e Hj. destruct (Hfrom j e Hj) as [Hj1|(o & Ho & -> & Hj1)].
      * apply list_lookup_insert_Some in Hj1 as [(<- & <- & _)|[_ Hj1]]; [|by left]. right. exists 0%nat.
        rewrite pos_0 by done. split_and!; [lia|done|done].
      * right. exists (S o). unfold n in *. rewrite pos_nxt in * by lia. split_and!; [lia|done|].
        rewrite <-pos_S in * by lia. rewrite list_lookup_insert_ne in Hj1; [done|].
        apply not_eq_sym, pos_moves; lia.
Qed.

Lemma free_offset_from t E i :
  table_ok t E → (i < cap)%nat → is_Some (mjoin (E !! i)) → ∃ d, (0 < d < cap)%nat ∧ E !! pos cap i d = Some None.
Proof.
  intros [_ Hrh _ _ Hsize Hroom] Hi [v Hv]. destruct (free_exists E) as [f Hf]; [rewrite (rh_length _ Hrh); lia|].
  assert (f < cap)%nat as Hfc by (rewrite <-(rh_length _ Hrh); eapply lookup_lt_Some, Hf).
  exists (dist cap i f). rewrite pos_dist by done. split; [|done]. pose proof (dist_lt cap i f Hi Hfc).
  assert (dist cap i f ≠ 0)%nat; [|lia]. intros E0. pose proof (pos_dist cap i f Hi Hfc) as Hpd.
  rewrite E0, pos_0 in Hpd by done. subst f. by rewrite Hf in Hv.
Qed.

Lemma delete_bucket_spec t E s i :
  table_ok t E → E !! i = Some (Some s) →
  ∃ t' E', delete_bucket t i = Returned t' ∧ table_ok t' E' ∧ s :: omap id E' ≡ₚ omap id E
    ∧ ∀ j v, E' !! j = Some (Some v) → E !! j = Some (Some v) ∨ (E !! nxt cap j = Some (Some v) ∧ nxt cap j ≠ i).
Proof.
  intros Hok Hs. pose proof Hok as [Hmask Hrh Hm Hu Hsz Hrm]. pose proof (table_length t E Hok) as (Hlb & _ & _).
  assert (i < cap)%nat as Hi by (rewrite <-(rh_length _ Hrh); eapply lookup_lt_Some, Hs).
  destruct (matches_lookup None _ E i _ Hm Hs ltac:(done)) as (b & Hb & Hbl & Hbok).
  unfold delete_bucket. rewrite Hb, bind_value, (bucket_used _ _ _ Hbok). cbn [negb verify].
  rewrite set_index_lt, bind_value, Hmask, (proj2 (Nat.leb_le i mask)) by lia. cbn [verify].
  destruct (free_offset_from t E i Hok Hi) as (d & Hd & Hfree); [by rewrite Hs|].
  assert (matches_except (Some i) (<[i:=moved_from b]> (m_buckets t)) E) as Hm1.
  { apply matches_any. rewrite <-(list_insert_id E i _ Hs). by apply matches_hole. }
  destruct (shift_loop_spec _ E s i d (S (length (<[i:=moved_from b]> (m_buckets t)))) Hrh Hm1 Hi Hs Hd Hfree)
    as (bs' & E' & last & s' & -> & Hlast & Hrh' & Hm' & Hs' & Hhome & Hperm & Hfrom); [rewrite length_insert; lia|].
  rewrite bind_value. pose proof (me_length _ _ _ Hm') as Hl'. rewrite (rh_length _ Hrh') in Hl'.
  destruct (at_index_total bs' last) as (lb & Hlb' & _); [lia|]. rewrite Hlb', bind_value, set_index_lt, bind_value by lia.
  assert (s :: omap id (<[last:=None]> E') ≡ₚ omap id E) as Hperm'.
  { apply (Permutation_cons_inv (a := s')). rewrite Permutation_swap, (elements_free E' last s' Hs'). by symmetry. }
  eexists _, (<[last:=None]> E'). split; [done|]. split_and!; [|done|].
  - split; cbn [m_buckets m_size m_mask]; try done.
    + by apply rh_free.
    + destruct Hm' as [Hl Ha]. split; [by rewrite !length_insert|]. intros j b' e' Hb' He' _.
      apply list_lookup_insert_Some in Hb' as [(-> & <- & _)|[Hij Hb']].
      * rewrite list_lookup_insert_eq in He' by lia. injection He' as <-. done.
      * rewrite list_lookup_insert_ne in He' by done. apply Ha; congruence.
    + rewrite <-Hperm' in Hu. cbn [fmap list_fmap] in Hu. by apply NoDup_cons in Hu as [_ Hu].
    + apply Permutation_length in Hperm'. cbn [length] in Hperm'. lia.
    + lia.
  - intros j v Hj. apply list_lookup_insert_Some in Hj as [(_ & ? & _)|[_ Hj]]; [done|].
    destruct (Hfrom j _ Hj) as [Hj1|(o & Ho & -> & Hj1)]; [by left|]. right. split; [done|].
    rewrite <-pos_S by lia. apply pos_moves; lia.
Qed.

(** Writing elements that are not in the table. *)
Lemma write_all_spec t E vs :
  table_ok t E → NoDup (canon <$> vs ++ omap id E) → (m_size t + length vs < cap)%nat →
  ∃ t' E', write_all t vs = Returned t' ∧ table_ok t' E' ∧ omap id E' ≡ₚ vs ++ omap id E.
Proof.
  revert t E. induction vs as [|v vs IH]; intros t E Hok Hnd Hroom; [by exists t, E|].
  cbn [write_all length] in *. unfold write_value.
  destruct (write_with_spec t E v _ Keep Hok (equals_tests v) ltac:(lia)) as (t1 & r & i & E1 & -> & Hok1 & Hw).
  rewrite !bind_value. cbn [app fmap list_fmap] in Hnd. apply NoDup_cons in Hnd as [Hnin Hnd].
  assert (r = InsertedNewEntry ∧ omap id E1 ≡ₚ v :: omap id E) as [-> Hperm].
  { destruct r; [destruct Hw as (_ & Hp & _); by split| by destruct Hw|]. exfalso.
    destruct Hw as (_ & _ & u & Hu & Hc). apply Hnin. rewrite fmap_app. apply elem_of_app. right.
    apply list_elem_of_fmap. exists u. split; [done|]. apply elements_elem. eauto. }
  destruct (IH t1 E1 Hok1) as (t' & E' & -> & Hok' & Hperm').
  - rewrite Hperm, <-Permutation_middle. cbn. by apply NoDup_cons.
  - pose proof (ok_size _ _ Hok) as Hs. pose proof (ok_size _ _ Hok1) as Hs1. rewrite Hperm in Hs1. cbn in Hs1. lia.
  - exists t', E'. split_and!; [done..|]. rewrite Hperm', Hperm. symmetry. apply Permutation_middle.
Qed.

(** A table of free buckets. *)
Lemma fresh_table_ok : table_ok (mk_hash_table (replicate cap free_bucket) 0 mask) (replicate cap None).
Proof.
  pose proof (elements_none T cap) as Hnil.
  split; cbn [m_buckets m_size m_mask]; rewrite ?Hnil; try done.
  - split; [by rewrite length_replicate|]. intros i w p _ Hw. by apply lookup_replicate in Hw as [[=] _].
  - split; [by rewrite !length_replicate|]. intros i b e Hb He _.
    apply lookup_replicate in Hb as [-> _], He as [-> _]. done.
  - apply NoDup_nil_2.
  - pose proof (Nat.pow_nonzero 2 k). lia.
Qed.

End Elements.

Lemma ceil_log2_spec x : (1 ≤ x → x ≤ 2 ^ ceil_log2 x)%nat.
Proof.
  intros Hx. unfold ceil_log2. destruct (Nat.leb_spec x 1) as [|Hx1]; [cbn; lia|].
  pose proof (Nat.log2_spec (x - 1) ltac:(lia)) as [_ Hl]. rewrite Nat.add_1_r. lia.
Qed.

(** ** Well-formed tables *)
Definition hash_table_wf (t : HashTable T) : Prop :=
  (m_buckets t = [] ∧ m_size t = 0%nat) ∨ ∃ k E, table_ok k t E.

Lemma table_wf k t E : table_ok k t E → hash_table_wf t ∧ values t = omap id E.
Proof. intros Hok. split; [by right; exists k, E|]. eapply values_elements, Hok. Qed.

Lemma wf_empty : hash_table_wf empty_table.
Proof. by left. Qed.

Lemma wf_values t :
  hash_table_wf t → m_size t = length (values t) ∧ NoDup (canon <$> values t) ∧ (m_size t < Nat.max 1 (capacity t))%nat.
Proof.
  intros [[Hb Hs]|(k & E & Hok)].
  - unfold values, capacity. rewrite Hb, Hs. split_and!; [done|apply NoDup_nil_2|lia].
  - destruct (table_wf k t E Hok) as [_ ->]. pose proof (table_length k t E Hok) as (_ & -> & _).
    destruct Hok as [_ _ _ Hu Hsz Hrm]. split_and!; [done..|lia].
Qed.

Lemma try_rehash_spec t new_capacity :
  hash_table_wf t → ∃ t' k E, try_rehash t new_capacity = Returned t' ∧ table_ok k t' E
    ∧ values t' ≡ₚ values t ∧ (new_capacity ≤ 2 ^ k)%nat ∧ (capacity t < 2 ^ k)%nat.
Proof.
  intros Hwf. destruct (wf_values t Hwf) as (Hsize & Hnd & Hroom). unfold try_rehash.
  set (k := ceil_log2 (Nat.max new_capacity (capacity t + 1))).
  pose proof (ceil_log2_spec (Nat.max new_capacity (capacity t + 1)) ltac:(lia)) as Hk. fold k in Hk.
  rewrite (proj2 (Nat.leb_le (m_size t) (2 ^ k))) by lia. cbn [verify].
  pose proof (fresh_table_ok k) as Hfresh.
  pose proof (elements_none T (2 ^ k)) as Hnil.
  destruct Hwf as [[Hb Hs]|(k0 & E0 & Hok)].
  - rewrite Hb, Hs. eexists _, k, _. split; [done|]. split; [done|]. rewrite (proj2 (table_wf k _ _ Hfresh)), Hnil.
    unfold values. rewrite Hb. split_and!; [done|lia..].
  - pose proof (table_length k0 t E0 Hok) as (_ & Hcap & Hne). destruct (m_buckets t) eqn:Eb; [done|]. clear Eb Hne.
    destruct (write_all_spec k _ _ (values t) Hfresh) as (t' & E' & -> & Hok' & Hperm).
    + by rewrite Hnil, app_nil_r.
    + cbn [m_size]. lia.
    + exists t', k, E'. rewrite (proj2 (table_wf k _ _ Hok')), Hperm, Hnil, app_nil_r. split_and!; [done..|lia|lia].
Qed.

Lemma grow_if_needed_spec t :
  hash_table_wf t → ∃ t' k E, grow_if_needed t = Returned t' ∧ table_ok k t' E
    ∧ values t' ≡ₚ values t ∧ (S (m_size t') < 2 ^ k)%nat.
Proof.
  intros Hwf. unfold grow_if_needed, should_grow. destruct (wf_values t Hwf) as (Hsize & _ & Hroom).
  destruct (Nat.leb_spec (capacity t * grow_at_load_factor_percent) ((m_size t + 1) * 100)) as [Hg|Hg].
  - destruct (try_rehash_spec t (Nat.max (capacity t * 2) grow_capacity_at_least) Hwf)
      as (t' & k & E & -> & Hok & Hp & H1 & H2). exists t', k, E. split_and!; [done..|].
    destruct (wf_values t' (proj1 (table_wf k t' E Hok))) as (Hs' & _ & _).
    rewrite Hs', Hp, <-Hsize. unfold grow_capacity_at_least in H1. lia.
  - destruct Hwf as [[Hb Hs]|(k & E & Hok)].
    { unfold capacity in Hg. rewrite Hb in Hg. cbn in Hg. lia. }
    exists t, k, E. pose proof (table_length k t E Hok) as (_ & Hcap & _). rewrite Hcap in Hg.
    unfold grow_at_load_factor_percent in Hg. split_and!; [done..|lia].
Qed.

(** ** What the operations do to the values of a table *)
Definition stored (l : list T) (x : T) (behavior : HashSetExistingEntryBehavior) (result : HashSetResult) (l' : list T) : Prop :=
  match result with
  | InsertedNewEntry => canon x ∉ canon <$> l ∧ l' ≡ₚ x :: l
  | ReplacedExistingEntry => behavior = Replace ∧ ∃ v rest, l ≡ₚ v :: rest ∧ canon v = canon x ∧ l' ≡ₚ x :: rest
  | KeptExistingEntry => behavior = Keep ∧ l' ≡ₚ l ∧ canon x ∈ canon <$> l
  end.

Lemma written_stored E x behavior result E' i :
  written E x behavior result E' i → stored (omap id E) x behavior result (omap id E').
Proof.
  destruct result; cbn.
  - intros (Ha & Hp & _). split; [by apply absent_canon|done].
  - intros (-> & v & Hv & Hc & ->). split; [done|]. exists v, (omap id (<[i:=None]> E)). split_and!; [|done|].
    + symmetry. by apply elements_free.
    + apply (Permutation_cons_inv (a := v)). rewrite (elements_replace E i x v Hv), Permutation_swap.
      by rewrite (elements_free E i v Hv).
  - intros (-> & -> & v & Hv & Hc). split_and!; [done..|]. apply list_elem_of_fmap. exists v. split; [done|].
    apply elements_elem. eauto.
Qed.

Lemma stored_perm l1 l2 x behavior result l' : l1 ≡ₚ l2 → stored l1 x behavior result l' → stored l2 x behavior result l'.
Proof.
  intros Hl. destruct result; cbn; [by rewrite <-Hl| |by rewrite <-Hl].
  intros (-> & v & rest & Hv & Hr). split; [done|]. exists v, rest. by rewrite <-Hl.
Qed.

(** Setting, and the entry [ensure] gives back. *)
Lemma ensure_spec t x predicate behavior :
  hash_table_wf t → tests predicate x →
  ∃ t' result i, (t ← grow_if_needed t; write_with t (hash x) predicate x behavior) = Returned (t', result, i)
    ∧ hash_table_wf t' ∧ stored (values t) x behavior result (values t')
    ∧ ∃ v, m_buckets t' !! i = Some v ∧ ∃ y, slot v = Some y ∧ y ∈ values t' ∧ canon y = canon x ∧ (result ≠ KeptExistingEntry → y = x).
Proof.
  intros Hwf Ht. destruct (grow_if_needed_spec t Hwf) as (t1 & k & E & -> & Hok & Hp & Hroom). rewrite bind_value.
  destruct (write_with_spec k t1 E x predicate behavior Hok Ht Hroom) as (t' & r & i & E' & -> & Hok' & Hw).
  exists t', r, i. split; [done|]. destruct (table_wf k t' E' Hok') as [Hwf' Hv']. rewrite Hv'. split; [done|]. split.
  - apply (stored_perm (values t1)); [done|]. rewrite (proj2 (table_wf k t1 E Hok)). by eapply written_stored.
  - assert (∃ y, E' !! i = Some (Some y) ∧ canon y = canon x ∧ (r ≠ KeptExistingEntry → y = x)) as (y & Hy & Hc & Hx).
    { destruct r; cbn in Hw.
      - destruct Hw as (_ & _ & Hx). by exists x.
      - destruct Hw as (_ & v & Hv & Hc & ->). exists x. rewrite list_lookup_insert_eq by (eapply lookup_lt_Some, Hv). done.
      - destruct Hw as (_ & -> & v & Hv & Hc). by exists v. }
    destruct (matches_lookup k None _ E' i _ (ok_matches k _ _ Hok') Hy ltac:(done)) as (b & _ & Hb & (_ & Hs & _)).
    exists b. split; [done|]. exists y. split_and!; try done. apply elements_elem. eauto.
Qed.

Lemma try_set_spec t x behavior :
  hash_table_wf t → ∃ t' result, try_set t x behavior = Returned (t', result)
    ∧ hash_table_wf t' ∧ stored (values t) x behavior result (values t').
Proof.
  intros Hwf. destruct (ensure_spec t x _ behavior Hwf (equals_tests x)) as (t' & r & i & Hr & Hwf' & Hs & _).
  exists t', r. split; [|done]. unfold try_set, write_value.
  destruct (grow_if_needed t) as [t1| |]; [|done..]. cbn [mbind outcome_bind] in Hr |- *. by rewrite Hr.
Qed.

Lemma try_ensure_capacity_spec t n :
  hash_table_wf t → ∃ t', try_ensure_capacity t n = Returned t' ∧ hash_table_wf t' ∧ values t' ≡ₚ values t.
Proof.
  intros Hwf. unfold try_ensure_capacity. case_match; [by exists t|].
  destruct (try_rehash_spec t (n * 100 / grow_at_load_factor_percent + 1) Hwf) as (t' & k & E & -> & Hok & Hp & _). exists t'. split_and!; [done| |done].
  by eapply table_wf.
Qed.

Lemma find_spec t h predicate x :
  hash_table_wf t → tests predicate x → h = hash x →
  ∃ r, lookup_with_hash t h predicate = Returned r ∧
    match r with
    | Some i => ∃ b v, m_buckets t !! i = Some b ∧ slot b = Some v ∧ v ∈ values t ∧ canon v = canon x
                ∧ ∃ t', delete_bucket t i = Returned t' ∧ hash_table_wf t' ∧ v :: values t' ≡ₚ values t
    | None => canon x ∉ canon <$> values t
    end.
Proof.
  intros [[Hb Hs]|(k & E & Hok)] Ht ->.
  - unfold lookup_with_hash, table_is_empty. rewrite Hs. exists None. split; [done|]. unfold values. rewrite Hb. apply not_elem_of_nil.
  - destruct (lookup_with_hash_spec k t E x predicate Hok Ht) as (r & -> & Hr). exists r. split; [done|].
    destruct (table_wf k t E Hok) as [_ ->]. destruct r as [i|]; [|by apply absent_canon].
    destruct Hr as (v & Hv & Hc).
    destruct (matches_lookup k None _ E i _ (ok_matches k _ _ Hok) Hv ltac:(done)) as (b & _ & Hbl & (_ & Hbs & _)).
    exists b, v. split_and!; try done; [apply elements_elem; eauto|].
    destruct (delete_bucket_spec k t E v i Hok Hv) as (t' & E' & -> & Hok' & Hp & _).
    exists t'. destruct (table_wf k t' E' Hok') as [? ->]. done.
Qed.

(** The loop that takes the matching values. *)
Lemma take_loop_spec k fuel t E predicate i taken :
  table_ok k t E → (∀ j v, (j < i)%nat → E !! j = Some (Some v) → predicate v = false) →
  (2 ^ k - i + m_size t ≤ fuel)%nat →
  ∃ t' E' new, take_loop fuel t predicate i taken = Returned (t', taken ++ new) ∧ table_ok k t' E'
    ∧ new ++ omap id E' ≡ₚ omap id E ∧ Forall (λ v, predicate v = true) new
    ∧ Forall (λ v, predicate v = false) (omap id E').
Proof.
  revert t E i taken. induction fuel as [|fuel IH]; intros t E i taken Hok Hlow Hf;
    pose proof (table_length k t E Hok) as (Hlb & Hcap & _); cbn [take_loop]; rewrite Hcap.
  all: destruct (Nat.ltb_spec i (2 ^ k)) as [Hi|Hi]; try lia.
  1, 3: exists t, E, []; rewrite app_nil_r; split_and!; try done; apply Forall_forall; intros v Hv;
    apply elements_elem in Hv as [j Hj]; apply (Hlow j v); [|done];
    pose proof (lookup_lt_Some _ _ _ Hj) as Hjl; rewrite (rh_length _ _ (ok_robin_hood _ _ _ Hok)) in Hjl; lia.
  destruct (lookup_lt_is_Some_2 E i) as [e He]; [by rewrite (rh_length _ _ (ok_robin_hood _ _ _ Hok))|].
  destruct (matches_lookup k None _ E i e (ok_matches k _ _ Hok) He ltac:(done)) as (b & -> & _ & Hbok). rewrite bind_value.
  destruct e as [v|].
  2:{ cbn in Hbok. rewrite Hbok. cbn [Z.eqb]. apply IH; [done| |lia]. intros j v Hj Hv.
      destruct (decide (j = i)) as [->|]; [congruence|]. apply (Hlow j); [lia|done]. }
  rewrite (bucket_used k _ _ _ Hbok). destruct Hbok as (_ & -> & _). cbn [must]. rewrite bind_value.
  destruct (predicate v) eqn:Ep; cbn [negb].
  2:{ apply IH; [done| |lia]. intros j w Hj Hw. destruct (decide (j = i)) as [->|]; [congruence|]. apply (Hlow j); [lia|done]. }
  destruct (delete_bucket_spec k t E v i Hok He) as (t1 & E1 & -> & Hok1 & Hperm & Hfrom). rewrite bind_value.
  assert (m_size t1 < m_size t)%nat as Hsz.
  { rewrite (ok_size _ _ _ Hok1), (ok_size _ _ _ Hok), <-Hperm. cbn. lia. }
  assert (∀ j w, (j < i)%nat → E1 !! j = Some (Some w) → predicate w = false) as Hlow1.
  { intros j w Hj Hw. destruct (Hfrom j w Hw) as [Hw'|[Hw' Hne]]; [by apply (Hlow j)|].
    apply (Hlow (nxt (2 ^ k) j)); [|done]. unfold nxt in *. destruct (Nat.eqb_spec (j + 1) (2 ^ k)); lia. }
  destruct (lookup_lt_is_Some_2 E1 i) as [e1 He1]; [by rewrite (rh_length _ _ (ok_robin_hood _ _ _ Hok1))|].
  destruct (matches_lookup k None _ E1 i e1 (ok_matches k _ _ Hok1) He1 ltac:(done)) as (b1 & -> & _ & Hbok1). rewrite bind_value.
  destruct (IH t1 E1 (if negb (state b1 =? Free) then i else S i) (taken ++ [v]) Hok1) as (t' & E' & new & -> & Hok' & Hp & Hn & Hrest).
  - destruct e1 as [w|]; [rewrite (bucket_used k _ _ _ Hbok1); done|]. cbn in Hbok1. rewrite Hbok1. cbn.
    intros j w Hj Hw. destruct (decide (j = i)) as [->|]; [congruence|]. apply (Hlow1 j); [lia|done].
  - destruct (negb _); lia.
  - exists t', E', (v :: new). rewrite <-app_assoc. split_and!; try done; [|by constructor].
    cbn. by rewrite Hp, Hperm.
Qed.

Lemma take_all_spec t predicate :
  hash_table_wf t → ∃ t' taken, take_loop (capacity t + m_size t) t predicate 0 [] = Returned (t', taken) ∧ hash_table_wf t'
    ∧ taken ++ values t' ≡ₚ values t ∧ Forall (λ v, predicate v = true) taken ∧ Forall (λ v, predicate v = false) (values t').
Proof.
  intros [[Hb Hs]|(k & E & Hok)].
  - exists t, []. assert (values t = []) as Hv by (unfold values; by rewrite Hb).
    assert (capacity t = 0%nat) as Hc by (unfold capacity; by rewrite Hb).
    rewrite Hs, Hc, Hv. cbn. rewrite Hc. split_and!; try done. by left.
  - pose proof (table_length k t E Hok) as (_ & Hcap & _).
    destruct (take_loop_spec k (capacity t + m_size t) t E predicate 0 [] Hok) as (t' & E' & new & -> & Hok' & Hp & Hn & Hr).
    { intros j v Hj. lia. } { lia. }
    exists t', new. destruct (table_wf k t' E' Hok') as [Hwf' ->]. by rewrite (proj2 (table_wf k t E Hok)).
Qed.

(** ** Assigning to values in place *)

(** The same bucket with another value of the same canonical form. *)
Definition same_bucket (b b' : Bucket T) : Prop :=
  state b' = state b ∧ stored_hash b' = stored_hash b
  ∧ match slot b, slot b' with
    | Some v, Some v' => canon v' = canon v
    | None, None => True
    | _, _ => False
    end.

Lemma same_bucket_refl b : same_bucket b b.
Proof. unfold same_bucket. by destruct (slot b). Qed.

(** An element replaced by one of the same canonical form. *)
Definition same_element (e e' : option T) : Prop :=
  match e, e' with Some v, Some v' => canon v' = canon v | None, None => True | _, _ => False end.

Lemma same_element_ok k i b b' e :
  bucket_ok k i b e → same_bucket b b' → same_element e (bucket_value b') ∧ bucket_ok k i b' (bucket_value b').
Proof.
  intros Hb (Hs & Hh & Hslot). destruct e as [v|].
  - assert (state b' =? Free = false) as Hu by (rewrite Hs; by eapply bucket_used).
    destruct Hb as (Hst & Hsl & Hsh). rewrite Hsl in Hslot. unfold bucket_value. rewrite Hu.
    destruct (slot b') as [v'|] eqn:Ev; [|done]. split; [done|]. unfold bucket_ok, probe, ideal in *.
    rewrite Hs, Hh, (hash_canon v' v Hslot). done.
  - cbn in Hb. unfold bucket_value. rewrite Hs, Hb. split; [done|]. cbn. by rewrite Hs.
Qed.

Lemma same_element_canon E E' : Forall2 same_element E E' → canon <$> omap id E' = canon <$> omap id E.
Proof.
  induction 1 as [|[v|] [v'|] E E' Hs _ IH]; cbn; try done. by rewrite IH, Hs.
Qed.

Lemma table_ok_same k t E bs' :
  table_ok k t E → Forall2 same_bucket (m_buckets t) bs' →
  table_ok k (mk_hash_table bs' (m_size t) (m_mask t)) (bucket_value <$> bs').
Proof.
  intros [Hmask [Hrl Hrs] [Hml Hmb] Hu Hsz Hroom] Hs. pose proof (Forall2_length _ _ _ Hs) as Hl.
  assert (∀ i e b', E !! i = Some e → bs' !! i = Some b' →
    same_element e (bucket_value b') ∧ bucket_ok k i b' (bucket_value b')) as Hi.
  { intros i e b' He Hb'. destruct (Forall2_lookup_r _ _ _ _ _ Hs Hb') as (b & Hb & Hsb).
    apply (same_element_ok k i b b' e); [|done]. by apply Hmb. }
  assert (Forall2 same_element E (bucket_value <$> bs')) as HE.
  { apply Forall2_same_length_lookup. split; [rewrite length_fmap; lia|]. intros i e e' He He'.
    apply list_lookup_fmap_Some in He' as (b' & -> & Hb'). by apply (Hi i e b'). }
  pose proof (same_element_canon _ _ HE) as Hc.
  assert (length (omap id (bucket_value <$> bs')) = length (omap id E)) as Hlen.
  { by rewrite <-(length_fmap canon), Hc, length_fmap. }
  split; cbn; [done| | |by rewrite Hc|by rewrite Hlen|done].
  - split; [rewrite length_fmap; lia|]. intros i w' p Hic Hw Hp.
    destruct (Forall2_lookup_r _ _ _ _ _ HE Hw) as (e & He & Hse). destruct e as [w|]; [|done].
    unfold same_element in Hse. unfold probe, ideal in Hp. rewrite (hash_canon w' w Hse) in Hp.
    destruct (Hrs i w p Hic He Hp) as (u & Hul & Hpu). destruct (Forall2_lookup_l _ _ _ _ _ HE Hul) as (e' & He' & Hse').
    destruct e' as [u'|]; [|done]. exists u'. split; [done|]. unfold probe, ideal. by rewrite (hash_canon u' u Hse').
  - split; [by rewrite length_fmap|]. intros i b e Hb He _. rewrite list_lookup_fmap, Hb in He. injection He as <-.
    destruct (Forall2_lookup_r _ _ _ _ _ Hs Hb) as (b0 & Hb0 & _).
    destruct (lookup_lt_is_Some_2 E i) as [e He]; [rewrite <-Hml; by eapply lookup_lt_Some|]. by apply (Hi i e b).
Qed.

Lemma wf_same t bs' :
  hash_table_wf t → Forall2 same_bucket (m_buckets t) bs' → hash_table_wf (mk_hash_table bs' (m_size t) (m_mask t)).
Proof.
  intros [[Hb Hs]|(k & E & Hok)] Hsame.
  - left. rewrite Hb in Hsame. apply Forall2_nil_inv_l in Hsame as ->. done.
  - right. exists k, (bucket_value <$> bs'). by apply (table_ok_same k t E).
Qed.

(** The values of the used buckets are there. *)
Lemma wf_slots t b : hash_table_wf t → b ∈ m_buckets t → (state b =? Free) = false → ∃ v, slot b = Some v ∧ v ∈ values t.
Proof.
  intros [[Hb Hs]|(k & E & Hok)] Hin Hu; [rewrite Hb in Hin; by apply not_elem_of_nil in Hin|].
  apply list_elem_of_lookup in Hin as [i Hi]. destruct Hok as [_ _ [Hml Hmb] _ _ _].
  destruct (lookup_lt_is_Some_2 E i) as [e He]; [rewrite <-Hml; by eapply lookup_lt_Some|].
  pose proof (Hmb i b e Hi He ltac:(done)) as Hok. destruct e as [v|]; [|cbn in Hok; by rewrite Hok in Hu].
  destruct Hok as (_ & Hsl & _). exists v. split; [done|]. apply list_elem_of_omap. exists b.
  split; [by eapply list_elem_of_lookup_2|]. unfold bucket_value. by rewrite Hu.
Qed.

Lemma for_each_bucket_spec {A} (body : T → A → outcome (T * A)) g h bs acc :
  (∀ b, b ∈ bs → (state b =? Free) = false → ∃ v, slot b = Some v) →
  (∀ v a, v ∈ omap bucket_value bs → body v a = Returned (g v, h v a) ∧ canon (g v) = canon v) →
  ∃ bs', for_each_bucket bs body acc = Returned (bs', foldl (λ a v, h v a) acc (omap bucket_value bs))
    ∧ Forall2 same_bucket bs bs' ∧ omap bucket_value bs' = g <$> omap bucket_value bs.
Proof.
  revert acc. induction bs as [|b bs IH]; intros acc Hslot Hbody; [by exists []|].
  cbn [for_each_bucket omap list_omap]. unfold bucket_value at 1 3 4 5. destruct (state b =? Free) eqn:Eb.
  - destruct (IH acc) as (bs' & -> & Hs & Hv).
    { intros c Hc. apply Hslot. by right. } { intros v a Hin. apply Hbody. cbn. unfold bucket_value at 1. by rewrite Eb. }
    exists (b :: bs'). split; [done|]. split; [constructor; [apply same_bucket_refl|done]|].
    cbn. unfold bucket_value at 1. by rewrite Eb.
  - destruct (Hslot b ltac:(by left) Eb) as [v Hsl]. rewrite Hsl. cbn [must]. rewrite bind_value.
    destruct (Hbody v acc) as [-> Hc]; [cbn; unfold bucket_value at 1; rewrite Eb, Hsl; by left|]. rewrite bind_value.
    destruct (IH (h v acc)) as (bs' & -> & Hs & Hv).
    { intros c Hin. apply Hslot. by right. }
    { intros w a Hin. apply Hbody. cbn. unfold bucket_value at 1. rewrite Eb, Hsl. by right. }
    eexists. split; [done|]. split.
    + constructor; [|done]. unfold same_bucket. by rewrite Hsl.
    + cbn [omap list_omap]. unfold bucket_value at 1. cbn [state slot]. rewrite Eb. cbn. f_equal. exact Hv.
Qed.

(** A loop whose body maps a value to [g] of it and the accumulator to [h]. *)
Lemma for_each_value_spec {A} t (body : T → A → outcome (T * A)) g h acc :
  hash_table_wf t → (∀ v a, v ∈ values t → body v a = Returned (g v, h v a) ∧ canon (g v) = canon v) →
  ∃ t', for_each_value t body acc = Returned (t', foldl (λ a v, h v a) acc (values t)) ∧ hash_table_wf t'
    ∧ values t' = g <$> values t ∧ m_size t' = m_size t ∧ capacity t' = capacity t.
Proof.
  intros Hwf Hbody. destruct (for_each_bucket_spec body g h (m_buckets t) acc) as (bs' & Hr & Hs & Hv); [|done|].
  { intros b Hb Hu. destruct (wf_slots t b Hwf Hb Hu) as (v & Hv & _). by exists v. }
  eexists. unfold for_each_value. rewrite Hr, bind_value. split; [done|]. split; [by apply wf_same|]. split; [done|].
  split; [done|]. unfold capacity. cbn. by destruct Hs.
Qed.

(** ** Setting a value that was assigned in place *)
Lemma elements_injective (E : list (option T)) i j v w :
  NoDup (canon <$> omap id E) → E !! i = Some (Some v) → E !! j = Some (Some w) → canon v = canon w → i = j.
Proof.
  revert i j. induction E as [|e E IH]; intros i j Hnd Hi Hj Hc; [done|].
  assert (∀ n x y, E !! n = Some (Some x) → e = Some y → canon x ≠ canon y) as Hhead.
  { intros n x y Hx -> Hxy. cbn in Hnd. apply NoDup_cons in Hnd as [Hnin _]. apply Hnin. rewrite <-Hxy.
    apply list_elem_of_fmap. exists x. split; [done|]. apply elements_elem. eauto. }
  destruct i as [|i], j as [|j]; cbn in Hi, Hj; [done| | |].
  - exfalso. injection Hi as ->. by apply (Hhead j w v).
  - exfalso. injection Hj as ->. by apply (Hhead i v w).
  - f_equal. apply (IH i j); try done. destruct e; cbn in Hnd; [by apply NoDup_cons in Hnd as [_ ?]|done].
Qed.

Lemma should_grow_room k t E : table_ok k t E → should_grow t = false → (S (m_size t) < 2 ^ k)%nat.
Proof.
  intros Hok Hg. destruct (table_length k t E Hok) as (_ & Hcap & _). unfold should_grow in Hg.
  apply Nat.leb_gt in Hg. rewrite Hcap in Hg. unfold grow_at_load_factor_percent in Hg. lia.
Qed.

(** The value is written to the bucket it is in. *)
Lemma set_in_place k t E i b v v' :
  table_ok k t E → E !! i = Some (Some v) → m_buckets t !! i = Some b → canon v' = canon v → should_grow t = false →
  ∃ t', try_set (mk_hash_table (<[i:=mk_bucket (state b) (stored_hash b) (Some v')]> (m_buckets t)) (m_size t) (m_mask t))
      v' Replace = Returned (t', ReplacedExistingEntry)
    ∧ table_ok k t' (<[i:=Some v']> E) ∧ m_size t' = m_size t.
Proof.
  intros Hok Hv Hb Hc Hg. set (t1 := mk_hash_table _ _ _).
  destruct (matches_lookup k None _ E i _ (ok_matches k _ _ Hok) Hv ltac:(done)) as (b' & _ & Hb' & Hbok).
  rewrite Hb in Hb'. injection Hb' as <-.
  pose proof (replace_ok k t E v' v i b Hok Hv (eq_sym Hc) Hbok) as Hok1. fold t1 in Hok1.
  assert (should_grow t1 = false) as Hg1.
  { destruct (table_length k t E Hok) as (_ & Hcap & _). destruct (table_length k t1 _ Hok1) as (_ & Hcap1 & _).
    unfold should_grow in *. by rewrite Hcap1, <-Hcap. }
  unfold try_set, grow_if_needed. rewrite Hg1, bind_value. unfold write_value.
  destruct (write_with_spec k t1 _ v' _ Replace Hok1 (equals_tests v') (should_grow_room k t1 _ Hok1 Hg1))
    as (t' & r & j & E' & -> & Hok' & Hw).
  assert ((<[i:=Some v']> E) !! i = Some (Some v')) as Hi by (apply list_lookup_insert_eq; eapply lookup_lt_Some, Hv).
  rewrite bind_value. destruct r; cbn in Hw.
  - destruct Hw as [Habs _]. by destruct (Habs i v' Hi).
  - destruct Hw as (_ & w & Hw & Hcw & ->).
    assert (i = j) as <- by (by apply (elements_injective (<[i:=Some v']> E) i j v' w (ok_unique k _ _ Hok1))).
    rewrite list_insert_id in Hok' by done. exists t'. split_and!; [done..|].
    by rewrite (ok_size k _ _ Hok'), <-(ok_size k _ _ Hok1).
  - by destruct Hw as [? _].
Qed.

(** A set on a table that should grow replaces the bucket array. *)
Lemma try_set_grows t v behavior t' r :
  hash_table_wf t → should_grow t = true → try_set t v behavior = Returned (t', r) → (capacity t < capacity t')%nat.
Proof.
  intros Hwf Hg. unfold try_set, grow_if_needed. rewrite Hg.
  destruct (try_rehash_spec t (Nat.max (capacity t * 2) grow_capacity_at_least) Hwf) as (t1 & k & E & -> & Hok & Hp & Hcap1 & Hcap).
  destruct (wf_values t Hwf) as (Hs & _ & Hroom). destruct (table_wf k t1 E Hok) as [Hwf1 _].
  destruct (wf_values t1 Hwf1) as (Hs1 & _ & _). rewrite bind_value. unfold write_value.
  destruct (write_with_spec k t1 E v _ behavior Hok (equals_tests v)) as (t2 & r2 & j & E' & -> & Hok' & _).
  { rewrite Hs1, Hp, <-Hs. unfold grow_capacity_at_least in Hcap1. lia. }
  rewrite bind_value. intros [= <- _]. by destruct (table_length k t2 E' Hok') as (_ & -> & _).
Qed.

End Correct.
