(* ===== verification/HashMap.v ===== *)
(** * AK/HashMap.h: hash maps

    A map is a hash table of entries that are hashed and compared by their keys.
    The refinement theorem relates every operation to finite maps. *)
From stdpp Require Import gmap.
From S2P Require Import Prelude HashFunctions HashTable HashTableCorrect.

Record Entry (K V : Type) := mk_entry { key : K; value : V }.
Arguments mk_entry {K V}.
Arguments key {K V}.
Arguments value {K V}.

(** [KeyTraits] *)
Class KeyTraits (K : Type) := {
  key_hash : K → Z;
  key_equals : K → K → bool;
  key_may_have_slow_equality_check : bool;
}.

(** [EntryTraits] *)
#[global] Instance entry_traits {K V} `{KeyTraits K} : HashTraits (Entry K V) := {
  hash e := key_hash (key e);
  equals a b := key_equals (key a) (key b);
  may_have_slow_equality_check := key_may_have_slow_equality_check;
}.

Notation HashMap K V := (HashTable (Entry K V)).

Module MapOps.
Section Model.
Context {K V : Type} `{KeyTraits K}.

Definition map_set (m : HashMap K V) (k : K) (v : V) (behavior : HashSetExistingEntryBehavior)
    : outcome (HashMap K V * HashSetResult) :=
  try_set m (mk_entry k v) behavior.

Definition map_find (m : HashMap K V) (k : K) : outcome (option nat) :=
  if table_is_empty m then Returned None
  else lookup_with_hash m (key_hash k) (λ entry, key_equals (key entry) k).

Definition map_get (m : HashMap K V) (k : K) : outcome (option V) :=
  it ← map_find m k;
  match it with
  | None => Returned None
  | Some index => bucket ← at_index (m_buckets m) index; e ← must (slot bucket); Returned (Some (value e))
  end.

Definition map_contains (m : HashMap K V) (k : K) : outcome bool :=
  it ← map_find m k; Returned (bool_decide (is_Some it)).

Definition map_remove (m : HashMap K V) (k : K) : outcome (HashMap K V * bool) :=
  it ← map_find m k;
  match it with
  | Some index => m ← delete_bucket m index; Returned (m, true)
  | None => Returned (m, false)
  end.

Definition map_take (m : HashMap K V) (k : K) : outcome (HashMap K V * option V) :=
  it ← map_find m k;
  match it with
  | Some index =>
      bucket ← at_index (m_buckets m) index;
      e ← must (slot bucket);
      m ← delete_bucket m index;
      Returned (m, Some (value e))
  | None => Returned (m, None)
  end.

Definition map_take_all_matching (m : HashMap K V) (predicate : K → V → bool)
    : outcome (HashMap K V * list (Entry K V)) :=
  take_all_matching m (λ entry, predicate (key entry) (value entry)).

Definition map_remove_all_matching (m : HashMap K V) (predicate : K → V → bool) : outcome (HashMap K V * bool) :=
  remove_all_matching m (λ entry, predicate (key entry) (value entry)).

(** [ensure(key, initialization_callback)] gives the value of the entry. *)
Definition map_ensure (m : HashMap K V) (k : K) (initial : V) (behavior : HashSetExistingEntryBehavior)
    : outcome (HashMap K V * V) :=
  '(m, index) ← ensure m (key_hash k) (λ entry, key_equals (key entry) k) (mk_entry k initial) behavior;
  bucket ← at_index (m_buckets m) index;
  e ← must (slot bucket);
  Returned (m, value e).

(** An assignment through the reference to the value of a key that is there. *)
Definition map_modify (m : HashMap K V) (k : K) (f : V → V) : outcome (HashMap K V) :=
  it ← map_find m k;
  match it with
  | None => Returned m
  | Some index =>
      bucket ← at_index (m_buckets m) index;
      e ← must (slot bucket);
      buckets ← set_index (m_buckets m) index
        (mk_bucket (state bucket) (stored_hash bucket) (Some (mk_entry (key e) (f (value e)))));
      Returned (mk_hash_table buckets (m_size m) (m_mask m))
  end.

Definition map_keys (m : HashMap K V) : list K := key <$> values m.

Fixpoint set_entries (m : HashMap K V) (entries : list (Entry K V)) : outcome (HashMap K V) :=
  match entries with
  | [] => Returned m
  | e :: entries => '(m, _) ← map_set m (key e) (value e) Replace; set_entries m entries
  end.

Definition map_update (m other : HashMap K V) : outcome (HashMap K V) := set_entries m (values other).

Definition map_clone (m : HashMap K V) : outcome (HashMap K V) :=
  copy ← try_ensure_capacity empty_table (m_size m);
  set_entries copy (values m).

(** [operator==] with the equality of the values. *)
Fixpoint entries_in (value_equals : V → V → bool) (entries : list (Entry K V)) (other : HashMap K V) : outcome bool :=
  match entries with
  | [] => Returned true
  | e :: entries =>
      o ← map_get other (key e);
      match o with
      | None => Returned false
      | Some v => if negb (value_equals (value e) v) then Returned false else entries_in value_equals entries other
      end
  end.

Definition map_equal (value_equals : V → V → bool) (m other : HashMap K V) : outcome bool :=
  if negb (m_size m =? m_size other)%nat then Returned false
  else if table_is_empty m then Returned true
  else entries_in value_equals (values m) other.

End Model.
End MapOps.
Export MapOps.

(** The keys are compared for equality and the hash is a [u32]. *)
Class KeyTraitsOk (K : Type) `{KeyTraits K, EqDecision K} := {
  key_equals_ok : ∀ a b, key_equals a b = bool_decide (a = b);
  key_hash_range : ∀ a, 0 ≤ key_hash a < 2 ^ 32;
}.

#[global] Instance entry_traits_ok {K V} `{KeyTraitsOk K} : HashTraitsOk (Entry K V) K.
Proof.
  refine {| canon := key |}.
  - intros a b. apply key_equals_ok.
  - intros a b Hab. cbn. by rewrite Hab.
  - intros a. apply key_hash_range.
Defined.

Section Refinement.
Context {K V : Type} `{KeyTraitsOk K, !Countable K}.
Implicit Types (m : HashMap K V) (k : K) (v : V).

Notation map_wf := (hash_table_wf (T := Entry K V) (K := K)).

Definition pair_of (e : Entry K V) : K * V := (key e, value e).

(** The finite map a hash map stands for. *)
Definition contents m : gmap K V := list_to_map (pair_of <$> values m).

Lemma fst_pairs (l : list (Entry K V)) : (pair_of <$> l).*1 = canon <$> l.
Proof. rewrite <-list_fmap_compose. done. Qed.

Lemma wf_keys m : map_wf m → NoDup (pair_of <$> values m).*1.
Proof. intros Hwf. rewrite fst_pairs. apply (wf_values m Hwf). Qed.

Lemma contents_perm (l l' : list (Entry K V)) :
  NoDup (canon <$> l) → l ≡ₚ l' → (list_to_map (pair_of <$> l) : gmap K V) = list_to_map (pair_of <$> l').
Proof. intros Hnd Hp. apply list_to_map_proper; [by rewrite fst_pairs|by rewrite Hp]. Qed.

Lemma contents_elem m e : map_wf m → e ∈ values m → contents m !! key e = Some (value e).
Proof.
  intros Hwf He. apply elem_of_list_to_map_1; [by apply wf_keys|]. apply list_elem_of_fmap. by exists e.
Qed.

Lemma contents_absent m k : k ∉ canon <$> values m → contents m !! k = None.
Proof. intros Hk. apply not_elem_of_list_to_map_1. by rewrite fst_pairs. Qed.

(** Iteration visits every entry once. *)
Lemma values_map_to_list m : map_wf m → pair_of <$> values m ≡ₚ map_to_list (contents m).
Proof. intros Hwf. symmetry. apply map_to_list_to_map. by apply wf_keys. Qed.

Lemma size_contents m : map_wf m → m_size m = size (contents m).
Proof.
  intros Hwf. rewrite (proj1 (wf_values m Hwf)), <-(length_fmap pair_of), (values_map_to_list m Hwf).
  apply length_map_to_list.
Qed.

(** What [set] leaves, by its result. *)
Lemma stored_contents m e behavior result m' :
  map_wf m → map_wf m' → stored (values m) e behavior result (values m') →
  contents m' = (match contents m !! key e, behavior with Some _, Keep => contents m | _, _ => <[key e := value e]> (contents m) end)
  ∧ result = match contents m !! key e with
             | None => InsertedNewEntry
             | Some _ => match behavior with Keep => KeptExistingEntry | Replace => ReplacedExistingEntry end
             end.
Proof.
  intros Hwf Hwf' Hs. pose proof (wf_values m' Hwf') as (_ & Hnd' & _). pose proof (wf_values m Hwf) as (_ & Hnd & _).
  destruct result; cbn in Hs.
  - destruct Hs as [Hnew Hp]. rewrite (contents_absent m _ Hnew). split; [|done].
    unfold contents at 1. rewrite (contents_perm _ _ Hnd' Hp). done.
  - destruct Hs as (-> & v & rest & Hp & Hc & Hp').
    assert (v ∈ values m) as Hv by (rewrite Hp; by left). change (key v = key e) in Hc.
    rewrite <-Hc, (contents_elem m v Hwf Hv). split; [|done].
    unfold contents. rewrite (contents_perm _ _ Hnd' Hp'), (contents_perm _ _ Hnd Hp). cbn.
    rewrite Hc. by rewrite insert_insert_eq.
  - destruct Hs as (-> & Hp & (v & Hc & Hv)%list_elem_of_fmap). change (key e = key v) in Hc.
    rewrite Hc, (contents_elem m v Hwf Hv). split; [|done]. unfold contents. apply contents_perm; done.
Qed.

Lemma map_find_spec m k :
  map_wf m → ∃ r, map_find m k = Returned r ∧
    match r with
    | Some i => ∃ b e, at_index (m_buckets m) i = Returned b ∧ slot b = Some e ∧ contents m !! k = Some (value e) ∧ key e = k
                ∧ ∃ m', delete_bucket m i = Returned m' ∧ map_wf m' ∧ contents m' = delete k (contents m)
    | None => contents m !! k = None
    end.
Proof.
  intros Hwf. unfold map_find, table_is_empty. destruct (Nat.eqb_spec (m_size m) 0) as [Hz|Hz].
  - exists None. split; [done|]. rewrite (size_contents m Hwf) in Hz. apply map_size_empty_inv in Hz. by rewrite Hz.
  - pose proof (wf_values m Hwf) as (Hsize & Hnd & _). destruct (values m) as [|e0 rest] eqn:Ev; [done|]. rewrite <-Ev in *.
    destruct (find_spec m (key_hash k) (λ entry, key_equals (key entry) k) (mk_entry k (value e0)) Hwf) as (r & -> & Hr).
    { intros c. apply key_equals_ok. } { done. }
    exists r. split; [done|]. destruct r as [i|]; [|by apply contents_absent].
    destruct Hr as (b & e & Hb & Hs & He & Hc & m' & Hd & Hwf' & Hp). change (key e = k) in Hc. subst k.
    exists b, e. split_and!; [by apply at_index_lt|done|by apply contents_elem|done|]. exists m'. split_and!; [done..|].
    assert (NoDup (canon <$> e :: values m')) as Hnd2 by (by rewrite Hp).
    unfold contents at 2. rewrite <-(contents_perm _ _ Hnd2 Hp). cbn in Hnd2 |- *. apply NoDup_cons in Hnd2 as [Hnin _].
    rewrite delete_insert_id; [done|]. by apply contents_absent.
Qed.

Lemma take_matching_contents m m' taken (predicate : K → V → bool) :
  map_wf m → map_wf m' → taken ++ values m' ≡ₚ values m →
  Forall (λ e, predicate (key e) (value e) = true) taken →
  Forall (λ e, predicate (key e) (value e) = false) (values m') →
  contents m' = filter (λ kv, predicate kv.1 kv.2 = false) (contents m)
  ∧ pair_of <$> taken ≡ₚ map_to_list (filter (λ kv, predicate kv.1 kv.2 = true) (contents m)).
Proof.
  intros Hwf Hwf' Hp Ht Hf. pose proof (wf_values m Hwf) as (_ & Hnd & _).
  pose proof Hnd as Hnd2. rewrite <-Hp, fmap_app in Hnd2. apply NoDup_app in Hnd2 as (Hndt & Hdisj & Hnd').
  rewrite Forall_forall in Ht, Hf.
  assert (∀ k v, contents m !! k = Some v ↔ ∃ e, pair_of e = (k, v) ∧ (e ∈ taken ∨ e ∈ values m')) as Hm.
  { intros k v. unfold contents. rewrite <-elem_of_list_to_map by (by rewrite fst_pairs).
    rewrite list_elem_of_fmap. apply exist_proper. intros e. rewrite <-Hp, elem_of_app. naive_solver. }
  split.
  - apply map_eq. intros k. apply option_eq. intros v. rewrite map_lookup_filter_Some, Hm. cbn.
    unfold contents. rewrite <-elem_of_list_to_map by (by rewrite fst_pairs). rewrite list_elem_of_fmap.
    split; [intros (e & [= -> ->] & He); specialize (Hf e He); naive_solver|].
    intros [(e & [= <- <-] & [He|He]) Hpf]; [by rewrite (Ht e He) in Hpf|by exists e].
  - rewrite <-(map_to_list_to_map (M := gmap K) (pair_of <$> taken)) by (by rewrite fst_pairs). f_equiv.
    apply map_eq. intros k. apply option_eq. intros v. rewrite map_lookup_filter_Some, Hm. cbn.
    rewrite <-elem_of_list_to_map by (by rewrite fst_pairs). rewrite list_elem_of_fmap.
    split; [intros (e & [= -> ->] & He); specialize (Ht e He); naive_solver|].
    intros [(e & [= <- <-] & [He|He]) Hpf]; [by exists e|by rewrite (Hf e He) in Hpf].
Qed.

Lemma map_set_spec m k v behavior :
  map_wf m → ∃ m' result, map_set m k v behavior = Returned (m', result) ∧ map_wf m'
    ∧ contents m' = (match contents m !! k, behavior with Some _, Keep => contents m | _, _ => <[k := v]> (contents m) end)
    ∧ result = match contents m !! k with
               | None => InsertedNewEntry
               | Some _ => match behavior with Keep => KeptExistingEntry | Replace => ReplacedExistingEntry end
               end.
Proof.
  intros Hwf. destruct (try_set_spec m (mk_entry k v) behavior Hwf) as (m' & r & Hr & Hwf' & Hs).
  exists m', r. split_and!; [done..|by apply (stored_contents m (mk_entry k v) behavior r m')
    |by apply (stored_contents m (mk_entry k v) behavior r m')].
Qed.

Lemma map_get_spec m k : map_wf m → map_get m k = Returned (contents m !! k).
Proof.
  intros Hwf. unfold map_get. destruct (map_find_spec m k Hwf) as (r & -> & Hr). rewrite bind_value.
  destruct r as [i|]; [|by rewrite Hr]. destruct Hr as (b & e & -> & Hs & Hc & _).
  rewrite bind_value, Hs. cbn [must]. by rewrite bind_value, Hc.
Qed.

Lemma map_contains_spec m k : map_wf m → map_contains m k = Returned (bool_decide (is_Some (contents m !! k))).
Proof.
  intros Hwf. unfold map_contains. destruct (map_find_spec m k Hwf) as (r & -> & Hr). rewrite bind_value.
  f_equal. apply bool_decide_ext. destruct r as [i|]; [|by rewrite Hr].
  destruct Hr as (b & e & _ & _ & -> & _). split; eauto.
Qed.

Lemma map_take_spec m k :
  map_wf m → ∃ m', map_take m k = Returned (m', contents m !! k)
    ∧ map_remove m k = Returned (m', bool_decide (is_Some (contents m !! k)))
    ∧ map_wf m' ∧ contents m' = delete k (contents m).
Proof.
  intros Hwf. unfold map_take, map_remove. destruct (map_find_spec m k Hwf) as (r & -> & Hr). rewrite !bind_value.
  destruct r as [i|].
  - destruct Hr as (b & e & -> & Hs & -> & _ & m' & -> & Hwf' & Hc). rewrite !bind_value, Hs. cbn [must].
    rewrite !bind_value. by exists m'.
  - exists m. rewrite Hr. split_and!; [done..|]. by rewrite delete_id.
Qed.

Lemma map_take_all_spec m predicate :
  map_wf m → ∃ m' taken, map_take_all_matching m predicate = Returned (m', taken) ∧ map_wf m'
    ∧ contents m' = filter (λ kv, predicate kv.1 kv.2 = false) (contents m)
    ∧ pair_of <$> taken ≡ₚ map_to_list (filter (λ kv, predicate kv.1 kv.2 = true) (contents m)).
Proof.
  intros Hwf. destruct (take_all_spec m (λ e, predicate (key e) (value e)) Hwf) as (m' & taken & Hr & Hwf' & Hp & Ht & Hf).
  exists m', taken. split_and!; [done..|by eapply take_matching_contents|by eapply take_matching_contents].
Qed.

(** Assigning [f] of it to every value. *)
Lemma contents_fmap m m' (f : V → V) :
  values m' = (λ e, mk_entry (key e) (f (value e))) <$> values m → contents m' = f <$> contents m.
Proof.
  intros Hv. unfold contents. rewrite Hv, <-list_to_map_fmap, <-!list_fmap_compose. done.
Qed.

(** The operations of the abstract map, with what they return. *)
Definition refines_map m : Prop :=
  m_size m = size (contents m)
  ∧ pair_of <$> values m ≡ₚ map_to_list (contents m)
  ∧ (∀ k, map_get m k = Returned (contents m !! k))
  ∧ (∀ k, map_contains m k = Returned (bool_decide (is_Some (contents m !! k))))
  ∧ (∀ k v, ∃ m', map_set m k v Replace
       = Returned (m', if decide (is_Some (contents m !! k)) then ReplacedExistingEntry else InsertedNewEntry)
       ∧ map_wf m' ∧ contents m' = <[k := v]> (contents m))
  ∧ (∀ k v, ∃ m', map_ensure m k v Keep = Returned (m', default v (contents m !! k))
       ∧ map_wf m' ∧ contents m' = <[k := default v (contents m !! k)]> (contents m))
  ∧ (∀ k, ∃ m', map_take m k = Returned (m', contents m !! k) ∧ map_wf m' ∧ contents m' = delete k (contents m))
  ∧ (∀ predicate, ∃ m' taken, map_take_all_matching m predicate = Returned (m', taken) ∧ map_wf m'
       ∧ contents m' = filter (λ kv, predicate kv.1 kv.2 = false) (contents m)
       ∧ pair_of <$> taken ≡ₚ map_to_list (filter (λ kv, predicate kv.1 kv.2 = true) (contents m)))
  ∧ (∀ n, ∃ m', try_ensure_capacity m n = Returned m' ∧ map_wf m' ∧ contents m' = contents m).

Lemma map_ensure_spec m k v :
  map_wf m → ∃ m', map_ensure m k v Keep = Returned (m', default v (contents m !! k))
    ∧ map_wf m' ∧ contents m' = <[k := default v (contents m !! k)]> (contents m).
Proof.
  intros Hwf. unfold map_ensure, ensure.
  destruct (ensure_spec m (mk_entry k v) (λ entry, key_equals (key entry) k) Keep Hwf) as (m' & r & i & Hr & Hwf' & Hs & Hslot).
  { intros c. apply key_equals_ok. }
  destruct (stored_contents m (mk_entry k v) Keep r m' Hwf Hwf' Hs) as [Hc Hres]. cbn [key value] in *.
  destruct (grow_if_needed m) as [m1| |]; [|done..]. cbn [mbind outcome_bind] in Hr |- *.
  change (hash (mk_entry k v)) with (key_hash k) in Hr. rewrite Hr. cbn [mbind outcome_bind].
  destruct Hslot as (b & Hb & y & Hy & Hin & Hky & Hx). rewrite (at_index_lt _ _ _ Hb), bind_value, Hy. cbn [must].
  rewrite bind_value. exists m'. pose proof (contents_elem m' y Hwf' Hin) as Hyv. change (key y = k) in Hky. rewrite Hky in Hyv.
  destruct (contents m !! k) as [v0|] eqn:Ek; cbn [default id].
  - rewrite Hc, Ek in Hyv. injection Hyv as <-. split_and!; [done..|]. by rewrite insert_id.
  - rewrite Hx by (by rewrite Hres). by split_and!.
Qed.

(** A value replaced in its bucket, the key being the same. *)
Lemma replaced_contents m i b e v :
  map_wf m → m_buckets m !! i = Some b → bucket_value b = Some e →
  let m' := mk_hash_table (<[i := mk_bucket (state b) (stored_hash b) (Some (mk_entry (key e) v))]> (m_buckets m)) (m_size m) (m_mask m) in
  map_wf m' ∧ contents m' = <[key e := v]> (contents m).
Proof.
  intros Hwf Hb He. set (b' := mk_bucket _ _ _). cbv zeta. set (m' := mk_hash_table _ _ _).
  assert (bucket_value b' = Some (mk_entry (key e) v)) as He'.
  { unfold bucket_value in *. cbn. by destruct (state b =? Free). }
  assert (map_wf m') as Hwf'.
  { apply wf_same; [done|]. apply Forall2_same_length_lookup. split; [by rewrite length_insert|].
    intros j x y Hx Hy. destruct (decide (i = j)) as [->|Hne].
    - rewrite list_lookup_insert_eq in Hy by (by eapply lookup_lt_Some). rewrite Hb in Hx. simplify_eq.
      unfold same_bucket. cbn. unfold bucket_value in He. destruct (state x =? Free); [done|]. by rewrite He.
    - rewrite list_lookup_insert_ne in Hy by done. rewrite Hx in Hy. injection Hy as <-. apply same_bucket_refl. }
  split; [done|]. pose proof (wf_values m Hwf) as (_ & Hnd & _). pose proof (wf_values m' Hwf') as (_ & Hnd' & _).
  pose proof (lookup_lt_Some _ _ _ Hb) as Hi.
  assert (∃ pre post, values m = pre ++ e :: post ∧ values m' = pre ++ mk_entry (key e) v :: post) as (pre & post & Hv & Hv').
  { exists (omap bucket_value (take i (m_buckets m))), (omap bucket_value (drop (S i) (m_buckets m))). split.
    - unfold values. rewrite <-(take_drop_middle _ _ _ Hb) at 1. rewrite omap_app. cbn. by rewrite He.
    - unfold values, m'. cbn [m_buckets]. rewrite insert_take_drop by done. rewrite omap_app. cbn. by rewrite He'. }
  assert (∀ x : Entry K V, pre ++ x :: post ≡ₚ x :: pre ++ post) as Hp by (intros x; symmetry; apply Permutation_middle).
  unfold contents. rewrite Hv, Hv' in *. rewrite (contents_perm _ _ Hnd (Hp e)), (contents_perm _ _ Hnd' (Hp _)). cbn.
  by rewrite insert_insert_eq.
Qed.

Lemma map_modify_spec m k f :
  map_wf m → ∃ m', map_modify m k f = Returned m' ∧ map_wf m' ∧ contents m' = alter f k (contents m).
Proof.
  intros Hwf. unfold map_modify. destruct (map_find_spec m k Hwf) as (r & -> & Hr). rewrite bind_value.
  destruct r as [i|]; cycle 1.
  { exists m. split_and!; [done..|]. symmetry. apply alter_id. congruence. }
  destruct Hr as (b & e & Hb & Hs & Hk & Hkey & m' & Hd & _). rewrite Hb, bind_value, Hs. cbn [must]. rewrite bind_value.
  unfold at_index in Hb. destruct (m_buckets m !! i) as [b0|] eqn:Hbi; [|done]. injection Hb as ->.
  assert (bucket_value b = Some e) as He.
  { unfold delete_bucket in Hd. rewrite (at_index_lt _ _ _ Hbi), bind_value in Hd. unfold bucket_value.
    by destruct (state b =? Free). }
  rewrite set_index_lt, bind_value by (by eapply lookup_lt_Some). eexists. split; [done|].
  destruct (replaced_contents m i b e (f (value e)) Hwf Hbi He) as [Hwf' Hc]. split; [done|]. rewrite Hc, Hkey.
  apply map_eq. intros j. destruct (decide (j = k)) as [->|Hne].
  - by rewrite lookup_insert_eq, lookup_alter_eq, Hk.
  - by rewrite lookup_insert_ne, lookup_alter_ne by done.
Qed.

(** C2: An AK hash map implements a finite map: lookups, insertions, replacements,
    removals, [ensure] and the bulk removal of [take_all_matching] return what the
    map of its entries does and leave a table of the map they should, iteration
    visits each entry once, the size is the number of entries, and no operation
    reads a bucket that holds no value or loops forever. *)
Theorem hash_map_refines m : map_wf m → refines_map m.
Proof.
  intros Hwf. split_and!; eauto using size_contents, values_map_to_list, map_get_spec, map_contains_spec, map_take_all_spec, map_ensure_spec.
  - intros k v. destruct (map_set_spec m k v Replace Hwf) as (m' & r & Hr & Hwf' & Hc & Hres). exists m'.
    rewrite Hr, Hc, Hres. split_and!; [|done|by destruct (contents m !! k)]. do 2 f_equal.
    destruct (contents m !! k) as [v0|]; case_decide as Hd; [done|by destruct Hd|by destruct Hd|done].
  - intros k. destruct (map_take_spec m k Hwf) as (m' & Ht & _ & Hwf' & Hc). by exists m'.
  - intros n. destruct (try_ensure_capacity_spec m n Hwf) as (m' & Hr & Hwf' & Hp). exists m'. split_and!; [done..|].
    unfold contents. apply contents_perm; [apply (wf_values m' Hwf')|done].
Qed.

End Refinement.

(** [Traits<String>] *)
#[global] Instance string_key_traits : KeyTraits bytes := {
  key_hash s := string_hash s 0;
  key_equals a b := bool_decide (a = b);
  key_may_have_slow_equality_check := true;
}.

#[global] Instance string_key_traits_ok : KeyTraitsOk bytes.
Proof. split; [done|]. intros a. apply string_hash_range. Qed.

(** [Traits<String>] as the traits of a set of strings. *)
#[global] Instance string_traits : HashTraits bytes := {
  hash s := string_hash s 0;
  equals a b := bool_decide (a = b);
  may_have_slow_equality_check := true;
}.

#[global] Instance string_traits_ok : HashTraitsOk bytes bytes.
Proof.
  refine {| canon := id |}; [done|intros a b Hab; cbn in Hab; by subst|]. intros a. apply string_hash_range.
Defined.

Lemma hash_map_refines_witness :
  ∃ m, map_set (V := nat) empty_table (sv "cookie") 1%nat Replace = Returned (m, InsertedNewEntry) ∧ refines_map m.
Proof.
  destruct (map_set_spec (V := nat) empty_table (sv "cookie") 1%nat Replace ltac:(by left)) as (m & r & Hr & Hwf & _ & Hres).
  exists m. rewrite Hr, Hres. split; [done|]. by apply hash_map_refines.
Defined.
