(* ===== verification/HttpCache.v ===== *)
(** * LibHTTP/Cache/Utilities.cpp: what an HTTP cache stores and for how long

    One definition per function of Utilities.cpp, over header lists and durations.
    SHA-1 is OpenSSL's: a class, with the digest of what was written to the hasher.
    [UnixDateTime::now()] is an argument [now].  [HeaderList::for_each_vary_header]
    returns a local [IterationDecision] that it has never assigned when a [Vary] value
    has no part: the values it reads, one for each [Vary] value, are an argument
    [indeterminate] ([true] is [Break]). *)
From S2P Require Import Prelude CharacterTypes Externals Utf8 StringView LexicalPath Utf8View Format Ipv4 Host Url TextCodec QuickSort Time GenericLexer DateFormat Http HttpHeader HttpHeaderList.

Class Sha1 := { sha1 : bytes → bytes }.

(** SHA-1 digests are twenty bytes. *)
Class Sha1Ok `{Sha1} := {
  sha1_length : ∀ s, length (sha1 s) = 20%nat;
  sha1_bytes : ∀ s, Forall is_byte (sha1 s);
}.

Definition MiB : Z := 1024 * 1024.
Definition GiB : Z := 1024 * MiB.
Definition DEFAULT_MAXIMUM_DISK_CACHE_SIZE : Z := 5 * GiB.

Definition TEST_CACHE_ENABLED_HEADER : bytes := sv "X-Ladybird-Enable-Disk-Cache".
Definition TEST_CACHE_STATUS_HEADER : bytes := sv "X-Ladybird-Disk-Cache-Status".
Definition TEST_CACHE_REQUEST_TIME_OFFSET : bytes := sv "X-Ladybird-Request-Time-Offset".

Inductive CacheEntryAssociatedData := JavaScriptBytecode.
Inductive CacheLifetimeStatus := Fresh | Expired | MustRevalidate | StaleWhileRevalidate.
Inductive CacheMode := CacheDefault | NoStore | Reload | NoCache | ForceCache | OnlyIfCached.
Inductive DiskCacheMode := DiskCacheNormal | DiskCachePartitioned | DiskCacheTesting.

#[global] Instance CacheMode_eq_dec : EqDecision CacheMode.
Proof. solve_decision. Defined.
#[global] Instance CacheLifetimeStatus_eq_dec : EqDecision CacheLifetimeStatus.
Proof. solve_decision. Defined.

Definition cache_mode_permits_stale_responses (cache_mode : CacheMode) : bool :=
  bool_decide (cache_mode = ForceCache) || bool_decide (cache_mode = OnlyIfCached).

(** The units of [u64] arithmetic here stay below [2 ^ 64]. *)
Definition compute_maximum_disk_cache_size (free_bytes limit_maximum_disk_cache_size : Z) : Z :=
  let cache_size :=
    if free_bytes <=? 100 * MiB then free_bytes * 8 / 10
    else if free_bytes <=? 800 * MiB then free_bytes * 6 / 10
    else if free_bytes <=? 2 * GiB then free_bytes * 4 / 10
    else if free_bytes <=? 10 * GiB then free_bytes * 2 / 10
    else limit_maximum_disk_cache_size in
  Z.min cache_size limit_maximum_disk_cache_size.

Definition MAXIMUM_DISK_CACHE_ENTRY_SIZE : Z := 256 * MiB.

Definition compute_maximum_disk_cache_entry_size (maximum_disk_cache_size : Z) : Z :=
  Z.min (maximum_disk_cache_size / 8) MAXIMUM_DISK_CACHE_ENTRY_SIZE.

Definition serialize_url_for_cache_storage (url : URL) : outcome bytes := serialize url ExcludeFragmentYes.

(** ** Directives of Cache-Control *)
Module CacheControl.

(** A directive from [directive_start] to the lexer. *)
Definition directive_name_value (cache_control : bytes) (directive_start : nat) (lexer : GenericLexer)
    : outcome (bytes * bytes) :=
  name ← substring_view cache_control directive_start (m_index lexer - directive_start);
  match find_any_of name [c_equals; c_quote] with
  | Some index =>
      c ← at_index name index;
      if c =? c_equals then
        value ← substring_view_from name (index + 1);
        name ← substring_view name 0 index;
        Returned (name, value)
      else Returned (name, [])
  | None => Returned (name, [])
  end.

Fixpoint directive_loop (fuel : nat) (cache_control directive : bytes) (lexer : GenericLexer) (directive_start : nat)
    : outcome (option bytes) :=
  match fuel with
  | O => OutOfFuel
  | S fuel =>
      let finish lexer :=
        '(name, value) ← directive_name_value cache_control directive_start lexer;
        if equals_ignoring_ascii_case (trim name HTTP_WHITESPACE TrimBoth) directive then
          Returned (Some (trim value HTTP_WHITESPACE TrimBoth))
        else if Lexer.is_eof lexer then Returned None
        else
          verify (Lexer.peek lexer 0 =? c_comma) (
            let lexer := Lexer.ignore lexer 1 in
            directive_loop fuel cache_control directive lexer (m_index lexer)) in
      '(_, lexer) ← Lexer.consume_until (is_any_of [c_quote; c_comma]) lexer;
      if negb (Lexer.is_eof lexer) && (Lexer.peek lexer 0 =? c_quote) then
        let quoted_string_start := m_index lexer in
        '(_, lexer) ← Lexer.consume_quoted_string lexer c_backslash;
        if (quoted_string_start =? m_index lexer)%nat then Returned None
        else if negb (Lexer.is_eof lexer) then directive_loop fuel cache_control directive lexer directive_start
        else finish lexer
      else finish lexer
  end.

Definition extract_cache_control_directive (cache_control directive : bytes) : outcome (option bytes) :=
  verify (negb (bool_decide (directive = [])))
    (directive_loop (S (length cache_control)) cache_control directive (lexer_of cache_control) 0).

Definition contains_cache_control_directive (cache_control directive : bytes) : outcome bool :=
  r ← extract_cache_control_directive cache_control directive; Returned (bool_decide (is_Some r)).

(** [cache_control.has_value() && contains_cache_control_directive(...)] *)
Definition has_directive (cache_control : option bytes) (directive : bytes) : outcome bool :=
  match cache_control with
  | None => Returned false
  | Some cache_control => contains_cache_control_directive cache_control directive
  end.

Section Numbers.
Context `{FastFloatSigned}.

(** [to_number<i64>()] *)
Definition to_i64_number (s : bytes) : option Z := to_signed_number i64_min i64_max 10 s TrimWhitespaceYes.

Definition extract_cache_control_duration_directive (cache_control directive : bytes)
    (valueless_fallback : option Duration) : outcome (option Duration) :=
  value ← extract_cache_control_directive cache_control directive;
  match value with
  | Some value =>
      if bool_decide (value = []) then Returned valueless_fallback
      else Returned (from_seconds <$> to_i64_number value)
  | None => Returned None
  end.

End Numbers.
End CacheControl.
Export CacheControl.

(** ** Vary *)
Module Vary.

(** The headers that the callback is given for one value, with its last decision
    ([true] is [Break]), or the indeterminate one. *)
Fixpoint vary_parts (parts : list bytes) (breaks : bytes → bool) (result : bool) : list bytes * bool :=
  match parts with
  | [] => ([], result)
  | header :: parts =>
      let header := normalize_header_value header in
      if breaks header then ([header], true)
      else let '(headers, result) := vary_parts parts breaks false in (header :: headers, result)
  end.

(** The headers that the callback of [for_each_vary_header] is given. *)
Fixpoint for_each_vary_header (m_headers : HeaderList) (indeterminate : nat → bool) (breaks : bytes → bool)
    : outcome (list bytes) :=
  match m_headers with
  | [] => Returned []
  | header :: m_headers =>
      if negb (has_name (sv "Vary") header) then for_each_vary_header m_headers indeterminate breaks
      else
        parts ← split_view (header_value header) [c_comma] SplitNothing;
        let '(headers, result) := vary_parts parts breaks (indeterminate 0%nat) in
        if result then Returned headers
        else rest ← for_each_vary_header m_headers (indeterminate ∘ S) breaks; Returned (headers ++ rest)
  end.

(** The values of a header that may be normalized, as they are collected. *)
Fixpoint normalized_values (values : list bytes) : outcome (list bytes) :=
  match values with
  | [] => Returned []
  | value :: values =>
      let value := map to_ascii_lowercase value in
      here ←
        (if negb (contains_char value c_comma) then Returned [value]
         else fields ← split_view value [c_comma] SplitNothing; Returned (map normalize_header_value fields));
      rest ← normalized_values values;
      Returned (here ++ rest)
  end.

Definition normalize_request_vary_header_values (header : bytes) (request_headers : HeaderList) : outcome bytes :=
  let values := for_each_header_value request_headers header (λ _, false) in
  if is_one_of_ignoring_ascii_case header [sv "Accept"; sv "Accept-Encoding"; sv "Accept-Language"] then
    values ← normalized_values values;
    if negb (bool_decide (values = [])) then
      values ← quick_sort bytes_less values; Returned (builder_join c_lf values)
    else Returned []
  else Returned (flat_map (λ value, value ++ [c_lf]) values).

End Vary.
Export Vary.

(** ** Keys and files *)
Module CacheKeys.
Section Keys.
Context `{Sha1}.

Definition serialize_hash (digest : bytes) : outcome Z :=
  b0 ← at_index digest 0; b1 ← at_index digest 1; b2 ← at_index digest 2; b3 ← at_index digest 3;
  b4 ← at_index digest 4; b5 ← at_index digest 5; b6 ← at_index digest 6; b7 ← at_index digest 7;
  let result := 0 in
  let result := Z.lor result (Z.shiftl b0 56) in
  let result := Z.lor result (Z.shiftl b1 48) in
  let result := Z.lor result (Z.shiftl b2 40) in
  let result := Z.lor result (Z.shiftl b3 32) in
  let result := Z.lor result (Z.shiftl b4 24) in
  let result := Z.lor result (Z.shiftl b5 16) in
  let result := Z.lor result (Z.shiftl b6 8) in
  let result := Z.lor result b7 in
  Returned result.

Definition create_cache_key (url method : bytes) (extra_cache_key : option bytes) : outcome Z :=
  serialize_hash (sha1 (url ++ method ++ default [] extra_cache_key)).

(** What is written to the hasher for the headers that the response nominates. *)
Fixpoint vary_key_input (headers : list bytes) (request_headers : HeaderList) : outcome bytes :=
  match headers with
  | [] => Returned []
  | header :: headers =>
      verify (negb (bool_decide (header = [c_asterisk]))) (
        value ← normalize_request_vary_header_values header request_headers;
        rest ← vary_key_input headers request_headers;
        Returned (value ++ rest))
  end.

Definition create_vary_key (request_headers response_headers : HeaderList) (indeterminate : nat → bool) : outcome Z :=
  headers ← for_each_vary_header response_headers indeterminate (λ _, false);
  input ← vary_key_input headers request_headers;
  if negb (bool_decide (headers = [])) then serialize_hash (sha1 input) else Returned 0.

End Keys.

(** [{:016x}] *)
Definition format_016x (value : Z) : outcome bytes :=
  put_u64 [] value 16 false false true false AlignDefault 16 c_space SignOnlyIfNeeded false.

(** The name of a file of the cache: [{:016x}] or [{:016x}_{:016x}]. *)
Definition cache_file_name (cache_key vary_key : Z) : outcome bytes :=
  if vary_key =? 0 then format_016x cache_key
  else a ← format_016x cache_key; b ← format_016x vary_key; Returned (a ++ [c_underscore] ++ b).

Definition path_for_cache_entry (cache_directory : LexicalPath) (cache_key vary_key : Z) : outcome LexicalPath :=
  file ← cache_file_name cache_key vary_key; path_append cache_directory file.

Definition cache_entry_associated_data_suffix (associated_data : CacheEntryAssociatedData) : bytes :=
  match associated_data with JavaScriptBytecode => sv "jsbc" end.

Definition cache_entry_associated_data_from_suffix (suffix : bytes) : option CacheEntryAssociatedData :=
  if bool_decide (suffix = sv "jsbc") then Some JavaScriptBytecode else None.

Definition path_for_cache_entry_associated_data (cache_directory : LexicalPath) (cache_key vary_key : Z)
    (associated_data : CacheEntryAssociatedData) : outcome LexicalPath :=
  file ← cache_file_name cache_key vary_key;
  path_append cache_directory (file ++ [c_dot] ++ cache_entry_associated_data_suffix associated_data).

Record CacheEntryData := mk_cache_entry_data {
  cache_key : Z;
  vary_key : Z;
  associated_data : option CacheEntryAssociatedData;
}.

Definition cache_entry_data_for_file `{FastFloat} (cache_file : LexicalPath) : outcome (option CacheEntryData) :=
  let file_name := m_title cache_file in
  keys ←
    (if contains_char file_name c_underscore then
       parts ← split_view file_name [c_underscore] SplitKeepEmpty;
       if negb (length parts =? 2)%nat then Returned None
       else
         part0 ← at_index parts 0; part1 ← at_index parts 1;
         match to_number u64_max 16 part0 TrimWhitespaceNo, to_number u64_max 16 part1 TrimWhitespaceNo with
         | Some cache_key, Some vary_key => Returned (Some (cache_key, vary_key))
         | _, _ => Returned None
         end
     else
       match to_number u64_max 16 file_name TrimWhitespaceNo with
       | None => Returned None
       | Some cache_key => Returned (Some (cache_key, 0))
       end);
  match keys with
  | None => Returned None
  | Some (cache_key, vary_key) =>
      let extension := m_extension cache_file in
      if negb (bool_decide (extension = [])) then
        match cache_entry_associated_data_from_suffix extension with
        | None => Returned None
        | Some data => Returned (Some (mk_cache_entry_data cache_key vary_key (Some data)))
        end
      else Returned (Some (mk_cache_entry_data cache_key vary_key None))
  end.

End CacheKeys.
Export CacheKeys.

(** ** What may be stored *)
Module Cacheability.

Definition is_cacheable_request (method : bytes) (request_headers : HeaderList) : bool :=
  if negb (existsb (λ m, bool_decide (method = m)) [sv "GET"; sv "HEAD"]) then false
  else
    let no_store := match get request_headers (sv "Cache-Control") with
      | Some cache_control => contains_ignoring_case cache_control (sv "no-store")
      | None => false
      end in
    if no_store then false
    else negb (contains request_headers (sv "Range")).

Definition is_heuristically_cacheable_status (status_code : Z) : bool :=
  existsb (Z.eqb status_code) [200; 203; 204; 206; 300; 301; 308; 404; 405; 410; 414; 501].

(** Whether the callback is ever given [*]. *)
Definition contains_vary_wildcard (headers : HeaderList) (indeterminate : nat → bool) : outcome bool :=
  visited ← for_each_vary_header headers indeterminate (λ header, bool_decide (header = [c_asterisk]));
  Returned (existsb (λ header, bool_decide (header = [c_asterisk])) visited).

Definition is_cacheable_response (status_code : Z) (headers : HeaderList) (indeterminate : nat → bool) : outcome bool :=
  if status_code <? 200 then Returned false
  else if status_code =? 206 then Returned false
  else
    wildcard ← contains_vary_wildcard headers indeterminate;
    if wildcard : bool then Returned false
    else
      let cache_control := get headers (sv "Cache-Control") in
      has_must_understand ← has_directive cache_control (sv "must-understand");
      refused ←
        (if has_must_understand : bool then
           Returned (negb (is_heuristically_cacheable_status status_code) && negb (status_code =? 304))
         else has_directive cache_control (sv "no-store"));
      if refused : bool then Returned false
      else
        let has_expires := contains headers (sv "Expires") in
        has_public ← has_directive cache_control (sv "public");
        has_private ← has_directive cache_control (sv "private");
        has_max_age ← has_directive cache_control (sv "max-age");
        Returned (negb (negb has_public && negb has_private && negb has_expires && negb has_max_age
                        && negb (is_heuristically_cacheable_status status_code))).

Definition is_header_exempted_from_storage (name : bytes) : bool :=
  is_one_of_ignoring_ascii_case name
    [sv "Connection"; sv "Keep-Alive"; sv "Proxy-Connection"; sv "TE"; sv "Transfer-Encoding"; sv "Upgrade";
     TEST_CACHE_ENABLED_HEADER; TEST_CACHE_STATUS_HEADER; TEST_CACHE_REQUEST_TIME_OFFSET].

Definition store_header_and_trailer_fields (stored_headers response_headers : HeaderList) : HeaderList :=
  foldl (λ stored header, if negb (is_header_exempted_from_storage (header_name header)) then append stored header else stored)
    stored_headers response_headers.

Definition is_header_exempted_from_update (name : bytes) : bool :=
  is_header_exempted_from_storage name || equals_ignoring_ascii_case name (sv "Content-Length").

Definition update_header_fields (stored_headers updated_headers : HeaderList) : HeaderList :=
  let stored_headers :=
    foldl (λ stored header, if negb (is_header_exempted_from_update (header_name header))
                            then delete_ stored (header_name header) else stored) stored_headers updated_headers in
  foldl (λ stored header, if negb (is_header_exempted_from_update (header_name header))
                          then append stored (mk_header (header_name header) (header_value header)) else stored)
    stored_headers updated_headers.

Record RevalidationAttributes := mk_revalidation { etag : option bytes; last_modified : option bytes }.

Definition revalidation_attributes (headers : HeaderList) : RevalidationAttributes :=
  mk_revalidation (get headers (sv "ETag")) (get headers (sv "Last-Modified")).

End Cacheability.
Export Cacheability.

(** ** Freshness *)
Module Freshness.
Section Clock.
Context `{FastFloat} `{FastFloatSigned} `{TimeZone}.

Definition duration_le (a b : Duration) : bool := duration_compare a b <=? 0.
Definition duration_gt (a b : Duration) : bool := 0 <? duration_compare a b.
(** [max(a, b)] *)
Definition duration_larger (a b : Duration) : Duration := if duration_lt a b then b else a.

Definition parse_http_date (date : option bytes) : outcome (option UnixDateTime) :=
  match date with
  | Some date => parse_unix_time http_date_format date true
  | None => Returned None
  end.

Definition calculate_heuristic_freshness_lifetime (headers : HeaderList) (current_time_offset_for_testing : Duration)
    (now : UnixDateTime) : outcome Duration :=
  last_modified ← parse_http_date (get headers (sv "Last-Modified"));
  match last_modified with
  | None => Returned duration_zero
  | Some last_modified =>
      now ← duration_add now current_time_offset_for_testing;
      since_last_modified ← duration_sub now last_modified;
      seconds ← to_seconds since_last_modified;
      if seconds <=? 0 then Returned duration_zero
      else
        let heuristic_seconds := Z.max 0 (Z.quot seconds 10) in
        Returned (from_seconds heuristic_seconds)
  end.

Definition calculate_freshness_lifetime (status_code : Z) (headers : HeaderList)
    (current_time_offset_for_testing : Duration) (now : UnixDateTime) : outcome Duration :=
  let cache_control := get headers (sv "Cache-Control") in
  max_age ←
    (match cache_control with
     | Some cache_control => extract_cache_control_duration_directive cache_control (sv "max-age") None
     | None => Returned None
     end);
  match max_age with
  | Some max_age => Returned max_age
  | None =>
      expires ← parse_http_date (get headers (sv "Expires"));
      match expires with
      | Some expires =>
          date ← parse_http_date (get headers (sv "Date"));
          date ← (match date with Some date => Returned date | None => duration_add now current_time_offset_for_testing end);
          duration_sub expires date
      | None =>
          heuristics_allowed ←
            (if is_heuristically_cacheable_status status_code then Returned true
             else has_directive cache_control (sv "public"));
          if heuristics_allowed : bool then
            calculate_heuristic_freshness_lifetime headers current_time_offset_for_testing now
          else Returned duration_zero
      end
  end.

Definition calculate_age (headers : HeaderList) (request_time response_time : UnixDateTime)
    (current_time_offset_for_testing : Duration) (now : UnixDateTime) : outcome Duration :=
  let age_value := match get headers (sv "Age") with
    | Some age => match to_i64_number age with Some seconds => from_seconds seconds | None => duration_zero end
    | None => duration_zero
    end in
  now ← duration_add now current_time_offset_for_testing;
  date ← parse_http_date (get headers (sv "Date"));
  let date_value := default now date in
  since_date ← duration_sub response_time date_value;
  let apparent_age := duration_larger duration_zero since_date in
  response_delay ← duration_sub response_time request_time;
  corrected_age_value ← duration_add age_value response_delay;
  let corrected_initial_age := duration_larger apparent_age corrected_age_value in
  resident_time ← duration_sub now response_time;
  duration_add corrected_initial_age resident_time.

Definition calculate_stale_while_revalidate_lifetime (headers : HeaderList) (freshness_lifetime : Duration)
    : outcome Duration :=
  match get headers (sv "Cache-Control") with
  | None => Returned duration_zero
  | Some cache_control =>
      swr ← extract_cache_control_duration_directive cache_control (sv "stale-while-revalidate") None;
      match swr with
      | Some swr => duration_add freshness_lifetime swr
      | None => Returned duration_zero
      end
  end.

Definition revalidation_status (response_headers : HeaderList) (revalidation_type : CacheLifetimeStatus)
    : CacheLifetimeStatus :=
  if contains response_headers (sv "Last-Modified") || contains response_headers (sv "ETag") then revalidation_type
  else Expired.

(** What the directives of the request decide before the freshness is looked at. *)
Definition request_refuses (cache_control : bytes) (freshness_lifetime current_age : Duration) : outcome bool :=
  max_age ← extract_cache_control_duration_directive cache_control (sv "max-age") None;
  if match max_age with Some max_age => duration_le max_age current_age | None => false end then Returned true
  else
    min_fresh ← extract_cache_control_duration_directive cache_control (sv "min-fresh") None;
    match min_fresh with
    | Some min_fresh => needed ← duration_add current_age min_fresh; Returned (duration_lt freshness_lifetime needed)
    | None => Returned false
    end.

(** [max-stale] of the request. *)
Definition request_accepts_stale (cache_control : bytes) (freshness_lifetime current_age : Duration) : outcome bool :=
  max_stale ← extract_cache_control_duration_directive cache_control (sv "max-stale") (Some duration_max);
  match max_stale with
  | Some max_stale => accepted ← duration_add freshness_lifetime max_stale; Returned (duration_gt accepted current_age)
  | None => Returned false
  end.

Definition stale_status (response_headers : HeaderList) (response_cache_control : option bytes)
    (freshness_lifetime current_age : Duration) : outcome CacheLifetimeStatus :=
  match response_cache_control with
  | None => Returned (revalidation_status response_headers MustRevalidate)
  | Some response_cache_control =>
      lifetime ← calculate_stale_while_revalidate_lifetime response_headers freshness_lifetime;
      if duration_gt lifetime current_age then Returned (revalidation_status response_headers StaleWhileRevalidate)
      else
        must_revalidate ← contains_cache_control_directive response_cache_control (sv "must-revalidate");
        Returned (if must_revalidate : bool then revalidation_status response_headers MustRevalidate else Expired)
  end.

Definition cache_lifetime_status (request_headers response_headers : HeaderList)
    (freshness_lifetime current_age : Duration) : outcome CacheLifetimeStatus :=
  let request_cache_control := get request_headers (sv "Cache-Control") in
  let response_cache_control := get response_headers (sv "Cache-Control") in
  no_cache ← has_directive response_cache_control (sv "no-cache");
  if no_cache : bool then Returned (revalidation_status response_headers MustRevalidate)
  else if match request_cache_control with Some cc => contains_ignoring_case cc (sv "no-cache") | None => false end then
    Returned (revalidation_status response_headers MustRevalidate)
  else
    refuses ← (match request_cache_control with
      | Some cc => request_refuses cc freshness_lifetime current_age | None => Returned false end);
    if refuses : bool then Returned Expired
    else if duration_gt freshness_lifetime current_age then Returned Fresh
    else
      accepts_stale ← (match request_cache_control with
        | Some cc => request_accepts_stale cc freshness_lifetime current_age | None => Returned false end);
      if accepts_stale : bool then Returned Fresh
      else stale_status response_headers response_cache_control freshness_lifetime current_age.

Definition compute_current_time_offset_for_testing (disk_cache : option DiskCacheMode) (request_headers : HeaderList)
    : Duration :=
  match disk_cache with
  | Some DiskCacheTesting =>
      match get request_headers TEST_CACHE_REQUEST_TIME_OFFSET with
      | Some header => match to_i64_number header with Some offset => from_seconds offset | None => duration_zero end
      | None => duration_zero
      end
  | _ => duration_zero
  end.

End Clock.
End Freshness.
Export Freshness.
