(* ===== verification/HttpCacheDirectives.v ===== *)
(** * The directives of Cache-Control against a reference

    [extract_cache_control_directive] is compared with the split of the header value
    at the commas outside quoted strings (the reference of header values): the first
    part whose name is the directive gives its value.  A quoted string that is not
    closed ends the search. *)
From S2P Require Import Prelude CharacterTypes Externals Utf8 StringView Utf8View Format Ipv4 TextCodec QuickSort Time GenericLexer DateFormat Http HttpHeader HttpHeaderList HttpCache.
Import Lexer.

(** ** The reference *)

(** The state after some text. *)
Fixpoint quote_state (state : QuoteState) (s : bytes) : QuoteState :=
  match s with
  | [] => state
  | c :: s =>
      quote_state
        (match state with
         | Outside => if c =? c_quote then Inside else Outside
         | Inside => if c =? c_quote then Outside else if c =? c_backslash then Escaped else Inside
         | Escaped => Inside
         end) s
  end.

(** The parts; the last one is dropped when it has an open quote. *)
Definition closed_parts (state : QuoteState) (current s : bytes) : list bytes :=
  match quote_state state s with
  | Outside => split_quoted state current s
  | _ => removelast (split_quoted state current s)
  end.

(** The name and the value: the text around the first equals sign, if no quote is before it. *)
Definition name_value (part : bytes) : bytes * bytes :=
  match find_any_of part [c_equals; c_quote] with
  | Some i => if bool_decide (part !! i = Some c_equals) then (take i part, drop (S i) part) else (part, [])
  | None => (part, [])
  end.

Definition is_directive (directive part : bytes) : bool :=
  equals_ignoring_ascii_case (trim (name_value part).1 HTTP_WHITESPACE TrimBoth) directive.

Definition find_directive (directive : bytes) (parts : list bytes) : option bytes :=
  (λ part, trim (name_value part).2 HTTP_WHITESPACE TrimBoth) <$> List.find (is_directive directive) parts.

(** ** Quoted strings *)

(** The text before the closing quote and the text after it. *)
Fixpoint scan_quoted (s : bytes) : option (bytes * bytes) :=
  match s with
  | [] => None
  | c :: s =>
      if c =? c_backslash then
        match s with
        | [] => None
        | d :: s => (λ '(q, rest), (c :: d :: q, rest)) <$> scan_quoted s
        end
      else if c =? c_quote then Some ([], s)
      else (λ '(q, rest), (c :: q, rest)) <$> scan_quoted s
  end.

Lemma bytes_two_ind (P : bytes → Prop) :
  P [] → (∀ c, P [c]) → (∀ c d s, P s → P (d :: s) → P (c :: d :: s)) → ∀ s, P s.
Proof.
  intros H0 H1 H2. assert (∀ s, P s ∧ ∀ c, P (c :: s)) as H; [|by intros s; apply H].
  induction s as [|d s [IH1 IH2]]; split; auto.
Qed.

Lemma scan_quoted_step c d s :
  scan_quoted (c :: d :: s) =
  if c =? c_backslash then (λ '(q, rest), (c :: d :: q, rest)) <$> scan_quoted s
  else if c =? c_quote then Some ([], d :: s)
  else (λ '(q, rest), (c :: q, rest)) <$> scan_quoted (d :: s).
Proof. done. Qed.

Lemma scan_quoted_app s q rest : scan_quoted s = Some (q, rest) → s = q ++ c_quote :: rest.
Proof.
  revert q. induction s as [|c|c d s IH1 IH2] using bytes_two_ind; intros q.
  - done.
  - cbn [scan_quoted]. destruct (Z.eqb_spec c c_backslash) as [->|Hb]; [done|]. destruct (Z.eqb_spec c c_quote) as [->|Hq]; [|done].
    by intros [= <- <-].
  - rewrite scan_quoted_step. destruct (Z.eqb_spec c c_backslash) as [->|Hb].
    + destruct (scan_quoted s) as [[q' r']|]; [|done]. intros [= <- <-]. cbn. by rewrite (IH1 q').
    + destruct (Z.eqb_spec c c_quote) as [->|Hq]; [by intros [= <- <-]|].
      destruct (scan_quoted (d :: s)) as [[q' r']|]; [|done]. intros [= <- <-]. cbn [app]. by rewrite <-(IH2 q').
Qed.

Lemma inside_step cur c s :
  let state := if c =? c_quote then Outside else if c =? c_backslash then Escaped else Inside in
  split_quoted Inside cur (c :: s) = split_quoted state (cur ++ [c]) s ∧ quote_state Inside (c :: s) = quote_state state s.
Proof. done. Qed.

(** From inside a quoted string: to its end, or it is never closed. *)
Lemma split_inside s cur :
  match scan_quoted s with
  | Some (q, rest) => split_quoted Inside cur s = split_quoted Outside (cur ++ q ++ [c_quote]) rest
                      ∧ quote_state Inside s = quote_state Outside rest
  | None => split_quoted Inside cur s = [cur ++ s] ∧ quote_state Inside s ≠ Outside
  end.
Proof.
  revert cur. induction s as [|c|c d s IH1 IH2] using bytes_two_ind; intros cur.
  - cbn. by rewrite app_nil_r.
  - cbn [scan_quoted split_quoted quote_state]. destruct (Z.eqb_spec c c_backslash) as [->|Hb]; [done|].
    by destruct (Z.eqb_spec c c_quote) as [->|Hq].
  - rewrite scan_quoted_step. destruct (inside_step cur c (d :: s)) as [-> ->].
    destruct (Z.eqb_spec c c_backslash) as [->|Hb].
    + specialize (IH1 ((cur ++ [c_backslash]) ++ [d])).
      destruct (scan_quoted s) as [[q rest]|]; cbn [fmap option_fmap option_map].
      * replace (cur ++ (c_backslash :: d :: q) ++ [c_quote]) with (((cur ++ [c_backslash]) ++ [d]) ++ q ++ [c_quote])
          by (by rewrite <-!app_assoc). exact IH1.
      * replace (cur ++ c_backslash :: d :: s) with (((cur ++ [c_backslash]) ++ [d]) ++ s) by (by rewrite <-!app_assoc).
        exact IH1.
    + destruct (Z.eqb_spec c c_quote) as [->|Hq]; [done|]. specialize (IH2 (cur ++ [c])).
      destruct (scan_quoted (d :: s)) as [[q rest]|]; cbn [fmap option_fmap option_map].
      * replace (cur ++ (c :: q) ++ [c_quote]) with ((cur ++ [c]) ++ q ++ [c_quote]) by (by rewrite <-!app_assoc). exact IH2.
      * replace (cur ++ c :: d :: s) with ((cur ++ [c]) ++ d :: s) by (by rewrite <-!app_assoc). exact IH2.
Qed.

(** The loop of [consume_quoted_string] stops at the closing quote or past the end. *)
Lemma quoted_scan_spec fuel l :
  (length (remaining l) ≤ fuel)%nat →
  ∃ l', quoted_scan fuel l c_backslash c_quote = Returned l' ∧ m_input l' = m_input l ∧
    match scan_quoted (remaining l) with
    | Some (q, rest) => m_index l' = (m_index l + length q)%nat ∧ remaining l' = c_quote :: rest
    | None => remaining l' = []
    end.
Proof.
  revert l. induction fuel as [fuel IH] using lt_wf_ind. intros l Hf. destruct fuel as [|fuel]; cbn [quoted_scan].
  all: rewrite is_eof_remaining; case_bool_decide as Er; [exists l; rewrite Er; done|].
  { destruct (remaining l); [done|cbn in Hf; lia]. }
  destruct (remaining l) as [|c s] eqn:Hr; [done|]. destruct (remaining_cons _ _ _ Hr) as (Hok & Hat & Hr1 & Hok1 & Hlt).
  assert (ignore l 1 = mk_lexer (m_input l) (m_index l + 1)) as Hig.
  { unfold ignore. apply lookup_lt_Some in Hat. by rewrite Nat.min_l by lia. }
  rewrite Hig in Hr1. unfold next_is. rewrite peek_remaining, Hr. cbn [head default id scan_quoted].
  destruct (Z.eqb_spec c c_backslash) as [->|Hb].
  - assert (remaining (mk_lexer (m_input l) (m_index l + 2)) = drop 1 s) as Hr2.
    { rewrite <-Hr1. unfold remaining. cbn [m_input m_index]. rewrite drop_drop. f_equal. lia. }
    destruct (IH fuel ltac:(lia) (mk_lexer (m_input l) (m_index l + 2))) as (l' & -> & Hin & Hl').
    { rewrite Hr2, length_drop. cbn in Hf. lia. }
    exists l'. split; [done|]. split; [done|]. rewrite Hr2 in Hl'. destruct s as [|d s]; [done|].
    change (drop 1 (d :: s)) with s in Hl'. destruct (scan_quoted s) as [[q rest]|]; [|done]. cbn in Hl' |- *.
    destruct Hl' as [-> ?]. split; [lia|done].
  - destruct (Z.eqb_spec c c_quote) as [->|Hq].
    + exists l. split_and!; [done|done|cbn; lia|done].
    + destruct (IH fuel ltac:(lia) (mk_lexer (m_input l) (m_index l + 1))) as (l' & -> & Hin & Hl').
      { rewrite Hr1. cbn in Hf. lia. }
      exists l'. split; [done|]. split; [done|]. rewrite Hr1 in Hl'. destruct (scan_quoted s) as [[q rest]|]; [|done].
      cbn in Hl' |- *. destruct Hl' as [-> ?]. split; [lia|done].
Qed.

(** [consume_quoted_string] at a quote: past the closing one, or back where it was. *)
Lemma consume_quoted_spec l s :
  remaining l = c_quote :: s →
  match scan_quoted s with
  | Some (q, rest) => ∃ view l', consume_quoted_string l c_backslash = Returned (view, l') ∧ m_input l' = m_input l
      ∧ m_index l' = (m_index l + length q + 2)%nat ∧ remaining l' = rest ∧ lexer_ok l'
  | None => ∃ view, consume_quoted_string l c_backslash = Returned (view, l)
  end.
Proof.
  intros Hr. destruct (consume_cons _ _ _ Hr) as (Hc & Hr1 & Hok1). destruct (remaining_cons _ _ _ Hr) as (Hok & Hat & _ & _ & Hlt).
  assert (m_index (ignore l 1) = (m_index l + 1)%nat) as Hig.
  { unfold ignore. cbn [m_index]. apply lookup_lt_Some in Hat. by rewrite Nat.min_l by lia. }
  unfold consume_quoted_string. rewrite peek_remaining, Hr. cbn [head default id].
  change (negb (is_quote c_quote)) with false. cbn iota. rewrite Hc, bind_value. cbv zeta.
  destruct (quoted_scan_spec (length (m_input (ignore l 1))) (ignore l 1)) as (l' & -> & Hin & Hl').
  { rewrite Hr1. cbn [m_input ignore]. lia. }
  rewrite bind_value, peek_remaining. rewrite Hr1, Hig in Hl'. destruct (scan_quoted s) as [[q rest]|] eqn:Es.
  - destruct Hl' as [Hidx Hl']. rewrite Hl'. cbn [head default id Z.eqb Pos.eqb negb].
    destruct (remaining_cons _ _ _ Hl') as (Hok' & Hat' & Hr2 & Hok2 & _). cbn [m_input ignore] in Hin.
    rewrite Hin, substring_view_in_range, bind_value by (unfold lexer_ok in Hok'; rewrite Hin in Hok'; lia).
    do 2 eexists. split; [done|]. split; [done|]. split_and!; [|done..]. unfold ignore. cbn [m_index].
    apply lookup_lt_Some in Hat'. rewrite Nat.min_l by lia. lia.
  - rewrite Hl'. cbn [head default id]. change (negb (0 =? c_quote)) with true. cbn iota. eexists. do 2 f_equal.
    destruct l as [input index]. cbn [m_input ignore m_index] in *. subst. f_equal. lia.
Qed.

(** ** The loop *)
Lemma directive_name_value_spec cc start l current :
  m_input l = cc → (start ≤ m_index l ≤ length cc)%nat → current = take (m_index l - start) (drop start cc) →
  directive_name_value cc start l = Returned (name_value current).
Proof.
  intros Hin Hs ->. unfold directive_name_value, name_value. rewrite substring_view_in_range, bind_value by lia.
  set (part := take _ _). pose proof (find_any_of_spec part [c_equals; c_quote]) as Hf.
  destruct (find_any_of part [c_equals; c_quote]) as [i|]; [|done]. destruct Hf as ((b & Hb & _) & _).
  rewrite (at_index_lt _ _ _ Hb), bind_value, Hb. pose proof (lookup_lt_Some _ _ _ Hb) as Hi.
  destruct (Z.eqb_spec b c_equals) as [->|Hne].
  - rewrite bool_decide_eq_true_2 by done. rewrite substring_view_from_in_range, bind_value by lia.
    rewrite substring_view_in_range, bind_value by lia. by replace (i + 1)%nat with (S i) by lia.
  - rewrite bool_decide_eq_false_2; [done|congruence].
Qed.

(** The text of the directive that is being read. *)
Definition reading (cc : bytes) (start : nat) (l : GenericLexer) (current : bytes) : Prop :=
  m_input l = cc ∧ lexer_ok l ∧ (start ≤ m_index l)%nat ∧ current = take (m_index l - start) (drop start cc).

Lemma reading_advance cc start l current l' text :
  reading cc start l current → m_input l' = cc → lexer_ok l' → m_index l' = (m_index l + length text)%nat →
  (∃ rest, remaining l = text ++ rest) → reading cc start l' (current ++ text).
Proof.
  intros (Hin & Hok & Hs & ->) Hin' Hok' Hidx [rest Hr]. split_and!; [done|done|lia|].
  unfold remaining in Hr. rewrite Hin in Hr. rewrite Hidx.
  replace (m_index l + length text - start)%nat with ((m_index l - start) + length text)%nat by lia.
  rewrite <-(take_take_drop (drop start cc)), drop_drop. f_equal.
  replace (start + (m_index l - start))%nat with (m_index l) by lia. by rewrite Hr, take_app_length.
Qed.

Lemma find_directive_cons directive part parts :
  find_directive directive (part :: parts) =
  if is_directive directive part then Some (trim (name_value part).2 HTTP_WHITESPACE TrimBoth) else find_directive directive parts.
Proof. unfold find_directive. cbn [List.find]. by destruct (is_directive directive part). Qed.

Lemma closed_parts_comma current s :
  closed_parts Outside current (c_comma :: s) = current :: closed_parts Outside [] s.
Proof.
  unfold closed_parts. cbn [quote_state split_quoted Z.eqb Pos.eqb]. pose proof (split_quoted_nonempty Outside [] s) as Hne.
  destruct (quote_state Outside s); [done|..]; by destruct (split_quoted Outside [] s).
Qed.

Lemma closed_parts_plain part current s :
  Forall (λ c, is_any_of [c_quote; c_comma] c = false) part →
  closed_parts Outside current (part ++ s) = closed_parts Outside (current ++ part) s.
Proof.
  intros Hp. unfold closed_parts. rewrite split_quoted_plain by done.
  assert (quote_state Outside (part ++ s) = quote_state Outside s) as ->; [|done].
  induction Hp as [|c part Hc _ IH]; [done|]. cbn [app quote_state]. cbn in Hc. destruct (Z.eqb_spec c c_quote); [lia|done].
Qed.

Lemma closed_parts_quote current s :
  closed_parts Outside current (c_quote :: s) =
  match scan_quoted s with
  | Some (q, rest) => closed_parts Outside (current ++ c_quote :: q ++ [c_quote]) rest
  | None => []
  end.
Proof.
  unfold closed_parts. cbn [quote_state split_quoted Z.eqb Pos.eqb]. pose proof (split_inside s (current ++ [c_quote])) as H.
  destruct (scan_quoted s) as [[q rest]|].
  - destruct H as [-> ->]. by replace ((current ++ [c_quote]) ++ q ++ [c_quote]) with (current ++ c_quote :: q ++ [c_quote]) by (by rewrite <-app_assoc).
  - destruct H as [-> Hne]. by destruct (quote_state Inside s).
Qed.

Section Loop.
Context (cc directive : bytes).

(** The end of a directive: a match, the end of the text, or the next directive. *)
Lemma finish_spec (continue : GenericLexer → nat → outcome (option bytes)) start l part :
  reading cc start l part →
  (remaining l = [] ∨ ∃ s, remaining l = c_comma :: s ∧ (∀ l', reading cc (m_index l') l' [] → remaining l' = s →
      continue l' (m_index l') = Returned (find_directive directive (closed_parts Outside [] s)))) →
  ('(name, value) ← directive_name_value cc start l;
   if equals_ignoring_ascii_case (trim name HTTP_WHITESPACE TrimBoth) directive then Returned (Some (trim value HTTP_WHITESPACE TrimBoth))
   else if is_eof l then Returned None
   else verify (peek l 0 =? c_comma) (let l := ignore l 1 in continue l (m_index l)))
  = Returned (find_directive directive (closed_parts Outside part (remaining l))).
Proof.
  intros Hread Hrest. pose proof Hread as (Hin & Hok & Hs & Hp). unfold lexer_ok in Hok. rewrite Hin in Hok.
  rewrite (directive_name_value_spec cc start l part) by done. rewrite bind_value.
  destruct (name_value part) as [name value] eqn:Env.
  assert (is_directive directive part = equals_ignoring_ascii_case (trim name HTTP_WHITESPACE TrimBoth) directive) as Hd
    by (unfold is_directive; by rewrite Env).
  rewrite is_eof_remaining, peek_remaining. destruct Hrest as [Hr|(s & Hr & Hnext)]; rewrite Hr.
  - change (closed_parts Outside part []) with [part]. rewrite find_directive_cons, Hd, Env. by case_match.
  - rewrite closed_parts_comma, find_directive_cons, Hd, Env. case_match; [done|].
    cbn [head default id Z.eqb Pos.eqb verify]. rewrite bool_decide_eq_false_2 by done.
    destruct (remaining_cons _ _ _ Hr) as (_ & _ & Hr' & Hok' & _). cbv zeta. apply Hnext; [|done].
    split_and!; [done|done|lia|]. by rewrite Nat.sub_diag.
Qed.

(** [consume_until] of a quote or a comma. *)
Lemma read_to_stop l start current :
  reading cc start l current →
  ∃ view l1 text, consume_until (is_any_of [c_quote; c_comma]) l = Returned (view, l1)
    ∧ reading cc start l1 (current ++ text) ∧ length (remaining l) = (length text + length (remaining l1))%nat
    ∧ closed_parts Outside current (remaining l) = closed_parts Outside (current ++ text) (remaining l1)
    ∧ match remaining l1 with c :: _ => c = c_quote ∨ c = c_comma | [] => True end.
Proof.
  intros Hread. pose proof Hread as (Hin & Hok & _). unfold consume_until. rewrite consume_while_returns by done.
  set (pred := λ c, negb (is_any_of [c_quote; c_comma] c)). set (l1 := ignore_while pred l).
  destruct (scan_while_spec pred (remaining l)) as [Hp Hstop]. rewrite <-remaining_ignore_while in Hstop. fold l1 in Hstop.
  pose proof (scan_while_le pred (remaining l)) as Hle. set (n := scan_while pred (remaining l)) in *.
  assert (remaining l = take n (remaining l) ++ remaining l1) as Hsplit.
  { unfold l1. rewrite remaining_ignore_while. fold n. by rewrite take_drop. }
  exists (take n (remaining l)), l1, (take n (remaining l)). split; [done|]. split_and!.
  - eapply reading_advance; [exact Hread|done|by apply ignore_while_ok| |by eexists].
    unfold l1, ignore_while. cbn [m_index]. fold (remaining l). rewrite length_take. fold n. lia.
  - by rewrite Hsplit, length_app at 1.
  - rewrite Hsplit at 1. apply closed_parts_plain. eapply Forall_impl; [exact Hp|]. cbn beta. unfold pred. intros c.
    by destruct (is_any_of _ c).
  - destruct (remaining l1) as [|c s]; [done|]. unfold pred in Hstop. cbn in Hstop.
    destruct (Z.eqb_spec c c_quote); [by left|]. destruct (Z.eqb_spec c c_comma); [by right|done].
Qed.

Lemma directive_loop_spec fuel l start current :
  reading cc start l current → (length (remaining l) < fuel)%nat →
  directive_loop fuel cc directive l start = Returned (find_directive directive (closed_parts Outside current (remaining l))).
Proof.
  revert l start current. induction fuel as [|fuel IH]; intros l start current Hread Hf; [lia|]. cbn [directive_loop].
  destruct (read_to_stop l start current Hread) as (view1 & l1 & text & -> & Hread1 & Hlen & -> & Hstop). rewrite bind_value.
  set (current1 := current ++ text) in *. clearbody current1. clear Hread.
  assert (negb (is_eof l1) && (peek l1 0 =? c_quote) = bool_decide (head (remaining l1) = Some c_quote)) as ->.
  { rewrite is_eof_remaining, peek_remaining. destruct (remaining l1) as [|c s]; [done|]. cbn [head default id].
    rewrite bool_decide_eq_false_2 by done. cbn [negb andb]. symmetry. destruct (Z.eqb_spec c c_quote) as [->|Hc]; [done|].
    apply bool_decide_eq_false_2. congruence. }
  destruct (remaining l1) as [|c s] eqn:Hr.
  { rewrite bool_decide_eq_false_2 by done. rewrite <-Hr.
    apply (finish_spec (directive_loop fuel cc directive)); [done|by left]. }
  cbn [head length] in Hlen |- *. case_bool_decide as Hq; cycle 1.
  { destruct Hstop as [-> | ->]; [done|]. rewrite <-Hr.
    apply (finish_spec (directive_loop fuel cc directive)); [done|]. right. exists s. split; [done|].
    intros l' Hl' Hr'. rewrite <-Hr'. apply IH; [done|]. rewrite Hr'. lia. }
  injection Hq as ->.
  cbv zeta. rewrite closed_parts_quote. pose proof (consume_quoted_spec l1 s Hr) as Hcq.
  pose proof (scan_quoted_app s) as Hs. destruct (scan_quoted s) as [[q rest]|]; cycle 1.
  { destruct Hcq as (view & ->). rewrite bind_value, Nat.eqb_refl. done. }
  destruct Hcq as (view & l2 & -> & Hin2 & Hidx & Hr2 & Hok2). rewrite bind_value.
  rewrite (proj2 (Nat.eqb_neq _ _)) by lia. specialize (Hs q rest eq_refl).
  assert (reading cc start l2 (current1 ++ c_quote :: q ++ [c_quote])) as Hread2.
  { eapply reading_advance; [exact Hread1|rewrite Hin2; apply Hread1|done| |].
    - rewrite Hidx. cbn. rewrite length_app. cbn. lia.
    - exists rest. rewrite Hr, Hs. cbn. by rewrite <-app_assoc. }
  pose proof (f_equal length Hs) as Hls. rewrite length_app in Hls. cbn [length] in Hls.
  assert (negb (is_eof l2) = bool_decide (rest ≠ [])) as ->.
  { rewrite is_eof_remaining, Hr2. by destruct rest. }
  rewrite <-Hr2. case_bool_decide as Erest.
  - apply IH; [done|]. rewrite Hr2. lia.
  - apply (finish_spec (directive_loop fuel cc directive)); [done|left]. by destruct (remaining l2).
Qed.

End Loop.

Lemma extract_directive_spec cache_control directive :
  directive ≠ [] → extract_cache_control_directive cache_control directive
  = Returned (find_directive directive (closed_parts Outside [] cache_control)).
Proof.
  intros Hd. unfold extract_cache_control_directive. rewrite bool_decide_eq_false_2 by done. cbn [negb verify].
  apply (directive_loop_spec cache_control directive (S (length cache_control)) (lexer_of cache_control) 0 []).
  - split_and!; [done|unfold lexer_ok; cbn; lia|cbn; lia|done].
  - unfold remaining, lexer_of. cbn [m_index m_input]. rewrite drop_0. lia.
Qed.

(** C19: [extract_cache_control_directive] returns on every header value: it is the value of the
    first directive of that name (ignoring case and the whitespace around name and value)
    among the parts between the commas that no quoted string contains, where a part with a
    quoted string that is not closed is not a directive. *)
Theorem extract_directive_reference (cache_control directive : bytes) (Hd : directive ≠ []) :
  extract_cache_control_directive cache_control directive
  = Returned (find_directive directive (closed_parts Outside [] cache_control)).
Proof. by apply extract_directive_spec. Qed.

Lemma extract_directive_reference_witness :
  sv "max-age" ≠ [] ∧
  let quoted := [c_quote] ++ sv "a, max-age=1" ++ [c_quote] in
  extract_cache_control_directive (sv "no-cache=" ++ quoted ++ sv " ,MAX-age = 60") (sv "max-age")
  = Returned (find_directive (sv "max-age") [sv "no-cache=" ++ quoted ++ sv " "; sv "MAX-age = 60"]).
Proof.
  split; [done|]. cbv zeta. rewrite extract_directive_reference by done. reflexivity.
Defined.
