(* ===== verification/HttpCacheCorrect.v ===== *)
(** * What the functions of the HTTP cache promise

    Searches for a directive that ignore case, the names of cache files, the header
    fields of a stored response and the freshness of a stored response. *)
From S2P Require Import Prelude CharacterTypes Externals Utf8 StringView LexicalPath LexicalPathCorrect Utf8View Format Ipv4 Host Url TextCodec QuickSort Time GenericLexer DateFormat DateFormatCorrect Http HttpHeader HttpHeaderList HttpCache HttpCacheDirectives.

(** ** [contains] ignoring case *)
Definition prefix_ignoring_case (str needle : bytes) : bool :=
  bool_decide (map to_ascii_lowercase (take (length needle) str) = map to_ascii_lowercase needle).

(** The reference: the needle is found at some position. *)
Fixpoint occurs_ignoring_case (str needle : bytes) : bool :=
  match str with
  | [] => false
  | _ :: rest => prefix_ignoring_case str needle || occurs_ignoring_case rest needle
  end.

Lemma prefix_first str needle c n :
  prefix_ignoring_case (c :: str) (n :: needle) = true → to_ascii_lowercase c = to_ascii_lowercase n.
Proof. unfold prefix_ignoring_case. rewrite bool_decide_eq_true. cbn. by intros [= -> _]. Qed.

Lemma match_needle_spec str needle k :
  needle ≠ [] →
  match match_needle str needle k with
  | NeedleMatched => prefix_ignoring_case str needle = true
  | NeedleMismatch ni => prefix_ignoring_case str needle = false
      ∧ ∃ m, ni = (k + m)%nat ∧ (m < length str)%nat
      ∧ map to_ascii_lowercase (take m str) = map to_ascii_lowercase (take m needle) ∧ (m < length needle)%nat
  | TextEnded => prefix_ignoring_case str needle = false
  end.
Proof.
  revert needle k. induction str as [|x str IH]; intros [|y needle] k Hne; try done.
  cbn [match_needle]. unfold prefix_ignoring_case. cbn [length take map].
  destruct (Z.eqb_spec (to_ascii_lowercase x) (to_ascii_lowercase y)) as [E|E]; cbn [negb]; cycle 1.
  { split; [apply bool_decide_eq_false_2; congruence|]. exists 0%nat. cbn. split_and!; [lia|lia|done|lia]. }
  destruct needle as [|z needle]; [apply bool_decide_eq_true_2; cbn; by rewrite E|].
  specialize (IH (z :: needle) (S k) ltac:(done)). rewrite E.
  assert (∀ a b : bytes, bool_decide (to_ascii_lowercase y :: a = to_ascii_lowercase y :: b) = bool_decide (a = b)) as Hb
    by (intros a b; apply bool_decide_ext; naive_solver).
  unfold prefix_ignoring_case in IH. rewrite Hb. destruct (match_needle str (z :: needle) (S k)); [done| |done].
  destruct IH as (Hp & m & -> & Hm & Hmap & Hl). split; [done|]. exists (S m). cbn [take map length] in *. split_and!; [lia|lia|by rewrite E, Hmap|lia].
Qed.

(** A needle whose first character does not occur again is found where it is. *)
Lemma contains_scan_spec skip n needle str :
  Forall (λ c, to_ascii_lowercase c ≠ to_ascii_lowercase n) needle →
  Forall (λ c, to_ascii_lowercase c ≠ to_ascii_lowercase n) (take skip str) →
  contains_scan skip (to_ascii_lowercase n) str (n :: needle) = occurs_ignoring_case str (n :: needle).
Proof.
  intros Hn. revert skip. induction str as [|c rest IH]; intros skip Hskip; [done|]. cbn [contains_scan occurs_ignoring_case].
  assert (to_ascii_lowercase c ≠ to_ascii_lowercase n → prefix_ignoring_case (c :: rest) (n :: needle) = false) as Hno.
  { intros Hc. destruct (prefix_ignoring_case _ _) eqn:E; [|done]. by apply prefix_first in E. }
  destruct skip as [|skip]; cycle 1.
  { apply Forall_cons in Hskip as [Hc Hskip]. by rewrite Hno, IH. }
  destruct (Z.eqb_spec (to_ascii_lowercase c) (to_ascii_lowercase n)) as [E|E]; cbn [negb]; [|by rewrite Hno, IH].
  pose proof (match_needle_spec (c :: rest) (n :: needle) 0 ltac:(done)) as Hm.
  destruct (match_needle _ _ _) as [|ni|]; [by rewrite Hm| |by rewrite Hm, IH].
  destruct Hm as (-> & m & -> & Hlen & Hmap & Hlm). cbn [orb Nat.add]. apply IH.
  destruct m as [|m]; [constructor|]. cbn [take map length] in *. injection Hmap as _ Hmap. rewrite Nat.sub_succ, Nat.sub_0_r.
  apply Forall_forall. intros x Hx. apply list_elem_of_lookup in Hx as [i Hi].
  apply (f_equal (.!! i)) in Hmap. rewrite !list_lookup_fmap in Hmap. setoid_rewrite Hi in Hmap. cbn in Hmap.
  destruct (take m needle !! i) as [y|] eqn:Ey; [|done]. cbn in Hmap. injection Hmap as ->.
  rewrite Forall_forall in Hn. apply Hn. eapply list_elem_of_lookup_2. by apply lookup_take_Some in Ey as [Ey _].
Qed.

(** The skip after a mismatch passes over an occurrence of a needle that starts
    like the text it was compared with. *)
Example contains_ignoring_case_misses :
  contains_ignoring_case (sv "aaab") (sv "aab") = false ∧ occurs_ignoring_case (sv "aaab") (sv "aab") = true.
Proof. done. Qed.

(** The two needles of the cache are found wherever they are. *)
Lemma contains_no_directive str needle :
  needle = sv "no-store" ∨ needle = sv "no-cache" → contains_ignoring_case str needle = occurs_ignoring_case str needle.
Proof.
  intros Hneedle.
  assert (∃ n rest, needle = n :: rest ∧ rest ≠ [] ∧ Forall (λ c, to_ascii_lowercase c ≠ to_ascii_lowercase n) rest) as (n & rest & -> & Hr & Hn).
  { destruct Hneedle as [-> | ->]; do 2 eexists; split_and!; try reflexivity; try done; by repeat constructor. }
  unfold contains_ignoring_case. destruct rest as [|r rest]; [done|]. case_bool_decide as E; [by subst|]. cbn [orb].
  destruct (Nat.ltb_spec (length str) (length (n :: r :: rest))) as [Hl|Hl]; [|by apply contains_scan_spec].
  symmetry. clear E. assert (∀ s, (length s < length (n :: r :: rest))%nat → occurs_ignoring_case s (n :: r :: rest) = false) as H; [|by apply H].
  intros s. induction s as [|c s IH]; [done|]. intros Hs. cbn [occurs_ignoring_case]. rewrite IH by (cbn in *; lia).
  rewrite orb_false_r. apply bool_decide_eq_false_2. intros E%(f_equal length). rewrite !length_map, length_take in E. lia.
Qed.

(** ** The names of cache files *)
Record hex_text (value : Z) (s : bytes) : Prop := mk_hex_text {
  hex_nonempty : s ≠ [];
  hex_digits : forallb (is_digit_in 16) s = true;
  hex_value : digits_value 16 0 s = value;
}.

Lemma format_016x_spec value : 0 ≤ value < 2 ^ 64 → ∃ s, format_016x value = Returned s ∧ hex_text value s.
Proof.
  intros Hv. unfold format_016x. destruct (convert_unsigned_printed value 16 false) as (s & Hs & Hp); [lia|done|].
  rewrite (put_u64_plain _ _ _ _ _ _ Hs). eexists. split; [done|]. split.
  - intros [_ ?]%app_nil. by apply (printed_nonempty _ _ _ Hp).
  - rewrite forallb_app, (printed_digits _ _ _ Hp), andb_true_r. apply forallb_Forall, Forall_replicate. done.
  - rewrite digits_value_zeros. apply (printed_value _ _ _ Hp).
Qed.

Lemma hex_no_char value s c : hex_text value s → is_digit_in 16 c = false → c ∉ s.
Proof.
  intros [_ Hd _] Hc Hin. apply forallb_Forall in Hd. rewrite Forall_forall in Hd. specialize (Hd c Hin). congruence.
Qed.

Lemma hex_number `{FastFloatOk} value s :
  hex_text value s → 0 ≤ value < 2 ^ 64 → to_number u64_max 16 s TrimWhitespaceNo = Some value.
Proof.
  intros [Hne Hd Hv] Hb. unfold to_number. rewrite parse_number_spec by lia. rewrite bool_decide_eq_false_2 by done.
  rewrite Hd, Hv. cbn [negb andb]. by rewrite (proj2 (Z.leb_le value _)) by lia.
Qed.

(** A name of the cache and the keys it is read back as. *)
Lemma cache_file_name_spec `{FastFloatOk} k v :
  0 ≤ k < 2 ^ 64 → 0 ≤ v < 2 ^ 64 →
  ∃ name, cache_file_name k v = Returned name ∧ name ≠ [] ∧ c_slash ∉ name ∧ c_dot ∉ name ∧
    ∀ path, m_title path = name →
      cache_entry_data_for_file path = Returned (
        if bool_decide (m_extension path = []) then Some (mk_cache_entry_data k v None)
        else (λ data, mk_cache_entry_data k v (Some data)) <$> cache_entry_associated_data_from_suffix (m_extension path)).
Proof.
  intros Hk Hv. destruct (format_016x_spec k Hk) as (a & Ea & Ha). destruct (format_016x_spec v Hv) as (b & Eb & Hb).
  unfold cache_file_name. rewrite Ea, Eb. destruct (Z.eqb_spec v 0) as [->|Hne].
  - exists a. split; [done|]. split_and!; [apply (hex_nonempty _ _ Ha)|by apply (hex_no_char k)|by apply (hex_no_char k)|].
    intros path Hp. unfold cache_entry_data_for_file. rewrite Hp.
    destruct (contains_char a c_underscore) eqn:Eu; [apply contains_char_elem in Eu; by apply (hex_no_char k) in Eu|].
    rewrite (hex_number k a) by done. rewrite bind_value. case_bool_decide; [done|]. cbn [negb]. by case_match.
  - rewrite !bind_value. eexists. split; [done|].
    assert (∀ c, is_digit_in 16 c = false → c ≠ c_underscore → c ∉ a ++ [c_underscore] ++ b) as Hno.
    { intros c Hc Hu. rewrite !elem_of_app, list_elem_of_singleton. intros [Hi|[Hi|Hi]]; [|done|];
        [by apply (hex_no_char k) in Hi|by apply (hex_no_char v) in Hi]. }
    split_and!; [by destruct a|by apply Hno|by apply Hno|]. intros path Hp. unfold cache_entry_data_for_file. rewrite Hp.
    replace (contains_char _ _) with true; cycle 1.
    { symmetry. apply contains_char_elem. rewrite !elem_of_app, list_elem_of_singleton. by right; left. }
    rewrite (split_view_char _ _ SplitKeepEmpty) by (by destruct a). cbn [app].
    rewrite split_on_app by (by apply (hex_no_char k)). rewrite split_on_absent by (by apply (hex_no_char v)).
    rewrite !bind_value. cbn [length Nat.eqb negb at_index lookup list_lookup must]. rewrite !bind_value.
    rewrite (hex_number k a), (hex_number v b), bind_value by done. case_bool_decide; [done|]. cbn [negb]. by case_match.
Qed.

(** A name without a dot is not one of the special parts. *)
Lemma name_without_dot name : c_dot ∉ name → plain name.
Proof. intros Hd. split; intros ->; apply Hd; by left. Qed.

(** C32: the file of a cache entry, and that of the data stored with it, is read back as the keys it was
    named for, in every directory and for all 64-bit keys. *)
Theorem cache_path_roundtrip `{FastFloatOk} (directory : LexicalPath) (k v : Z) (data : CacheEntryAssociatedData)
    (Hk : 0 ≤ k < 2 ^ 64) (Hv : 0 ≤ v < 2 ^ 64) :
  (∃ path, path_for_cache_entry directory k v = Returned path
    ∧ cache_entry_data_for_file path = Returned (Some (mk_cache_entry_data k v None)))
  ∧ (∃ path, path_for_cache_entry_associated_data directory k v data = Returned path
    ∧ cache_entry_data_for_file path = Returned (Some (mk_cache_entry_data k v (Some data)))).
Proof.
  destruct (cache_file_name_spec k v Hk Hv) as (name & En & Hne & Hslash & Hdot & Hread).
  unfold path_for_cache_entry, path_for_cache_entry_associated_data. rewrite En, !bind_value. split.
  - destruct (path_append_name directory name) as (p & -> & _ & Ht & He & _); [done|by apply name_without_dot|].
    rewrite split_name_plain in Ht, He by done. exists p. split; [done|]. rewrite (Hread p Ht), He. done.
  - destruct data. set (suffix := cache_entry_associated_data_suffix JavaScriptBytecode).
    assert (c_slash ∉ suffix ∧ c_dot ∉ suffix) as [Hs1 Hs2] by (split; apply (bool_decide_unpack _); vm_compute; exact I).
    assert (∀ c, c ∉ name → c ≠ c_dot → c ∉ suffix → c ∉ name ++ [c_dot] ++ suffix) as Hno.
    { intros c H1 H2 H3. rewrite !elem_of_app, list_elem_of_singleton. tauto. }
    destruct (path_append_name directory (name ++ [c_dot] ++ suffix)) as (p & -> & _ & Ht & He & _).
    { split; [by destruct name|]. by apply Hno. }
    { destruct name as [|x [|y [|z name]]]; [done|..]; split; done. }
    cbn [app] in Ht, He. rewrite split_name_extension in Ht, He by done.
    exists p. split; [done|]. rewrite (Hread p Ht), He. done.
Qed.

Lemma cache_path_roundtrip_witness :
  (0 ≤ 0xfeed < 2 ^ 64 ∧ 0 ≤ 7 < 2 ^ 64) ∧
  let _ := fast_float_example in
  let directory := mk_lexical_path [sv "cache"] (sv "/cache") (sv "/") (sv "cache") (sv "cache") [] in
  (∃ path, path_for_cache_entry directory 0xfeed 7 = Returned path
    ∧ cache_entry_data_for_file path = Returned (Some (mk_cache_entry_data 0xfeed 7 None)))
  ∧ (∃ path, path_for_cache_entry_associated_data directory 0xfeed 7 JavaScriptBytecode = Returned path
    ∧ cache_entry_data_for_file path = Returned (Some (mk_cache_entry_data 0xfeed 7 (Some JavaScriptBytecode)))).
Proof.
  split; [done|]. cbv zeta.
  apply (@cache_path_roundtrip fast_float_example fast_float_example_ok
    (mk_lexical_path [sv "cache"] (sv "/cache") (sv "/") (sv "cache") (sv "cache") []) 0xfeed 7 JavaScriptBytecode); done.
Defined.

(** ** Stored header fields *)
Lemma one_of_lowercase a b others :
  lowercase a = lowercase b → is_one_of_ignoring_ascii_case a others = is_one_of_ignoring_ascii_case b others.
Proof.
  intros E. unfold is_one_of_ignoring_ascii_case. induction others as [|o others IH]; [done|]. cbn [existsb]. rewrite IH. f_equal.
  apply eq_true_iff_eq. rewrite !equals_ignoring_ascii_case_lowercase. unfold lowercase in E. by rewrite E.
Qed.

Lemma exempted_from_storage_lowercase a b :
  lowercase a = lowercase b → is_header_exempted_from_storage a = is_header_exempted_from_storage b.
Proof. apply one_of_lowercase. Qed.

Lemma exempted_from_update_lowercase a b :
  lowercase a = lowercase b → is_header_exempted_from_update a = is_header_exempted_from_update b.
Proof.
  intros E. unfold is_header_exempted_from_update. rewrite (exempted_from_storage_lowercase a b E). f_equal.
  apply eq_true_iff_eq. rewrite !equals_ignoring_ascii_case_lowercase. unfold lowercase in E. by rewrite E.
Qed.

Section Stored.
Context (exempt : bytes → bool) (exempt_lowercase : ∀ a b, lowercase a = lowercase b → exempt a = exempt b).

(** The fields that are not exempt, appended. *)
Lemma values_of_appended stored headers n :
  values_of (foldl (λ stored h, if negb (exempt (header_name h)) then append stored h else stored) stored headers) n
  = values_of stored n ++ if exempt n then [] else values_of headers n.
Proof.
  revert stored. induction headers as [|h headers IH]; intros stored; cbn [foldl].
  { change (values_of [] n) with (@nil bytes). by destruct (exempt n); rewrite app_nil_r. }
  rewrite IH, (values_of_cons h headers). destruct (decide (lowercase (header_name h) = n)) as [E|E].
  - assert (exempt (header_name h) = exempt n) as Hex by (apply exempt_lowercase; by rewrite <-E, lowercase_idemp).
    rewrite Hex. destruct (exempt n); cbn [negb]; [done|]. rewrite values_of_append. unfold HeaderMap.append_values, update_values.
    rewrite bool_decide_eq_true_2 by done. subst n. by rewrite <-app_assoc.
  - rewrite (bool_decide_eq_false_2 (n = _)) by done. destruct (exempt (header_name h)); cbn [negb]; [done|].
    rewrite values_of_append. unfold HeaderMap.append_values, update_values. by rewrite bool_decide_eq_false_2.
Qed.

(** The fields of the names that are not exempt, deleted. *)
Lemma values_of_deleted stored headers n :
  values_of (foldl (λ stored h, if negb (exempt (header_name h)) then delete_ stored (header_name h) else stored) stored headers) n
  = if negb (exempt n) && negb (bool_decide (values_of headers n = [])) then [] else values_of stored n.
Proof.
  revert stored. induction headers as [|h headers IH]; intros stored; cbn [foldl].
  { change (values_of [] n) with (@nil bytes). by rewrite bool_decide_eq_true_2, andb_false_r. }
  rewrite IH, (values_of_cons h headers). destruct (decide (lowercase (header_name h) = n)) as [E|E].
  - assert (exempt (header_name h) = exempt n) as Hex by (apply exempt_lowercase; by rewrite <-E, lowercase_idemp).
    rewrite (bool_decide_eq_true_2 (n = _)) by done. rewrite Hex. destruct (exempt n); cbn [negb andb]; [done|].
    rewrite (bool_decide_eq_false_2 (_ :: _ = [])) by done. cbn [negb].
    rewrite values_of_delete. unfold HeaderMap.delete_values, update_values. rewrite (bool_decide_eq_true_2 (n = _)) by done. by destruct (negb (bool_decide _)).
  - rewrite (bool_decide_eq_false_2 (n = _)) by done. destruct (exempt (header_name h)); cbn [negb]; [done|].
    rewrite values_of_delete. unfold HeaderMap.delete_values, update_values. by rewrite (bool_decide_eq_false_2 (n = _)).
Qed.

End Stored.

(** A stored response has the fields of the response, but for the exempted ones. *)
Lemma store_fields_values headers n :
  values_of (store_header_and_trailer_fields [] headers) n = if is_header_exempted_from_storage n then [] else values_of headers n.
Proof. unfold store_header_and_trailer_fields. by rewrite (values_of_appended _ exempted_from_storage_lowercase). Qed.

Lemma foldl_pointwise {A B} (f g : A → B → A) a l : (∀ a b, f a b = g a b) → foldl f a l = foldl g a l.
Proof. intros H. revert a. induction l as [|b l IH]; intros a; [done|]. cbn. by rewrite H, IH. Qed.

(** [update_header_fields] replaces, in a stored response, the values of every field that the new
    response has and that is not exempted by those of the new response, in order, and keeps
    the values of all other fields. *)
Theorem update_fields_values (stored updated : HeaderList) (n : bytes) :
  values_of (update_header_fields stored updated) n
  = if negb (is_header_exempted_from_update n) && negb (bool_decide (values_of updated n = []))
    then values_of updated n else values_of stored n.
Proof.
  unfold update_header_fields.
  rewrite (foldl_pointwise _ (λ s h, if negb (is_header_exempted_from_update (header_name h)) then append s h else s) _ updated)
    by (intros l []; reflexivity).
  rewrite (values_of_appended _ exempted_from_update_lowercase), (values_of_deleted _ exempted_from_update_lowercase).
  destruct (is_header_exempted_from_update n); cbn [negb andb]; [by rewrite app_nil_r|].
  case_bool_decide as E; cbn [negb]; [by rewrite E, app_nil_r|done].
Qed.
