(* ===== verification/HttpCacheFreshness.v ===== *)
(** * The age and the freshness of a stored response

    The calculations of RFC 9111 in the saturating arithmetic of [AK::Duration]: they
    return on every header list and every time, with representable results. *)
From S2P Require Import Prelude CharacterTypes Externals Utf8 StringView Utf8View Format Ipv4 TextCodec QuickSort Time GenericLexer DateFormat DateFormatCorrect Http HttpHeader HttpHeaderList HttpCache HttpCacheDirectives HttpCacheCorrect.

(** ** Durations by their nanoseconds *)
Lemma duration_compare_ns a b :
  duration_valid a → duration_valid b →
  duration_lt a b = (duration_ns a <? duration_ns b) ∧ duration_le a b = (duration_ns a <=? duration_ns b)
  ∧ duration_gt a b = (duration_ns b <? duration_ns a).
Proof.
  intros [Ha1 Ha2] [Hb1 Hb2]. unfold duration_lt, duration_le, duration_gt, duration_compare, duration_ns.
  destruct (Z.ltb_spec (m_seconds b) (m_seconds a)), (Z.ltb_spec (m_seconds a) (m_seconds b)),
    (Z.ltb_spec (m_nanoseconds b) (m_nanoseconds a)), (Z.ltb_spec (m_nanoseconds a) (m_nanoseconds b));
    cbn; split_and!; lia.
Qed.

Lemma duration_larger_ns a b :
  duration_valid a → duration_valid b →
  duration_valid (duration_larger a b) ∧ duration_ns (duration_larger a b) = Z.max (duration_ns a) (duration_ns b).
Proof.
  intros Ha Hb. unfold duration_larger. destruct (duration_compare_ns a b Ha Hb) as (-> & _ & _).
  destruct (Z.ltb_spec (duration_ns a) (duration_ns b)); (split; [done|lia]).
Qed.

Lemma duration_zero_valid : duration_valid duration_zero.
Proof. done. Qed.

Lemma duration_max_valid : duration_valid duration_max.
Proof. done. Qed.

Lemma from_seconds_valid n : i64_min ≤ n ≤ i64_max → duration_valid (from_seconds n).
Proof. intros Hn. split; [done|cbn; lia]. Qed.

(** A calculation that returns a representable duration. *)
Definition gives_duration (m : outcome Duration) : Prop := ∃ d, m = Returned d ∧ duration_valid d.

Lemma gives_duration_intro d : duration_valid d → gives_duration (Returned d).
Proof. by exists d. Qed.

Lemma gives_add a b : duration_valid a → duration_valid b → gives_duration (duration_add a b).
Proof. intros Ha Hb. destruct (duration_add_saturates a b Ha Hb) as (c & ? & ? & _). by exists c. Qed.

Lemma gives_sub a b : duration_valid a → duration_valid b → gives_duration (duration_sub a b).
Proof. intros Ha Hb. destruct (duration_sub_saturates a b Ha Hb) as (c & ? & ? & _). by exists c. Qed.

#[export] Hint Resolve duration_zero_valid duration_max_valid from_seconds_valid gives_duration_intro gives_add gives_sub : ladybird.

Section Freshness.
Context `{FastFloatOk} `{FastFloatSignedOk} `{TimeZone}.

Lemma to_i64_number_range s n : to_i64_number s = Some n → i64_min ≤ n ≤ i64_max.
Proof.
  unfold to_i64_number, to_signed_number. destruct (from_chars_signed _ _ _ _) as [[v k]|] eqn:E; [|done].
  case_goal; [done|]. intros [= <-]. by apply from_chars_signed_range in E.
Qed.

(** The value of a directive as a duration. *)
Definition directive_duration (cache_control directive : bytes) (fallback : option Duration) : option Duration :=
  match find_directive directive (closed_parts Outside [] cache_control) with
  | Some value => if bool_decide (value = []) then fallback else from_seconds <$> to_i64_number value
  | None => None
  end.

Lemma extract_duration_spec cache_control directive fallback :
  directive ≠ [] → extract_cache_control_duration_directive cache_control directive fallback
  = Returned (directive_duration cache_control directive fallback).
Proof.
  intros Hd. unfold extract_cache_control_duration_directive, directive_duration. rewrite extract_directive_spec, bind_value by done.
  by destruct (find_directive _ _) as [value|]; [case_bool_decide|].
Qed.

Lemma directive_duration_valid cache_control directive fallback d :
  (∀ f, fallback = Some f → duration_valid f) → directive_duration cache_control directive fallback = Some d → duration_valid d.
Proof.
  intros Hf. unfold directive_duration. destruct (find_directive _ _) as [value|]; [|done]. case_bool_decide; [apply Hf|].
  destruct (to_i64_number value) as [n|] eqn:E; [|done]. intros [= <-]. eauto using to_i64_number_range with ladybird.
Qed.

Lemma has_directive_spec cache_control directive :
  directive ≠ [] → has_directive cache_control directive =
  Returned (match cache_control with
    | Some cc => bool_decide (is_Some (find_directive directive (closed_parts Outside [] cc))) | None => false end).
Proof.
  intros Hd. destruct cache_control as [cc|]; [|done]. unfold has_directive, contains_cache_control_directive.
  by rewrite extract_directive_spec.
Qed.

Lemma parse_http_date_returns date : ∃ r, parse_http_date date = Returned r ∧ ∀ t, r = Some t → duration_valid t.
Proof.
  destruct date as [date|]; [|by exists None]. unfold parse_http_date.
  destruct (parse_unix_time_returns http_date_format date true) as [r Hr]. exists r. split; [done|].
  intros t ->. by eapply http_date_valid.
Qed.

(** ** The age *)

(** The [Age] header in seconds; 0 if there is none that is a number. *)
Definition age_value (headers : HeaderList) : Duration :=
  match get headers (sv "Age") with
  | Some age => match to_i64_number age with Some seconds => from_seconds seconds | None => duration_zero end
  | None => duration_zero
  end.

Lemma age_value_valid headers : duration_valid (age_value headers).
Proof.
  unfold age_value. destruct (get headers _) as [age|]; [|done]. destruct (to_i64_number age) as [n|] eqn:E; [|done].
  eauto using to_i64_number_range with ladybird.
Qed.

Lemma calculate_age_spec headers request_time response_time offset now :
  duration_valid request_time → duration_valid response_time → duration_valid offset → duration_valid now →
  let ns := duration_ns in
  let now_ns := duration_clamp (ns now + ns offset) in
  ∃ date age, parse_http_date (get headers (sv "Date")) = Returned date
    ∧ calculate_age headers request_time response_time offset now = Returned age ∧ duration_valid age
    ∧ ns age = duration_clamp (
        Z.max (Z.max 0 (duration_clamp (ns response_time - (match date with Some d => ns d | None => now_ns end))))
              (duration_clamp (ns (age_value headers) + duration_clamp (ns response_time - ns request_time)))
        + duration_clamp (now_ns - ns response_time)).
Proof.
  intros Hreq Hresp Hoff Hnow. cbv zeta. destruct (parse_http_date_returns (get headers (sv "Date"))) as (date & Hd & Hdv). exists date.
  unfold calculate_age. change (match get headers (sv "Age") with Some _ => _ | None => _ end) with (age_value headers).
  pose proof (age_value_valid headers) as Hage. set (age_v := age_value headers) in *. clearbody age_v.
  destruct (duration_add_saturates now offset) as (now' & -> & Vn & <-); [done..|]. rewrite Hd, !bind_value. cbv zeta.
  assert (duration_valid (default now' date)) as Vd by (destruct date; cbn; auto).
  assert (match date with Some d => duration_ns d | None => duration_ns now' end = duration_ns (default now' date)) as -> by (by destruct date).
  destruct (duration_sub_saturates response_time (default now' date)) as (since & -> & Vs & <-); [done..|]. rewrite bind_value.
  destruct (duration_larger_ns duration_zero since duration_zero_valid Vs) as [Va Ea]. change (duration_ns duration_zero) with 0 in Ea. rewrite <-Ea.
  destruct (duration_sub_saturates response_time request_time) as (delay & -> & Vdl & <-); [done..|]. rewrite bind_value.
  destruct (duration_add_saturates age_v delay) as (corrected & -> & Vc & <-); [done..|]. rewrite bind_value.
  destruct (duration_larger_ns _ corrected Va Vc) as [Vi Ei]. rewrite <-Ei.
  destruct (duration_sub_saturates now' response_time) as (resident & -> & Vr & <-); [done..|]. rewrite bind_value.
  destruct (duration_add_saturates _ resident Vi Vr) as (age & -> & Vage & <-). by exists age.
Qed.

Lemma calculate_age_valid headers request_time response_time offset now :
  duration_valid request_time → duration_valid response_time → duration_valid offset → duration_valid now →
  gives_duration (calculate_age headers request_time response_time offset now).
Proof.
  intros Hq Hp Ho Hn. destruct (calculate_age_spec headers request_time response_time offset now Hq Hp Ho Hn) as (date & age & _ & Ha & Va & _).
  by exists age.
Qed.

(** C33: the age of a stored response is that of RFC 9111, section 4.2.3, in saturating arithmetic:
    the larger of the apparent age (not below zero) and of the [Age] header plus the
    response delay, plus the time since the response; a missing or malformed [Date] is now.
    The calculation returns for all headers and times. *)
Theorem calculate_age_correct (headers : HeaderList) (request_time response_time : UnixDateTime) (offset now : Duration)
    (Hreq : duration_valid request_time) (Hresp : duration_valid response_time)
    (Hoff : duration_valid offset) (Hnow : duration_valid now) :
  let ns := duration_ns in
  let now_ns := duration_clamp (ns now + ns offset) in
  ∃ date age, parse_http_date (get headers (sv "Date")) = Returned date
    ∧ calculate_age headers request_time response_time offset now = Returned age ∧ duration_valid age
    ∧ ns age = duration_clamp (
        Z.max (Z.max 0 (duration_clamp (ns response_time - (match date with Some d => ns d | None => now_ns end))))
              (duration_clamp (ns (age_value headers) + duration_clamp (ns response_time - ns request_time)))
        + duration_clamp (now_ns - ns response_time)).
Proof. by apply calculate_age_spec. Qed.

(** ** The freshness lifetime *)
Lemma heuristic_lifetime_bound headers offset now :
  duration_valid offset → duration_valid now →
  ∃ d, calculate_heuristic_freshness_lifetime headers offset now = Returned d ∧ duration_valid d ∧ m_nanoseconds d = 0
    ∧ 0 ≤ m_seconds d
    ∧ (∀ t, parse_http_date (get headers (sv "Last-Modified")) = Returned (Some t) →
         10 * duration_ns d ≤ Z.max 0 (duration_clamp (duration_clamp (duration_ns now + duration_ns offset) - duration_ns t)) + 1000000000).
Proof.
  intros Ho Hn. unfold calculate_heuristic_freshness_lifetime.
  destruct (parse_http_date_returns (get headers (sv "Last-Modified"))) as (r & -> & Hr). rewrite bind_value.
  destruct r as [t|]; cycle 1. { exists duration_zero. split_and!; try done. }
  specialize (Hr t eq_refl). destruct (duration_add_saturates now offset Hn Ho) as (now' & -> & Vn & <-). rewrite bind_value.
  destruct (duration_sub_saturates now' t Vn Hr) as (since & -> & Vs & Es). rewrite bind_value.
  destruct (to_seconds_value since Vs) as (n & -> & Hns & _). rewrite bind_value. case_goal.
  { exists duration_zero. split_and!; try done. intros t' [= <-]. rewrite <-Es. change (duration_ns duration_zero) with 0. lia. }
  exists (from_seconds (Z.max 0 (Z.quot n 10))). bool_to_prop.
  assert (0 ≤ Z.quot n 10 ∧ 10 * Z.quot n 10 ≤ n) as [Hq0 Hq] by div_lia. unfold duration_valid in Vs.
  split_and!; [done| |done|cbn; lia|].
  - apply from_seconds_valid. unfold i64_min, i64_max in *. div_lia.
  - intros t' [= <-]. rewrite <-Es. unfold duration_ns in *. cbn. lia.
Qed.

Lemma freshness_lifetime_valid status headers offset now :
  duration_valid offset → duration_valid now → gives_duration (calculate_freshness_lifetime status headers offset now).
Proof.
  intros Ho Hn. unfold calculate_freshness_lifetime. set (cc := get headers (sv "Cache-Control")).
  assert (∃ r, match cc with Some cc => extract_cache_control_duration_directive cc (sv "max-age") None | None => Returned None end
    = Returned r ∧ ∀ d, r = Some d → duration_valid d) as (r & -> & Hr).
  { destruct cc as [c|]; [|by exists None]. rewrite extract_duration_spec by done. eexists. split; [done|].
    intros d. by apply directive_duration_valid. }
  rewrite bind_value. destruct r as [d|]; [eauto with ladybird|].
  destruct (parse_http_date_returns (get headers (sv "Expires"))) as (e & -> & He). rewrite bind_value. destruct e as [e|].
  - destruct (parse_http_date_returns (get headers (sv "Date"))) as (d & -> & Hd). rewrite bind_value.
    assert (gives_duration (match d with Some date => Returned date | None => duration_add now offset end)) as (d' & -> & Vd).
    { destruct d; eauto with ladybird. }
    rewrite bind_value. eauto with ladybird.
  - assert (∃ b, (if is_heuristically_cacheable_status status then Returned true else has_directive cc (sv "public")) = Returned b) as [b ->].
    { case_goal; [eauto|]. rewrite has_directive_spec by done. eauto. }
    rewrite bind_value. destruct b; [|eauto with ladybird].
    destruct (heuristic_lifetime_bound headers offset now Ho Hn) as (d & -> & Vd & _). eauto with ladybird.
Qed.

(** ** The decision *)

(** The directives of a request that hold for a stored response. *)
Definition request_duration (request_headers : HeaderList) (directive : bytes) (fallback : option Duration) : option Duration :=
  match get request_headers (sv "Cache-Control") with
  | Some cc => directive_duration cc directive fallback
  | None => None
  end.

Lemma request_refuses_spec cc life age :
  duration_valid life → duration_valid age →
  request_refuses cc life age = Returned (
    match directive_duration cc (sv "max-age") None with Some m => duration_ns m <=? duration_ns age | None => false end
    || match directive_duration cc (sv "min-fresh") None with
       | Some m => duration_ns life <? duration_clamp (duration_ns age + duration_ns m) | None => false end).
Proof.
  intros Hl Ha. unfold request_refuses. rewrite !extract_duration_spec, !bind_value by done.
  destruct (directive_duration cc (sv "max-age") None) as [m|] eqn:Em.
  - assert (duration_valid m) as Vm by (by eapply (directive_duration_valid cc _ None)).
    destruct (duration_compare_ns m age Vm Ha) as (_ & -> & _). destruct (duration_ns m <=? duration_ns age); [done|]. cbn [orb].
    destruct (directive_duration cc (sv "min-fresh") None) as [f|] eqn:Ef; [|done].
    assert (duration_valid f) as Vf by (by eapply (directive_duration_valid cc _ None)).
    destruct (duration_add_saturates age f Ha Vf) as (n & -> & Vn & <-). rewrite bind_value.
    by destruct (duration_compare_ns life n Hl Vn) as (-> & _ & _).
  - cbn [orb]. destruct (directive_duration cc (sv "min-fresh") None) as [f|] eqn:Ef; [|done].
    assert (duration_valid f) as Vf by (by eapply (directive_duration_valid cc _ None)).
    destruct (duration_add_saturates age f Ha Vf) as (n & -> & Vn & <-). rewrite bind_value.
    by destruct (duration_compare_ns life n Hl Vn) as (-> & _ & _).
Qed.

Lemma request_accepts_stale_spec cc life age :
  duration_valid life → duration_valid age →
  request_accepts_stale cc life age = Returned (
    match directive_duration cc (sv "max-stale") (Some duration_max) with
    | Some m => duration_ns age <? duration_clamp (duration_ns life + duration_ns m) | None => false end).
Proof.
  intros Hl Ha. unfold request_accepts_stale. rewrite extract_duration_spec, bind_value by done.
  destruct (directive_duration cc (sv "max-stale") (Some duration_max)) as [m|] eqn:Em; [|done].
  assert (duration_valid m) as Vm. { eapply directive_duration_valid; [|exact Em]. by intros f [= <-]. }
  destruct (duration_add_saturates life m Hl Vm) as (n & -> & Vn & <-). rewrite bind_value.
  by destruct (duration_compare_ns n age Vn Ha) as (_ & _ & ->).
Qed.

Lemma stale_status_returns headers cc life age :
  duration_valid life → duration_valid age →
  ∃ status, stale_status headers cc life age = Returned status ∧ status ≠ Fresh.
Proof.
  intros Hl Ha. assert (∀ t, t ≠ Fresh → revalidation_status headers t ≠ Fresh) as Hr.
  { intros t Ht. unfold revalidation_status. by case_match. }
  unfold stale_status. destruct cc as [cc|]; [|eexists; split; [done|by apply Hr]].
  assert (gives_duration (calculate_stale_while_revalidate_lifetime headers life)) as (d & -> & Vd).
  { unfold calculate_stale_while_revalidate_lifetime. destruct (get headers _) as [c|]; [|eauto with ladybird].
    rewrite extract_duration_spec, bind_value by done. destruct (directive_duration c _ None) as [m|] eqn:Em; [|eauto with ladybird].
    apply gives_add; [done|]. by eapply (directive_duration_valid c _ None). }
  rewrite bind_value. case_goal; [eexists; split; [done|by apply Hr]|].
  unfold contains_cache_control_directive. rewrite extract_directive_spec, !bind_value by done.
  eexists. split; [done|]. case_goal; [by apply Hr|done].
Qed.

(** The part of the decision that depends on the durations. *)
Lemma request_decision (P Q : Prop) cc life age st :
  P → Q → duration_valid life → duration_valid age → st ≠ Fresh →
  let max_age := directive_duration cc (sv "max-age") None in
  let min_fresh := directive_duration cc (sv "min-fresh") None in
  let max_stale := directive_duration cc (sv "max-stale") (Some duration_max) in
  ∃ status,
    (if match max_age with Some m => duration_ns m <=? duration_ns age | None => false end
        || match min_fresh with Some m => duration_ns life <? duration_clamp (duration_ns age + duration_ns m) | None => false end
     then Returned Expired
     else if duration_ns age <? duration_ns life then Returned Fresh
     else accepts_stale ← request_accepts_stale cc life age;
          if accepts_stale : bool then Returned Fresh else Returned st) = Returned status
    ∧ (status = Fresh ↔ P ∧ Q
        ∧ (∀ m, max_age = Some m → duration_ns age < duration_ns m)
        ∧ (∀ m, min_fresh = Some m → duration_clamp (duration_ns age + duration_ns m) ≤ duration_ns life)
        ∧ (duration_ns age < duration_ns life
           ∨ ∃ m, max_stale = Some m ∧ duration_ns age < duration_clamp (duration_ns life + duration_ns m))).
Proof.
  intros HP HQ Hl Ha Hst max_age min_fresh max_stale. rewrite request_accepts_stale_spec by done. fold max_stale.
  destruct (match max_age with Some m => duration_ns m <=? duration_ns age | None => false end) eqn:E1; cbn [orb].
  { eexists. split; [done|]. split; [done|]. intros (_ & _ & H1' & _). destruct max_age as [m|]; [|done]. specialize (H1' m eq_refl). lia. }
  destruct (match min_fresh with Some m => _ | None => false end) eqn:E2.
  { eexists. split; [done|]. split; [done|]. intros (_ & _ & _ & H2' & _). destruct min_fresh as [m|]; [|done]. specialize (H2' m eq_refl). lia. }
  assert (∀ m, max_age = Some m → duration_ns age < duration_ns m) as G1 by (intros m ->; lia).
  assert (∀ m, min_fresh = Some m → duration_clamp (duration_ns age + duration_ns m) ≤ duration_ns life) as G2 by (intros m ->; lia).
  destruct (Z.ltb_spec (duration_ns age) (duration_ns life)) as [Hy|Hy].
  { eexists. split; [done|]. split; [|done]. intros _. split_and!; try done. by left. }
  rewrite bind_value. destruct max_stale as [m|]; [destruct (Z.ltb_spec (duration_ns age) (duration_clamp (duration_ns life + duration_ns m)))|];
    (eexists; split; [done|]).
  - split; [|done]. intros _. split_and!; try done. right. by exists m.
  - split; [done|]. intros (_ & _ & _ & _ & [?|(m' & [= <-] & ?)]); lia.
  - split; [done|]. intros (_ & _ & _ & _ & [?|(m' & ? & ?)]); [lia|done].
Qed.

Lemma fresh_status_spec request_headers response_headers life age :
  duration_valid life → duration_valid age →
  ∃ status, cache_lifetime_status request_headers response_headers life age = Returned status
  ∧ (status = Fresh ↔
      (∀ cc, get response_headers (sv "Cache-Control") = Some cc →
         find_directive (sv "no-cache") (closed_parts Outside [] cc) = None)
      ∧ (∀ cc, get request_headers (sv "Cache-Control") = Some cc → occurs_ignoring_case cc (sv "no-cache") = false)
      ∧ (∀ m, request_duration request_headers (sv "max-age") None = Some m → duration_ns age < duration_ns m)
      ∧ (∀ m, request_duration request_headers (sv "min-fresh") None = Some m →
           duration_clamp (duration_ns age + duration_ns m) ≤ duration_ns life)
      ∧ (duration_ns age < duration_ns life
         ∨ ∃ m, request_duration request_headers (sv "max-stale") (Some duration_max) = Some m
             ∧ duration_ns age < duration_clamp (duration_ns life + duration_ns m))).
Proof.
  intros Hlife Hage. unfold cache_lifetime_status, request_duration. rewrite has_directive_spec, bind_value by done.
  assert (∀ t, t ≠ Fresh → revalidation_status response_headers t ≠ Fresh) as Hrev.
  { intros t Ht. unfold revalidation_status. by case_match. }
  set (resp := get response_headers (sv "Cache-Control")). set (req := get request_headers (sv "Cache-Control")).
  destruct (match resp with Some cc => _ | None => false end) eqn:Eresp.
  { eexists. split; [done|]. split; [intros E; by apply Hrev in E|]. intros [Hno _]. destruct resp as [cc|]; [|done].
    apply bool_decide_eq_true_1 in Eresp. rewrite (Hno cc eq_refl) in Eresp. by destruct Eresp. }
  assert (∀ cc, resp = Some cc → find_directive (sv "no-cache") (closed_parts Outside [] cc) = None) as Hresp.
  { intros cc ->. apply bool_decide_eq_false_1 in Eresp. by apply eq_None_not_Some. }
  destruct (match req with Some cc => contains_ignoring_case cc (sv "no-cache") | None => false end) eqn:Ereq.
  { eexists. split; [done|]. split; [intros E; by apply Hrev in E|]. intros (_ & Hno & _). destruct req as [cc|]; [|done].
    rewrite contains_no_directive in Ereq by (by right). by rewrite (Hno cc eq_refl) in Ereq. }
  assert (∀ cc, req = Some cc → occurs_ignoring_case cc (sv "no-cache") = false) as Hreq.
  { intros cc ->. by rewrite contains_no_directive in Ereq by (by right). }
  destruct (duration_compare_ns life age Hlife Hage) as (_ & _ & Hgt).
  destruct (stale_status_returns response_headers resp life age Hlife Hage) as (st & Est & Hst). rewrite Hgt, Est.
  destruct req as [cc|]; cycle 1.
  { rewrite !bind_value. destruct (Z.ltb_spec (duration_ns age) (duration_ns life)); (eexists; split; [done|]).
    - split; [|done]. intros _. split_and!; try done. by left.
    - split; [done|]. intros (_ & _ & _ & _ & [?|(m & ? & _)]); [lia|done]. }
  rewrite request_refuses_spec, bind_value by done.
  by apply request_decision.
Qed.

Lemma lifetime_status_returns request_headers response_headers life age :
  duration_valid life → duration_valid age → returns (cache_lifetime_status request_headers response_headers life age).
Proof. intros Hl Ha. destruct (fresh_status_spec request_headers response_headers life age Hl Ha) as (status & ? & _). by exists status. Qed.

(** What the directives ask of a response of the given age and lifetime.  The comparison of
    the age with [max-age] and with the end of [max-stale] is a parameter: RFC 9111 counts
    the age that equals the limit as within it ("less than or equal to", "no more than"). *)
Definition directives_allow (within : Z → Z → Prop) (request_headers response_headers : HeaderList) (life age : Duration) : Prop :=
  (∀ cc, get response_headers (sv "Cache-Control") = Some cc → find_directive (sv "no-cache") (closed_parts Outside [] cc) = None)
  ∧ (∀ cc, get request_headers (sv "Cache-Control") = Some cc → occurs_ignoring_case cc (sv "no-cache") = false)
  ∧ (∀ m, request_duration request_headers (sv "max-age") None = Some m → within (duration_ns age) (duration_ns m))
  ∧ (∀ m, request_duration request_headers (sv "min-fresh") None = Some m →
       duration_clamp (duration_ns age + duration_ns m) ≤ duration_ns life)
  ∧ (duration_ns age < duration_ns life
     ∨ ∃ m, request_duration request_headers (sv "max-stale") (Some duration_max) = Some m
         ∧ within (duration_ns age) (duration_clamp (duration_ns life + duration_ns m))).

Lemma directives_allow_mono (within within' : Z → Z → Prop) request_headers response_headers life age :
  (∀ a b, within a b → within' a b) →
  directives_allow within request_headers response_headers life age →
  directives_allow within' request_headers response_headers life age.
Proof. intros Hw (G1 & G2 & G3 & G4 & G5). split_and!; [done|done|naive_solver|done|]. destruct G5 as [?|(m & ? & ?)]; [by left|right; eauto]. Qed.


End Freshness.

(** ** Examples *)
Section Examples.
#[local] Existing Instances fast_float_example fast_float_example_ok fast_float_signed_example fast_float_signed_example_ok utc.

Definition example_response : HeaderList :=
  [mk_header (sv "Date") (sv "Sun, 06 Nov 1994 08:49:37 GMT"); mk_header (sv "Cache-Control") (sv "max-age=60"); mk_header (sv "Age") (sv "5")].

Lemma calculate_age_correct_witness :
  let t n := mk_duration (784111777 + n) 0 in
  (duration_valid (t 0) ∧ duration_valid (t 1) ∧ duration_valid duration_zero ∧ duration_valid (t 11)) ∧
  ∃ date age, parse_http_date (get example_response (sv "Date")) = Returned date
    ∧ calculate_age example_response (t 0) (t 1) duration_zero (t 11) = Returned age ∧ duration_valid age
    ∧ duration_ns age = 16 * 1000000000.
Proof.
  cbv zeta. split; [by repeat split|].
  destruct (calculate_age_correct example_response (mk_duration (784111777 + 0) 0) (mk_duration (784111777 + 1) 0) duration_zero
    (mk_duration (784111777 + 11) 0)) as (date & age & Hd & Ha & Va & Ens); [by repeat split..|].
  exists date, age. split; [done|]. split; [done|]. split; [done|]. rewrite Ens.
  assert (date = Some (from_seconds 784111777)) as -> by (vm_compute in Hd; by injection Hd).
  assert (age_value example_response = from_seconds 5) as -> by (vm_compute; reflexivity). vm_compute. reflexivity.
Defined.


(** At the age of the request's [max-age], and stale by exactly [max-stale], a response is not
    fresh: the two comparisons leave out the equality that the directives include. *)
Example max_age_excludes_equality :
  cache_lifetime_status [mk_header (sv "Cache-Control") (sv "max-age=16")] example_response (from_seconds 60) (from_seconds 16) = Returned Expired
  ∧ cache_lifetime_status [mk_header (sv "Cache-Control") (sv "max-stale=5")] example_response (from_seconds 11) (from_seconds 16) = Returned Expired.
Proof. vm_compute. done. Qed.

End Examples.
