(* ===== verification/MemoryCache.v ===== *)
(** * LibHTTP/Cache/MemoryCache.cpp: the memory cache

    Two hash maps from cache keys to vectors of entries: the entries whose body is still
    to come and the complete ones.  The operations are those of the source on the
    hash maps of AK (HashMap.v); [UnixDateTime::now()] and the values that
    [for_each_vary_header] reads before they are assigned (HttpCache.v) are
    arguments.  The abstract cache is two finite maps. *)
From stdpp Require Import gmap.
From S2P Require Import Prelude CharacterTypes Externals Utf8 StringView Utf8View Format Ipv4 Host Url TextCodec QuickSort Time GenericLexer DateFormat DateFormatCorrect Http HttpHeader HttpHeaderList HashFunctions HashTable HashTableCorrect HashMap HttpCache HttpCacheDirectives HttpCacheCorrect HttpCacheFreshness.

(** [IdentityHashTraits<u64>] *)
#[global] Instance u64_identity_traits : KeyTraits Z := {
  key_hash value := wrap32 (Z.lxor value (Z.shiftr value 32));
  key_equals a b := bool_decide (a = b);
  key_may_have_slow_equality_check := false;
}.

#[global] Instance u64_identity_traits_ok : KeyTraitsOk Z.
Proof. split; [done|]. intros a. cbn. apply Z.mod_pos_bound. lia. Qed.

Record CacheEntry := mk_cached {
  entry_vary_key : Z;
  entry_status_code : Z;
  entry_reason_phrase : bytes;
  entry_request_headers : HeaderList;
  entry_response_headers : HeaderList;
  entry_response_body : bytes;
  entry_request_time : UnixDateTime;
  entry_response_time : UnixDateTime;
}.

Definition with_response_body (e : CacheEntry) (body : bytes) : CacheEntry :=
  mk_cached (entry_vary_key e) (entry_status_code e) (entry_reason_phrase e) (entry_request_headers e)
    (entry_response_headers e) body (entry_request_time e) (entry_response_time e).

Notation CacheEntries := (HashMap Z (list CacheEntry)).

Record MemoryCache := mk_memory_cache { m_pending_entries : CacheEntries; m_complete_entries : CacheEntries }.

Definition memory_cache_create : MemoryCache := mk_memory_cache empty_table empty_table.

Module MemoryCacheOps.
Section Operations.
Context `{FastFloat} `{FastFloatSigned} `{TimeZone} `{Sha1}.

(** [find_value] with the predicate of [open_entry]. *)
Fixpoint find_matching (entries : list CacheEntry) (request_headers : HeaderList) (indeterminate : nat → nat → bool)
    : outcome (option CacheEntry) :=
  match entries with
  | [] => Returned None
  | entry :: entries =>
      vary_key ← create_vary_key request_headers (entry_response_headers entry) (indeterminate 0%nat);
      if vary_key =? entry_vary_key entry then Returned (Some entry)
      else find_matching entries request_headers (indeterminate ∘ S)
  end.

(** [now_freshness] and [now_age] are the two readings of the clock. *)
Definition open_entry (this : MemoryCache) (url : URL) (method : bytes) (request_headers : HeaderList) (cache_mode : CacheMode)
    (indeterminate : nat → nat → bool) (now_freshness now_age : UnixDateTime) : outcome (MemoryCache * option CacheEntry) :=
  if bool_decide (cache_mode = Reload) || bool_decide (cache_mode = NoCache) then Returned (this, None)
  else if negb (is_cacheable_request method request_headers) then Returned (this, None)
  else
    serialized_url ← serialize_url_for_cache_storage url;
    cache_key ← create_cache_key serialized_url method None;
    cache_entries ← map_get (m_complete_entries this) cache_key;
    match cache_entries with
    | None => Returned (this, None)
    | Some cache_entries =>
        cache_entry ← find_matching cache_entries request_headers indeterminate;
        match cache_entry with
        | None => Returned (this, None)
        | Some cache_entry =>
            freshness_lifetime ← calculate_freshness_lifetime (entry_status_code cache_entry)
              (entry_response_headers cache_entry) duration_zero now_freshness;
            current_age ← calculate_age (entry_response_headers cache_entry) (entry_request_time cache_entry)
              (entry_response_time cache_entry) duration_zero now_age;
            status ← cache_lifetime_status request_headers (entry_response_headers cache_entry) freshness_lifetime current_age;
            match status with
            | Fresh => Returned (this, Some cache_entry)
            | Expired | MustRevalidate | StaleWhileRevalidate =>
                if cache_mode_permits_stale_responses cache_mode then Returned (this, Some cache_entry)
                else
                  '(entries, _) ← map_remove (m_complete_entries this) cache_key;
                  Returned (mk_memory_cache (m_pending_entries this) entries, None)
            end
        end
    end.

(** [map.ensure(cache_key).append(cache_entry)] *)
Definition ensure_append (entries : CacheEntries) (cache_key : Z) (cache_entry : CacheEntry) : outcome CacheEntries :=
  '(entries, _) ← map_ensure entries cache_key [] Keep;
  map_modify entries cache_key (λ l, l ++ [cache_entry]).

Definition create_entry (this : MemoryCache) (url : URL) (method : bytes) (request_headers : HeaderList)
    (request_time : UnixDateTime) (status_code : Z) (reason_phrase : bytes) (response_headers : HeaderList)
    (indeterminate1 indeterminate2 : nat → bool) (now : UnixDateTime) : outcome MemoryCache :=
  if negb (is_cacheable_request method request_headers) then Returned this
  else
    cacheable ← is_cacheable_response status_code response_headers indeterminate1;
    if negb cacheable then Returned this
    else
      serialized_url ← serialize_url_for_cache_storage url;
      cache_key ← create_cache_key serialized_url method None;
      vary_key ← create_vary_key request_headers response_headers indeterminate2;
      let request_headers_copy := store_header_and_trailer_fields [] request_headers in
      let response_headers_copy := store_header_and_trailer_fields [] response_headers in
      let cache_entry := mk_cached vary_key status_code reason_phrase request_headers_copy response_headers_copy []
        request_time now in
      entries ← ensure_append (m_pending_entries this) cache_key cache_entry;
      Returned (mk_memory_cache entries (m_complete_entries this)).

(** [find_first_index_if] *)
Fixpoint find_vary_key (entries : list CacheEntry) (vary_key : Z) : option nat :=
  match entries with
  | [] => None
  | entry :: entries => if vary_key =? entry_vary_key entry then Some 0%nat else S <$> find_vary_key entries vary_key
  end.

Definition finalize_entry (this : MemoryCache) (url : URL) (method : bytes) (request_headers : HeaderList)
    (status_code : Z) (response_headers : HeaderList) (response_body : bytes)
    (indeterminate1 indeterminate2 : nat → bool) : outcome MemoryCache :=
  if negb (is_cacheable_request method request_headers) then Returned this
  else
    cacheable ← is_cacheable_response status_code response_headers indeterminate1;
    if negb cacheable then Returned this
    else
      serialized_url ← serialize_url_for_cache_storage url;
      cache_key ← create_cache_key serialized_url method None;
      vary_key ← create_vary_key request_headers response_headers indeterminate2;
      cache_entries ← map_get (m_pending_entries this) cache_key;
      match cache_entries with
      | None => Returned this
      | Some cache_entries =>
          match find_vary_key cache_entries vary_key with
          | None => Returned this
          | Some index =>
              cache_entry ← at_index cache_entries index;
              pending ← map_modify (m_pending_entries this) cache_key (delete index);
              let cache_entry := with_response_body cache_entry response_body in
              pending ←
                (if bool_decide (delete index cache_entries = []) then
                   '(pending, _) ← map_remove pending cache_key; Returned pending
                 else Returned pending);
              complete ← ensure_append (m_complete_entries this) cache_key cache_entry;
              Returned (mk_memory_cache pending complete)
          end
      end.

End Operations.
End MemoryCacheOps.
Export MemoryCacheOps.
