(* ===== verification/MemoryCacheCorrect.v ===== *)
(** * The memory cache over a history of operations

    The hash maps stand for finite maps from cache keys to lists of entries.  A history
    is a sequence of operations from the empty cache; the invariant says where every
    entry comes from: its headers from a request that was created under the same cache
    key, its body from one that was finalized under the same cache key and vary key. *)
From stdpp Require Import gmap.
From S2P Require Import Prelude CharacterTypes Externals Utf8 StringView Utf8View Format Ipv4 Host Url UrlWellFormed UrlSerializer TextCodec QuickSort Time GenericLexer DateFormat DateFormatCorrect Http HttpHeader HttpHeaderList HashFunctions HashTable HashTableCorrect HashMap HttpCache HttpCacheDirectives HttpCacheCorrect HttpCacheFreshness MemoryCache.

Notation map_wf := (hash_table_wf (T := Entry Z (list CacheEntry)) (K := Z)).

Definition cache_wf (c : MemoryCache) : Prop := map_wf (m_pending_entries c) ∧ map_wf (m_complete_entries c).
Definition pending (c : MemoryCache) : gmap Z (list CacheEntry) := contents (m_pending_entries c).
Definition complete (c : MemoryCache) : gmap Z (list CacheEntry) := contents (m_complete_entries c).

Lemma ensure_append_spec m k e :
  map_wf m → ∃ m', ensure_append m k e = Returned m' ∧ map_wf m'
    ∧ contents m' = <[k := default [] (contents m !! k) ++ [e]]> (contents m).
Proof.
  intros Hwf. unfold ensure_append. destruct (map_ensure_spec m k [] Hwf) as (m1 & -> & Hwf1 & Hc1). rewrite bind_value.
  destruct (map_modify_spec m1 k (λ l, l ++ [e]) Hwf1) as (m2 & -> & Hwf2 & Hc2). exists m2. split_and!; [done..|].
  rewrite Hc2, Hc1. apply map_eq. intros j. destruct (decide (j = k)) as [->|Hne].
  - by rewrite lookup_alter_eq, !lookup_insert_eq.
  - by rewrite lookup_alter_ne, !lookup_insert_ne by done.
Qed.

(** ** What [Vary] nominates *)
Definition value_parts (value : bytes) : list bytes :=
  map normalize_header_value (if bool_decide (value = []) then [] else filter (λ part, part ≠ []) (split_on c_comma value)).

Lemma split_value_parts value :
  ∃ parts, split_view value [c_comma] SplitNothing = Returned parts ∧ value_parts value = map normalize_header_value parts.
Proof.
  unfold value_parts. case_bool_decide as E; [subst; by exists []|]. eexists. split; [|done].
  by rewrite (split_view_char _ _ SplitNothing E).
Qed.

(** The names, in order. *)
Definition vary_names (headers : HeaderList) : list bytes := flat_map value_parts (values_of headers (sv "vary")).

Lemma vary_parts_subset parts breaks result :
  ∀ h, h ∈ (vary_parts parts breaks result).1 → h ∈ map normalize_header_value parts.
Proof.
  revert result. induction parts as [|p parts IH]; intros result h; cbn [vary_parts map]; [done|].
  destruct (breaks _); cbn [fst].
  - rewrite list_elem_of_singleton. intros ->. by left.
  - specialize (IH false h). destruct (vary_parts parts breaks false) as [hs r]. cbn [fst] in *. rewrite !elem_of_cons. intros [->|Hin]; auto.
Qed.

Lemma vary_parts_all parts result :
  vary_parts parts (λ _, false) result = (map normalize_header_value parts, if bool_decide (parts = []) then result else false).
Proof.
  revert result. induction parts as [|p parts IH]; intros result; cbn [vary_parts map]; [done|].
  rewrite IH. by case_bool_decide.
Qed.

Lemma vary_name_cons header headers :
  vary_names (header :: headers)
  = if has_name (sv "Vary") header then value_parts (header_value header) ++ vary_names headers else vary_names headers.
Proof.
  unfold vary_names. rewrite values_of_cons, has_name_lowercase. change (lowercase (sv "Vary")) with (sv "vary").
  destruct (decide (lowercase (header_name header) = sv "vary")) as [E|E].
  - by rewrite !bool_decide_eq_true_2.
  - by rewrite !bool_decide_eq_false_2.
Qed.

(** The callback sees names of the list only; every one when no value is without parts. *)
Lemma for_each_vary_subset headers indeterminate breaks :
  ∃ visited, for_each_vary_header headers indeterminate breaks = Returned visited ∧ ∀ h, h ∈ visited → h ∈ vary_names headers.
Proof.
  revert indeterminate. induction headers as [|header headers IH]; intros indeterminate; cbn [for_each_vary_header]; [by exists []|].
  rewrite vary_name_cons. destruct (has_name (sv "Vary") header); cbn [negb]; [|eauto].
  destruct (split_value_parts (header_value header)) as (parts & -> & Hp). rewrite bind_value.
  pose proof (vary_parts_subset parts breaks (indeterminate 0%nat)) as Hs. destruct (vary_parts parts breaks (indeterminate 0%nat)) as [hs r]. cbn [fst] in Hs.
  rewrite Hp. destruct r.
  - eexists. split; [done|]. intros h Hh. apply elem_of_app. left. by apply Hs.
  - destruct (IH (indeterminate ∘ S)) as (rest & -> & Hrest). rewrite bind_value. eexists. split; [done|].
    intros h. rewrite !elem_of_app. intros [?|?]; auto.
Qed.

Definition vary_ok (headers : HeaderList) : Prop := Forall (λ value, value_parts value ≠ []) (values_of headers (sv "vary")).

Lemma vary_ok_cons header headers :
  vary_ok (header :: headers) → (has_name (sv "Vary") header = true → value_parts (header_value header) ≠ []) ∧ vary_ok headers.
Proof.
  unfold vary_ok. rewrite values_of_cons, has_name_lowercase. change (lowercase (sv "Vary")) with (sv "vary").
  destruct (decide (lowercase (header_name header) = sv "vary")) as [E|E].
  - rewrite !bool_decide_eq_true_2 by done. intros [Hp Hrest]%Forall_cons. done.
  - rewrite !bool_decide_eq_false_2 by done. done.
Qed.

(** The callback of [is_cacheable] on the parts of one value. *)
Lemma vary_parts_star parts result :
  parts ≠ [] → let star := λ header, bool_decide (header = [c_asterisk]) in
  let '(hs, r) := vary_parts parts star result in
  r = bool_decide ([c_asterisk] ∈ map normalize_header_value parts) ∧ existsb star hs = r.
Proof.
  cbv zeta. set (star := λ header, bool_decide (header = [c_asterisk])). revert result.
  induction parts as [|p parts IH]; [done|]. intros result _. cbn [vary_parts map]. destruct (star (normalize_header_value p)) eqn:E.
  - cbn [existsb]. rewrite E. split; [|done]. symmetry. apply bool_decide_eq_true_2. apply bool_decide_eq_true_1 in E. rewrite E. by left.
  - pose proof E as E'. apply bool_decide_eq_false_1 in E'. destruct (decide (parts = [])) as [->|Hne].
    + cbn [vary_parts existsb map]. rewrite E. split; [|done]. symmetry. apply bool_decide_eq_false_2. rewrite list_elem_of_singleton. congruence.
    + specialize (IH false Hne). destruct (vary_parts parts star false) as [hs r]. destruct IH as [-> IH]. split.
      * apply bool_decide_ext. rewrite elem_of_cons. naive_solver.
      * cbn [existsb]. by rewrite E.
Qed.

Lemma vary_wildcard_seen headers indeterminate :
  vary_ok headers → contains_vary_wildcard headers indeterminate = Returned (bool_decide ([c_asterisk] ∈ vary_names headers)).
Proof.
  unfold contains_vary_wildcard. set (star := λ header, bool_decide (header = [c_asterisk])). intros Hok.
  assert (∃ visited, for_each_vary_header headers indeterminate star = Returned visited ∧ existsb star visited = bool_decide ([c_asterisk] ∈ vary_names headers)) as (v & -> & Hv); [|by rewrite bind_value, Hv].
  revert indeterminate. induction headers as [|header headers IH]; intros indeterminate; cbn [for_each_vary_header].
  { exists []. split; [done|]. symmetry. apply bool_decide_eq_false_2, not_elem_of_nil. }
  apply vary_ok_cons in Hok as [Hp Hok]. specialize (IH Hok). rewrite vary_name_cons.
  destruct (has_name (sv "Vary") header); cbn [negb]; [|eauto]. specialize (Hp eq_refl).
  destruct (split_value_parts (header_value header)) as (parts & -> & Ep). rewrite bind_value. rewrite Ep in *.
  assert (parts ≠ []) as Hne by (by intros ->). pose proof (vary_parts_star parts (indeterminate 0%nat) Hne) as Hparts. cbv zeta in Hparts. fold star in Hparts.
  destruct (vary_parts parts star (indeterminate 0%nat)) as [hs r]. destruct Hparts as [Hr Hs]. destruct r.
  - eexists. split; [done|]. rewrite Hs. symmetry. apply bool_decide_eq_true_2, elem_of_app. left.
    symmetry in Hr. by apply bool_decide_eq_true_1 in Hr.
  - destruct (IH (indeterminate ∘ S)) as (rest & -> & Hrest). rewrite bind_value. eexists. split; [done|]. rewrite existsb_app, Hs, Hrest. cbn [orb]. apply bool_decide_ext.
    rewrite elem_of_app. symmetry in Hr. apply bool_decide_eq_false_1 in Hr. tauto.
Qed.

(** ** Keys are computed *)

(** The number of bytes of the values of a header list, with one for each value. *)
Definition header_bytes (headers : HeaderList) : nat := sum_list (map (λ h, S (length (header_value h))) headers).

Definition headers_small (headers : HeaderList) : Prop := Z.of_nat (header_bytes headers) < 2 ^ 31.

Lemma length_split_on c s : (length (split_on c s) ≤ S (length s))%nat.
Proof. induction s as [|x s IH]; cbn [split_on length]; [lia|]. case_match; cbn [length]; [lia|]. destruct (split_on c s); cbn in *; lia. Qed.

Lemma normalized_values_returns values :
  ∃ l, normalized_values values = Returned l ∧ (length l ≤ sum_list (map (λ v, S (length v)) values))%nat.
Proof.
  induction values as [|value values (l & IH & Hl)]; cbn [normalized_values]; [by exists []|].
  set (v := map to_ascii_lowercase value). cbv zeta.
  assert (∃ here, (if negb (contains_char v c_comma) then Returned [v]
    else fields ← split_view v [c_comma] SplitNothing; Returned (map normalize_header_value fields)) = Returned here
    ∧ (length here ≤ S (length value))%nat) as (here & -> & Hh).
  { case_goal; [eexists; split; [done|cbn; lia]|]. destruct (decide (v = [])) as [E0|E0]; [by rewrite E0 in E|].
    rewrite (split_view_char _ _ SplitNothing E0), bind_value. eexists. split; [done|]. rewrite length_map.
    etrans; [apply length_filter|]. etrans; [apply length_split_on|]. unfold v. by rewrite length_map. }
  rewrite IH, !bind_value. eexists. split; [done|]. rewrite length_app. cbn. lia.
Qed.

Lemma for_each_all headers name :
  (sum_list (map (λ v, S (length v)) (for_each_header_value headers name (λ _, false))) ≤ header_bytes headers)%nat.
Proof.
  unfold header_bytes. induction headers as [|h headers IH]; cbn [for_each_header_value map sum_list foldr]; [done|].
  destruct (has_name name h); cbn [negb map sum_list foldr] in *; lia.
Qed.

Lemma normalize_vary_returns header headers :
  headers_small headers → returns (normalize_request_vary_header_values header headers).
Proof.
  intros Hs. unfold normalize_request_vary_header_values. cbv zeta. case_goal; [|eauto with ladybird].
  destruct (normalized_values_returns (for_each_header_value headers header (λ _, false))) as (l & -> & Hl). rewrite bind_value.
  pose proof (for_each_all headers header) as Hall. case_goal; [|eauto with ladybird].
  destruct (quick_sort_correct bytes_less l bytes_less_asymmetric bytes_less_transitive) as (l' & -> & _).
  { unfold headers_small in Hs. lia. }
  rewrite bind_value. eauto with ladybird.
Qed.

Section Keys.
Context `{Sha1Ok}.

Lemma serialize_hash_returns s : returns (serialize_hash (sha1 s)).
Proof.
  unfold serialize_hash. pose proof (sha1_length s) as Hl.
  assert (∀ i, (i < 8)%nat → returns (at_index (sha1 s) i)) as Hat.
  { intros i Hi. destruct (at_index_total (sha1 s) i) as (b & Hb & _); [lia|]. by exists b. }
  repeat match goal with |- context [at_index (sha1 s) ?i] => destruct (Hat i ltac:(lia)) as [? ->]; rewrite bind_value end.
  eauto with ladybird.
Qed.

Lemma create_cache_key_returns url method extra : returns (create_cache_key url method extra).
Proof. apply serialize_hash_returns. Qed.

Lemma vary_key_input_returns headers request_headers :
  [c_asterisk] ∉ headers → headers_small request_headers → returns (vary_key_input headers request_headers).
Proof.
  intros Hstar Hs. induction headers as [|h headers IH]; cbn [vary_key_input]; [eauto with ladybird|].
  apply not_elem_of_cons in Hstar as [Hne Hstar]. rewrite bool_decide_eq_false_2 by done. cbn [negb verify].
  destruct (normalize_vary_returns h request_headers Hs) as [v ->]. destruct (IH Hstar) as [r ->]. rewrite !bind_value. eauto with ladybird.
Qed.

Lemma create_vary_key_returns request_headers response_headers indeterminate :
  [c_asterisk] ∉ vary_names response_headers → headers_small request_headers →
  returns (create_vary_key request_headers response_headers indeterminate).
Proof.
  intros Hstar Hs. unfold create_vary_key. destruct (for_each_vary_subset response_headers indeterminate (λ _, false)) as (v & -> & Hv).
  rewrite bind_value. destruct (vary_key_input_returns v request_headers) as [i ->]; [by intros ?%Hv|done|]. rewrite bind_value.
  case_goal; [apply serialize_hash_returns|eauto with ladybird].
Qed.

End Keys.

Lemma cacheable_response_returns status headers indeterminate :
  ∃ b, is_cacheable_response status headers indeterminate = Returned b
    ∧ (b = true → vary_ok headers → [c_asterisk] ∉ vary_names headers).
Proof.
  unfold is_cacheable_response. case_goal; [by exists false|]. case_goal; [by exists false|].
  assert (∃ w, contains_vary_wildcard headers indeterminate = Returned w ∧ (w = false → vary_ok headers → [c_asterisk] ∉ vary_names headers)) as (w & -> & Hw).
  { unfold contains_vary_wildcard. destruct (for_each_vary_subset headers indeterminate (λ header, bool_decide (header = [c_asterisk]))) as (v & Hv & _).
    eexists. split; [by rewrite Hv, bind_value|]. intros Hf Hok. pose proof (vary_wildcard_seen headers indeterminate Hok) as Hseen.
    unfold contains_vary_wildcard in Hseen. rewrite Hv, bind_value, Hf in Hseen. injection Hseen as Hseen.
    symmetry in Hseen. by apply bool_decide_eq_false_1 in Hseen. }
  rewrite bind_value. destruct w; [by exists false|]. specialize (Hw eq_refl). cbv zeta.
  rewrite !has_directive_spec by done. rewrite !bind_value.
  match goal with |- context [if ?b then Returned ?x else Returned ?y] => replace (if b then Returned x else Returned y) with (Returned (if b then x else y)) by (by destruct b) end.
  rewrite bind_value. case_goal; [by exists false|]. eexists. split; [done|]. by intros _.
Qed.

Lemma stored_vary_names headers : vary_names (store_header_and_trailer_fields [] headers) = vary_names headers.
Proof. unfold vary_names. by rewrite store_fields_values. Qed.

(** ** Histories *)
Inductive CacheOperation :=
| OpOpen (url : URL) (method : bytes) (request_headers : HeaderList) (mode : CacheMode) (indeterminate : nat → nat → bool)
    (now_freshness now_age : UnixDateTime)
| OpCreate (url : URL) (method : bytes) (request_headers : HeaderList) (request_time : UnixDateTime) (status_code : Z)
    (reason_phrase : bytes) (response_headers : HeaderList) (i1 i2 : nat → bool) (now : UnixDateTime)
| OpFinalize (url : URL) (method : bytes) (request_headers : HeaderList) (status_code : Z) (response_headers : HeaderList)
    (response_body : bytes) (i1 i2 : nat → bool).

Section Histories.
Context `{FastFloatOk} `{FastFloatSignedOk} `{TimeZone} `{Sha1Ok}.

Definition run_cache_operation (c : MemoryCache) (op : CacheOperation) : outcome (MemoryCache * option CacheEntry) :=
  match op with
  | OpOpen url method headers mode i n1 n2 => open_entry c url method headers mode i n1 n2
  | OpCreate url method headers time status reason response i1 i2 now =>
      c ← create_entry c url method headers time status reason response i1 i2 now; Returned (c, None)
  | OpFinalize url method headers status response body i1 i2 =>
      c ← finalize_entry c url method headers status response body i1 i2; Returned (c, None)
  end.

Fixpoint run_cache_operations (c : MemoryCache) (ops : list CacheOperation) : outcome MemoryCache :=
  match ops with
  | [] => Returned c
  | op :: ops => '(c, _) ← run_cache_operation c op; run_cache_operations c ops
  end.

(** The cache key of a request. *)
Definition request_key (url : URL) (method : bytes) (k : Z) : Prop :=
  ∃ s, serialize_url_for_cache_storage url = Returned s ∧ create_cache_key s method None = Returned k.

(** [e] was created under the key [k] for a response that may be stored. *)
Definition created (ops : list CacheOperation) (k : Z) (e : CacheEntry) : Prop :=
  ∃ url method headers time status reason response i1 i2 now v,
    OpCreate url method headers time status reason response i1 i2 now ∈ ops
    ∧ is_cacheable_request method headers = true ∧ is_cacheable_response status response i1 = Returned true
    ∧ request_key url method k ∧ create_vary_key headers response i2 = Returned v
    ∧ e = mk_cached v status reason (store_header_and_trailer_fields [] headers) (store_header_and_trailer_fields [] response) [] time now.

(** [body] was given to a request that was finalized under the keys [k] and [v]. *)
Definition finalized (ops : list CacheOperation) (k v : Z) (body : bytes) : Prop :=
  ∃ url method headers status response i1 i2,
    OpFinalize url method headers status response body i1 i2 ∈ ops
    ∧ request_key url method k ∧ create_vary_key headers response i2 = Returned v.

Definition completed (ops : list CacheOperation) (k : Z) (e : CacheEntry) : Prop :=
  ∃ e0 body, created ops k e0 ∧ finalized ops k (entry_vary_key e0) body ∧ e = with_response_body e0 body.

Lemma created_later ops ops' k e : created ops k e → created (ops ++ ops') k e.
Proof.
  intros (url & method & headers & time & status & reason & response & i1 & i2 & now & v & Hin & Hrest).
  exists url, method, headers, time, status, reason, response, i1, i2, now, v. split; [|done]. apply elem_of_app. by left.
Qed.

Lemma finalized_later ops ops' k v body : finalized ops k v body → finalized (ops ++ ops') k v body.
Proof.
  intros (url & method & headers & status & response & i1 & i2 & Hin & Hrest).
  exists url, method, headers, status, response, i1, i2. split; [|done]. apply elem_of_app. by left.
Qed.

Lemma completed_later ops ops' k e : completed ops k e → completed (ops ++ ops') k e.
Proof. intros (e0 & body & Hc & Hf & ->). exists e0, body. eauto using created_later, finalized_later. Qed.

(** Every list of a map is not empty and has entries of its key. *)
Definition all_entries (m : gmap Z (list CacheEntry)) (P : Z → CacheEntry → Prop) : Prop :=
  ∀ k es, m !! k = Some es → es ≠ [] ∧ Forall (P k) es.

Record cache_inv (ops : list CacheOperation) (c : MemoryCache) : Prop := mk_cache_inv {
  inv_wf : cache_wf c;
  inv_pending : all_entries (pending c) (created ops);
  inv_complete : all_entries (complete c) (completed ops);
}.

Lemma all_entries_mono m (P Q : Z → CacheEntry → Prop) : (∀ k e, P k e → Q k e) → all_entries m P → all_entries m Q.
Proof. intros HPQ Hm k es Hk. destruct (Hm k es Hk) as [Hne HP]. split; [done|]. eapply Forall_impl; [exact HP|]. auto. Qed.

Lemma all_entries_append m P k e :
  all_entries m P → P k e → all_entries (<[k := default [] (m !! k) ++ [e]]> m) P.
Proof.
  intros Hm He j es. destruct (decide (j = k)) as [->|Hne].
  - rewrite lookup_insert_eq. intros [= <-]. split; [by destruct (default [] (m !! k))|]. apply Forall_app. split; [|by apply Forall_singleton].
    destruct (m !! k) as [es|] eqn:E; [|constructor]. apply (Hm k es E).
  - rewrite lookup_insert_ne by done. apply Hm.
Qed.

Lemma all_entries_delete m P k : all_entries m P → all_entries (delete k m) P.
Proof. intros Hm j es Hj. apply Hm. by apply lookup_delete_Some in Hj as [_ ?]. Qed.

Lemma all_entries_insert m P k es : all_entries m P → es ≠ [] → Forall (P k) es → all_entries (<[k := es]> m) P.
Proof.
  intros Hm Hne Hes j es'. destruct (decide (j = k)) as [->|Hj]; [rewrite lookup_insert_eq; by intros [= <-]|].
  rewrite lookup_insert_ne by done. apply Hm.
Qed.

Lemma cache_inv_later ops op c : cache_inv ops c → cache_inv (ops ++ [op]) c.
Proof.
  intros [Hwf Hp Hc]. split; [done|eapply all_entries_mono; [|exact Hp]|eapply all_entries_mono; [|exact Hc]];
    eauto using created_later, completed_later.
Qed.

Lemma cache_inv_empty : cache_inv [] memory_cache_create.
Proof. split; [by split; left|by intros k es|by intros k es]. Qed.

(** ** Operations within their domain *)

(** A URL as the parser makes it, times that can be represented, and headers of which every
    [Vary] value names a header. *)
Definition operation_ok (op : CacheOperation) : Prop :=
  match op with
  | OpOpen url _ headers _ _ n1 n2 => url_core url ∧ headers_small headers ∧ duration_valid n1 ∧ duration_valid n2
  | OpCreate url _ headers time _ _ response _ _ now =>
      url_core url ∧ headers_small headers ∧ vary_ok response ∧ duration_valid time ∧ duration_valid now
  | OpFinalize url _ headers _ response _ _ _ => url_core url ∧ headers_small headers ∧ vary_ok response
  end.

(** What is needed of a stored entry to open it. *)
Definition entry_ok (e : CacheEntry) : Prop :=
  [c_asterisk] ∉ vary_names (entry_response_headers e) ∧ duration_valid (entry_request_time e) ∧ duration_valid (entry_response_time e).

Lemma created_ok ops k e : Forall operation_ok ops → created ops k e → entry_ok e.
Proof.
  intros Hok (url & method & headers & time & status & reason & response & i1 & i2 & now & v & Hin & _ & Hc & _ & _ & ->).
  rewrite Forall_forall in Hok. destruct (Hok _ Hin) as (_ & _ & Hv & Ht & Hn).
  destruct (cacheable_response_returns status response i1) as (b & Hb & Hstar). rewrite Hc in Hb. injection Hb as <-.
  split; [|done]. cbn [entry_response_headers]. rewrite stored_vary_names. auto.
Qed.

Lemma completed_ok ops k e : Forall operation_ok ops → completed ops k e → entry_ok e.
Proof. intros Hok (e0 & body & Hc & _ & ->). destruct (created_ok ops k e0 Hok Hc). by split. Qed.

Lemma request_key_returns url method :
  url_core url → ∃ s k, serialize_url_for_cache_storage url = Returned s ∧ create_cache_key s method None = Returned k ∧ request_key url method k.
Proof.
  intros Hu. destruct (serialize_returns url ExcludeFragmentYes Hu) as (s & Hs & _).
  destruct (create_cache_key_returns s method None) as [k Hk]. exists s, k. split_and!; [done..|]. by exists s.
Qed.

(** [create_entry] adds an entry to the pending ones of its key, or nothing. *)
Lemma create_entry_spec ops c url method headers time status reason response i1 i2 now :
  let op := OpCreate url method headers time status reason response i1 i2 now in
  cache_inv ops c → operation_ok op →
  ∃ c', create_entry c url method headers time status reason response i1 i2 now = Returned c' ∧ cache_inv (ops ++ [op]) c'.
Proof.
  intros op Hinv (Hu & Hsm & Hv & Ht & Hn). pose proof (cache_inv_later ops op c Hinv) as [[Wp Wc] Ip Ic].
  unfold create_entry. destruct (is_cacheable_request method headers) eqn:Er; cbn [negb]; [|by exists c].
  destruct (cacheable_response_returns status response i1) as (b & Hb & Hstar). rewrite Hb, bind_value.
  destruct b; cbn [negb]; [|by exists c].
  destruct (request_key_returns url method Hu) as (s & k & -> & Hk & Hrk). rewrite bind_value, Hk, bind_value.
  destruct (create_vary_key_returns headers response i2) as [v Ev]; [by apply Hstar|done|]. rewrite Ev, bind_value. cbv zeta.
  destruct (ensure_append_spec (m_pending_entries c) k (mk_cached v status reason (store_header_and_trailer_fields [] headers)
    (store_header_and_trailer_fields [] response) [] time now) Wp) as (m & -> & Wm & Hm).
  rewrite bind_value. eexists. split; [done|]. split; [by split| |done]. unfold pending. cbn [m_pending_entries]. rewrite Hm.
  apply all_entries_append; [done|]. exists url, method, headers, time, status, reason, response, i1, i2, now, v.
  split_and!; try done. apply elem_of_app. right. by apply list_elem_of_singleton.
Qed.

Lemma find_vary_key_spec entries v :
  match find_vary_key entries v with
  | Some i => ∃ e, entries !! i = Some e ∧ entry_vary_key e = v
  | None => True
  end.
Proof.
  induction entries as [|e entries IH]; cbn [find_vary_key]; [done|]. destruct (Z.eqb_spec v (entry_vary_key e)) as [->|Hne]; [by exists e|].
  by destruct (find_vary_key entries v).
Qed.

(** The pending entries after one is taken. *)
Definition taken (m : gmap Z (list CacheEntry)) (k : Z) (es : list CacheEntry) (i : nat) : gmap Z (list CacheEntry) :=
  if bool_decide (delete i es = []) then delete k m else <[k := delete i es]> m.

Lemma take_pending m k es i :
  map_wf m → contents m !! k = Some es →
  ∃ m1 m2, map_modify m k (delete i) = Returned m1
    ∧ (if bool_decide (delete i es = []) then '(m, _) ← map_remove m1 k; Returned m else Returned m1) = Returned m2
    ∧ map_wf m2 ∧ contents m2 = taken (contents m) k es i.
Proof.
  intros Wm Hk. destruct (map_modify_spec m k (delete i) Wm) as (m1 & -> & W1 & C1). unfold taken.
  assert (contents m1 = <[k := delete i es]> (contents m)) as C1'.
  { rewrite C1. apply map_eq. intros j. destruct (decide (j = k)) as [->|Hne].
    - by rewrite lookup_alter_eq, lookup_insert_eq, Hk.
    - by rewrite lookup_alter_ne, lookup_insert_ne by done. }
  exists m1. case_bool_decide as E; [|by exists m1].
  destruct (map_take_spec m1 k W1) as (m2 & _ & -> & W2 & C2). exists m2. rewrite bind_value. split_and!; [done..|].
  by rewrite C2, C1', delete_insert_eq.
Qed.

Lemma all_entries_taken m k es i P : m !! k = Some es → all_entries m P → all_entries (taken m k es i) P.
Proof.
  intros Hk HP. unfold taken. case_bool_decide as E; [by apply all_entries_delete|].
  destruct (HP k es Hk) as [_ Hes]. apply all_entries_insert; [done..|].
  rewrite delete_take_drop. apply Forall_app. split; [by apply Forall_take|by apply Forall_drop].
Qed.

(** [finalize_entry] moves the first pending entry of its keys to the complete ones, or does nothing. *)
Lemma finalize_entry_spec ops c url method headers status response body i1 i2 :
  let op := OpFinalize url method headers status response body i1 i2 in
  cache_inv ops c → operation_ok op →
  ∃ c', finalize_entry c url method headers status response body i1 i2 = Returned c' ∧ cache_inv (ops ++ [op]) c'.
Proof.
  intros op Hinv (Hu & Hsm & Hv). pose proof (cache_inv_later ops op c Hinv) as Hinv'. pose proof Hinv' as [[Wp Wc] Ip Ic].
  unfold finalize_entry. destruct (is_cacheable_request method headers) eqn:Er; cbn [negb]; [|by exists c].
  destruct (cacheable_response_returns status response i1) as (b & Hb & Hstar). rewrite Hb, bind_value.
  destruct b; cbn [negb]; [|by exists c].
  destruct (request_key_returns url method Hu) as (s & k & -> & Hk & Hrk). rewrite bind_value, Hk, bind_value.
  destruct (create_vary_key_returns headers response i2) as [v Ev]; [by apply Hstar|done|]. rewrite Ev, bind_value.
  rewrite map_get_spec, bind_value by done. destruct (contents (m_pending_entries c) !! k) as [es|] eqn:Ek; [|by exists c].
  pose proof (find_vary_key_spec es v) as Hf. destruct (find_vary_key es v) as [i|]; [|by exists c]. destruct Hf as (e & He & Hev).
  rewrite (at_index_lt _ _ _ He), bind_value.
  destruct (take_pending (m_pending_entries c) k es i Wp Ek) as (m1 & m2 & -> & Hm2 & W2 & C2). rewrite bind_value. cbv zeta.
  rewrite Hm2, bind_value. destruct (ensure_append_spec (m_complete_entries c) k (with_response_body e body) Wc) as (m3 & -> & W3 & C3).
  rewrite bind_value. eexists. split; [done|]. split; [by split|unfold pending; cbn [m_pending_entries]; rewrite C2; by apply all_entries_taken|].
  unfold complete. cbn [m_complete_entries]. rewrite C3.
  apply all_entries_append; [done|]. exists e, body. destruct (Ip k es Ek) as [_ Hes]. split; [|split; [|done]].
  - exact (Forall_lookup_1 _ _ _ _ Hes He).
  - rewrite Hev. exists url, method, headers, status, response, i1, i2. split; [|done]. apply elem_of_app. right. by apply list_elem_of_singleton.
Qed.

Lemma find_matching_spec entries headers i :
  Forall entry_ok entries → headers_small headers →
  ∃ r, find_matching entries headers i = Returned r ∧
    match r with
    | Some e => e ∈ entries ∧ ∃ j, create_vary_key headers (entry_response_headers e) j = Returned (entry_vary_key e)
    | None => ∀ e, e ∈ entries → ∃ j, create_vary_key headers (entry_response_headers e) j ≠ Returned (entry_vary_key e)
    end.
Proof.
  intros Hok Hs. revert i. induction Hok as [|e entries [Hstar _] _ IH]; intros i; cbn [find_matching].
  { exists None. split; [done|]. by intros e ?%not_elem_of_nil. }
  destruct (create_vary_key_returns headers (entry_response_headers e) (i 0%nat) Hstar Hs) as [v Ev]. rewrite Ev, bind_value.
  destruct (Z.eqb_spec v (entry_vary_key e)) as [->|Hne]; [exists (Some e); split; [done|]; split; [by left|by exists (i 0%nat)]|].
  destruct (IH (i ∘ S)) as (r & -> & Hr). exists r. split; [done|]. destruct r as [e'|].
  - destruct Hr. split; [by right|done].
  - intros e'. rewrite elem_of_cons. intros [->|He]; [exists (i 0%nat); congruence|auto].
Qed.

(** A response may be taken from an entry: it is for the same URL and method and the headers that
    its response nominates, and it is fresh or the mode accepts stale ones. *)
Record served (ops : list CacheOperation) (url : URL) (method : bytes) (headers : HeaderList) (mode : CacheMode)
    (n1 n2 : UnixDateTime) (e : CacheEntry) : Prop := mk_served {
  served_mode : mode ≠ Reload ∧ mode ≠ NoCache;
  served_request : is_cacheable_request method headers = true;
  served_entry : ∃ k, request_key url method k ∧ completed ops k e;
  served_vary : ∃ j, create_vary_key headers (entry_response_headers e) j = Returned (entry_vary_key e);
  served_fresh : cache_mode_permits_stale_responses mode = true ∨
    ∃ life age, calculate_freshness_lifetime (entry_status_code e) (entry_response_headers e) duration_zero n1 = Returned life
      ∧ calculate_age (entry_response_headers e) (entry_request_time e) (entry_response_time e) duration_zero n2 = Returned age
      ∧ cache_lifetime_status headers (entry_response_headers e) life age = Returned Fresh;
}.

(** The status of an entry is computed. *)
Lemma entry_status e headers n1 n2 :
  entry_ok e → duration_valid n1 → duration_valid n2 →
  ∃ life age status, calculate_freshness_lifetime (entry_status_code e) (entry_response_headers e) duration_zero n1 = Returned life
    ∧ calculate_age (entry_response_headers e) (entry_request_time e) (entry_response_time e) duration_zero n2 = Returned age
    ∧ cache_lifetime_status headers (entry_response_headers e) life age = Returned status.
Proof.
  intros (_ & Hq & Hp) V1 V2.
  destruct (freshness_lifetime_valid (entry_status_code e) (entry_response_headers e) duration_zero n1) as (life & Hl & Vl); [done..|].
  destruct (calculate_age_valid (entry_response_headers e) (entry_request_time e) (entry_response_time e) duration_zero n2) as (age & Ha & Va); [done..|].
  destruct (lifetime_status_returns headers (entry_response_headers e) life age Vl Va) as [status Hs]. by exists life, age, status.
Qed.

Lemma open_entry_spec ops c url method headers mode i n1 n2 :
  let op := OpOpen url method headers mode i n1 n2 in
  cache_inv ops c → Forall operation_ok ops → operation_ok op →
  ∃ c' r, open_entry c url method headers mode i n1 n2 = Returned (c', r) ∧ cache_inv (ops ++ [op]) c'
    ∧ ∀ e, r = Some e → served ops url method headers mode n1 n2 e.
Proof.
  intros op Hinv Hops (Hu & Hsm & V1 & V2). pose proof (cache_inv_later ops op c Hinv) as Hinv'. pose proof Hinv as [[Wp Wc] Ip Ic].
  unfold open_entry. destruct (bool_decide (mode = Reload) || bool_decide (mode = NoCache)) eqn:Emode; [by exists c, None|].
  destruct (is_cacheable_request method headers) eqn:Er; cbn [negb]; [|by exists c, None].
  destruct (request_key_returns url method Hu) as (s & k & -> & Hk & Hrk). rewrite bind_value, Hk, bind_value.
  rewrite map_get_spec, bind_value by done. destruct (contents (m_complete_entries c) !! k) as [es|] eqn:Ek; [|by exists c, None].
  destruct (Ic k es Ek) as [_ Hes].
  destruct (find_matching_spec es headers i) as (r & -> & Hr); [|done|].
  { eapply Forall_impl; [exact Hes|]. intros e. by apply completed_ok. }
  rewrite bind_value. destruct r as [e|]; [|by exists c, None]. destruct Hr as [Hin Hvary].
  rewrite Forall_forall in Hes. pose proof (Hes e Hin) as Hcomp.
  destruct (entry_status e headers n1 n2) as (life & age & status & Hl & Ha & Hst); [by eapply completed_ok|done..|].
  rewrite Hl, bind_value, Ha, bind_value, Hst, bind_value.
  assert (status = Fresh ∨ cache_mode_permits_stale_responses mode = true → served ops url method headers mode n1 n2 e) as Hserved.
  { intros Hwhy. split; [|done|by exists k|done|].
    - apply orb_false_elim in Emode as [E1 E2]. by apply bool_decide_eq_false_1 in E1, E2.
    - destruct Hwhy as [->|Hstale]; [right; by exists life, age|by left]. }
  destruct status; [exists c, (Some e); split_and!; [done..|intros ? [= <-]; auto]|..];
    (case_goal; [exists c, (Some e); split_and!; [done..|intros ? [= <-]; auto]|]);
    (destruct (map_take_spec (m_complete_entries c) k Wc) as (m & _ & -> & Wm & Cm); rewrite bind_value; eexists _, None;
     split_and!; [done| |done]; destruct Hinv' as [[Wp' _] Ip' Ic']; split; [by split|done|];
     unfold complete; cbn [m_complete_entries]; rewrite Cm; by apply all_entries_delete).
Qed.

Lemma run_cache_operation_spec ops c op :
  cache_inv ops c → Forall operation_ok ops → operation_ok op →
  ∃ c' r, run_cache_operation c op = Returned (c', r) ∧ cache_inv (ops ++ [op]) c'.
Proof.
  intros Hinv Hops Hop. destruct op; cbn [run_cache_operation].
  - destruct (open_entry_spec ops c url method request_headers mode indeterminate now_freshness now_age Hinv Hops Hop) as (c' & r & -> & Hc' & _). eauto.
  - edestruct create_entry_spec as (c' & -> & Hc'); [exact Hinv|exact Hop|]. rewrite bind_value. eauto.
  - edestruct finalize_entry_spec as (c' & -> & Hc'); [exact Hinv|exact Hop|]. rewrite bind_value. eauto.
Qed.

Lemma run_cache_operations_spec before c ops :
  cache_inv before c → Forall operation_ok before → Forall operation_ok ops →
  ∃ c', run_cache_operations c ops = Returned c' ∧ cache_inv (before ++ ops) c'.
Proof.
  intros Hinv Hb Hops. revert before c Hinv Hb. induction Hops as [|op ops Hop Hops IH]; intros before c Hinv Hb; cbn [run_cache_operations].
  - exists c. by rewrite app_nil_r.
  - destruct (run_cache_operation_spec before c op Hinv Hb Hop) as (c1 & r & -> & Hc1). rewrite bind_value.
    destruct (IH (before ++ [op]) c1 Hc1) as (c2 & -> & Hc2); [apply Forall_app; split; [done|by apply Forall_singleton]|].
    exists c2. by rewrite <-app_assoc in Hc2.
Qed.

(** C4: the memory cache over any history of operations from the empty cache, for well-formed URLs,
    request headers of less than 2^31 bytes, valid times and responses in which every [Vary] value names a
    header (a value that names none makes the code read an uninitialised decision): every operation returns; an
    entry that [open_entry] gives was created and finalized earlier under the cache key of the
    request's URL and method, for responses that may be stored; the headers that its response
    nominates have the same vary key in both requests; and the response is fresh, or the mode
    accepts stale responses. *)
Theorem memory_cache_history (ops : list CacheOperation) (url : URL) (method : bytes) (headers : HeaderList) (mode : CacheMode)
    (i : nat → nat → bool) (n1 n2 : UnixDateTime)
    (Hops : Forall operation_ok ops) (Hop : operation_ok (OpOpen url method headers mode i n1 n2)) :
  ∃ c, run_cache_operations memory_cache_create ops = Returned c ∧ cache_inv ops c
    ∧ ∃ c' r, open_entry c url method headers mode i n1 n2 = Returned (c', r)
      ∧ ∀ e, r = Some e → served ops url method headers mode n1 n2 e.
Proof.
  destruct (run_cache_operations_spec [] memory_cache_create ops cache_inv_empty (Forall_nil_2 _) Hops) as (c & Hc & Hinv).
  exists c. split; [done|]. split; [done|].
  destruct (open_entry_spec ops c url method headers mode i n1 n2 Hinv Hops Hop) as (c' & r & Hr & _ & Hs). by exists c', r.
Qed.

(** ** A response that was stored is found *)
Lemma for_each_vary_all headers i : vary_ok headers → for_each_vary_header headers i (λ _, false) = Returned (vary_names headers).
Proof.
  revert i. induction headers as [|header headers IH]; intros i Hok; [done|]. cbn [for_each_vary_header]. apply vary_ok_cons in Hok as [Hp Hok].
  rewrite vary_name_cons. destruct (has_name (sv "Vary") header); cbn [negb]; [|by apply IH]. specialize (Hp eq_refl).
  destruct (split_value_parts (header_value header)) as (parts & -> & Ep). rewrite bind_value, vary_parts_all. rewrite Ep in *.
  rewrite bool_decide_eq_false_2 by (by intros ->). by rewrite IH.
Qed.

Lemma stored_vary_key headers response i i' :
  vary_ok response → create_vary_key headers (store_header_and_trailer_fields [] response) i = create_vary_key headers response i'.
Proof.
  intros Hok. assert (vary_ok (store_header_and_trailer_fields [] response)) as Hok'.
  { unfold vary_ok in *. by rewrite store_fields_values. }
  unfold create_vary_key. by rewrite !for_each_vary_all, stored_vary_names.
Qed.

(** The entry of a response, its body still to come. *)
Definition new_entry (v status : Z) (reason : bytes) (headers response : HeaderList) (time now : UnixDateTime) : CacheEntry :=
  mk_cached v status reason (store_header_and_trailer_fields [] headers) (store_header_and_trailer_fields [] response) [] time now.

Lemma create_entry_stores c url method headers time status reason response i1 i2 now k v :
  map_wf (m_pending_entries c) → is_cacheable_request method headers = true →
  is_cacheable_response status response i1 = Returned true → request_key url method k →
  create_vary_key headers response i2 = Returned v →
  ∃ m, create_entry c url method headers time status reason response i1 i2 now = Returned (mk_memory_cache m (m_complete_entries c))
    ∧ map_wf m ∧ contents m = <[k := default [] (pending c !! k) ++ [new_entry v status reason headers response time now]]> (pending c).
Proof.
  intros Wp Hreq Hres (s & Hs & Hk) Hv.
  destruct (ensure_append_spec (m_pending_entries c) k (new_entry v status reason headers response time now) Wp) as (m & Hm & W & C).
  exists m. split_and!; [|done..]. unfold create_entry. rewrite Hreq, Hres, bind_value, Hs, bind_value, Hk, bind_value, Hv, bind_value.
  cbv zeta. cbn [negb]. unfold new_entry in Hm. by rewrite Hm.
Qed.

Lemma finalize_entry_completes c url method headers status response body i1 i2 k e :
  cache_wf c → is_cacheable_request method headers = true → is_cacheable_response status response i1 = Returned true →
  request_key url method k → create_vary_key headers response i2 = Returned (entry_vary_key e) →
  pending c !! k = Some [e] →
  ∃ c', finalize_entry c url method headers status response body i1 i2 = Returned c' ∧ cache_wf c' ∧ pending c' = delete k (pending c)
    ∧ complete c' = <[k := default [] (complete c !! k) ++ [with_response_body e body]]> (complete c).
Proof.
  intros [Wp Wc] Hreq Hres (s & Hs & Hk) Hv He.
  destruct (take_pending (m_pending_entries c) k [e] 0 Wp He) as (m1 & m2 & Hm1 & Hm2 & W2 & C2).
  destruct (ensure_append_spec (m_complete_entries c) k (with_response_body e body) Wc) as (m3 & Hm3 & W3 & C3).
  exists (mk_memory_cache m2 m3). split_and!; [|done..]. unfold finalize_entry.
  rewrite Hreq, Hres, bind_value, Hs, bind_value, Hk, bind_value, Hv, bind_value, map_get_spec by done.
  unfold pending in He. rewrite He, bind_value. cbn [negb find_vary_key]. rewrite Z.eqb_refl. cbn [at_index lookup list_lookup must].
  rewrite bind_value, Hm1, bind_value. cbv zeta. rewrite Hm2, bind_value, Hm3. by rewrite bind_value.
Qed.

Lemma open_entry_single c url method headers mode i n1 n2 k e :
  cache_wf c → entry_ok e → operation_ok (OpOpen url method headers mode i n1 n2) →
  is_cacheable_request method headers = true → request_key url method k → mode ≠ Reload ∧ mode ≠ NoCache →
  complete c !! k = Some [e] → create_vary_key headers (entry_response_headers e) (i 0%nat) = Returned (entry_vary_key e) →
  ∃ c' r life age st, open_entry c url method headers mode i n1 n2 = Returned (c', r)
    ∧ calculate_freshness_lifetime (entry_status_code e) (entry_response_headers e) duration_zero n1 = Returned life
    ∧ calculate_age (entry_response_headers e) (entry_request_time e) (entry_response_time e) duration_zero n2 = Returned age
    ∧ cache_lifetime_status headers (entry_response_headers e) life age = Returned st
    ∧ r = if bool_decide (st = Fresh) || cache_mode_permits_stale_responses mode then Some e else None.
Proof.
  intros [_ Wc] He (_ & _ & V1 & V2) Hreq (s & Hs & Hk) [M1 M2] Hc Hv.
  destruct (entry_status e headers n1 n2 He V1 V2) as (life & age & st & Hl & Ha & Hst).
  unfold open_entry. rewrite !bool_decide_eq_false_2 by done. cbn [orb].
  rewrite Hreq, Hs, bind_value, Hk, bind_value, map_get_spec by done. unfold complete in Hc. rewrite Hc, bind_value.
  cbn [negb find_matching]. rewrite Hv, bind_value, Z.eqb_refl, bind_value, Hl, bind_value, Ha, bind_value, Hst, bind_value.
  destruct (map_take_spec (m_complete_entries c) k Wc) as (m & o & Hm & _). rewrite Hm, bind_value.
  destruct st; cbn; destruct (cache_mode_permits_stale_responses mode); cbn; do 2 eexists; by exists life, age; eexists.
Qed.


End Histories.

(** ** Examples *)
Section Examples.

(** What the uninitialised decisions hold: [Continue]. *)
Notation go := (λ _ : nat, false).
Notation goes := (λ _ _ : nat, false).
#[local] Existing Instances fast_float_example fast_float_example_ok fast_float_signed_example fast_float_signed_example_ok utc.

(** A digest that is the start of its input. *)
#[local] Instance sha1_example : Sha1 := { sha1 s := take 20 (map (λ b, b mod 256) s ++ replicate 20 0) }.
#[local] Instance sha1_example_ok : Sha1Ok.
Proof.
  split; intros s; cbn [sha1 sha1_example].
  - rewrite length_take, length_app, length_map, length_replicate. lia.
  - apply Forall_take, Forall_app. split; [|by apply Forall_replicate].
    apply Forall_forall. intros b (a & -> & _)%list_elem_of_fmap. apply Z.mod_pos_bound. lia.
Qed.

Definition at_second (n : Z) : UnixDateTime := mk_duration (784111777 + n) 0.

Definition example_exchange (body : bytes) : list CacheOperation :=
  [OpCreate url_example (sv "GET") [] (at_second 0) 200 (sv "OK") example_response go go (at_second 1);
   OpFinalize url_example (sv "GET") [] 200 example_response body go go].

Definition opened_after (ops : list CacheOperation) (url : URL) (headers : HeaderList) (mode : CacheMode) (n : Z) : option CacheEntry :=
  match run_cache_operations memory_cache_create ops with
  | Returned c =>
      match open_entry c url (sv "GET") headers mode goes (at_second n) (at_second n) with Returned (_, r) => r | _ => None end
  | _ => None
  end.

Lemma example_exchange_ok body : Forall operation_ok (example_exchange body).
Proof.
  pose proof (proj1 url_example_wf) as Hu. apply Forall_cons. split; [|apply Forall_singleton].
  - split_and!; [exact Hu|done|by apply Forall_nil_2|done|done].
  - split_and!; [exact Hu|done|by apply Forall_nil_2].
Qed.

Lemma open_example_ok headers mode : headers_small headers →
  operation_ok (OpOpen url_example (sv "GET") headers mode goes (at_second 11) (at_second 11)).
Proof. pose proof (proj1 url_example_wf) as Hu. intros Hs. cbn [operation_ok]. split_and!; [exact Hu|exact Hs|done|done]. Qed.

Lemma memory_cache_history_witness :
  Forall operation_ok (example_exchange (sv "hello")) ∧
  ∃ c c' e, run_cache_operations memory_cache_create (example_exchange (sv "hello")) = Returned c
    ∧ open_entry c url_example (sv "GET") [] CacheDefault goes (at_second 11) (at_second 11) = Returned (c', Some e)
    ∧ served (example_exchange (sv "hello")) url_example (sv "GET") [] CacheDefault (at_second 11) (at_second 11) e.
Proof.
  split; [apply example_exchange_ok|].
  assert (is_Some (opened_after (example_exchange (sv "hello")) url_example [] CacheDefault 11)) as [e He] by (vm_compute; by eexists).
  destruct (memory_cache_history (example_exchange (sv "hello")) url_example (sv "GET") [] CacheDefault goes (at_second 11) (at_second 11))
    as (c & Hc & _ & c' & r & Hr & Hs); [apply example_exchange_ok|by apply open_example_ok|].
  exists c, c', e. unfold opened_after in He. rewrite Hc, Hr in He. subst r. split_and!; [done..|by apply Hs].
Defined.


(** ** What the cache does not keep apart *)

(** Two requests in flight with the same keys: the body of the second, finished first, is given to
    the headers of the first. *)
Example in_flight_bodies_mixed :
  let other := mk_header (sv "ETag") (sv "2") :: example_response in
  (λ e, (entry_response_headers e, entry_response_body e)) <$>
    opened_after [OpCreate url_example (sv "GET") [] (at_second 0) 200 (sv "OK") example_response go go (at_second 1);
                  OpCreate url_example (sv "GET") [] (at_second 0) 200 (sv "OK") other go go (at_second 1);
                  OpFinalize url_example (sv "GET") [] 200 other (sv "two") go go] url_example [] CacheDefault 11
  = Some (example_response, sv "two").
Proof. vm_compute. reflexivity. Qed.

(** The response that a reload stores is not found while the older one is fresh. *)
Example reload_keeps_older_response :
  entry_response_body <$> opened_after (example_exchange (sv "old") ++ example_exchange (sv "new")) url_example [] CacheDefault 11
  = Some (sv "old").
Proof. vm_compute. reflexivity. Qed.

End Examples.

(** The vary key is of the values only: a response that varies on two headers is found for a request
    that sends the value of the one in the other, whatever the hash function. *)
Example vary_key_of_values_only `{Sha1} (i : nat → bool) :
  let response := [mk_header (sv "Vary") (sv "X-A, X-B")] in
  create_vary_key [mk_header (sv "X-A") (sv "1")] response i = create_vary_key [mk_header (sv "X-B") (sv "1")] response i.
Proof. reflexivity. Qed.

(** After a [Vary] value with no part, whether the next values are visited depends on a variable that
    is not initialised: a response with [Vary: *] may be stored and [create_vary_key] may abort on it. *)
Example vary_wildcard_missed `{Sha1} :
  let response := [mk_header (sv "Vary") []; mk_header (sv "Vary") (sv "*")] in
  is_cacheable_response 200 response (λ _, false) = Returned false ∧ is_cacheable_response 200 response (λ _, true) = Returned true
  ∧ create_vary_key [] response (λ _, false) = VerifyFailed.
Proof. split_and!; vm_compute; reflexivity. Qed.
