(* ===== verification/IpAddress.v ===== *)
(** * AK/IPv4Address.h, AK/IPv6Address.h: addresses from strings

    The lenient address readers that cookies (and sockets) use; they are not the
    WHATWG parsers of LibURL.  An IPv6 address is its sixteen bytes. *)
From S2P Require Import Prelude CharacterTypes Externals Utf8 StringView Format Ipv4 GenericLexer.

Section Model.
Context `{FastFloat}.

(** [parts[i].to_number<u32>().value_or(256)] *)
Definition octet_or_256 (part : bytes) : Z := default 256 (to_number u32_max 10 part TrimWhitespaceYes).

(** [IPv4Address::from_string]: the four octets. *)
Definition ipv4_from_string (string : bytes) : outcome (option (Z * Z * Z * Z)) :=
  parts ← split_view string [c_dot] SplitNothing;
  let check a b c d :=
    if (255 <? a) || (255 <? b) || (255 <? c) || (255 <? d) then None else Some (a, b, c, d) in
  Returned match parts with
  | [p0] => check 0 0 0 (octet_or_256 p0)
  | [p0; p1] => check (octet_or_256 p0) 0 0 (octet_or_256 p1)
  | [p0; p1; p2] => check (octet_or_256 p0) (octet_or_256 p1) 0 (octet_or_256 p2)
  | [p0; p1; p2; p3] => check (octet_or_256 p0) (octet_or_256 p1) (octet_or_256 p2) (octet_or_256 p3)
  | _ => None
  end.

(** [AK::parse_hexadecimal_number<u32>] *)
Definition parse_hexadecimal_number (string : bytes) : option Z := to_number u32_max 16 string TrimWhitespaceYes.

Definition part_is_empty (part : bytes) : bool := bool_decide (trim_whitespace part TrimBoth = []).

(** How many parts are empty before the first that is not. *)
Fixpoint empty_run (parts : list bytes) : nat :=
  match parts with
  | [] => 0
  | part :: parts => if part_is_empty part then S (empty_run parts) else 0
  end.

(** The loop of [is_ipv4_prefix] over [parts[0..size - 2)]. *)
Fixpoint ipv4_prefix_loop (fuel : nat) (parts : list bytes) (i : nat) (found_compressed : bool) : outcome bool :=
  match drop i parts with
  | [] => Returned true
  | part :: rest =>
      match fuel with
      | O => OutOfFuel
      | S fuel =>
          let part := trim_whitespace part TrimBoth in
          if bool_decide (part = []) then
            if found_compressed then Returned false
            else
              let is_leading := (i =? 0)%nat in
              let empty_parts := S (empty_run rest) in
              if is_leading && negb (empty_parts =? 2)%nat then Returned false
              else if negb is_leading && negb (empty_parts =? 1)%nat then Returned false
              else ipv4_prefix_loop fuel parts (i + empty_parts) true
          else
            match parse_hexadecimal_number part with
            | Some 0 => ipv4_prefix_loop fuel parts (i + 1) found_compressed
            | _ => Returned false
            end
      end
  end.

Definition is_ipv4_prefix (parts : list bytes) : outcome bool :=
  let size := length parts in
  part ← at_index parts (size - 2);
  let separator_part := trim_whitespace part TrimBoth in
  if bool_decide (separator_part = []) then Returned false
  else if negb (bool_decide (parse_hexadecimal_number separator_part = Some 0xffff)) then Returned false
  else ipv4_prefix_loop size (take (size - 2) parts) 0 false.

(** The loop over the parts; the address is written piece by piece. *)
Fixpoint ipv6_parts_loop (fuel : nat) (parts : list bytes) (i : nat) (addr : bytes) (piece have_pieces : Z)
    (found_compressed : bool) : outcome (option bytes) :=
  match drop i parts with
  | [] => Returned (Some addr)
  | part :: rest =>
      match fuel with
      | O => OutOfFuel
      | S fuel =>
          let trimmed_part := trim_whitespace part TrimBoth in
          if bool_decide (trimmed_part = []) then
            if found_compressed then Returned None
            else
              let empty_parts := S (empty_run rest) in
              let is_leading := (i =? 0)%nat in
              let is_trailing := (0 <? length rest)%nat && (empty_run rest =? length rest)%nat in
              if is_leading && is_trailing then
                Returned (if (3 <? empty_parts)%nat then None else Some (replicate 16 0))
              else if (is_leading || is_trailing) && (2 <? empty_parts)%nat then Returned None
              else if negb (is_leading || is_trailing) && (1 <? empty_parts)%nat then Returned None
              else
                let remaining_parts := Z.of_nat (length parts) - Z.of_nat empty_parts - have_pieces in
                let piece := 8 - remaining_parts in
                verify (0 <=? piece) (ipv6_parts_loop fuel parts (i + empty_parts) addr piece have_pieces true)
          else
            match parse_hexadecimal_number trimmed_part with
            | None => Returned None
            | Some part =>
                if 0xffff <? part then Returned None
                else
                  let have_pieces := have_pieces + 1 in
                  if 8 <? have_pieces then Returned None
                  else
                    verify (piece <? 8) (
                      addr ← set_index addr (Z.to_nat (piece * 2)) (Z.land (Z.shiftr part 8) 0xff);
                      addr ← set_index addr (Z.to_nat (piece * 2 + 1)) (Z.land part 0xff);
                      ipv6_parts_loop fuel parts (i + 1) addr (piece + 1) have_pieces found_compressed)
            end
      end
  end.

(** [IPv6Address(IPv4Address)] *)
Definition ipv4_mapped (a : Z * Z * Z * Z) : bytes :=
  let '(a, b, c, d) := a in replicate 10 0 ++ [0xff; 0xff; a; b; c; d].

Definition ipv6_from_parts (parts : list bytes) : outcome (option bytes) :=
  let size := length parts in
  if bool_decide (parts = []) then Returned None
  else if (9 <? size)%nat then Returned None
  else
    last ← at_index parts (size - 1);
    prefix ← (if (4 <=? size)%nat && contains_char last c_dot then is_ipv4_prefix parts else Returned false);
    if prefix : bool then
      ipv4_address ← ipv4_from_string last;
      Returned (option_map ipv4_mapped ipv4_address)
    else ipv6_parts_loop size parts 0 (replicate 16 0) 0 0 false.

Definition ipv6_from_string (string : bytes) : outcome (option bytes) :=
  let starts_with_bracket := starts_with_char string c_lbracket in
  let ends_with_bracket := ends_with_char string c_rbracket in
  if (starts_with_bracket || ends_with_bracket) && negb (starts_with_bracket && ends_with_bracket) then Returned None
  else
    string ← (if starts_with_bracket then substring_view string 1 (length string - 2) else Returned string);
    parts ← split_view string [c_colon] SplitKeepEmpty;
    ipv6_from_parts parts.

(** ** The readers return *)
Lemma split_view_char_returns s c behavior : returns (split_view s [c] behavior).
Proof.
  unfold split_view. rewrite verify_true by (by rewrite bool_decide_eq_false_2).
  case_bool_decide; [eauto with ladybird|]. rewrite split_view_loop_char by lia. eauto with ladybird.
Qed.

Lemma ipv4_from_string_returns s : returns (ipv4_from_string s).
Proof. unfold ipv4_from_string. apply returns_bind; [apply split_view_char_returns|]. eauto with ladybird. Qed.

Lemma empty_run_le parts : (empty_run parts ≤ length parts)%nat.
Proof. induction parts as [|p parts IH]; cbn; [lia|]. destruct (part_is_empty p); lia. Qed.

Lemma ipv4_prefix_loop_returns fuel parts i found :
  (length parts - i ≤ fuel)%nat → returns (ipv4_prefix_loop fuel parts i found).
Proof.
  revert i found. induction fuel as [|fuel IH]; intros i found Hf; cbn [ipv4_prefix_loop];
    destruct (drop i parts) as [|part rest] eqn:Ed; try by eexists.
  all: pose proof (f_equal length Ed) as Hl; rewrite length_drop in Hl; cbn [length] in Hl; try lia.
  repeat (case_goal; try by eexists); apply IH; lia.
Qed.

Lemma is_ipv4_prefix_returns parts : (4 ≤ length parts)%nat → returns (is_ipv4_prefix parts).
Proof.
  intros Hl. unfold is_ipv4_prefix. destruct (at_index_total parts (length parts - 2)) as (p & -> & _); [lia|].
  rewrite bind_value. repeat (case_goal; [by eexists|]). apply ipv4_prefix_loop_returns. rewrite length_take. lia.
Qed.

(** The state of the loop: before the compressed run the pieces written are the
    parts read, after it the pieces to come are the parts left. *)
Definition pieces_ok (parts : list bytes) (i : nat) (piece have : Z) (found : bool) : Prop :=
  if found then 0 ≤ piece ∧ piece + Z.of_nat (length parts - i) ≤ 8
  else piece = Z.of_nat i ∧ have = Z.of_nat i ∧ have ≤ 8.

Lemma ipv6_parts_loop_returns fuel parts i addr piece have found :
  (length parts ≤ 9)%nat → (i ≤ length parts)%nat → length addr = 16%nat → 0 ≤ have →
  pieces_ok parts i piece have found → (length parts - i ≤ fuel)%nat →
  returns (ipv6_parts_loop fuel parts i addr piece have found).
Proof.
  intros Hsize. revert i addr piece have found.
  induction fuel as [|fuel IH]; intros i addr piece have found Hi Haddr Hhave Hok Hf; cbn [ipv6_parts_loop];
    destruct (drop i parts) as [|part rest] eqn:Ed; try by eexists.
  all: pose proof (f_equal length Ed) as Hl; rewrite length_drop in Hl; cbn [length] in Hl; try lia.
  pose proof (empty_run_le rest) as Hrun.
  case_goal.
  - destruct found; [by eexists|]. repeat (case_goal; try by eexists).
    destruct Hok as (-> & -> & Hle). rewrite verify_true by (apply Z.leb_le; lia).
    apply IH; try done; try lia. unfold pieces_ok. lia.
  - destruct (parse_hexadecimal_number _) as [v|]; [|by eexists]. case_goal; [by eexists|].
    destruct (Z.ltb_spec 8 (have + 1)) as [|Hh]; [by eexists|].
    assert (0 ≤ piece < 8) as Hp by (unfold pieces_ok in Hok; destruct found; lia).
    rewrite verify_true by (apply Z.ltb_lt; lia).
    rewrite set_index_lt, bind_value by lia. rewrite set_index_lt, bind_value by (rewrite length_insert; lia).
    apply IH; try done; try lia; [by rewrite !length_insert|]. unfold pieces_ok in *. destruct found; lia.
Qed.

Lemma ipv6_from_string_returns s : returns (ipv6_from_string s).
Proof.
  unfold ipv6_from_string. case_goal; [by eexists|]. apply returns_bind.
  { destruct (starts_with_char s c_lbracket) eqn:E1; [|by eexists].
    destruct (ends_with_char s c_rbracket) eqn:E2; [|done].
    rewrite substring_view_in_range; [by eexists|]. destruct s as [|a [|b s]]; [done| |cbn; lia].
    exfalso. unfold starts_with_char, ends_with_char in *. cbn [last] in E2. apply Z.eqb_eq in E1, E2. congruence. }
  intros string _. apply returns_bind; [apply split_view_char_returns|]. intros parts _. unfold ipv6_from_parts.
  case_goal; [by eexists|]. destruct (Nat.ltb_spec 9 (length parts)); [by eexists|].
  assert (0 < length parts)%nat as Hpos by (destruct parts; [by bool_to_prop|cbn; lia]).
  destruct (at_index_total parts (length parts - 1)) as (last & -> & _); [lia|]. rewrite bind_value.
  apply returns_bind.
  { destruct (Nat.leb_spec 4 (length parts)); cbn [andb]; [|by eexists].
    case_goal; [by apply is_ipv4_prefix_returns|by eexists]. }
  intros prefix _. destruct prefix.
  - apply returns_bind; [apply ipv4_from_string_returns|]. by eexists.
  - apply ipv6_parts_loop_returns; try done; try lia.
Qed.

End Model.
