(* ===== verification/Cookie.v ===== *)
(** * LibHTTP/Cookie/Cookie.{h,cpp}: cookies and when they match a URL

    A time is an offset from the Unix epoch (Time.v).  [String::to_lowercase] is
    ICU's case mapping. *)
From S2P Require Import Prelude CharacterTypes Externals Utf8 StringView Utf8View Format PercentEncoding Ipv4 Host PublicSuffix Url Time GenericLexer IpAddress.

Inductive SameSite := SameSiteDefault | SameSiteNone | SameSiteStrict | SameSiteLax.
Inductive Source := NonHttp | Http.

#[global] Instance SameSite_eq_dec : EqDecision SameSite.
Proof. solve_decision. Defined.
#[global] Instance Source_eq_dec : EqDecision Source.
Proof. solve_decision. Defined.

Record Cookie := mk_cookie {
  cookie_name : bytes;
  cookie_value : bytes;
  same_site : SameSite;
  creation_time : UnixDateTime;
  last_access_time : UnixDateTime;
  expiry_time : UnixDateTime;
  cookie_domain : bytes;
  cookie_path : bytes;
  cookie_secure : bool;
  cookie_http_only : bool;
  cookie_host_only : bool;
  cookie_persistent : bool;
}.

#[global] Instance Cookie_eq_dec : EqDecision Cookie.
Proof. solve_decision. Defined.

Definition same_site_to_string (s : SameSite) : bytes :=
  match s with
  | SameSiteDefault => sv "Default"
  | SameSiteNone => sv "None"
  | SameSiteLax => sv "Lax"
  | SameSiteStrict => sv "Strict"
  end.

Definition same_site_from_string (same_site_mode : bytes) : SameSite :=
  if equals_ignoring_ascii_case same_site_mode (sv "None") then SameSiteNone
  else if equals_ignoring_ascii_case same_site_mode (sv "Strict") then SameSiteStrict
  else if equals_ignoring_ascii_case same_site_mode (sv "Lax") then SameSiteLax
  else SameSiteDefault.

(** [icu::CaseMap::utf8ToLower] in the default locale, [None] for a failure. *)
Class IcuCaseMap := { utf8_to_lower : bytes → option bytes }.

(** Well-formed text is mapped to well-formed text, and lower-case ASCII text to
    itself in every locale. *)
Class IcuCaseMapOk `{IcuCaseMap} := {
  utf8_to_lower_valid : ∀ s, valid_utf8 s → ∃ out, utf8_to_lower s = Some out ∧ valid_utf8 out;
  utf8_to_lower_ascii : ∀ s, Forall (λ c, 0 ≤ c < 0x80) s → map to_ascii_lowercase s = s → utf8_to_lower s = Some s;
}.

Section Model.
Context `{Simdutf} `{FastFloat} `{PublicSuffixData} `{IcuCaseMap}.

Definition canonicalize_domain (url : URL) : outcome (option bytes) :=
  match host url with
  | None => Returned None
  | Some _ => h ← serialized_host url; lower ← must (utf8_to_lower h); Returned (Some lower)
  end.

Definition domain_matches (string domain_string : bytes) : outcome bool :=
  if bool_decide (string = domain_string) then Returned true
  else if negb (ends_with string domain_string) then Returned false
  else
    c ← at_index string (length string - length domain_string - 1);
    if negb (c =? c_dot) then Returned false
    else
      ipv4 ← ipv4_from_string string;
      if bool_decide (is_Some ipv4) then Returned false
      else
        ipv6 ← ipv6_from_string string;
        if bool_decide (is_Some ipv6) then Returned false else Returned true.

Definition path_matches (request_path cookie_path : bytes) : outcome bool :=
  if bool_decide (request_path = cookie_path) then Returned true
  else if starts_with request_path cookie_path CaseSensitive then
    if ends_with_char cookie_path c_slash then Returned true
    else
      c ← at_index request_path (length cookie_path);
      Returned (c =? c_slash)
  else Returned false.

Definition default_path (url : URL) : outcome bytes :=
  path ← serialize_path url;
  uri_path ← percent_decode path;
  match uri_path with
  | [] => Returned (sv "/")
  | c :: _ =>
      if negb (c =? c_slash) then Returned (sv "/")
      else
        last_separator ← must (find_last uri_path c_slash);
        if (last_separator =? 0)%nat then Returned (sv "/")
        else
          s ← substring_view uri_path 0 last_separator;
          r ← from_utf8 s;
          must r
  end.

Definition cookie_matches_url (cookie : Cookie) (url : URL) (retrieval_host_canonical : bytes)
    (source : option Source) : outcome bool :=
  let is_host_only_and_has_identical_domain :=
    cookie_host_only cookie && bool_decide (retrieval_host_canonical = cookie_domain cookie) in
  matches ← (if negb (cookie_host_only cookie)
             then domain_matches retrieval_host_canonical (cookie_domain cookie) else Returned false);
  let is_not_host_only_and_domain_matches := matches && negb (is_public_suffix (cookie_domain cookie)) in
  if negb is_host_only_and_has_identical_domain && negb is_not_host_only_and_domain_matches then Returned false
  else
    path ← serialize_path url;
    matches ← path_matches path (cookie_path cookie);
    if negb matches then Returned false
    else if cookie_secure cookie && negb (bool_decide (scheme url = sv "https"))
            && negb (bool_decide (scheme url = sv "wss")) then Returned false
    else if cookie_http_only cookie && negb (bool_decide (source = Some Http)) then Returned false
    else Returned true.

(** ** What matching means *)

(** A string that is an address in one of the forms AK reads. *)
Definition is_address (s : bytes) : Prop :=
  (∃ a, ipv4_from_string s = Returned (Some a)) ∨ (∃ a, ipv6_from_string s = Returned (Some a)).

(** RFC 6265bis section 5.1.3. *)
Definition domain_match (s domain : bytes) : Prop :=
  s = domain ∨ (∃ sub, s = sub ++ c_dot :: domain) ∧ ¬ is_address s.

(** RFC 6265bis section 5.1.4. *)
Definition path_match (request cookie : bytes) : Prop :=
  request = cookie ∨ ∃ rest, request = cookie ++ rest
    ∧ ((∃ p, cookie = p ++ [c_slash]) ∨ (∃ rest', rest = c_slash :: rest')).

Lemma ends_with_app s suffix : ends_with s suffix = true ↔ ∃ p, s = p ++ suffix.
Proof.
  unfold ends_with. destruct suffix as [|c suffix].
  { split; [intros _; exists s; by rewrite app_nil_r|done]. }
  destruct s as [|a s].
  { split; [done|]. intros [p Hp]. by destruct p. }
  destruct (Nat.ltb_spec (length (a :: s)) (length (c :: suffix))) as [Hl|Hl].
  - split; [done|]. intros [p Hp]. rewrite Hp, length_app in Hl. lia.
  - rewrite bool_decide_eq_true. split.
    + intros Hd. exists (take (length (a :: s) - length (c :: suffix)) (a :: s)).
      rewrite <-Hd at 2. by rewrite take_drop.
    + intros [p Hp]. rewrite Hp, length_app.
      replace (length p + length (c :: suffix) - length (c :: suffix))%nat with (length p) by lia. apply drop_app_length.
Qed.

Lemma ends_with_char_app s c : ends_with_char s c = true ↔ ∃ p, s = p ++ [c].
Proof.
  unfold ends_with_char. destruct s as [|x s _] using rev_ind; [split; [done|intros [p Hp]; by destruct p]|].
  rewrite last_snoc, Z.eqb_eq. split; [intros ->; by exists s|]. intros [p Hp]. by apply app_inj_tail in Hp as [_ ->].
Qed.

Lemma domain_matches_spec s domain :
  ∃ b, domain_matches s domain = Returned b ∧ (b = true ↔ domain_match s domain).
Proof.
  unfold domain_matches, domain_match. case_bool_decide as Heq; [exists true; by split; [|split; [left|]]|].
  destruct (ends_with s domain) eqn:Ee; cbn [negb].
  2:{ exists false. split; [done|]. split; [done|]. intros [|[[sub Hs] _]]; [done|]. exfalso.
      rewrite <-not_true_iff_false, ends_with_app in Ee. apply Ee. exists (sub ++ [c_dot]). by rewrite <-app_assoc. }
  apply ends_with_app in Ee as [p Hp]. destruct p as [|c p _] using rev_ind; [done|].
  assert (s !! (length s - length domain - 1)%nat = Some c) as Hc.
  { rewrite Hp, !length_app. cbn [length]. replace (_ - _ - 1)%nat with (length p) by lia.
    rewrite <-app_assoc. by apply list_lookup_middle. }
  rewrite (at_index_lt _ _ _ Hc), bind_value. destruct (Z.eqb_spec c c_dot) as [->|Hdot]; cbn [negb].
  2:{ exists false. split; [done|]. split; [done|]. intros [|[[sub Hs] _]]; [done|]. exfalso. apply Hdot.
      rewrite Hp, <-app_assoc in Hs. cbn in Hs. change (p ++ c :: domain) with (p ++ [c] ++ domain) in Hs.
      change (sub ++ c_dot :: domain) with (sub ++ [c_dot] ++ domain) in Hs. rewrite !app_assoc in Hs.
      apply app_inv_tail, app_inj_tail in Hs as [_ ->]. done. }
  destruct (ipv4_from_string_returns s) as [v4 H4], (ipv6_from_string_returns s) as [v6 H6].
  rewrite H4, bind_value, H6, bind_value. unfold is_address. rewrite H4, H6.
  assert (∃ sub, s = sub ++ c_dot :: domain) as Hsub by (exists p; by rewrite Hp, <-app_assoc).
  destruct v4 as [a|]; [exists false; split; [done|naive_solver]|].
  destruct v6 as [a|]; [exists false; split; [done|naive_solver]|].
  exists true. split; [done|]. split; [|done]. intros _. right. split; [done|]. intros [[a Ha]|[a Ha]]; done.
Qed.

Lemma path_matches_spec request cookie :
  ∃ b, path_matches request cookie = Returned b ∧ (b = true ↔ path_match request cookie).
Proof.
  unfold path_matches, path_match. case_bool_decide as Heq; [exists true; by split; [|split; [left|]]|].
  destruct (starts_with request cookie CaseSensitive) eqn:Es.
  2:{ exists false. split; [done|]. split; [done|]. intros [|(rest & Hr & _)]; [done|].
      rewrite <-not_true_iff_false, starts_with_app in Es. by destruct Es; exists rest. }
  apply starts_with_app in Es as [rest Hr]. destruct (ends_with_char cookie c_slash) eqn:Ec.
  - exists true. split; [done|]. split; [|done]. intros _. right. exists rest. split; [done|]. left. by apply ends_with_char_app.
  - destruct rest as [|c rest]; [rewrite app_nil_r in Hr; congruence|].
    assert (request !! length cookie = Some c) as Hc by (rewrite Hr; by apply list_lookup_middle).
    rewrite (at_index_lt _ _ _ Hc), bind_value. eexists. split; [done|]. rewrite Z.eqb_eq. split.
    + intros ->. right. exists (c_slash :: rest). split; [done|]. right. by exists rest.
    + intros [|(rest' & Hr' & Hor)]; [done|]. rewrite Hr in Hr'. apply app_inv_head in Hr' as <-.
      destruct Hor as [Hp|[r' [= -> _]]]; [|done]. apply ends_with_char_app in Hp. congruence.
Qed.

(** C28: A cookie is sent for a URL exactly when the host is the one that set it, or
    domain-matches the cookie's domain, which is not a public suffix; the path
    path-matches the cookie's path; a secure cookie goes to https and wss URLs only;
    and an HttpOnly cookie to HTTP requests only.  The test never aborts. *)
Theorem cookie_matches_url_spec cookie url path host source :
  serialize_path url = Returned path →
  ∃ b, cookie_matches_url cookie url host source = Returned b ∧
    (b = true ↔
      (if cookie_host_only cookie then host = cookie_domain cookie
       else domain_match host (cookie_domain cookie) ∧ is_public_suffix (cookie_domain cookie) = false)
      ∧ path_match path (cookie_path cookie)
      ∧ (cookie_secure cookie = true → scheme url = sv "https" ∨ scheme url = sv "wss")
      ∧ (cookie_http_only cookie = true → source = Some Http)).
Proof.
  intros Hpath. unfold cookie_matches_url.
  destruct (domain_matches_spec host (cookie_domain cookie)) as (bd & Hbd & Hd).
  destruct (path_matches_spec path (cookie_path cookie)) as (bp & Hbp & Hp).
  set (matches := if negb (cookie_host_only cookie) then bd else false).
  assert ((if negb (cookie_host_only cookie) then domain_matches host (cookie_domain cookie) else Returned false)
    = Returned matches) as ->.
  { unfold matches. by destruct (cookie_host_only cookie). }
  rewrite bind_value, Hpath, bind_value, Hbp, bind_value.
  set (c1 := negb (cookie_host_only cookie && bool_decide (host = cookie_domain cookie))
    && negb (matches && negb (is_public_suffix (cookie_domain cookie)))).
  set (c2 := cookie_secure cookie && negb (bool_decide (scheme url = sv "https")) && negb (bool_decide (scheme url = sv "wss"))).
  set (c3 := cookie_http_only cookie && negb (bool_decide (source = Some Http))).
  exists (negb c1 && bp && negb c2 && negb c3). split; [clearbody c1 c2 c3; by destruct c1, bp, c2, c3|].
  unfold c1, c2, c3, matches. clear c1 c2 c3 matches Hbd Hbp Hpath.
  destruct (cookie_host_only cookie), (cookie_secure cookie), (cookie_http_only cookie); cbn [negb andb orb];
    repeat case_bool_decide; destruct bd, bp, (is_public_suffix (cookie_domain cookie)); cbn [negb andb orb]; naive_solver.
Qed.

Section DefaultPath.
Context `{!SimdutfOk}.

Lemma find_last_found (s : bytes) c i : find_last s c = Some i → s !! i = Some c.
Proof.
  pose proof (find_last_split s c) as Hf. intros E. rewrite E in Hf. destruct Hf as (pre & post & -> & <- & _). by rewrite list_lookup_middle.
Qed.

(** The path of a URL, decoded: what the directory is cut from. *)
Definition decoded_path (url : URL) : outcome bytes := path ← serialize_path url; percent_decode path.

(** The directory of a path whose decoded form is well-formed text. *)
Lemma default_path_returns url uri_path :
  decoded_path url = Returned uri_path → valid_utf8 uri_path →
  ∃ p, default_path url = Returned p ∧ valid_utf8 p ∧ head p = Some c_slash ∧ ∀ c, c ∈ p → c = c_slash ∨ c ∈ uri_path.
Proof.
  intros Hd Hv. unfold decoded_path in Hd. destruct (bind_returned _ _ _ Hd) as (path & Hpath & Hdec).
  unfold default_path. rewrite Hpath, bind_value, Hdec, bind_value.
  assert (∃ p, Returned (sv "/") = Returned p ∧ valid_utf8 p ∧ head p = Some c_slash ∧ ∀ c, c ∈ p → c = c_slash ∨ c ∈ uri_path) as Hroot.
  { exists [c_slash]. split; [done|]. split; [by apply valid_utf8_ascii_char|]. split; [done|].
    intros c Hc%list_elem_of_singleton. by left. }
  destruct uri_path as [|c rest] eqn:Eu; [done|]. rewrite <-Eu in *.
  destruct (Z.eqb_spec c c_slash) as [Hc|]; [|done]. subst c. cbn [negb].
  pose proof (find_last_spec uri_path c_slash) as Hlast. destruct (find_last uri_path c_slash) as [l|] eqn:El.
  2:{ exfalso. apply Hlast. rewrite Eu. by left. }
  destruct Hlast as [Hlt _]. pose proof (find_last_found _ _ _ El) as Hl. cbn [must]. rewrite bind_value. destruct (Nat.eqb_spec l 0); [done|].
  rewrite substring_view_in_range, bind_value, drop_0 by lia.
  assert (valid_utf8 (take l uri_path)) as Htake.
  { rewrite <-(take_drop_middle uri_path l _ Hl) in Hv. by apply (valid_utf8_split_ascii _ c_slash) in Hv as []. }
  rewrite from_utf8_valid, bind_value by done. exists (take l uri_path). split_and!; [done..| |].
  - rewrite Eu. by destruct l.
  - intros c Hc. right. by apply elem_of_take in Hc as (i & Hi%list_elem_of_lookup_2 & _).
Qed.

End DefaultPath.
End Model.

#[local] Existing Instances simdutf_example simdutf_example_ok fast_float_example public_suffix_example.

(** Lower-casing of ASCII letters, with everything else left alone. *)
Definition icu_case_map_example : IcuCaseMap := {| utf8_to_lower s := Some (map to_ascii_lowercase s) |}.
#[local] Existing Instance icu_case_map_example.

Definition example_cookie : Cookie :=
  mk_cookie (sv "id") (sv "1") SameSiteLax duration_zero duration_zero duration_max (sv "example.com") (sv "/docs")
    true true false true.

Definition example_cookie_url : URL :=
  mk_url (sv "https") [] [] (Some (HostString (sv "www.example.com"))) None [sv "docs"; sv "a"] None None false None.

Lemma cookie_matches_url_spec_witness :
  ∃ b, cookie_matches_url example_cookie example_cookie_url (sv "www.example.com") (Some Http) = Returned b ∧
    (b = true ↔
      (domain_match (sv "www.example.com") (sv "example.com") ∧ is_public_suffix (sv "example.com") = false)
      ∧ path_match (sv "/docs/a") (sv "/docs")
      ∧ (true = true → sv "https" = sv "https" ∨ sv "https" = sv "wss")
      ∧ (true = true → Some Http = Some Http)).
Proof. apply (cookie_matches_url_spec example_cookie example_cookie_url (sv "/docs/a")). by vm_compute. Defined.

(** A path whose percent-decoded directory is not UTF-8. *)
Definition example_path_url : URL :=
  mk_url (sv "https") [] [] (Some (HostString (sv "example.com"))) None [sv "%FF"; sv "a"] None None false None.

Lemma not_utf8_example : ¬ valid_utf8 [c_slash; 0xFF].
Proof.
  intros Hv. pose proof (proj2 (@validate_utf8_spec simdutf_example simdutf_example_ok _ (valid_utf8_bytes _ Hv)) Hv) as He.
  vm_compute in He. done.
Qed.

Lemma from_utf8_invalid `{SimdutfOk} s :
  Forall is_byte s → ¬ valid_utf8 s → (length s < 3)%nat → from_utf8 s = Returned None.
Proof.
  intros Hb Hv Hl. unfold from_utf8, utf8_validate. cbn [validate_fuel].
  rewrite (bool_decide_eq_false_2 (error _ = SURROGATE)) by (intros He%validate_utf8_surrogate; lia).
  cbn [andb fmap outcome_fmap fst]. by rewrite bind_value, bool_decide_eq_false_2 by (by intros He%validate_utf8_spec).
Qed.

(** The default path of a URL whose path percent-decodes to bytes that are not
    UTF-8, such as [/%FF/a], aborts the process, although the URL is well-formed. *)
Theorem default_path_not_utf8_aborts `{SimdutfOk} : default_path example_path_url = VerifyFailed.
Proof.
  unfold default_path. change (serialize_path example_path_url) with (Returned (sv "/%FF/a")). rewrite bind_value.
  assert (percent_decode (sv "/%FF/a") = Returned [c_slash; 0xFF; c_slash; c_a]) as -> by (by vm_compute).
  rewrite bind_value. assert (find_last [c_slash; 0xFF; c_slash; c_a] c_slash = Some 2%nat) as -> by (by vm_compute).
  cbn [Z.eqb Pos.eqb negb must]. rewrite bind_value. cbn [Nat.eqb]. rewrite substring_view_in_range, bind_value by (cbn; lia).
  change (take 2 (drop 0 [c_slash; 0xFF; c_slash; c_a])) with [c_slash; 0xFF].
  rewrite from_utf8_invalid, bind_value; [done|by repeat constructor|apply not_utf8_example|cbn; lia].
Qed.

Lemma default_path_not_utf8_aborts_witness : default_path example_path_url = VerifyFailed.
Proof. apply default_path_not_utf8_aborts. Defined.
