(* ===== verification/ParsedCookie.v ===== *)
(** * LibHTTP/Cookie/ParsedCookie.cpp: the Set-Cookie parser

    Every call of [UnixDateTime::now()] reads the clock again: the readings are
    numbered, and the functions pass the number of the next one along. *)
From S2P Require Import Prelude CharacterTypes Externals Utf8 StringView Utf8View Format PercentEncoding Ipv4 Host Url Time GenericLexer Http IpAddress Cookie.

(** The readings of the system clock, in the order of the calls. *)
Class Clock := { clock : nat → UnixDateTime }.

Record ParsedCookie := mk_parsed_cookie {
  parsed_name : bytes;
  parsed_value : bytes;
  same_site_attribute : SameSite;
  expiry_time_from_expires_attribute : option UnixDateTime;
  expiry_time_from_max_age_attribute : option UnixDateTime;
  parsed_domain : option bytes;
  parsed_path : option bytes;
  secure_attribute_present : bool;
  http_only_attribute_present : bool;
}.

#[global] Instance ParsedCookie_eq_dec : EqDecision ParsedCookie.
Proof. solve_decision. Defined.

Definition set_expires (c : ParsedCookie) (t : UnixDateTime) : ParsedCookie :=
  mk_parsed_cookie (parsed_name c) (parsed_value c) (same_site_attribute c) (Some t)
    (expiry_time_from_max_age_attribute c) (parsed_domain c) (parsed_path c) (secure_attribute_present c)
    (http_only_attribute_present c).
Definition set_max_age (c : ParsedCookie) (t : UnixDateTime) : ParsedCookie :=
  mk_parsed_cookie (parsed_name c) (parsed_value c) (same_site_attribute c) (expiry_time_from_expires_attribute c)
    (Some t) (parsed_domain c) (parsed_path c) (secure_attribute_present c) (http_only_attribute_present c).
Definition set_domain (c : ParsedCookie) (d : bytes) : ParsedCookie :=
  mk_parsed_cookie (parsed_name c) (parsed_value c) (same_site_attribute c) (expiry_time_from_expires_attribute c)
    (expiry_time_from_max_age_attribute c) (Some d) (parsed_path c) (secure_attribute_present c)
    (http_only_attribute_present c).
Definition set_path (c : ParsedCookie) (p : bytes) : ParsedCookie :=
  mk_parsed_cookie (parsed_name c) (parsed_value c) (same_site_attribute c) (expiry_time_from_expires_attribute c)
    (expiry_time_from_max_age_attribute c) (parsed_domain c) (Some p) (secure_attribute_present c)
    (http_only_attribute_present c).
Definition set_secure (c : ParsedCookie) : ParsedCookie :=
  mk_parsed_cookie (parsed_name c) (parsed_value c) (same_site_attribute c) (expiry_time_from_expires_attribute c)
    (expiry_time_from_max_age_attribute c) (parsed_domain c) (parsed_path c) true (http_only_attribute_present c).
Definition set_http_only (c : ParsedCookie) : ParsedCookie :=
  mk_parsed_cookie (parsed_name c) (parsed_value c) (same_site_attribute c) (expiry_time_from_expires_attribute c)
    (expiry_time_from_max_age_attribute c) (parsed_domain c) (parsed_path c) (secure_attribute_present c) true.
Definition set_same_site (c : ParsedCookie) (s : SameSite) : ParsedCookie :=
  mk_parsed_cookie (parsed_name c) (parsed_value c) s (expiry_time_from_expires_attribute c)
    (expiry_time_from_max_age_attribute c) (parsed_domain c) (parsed_path c) (secure_attribute_present c)
    (http_only_attribute_present c).

Definition MAXIMUM_COOKIE_AGE : Duration := from_seconds (400 * 24 * 60 * 60).

Definition is_invalid_control_character (code_point : Z) : bool :=
  (code_point <=? 0x08) || ((0x0a <=? code_point) && (code_point <=? 0x1f)) || (code_point =? 0x7f).

Definition cookie_contains_invalid_control_character (cookie_string : bytes) : bool :=
  existsb is_invalid_control_character (code_points cookie_string).

(** [StringView::split_view_if] with [SplitBehavior::Nothing]. *)
Fixpoint split_view_if (predicate : Z → bool) (s current : bytes) : list bytes :=
  match s with
  | [] => if bool_decide (current = []) then [] else [current]
  | c :: s =>
      if predicate c
      then (if bool_decide (current = []) then [] else [current]) ++ split_view_if predicate s []
      else split_view_if predicate s (current ++ [c])
  end.

(** ** Cookie dates *)
Module CookieDate.
Section Model.
Context `{FastFloat}.

(** [to_uint]: [None] for [false]; the result is written only on success. *)
Definition to_uint (token : bytes) : option Z :=
  if negb (forallb is_ascii_digit token) then None else to_number u32_max 10 token TrimWhitespaceYes.

Definition one_or_two (part : bytes) : bool := negb (bool_decide (part = [])) && (length part <=? 2)%nat.

(** The variables of [parse_date_time], with the flags. *)
Record DateState := mk_date_state {
  hour : Z; minute : Z; second : Z; day_of_month : Z; month : Z; year : Z;
  found_time : bool; found_day_of_month : bool; found_month : bool; found_year : bool;
}.

(** [parse_time]: the parts are written one after the other, so a part that fails
    leaves the earlier ones. *)
Definition parse_time (token : bytes) (d : DateState) : outcome (DateState * bool) :=
  parts ← split_view token [c_colon] SplitNothing;
  Returned match parts with
  | [h; m; s] =>
      if negb (one_or_two h && one_or_two m && one_or_two s) then (d, false)
      else
        match to_uint h with
        | None => (d, false)
        | Some h =>
            let d := mk_date_state h (minute d) (second d) (day_of_month d) (month d) (year d)
                       (found_time d) (found_day_of_month d) (found_month d) (found_year d) in
            match to_uint m with
            | None => (d, false)
            | Some m =>
                let d := mk_date_state (hour d) m (second d) (day_of_month d) (month d) (year d)
                           (found_time d) (found_day_of_month d) (found_month d) (found_year d) in
                match to_uint s with
                | None => (d, false)
                | Some s =>
                    (mk_date_state (hour d) (minute d) s (day_of_month d) (month d) (year d)
                       (found_time d) (found_day_of_month d) (found_month d) (found_year d), true)
                end
            end
        end
  | _ => (d, false)
  end.

Definition parse_day_of_month (token : bytes) : option Z := if one_or_two token then to_uint token else None.

Fixpoint find_month (names : list bytes) (token : bytes) (i : Z) : option Z :=
  match names with
  | [] => None
  | name :: names => if equals_ignoring_ascii_case token name then Some (i + 1) else find_month names token (i + 1)
  end.

Definition parse_month (token : bytes) : option Z := find_month short_month_names token 0.

Definition parse_year (token : bytes) : option Z :=
  if negb (length token =? 2)%nat && negb (length token =? 4)%nat then None else to_uint token.

Definition is_delimiter (ch : Z) : bool :=
  (ch =? 0x09) || ((0x20 <=? ch) && (ch <=? 0x2f)) || ((0x3b <=? ch) && (ch <=? 0x40))
  || ((0x5b <=? ch) && (ch <=? 0x60)) || ((0x7b <=? ch) && (ch <=? 0x7e)).

(** One token of step 2. *)
Definition process_token (d : DateState) (token : bytes) : outcome DateState :=
  '(d, time) ← (if found_time d then Returned (d, false) else parse_time token d);
  Returned (
    if (time : bool) then
      mk_date_state (hour d) (minute d) (second d) (day_of_month d) (month d) (year d)
        true (found_day_of_month d) (found_month d) (found_year d)
    else match (if found_day_of_month d then None else parse_day_of_month token) with
    | Some v =>
        mk_date_state (hour d) (minute d) (second d) v (month d) (year d)
          (found_time d) true (found_month d) (found_year d)
    | None =>
        match (if found_month d then None else parse_month token) with
        | Some v =>
            mk_date_state (hour d) (minute d) (second d) (day_of_month d) v (year d)
              (found_time d) (found_day_of_month d) true (found_year d)
        | None =>
            match (if found_year d then None else parse_year token) with
            | Some v =>
                mk_date_state (hour d) (minute d) (second d) (day_of_month d) (month d) v
                  (found_time d) (found_day_of_month d) (found_month d) true
            | None => d
            end
        end
    end).

Fixpoint process_tokens (d : DateState) (tokens : list bytes) : outcome DateState :=
  match tokens with
  | [] => Returned d
  | token :: tokens => d ← process_token d token; process_tokens d tokens
  end.

Definition parse_date_time (date_string : bytes) : outcome (option UnixDateTime) :=
  let date_tokens := split_view_if is_delimiter date_string [] in
  d ← process_tokens (mk_date_state 0 0 0 0 0 0 false false false false) date_tokens;
  let year := if (70 <=? year d) && (year d <=? 99) then year d + 1900 else year d in
  let year := if year <=? 69 then year + 2000 else year in
  if negb (found_day_of_month d) || negb (found_month d) || negb (found_year d) || negb (found_time d) then Returned None
  else if (day_of_month d <? 1) || (31 <? day_of_month d) then Returned None
  else if year <? 1601 then Returned None
  else if 23 <? hour d then Returned None
  else if 59 <? minute d then Returned None
  else if 59 <? second d then Returned None
  else
    days ← days_in_month year (month d);
    if days <? day_of_month d then Returned None
    else
      t ← from_unix_time_parts year (month d) (day_of_month d) (hour d) (minute d) (second d) 0;
      Returned (Some t).

End Model.
End CookieDate.
Export CookieDate.

(** ** Attributes *)
Section Model.
Context `{Simdutf} `{FastFloat} `{FastFloatSigned} `{Clock}.

Definition on_expires_attribute (parsed_cookie : ParsedCookie) (attribute_value : bytes) (now : nat)
    : outcome (ParsedCookie * nat) :=
  expiry_time ← parse_date_time attribute_value;
  match expiry_time with
  | None => Returned (parsed_cookie, now)
  | Some expiry_time =>
      cookie_age_limit ← duration_add (clock now) MAXIMUM_COOKIE_AGE;
      let now := S now in
      expiry_seconds ← seconds_since_epoch expiry_time;
      limit_seconds ← seconds_since_epoch cookie_age_limit;
      let expiry_time := if limit_seconds <? expiry_seconds then cookie_age_limit else expiry_time in
      let expiry_time := if duration_lt expiry_time earliest then earliest else expiry_time in
      Returned (set_expires parsed_cookie expiry_time, now)
  end.

Definition on_max_age_attribute (parsed_cookie : ParsedCookie) (attribute_value : bytes) (now : nat)
    : outcome (ParsedCookie * nat) :=
  match attribute_value with
  | [] => Returned (parsed_cookie, now)
  | first :: _ =>
      digits ← (if first =? c_minus then substring_view_from attribute_value 1 else Returned attribute_value);
      if bool_decide (digits = []) || negb (forallb is_ascii_digit digits) then Returned (parsed_cookie, now)
      else
        let delta_seconds :=
          match to_signed_number i64_min i64_max 10 attribute_value TrimWhitespaceYes with
          | Some delta_seconds => delta_seconds
          | None => if first =? c_minus then i64_min else i64_max
          end in
        limit ← to_seconds MAXIMUM_COOKIE_AGE;
        let delta_seconds := if limit <? delta_seconds then limit else delta_seconds in
        if delta_seconds <=? 0 then Returned (set_max_age parsed_cookie earliest, now)
        else
          expiry_time ← duration_add (clock now) (from_seconds delta_seconds);
          Returned (set_max_age parsed_cookie expiry_time, S now)
  end.

(** [None] is the error. *)
Definition on_domain_attribute (parsed_cookie : ParsedCookie) (attribute_value : bytes)
    : outcome (option ParsedCookie) :=
  if negb (sv_is_ascii attribute_value) then Returned None
  else
    cookie_domain ← (if starts_with_char attribute_value c_dot then substring_view_from attribute_value 1
                     else Returned attribute_value);
    lowercase_cookie_domain ← to_ascii_lowercase_string cookie_domain;
    Returned (Some (set_domain parsed_cookie lowercase_cookie_domain)).

Definition on_path_attribute (url : URL) (parsed_cookie : ParsedCookie) (attribute_value : bytes)
    : outcome ParsedCookie :=
  cookie_path ←
    match attribute_value with
    | [] => default_path url
    | c :: _ => if negb (c =? c_slash) then default_path url else s ← from_utf8 attribute_value; must s
    end;
  Returned (set_path parsed_cookie cookie_path).

Definition on_secure_attribute (parsed_cookie : ParsedCookie) : ParsedCookie := set_secure parsed_cookie.
Definition on_http_only_attribute (parsed_cookie : ParsedCookie) : ParsedCookie := set_http_only parsed_cookie.
Definition on_same_site_attribute (parsed_cookie : ParsedCookie) (attribute_value : bytes) : ParsedCookie :=
  set_same_site parsed_cookie (same_site_from_string attribute_value).

(** [None] is the error of the Domain attribute. *)
Definition process_attribute (url : URL) (parsed_cookie : ParsedCookie) (attribute_name attribute_value : bytes)
    (now : nat) : outcome (option ParsedCookie * nat) :=
  if equals_ignoring_ascii_case attribute_name (sv "Expires") then
    '(c, now) ← on_expires_attribute parsed_cookie attribute_value now; Returned (Some c, now)
  else if equals_ignoring_ascii_case attribute_name (sv "Max-Age") then
    '(c, now) ← on_max_age_attribute parsed_cookie attribute_value now; Returned (Some c, now)
  else if equals_ignoring_ascii_case attribute_name (sv "Domain") then
    c ← on_domain_attribute parsed_cookie attribute_value; Returned (c, now)
  else if equals_ignoring_ascii_case attribute_name (sv "Path") then
    c ← on_path_attribute url parsed_cookie attribute_value; Returned (Some c, now)
  else if equals_ignoring_ascii_case attribute_name (sv "Secure") then
    Returned (Some (on_secure_attribute parsed_cookie), now)
  else if equals_ignoring_ascii_case attribute_name (sv "HttpOnly") then
    Returned (Some (on_http_only_attribute parsed_cookie), now)
  else if equals_ignoring_ascii_case attribute_name (sv "SameSite") then
    Returned (Some (on_same_site_attribute parsed_cookie attribute_value), now)
  else Returned (Some parsed_cookie, now).

(** A pair split at the first [=]: the two sides, the second empty without one. *)
Definition split_attribute (cookie_av : bytes) : outcome (bytes * bytes) :=
  match find_char cookie_av c_equals with
  | Some position =>
      attribute_name ← substring_view cookie_av 0 position;
      attribute_value ← (if (position <? length cookie_av - 1)%nat then substring_view_from cookie_av (position + 1)
                         else Returned []);
      Returned (attribute_name, attribute_value)
  | None => Returned (cookie_av, [])
  end.

(** The recursion is on what is left of the attributes. *)
Fixpoint parse_attributes (fuel : nat) (url : URL) (parsed_cookie : ParsedCookie) (unparsed_attributes : bytes)
    (now : nat) : outcome (option ParsedCookie * nat) :=
  if bool_decide (unparsed_attributes = []) then Returned (Some parsed_cookie, now)
  else
    match fuel with
    | O => OutOfFuel
    | S fuel =>
        unparsed_attributes ← substring_view_from unparsed_attributes 1;
        '(cookie_av, unparsed_attributes) ←
          match find_char unparsed_attributes c_semicolon with
          | Some position =>
              cookie_av ← substring_view unparsed_attributes 0 position;
              rest ← substring_view_from unparsed_attributes position;
              Returned (cookie_av, rest)
          | None => Returned (unparsed_attributes, [])
          end;
        '(attribute_name, attribute_value) ← split_attribute cookie_av;
        let attribute_name := trim_whitespace attribute_name TrimBoth in
        let attribute_value := trim_whitespace attribute_value TrimBoth in
        if (1024 <? length attribute_value)%nat then parse_attributes fuel url parsed_cookie unparsed_attributes now
        else
          '(c, now) ← process_attribute url parsed_cookie attribute_name attribute_value now;
          match c with
          | None => Returned (None, now)
          | Some parsed_cookie => parse_attributes fuel url parsed_cookie unparsed_attributes now
          end
    end.

Definition parse_cookie (url : URL) (cookie_string : bytes) (now : nat) : outcome (option ParsedCookie * nat) :=
  if cookie_contains_invalid_control_character cookie_string then Returned (None, now)
  else
    '(name_value_pair, unparsed_attributes) ←
      match find_char cookie_string c_semicolon with
      | Some position =>
          name_value_pair ← substring_view cookie_string 0 position;
          unparsed_attributes ← substring_view_from cookie_string position;
          Returned (name_value_pair, unparsed_attributes)
      | None => Returned (cookie_string, [])
      end;
    '(name, value) ←
      match find_char name_value_pair c_equals with
      | None => Returned ([], name_value_pair)
      | Some position =>
          name ← substring_view name_value_pair 0 position;
          value ← (if (position <? length name_value_pair - 1)%nat
                   then substring_view_from name_value_pair (position + 1) else Returned []);
          Returned (name, value)
      end;
    let name := trim_whitespace name TrimBoth in
    let value := trim_whitespace value TrimBoth in
    if (4096 <? length name + length value)%nat then Returned (None, now)
    else
      name ← from_utf8 name; name ← must name;
      value ← from_utf8 value; value ← must value;
      let parsed_cookie := mk_parsed_cookie name value SameSiteDefault None None None None false false in
      parse_attributes (length unparsed_attributes) url parsed_cookie unparsed_attributes now.

End Model.
