(* ===== verification/ParsedCookieCorrect.v ===== *)
(** * What the Set-Cookie parser produces

    The date parser reads every date in the format servers print, and the cookie
    parser returns cookies that satisfy the limits of RFC 6265bis. *)
From S2P Require Import Prelude CharacterTypes Externals Utf8 StringView Utf8View Format PercentEncoding Ipv4 Host Url Time GenericLexer Http HttpHeader IpAddress Cookie ParsedCookie.

(** Close a decidable goal by evaluating its decision. *)
Ltac decide_by_compute := match goal with |- ?P => apply (bool_decide_unpack P); vm_compute; exact I end.

Section Dates.
Context `{FastFloatOk}.

(** ** Numbers in dates *)
Lemma digits_value_bound ds acc :
  forallb is_ascii_digit ds = true → 0 ≤ acc →
  acc * 10 ^ Z.of_nat (length ds) ≤ digits_value 10 acc ds < (acc + 1) * 10 ^ Z.of_nat (length ds).
Proof.
  revert acc. induction ds as [|c ds IH]; intros acc Hd Hacc; cbn [digits_value length]; [cbn; lia|].
  apply andb_prop in Hd as [Hc Hd].
  assert (0 ≤ default 0 (digit_value c) ≤ 9) as Hv.
  { unfold digit_value. rewrite Hc. cbn. unfold_ctypes. lia. }
  specialize (IH (acc * 10 + default 0 (digit_value c)) Hd ltac:(lia)).
  rewrite Nat2Z.inj_succ, Z.pow_succ_r by lia. nia.
Qed.

Lemma to_uint_spec token v :
  to_uint token = Some v → forallb is_ascii_digit token = true ∧ token ≠ [] ∧ v = digits_value 10 0 token.
Proof.
  unfold to_uint. destruct (forallb is_ascii_digit token) eqn:Ed; [|done]. cbn [negb]. unfold to_number.
  rewrite trim_digits by (by apply forallb_Forall). rewrite parse_number_spec by lia.
  case_match eqn:E; [|done]. apply andb_prop in E as [[Hne _]%andb_prop _]. intros [= <-].
  apply negb_true_iff, bool_decide_eq_false in Hne. done.
Qed.

Lemma to_uint_digits token :
  forallb is_ascii_digit token = true → token ≠ [] → (length token ≤ 4)%nat →
  to_uint token = Some (digits_value 10 0 token).
Proof.
  intros Hd Hne Hl. unfold to_uint. rewrite Hd. cbn [negb]. unfold to_number.
  rewrite trim_digits by (by apply forallb_Forall). rewrite parse_number_spec by lia.
  rewrite bool_decide_eq_false_2 by done. rewrite (forallb_ext (is_digit_in 10) is_ascii_digit) by apply is_digit_in_10.
  rewrite Hd. pose proof (digits_value_bound token 0 Hd ltac:(lia)) as [_ Hb].
  assert (10 ^ Z.of_nat (length token) ≤ 10 ^ 4) by (apply Z.pow_le_mono_r; lia).
  by rewrite (proj2 (Z.leb_le _ u32_max)) by lia.
Qed.

Lemma to_uint_bound token v n :
  to_uint token = Some v → (length token ≤ n)%nat → 0 ≤ v < 10 ^ Z.of_nat n.
Proof.
  intros (Hd & _ & ->)%to_uint_spec Hl. pose proof (digits_value_bound token 0 Hd ltac:(lia)) as [Hlo Hb].
  assert (10 ^ Z.of_nat (length token) ≤ 10 ^ Z.of_nat n) by (apply Z.pow_le_mono_r; lia). lia.
Qed.

(** ** The date parser returns *)
Record date_state_ok (d : DateState) : Prop := {
  hour_ok : 0 ≤ hour d;
  minute_ok : 0 ≤ minute d;
  second_ok : 0 ≤ second d;
  day_ok : 0 ≤ day_of_month d;
  year_ok : 0 ≤ year d ≤ 9999;
  month_ok : found_month d = true → 1 ≤ month d ≤ 12;
}.

Lemma one_or_two_bound part v : one_or_two part = true → to_uint part = Some v → 0 ≤ v < 100.
Proof.
  intros [_ Hl%Nat.leb_le]%andb_prop Hv. pose proof (to_uint_bound part v 2 Hv Hl). lia.
Qed.

Lemma parse_time_ok token d :
  date_state_ok d → ∃ d' b, parse_time token d = Returned (d', b) ∧ date_state_ok d' ∧ found_month d' = found_month d
    ∧ month d' = month d.
Proof.
  intros [Hh Hm Hs Hd Hy Hmo]. unfold parse_time. destruct (split_view_char_returns token c_colon SplitNothing) as [parts ->].
  rewrite bind_value. destruct parts as [|h [|m [|s [|]]]]; try by eexists d, false.
  destruct (one_or_two h && one_or_two m && one_or_two s) eqn:E; cbn [negb]; [|by eexists d, false].
  apply andb_prop in E as [[E1 E2]%andb_prop E3].
  destruct (to_uint h) as [vh|] eqn:Eh; [|by eexists d, false]. pose proof (one_or_two_bound _ _ E1 Eh).
  destruct (to_uint m) as [vm|] eqn:Em; [pose proof (one_or_two_bound _ _ E2 Em)|];
    [destruct (to_uint s) as [vs|] eqn:Es; [pose proof (one_or_two_bound _ _ E3 Es)|]|];
    eexists _, _; (split; [done|]); (split; [|done]); split; cbn; try done; lia.
Qed.

Lemma find_month_bound names token i v :
  find_month names token i = Some v → 0 ≤ i → i < v ≤ i + Z.of_nat (length names).
Proof.
  revert i. induction names as [|n names IH]; intros i; [done|]. cbn [find_month length]. case_match.
  - intros [= <-] Hi. lia.
  - intros Hv Hi. specialize (IH (i + 1) Hv ltac:(lia)). lia.
Qed.

Lemma process_token_ok d token :
  date_state_ok d → ∃ d', process_token d token = Returned d' ∧ date_state_ok d'.
Proof.
  intros Hd. unfold process_token.
  assert (∃ d1 b, (if found_time d then Returned (d, false) else parse_time token d) = Returned (d1, b) ∧ date_state_ok d1)
    as (d1 & b & -> & [H1 H2 H3 H4 H5 H6]).
  { destruct (found_time d); [by exists d, false|]. destruct (parse_time_ok token d Hd) as (d1 & b & -> & ? & _). by exists d1, b. }
  rewrite bind_value. eexists. split; [done|]. destruct b; [by split|].
  destruct (if found_day_of_month d1 then None else parse_day_of_month token) as [v|] eqn:Ed.
  { destruct (found_day_of_month d1); [done|]. unfold parse_day_of_month in Ed. destruct (one_or_two token) eqn:E; [|done].
    pose proof (one_or_two_bound _ _ E Ed). split; cbn; try done. lia. }
  destruct (if found_month d1 then None else parse_month token) as [v|] eqn:Em.
  { destruct (found_month d1); [done|]. apply find_month_bound in Em; [|lia]. cbn in Em. split; cbn; try done. lia. }
  destruct (if found_year d1 then None else parse_year token) as [v|] eqn:Ey; [|by split].
  destruct (found_year d1); [done|]. unfold parse_year in Ey. destruct (_ && _) eqn:El in Ey; [done|].
  assert (length token ≤ 4)%nat as Hl.
  { apply andb_false_iff in El as [E%negb_false_iff%Nat.eqb_eq|E%negb_false_iff%Nat.eqb_eq]; lia. }
  pose proof (to_uint_bound token v 4 Ey Hl). split; cbn; try done. cbn in *. lia.
Qed.

Lemma process_tokens_ok tokens d :
  date_state_ok d → ∃ d', process_tokens d tokens = Returned d' ∧ date_state_ok d'.
Proof.
  revert d. induction tokens as [|t tokens IH]; intros d Hd; [by exists d|]. cbn [process_tokens].
  destruct (process_token_ok d t Hd) as (d1 & -> & Hd1). rewrite bind_value. by apply IH.
Qed.

Lemma days_in_month_returns y m : 1 ≤ m ≤ 12 → ∃ n, days_in_month y m = Returned n ∧ 28 ≤ n ≤ 31.
Proof.
  intros Hm. unfold days_in_month. rewrite verify_true by lia.
  destruct (m =? 2); eexists; (split; [done|]); case_match; lia.
Qed.

(** Any string: no date, or a time in whole seconds in the years 1601 to 9999. *)
Lemma parse_date_time_returns s :
  ∃ r, parse_date_time s = Returned r ∧ ∀ t, r = Some t → duration_valid t ∧ m_nanoseconds t = 0 ∧ Z.abs (m_seconds t) < 10 ^ 12.
Proof.
  unfold parse_date_time.
  destruct (process_tokens_ok (split_view_if is_delimiter s []) (mk_date_state 0 0 0 0 0 0 false false false false))
    as (d & -> & [Hh Hmi Hs Hd Hy Hmo]); [by split|]. rewrite bind_value.
  set (y := if (70 <=? year d) && (year d <=? 99) then year d + 1900 else year d).
  set (y' := if y <=? 69 then y + 2000 else y).
  assert (0 ≤ y' ≤ 9999) as Hy'.
  { unfold y', y. destruct (_ && _) eqn:E1; [|]; destruct (_ <=? 69) eqn:E2; bool_to_prop; lia. }
  destruct (negb (found_day_of_month d) || _ || _ || _) eqn:Ef; [by exists None|].
  assert (1 ≤ month d ≤ 12) as Hm.
  { apply Hmo. destruct (found_month d); [done|]. cbn in Ef. by rewrite orb_true_r in Ef. }
  destruct ((day_of_month d <? 1) || _) eqn:Eday; [by exists None|]. destruct (y' <? 1601); [by exists None|].
  destruct (23 <? hour d) eqn:Eh; [by exists None|]. destruct (59 <? minute d) eqn:Emi; [by exists None|].
  destruct (59 <? second d) eqn:Es; [by exists None|].
  destruct (days_in_month_returns y' (month d) Hm) as (n & -> & Hn). rewrite bind_value.
  destruct (n <? day_of_month d) eqn:En; [by exists None|]. bool_to_prop.
  destruct (from_unix_time_parts_value y' (month d) (day_of_month d) (hour d) (minute d) (second d)) as (days & _ & Hdays & ->); try lia.
  rewrite bind_value. eexists. split; [done|]. intros t [= <-]. unfold duration_valid, i64_min, i64_max. cbn. lia.
Qed.

(** ** Dates as servers print them

    The names are those of RFC 9110, section 5.6.7. *)
Definition imf_day_names : list bytes := [sv "Mon"; sv "Tue"; sv "Wed"; sv "Thu"; sv "Fri"; sv "Sat"; sv "Sun"].
Definition imf_month_names : list bytes :=
  map sv ["Jan"; "Feb"; "Mar"; "Apr"; "May"; "Jun"; "Jul"; "Aug"; "Sep"; "Oct"; "Nov"; "Dec"]%string.

Definition digit (n : Z) : Z := c_0 + n.
Definition two_digits (n : Z) : bytes := [digit (n / 10); digit (n mod 10)].
Definition four_digits (n : Z) : bytes := two_digits (n / 100) ++ two_digits (n mod 100).

(** [Sun, 06 Nov 1994 08:49:37 GMT] *)
Definition time_text (hour minute second : Z) : bytes :=
  two_digits hour ++ [c_colon] ++ two_digits minute ++ [c_colon] ++ two_digits second.

Definition http_date (day_name month_name : bytes) (year day hour minute second : Z) : bytes :=
  day_name ++ [c_comma; c_space] ++ two_digits day ++ [c_space] ++ month_name ++ [c_space] ++ four_digits year ++ [c_space]
  ++ time_text hour minute second ++ [c_space] ++ sv "GMT".

Lemma digit_ascii n : 0 ≤ n ≤ 9 → is_ascii_digit (digit n) = true ∧ digit_value (digit n) = Some n.
Proof.
  intros Hn. assert (is_ascii_digit (digit n) = true) as Hd by (unfold digit; unfold_ctypes; lia).
  split; [done|]. unfold digit_value. rewrite Hd. unfold digit. f_equal. lia.
Qed.

Lemma two_digits_spec n :
  0 ≤ n ≤ 99 → forallb is_ascii_digit (two_digits n) = true ∧ ∀ acc, digits_value 10 acc (two_digits n) = acc * 100 + n.
Proof.
  intros Hn. destruct (digit_ascii (n / 10)) as [H1 V1]; [div_lia|]. destruct (digit_ascii (n mod 10)) as [H2 V2]; [div_lia|].
  unfold two_digits. cbn [forallb digits_value]. rewrite H1, H2, V1, V2. split; [done|]. intros acc. cbn [default id]. div_lia.
Qed.

Lemma four_digits_spec n :
  0 ≤ n ≤ 9999 → forallb is_ascii_digit (four_digits n) = true ∧ digits_value 10 0 (four_digits n) = n.
Proof.
  intros Hn. destruct (two_digits_spec (n / 100)) as [H1 V1]; [div_lia|]. destruct (two_digits_spec (n mod 100)) as [H2 V2]; [div_lia|].
  unfold four_digits. rewrite forallb_app, H1, H2, digits_value_app, V1, V2. split; [done|]. div_lia.
Qed.

Lemma to_uint_two n : 0 ≤ n ≤ 99 → to_uint (two_digits n) = Some n.
Proof. intros Hn. destruct (two_digits_spec n Hn) as [Hd Hv]. rewrite to_uint_digits by (done || cbn; lia). by rewrite Hv. Qed.

Lemma to_uint_four n : 0 ≤ n ≤ 9999 → to_uint (four_digits n) = Some n.
Proof. intros Hn. destruct (four_digits_spec n Hn) as [Hd Hv]. rewrite to_uint_digits by (done || cbn; lia). by rewrite Hv. Qed.

(** Tokens of characters that are not delimiters. *)
Lemma split_view_if_token p token c rest current :
  forallb (λ c, negb (p c)) token = true → current ++ token ≠ [] → p c = true →
  split_view_if p (token ++ c :: rest) current = (current ++ token) :: split_view_if p rest [].
Proof.
  revert current. induction token as [|x token IH]; intros current Ht Hne Hc; cbn [app split_view_if forallb] in *.
  - rewrite app_nil_r in *. rewrite Hc, bool_decide_eq_false_2 by done. done.
  - apply andb_prop in Ht as [Hx%negb_true_iff Ht]. rewrite Hx. rewrite IH; [|done| |done]; rewrite <-app_assoc; done.
Qed.

Lemma split_view_if_last p token current :
  forallb (λ c, negb (p c)) token = true → current ++ token ≠ [] → split_view_if p token current = [current ++ token].
Proof.
  revert current. induction token as [|x token IH]; intros current Ht Hne; cbn [split_view_if forallb] in *.
  - rewrite app_nil_r in *. by rewrite bool_decide_eq_false_2.
  - apply andb_prop in Ht as [Hx%negb_true_iff Ht]. rewrite Hx. rewrite IH; [|done|]; rewrite <-app_assoc; done.
Qed.

Lemma digits_no_delimiter token : forallb is_ascii_digit token = true → forallb (λ c, negb (is_delimiter c)) token = true.
Proof.
  rewrite !forallb_forall. intros Hd c Hc. specialize (Hd c Hc). unfold is_delimiter. unfold_ctypes. lia.
Qed.

Lemma http_date_tokens day_name month_name year day hour minute second :
  day_name ∈ imf_day_names → month_name ∈ imf_month_names →
  0 ≤ year ≤ 9999 → 0 ≤ day ≤ 99 → 0 ≤ hour ≤ 99 → 0 ≤ minute ≤ 99 → 0 ≤ second ≤ 99 →
  split_view_if is_delimiter (http_date day_name month_name year day hour minute second) []
  = [day_name; two_digits day; month_name; four_digits year; time_text hour minute second; sv "GMT"].
Proof.
  intros Hdn Hmn Hy Hd Hh Hm Hs. unfold http_date.
  assert (forallb (λ c, negb (is_delimiter c)) day_name = true ∧ day_name ≠ []) as [Hdn1 Hdn2].
  { unfold imf_day_names in Hdn. repeat (apply elem_of_cons in Hdn as [->|Hdn]; [by vm_compute|]). by apply elem_of_nil in Hdn. }
  assert (forallb (λ c, negb (is_delimiter c)) month_name = true ∧ month_name ≠ []) as [Hmn1 Hmn2].
  { unfold imf_month_names in Hmn. repeat (apply elem_of_cons in Hmn as [->|Hmn]; [by vm_compute|]). by apply elem_of_nil in Hmn. }
  assert (forallb (λ c, negb (is_delimiter c)) (time_text hour minute second) = true) as Ht.
  { unfold time_text. rewrite !forallb_app.
    rewrite (digits_no_delimiter (two_digits hour)), (digits_no_delimiter (two_digits minute)),
      (digits_no_delimiter (two_digits second)); [done|by apply two_digits_spec..]. }
  cbn [app]. rewrite (split_view_if_token _ day_name) by done. cbn [app split_view_if]. change (is_delimiter c_space) with true.
  rewrite bool_decide_eq_true_2 by done. cbn [app].
  rewrite (split_view_if_token _ (two_digits day)); [|by apply digits_no_delimiter, two_digits_spec|done..].
  rewrite (split_view_if_token _ month_name) by done.
  rewrite (split_view_if_token _ (four_digits year)); [|by apply digits_no_delimiter, four_digits_spec|done..].
  rewrite (split_view_if_token _ (time_text hour minute second)) by done.
  rewrite (split_view_if_last _ (sv "GMT")); [done|by vm_compute|done].
Qed.

Lemma split_colon s : s ≠ [] → split_view s [c_colon] SplitNothing = Returned (filter (λ part, part ≠ []) (split_on c_colon s)).
Proof.
  intros Hs. unfold split_view. rewrite verify_true by (by rewrite bool_decide_eq_false_2).
  rewrite bool_decide_eq_false_2 by done. apply split_view_loop_char. lia.
Qed.

Lemma parse_time_other token d : token ≠ [] → c_colon ∉ token → parse_time token d = Returned (d, false).
Proof.
  intros Hne Hc. unfold parse_time. rewrite split_colon, bind_value, split_on_absent by done.
  rewrite filter_cons_True by done. done.
Qed.

Lemma digits_no_colon token : forallb is_ascii_digit token = true → c_colon ∉ token.
Proof. rewrite forallb_forall. intros Hd Hc%list_elem_of_In. specialize (Hd _ Hc). done. Qed.

Lemma parse_time_text h m s d :
  0 ≤ h ≤ 99 → 0 ≤ m ≤ 99 → 0 ≤ s ≤ 99 →
  parse_time (time_text h m s) d = Returned (mk_date_state h m s (day_of_month d) (month d) (year d)
    (found_time d) (found_day_of_month d) (found_month d) (found_year d), true).
Proof.
  intros Hh Hm Hs. unfold parse_time. rewrite split_colon by done. rewrite bind_value.
  assert (filter (λ part, part ≠ []) (split_on c_colon (time_text h m s)) = [two_digits h; two_digits m; two_digits s]) as ->.
  { unfold time_text. cbn [app]. change (c_colon :: two_digits m ++ ?x) with (c_colon :: (two_digits m ++ x)).
    rewrite (split_on_app c_colon (two_digits h)) by (by apply digits_no_colon, two_digits_spec).
    rewrite (split_on_app c_colon (two_digits m)) by (by apply digits_no_colon, two_digits_spec).
    rewrite (split_on_absent c_colon (two_digits s)) by (by apply digits_no_colon, two_digits_spec). done. }
  change (one_or_two (two_digits h) && one_or_two (two_digits m) && one_or_two (two_digits s)) with true. cbn [negb].
  by rewrite (to_uint_two h), (to_uint_two m), (to_uint_two s).
Qed.

Definition month_name_of (m : Z) : bytes := nth (Z.to_nat (m - 1)) imf_month_names [].

Lemma month_name_cases m :
  1 ≤ m ≤ 12 → month_name_of m ∈ imf_month_names ∧ parse_month (month_name_of m) = Some m
    ∧ parse_day_of_month (month_name_of m) = None ∧ c_colon ∉ month_name_of m.
Proof.
  intros Hm. assert (m = 1 ∨ m = 2 ∨ m = 3 ∨ m = 4 ∨ m = 5 ∨ m = 6 ∨ m = 7 ∨ m = 8 ∨ m = 9 ∨ m = 10 ∨ m = 11 ∨ m = 12) as Hc by lia.
  destruct_or! Hc; subst m; (split; [decide_by_compute|]); (split; [by vm_compute|]);
    (split; [by vm_compute|]); decide_by_compute.
Qed.

(** A word that is neither a time, nor a day, a month or a year. *)
Lemma process_word d w :
  w ∈ sv "GMT" :: imf_day_names → process_token d w = Returned d.
Proof.
  intros Hw. assert (w ≠ [] ∧ c_colon ∉ w ∧ parse_day_of_month w = None ∧ parse_month w = None ∧ parse_year w = None)
    as (Hne & Hcolon & H1 & H2 & H3).
  { unfold imf_day_names in Hw. repeat (apply elem_of_cons in Hw as [->|Hw];
      [split_and!; try (by vm_compute); decide_by_compute|]). by apply elem_of_nil in Hw. }
  unfold process_token. rewrite parse_time_other by done. destruct (found_time d); rewrite bind_value.
  all: rewrite H1, H2, H3; by destruct (found_day_of_month d), (found_month d), (found_year d).
Qed.

(** The tokens of a printed date, in their order. *)
Lemma process_day d :
  0 ≤ d ≤ 99 → process_token (mk_date_state 0 0 0 0 0 0 false false false false) (two_digits d)
    = Returned (mk_date_state 0 0 0 d 0 0 false true false false).
Proof.
  intros Hd. unfold process_token. cbn [found_time].
  rewrite parse_time_other, bind_value by (done || by apply digits_no_colon, two_digits_spec).
  unfold parse_day_of_month. change (one_or_two (two_digits d)) with true. by rewrite (to_uint_two d).
Qed.

Lemma process_month d m :
  1 ≤ m ≤ 12 → process_token (mk_date_state 0 0 0 d 0 0 false true false false) (month_name_of m)
    = Returned (mk_date_state 0 0 0 d m 0 false true true false).
Proof.
  intros Hm. destruct (month_name_cases m Hm) as (_ & Hmonth & _ & Hcolon). unfold process_token. cbn [found_time].
  rewrite parse_time_other, bind_value; [by rewrite Hmonth|by intros E; rewrite E in Hmonth|done].
Qed.

Lemma process_year d m y :
  0 ≤ y ≤ 9999 → process_token (mk_date_state 0 0 0 d m 0 false true true false) (four_digits y)
    = Returned (mk_date_state 0 0 0 d m y false true true true).
Proof.
  intros Hy. unfold process_token. cbn [found_time].
  rewrite parse_time_other, bind_value by (done || by apply digits_no_colon, four_digits_spec).
  cbn [found_day_of_month found_month found_year]. unfold parse_year.
  change (negb (length (four_digits y) =? 2)%nat && negb (length (four_digits y) =? 4)%nat) with false.
  by rewrite (to_uint_four y).
Qed.

Lemma http_date_state day_name m y d h mi s :
  day_name ∈ imf_day_names → 1 ≤ m ≤ 12 → 0 ≤ y ≤ 9999 → 0 ≤ d ≤ 99 → 0 ≤ h ≤ 99 → 0 ≤ mi ≤ 99 → 0 ≤ s ≤ 99 →
  process_tokens (mk_date_state 0 0 0 0 0 0 false false false false)
    [day_name; two_digits d; month_name_of m; four_digits y; time_text h mi s; sv "GMT"]
  = Returned (mk_date_state h mi s d m y true true true true).
Proof.
  intros Hdn Hm Hy Hd Hh Hmi Hs. cbn [process_tokens].
  rewrite process_word, bind_value by (by right). rewrite process_day, bind_value by done.
  rewrite process_month, bind_value by done. rewrite process_year, bind_value by done.
  assert (process_token (mk_date_state 0 0 0 d m y false true true true) (time_text h mi s)
    = Returned (mk_date_state h mi s d m y true true true true)) as ->.
  { unfold process_token. cbn [found_time]. by rewrite parse_time_text, bind_value. }
  rewrite bind_value. by rewrite process_word by (by left).
Qed.

(** ** The Gregorian calendar

    The length of a month, and the days from 1 January 1970 by the closed formula over
    years that begin in March, whose leap day is the last one. *)
Definition leap (y : Z) : Prop := (4 | y) ∧ (¬ (100 | y) ∨ (400 | y)).

Definition month_days (y m : Z) (n : Z) : Prop :=
  (m ∈ [1; 3; 5; 7; 8; 10; 12] ∧ n = 31) ∨ (m ∈ [4; 6; 9; 11] ∧ n = 30)
  ∨ (m = 2 ∧ leap y ∧ n = 29) ∨ (m = 2 ∧ ¬ leap y ∧ n = 28).

Definition calendar_date (y m d : Z) : Prop := ∃ n, month_days y m n ∧ 1 ≤ d ≤ n.

Definition civil_days (y m d : Z) : Z :=
  let y' := if m <=? 2 then y - 1 else y in
  let m' := (m + 9) mod 12 in
  365 * y' + y' / 4 - y' / 100 + y' / 400 + (153 * m' + 2) / 5 + (d - 1) - 719468.

Lemma leap_spec y : leap y ↔ is_leap_year y = true.
Proof.
  rewrite is_leap_year_mod. unfold leap. rewrite <-!Z.mod_divide by lia.
  destruct (Z.eqb_spec (y mod 4) 0), (Z.eqb_spec (y mod 100) 0), (Z.eqb_spec (y mod 400) 0); cbn; naive_solver.
Qed.

Lemma month_days_spec y m n : month_days y m n → 1 ≤ m ≤ 12 ∧ days_in_month y m = Returned n.
Proof.
  unfold month_days. rewrite !leap_spec, !elem_of_cons, !elem_of_nil. intros Hm.
  assert (1 ≤ m ≤ 12) as Hr by lia. split; [done|]. unfold days_in_month. rewrite verify_true by lia.
  destruct Hm as [[Hm ->]|[[Hm ->]|[(-> & Hl & ->)|(-> & Hl & ->)]]]; [| |by rewrite Hl|by destruct (is_leap_year y)].
  all: destruct_or! Hm; subst; done.
Qed.

Lemma days_since_epoch_civil y m d : 1 ≤ m ≤ 12 → days_since_epoch y m d = Returned (civil_days y m d).
Proof.
  intros Hm. destruct (days_since_epoch_value y m d Hm) as (e & He & ->). f_equal.
  rewrite years_to_days_closed, is_leap_year_mod. unfold leap_days_before, civil_days.
  assert (m = 1 ∨ m = 2 ∨ m = 3 ∨ m = 4 ∨ m = 5 ∨ m = 6 ∨ m = 7 ∨ m = 8 ∨ m = 9 ∨ m = 10 ∨ m = 11 ∨ m = 12) as Hc by lia.
  destruct (Z.eqb_spec (y mod 4) 0), (Z.eqb_spec (y mod 100) 0), (Z.eqb_spec (y mod 400) 0); cbn [andb negb orb].
  all: destruct_or! Hc; subst m; vm_compute in He; injection He as <-; cbn [Z.leb Z.compare Pos.compare Pos.compare_cont].
  all: try (change ((1 + 9) mod 12) with 10).
  all: div_lia.
Qed.

(** C38: The cookie-date parser reads a date in the format servers send,
    [Sun, 06 Nov 1994 08:49:37 GMT], for every day of the Gregorian calendar from 1601 to
    9999 and every time of day, as that many seconds after 1 January 1970, the days
    counted by the closed formula of the calendar. *)
Theorem cookie_date_roundtrip day_name y m d h mi s
    (Hdn : day_name ∈ imf_day_names) (Hdate : calendar_date y m d) (Hy : 1601 ≤ y ≤ 9999)
    (Hh : 0 ≤ h ≤ 23) (Hmi : 0 ≤ mi ≤ 59) (Hs : 0 ≤ s ≤ 59) :
  parse_date_time (http_date day_name (month_name_of m) y d h mi s)
  = Returned (Some (mk_duration (civil_days y m d * 86400 + h * 3600 + mi * 60 + s) 0)).
Proof.
  destruct Hdate as (n & Hn & Hd). destruct (month_days_spec y m n Hn) as [Hm Hn'].
  destruct (days_in_month_returns y m Hm) as (n' & Hn'' & Hn31). assert (n' = n) as -> by congruence.
  destruct (from_unix_time_parts_value y m d h mi s) as (days & Hdays & _ & Ht); try lia.
  rewrite days_since_epoch_civil in Hdays by done. injection Hdays as <-. unfold parse_date_time.
  rewrite http_date_tokens by (done || lia || by apply month_name_cases). rewrite http_date_state, bind_value by (done || lia).
  cbn [found_time found_day_of_month found_month found_year hour minute second day_of_month month year negb orb].
  replace ((70 <=? y) && (y <=? 99)) with false by lia. replace (y <=? 69) with false by lia.
  replace ((d <? 1) || (31 <? d)) with false by lia. replace (y <? 1601) with false by lia.
  replace (23 <? h) with false by lia. replace (59 <? mi) with false by lia. replace (59 <? s) with false by lia.
  rewrite Hn', bind_value. replace (n <? d) with false by lia. by rewrite Ht.
Qed.

End Dates.

(** The clock gives legal times. *)
Class ClockOk `{Clock} := { clock_valid : ∀ n, duration_valid (clock n) }.

Section Cookies.
Context `{SimdutfOk} `{FastFloatOk} `{FastFloatSigned} `{ClockOk}.

(** ** What a parsed cookie satisfies

    The clock was read for it from [lo] on and before [hi]. *)
Definition age_limit (i : nat) : Z := duration_clamp (duration_ns (clock i) + duration_ns MAXIMUM_COOKIE_AGE).

Record parsed_cookie_wf (lo hi : nat) (c : ParsedCookie) : Prop := {
  parsed_name_valid : valid_utf8 (parsed_name c);
  parsed_value_valid : valid_utf8 (parsed_value c);
  parsed_length : (length (parsed_name c) + length (parsed_value c) ≤ 4096)%nat;
  parsed_expires : ∀ t, expiry_time_from_expires_attribute c = Some t →
    duration_valid t ∧ ∃ i, (lo ≤ i < hi)%nat ∧ duration_ns t ≤ age_limit i + 10 ^ 9;
  parsed_max_age : ∀ t, expiry_time_from_max_age_attribute c = Some t →
    duration_valid t ∧ (t = earliest ∨ ∃ i, (lo ≤ i < hi)%nat ∧ duration_ns t ≤ age_limit i);
  parsed_domain_ascii : ∀ d, parsed_domain c = Some d →
    Forall (λ b, 0 ≤ b < 0x80) d ∧ map to_ascii_lowercase d = d;
  parsed_path_absolute : ∀ p, parsed_path c = Some p → valid_utf8 p ∧ head p = Some c_slash;
}.

Lemma parsed_cookie_wf_later lo hi hi' c : (hi ≤ hi')%nat → parsed_cookie_wf lo hi c → parsed_cookie_wf lo hi' c.
Proof.
  intros Hle [W1 W2 W3 W4 W5 W6 W7]. split; try done.
  - intros t Ht. destruct (W4 t Ht) as (Hv & i & Hi & Hb). split; [done|]. exists i. split; [lia|done].
  - intros t Ht. destruct (W5 t Ht) as (Hv & [He|(i & Hi & Hb)]); [by split; [|left]|]. split; [done|]. right. exists i. split; [lia|done].
Qed.

Lemma earliest_valid : duration_valid earliest.
Proof. unfold duration_valid, earliest, duration_min, i64_min, i64_max. cbn. lia. Qed.

Lemma age_limit_time i :
  ∃ t, duration_add (clock i) MAXIMUM_COOKIE_AGE = Returned t ∧ duration_valid t ∧ duration_ns t = age_limit i.
Proof. apply duration_add_saturates; [apply clock_valid|unfold duration_valid, i64_min, i64_max; cbn; lia]. Qed.

Lemma on_expires_wf lo now c v :
  (lo ≤ now)%nat → parsed_cookie_wf lo now c →
  ∃ c' now', on_expires_attribute c v now = Returned (c', now') ∧ (now ≤ now')%nat ∧ parsed_cookie_wf lo now' c'.
Proof.
  intros Hlo Hc. unfold on_expires_attribute. destruct (parse_date_time_returns v) as (r & -> & Hr). rewrite bind_value.
  destruct r as [t|]; [|by exists c, now]. destruct (Hr t eq_refl) as (Hv & Hn & _).
  destruct (age_limit_time now) as (l & -> & Hlv & Hln). rewrite bind_value. unfold seconds_since_epoch.
  destruct (to_seconds_value t Hv) as (ts & -> & Hts & Ht0). rewrite bind_value.
  destruct (to_seconds_value l Hlv) as (ls & -> & Hls & _). rewrite bind_value.
  set (t1 := if ls <? ts then l else t).
  assert (duration_valid t1 ∧ duration_ns t1 ≤ age_limit now + 10 ^ 9) as [Hv1 Hb1].
  { unfold t1. destruct (Z.ltb_spec ls ts); [split; [done|lia]|]. split; [done|]. rewrite <-Hln.
    specialize (Ht0 Hn). unfold duration_ns. destruct Hlv. lia. }
  set (t2 := if duration_lt t1 earliest then earliest else t1).
  assert (duration_valid t2 ∧ duration_ns t2 ≤ age_limit now + 10 ^ 9) as [Hv2 Hb2].
  { unfold t2. destruct (duration_lt t1 earliest); [|done]. split; [apply earliest_valid|].
    unfold age_limit, duration_clamp. change earliest with duration_min. lia. }
  eexists _, (S now). split; [done|]. split; [lia|]. apply (parsed_cookie_wf_later lo now (S now)) in Hc; [|lia].
  destruct Hc as [W1 W2 W3 W4 W5 W6 W7]. split; cbn; try done. intros t' [= <-]. split; [done|]. exists now. split; [lia|done].
Qed.

Lemma on_max_age_wf lo now c v :
  (lo ≤ now)%nat → parsed_cookie_wf lo now c →
  ∃ c' now', on_max_age_attribute c v now = Returned (c', now') ∧ (now ≤ now')%nat ∧ parsed_cookie_wf lo now' c'.
Proof.
  intros Hlo Hc. unfold on_max_age_attribute. destruct v as [|first rest]; [by exists c, now|].
  assert (∃ ds, (if first =? c_minus then substring_view_from (first :: rest) 1 else Returned (first :: rest)) = Returned ds)
    as [ds ->].
  { destruct (first =? c_minus); [|by eexists]. rewrite substring_view_from_in_range by (cbn; lia). by eexists. }
  rewrite bind_value. case_goal; [by exists c, now|]. change (to_seconds MAXIMUM_COOKIE_AGE) with (Returned 34560000).
  rewrite bind_value. set (delta := match to_signed_number _ _ _ _ _ with Some x => x | None => _ end).
  set (d := if 34560000 <? delta then 34560000 else delta). assert (d ≤ 34560000) as Hd by (unfold d; case_match; bool_to_prop; lia).
  destruct (Z.leb_spec d 0) as [Hz|Hz].
  - eexists _, now. split; [done|]. split; [done|]. destruct Hc as [W1 W2 W3 W4 W5 W6 W7]. split; cbn; try done.
    intros t [= <-]. split; [apply earliest_valid|by left].
  - destruct (duration_add_saturates (clock now) (from_seconds d)) as (t & -> & Hv & Hns);
      [apply clock_valid|unfold duration_valid, i64_min, i64_max; cbn; lia|].
    rewrite bind_value. eexists _, (S now). split; [done|]. split; [lia|].
    apply (parsed_cookie_wf_later lo now (S now)) in Hc; [|lia]. destruct Hc as [W1 W2 W3 W4 W5 W6 W7]. split; cbn; try done.
    intros t' [= <-]. split; [done|]. right. exists now. split; [lia|]. rewrite Hns. unfold age_limit, duration_clamp.
    assert (duration_ns (from_seconds d) ≤ duration_ns MAXIMUM_COOKIE_AGE); [|lia]. unfold duration_ns. cbn. lia.
Qed.

Lemma ascii_text_valid s : Forall (λ b, 0 ≤ b < 0x80) s → valid_utf8 s.
Proof.
  induction 1 as [|b s Hb _ IH]; [apply valid_utf8_nil|]. apply (valid_utf8_app [b] s); [by apply valid_utf8_ascii_char|done].
Qed.

Lemma on_domain_wf lo now c v :
  valid_utf8 v → parsed_cookie_wf lo now c →
  ∃ r, on_domain_attribute c v = Returned r ∧ ∀ c', r = Some c' → parsed_cookie_wf lo now c'.
Proof.
  intros Hv Hc. unfold on_domain_attribute. rewrite sv_is_ascii_spec.
  destruct (forallb is_ascii v) eqn:Ea; cbn [negb]; [|by eexists].
  assert (∃ d, (if starts_with_char v c_dot then substring_view_from v 1 else Returned v) = Returned d
    ∧ Forall (λ b, 0 ≤ b < 0x80) d) as (d & -> & Hd).
  { assert (Forall (λ b, 0 ≤ b < 0x80) v) as Hva.
    { apply Forall_forall. intros b Hb. rewrite forallb_forall in Ea.
      pose proof (proj1 (Forall_forall _ _) (valid_utf8_bytes v Hv) b Hb) as Hbyte.
      apply list_elem_of_In, Ea in Hb. unfold is_ascii, is_byte in *. bool_to_prop. lia. }
    destruct v as [|x v]; [by eexists|]. destruct (starts_with_char (x :: v) c_dot); [|by eexists].
    rewrite substring_view_from_in_range by (cbn; lia). eexists. split; [done|]. by apply Forall_drop. }
  rewrite bind_value. unfold to_ascii_lowercase_string. rewrite utf8_validate_valid, bind_value by (by apply ascii_text_valid).
  eexists. split; [done|]. intros c' [= <-]. destruct Hc as [W1 W2 W3 W4 W5 W6 W7]. split; cbn; try done.
  intros d' [= <-]. split; [|rewrite map_map; apply map_ext, to_ascii_lowercase_idemp].
  apply Forall_map. eapply Forall_impl; [exact Hd|]. intros b Hb. cbn in Hb |- *.
  unfold to_ascii_lowercase. destruct (is_ascii_upper_alpha b) eqn:Eb; [|done]. unfold is_ascii_upper_alpha in Eb. bool_to_prop. lia.
Qed.

Section Url.
Variable url : URL.

(** The default path of the URL, where it has one. *)
Hypothesis url_path : ∃ p, default_path url = Returned p ∧ valid_utf8 p ∧ head p = Some c_slash.

Lemma on_path_wf lo now c v :
  valid_utf8 v → parsed_cookie_wf lo now c → ∃ c', on_path_attribute url c v = Returned c' ∧ parsed_cookie_wf lo now c'.
Proof.
  intros Hv Hc. unfold on_path_attribute. destruct url_path as (dp & Hdp & Hdv & Hds).
  assert (∃ p, match v with [] => default_path url | x :: _ => if negb (x =? c_slash) then default_path url
    else s ← from_utf8 v; must s end = Returned p ∧ valid_utf8 p ∧ head p = Some c_slash) as (p & -> & Hpv & Hps).
  { destruct v as [|x v]; [by exists dp|]. destruct (Z.eqb_spec x c_slash) as [->|]; cbn [negb]; [|by exists dp].
    rewrite from_utf8_valid, bind_value by done. by exists (c_slash :: v). }
  rewrite bind_value. eexists. split; [done|]. destruct Hc as [W1 W2 W3 W4 W5 W6 W7]. split; cbn; try done. by intros p' [= <-].
Qed.

Lemma process_attribute_wf lo now c name v :
  (lo ≤ now)%nat → valid_utf8 v → parsed_cookie_wf lo now c →
  ∃ r now', process_attribute url c name v now = Returned (r, now') ∧ (now ≤ now')%nat
    ∧ ∀ c', r = Some c' → parsed_cookie_wf lo now' c'.
Proof.
  intros Hlo Hv Hc. unfold process_attribute. case_goal.
  { destruct (on_expires_wf lo now c v Hlo Hc) as (c' & now' & -> & Hle & Hc'). rewrite bind_value. eexists _, _.
    split_and!; [done..|by intros ? [= <-]]. }
  case_goal.
  { destruct (on_max_age_wf lo now c v Hlo Hc) as (c' & now' & -> & Hle & Hc'). rewrite bind_value. eexists _, _.
    split_and!; [done..|by intros ? [= <-]]. }
  case_goal.
  { destruct (on_domain_wf lo now c v Hv Hc) as (r & -> & Hr). rewrite bind_value. by exists r, now. }
  case_goal.
  { destruct (on_path_wf lo now c v Hv Hc) as (c' & -> & Hc'). rewrite bind_value. eexists _, now.
    split_and!; [done..|by intros ? [= <-]]. }
  repeat (case_goal; [eexists _, now; split_and!; [done..|];
    intros c' [= <-]; destruct Hc as [W1 W2 W3 W4 W5 W6 W7]; by split|]).
  exists (Some c), now. split_and!; [done..|by intros ? [= <-]].
Qed.

(** Cutting text at the first occurrence of an ASCII character. *)
Lemma find_char_cut s c k :
  0 ≤ c < 0x80 → valid_utf8 s → find_char s c = Some k →
  (k < length s)%nat ∧ substring_view s 0 k = Returned (take k s) ∧ valid_utf8 (take k s)
  ∧ substring_view_from s k = Returned (drop k s) ∧ drop k s = c :: drop (S k) s ∧ valid_utf8 (drop (S k) s)
  ∧ (if (k <? length s - 1)%nat then substring_view_from s (k + 1) else Returned []) = Returned (drop (S k) s).
Proof.
  intros Hc Hv Hf. pose proof (find_char_lt _ _ _ Hf) as Hlt.
  assert (s !! k = Some c) as Hk.
  { unfold find_char in Hf. destruct s as [|x s]; [done|]. case_match eqn:E; [done|]. injection Hf as <-.
    apply simdutf_find_found. apply Nat.eqb_neq in E. pose proof (simdutf_find_bound (x :: s) c). lia. }
  pose proof (drop_S s c k Hk) as Hd. rewrite substring_view_in_range, drop_0, !substring_view_from_in_range by lia.
  pose proof Hv as Hv'. rewrite <-(take_drop_middle s k c Hk) in Hv'.
  apply valid_utf8_split_ascii in Hv' as [Hv1 Hv2]; [|lia]. split_and!; try done.
  destruct (Nat.ltb_spec k (length s - 1)); [by rewrite Nat.add_1_r|]. by rewrite drop_ge by lia.
Qed.

Lemma split_attribute_valid s : valid_utf8 s → ∃ n v, split_attribute s = Returned (n, v) ∧ valid_utf8 v.
Proof.
  intros Hv. unfold split_attribute. destruct (find_char s c_equals) as [k|] eqn:E.
  - destruct (find_char_cut s c_equals k ltac:(lia) Hv E) as (_ & -> & _ & _ & _ & Hv2 & ->). rewrite !bind_value. by eexists _, _.
  - eexists _, _. split; [done|apply valid_utf8_nil].
Qed.

Lemma trim_whitespace_valid s : valid_utf8 s → valid_utf8 (trim_whitespace s TrimBoth).
Proof. apply trim_valid. by repeat constructor. Qed.

(** What is left of the attributes begins with a semicolon. *)
Definition attributes_left (s : bytes) : Prop := s = [] ∨ ∃ rest, s = c_semicolon :: rest ∧ valid_utf8 rest.

Lemma parse_attributes_wf fuel lo now c s :
  (length s ≤ fuel)%nat → (lo ≤ now)%nat → attributes_left s → parsed_cookie_wf lo now c →
  ∃ r now', parse_attributes fuel url c s now = Returned (r, now') ∧ (now ≤ now')%nat
    ∧ ∀ c', r = Some c' → parsed_cookie_wf lo now' c'.
Proof.
  revert now c s. induction fuel as [|fuel IH]; intros now c s Hf Hlo [->|(rest & -> & Hv)] Hc; cbn [length] in Hf;
    try (exists (Some c), now; split_and!; [done..|by intros ? [= <-]]); [lia|].
  cbn [parse_attributes]. rewrite bool_decide_eq_false_2 by done.
  rewrite substring_view_from_in_range, bind_value by (cbn; lia). change (drop 1 (c_semicolon :: rest)) with rest.
  assert (∃ av rest', match find_char rest c_semicolon with
    | Some position => cookie_av ← substring_view rest 0 position; r ← substring_view_from rest position; Returned (cookie_av, r)
    | None => Returned (rest, [] : bytes) end = Returned (av, rest') ∧ valid_utf8 av ∧ attributes_left rest' ∧ (length rest' ≤ fuel)%nat)
    as (av & rest' & -> & Hav & Hrest & Hlen).
  { destruct (find_char rest c_semicolon) as [k|] eqn:E.
    - destruct (find_char_cut rest c_semicolon k ltac:(lia) Hv E) as (_ & -> & Hv1 & -> & Hd & Hv2 & _). rewrite !bind_value.
      eexists _, _. split_and!; [done..| |rewrite length_drop; lia]. right. by eexists.
    - eexists _, _. split_and!; [done..|by left|cbn; lia]. }
  rewrite bind_value. destruct (split_attribute_valid av Hav) as (n & v & -> & Hvv). rewrite bind_value.
  case_goal; [by apply IH|].
  destruct (process_attribute_wf lo now c (trim_whitespace n TrimBoth) (trim_whitespace v TrimBoth) Hlo)
    as (r & now' & -> & Hle & Hr); [by apply trim_whitespace_valid|done|]. rewrite bind_value.
  destruct r as [c'|]; [|by eexists _, _].
  destruct (IH now' c' rest' Hlen ltac:(lia) Hrest (Hr c' eq_refl)) as (r & now2 & -> & Hle2 & Hr2).
  eexists _, _. split_and!; [done|lia|done].
Qed.

Lemma parse_cookie_returns now s :
  valid_utf8 s → ∃ r now', parse_cookie url s now = Returned (r, now') ∧ (now ≤ now')%nat
    ∧ ∀ c, r = Some c → parsed_cookie_wf now now' c.
Proof.
  intros Hv. unfold parse_cookie. destruct (cookie_contains_invalid_control_character s); [by exists None, now|].
  assert (∃ pair left, match find_char s c_semicolon with
    | Some position => n ← substring_view s 0 position; u ← substring_view_from s position; Returned (n, u)
    | None => Returned (s, [] : bytes) end = Returned (pair, left) ∧ valid_utf8 pair ∧ attributes_left left) as (pair & left' & -> & Hp & Hl).
  { destruct (find_char s c_semicolon) as [k|] eqn:E; [|by eexists _, _; split_and!; [..|left]].
    destruct (find_char_cut s c_semicolon k ltac:(lia) Hv E) as (_ & -> & Hv1 & -> & Hd & Hv2 & _). rewrite !bind_value.
    eexists _, _. split_and!; [done..|]. right. by eexists. }
  rewrite bind_value.
  assert (∃ n v, match find_char pair c_equals with
    | None => Returned ([] : bytes, pair)
    | Some position => name ← substring_view pair 0 position;
        value ← (if (position <? length pair - 1)%nat then substring_view_from pair (position + 1) else Returned []);
        Returned (name, value) end = Returned (n, v) ∧ valid_utf8 n ∧ valid_utf8 v) as (n & v & -> & Hn & Hvv).
  { destruct (find_char pair c_equals) as [k|] eqn:E; [|by eexists _, _; split_and!; [|apply valid_utf8_nil|]].
    destruct (find_char_cut pair c_equals k ltac:(lia) Hp E) as (_ & -> & Hv1 & _ & _ & Hv2 & ->). rewrite !bind_value. by eexists _, _. }
  rewrite bind_value. apply trim_whitespace_valid in Hn, Hvv.
  destruct (Nat.ltb_spec 4096 (length (trim_whitespace n TrimBoth) + length (trim_whitespace v TrimBoth))) as [|Hle]; [by exists None, now|].
  rewrite !from_utf8_valid, !bind_value by done. cbn [must]. rewrite !bind_value.
  apply parse_attributes_wf; [done..|]. by split.
Qed.

End Url.

(** C23: For a URL whose percent-decoded path is UTF-8 text, a Set-Cookie string of UTF-8
    text is parsed to the end without an abort.  A
    parsed cookie has a name and a value of UTF-8 text of at most 4096 bytes together,
    a domain in lower-case ASCII, an absolute path, and expires, by either attribute,
    at most 400 days after a time the clock showed during the parse (one second more
    for a date, which is compared in whole seconds) -- or at the earliest time, for
    an age of zero or less. *)
Theorem parse_cookie_wf url now s :
  (∃ p, decoded_path url = Returned p ∧ valid_utf8 p) → valid_utf8 s →
  ∃ r now', parse_cookie url s now = Returned (r, now') ∧ (now ≤ now')%nat
    ∧ ∀ c, r = Some c → parsed_cookie_wf now now' c.
Proof.
  intros (p & Hp & Hpv) Hv. apply parse_cookie_returns; [|done].
  destruct (default_path_returns url p Hp Hpv) as (d & Hd & Hdv & Hds & _). by exists d.
Qed.

End Cookies.

#[local] Existing Instances fast_float_example fast_float_example_ok.

Lemma cookie_date_roundtrip_witness :
  parse_date_time (sv "Sun, 06 Nov 1994 08:49:37 GMT") = Returned (Some (mk_duration 784111777 0))
  ∧ parse_date_time (sv "Thu, 29 Feb 2024 00:00:00 GMT") = Returned (Some (mk_duration 1709164800 0)).
Proof.
  split.
  - apply (cookie_date_roundtrip (sv "Sun") 1994 11 6 8 49 37); try lia; [decide_by_compute|].
    exists 30. split; [|lia]. right. left. split; [decide_by_compute|done].
  - apply (cookie_date_roundtrip (sv "Thu") 2024 2 29 0 0 0); try lia; [decide_by_compute|].
    exists 29. split; [|lia]. right. right. left. split; [done|]. split; [|done]. by apply leap_spec.
Defined.

(** ** An example *)
#[local] Existing Instances simdutf_example simdutf_example_ok.

#[local] Existing Instance fast_float_signed_example.

Definition clock_example : Clock := {| clock n := mk_duration (Z.min (1700000000 + Z.of_nat n) (10 ^ 15)) 0 |}.
#[local] Existing Instance clock_example.

#[local] Instance clock_example_ok : ClockOk.
Proof. split. intros n. unfold duration_valid, clock, clock_example, i64_min, i64_max. cbn [m_seconds m_nanoseconds]. lia. Qed.

Lemma parse_cookie_wf_witness :
  ∃ c now', parse_cookie example_cookie_url (sv "id=1; Max-Age=60; Path=/docs; Secure") 0 = Returned (Some c, now')
    ∧ parsed_cookie_wf 0 now' c.
Proof.
  destruct (parse_cookie_wf example_cookie_url 0 (sv "id=1; Max-Age=60; Path=/docs; Secure")) as (r & now' & Hr & _ & Hc).
  - eexists. split; [by vm_compute|]. apply ascii_text_valid. by repeat constructor.
  - apply ascii_text_valid. by repeat constructor.
  - assert (is_Some r) as [c ->]; [|by exists c, now'; split; [|apply Hc]].
    vm_compute in Hr. injection Hr as <- _. by eexists.
Defined.
