(* ===== verification/CookieJar.v ===== *)
(** * LibWebView/CookieJar.{h,cpp}: the cookie jar

    The jar keeps the cookies in a hash map, the cookies changed since the last
    synchronization in another, and, when it is persistent, an SQL table that a
    timer writes the changed cookies to.

    Readings of the clock are numbered (ParsedCookie.v), and the notifications to
    the web views are a log; both are in [Env], which every operation passes along.
    The database and the open views are parameters. *)
From stdpp Require Import gmap.
From S2P Require Import Prelude CharacterTypes Externals Utf8 StringView Utf8View Format PercentEncoding Ipv4 Host PublicSuffix Url Time GenericLexer Http IpAddress HashFunctions HashTable HashTableCorrect HashMap Cookie ParsedCookie.

(** ** Keys *)
Record CookieStorageKey := mk_storage_key { key_name : bytes; key_domain : bytes; key_path : bytes }.

#[global] Instance CookieStorageKey_eq_dec : EqDecision CookieStorageKey.
Proof. solve_decision. Defined.

#[global] Instance CookieStorageKey_countable : Countable CookieStorageKey.
Proof.
  refine (inj_countable' (λ k, (key_name k, key_domain k, key_path k)) (λ t, mk_storage_key t.1.1 t.1.2 t.2) _).
  by intros [].
Defined.

(** [Traits<CookieStorageKey>::hash] *)
Definition storage_key_hash (key : CookieStorageKey) : Z :=
  let hash := 0 in
  let hash := pair_int_hash hash (string_hash (key_name key) 0) in
  let hash := pair_int_hash hash (string_hash (key_domain key) 0) in
  pair_int_hash hash (string_hash (key_path key) 0).

#[global] Instance storage_key_traits : KeyTraits CookieStorageKey := {
  key_hash := storage_key_hash;
  key_equals a b := bool_decide (a = b);
  key_may_have_slow_equality_check := true;
}.

#[global] Instance storage_key_traits_ok : KeyTraitsOk CookieStorageKey.
Proof. split; [done|]. intros a. apply u64_hash_range. Qed.

Definition key_of (c : Cookie) : CookieStorageKey := mk_storage_key (cookie_name c) (cookie_domain c) (cookie_path c).

(** Assignments to one field of a cookie. *)
Definition with_creation_time (c : Cookie) (t : UnixDateTime) : Cookie :=
  mk_cookie (cookie_name c) (cookie_value c) (same_site c) t (last_access_time c) (expiry_time c) (cookie_domain c)
    (cookie_path c) (cookie_secure c) (cookie_http_only c) (cookie_host_only c) (cookie_persistent c).
Definition with_last_access_time (c : Cookie) (t : UnixDateTime) : Cookie :=
  mk_cookie (cookie_name c) (cookie_value c) (same_site c) (creation_time c) t (expiry_time c) (cookie_domain c)
    (cookie_path c) (cookie_secure c) (cookie_http_only c) (cookie_host_only c) (cookie_persistent c).
Definition with_expiry_time (c : Cookie) (t : UnixDateTime) : Cookie :=
  mk_cookie (cookie_name c) (cookie_value c) (same_site c) (creation_time c) (last_access_time c) t (cookie_domain c)
    (cookie_path c) (cookie_secure c) (cookie_http_only c) (cookie_host_only c) (cookie_persistent c).

(** ** Notifications *)

(** A call of [notify_cookies_changed] on a view. *)
Record Notification := mk_notification {
  notified_view : URL;
  changed_domains : HashTable bytes;
  matching_cookies : list Cookie;
}.

(** The URLs of the open views, at the time of a reading of the clock. *)
Class Views := { open_views : nat → list URL }.

(** The number of the next reading of the clock, and the notifications sent. *)
Record Env := mk_env { readings : nat; notifications : list Notification }.

(** ** The database *)

(** The columns of the table, as they are bound and read. *)
Record CookieRow := mk_row {
  row_name : bytes; row_value : bytes; row_same_site : Z; row_creation_time : Z; row_last_access_time : Z;
  row_expiry_time : Z; row_domain : bytes; row_path : bytes; row_secure : Z; row_http_only : Z; row_host_only : Z;
  row_persistent : Z;
}.

(** The prepared statements, executed on a database. *)
Class CookieDatabase (D : Type) := {
  execute_insert_cookie : D → CookieRow → D;
  execute_expire_cookie : D → Z → D;
  execute_select_all_cookies : D → list CookieRow;
}.

Notation Cookies := (HashMap CookieStorageKey Cookie).

Record TransientStorage := mk_transient { m_cookies : Cookies; m_dirty_cookies : Cookies }.

Record CookieJar (D : Type) := mk_jar { m_persisted_storage : option D; m_transient_storage : TransientStorage }.
Arguments mk_jar {D}.
Arguments m_persisted_storage {D}.
Arguments m_transient_storage {D}.

Inductive MatchingCookiesSpecMode := RFC6265 | WebDriver.

#[global] Instance MatchingCookiesSpecMode_eq_dec : EqDecision MatchingCookiesSpecMode.
Proof. solve_decision. Defined.

(** [Requests::CacheSizes], of [u64]. *)
Record CacheSizes := mk_sizes { since_requested_time : Z; total : Z }.

(** [Vector::insert_before_matching] *)
Fixpoint insert_before_matching {A} (value : A) (predicate : A → bool) (v : list A) : list A :=
  match v with
  | [] => [value]
  | x :: v => if predicate x then value :: x :: v else x :: insert_before_matching value predicate v
  end.

Definition operator_ge (a b : UnixDateTime) : bool := negb (duration_lt a b).

(** ** Transient storage *)
Module Transient.
Section Model.
Context `{Simdutf} `{FastFloat} `{PublicSuffixData} `{IcuCaseMap} `{Clock} `{Views}.

(** [UnixDateTime::now()] *)
Definition next_reading (env : Env) : Env := mk_env (S (readings env)) (notifications env).

(** One view's changed domains and matching cookies. *)
Fixpoint collect_changes (cookies : list Cookie) (url : URL) (host : bytes) (inform : bool) (domains : HashTable bytes)
    (matching : list Cookie) : outcome (HashTable bytes * list Cookie) :=
  match cookies with
  | [] => Returned (domains, matching)
  | cookie :: cookies =>
      domains ← (if inform then '(domains, _) ← try_set domains (cookie_domain cookie) Replace; Returned domains
                 else Returned domains);
      matches ← cookie_matches_url cookie url host None;
      collect_changes cookies url host inform domains (if (matches : bool) then matching ++ [cookie] else matching)
  end.

Fixpoint notify_views (views : list URL) (cookies : list Cookie) (inform : bool) : outcome (list Notification) :=
  match views with
  | [] => Returned []
  | url :: views =>
      host ← canonicalize_domain url;
      match host with
      | None => notify_views views cookies inform
      | Some host =>
          '(domains, matching) ← collect_changes cookies url host inform empty_table [];
          rest ← notify_views views cookies inform;
          Returned (mk_notification url domains matching :: rest)
      end
  end.

Definition send_cookie_changed_notifications (env : Env) (cookies : list Cookie) (inform : bool) : outcome Env :=
  sent ← notify_views (open_views (readings env)) cookies inform;
  Returned (mk_env (readings env) (notifications env ++ sent)).

Definition is_expired (now : UnixDateTime) (c : Cookie) : bool := duration_lt (expiry_time c) now.

Definition shift_expiry (offset : Duration) (e : Entry CookieStorageKey Cookie) (acc : unit)
    : outcome (Entry CookieStorageKey Cookie * unit) :=
  t ← duration_sub (expiry_time (value e)) offset;
  Returned (mk_entry (key e) (with_expiry_time (value e) t), acc).

Definition purge_expired_cookies (t : TransientStorage) (env : Env) (offset : option Duration)
    : outcome (TransientStorage * Env * UnixDateTime) :=
  let now := clock (readings env) in
  let env := next_reading env in
  '(now, dirty) ←
    match offset with
    | Some offset =>
        now ← duration_add now offset;
        '(dirty, _) ← for_each_value (m_dirty_cookies t) (shift_expiry offset) tt;
        Returned (now, dirty)
    | None => Returned (now, m_dirty_cookies t)
    end;
  '(cookies, removed_entries) ← map_take_all_matching (m_cookies t) (λ _ cookie, is_expired now cookie);
  env ← (if bool_decide (removed_entries = []) then Returned env
         else send_cookie_changed_notifications env (value <$> removed_entries) true);
  Returned (mk_transient cookies dirty, env, now).

Definition set_cookies (env : Env) (t : TransientStorage) (cookies : Cookies) : outcome (TransientStorage * Env) :=
  '(t, env, _) ← purge_expired_cookies (mk_transient cookies (m_dirty_cookies t)) env None;
  Returned (t, env).

Definition transient_set_cookie (t : TransientStorage) (env : Env) (key : CookieStorageKey) (cookie : Cookie)
    : outcome (TransientStorage * Env) :=
  let now := clock (readings env) in
  let env := next_reading env in
  present ← map_contains (m_cookies t) key;
  if is_expired now cookie && negb present then Returned (t, env)
  else
    env ← (if operator_ge (expiry_time cookie) now then
             old_cookie ← map_get (m_cookies t) key;
             let cookie_value_changed :=
               match old_cookie with
               | Some old_cookie => negb (bool_decide (cookie_value old_cookie = cookie_value cookie))
               | None => true
               end in
             send_cookie_changed_notifications env [cookie] cookie_value_changed
           else Returned env);
    '(cookies, _) ← map_set (m_cookies t) key cookie Replace;
    '(dirty, _) ← map_set (m_dirty_cookies t) key cookie Replace;
    Returned (mk_transient cookies dirty, env).

Definition transient_get_cookie (t : TransientStorage) (key : CookieStorageKey) : outcome (option Cookie) :=
  map_get (m_cookies t) key.

Definition take_dirty_cookies (t : TransientStorage) : TransientStorage * Cookies :=
  (mk_transient (m_cookies t) empty_table, m_dirty_cookies t).

(** The loop of [expire_and_purge_cookies_accessed_since], from bucket [i] on; the
    iterator points into the bucket array that was there when the loop began.  When
    [m_cookies.set] has rehashed the map into a larger one this array is freed, and
    to advance to another of its buckets reads freed memory: the result is [None]. *)
Fixpoint expire_loop (fuel i : nat) (t : TransientStorage) (env : Env) (since : UnixDateTime)
    : outcome (option (TransientStorage * Env)) :=
  match fuel with
  | O => Returned (Some (t, env))
  | S fuel =>
      bucket ← at_index (m_buckets (m_cookies t)) i;
      if state bucket =? Free then expire_loop fuel (S i) t env since
      else
        e ← must (slot bucket);
        if operator_ge (last_access_time (value e)) since then
          let cookie := with_expiry_time (value e) earliest in
          buckets ← set_index (m_buckets (m_cookies t)) i
            (mk_bucket (state bucket) (stored_hash bucket) (Some (mk_entry (key e) cookie)));
          let cookies := mk_hash_table buckets (m_size (m_cookies t)) (m_mask (m_cookies t)) in
          '(t, env) ← transient_set_cookie (mk_transient cookies (m_dirty_cookies t)) env (key e) cookie;
          let rehashed := negb (capacity (m_cookies t) =? capacity cookies)%nat in
          if rehashed && negb (fuel =? 0)%nat then Returned None
          else expire_loop fuel (S i) t env since
        else expire_loop fuel (S i) t env since
  end.

Definition expire_and_purge_cookies_accessed_since (t : TransientStorage) (env : Env) (since : UnixDateTime)
    : outcome (option (TransientStorage * Env)) :=
  r ← expire_loop (length (m_buckets (m_cookies t))) 0 t env since;
  match r with
  | None => Returned None
  | Some (t, env) => '(t, env, _) ← purge_expired_cookies t env None; Returned (Some (t, env))
  end.

Definition add_size (since : UnixDateTime) (sizes : CacheSizes) (e : Entry CookieStorageKey Cookie) : CacheSizes :=
  let size := Z.of_nat (length (key_name (key e)) + length (key_domain (key e)) + length (key_path (key e))
                        + length (cookie_value (value e))) in
  mk_sizes
    (if operator_ge (last_access_time (value e)) since then wrap64 (since_requested_time sizes + size)
     else since_requested_time sizes)
    (wrap64 (total sizes + size)).

Definition transient_estimate_storage_size (t : TransientStorage) (since : UnixDateTime) : CacheSizes :=
  foldl (add_size since) (mk_sizes 0 0) (values (m_cookies t)).

End Model.
End Transient.
Export Transient.

(** ** Persisted storage *)
Module Persisted.
Section Model.
Context `{Simdutf} {D : Type} `{CookieDatabase D}.

(** [to_underlying] and its inverse; the table's CHECK keeps other numbers out. *)
Definition same_site_number (s : SameSite) : Z :=
  match s with SameSiteDefault => 0 | SameSiteNone => 1 | SameSiteStrict => 2 | SameSiteLax => 3 end.

Definition same_site_of_number (n : Z) : option SameSite :=
  if n =? 0 then Some SameSiteDefault else if n =? 1 then Some SameSiteNone
  else if n =? 2 then Some SameSiteStrict else if n =? 3 then Some SameSiteLax else None.

(** [Database::apply_placeholder] on each column. *)
Definition bind_row (cookie : Cookie) : outcome CookieRow :=
  creation ← to_milliseconds (creation_time cookie);
  access ← to_milliseconds (last_access_time cookie);
  expiry ← to_milliseconds (expiry_time cookie);
  Returned (mk_row (cookie_name cookie) (cookie_value cookie) (same_site_number (same_site cookie)) creation access expiry
    (cookie_domain cookie) (cookie_path cookie) (Z.b2z (cookie_secure cookie)) (Z.b2z (cookie_http_only cookie))
    (Z.b2z (cookie_host_only cookie)) (Z.b2z (cookie_persistent cookie))).

Definition insert_cookie (database : D) (cookie : Cookie) : outcome D :=
  row ← bind_row cookie;
  Returned (execute_insert_cookie database row).

(** [Database::result_column<String>] *)
Definition text_column (text : bytes) : outcome bytes := s ← from_utf8 text; must s.
Definition bool_column (n : Z) : bool := negb (n =? 0).

(** [parse_cookie] of a row. *)
Definition row_cookie (row : CookieRow) : outcome Cookie :=
  name ← text_column (row_name row);
  value ← text_column (row_value row);
  same_site ← must (same_site_of_number (row_same_site row));
  creation ← from_milliseconds_since_epoch (row_creation_time row);
  access ← from_milliseconds_since_epoch (row_last_access_time row);
  expiry ← from_milliseconds_since_epoch (row_expiry_time row);
  domain ← text_column (row_domain row);
  path ← text_column (row_path row);
  Returned (mk_cookie name value same_site creation access expiry domain path (bool_column (row_secure row))
    (bool_column (row_http_only row)) (bool_column (row_host_only row)) (bool_column (row_persistent row))).

Fixpoint load_rows (rows : list CookieRow) (cookies : Cookies) : outcome Cookies :=
  match rows with
  | [] => Returned cookies
  | row :: rows =>
      cookie ← row_cookie row;
      '(cookies, _) ← map_set cookies (key_of cookie) cookie Replace;
      load_rows rows cookies
  end.

Definition select_all_cookies (database : D) : outcome Cookies :=
  load_rows (execute_select_all_cookies database) empty_table.

Fixpoint insert_cookies (database : D) (cookies : list Cookie) : outcome D :=
  match cookies with
  | [] => Returned database
  | cookie :: cookies => database ← insert_cookie database cookie; insert_cookies database cookies
  end.

End Model.
End Persisted.
Export Persisted.

(** ** The jar *)
Module Jar.
Section Model.
Context `{Simdutf} `{FastFloat} `{PublicSuffixData} `{IcuCaseMap} `{Clock} `{Views} {D : Type} `{CookieDatabase D}.

Definition with_transient (jar : CookieJar D) (t : TransientStorage) : CookieJar D :=
  mk_jar (m_persisted_storage jar) t.

(** The constructor. *)
Definition create_jar (persisted_storage : option D) (env : Env) : outcome (CookieJar D * Env) :=
  let t := mk_transient empty_table empty_table in
  match persisted_storage with
  | None => Returned (mk_jar None t, env)
  | Some database =>
      cookies ← select_all_cookies database;
      '(t, env) ← set_cookies env t cookies;
      Returned (mk_jar (Some database) t, env)
  end.

(** The callback of the synchronization timer. *)
Definition on_timeout (jar : CookieJar D) (env : Env) : outcome (CookieJar D * Env) :=
  match m_persisted_storage jar with
  | None => Returned (jar, env)
  | Some database =>
      let '(t, dirty) := take_dirty_cookies (m_transient_storage jar) in
      database ← insert_cookies database (value <$> values dirty);
      '(t, env, now) ← purge_expired_cookies t env None;
      now ← to_milliseconds now;
      Returned (mk_jar (Some (execute_expire_cookie database now)) t, env)
  end.

(** The destructor: the database it leaves. *)
Definition destroy_jar (jar : CookieJar D) (env : Env) : outcome (option D * Env) :=
  '(jar, env) ← on_timeout jar env;
  Returned (m_persisted_storage jar, env).

(** *** Storing a cookie (RFC 6265bis section 5.7) *)

(** Steps 2 to 4: whether the name and the value are acceptable. *)
Definition acceptable_name_value (parsed_cookie : ParsedCookie) : bool :=
  negb (bool_decide (parsed_name parsed_cookie = []) && bool_decide (parsed_value parsed_cookie = []))
  && negb (cookie_contains_invalid_control_character (parsed_name parsed_cookie))
  && negb (cookie_contains_invalid_control_character (parsed_value parsed_cookie))
  && negb (4096 <? length (parsed_name parsed_cookie) + length (parsed_value parsed_cookie))%nat.

(** Step 6: the expiry time and the persistent flag. *)
Definition expiry_and_persistent (parsed_cookie : ParsedCookie) : outcome (UnixDateTime * bool) :=
  match expiry_time_from_max_age_attribute parsed_cookie with
  | Some expiry_time => Returned (expiry_time, true)
  | None =>
      match expiry_time_from_expires_attribute parsed_cookie with
      | Some expiry_time => Returned (expiry_time, true)
      | None => expiry_time ← from_unix_time_parts 3000 1 1 0 0 0 0; Returned (expiry_time, false)
      end
  end.

(** Step 7. *)
Definition domain_attribute_of (parsed_cookie : ParsedCookie) : bytes :=
  match parsed_domain parsed_cookie with
  | Some domain => if (length domain <=? 1024)%nat then domain else []
  | None => []
  end.

(** Steps 8 to 10: the cookie's domain and its host-only flag. *)
Definition domain_and_host_only (url : URL) (domain_attribute : bytes) : outcome (option (bytes * bool)) :=
  if negb (sv_is_ascii domain_attribute) then Returned None
  else
    request_host_canonical ← canonicalize_domain url;
    match request_host_canonical with
    | None => Returned None
    | Some request_host_canonical =>
        if is_public_suffix domain_attribute && negb (bool_decide (domain_attribute = request_host_canonical)) then
          Returned None
        else
          let domain_attribute := if is_public_suffix domain_attribute then [] else domain_attribute in
          if bool_decide (domain_attribute = []) then Returned (Some (request_host_canonical, true))
          else
            matches ← domain_matches request_host_canonical domain_attribute;
            Returned (if negb matches then None else Some (domain_attribute, false))
    end.

(** Step 11. *)
Definition path_of (url : URL) (parsed_cookie : ParsedCookie) : outcome bytes :=
  match parsed_path parsed_cookie with
  | Some path => Returned (if (length path <=? 1024)%nat then path else [])
  | None => default_path url
  end.

(** Step 16: an existing secure cookie that the new one would shadow. *)
Fixpoint shadows_secure_cookie (old_cookies : list Cookie) (name domain path : bytes) : outcome bool :=
  match old_cookies with
  | [] => Returned false
  | old_cookie :: old_cookies =>
      if negb (bool_decide (cookie_name old_cookie = name)) then shadows_secure_cookie old_cookies name domain path
      else if negb (cookie_secure old_cookie) then shadows_secure_cookie old_cookies name domain path
      else
        matches ← domain_matches (cookie_domain old_cookie) domain;
        matches ← (if (matches : bool) then Returned true else domain_matches domain (cookie_domain old_cookie));
        if negb matches then shadows_secure_cookie old_cookies name domain path
        else
          matches ← path_matches path (cookie_path old_cookie);
          if negb matches then shadows_secure_cookie old_cookies name domain path else Returned true
  end.

Definition has_case_insensitive_prefix (value prefix : bytes) : outcome bool :=
  if (length value <? length prefix)%nat then Returned false
  else
    value ← substring_view value 0 (length prefix);
    Returned (equals_ignoring_ascii_case value prefix).

(** Steps 20 to 22: whether the prefixes of the name and the value allow the cookie. *)
Definition prefixes_allow (parsed_cookie : ParsedCookie) (secure host_only : bool) : outcome bool :=
  let name := parsed_name parsed_cookie in
  let value := parsed_value parsed_cookie in
  secure_prefix ← has_case_insensitive_prefix name (sv "__Secure-");
  if secure_prefix && negb secure then Returned false
  else
    host_prefix ← has_case_insensitive_prefix name (sv "__Host-");
    if host_prefix && (negb secure || negb host_only
         || match parsed_path parsed_cookie with Some path => negb (bool_decide (path = sv "/")) | None => false end)
    then Returned false
    else if bool_decide (name = []) then
      secure_prefix ← has_case_insensitive_prefix value (sv "__Secure-");
      if secure_prefix : bool then Returned false
      else
        host_prefix ← has_case_insensitive_prefix value (sv "__Host-");
        Returned (negb host_prefix)
    else Returned true.

(** Steps 6 to 22 of [set_cookie]: the new cookie, or [None] where it is ignored. *)
Definition new_cookie (t : TransientStorage) (url : URL) (parsed_cookie : ParsedCookie) (source : Source) (now : UnixDateTime)
    : outcome (option Cookie) :=
  '(expiry_time, persistent) ← expiry_and_persistent parsed_cookie;
  domain ← domain_and_host_only url (domain_attribute_of parsed_cookie);
  match domain with
  | None => Returned None
  | Some (domain, host_only) =>
      path ← path_of url parsed_cookie;
      let secure := secure_attribute_present parsed_cookie in
      let https := bool_decide (scheme url = sv "https") in
      if secure && negb https then Returned None
      else
        let http_only := http_only_attribute_present parsed_cookie in
        if bool_decide (source = NonHttp) && http_only then Returned None
        else
          ignore_cookie ←
            (if negb secure && negb https
             then shadows_secure_cookie (value <$> values (m_cookies t)) (parsed_name parsed_cookie) domain path
             else Returned false);
          if ignore_cookie : bool then Returned None
          else if bool_decide (same_site_attribute parsed_cookie = SameSiteNone) && negb secure then Returned None
          else
            allowed ← prefixes_allow parsed_cookie secure host_only;
            Returned (if negb allowed then None
                      else Some (mk_cookie (parsed_name parsed_cookie) (parsed_value parsed_cookie)
                                   (same_site_attribute parsed_cookie) now now expiry_time domain path secure http_only
                                   host_only persistent))
  end.

(** Steps 23 and 24, with the check of a non-HTTP source that [set_cookie] has and
    [update_cookie] does not. *)
Definition store_cookie (jar : CookieJar D) (env : Env) (cookie : Cookie) (non_http : bool)
    : outcome (CookieJar D * Env) :=
  let key := key_of cookie in
  old_cookie ← transient_get_cookie (m_transient_storage jar) key;
  let old_cookie := old_cookie ≫= λ c, if eqb (cookie_host_only c) (cookie_host_only cookie) then Some c else None in
  if match old_cookie with Some c => non_http && cookie_http_only c | None => false end then Returned (jar, env)
  else
    let cookie := match old_cookie with Some c => with_creation_time cookie (creation_time c) | None => cookie end in
    '(t, env) ← transient_set_cookie (m_transient_storage jar) env key cookie;
    '(t, env, _) ← purge_expired_cookies t env None;
    Returned (with_transient jar t, env).

Definition set_cookie (jar : CookieJar D) (env : Env) (url : URL) (parsed_cookie : ParsedCookie) (source : Source)
    : outcome (CookieJar D * Env) :=
  if negb (acceptable_name_value parsed_cookie) then Returned (jar, env)
  else
    let now := clock (readings env) in
    let env := next_reading env in
    cookie ← new_cookie (m_transient_storage jar) url parsed_cookie source now;
    match cookie with
    | None => Returned (jar, env)
    | Some cookie => store_cookie jar env cookie (bool_decide (source = NonHttp))
    end.

Definition update_cookie (jar : CookieJar D) (env : Env) (cookie : Cookie) : outcome (CookieJar D * Env) :=
  store_cookie jar env cookie false.

(** *** Reading the jar *)

(** The order of RFC 6265bis section 5.8.3 step 4: [cookie] goes before [entry]. *)
Definition listed_before (cookie entry : Cookie) : bool :=
  if (length (cookie_path entry) <? length (cookie_path cookie))%nat then true
  else if (length (cookie_path cookie) =? length (cookie_path entry))%nat then
    duration_lt (creation_time cookie) (creation_time entry)
  else false.

(** The callback of [get_matching_cookies] on one cookie. *)
Definition match_cookie (url : URL) (host : bytes) (source : Source) (mode : MatchingCookiesSpecMode) (now : UnixDateTime)
    (e : Entry CookieStorageKey Cookie) (cookie_list : list Cookie)
    : outcome (Entry CookieStorageKey Cookie * list Cookie) :=
  matches ← cookie_matches_url (value e) url host (Some source);
  if negb matches then Returned (e, cookie_list)
  else
    match mode with
    | WebDriver => Returned (e, cookie_list ++ [value e])
    | RFC6265 =>
        let cookie := with_last_access_time (value e) now in
        Returned (mk_entry (key e) cookie, insert_before_matching cookie (listed_before cookie) cookie_list)
    end.

Definition get_matching_cookies (jar : CookieJar D) (env : Env) (url : URL) (source : Source)
    (mode : MatchingCookiesSpecMode) : outcome (CookieJar D * Env * list Cookie) :=
  let now := clock (readings env) in
  let env := next_reading env in
  retrieval_host_canonical ← canonicalize_domain url;
  match retrieval_host_canonical with
  | None => Returned (jar, env, [])
  | Some host =>
      let t := m_transient_storage jar in
      '(cookies, cookie_list) ← for_each_value (m_cookies t) (match_cookie url host source mode now) [];
      let t := mk_transient cookies (m_dirty_cookies t) in
      match mode with
      | WebDriver => Returned (with_transient jar t, env, cookie_list)
      | RFC6265 =>
          '(t, env, _) ← purge_expired_cookies t env None;
          Returned (with_transient jar t, env, cookie_list)
      end
  end.

(** Step 6 of section 5.8.3. *)
Fixpoint serialize_cookies (cookie_list : list Cookie) (builder : bytes) : bytes :=
  match cookie_list with
  | [] => builder
  | cookie :: cookie_list =>
      let builder := if bool_decide (builder = []) then builder else builder ++ sv "; " in
      let builder := if bool_decide (cookie_name cookie = []) then builder else builder ++ cookie_name cookie ++ [c_equals] in
      let builder := if bool_decide (cookie_value cookie = []) then builder else builder ++ cookie_value cookie in
      serialize_cookies cookie_list builder
  end.

Definition get_cookie (jar : CookieJar D) (env : Env) (url : URL) (source : Source)
    : outcome (CookieJar D * Env * bytes) :=
  '(t, env, _) ← purge_expired_cookies (m_transient_storage jar) env None;
  '(jar, env, cookie_list) ← get_matching_cookies (with_transient jar t) env url source RFC6265;
  s ← from_utf8 (serialize_cookies cookie_list []);
  s ← must s;
  Returned (jar, env, s).

Definition get_all_cookies (jar : CookieJar D) : list Cookie := value <$> values (m_cookies (m_transient_storage jar)).

Definition get_all_cookies_webdriver (jar : CookieJar D) (env : Env) (url : URL) : outcome (CookieJar D * Env * list Cookie) :=
  get_matching_cookies jar env url Http WebDriver.

Definition get_all_cookies_cookiestore (jar : CookieJar D) (env : Env) (url : URL) : outcome (CookieJar D * Env * list Cookie) :=
  get_matching_cookies jar env url NonHttp RFC6265.

Fixpoint find_named (cookie_list : list Cookie) (name : bytes) : option Cookie :=
  match cookie_list with
  | [] => None
  | cookie :: cookie_list => if bool_decide (cookie_name cookie = name) then Some cookie else find_named cookie_list name
  end.

Definition get_named_cookie (jar : CookieJar D) (env : Env) (url : URL) (name : bytes)
    : outcome (CookieJar D * Env * option Cookie) :=
  '(jar, env, cookie_list) ← get_matching_cookies jar env url Http WebDriver;
  Returned (jar, env, find_named cookie_list name).

Definition expire_cookies_with_time_offset (jar : CookieJar D) (env : Env) (offset : Duration) : outcome (CookieJar D * Env) :=
  '(t, env, _) ← purge_expired_cookies (m_transient_storage jar) env (Some offset);
  Returned (with_transient jar t, env).

Definition expire_cookies_accessed_since (jar : CookieJar D) (env : Env) (since : UnixDateTime)
    : outcome (option (CookieJar D * Env)) :=
  r ← expire_and_purge_cookies_accessed_since (m_transient_storage jar) env since;
  Returned match r with Some (t, env) => Some (with_transient jar t, env) | None => None end.

Definition estimate_storage_size_accessed_since (jar : CookieJar D) (since : UnixDateTime) : CacheSizes :=
  transient_estimate_storage_size (m_transient_storage jar) since.

End Model.
End Jar.
Export Jar.
