(* ===== verification/CookieJarCorrect.v ===== *)
(** * Correctness of the cookie jar

    Every operation of the jar is a function on two finite maps from storage keys
    to cookies, the stored ones and the changed ones; the hash maps, the loops and
    the notifications are proved to implement it. *)
From stdpp Require Import gmap sorting.
From S2P Require Import Prelude CharacterTypes Externals Utf8 StringView Utf8View Format PercentEncoding Ipv4 Host PublicSuffix Url Time GenericLexer Http IpAddress HashFunctions HashTable HashTableCorrect HashMap Cookie ParsedCookie ParsedCookieCorrect CookieJar.

Notation map_wf := (hash_table_wf (T := Entry CookieStorageKey Cookie) (K := CookieStorageKey)).
Notation set_wf := (hash_table_wf (T := bytes) (K := bytes)).

Section Jar.
Context `{SimdutfOk} `{FastFloat} `{PublicSuffixData} `{IcuCaseMap} `{ClockOk} `{Views}.

(** A URL whose host and path can be serialized. *)
Definition url_answers (url : URL) : Prop := returns (canonicalize_domain url) ∧ returns (serialize_path url).

Class ViewsOk := { views_answer : ∀ n url, url ∈ open_views n → url_answers url }.
Context `{!ViewsOk}.

(** ** Notifications *)
Lemma cookie_matches_returns c url host source : returns (serialize_path url) → returns (cookie_matches_url c url host source).
Proof.
  intros [path Hpath]. unfold cookie_matches_url.
  apply returns_bind; [case_goal; [|by eexists]; destruct (domain_matches_spec host (cookie_domain c)) as (b & -> & _); by eexists|].
  intros m _. case_goal; [by eexists|]. rewrite Hpath, bind_value.
  destruct (path_matches_spec path (cookie_path c)) as (b & -> & _). rewrite bind_value.
  repeat (case_goal; [by eexists|]). by eexists.
Qed.

Lemma collect_changes_returns cookies url host inform domains matching :
  returns (serialize_path url) → set_wf domains → returns (collect_changes cookies url host inform domains matching).
Proof.
  intros Hp. revert domains matching. induction cookies as [|c cookies IH]; intros domains matching Hwf; [by eexists|].
  cbn [collect_changes].
  assert (∃ domains', (if inform then '(d, _) ← try_set domains (cookie_domain c) Replace; Returned d else Returned domains)
    = Returned domains' ∧ set_wf domains') as (domains' & -> & Hwf').
  { destruct inform; [|by eexists]. destruct (try_set_spec domains (cookie_domain c) Replace Hwf) as (d & r & -> & Hd & _). by eexists. }
  rewrite bind_value. destruct (cookie_matches_returns c url host None Hp) as [b ->]. rewrite bind_value. by apply IH.
Qed.

Lemma notify_views_returns views cookies inform :
  (∀ url, url ∈ views → url_answers url) → returns (notify_views views cookies inform).
Proof.
  induction views as [|url views IH]; intros Hv; [by eexists|]. cbn [notify_views].
  destruct (Hv url ltac:(by left)) as [[h ->] Hp]. rewrite bind_value.
  destruct IH as [rest Hrest]; [intros u Hu; apply Hv; by right|]. destruct h as [h|]; [|by eexists].
  destruct (collect_changes_returns cookies url h inform empty_table [] Hp wf_empty) as [[d m] ->].
  rewrite bind_value, Hrest. by eexists.
Qed.

Lemma send_returns env cookies inform :
  ∃ env', send_cookie_changed_notifications env cookies inform = Returned env' ∧ readings env' = readings env.
Proof.
  unfold send_cookie_changed_notifications.
  destruct (notify_views_returns (open_views (readings env)) cookies inform (views_answer _)) as [l ->]. by eexists.
Qed.

(** ** Transient storage *)
Definition unexpired (now : UnixDateTime) (m : gmap CookieStorageKey Cookie) : gmap CookieStorageKey Cookie :=
  filter (λ kv, is_expired now kv.2 = false) m.

Record transient_wf (t : TransientStorage) : Prop := {
  cookies_wf : map_wf (m_cookies t);
  dirty_wf : map_wf (m_dirty_cookies t);
}.

Notation live t := (contents (m_cookies t)).
Notation dirty t := (contents (m_dirty_cookies t)).

Lemma purge_spec t env :
  transient_wf t → ∃ t' env', purge_expired_cookies t env None = Returned (t', env', clock (readings env))
    ∧ readings env' = S (readings env) ∧ transient_wf t'
    ∧ live t' = unexpired (clock (readings env)) (live t) ∧ m_dirty_cookies t' = m_dirty_cookies t.
Proof.
  intros [Hc Hd]. unfold purge_expired_cookies. rewrite bind_value.
  destruct (map_take_all_spec (m_cookies t) (λ _ c, is_expired (clock (readings env)) c) Hc) as (m' & taken & -> & Hwf' & Hm & _).
  rewrite bind_value.
  assert (∃ env', (if bool_decide (taken = []) then Returned (next_reading env)
    else send_cookie_changed_notifications (next_reading env) (value <$> taken) true) = Returned env'
    ∧ readings env' = S (readings env)) as (env' & -> & Hr).
  { case_bool_decide; [by eexists|]. destruct (send_returns (next_reading env) (value <$> taken) true) as (env' & -> & Hr). by eexists. }
  rewrite bind_value. eexists _, _. split; [done|]. by split_and!.
Qed.

Lemma transient_set_spec t env k c :
  transient_wf t → ∃ t' env', transient_set_cookie t env k c = Returned (t', env')
    ∧ readings env' = S (readings env) ∧ transient_wf t'
    ∧ (live t', dirty t') =
        if is_expired (clock (readings env)) c && negb (bool_decide (is_Some (live t !! k)))
        then (live t, dirty t) else (<[k := c]> (live t), <[k := c]> (dirty t)).
Proof.
  intros [Hc Hd]. unfold transient_set_cookie. rewrite map_contains_spec, bind_value by done.
  destruct (is_expired _ c && negb _) eqn:E; [by exists t, (next_reading env)|].
  set (now := clock (readings env)).
  assert (∃ env', (if operator_ge (expiry_time c) now then old ← map_get (m_cookies t) k;
      send_cookie_changed_notifications (next_reading env) [c]
        match old with Some o => negb (bool_decide (cookie_value o = cookie_value c)) | None => true end
    else Returned (next_reading env)) = Returned env' ∧ readings env' = S (readings env)) as (env' & -> & Hr).
  { case_goal; [|by eexists]. rewrite map_get_spec, bind_value by done.
    match goal with |- context [send_cookie_changed_notifications ?e ?cs ?i] =>
      destruct (send_returns e cs i) as (env' & -> & Hr) end. by eexists. }
  rewrite bind_value. destruct (map_set_spec (m_cookies t) k c Replace Hc) as (m1 & r1 & -> & Hw1 & Hm1 & _). rewrite bind_value.
  destruct (map_set_spec (m_dirty_cookies t) k c Replace Hd) as (m2 & r2 & -> & Hw2 & Hm2 & _). rewrite bind_value.
  eexists _, _. split_and!; [done..|]. cbn. rewrite Hm1, Hm2. by destruct (live t !! k), (dirty t !! k).
Qed.

(** Setting a cookie that is there, by the tables it leaves. *)
Lemma transient_set_present t env k c m1 r1 :
  transient_wf t → is_Some (live t !! k) → map_set (m_cookies t) k c Replace = Returned (m1, r1) →
  ∃ m2 env', transient_set_cookie t env k c = Returned (mk_transient m1 m2, env') ∧ readings env' = S (readings env)
    ∧ map_wf m2 ∧ contents m2 = <[k := c]> (dirty t).
Proof.
  intros [Hc Hd] Hk Hset. unfold transient_set_cookie. rewrite map_contains_spec, bind_value by done.
  rewrite bool_decide_eq_true_2, andb_false_r by done. set (m := if operator_ge _ _ then _ else _).
  assert (∃ env', m = Returned env' ∧ readings env' = S (readings env)) as (env' & -> & Hr).
  { unfold m. case_goal; [|by eexists]. rewrite map_get_spec, bind_value by done.
    match goal with |- context [send_cookie_changed_notifications ?e ?cs ?i] =>
      destruct (send_returns e cs i) as (env' & -> & Hr) end. by eexists. }
  rewrite bind_value, Hset, bind_value.
  destruct (map_set_spec (m_dirty_cookies t) k c Replace Hd) as (m2 & r2 & -> & Hw2 & Hm2 & _). rewrite bind_value.
  eexists m2, env'. split_and!; [done..|]. rewrite Hm2. by destruct (dirty t !! k).
Qed.

(** ** Storing cookies *)
Context {D : Type} `{CookieDatabase D}.
Notation jar_live jar := (live (m_transient_storage jar)).
Notation jar_dirty jar := (dirty (m_transient_storage jar)).
Notation jar_wf jar := (transient_wf (m_transient_storage jar)).

(** The existing cookie that counts as the same one. *)
Definition same_cookie (old : option Cookie) (c : Cookie) : option Cookie :=
  old ≫= λ o, if eqb (cookie_host_only o) (cookie_host_only c) then Some o else None.

(** The cookie that is stored for [c]. *)
Definition stored_cookie (old : option Cookie) (c : Cookie) : Cookie :=
  match same_cookie old c with Some o => with_creation_time c (creation_time o) | None => c end.

(** What [store_cookie] does to the stored and the changed cookies, given the times
    of its two readings of the clock. *)
Definition abstract_store (now later : UnixDateTime) (c : Cookie) (m d : gmap CookieStorageKey Cookie)
    : gmap CookieStorageKey Cookie * gmap CookieStorageKey Cookie :=
  let c' := stored_cookie (m !! key_of c) c in
  if is_expired now c' && negb (bool_decide (is_Some (m !! key_of c))) then (unexpired later m, d)
  else (unexpired later (<[key_of c := c']> m), <[key_of c := c']> d).

Lemma store_cookie_spec (jar : CookieJar D) env c non_http :
  jar_wf jar →
  ∃ jar' env', store_cookie jar env c non_http = Returned (jar', env') ∧ jar_wf jar'
    ∧ m_persisted_storage jar' = m_persisted_storage jar
    ∧ if match same_cookie (jar_live jar !! key_of c) c with Some o => non_http && cookie_http_only o | None => false end
      then jar' = jar ∧ env' = env
      else readings env' = S (S (readings env))
           ∧ (jar_live jar', jar_dirty jar')
             = abstract_store (clock (readings env)) (clock (S (readings env))) c (jar_live jar) (jar_dirty jar).
Proof.
  intros Hwf. unfold store_cookie, transient_get_cookie. rewrite map_get_spec, bind_value by apply Hwf.
  fold (same_cookie (jar_live jar !! key_of c) c). case_goal; [by exists jar, env|].
  fold (stored_cookie (jar_live jar !! key_of c) c). set (c' := stored_cookie _ c).
  destruct (transient_set_spec (m_transient_storage jar) env (key_of c) c' Hwf) as (t1 & env1 & -> & Hr1 & Hwf1 & Ht1).
  rewrite bind_value. destruct (purge_spec t1 env1 Hwf1) as (t2 & env2 & -> & Hr2 & Hwf2 & Hl2 & Hd2). rewrite bind_value.
  eexists _, env2. split; [done|]. split_and!; [done|done|lia|]. cbn. rewrite Hl2, Hd2, Hr1.
  unfold abstract_store. fold c'. by case_goal; injection Ht1 as -> ->.
Qed.

(** Text that an SQL column holds: UTF-8 without a NUL. *)
Definition text_ok (s : bytes) : Prop := valid_utf8 s ∧ 0 ∉ s.

Lemma text_ok_nil : text_ok [].
Proof. split; [apply valid_utf8_nil|apply not_elem_of_nil]. Qed.

(** A URL a cookie can be set for: its host can be put in lower case, and its
    percent-decoded path is text for an SQL column. *)
Record url_ready (url : URL) : Prop := {
  ready_host : ∃ h, canonicalize_domain url = Returned h ∧ ∀ d, h = Some d → text_ok d;
  ready_decoded : ∃ p, decoded_path url = Returned p ∧ text_ok p;
}.

Lemma ready_path url : url_ready url → returns (serialize_path url).
Proof. intros [_ (p & (path & Hpath & _)%bind_returned & _)]. by exists path. Qed.

Lemma ready_default url : url_ready url → ∃ p, default_path url = Returned p ∧ text_ok p.
Proof.
  intros [_ (u & Hu & Huv & Hu0)]. destruct (default_path_returns url u Hu Huv) as (p & Hp & Hpv & _ & Hin).
  exists p. split; [done|]. split; [done|]. by intros [?|]%Hin.
Qed.

(** Text columns and times of a cookie. *)
Record cookie_ok (c : Cookie) : Prop := {
  ok_name : text_ok (cookie_name c);
  ok_value : text_ok (cookie_value c);
  ok_domain : text_ok (cookie_domain c);
  ok_path : text_ok (cookie_path c);
  ok_creation : duration_valid (creation_time c);
  ok_access : duration_valid (last_access_time c);
  ok_expiry : duration_valid (expiry_time c);
}.

(** The same for a parsed cookie. *)
Record parsed_ok (p : ParsedCookie) : Prop := {
  pok_name : text_ok (parsed_name p);
  pok_value : text_ok (parsed_value p);
  pok_domain : ∀ d, parsed_domain p = Some d → text_ok d;
  pok_path : ∀ d, parsed_path p = Some d → text_ok d;
  pok_max_age : ∀ t, expiry_time_from_max_age_attribute p = Some t → duration_valid t;
  pok_expires : ∀ t, expiry_time_from_expires_attribute p = Some t → duration_valid t;
}.

(** What the parser returns is that, if it has no NUL. *)
Lemma parsed_cookie_wf_ok lo hi p :
  parsed_cookie_wf lo hi p → 0 ∉ parsed_name p → 0 ∉ parsed_value p → (∀ d, parsed_domain p = Some d → 0 ∉ d) →
  (∀ d, parsed_path p = Some d → 0 ∉ d) → parsed_ok p.
Proof.
  intros [W1 W2 W3 W4 W5 W6 W7] N1 N2 N3 N4.
  split; [by split|by split| |intros d Hd; split; [by apply W7|by apply N4]|by intros t [??]%W5|by intros t [??]%W4].
  intros d Hd. destruct (W6 d Hd) as [Ha _]. split; [by apply ascii_text_valid|by apply N3].
Qed.

(** An existing secure cookie that one of the given name, domain and path shadows. *)
Definition shadowed (name domain path : bytes) (old : Cookie) : Prop :=
  cookie_name old = name ∧ cookie_secure old = true
  ∧ (domain_match (cookie_domain old) domain ∨ domain_match domain (cookie_domain old))
  ∧ path_match path (cookie_path old).

Lemma shadows_spec olds name domain path :
  ∃ b, shadows_secure_cookie olds name domain path = Returned b ∧ (b = true ↔ Exists (shadowed name domain path) olds).
Proof.
  induction olds as [|old olds (b & IH & Hb)].
  { exists false. split; [done|]. by rewrite Exists_nil. }
  cbn [shadows_secure_cookie]. setoid_rewrite Exists_cons. setoid_rewrite <-Hb. unfold shadowed at 1.
  case_bool_decide as Hn; cbn [negb]; [|exists b; by split; [|tauto]].
  destruct (cookie_secure old) eqn:Es; cbn [negb]; [|exists b; split; [done|]; split; [by right|by intros [(_ & ? & _)|]]].
  destruct (domain_matches_spec (cookie_domain old) domain) as (b1 & -> & Hb1). rewrite bind_value.
  destruct (domain_matches_spec domain (cookie_domain old)) as (b2 & Hr2 & Hb2).
  assert ((if b1 then Returned true else domain_matches domain (cookie_domain old)) = Returned (b1 || b2)) as -> by (by destruct b1).
  rewrite bind_value. setoid_rewrite <-Hb1. setoid_rewrite <-Hb2. setoid_rewrite <-orb_true_iff. destruct (b1 || b2); cbn [negb].
  2:{ exists b. split; [done|]. split; [by right|]. by intros [(_ & _ & ? & _)|]. }
  destruct (path_matches_spec path (cookie_path old)) as (b3 & -> & Hb3). rewrite bind_value. setoid_rewrite <-Hb3. destruct b3; cbn [negb].
  - exists true. split; [done|]. split; [by left|done].
  - exists b. split; [done|]. split; [by right|]. by intros [(_ & _ & _ & ?)|].
Qed.

Lemma expiry_returns p :
  parsed_ok p → ∃ t b, expiry_and_persistent p = Returned (t, b) ∧ duration_valid t.
Proof.
  intros Hp. unfold expiry_and_persistent. destruct (expiry_time_from_max_age_attribute p) as [t|] eqn:E1.
  { exists t, true. split; [done|]. by apply (pok_max_age p Hp). }
  destruct (expiry_time_from_expires_attribute p) as [t|] eqn:E2.
  { exists t, true. split; [done|]. by apply (pok_expires p Hp). }
  destruct (from_unix_time_parts_value 3000 1 1 0 0 0) as (days & _ & Hb & ->); [lia..|]. rewrite bind_value.
  eexists _, false. split; [done|]. unfold duration_valid, i64_min, i64_max. cbn. lia.
Qed.

(** The domain of a new cookie: the host itself, or a domain it matches that is no
    public suffix. *)
Definition domain_for (host domain : bytes) (host_only : bool) : Prop :=
  if host_only then domain = host else domain_match host domain ∧ is_public_suffix domain = false.

Lemma domain_and_host_only_spec url p :
  url_ready url → parsed_ok p →
  ∃ r, domain_and_host_only url (domain_attribute_of p) = Returned r ∧
    ∀ domain host_only, r = Some (domain, host_only) →
      text_ok domain ∧ ∃ host, canonicalize_domain url = Returned (Some host) ∧ domain_for host domain host_only.
Proof.
  intros Hurl Hp. unfold domain_and_host_only.
  assert (text_ok (domain_attribute_of p)) as Hv.
  { unfold domain_attribute_of. destruct (parsed_domain p) as [d|] eqn:E; [|apply text_ok_nil].
    case_goal; [by apply (pok_domain p Hp)|apply text_ok_nil]. }
  generalize (domain_attribute_of p) Hv. intros a Hva. clear Hv. case_goal; [by exists None|].
  destruct (ready_host url Hurl) as (h & Hh & Hhv). rewrite Hh, bind_value. destruct h as [host|]; [|by exists None].
  destruct (is_public_suffix a && _) eqn:Eps; [by exists None|].
  destruct (bool_decide ((if is_public_suffix a then [] else a) = [])) eqn:Hnil.
  { eexists. split; [done|]. intros d o [= <- <-]. split; [by apply Hhv|]. by exists host. }
  destruct (is_public_suffix a) eqn:Es; [done|]. destruct (domain_matches_spec host a) as (b & -> & Hb). rewrite bind_value.
  eexists. split; [done|]. destruct b; cbn [negb]; [|done]. intros d o [= <- <-]. split; [done|].
  exists host. split; [done|]. split; [by apply Hb|done].
Qed.

Lemma path_of_spec url p : url_ready url → parsed_ok p → ∃ path, path_of url p = Returned path ∧ text_ok path.
Proof.
  intros Hurl Hp. unfold path_of. destruct (parsed_path p) as [d|] eqn:E; [|by apply ready_default].
  eexists. split; [done|]. case_goal; [by apply (pok_path p Hp)|apply text_ok_nil].
Qed.

Definition has_prefix (s prefix : bytes) : Prop :=
  (length prefix ≤ length s)%nat ∧ equals_ignoring_ascii_case (take (length prefix) s) prefix = true.

Lemma has_prefix_spec s prefix : ∃ b, has_case_insensitive_prefix s prefix = Returned b ∧ (b = true ↔ has_prefix s prefix).
Proof.
  unfold has_case_insensitive_prefix, has_prefix. destruct (Nat.ltb_spec (length s) (length prefix)).
  - exists false. split; [done|]. split; [done|lia].
  - rewrite substring_view_in_range, drop_0, bind_value by lia. eexists. split; [done|]. naive_solver.
Qed.

(** What the prefixes of RFC 6265bis section 4.1.3 promise; the [Path] attribute of
    a host cookie is checked only where there is one. *)
Definition prefixes_respected (p : ParsedCookie) (secure host_only : bool) : Prop :=
  (has_prefix (parsed_name p) (sv "__Secure-") → secure = true)
  ∧ (has_prefix (parsed_name p) (sv "__Host-") →
     secure = true ∧ host_only = true ∧ ∀ path, parsed_path p = Some path → path = sv "/")
  ∧ (parsed_name p = [] → ¬ has_prefix (parsed_value p) (sv "__Secure-") ∧ ¬ has_prefix (parsed_value p) (sv "__Host-")).

Lemma prefixes_allow_spec p secure host_only :
  ∃ b, prefixes_allow p secure host_only = Returned b ∧ (b = true → prefixes_respected p secure host_only).
Proof.
  unfold prefixes_allow, prefixes_respected.
  destruct (has_prefix_spec (parsed_name p) (sv "__Secure-")) as (b1 & -> & Hb1). rewrite bind_value. setoid_rewrite <-Hb1.
  destruct (b1 && negb secure) eqn:E1; [by exists false|].
  destruct (has_prefix_spec (parsed_name p) (sv "__Host-")) as (b2 & -> & Hb2). rewrite bind_value. setoid_rewrite <-Hb2.
  set (other := match parsed_path p with Some _ => _ | None => _ end).
  destruct (b2 && _) eqn:E2; [by exists false|].
  assert (b1 = true → secure = true) as Hs by (by destruct b1, secure).
  assert (b2 = true → secure = true ∧ host_only = true ∧ ∀ path, parsed_path p = Some path → path = sv "/") as Hh.
  { intros ->. cbn in E2. apply orb_false_elim in E2 as [E2 E3]. apply orb_false_elim in E2 as [E2 E4].
    split_and!; [by destruct secure|by destruct host_only|]. intros path Hp. unfold other in E3. rewrite Hp in E3.
    by apply negb_false_iff, bool_decide_eq_true in E3. }
  case_bool_decide as Hn; [|by exists true; split_and!].
  destruct (has_prefix_spec (parsed_value p) (sv "__Secure-")) as (b3 & -> & Hb3). rewrite bind_value. setoid_rewrite <-Hb3.
  destruct b3; [by exists false|].
  destruct (has_prefix_spec (parsed_value p) (sv "__Host-")) as (b4 & -> & Hb4). rewrite bind_value. setoid_rewrite <-Hb4.
  eexists. split; [done|]. intros Hb. split_and!; [done..|]. intros _. by destruct b4.
Qed.

(** Why a cookie was accepted. *)
Record accepted (t : TransientStorage) (url : URL) (p : ParsedCookie) (source : Source) (c : Cookie) : Prop := {
  accepted_name : cookie_name c = parsed_name p ∧ cookie_value c = parsed_value p;
  accepted_secure : cookie_secure c = true → scheme url = sv "https";
  accepted_http_only : cookie_http_only c = true → source = Http;
  accepted_same_site : same_site c = SameSiteNone → cookie_secure c = true;
  accepted_domain : ∃ host, canonicalize_domain url = Returned (Some host)
    ∧ domain_for host (cookie_domain c) (cookie_host_only c);
  accepted_flag : domain_and_host_only url (domain_attribute_of p) = Returned (Some (cookie_domain c, cookie_host_only c));
  accepted_prefixes : prefixes_respected p (cookie_secure c) (cookie_host_only c);
  accepted_shadow : scheme url ≠ sv "https" →
    ¬ Exists (shadowed (cookie_name c) (cookie_domain c) (cookie_path c)) (value <$> values (m_cookies t));
}.

Lemma new_cookie_spec t url p source now :
  url_ready url → parsed_ok p → duration_valid now →
  ∃ r, new_cookie t url p source now = Returned r ∧ ∀ c, r = Some c → cookie_ok c ∧ accepted t url p source c.
Proof.
  intros Hurl Hp Hnow. unfold new_cookie. destruct (expiry_returns p Hp) as (exp & pers & -> & Hexp). rewrite bind_value.
  destruct (domain_and_host_only_spec url p Hurl Hp) as (r & Hdh & Hr). rewrite Hdh, bind_value.
  destruct r as [[domain ho]|]; [|by exists None]. destruct (Hr domain ho eq_refl) as (Hdv & host & Hhost & Hdom).
  destruct (path_of_spec url p Hurl Hp) as (path & -> & Hpv). rewrite bind_value.
  destruct (secure_attribute_present p && _) eqn:E1; [by exists None|].
  destruct (bool_decide (source = NonHttp) && _) eqn:E2; [by exists None|].
  destruct (shadows_spec (value <$> values (m_cookies t)) (parsed_name p) domain path) as (b & Hb & Hbs).
  set (m := if negb (secure_attribute_present p) && _ then _ else Returned false).
  assert (∃ b', m = Returned b' ∧ (b' = false → scheme url ≠ sv "https" → b = false)) as (b' & -> & Hb').
  { unfold m. rewrite Hb. destruct (decide (scheme url = sv "https")) as [Hs|Hs].
    - rewrite (bool_decide_eq_true_2 _ Hs), andb_false_r. by exists false.
    - rewrite (bool_decide_eq_false_2 _ Hs) in E1 |- *. rewrite andb_true_r in E1. rewrite E1. by exists b. }
  rewrite bind_value. destruct b'; [by exists None|]. destruct (_ && negb (secure_attribute_present p)) eqn:E3; [by exists None|].
  destruct (prefixes_allow_spec p (secure_attribute_present p) ho) as (b2 & -> & Hb2). rewrite bind_value.
  eexists. split; [done|]. destruct b2; cbn [negb]; [|done]. intros c [= <-]. split; split; cbn; try done.
  - apply Hp.
  - apply Hp.
  - intros Hs. rewrite Hs in E1. cbn in E1. by apply negb_false_iff, bool_decide_eq_true in E1.
  - intros Ho. rewrite Ho, andb_true_r in E2. apply bool_decide_eq_false in E2. by destruct source.
  - intros Hs. rewrite Hs in E3. rewrite bool_decide_eq_true_2 in E3 by done. by apply negb_false_iff in E3.
  - by exists host.
  - by apply Hb2.
  - intros Hns Hex. apply Hbs in Hex. rewrite (Hb' eq_refl Hns) in Hex. done.
Qed.

(** ** The stored cookies *)
Definition store_ok (m : gmap CookieStorageKey Cookie) : Prop := map_Forall (λ k c, key_of c = k ∧ cookie_ok c) m.

Record jar_ok (jar : CookieJar D) : Prop := {
  jar_ok_wf : jar_wf jar;
  jar_ok_live : store_ok (jar_live jar);
  jar_ok_dirty : store_ok (jar_dirty jar);
}.

Lemma unexpired_lookup now m k c : unexpired now m !! k = Some c ↔ m !! k = Some c ∧ is_expired now c = false.
Proof. unfold unexpired. by rewrite map_lookup_filter_Some. Qed.

Lemma store_ok_unexpired now m : store_ok m → store_ok (unexpired now m).
Proof. intros Hm k c [Hc _]%unexpired_lookup. by apply Hm. Qed.

Lemma store_ok_insert m c : store_ok m → cookie_ok c → store_ok (<[key_of c := c]> m).
Proof. intros Hm Hc. by apply map_Forall_insert_2. Qed.

Lemma stored_cookie_ok old c : cookie_ok c → (∀ o, old = Some o → cookie_ok o) → cookie_ok (stored_cookie old c).
Proof.
  intros Hc Ho. unfold stored_cookie, same_cookie. destruct old as [o|]; cbn; [|done]. destruct (eqb _ _); [|done].
  destruct Hc, (Ho o eq_refl). by split.
Qed.

Lemma stored_cookie_key old c : key_of (stored_cookie old c) = key_of c.
Proof. unfold stored_cookie. by destruct (same_cookie old c). Qed.

Lemma abstract_store_ok now later c m d :
  store_ok m → store_ok d → cookie_ok c →
  store_ok (abstract_store now later c m d).1 ∧ store_ok (abstract_store now later c m d).2.
Proof.
  intros Hm Hd Hc. unfold abstract_store. case_goal; cbn [fst snd]; [by split; [apply store_ok_unexpired|]|].
  pose proof (stored_cookie_ok (m !! key_of c) c Hc (λ o Ho, proj2 (Hm _ _ Ho))) as Hs.
  rewrite <-(stored_cookie_key (m !! key_of c) c) at 1 3. split; [apply store_ok_unexpired|]; by apply store_ok_insert.
Qed.

Lemma live_elem t k c : transient_wf t → live t !! k = Some c → c ∈ value <$> values (m_cookies t).
Proof.
  intros [Hwf _] Hc. apply elem_of_map_to_list in Hc. rewrite <-(values_map_to_list _ Hwf) in Hc.
  apply list_elem_of_fmap in Hc as (e & [= -> ->] & He). apply list_elem_of_fmap. by exists e.
Qed.

(** ** Expiry with a time offset *)
Definition shifted (offset : Duration) (c : Cookie) : Cookie :=
  with_expiry_time c (match duration_sub (expiry_time c) offset with Returned t => t | _ => expiry_time c end).

Lemma shifted_ok offset c : duration_valid offset → cookie_ok c → cookie_ok (shifted offset c).
Proof.
  intros Ho [K1 K2 K3 K4 K5 K6 K7]. unfold shifted. destruct (duration_sub_saturates (expiry_time c) offset K7 Ho) as (t & -> & Ht & _).
  by split.
Qed.

Lemma store_ok_shifted offset m : duration_valid offset → store_ok m → store_ok (shifted offset <$> m).
Proof.
  intros Ho Hm k c Hc. rewrite lookup_fmap in Hc. apply fmap_Some in Hc as (c0 & Hc0 & ->).
  destruct (Hm k c0 Hc0) as [Hk Hok]. split; [done|]. by apply shifted_ok.
Qed.

Lemma shift_all (m : Cookies) offset :
  map_wf m → store_ok (contents m) → duration_valid offset →
  ∃ m', for_each_value m (shift_expiry offset) tt = Returned (m', tt) ∧ map_wf m' ∧ contents m' = shifted offset <$> contents m.
Proof.
  intros Hwf Hok Ho.
  destruct (for_each_value_spec (K := CookieStorageKey) m (shift_expiry offset) (λ e, mk_entry (key e) (shifted offset (value e))) (λ _ u, u) tt)
    as (m' & Hr & Hwf' & Hv & _ & _); [done| |].
  - intros e [] He. split; [|done]. assert (contents m !! key e = Some (value e)) as Hc.
    { apply elem_of_map_to_list. rewrite <-(values_map_to_list _ Hwf). apply list_elem_of_fmap. by exists e. }
    destruct (Hok _ _ Hc) as [_ Hcok]. unfold shift_expiry, shifted.
    by destruct (duration_sub_saturates (expiry_time (value e)) offset (ok_expiry _ Hcok) Ho) as (t & -> & _).
  - exists m'. split; [|split; [done|by apply contents_fmap]]. rewrite Hr. by destruct (foldl _ tt _).
Qed.

Lemma expire_with_time_offset_spec (jar : CookieJar D) env offset :
  jar_ok jar → duration_valid offset →
  ∃ jar' env' now, expire_cookies_with_time_offset jar env offset = Returned (jar', env') ∧ jar_ok jar'
    ∧ m_persisted_storage jar' = m_persisted_storage jar
    ∧ duration_ns now = duration_clamp (duration_ns (clock (readings env)) + duration_ns offset)
    ∧ jar_live jar' = unexpired now (jar_live jar) ∧ jar_dirty jar' = shifted offset <$> jar_dirty jar.
Proof.
  intros [[Hwf Hwfd] Hl Hd] Ho. unfold expire_cookies_with_time_offset, purge_expired_cookies.
  destruct (duration_add_saturates (clock (readings env)) offset (clock_valid _) Ho) as (now & -> & _ & Hnow). rewrite bind_value.
  destruct (shift_all _ offset Hwfd Hd Ho) as (dirty' & -> & Hwfd' & Hd'). rewrite !bind_value.
  destruct (map_take_all_spec (m_cookies (m_transient_storage jar)) (λ _ c, is_expired now c) Hwf) as (m' & taken & -> & Hwf' & Hm & _).
  rewrite bind_value.
  assert (∃ env', (if bool_decide (taken = []) then Returned (next_reading env)
    else send_cookie_changed_notifications (next_reading env) (value <$> taken) true) = Returned env') as (env' & ->).
  { case_bool_decide; [by eexists|]. destruct (send_returns (next_reading env) (value <$> taken) true) as (env' & -> & _). by eexists. }
  rewrite !bind_value. eexists _, env', now. split; [done|]. split_and!; [|done..].
  split; cbn; [by split| |rewrite Hd'; by apply store_ok_shifted]. rewrite Hm. by apply store_ok_unexpired.
Qed.

Lemma store_cookie_ok (jar : CookieJar D) env c non_http :
  jar_ok jar → cookie_ok c → ∃ jar' env', store_cookie jar env c non_http = Returned (jar', env') ∧ jar_ok jar'.
Proof.
  intros [Hwf Hl Hd] Hc. destruct (store_cookie_spec jar env c non_http Hwf) as (jar' & env' & Hr & Hwf' & _ & Hs).
  exists jar', env'. split; [done|]. case_match; [by destruct Hs as [-> ->]|]. destruct Hs as [_ Hs].
  destruct (abstract_store_ok (clock (readings env)) (clock (S (readings env))) c _ _ Hl Hd Hc) as [Hs1 Hs2].
  rewrite <-Hs in Hs1, Hs2. by split.
Qed.

(** A stored cookie that the source of a new one may not change. *)
Definition protected (url : URL) (p : ParsedCookie) (source : Source) (old : Cookie) : Prop :=
  (cookie_secure old = true ∧ scheme url ≠ sv "https")
  ∨ (cookie_http_only old = true ∧ source = NonHttp
     ∧ ∀ d h, domain_and_host_only url (domain_attribute_of p) = Returned (Some (d, h)) → h = cookie_host_only old).

Lemma accepted_stored t url p source c old : accepted t url p source c → accepted t url p source (stored_cookie old c).
Proof. intros [A1 A2 A3 A4 A5 A6 A7 A8]. unfold stored_cookie. by destruct (same_cookie old c); split. Qed.

Lemma protected_other (jar : CookieJar D) url p source c old :
  jar_ok jar → accepted (m_transient_storage jar) url p source c → protected url p source old →
  jar_live jar !! key_of c = Some old →
  match same_cookie (jar_live jar !! key_of c) c with
  | Some o => bool_decide (source = NonHttp) && cookie_http_only o | None => false end = true.
Proof.
  intros Hok Ha Hp Hold. rewrite Hold. destruct (jar_ok_live jar Hok _ _ Hold) as [Hkey _]. injection Hkey as Hn Hd Hpa.
  destruct Hp as [[Hsec Hs]|(Ho & -> & Hflag)].
  - exfalso. apply (accepted_shadow _ _ _ _ _ Ha Hs), Exists_exists. exists old.
    split; [by eapply live_elem, Hold; apply Hok|]. rewrite <-Hn, <-Hd, <-Hpa. split_and!; [done..|by left; left|by left].
  - cbn. rewrite <-(Hflag _ _ (accepted_flag _ _ _ _ _ Ha)), eqb_reflx. by rewrite Ho.
Qed.

(** C6: For a URL whose host can be put in lower case and whose percent-decoded path is
    UTF-8 text without a NUL, setting a parsed cookie of such text with valid times does
    not abort and keeps the jar well-formed.  A cookie it stores was accepted: a secure one
    from an https URL, an HttpOnly one from HTTP, a SameSite=None one only if secure, its
    domain the host or a domain the host matches and no public suffix, a [__Secure-] one
    secure, a [__Host-] one secure, host-only and with no Path attribute other than [/]
    (the code does not ask that it has one), and no nameless one whose value begins with
    either prefix.  And it
    never changes or removes an unexpired cookie it must leave alone: a secure cookie
    when the URL is not https, or an HttpOnly cookie with the same host-only flag
    when the source is a script. *)
Theorem set_cookie_safe (jar : CookieJar D) env url p source :
  jar_ok jar → url_ready url → parsed_ok p →
  ∃ jar' env', set_cookie jar env url p source = Returned (jar', env') ∧ jar_ok jar'
    ∧ (∀ k c, jar_live jar' !! k = Some c →
         jar_live jar !! k = Some c ∨ accepted (m_transient_storage jar) url p source c)
    ∧ (∀ k old, jar_live jar !! k = Some old → protected url p source old →
         is_expired (clock (S (S (readings env)))) old = false → jar_live jar' !! k = Some old).
Proof.
  intros Hok Hurl Hp. unfold set_cookie. case_goal; [by exists jar, env; split_and!; auto|].
  destruct (new_cookie_spec (m_transient_storage jar) url p source (clock (readings env)) Hurl Hp (clock_valid _)) as (r & -> & Hr).
  rewrite bind_value. destruct r as [c|]; [|by exists jar, (next_reading env); split_and!; auto].
  destruct (Hr c eq_refl) as [Hc Ha]. clear Hr.
  destruct (store_cookie_ok jar (next_reading env) c (bool_decide (source = NonHttp)) Hok Hc) as (jar' & env' & Hs & Hok').
  exists jar', env'. split; [done|]. split; [done|].
  destruct (store_cookie_spec jar (next_reading env) c (bool_decide (source = NonHttp)) (jar_ok_wf jar Hok))
    as (j & e & Hs' & _ & _ & Hm). rewrite Hs in Hs'. injection Hs' as <- <-.
  case_match eqn:Eblock; [destruct Hm as [-> ->]; by auto|]. destruct Hm as [_ Hm]. unfold abstract_store in Hm. cbn in Hm.
  split.
  - intros k c' Hk. destruct (is_expired _ _ && _); injection Hm as Hm _; rewrite Hm in Hk;
      apply unexpired_lookup in Hk as [Hk _]; [by left|]. apply lookup_insert_Some in Hk as [[_ <-]|[_ Hk]]; [|by left].
    right. by apply accepted_stored.
  - intros k old Hk Hprot Hexp. destruct (is_expired _ _ && _); injection Hm as Hm _; rewrite Hm; apply unexpired_lookup;
      [done|]. split; [|done]. apply lookup_insert_Some. right. split; [|done]. intros <-.
    by rewrite (protected_other jar url p source c old Hok Ha Hprot Hk) in Eblock.
Qed.

(** C40: The storage key of a cookie does not hold its host-only flag.  So a script may
    replace an HttpOnly cookie: when the flags differ, the new cookie is not
    recognised as the same one, the HttpOnly check of step 23 is skipped, and the new
    cookie takes the place of the old one in the map. *)
Theorem http_only_cookie_overwritten (jar : CookieJar D) env url p c old :
  jar_ok jar → acceptable_name_value p = true →
  new_cookie (m_transient_storage jar) url p NonHttp (clock (readings env)) = Returned (Some c) →
  jar_live jar !! key_of c = Some old → cookie_http_only old = true → cookie_host_only old = negb (cookie_host_only c) →
  is_expired (clock (S (S (readings env)))) c = false →
  ∃ jar' env', set_cookie jar env url p NonHttp = Returned (jar', env') ∧ jar_live jar' !! key_of c = Some c.
Proof.
  intros Hok Hacc Hnew Hold _ Hflag Hexp. unfold set_cookie. rewrite Hacc. cbn [negb]. rewrite Hnew, bind_value.
  destruct (store_cookie_spec jar (next_reading env) c (bool_decide (NonHttp = NonHttp)) (jar_ok_wf jar Hok))
    as (jar' & env' & -> & _ & _ & Hs).
  assert (same_cookie (Some old) c = None) as Hsame by (cbn; rewrite Hflag; by destruct (cookie_host_only c)).
  rewrite Hold, Hsame in Hs. destruct Hs as [_ Hs]. exists jar', env'. split; [done|].
  unfold abstract_store in Hs. rewrite Hold in Hs. unfold stored_cookie in Hs. rewrite Hsame in Hs.
  rewrite (bool_decide_eq_true_2 (is_Some (Some old))), andb_false_r in Hs by (by eexists).
  injection Hs as -> _. apply unexpired_lookup. split; [apply lookup_insert_eq|done].
Qed.

(** ** Reading the jar *)
Lemma duration_lt_spec a b :
  duration_lt a b = true ↔ m_seconds a < m_seconds b ∨ m_seconds a = m_seconds b ∧ m_nanoseconds a < m_nanoseconds b.
Proof.
  unfold duration_lt, duration_compare. rewrite Z.ltb_lt.
  destruct (Z.ltb_spec (m_seconds b) (m_seconds a)); [cbn; lia|].
  destruct (Z.ltb_spec (m_seconds a) (m_seconds b)); [cbn; lia|]. cbn.
  destruct (Z.ltb_spec (m_nanoseconds b) (m_nanoseconds a)); [lia|].
  destruct (Z.ltb_spec (m_nanoseconds a) (m_nanoseconds b)); lia.
Qed.

(** The order of section 5.8.3 step 4: longer paths first, then earlier creation. *)
Definition rfc_order (a b : Cookie) : Prop :=
  (length (cookie_path b) < length (cookie_path a))%nat
  ∨ length (cookie_path a) = length (cookie_path b) ∧ duration_lt (creation_time b) (creation_time a) = false.

Lemma listed_before_spec a b :
  listed_before a b = true ↔
  (length (cookie_path b) < length (cookie_path a))%nat
  ∨ length (cookie_path a) = length (cookie_path b) ∧ duration_lt (creation_time a) (creation_time b) = true.
Proof.
  unfold listed_before. destruct (Nat.ltb_spec (length (cookie_path b)) (length (cookie_path a))) as [|Hle]; [split; [by left|done]|].
  destruct (Nat.eqb_spec (length (cookie_path a)) (length (cookie_path b))) as [|Hne].
  - split; [by right|]. intros [|[_ ?]]; [lia|done].
  - split; [done|]. intros [|[? _]]; lia.
Qed.

Lemma not_listed_before a b : listed_before a b = false ↔ rfc_order b a.
Proof.
  rewrite <-not_true_iff_false, listed_before_spec. unfold rfc_order. rewrite <-not_true_iff_false.
  destruct (Nat.lt_total (length (cookie_path b)) (length (cookie_path a))) as [Hlt|[Heq|Hgt]].
  - split; [intros Hn; by destruct Hn; left|]. intros [|[]]; lia.
  - split; [|intros [|[_ Hn]]; [lia|]; by intros [|[_ ?]]; [lia|]].
    intros Hn. right. split; [done|]. intros Hl. apply Hn. by right.
  - split; [by left|]. intros _ [|[]]; lia.
Qed.

Lemma listed_before_order x y z : listed_before x y = true → rfc_order y z → rfc_order x z.
Proof.
  intros [Hl|[He Hc]]%listed_before_spec; intros [Hl'|[He' Hc']]; [left; lia|left; lia|left; lia|].
  right. split; [congruence|]. apply duration_lt_spec in Hc. rewrite <-not_true_iff_false, duration_lt_spec in Hc' |- *. lia.
Qed.

Lemma listed_before_first x y : listed_before x y = true → rfc_order x y.
Proof.
  intros [Hl|[He Hc]]%listed_before_spec; [by left|]. right. split; [done|].
  apply duration_lt_spec in Hc. rewrite <-not_true_iff_false, duration_lt_spec. lia.
Qed.

Lemma insert_before_perm {A} (x : A) pred l : insert_before_matching x pred l ≡ₚ x :: l.
Proof. induction l as [|y l IH]; cbn; [done|]. case_goal; [done|]. rewrite IH. apply Permutation_swap. Qed.

Lemma insert_before_sorted x l :
  StronglySorted rfc_order l → StronglySorted rfc_order (insert_before_matching x (listed_before x) l).
Proof.
  induction 1 as [|y l Hs IH Hy]; cbn; [by repeat constructor|]. destruct (listed_before x y) eqn:E.
  - constructor; [by constructor|]. constructor; [by apply listed_before_first|].
    eapply Forall_impl; [exact Hy|]. intros z. by apply listed_before_order.
  - constructor; [done|]. rewrite insert_before_perm. constructor; [by apply not_listed_before|done].
Qed.

Section Matching.
Context (url : URL) (host : bytes) (source : Source).
Hypothesis path_returns : returns (serialize_path url).

(** The cookie is sent for the URL. *)
Definition sent (c : Cookie) : Prop := cookie_matches_url c url host (Some source) = Returned true.

#[local] Instance sent_dec c : Decision (sent c).
Proof.
  unfold sent. destruct (cookie_matches_url c url host (Some source)) as [[]| |]; [by left|by right..].
Defined.

Definition touch (now : UnixDateTime) (c : Cookie) : Cookie := if decide (sent c) then with_last_access_time c now else c.

Lemma match_cookie_rfc now e l :
  match_cookie url host source RFC6265 now e l
  = Returned (mk_entry (key e) (touch now (value e)),
      if decide (sent (value e)) then insert_before_matching (touch now (value e)) (listed_before (touch now (value e))) l else l).
Proof.
  unfold match_cookie, touch. destruct (cookie_matches_returns (value e) url host (Some source) path_returns) as [b Hb].
  rewrite Hb, bind_value. destruct (decide (sent (value e))) as [Hs|Hs].
  - unfold sent in Hs. rewrite Hs in Hb. by injection Hb as <-.
  - destruct b; [done|]. by destruct e.
Qed.

Lemma match_cookie_webdriver now e l :
  match_cookie url host source WebDriver now e l
  = Returned (e, if decide (sent (value e)) then l ++ [value e] else l).
Proof.
  unfold match_cookie. destruct (cookie_matches_returns (value e) url host (Some source) path_returns) as [b Hb].
  rewrite Hb, bind_value. destruct (decide (sent (value e))) as [Hs|Hs].
  - unfold sent in Hs. rewrite Hs in Hb. by injection Hb as <-.
  - by destruct b.
Qed.

Lemma matching_fold now l acc :
  StronglySorted rfc_order acc →
  let r := foldl (λ acc e, if decide (sent (value e)) then
    insert_before_matching (touch now (value e)) (listed_before (touch now (value e))) acc else acc) acc l in
  StronglySorted rfc_order r ∧ r ≡ₚ (touch now <$> filter sent (@value CookieStorageKey Cookie <$> l)) ++ acc.
Proof.
  revert acc. induction l as [|e l IH]; intros acc Hacc; cbn [foldl fmap list_fmap]; [done|].
  destruct (decide (sent (value e))) as [Hs|Hs].
  - destruct (IH _ (insert_before_sorted (touch now (value e)) acc Hacc)) as [Hr1 Hr2]. split; [done|].
    rewrite Hr2, filter_cons_True by done. cbn. rewrite insert_before_perm. by rewrite <-Permutation_middle.
  - rewrite filter_cons_False by done. by apply IH.
Qed.

Lemma live_values t : transient_wf t → value <$> values (m_cookies t) ≡ₚ (map_to_list (live t)).*2.
Proof.
  intros [Hwf _]. rewrite <-(values_map_to_list _ Hwf), <-list_fmap_compose. done.
Qed.

Lemma touch_key now c : key_of (touch now c) = key_of c.
Proof. unfold touch. by case_decide. Qed.

Lemma touch_ok now c : duration_valid now → cookie_ok c → cookie_ok (touch now c).
Proof. intros Hn []. unfold touch. by case_decide. Qed.

Lemma store_ok_touch now m : duration_valid now → store_ok m → store_ok (touch now <$> m).
Proof.
  intros Hn Hm k c Hc. rewrite lookup_fmap in Hc. apply fmap_Some in Hc as (c0 & Hc0 & ->).
  destruct (Hm k c0 Hc0) as [Hk Hok]. rewrite touch_key. split; [done|]. by apply touch_ok.
Qed.

Lemma get_matching_rfc (jar : CookieJar D) env :
  jar_ok jar → canonicalize_domain url = Returned (Some host) →
  ∃ jar' env' l, get_matching_cookies jar env url source RFC6265 = Returned (jar', env', l) ∧ jar_ok jar'
    ∧ m_persisted_storage jar' = m_persisted_storage jar ∧ readings env' = S (S (readings env))
    ∧ StronglySorted rfc_order l
    ∧ l ≡ₚ touch (clock (readings env)) <$> filter sent (map_to_list (jar_live jar)).*2
    ∧ jar_live jar' = unexpired (clock (S (readings env))) (touch (clock (readings env)) <$> jar_live jar)
    ∧ jar_dirty jar' = jar_dirty jar.
Proof.
  intros [Hwf Hl Hd] Hh. unfold get_matching_cookies. rewrite Hh, bind_value. set (now := clock (readings env)).
  destruct (for_each_value_spec (K := CookieStorageKey) (m_cookies (m_transient_storage jar)) (match_cookie url host source RFC6265 now)
    (λ e, mk_entry (key e) (touch now (value e)))
    (λ e l, if decide (sent (value e)) then
       insert_before_matching (touch now (value e)) (listed_before (touch now (value e))) l else l) [])
    as (m' & -> & Hm' & Hv & _ & _); [apply Hwf|intros e l _; split; [apply match_cookie_rfc|done]|].
  rewrite bind_value. apply contents_fmap in Hv.
  destruct (matching_fold now (values (m_cookies (m_transient_storage jar))) [] ltac:(constructor)) as [Hsort Hperm].
  rewrite app_nil_r, (live_values _ Hwf) in Hperm.
  set (t := mk_transient m' _). assert (transient_wf t) as Ht by (split; [done|apply Hwf]).
  destruct (purge_spec t (next_reading env) Ht) as (t' & env' & -> & Hr & Ht' & Hl' & Hd'). rewrite bind_value.
  cbn in Hl', Hd'. rewrite Hv in Hl'. eexists _, env', _. split; [done|]. split_and!; try done; [|by cbn; rewrite Hd'].
  split; cbn; [done| |by rewrite Hd']. rewrite Hl'. apply store_ok_unexpired, store_ok_touch; [apply clock_valid|done].
Qed.

Lemma webdriver_fold (l : list (Entry CookieStorageKey Cookie)) acc :
  foldl (λ acc e, if decide (sent (value e)) then acc ++ [value e] else acc) acc l = acc ++ filter sent (value <$> l).
Proof.
  revert acc. induction l as [|e l IH]; intros acc; cbn [foldl fmap list_fmap]; [by rewrite app_nil_r|].
  rewrite IH, filter_cons. case_decide; [by rewrite <-app_assoc|done].
Qed.

(** The WebDriver mode lists the cookies in the order of the table and changes
    nothing. *)
Lemma get_matching_webdriver (jar : CookieJar D) env :
  jar_ok jar → canonicalize_domain url = Returned (Some host) →
  ∃ jar' env' l, get_matching_cookies jar env url source WebDriver = Returned (jar', env', l) ∧ jar_ok jar'
    ∧ m_persisted_storage jar' = m_persisted_storage jar ∧ readings env' = S (readings env)
    ∧ l ≡ₚ filter sent (map_to_list (jar_live jar)).*2
    ∧ jar_live jar' = jar_live jar ∧ jar_dirty jar' = jar_dirty jar.
Proof.
  intros [Hwf Hl Hd] Hh. unfold get_matching_cookies. rewrite Hh, bind_value.
  destruct (for_each_value_spec (K := CookieStorageKey) (m_cookies (m_transient_storage jar))
    (match_cookie url host source WebDriver (clock (readings env))) (λ e, e)
    (λ e l, if decide (sent (value e)) then l ++ [value e] else l) [])
    as (m' & -> & Hm' & Hv & _ & _); [apply Hwf|intros e l _; split; [apply match_cookie_webdriver|done]|].
  rewrite bind_value, list_fmap_id in *. eexists _, _, _. split; [done|].
  assert (contents m' = jar_live jar) as Hc by (unfold contents; by rewrite Hv).
  split; [split; cbn; [split; [done|apply Hwf]|by rewrite Hc|done]|]. split_and!; try done.
  rewrite <-(live_values _ Hwf). by rewrite webdriver_fold.
Qed.

(** [name=value], and a list of them. *)
Definition cookie_pair (c : Cookie) : bytes :=
  (if bool_decide (cookie_name c = []) then [] else cookie_name c ++ [c_equals]) ++ cookie_value c.

Definition join_cookies (l : list Cookie) : bytes :=
  match l with [] => [] | c :: l => cookie_pair c ++ (l ≫= λ c, sv "; " ++ cookie_pair c) end.

Lemma serialize_step (c : Cookie) (l : list Cookie) builder :
  serialize_cookies (c :: l) builder
  = serialize_cookies l ((if bool_decide (builder = []) then [] else builder ++ sv "; ") ++ cookie_pair c).
Proof.
  cbn [serialize_cookies]. f_equal. unfold cookie_pair.
  set (b := if bool_decide (builder = []) then builder else builder ++ sv "; ").
  assert ((if bool_decide (builder = []) then [] else builder ++ sv "; ") = b) as ->.
  { unfold b. by case_bool_decide as Hn; [rewrite Hn|]. }
  clearbody b. destruct (cookie_name c), (cookie_value c); cbn; rewrite ?app_nil_r, <-?app_assoc; cbn; by rewrite <-?app_assoc.
Qed.

Lemma serialize_rest l builder :
  builder ≠ [] → serialize_cookies l builder = builder ++ (l ≫= λ c, sv "; " ++ cookie_pair c).
Proof.
  revert builder. induction l as [|c l IH]; intros b Hb; [by rewrite app_nil_r|].
  rewrite serialize_step, bool_decide_eq_false_2 by done. rewrite IH; [|by destruct b].
  rewrite bind_cons. by rewrite <-!app_assoc.
Qed.

Lemma serialize_join l : Forall (λ c, cookie_pair c ≠ []) l → serialize_cookies l [] = join_cookies l.
Proof. intros [|c l' Hc _]; [done|]. rewrite serialize_step. cbn [bool_decide decide app]. by rewrite serialize_rest. Qed.

Lemma cookie_pair_valid c : cookie_ok c → valid_utf8 (cookie_pair c).
Proof.
  intros Hc. unfold cookie_pair. apply valid_utf8_app; [|apply Hc]. case_bool_decide; [apply valid_utf8_nil|].
  apply valid_utf8_app; [apply Hc|by apply valid_utf8_ascii_char].
Qed.

Lemma join_cookies_valid l : Forall cookie_ok l → valid_utf8 (join_cookies l).
Proof.
  assert (∀ l, Forall cookie_ok l → valid_utf8 (l ≫= λ c, sv "; " ++ cookie_pair c)) as Hrest.
  { induction 1 as [|c l' Hc _ IH]; [apply valid_utf8_nil|]. rewrite bind_cons. apply valid_utf8_app; [|done].
    apply valid_utf8_app; [apply ascii_text_valid; by repeat constructor|by apply cookie_pair_valid]. }
  intros [|c l' Hc Hl]; [apply valid_utf8_nil|]. apply valid_utf8_app; [by apply cookie_pair_valid|by apply Hrest].
Qed.

Lemma touch_pair now c : cookie_pair (touch now c) = cookie_pair c.
Proof. unfold touch. by case_decide. Qed.


End Matching.

End Jar.
