(* ===== verification/CookieJarExpire.v ===== *)
(** * Expiring the cookies accessed since a time

    The loop of [expire_and_purge_cookies_accessed_since] sets cookies in the map it
    iterates over.  Where the map has room, the set finds its bucket again and the
    loop does what it should; where the next set grows the map, the iterator is left
    pointing into the freed buckets. *)
From stdpp Require Import gmap.
From S2P Require Import Prelude CharacterTypes Externals Utf8 StringView Utf8View Format PercentEncoding Ipv4 Host PublicSuffix Url Time GenericLexer Http IpAddress HashFunctions HashTable HashTableCorrect HashMap Cookie ParsedCookie ParsedCookieCorrect CookieJar CookieJarCorrect.

Section Expire.
Context `{SimdutfOk} `{FastFloat} `{PublicSuffixData} `{IcuCaseMap} `{ClockOk} `{Views} `{!ViewsOk}.
Notation live t := (contents (m_cookies t)).
Notation dirty t := (contents (m_dirty_cookies t)).
Notation entry := (Entry CookieStorageKey Cookie).

Variable since : UnixDateTime.

Definition accessed_since (c : Cookie) : bool := operator_ge (last_access_time c) since.
Definition expired (c : Cookie) : Cookie := with_expiry_time c earliest.
Definition expire_accessed (c : Cookie) : Cookie := if accessed_since c then expired c else c.
Definition expire_entry (e : entry) : entry := mk_entry (key e) (expire_accessed (value e)).

Definition expire_slot (o : option entry) : option entry := option_map expire_entry o.

(** The changed cookies after the entries [l] were visited. *)
Definition mark_expired (d : gmap CookieStorageKey Cookie) (l : list entry) : gmap CookieStorageKey Cookie :=
  foldl (λ d e, if accessed_since (value e) then <[key e := expired (value e)]> d else d) d l.

Notation table_ok := (table_ok (T := entry) (K := CookieStorageKey)).
Notation map_wf := (hash_table_wf (T := entry) (K := CookieStorageKey)).

Lemma live_of_element k t E i e :
  table_ok k (m_cookies t) E → E !! i = Some (Some e) → live t !! key e = Some (value e).
Proof.
  intros Hok He. destruct (table_wf k _ E Hok) as [Hwf Hv]. apply contents_elem; [done|]. rewrite Hv. apply elements_elem. eauto.
Qed.

(** One visited cookie, in a map that has room. *)
Lemma expire_step k t E i b e env :
  table_ok k (m_cookies t) E → map_wf (m_dirty_cookies t) → should_grow (m_cookies t) = false →
  E !! i = Some (Some e) → m_buckets (m_cookies t) !! i = Some b →
  ∃ t' env', transient_set_cookie
      (mk_transient (mk_hash_table (<[i:=mk_bucket (state b) (stored_hash b) (Some (mk_entry (key e) (expired (value e))))]>
         (m_buckets (m_cookies t))) (m_size (m_cookies t)) (m_mask (m_cookies t))) (m_dirty_cookies t))
      env (key e) (expired (value e)) = Returned (t', env')
    ∧ readings env' = S (readings env)
    ∧ table_ok k (m_cookies t') (<[i:=Some (mk_entry (key e) (expired (value e)))]> E)
    ∧ m_size (m_cookies t') = m_size (m_cookies t)
    ∧ map_wf (m_dirty_cookies t') ∧ dirty t' = <[key e := expired (value e)]> (dirty t).
Proof.
  intros Hok Hd Hg He Hb. set (e' := mk_entry (key e) (expired (value e))).
  destruct (set_in_place k (m_cookies t) E i b e e' Hok He Hb eq_refl Hg) as (m1 & Hset & Hok1 & Hs1).
  destruct (matches_lookup k None _ E i _ (ok_matches k _ _ Hok) He ltac:(done)) as (b' & _ & Hb' & Hbok).
  rewrite Hb in Hb'. injection Hb' as <-.
  pose proof (replace_ok k (m_cookies t) E e' e i b Hok He eq_refl Hbok) as Hok0.
  set (t0 := mk_transient (mk_hash_table _ _ _) (m_dirty_cookies t)).
  assert (E !! i = Some (Some e) → (<[i:=Some e']> E) !! i = Some (Some e')) as Hi.
  { intros _. apply list_lookup_insert_eq. by eapply lookup_lt_Some. }
  destruct (transient_set_present t0 env (key e) (expired (value e)) m1 ReplacedExistingEntry) as (m2 & env' & -> & Hr & Hw2 & Hm2).
  - split; [by apply (table_wf k _ _ Hok0)|done].
  - pose proof (live_of_element k t0 _ i e' Hok0 (Hi He)) as Hlive. by eexists.
  - done.
  - by eexists _, env'.
Qed.

Lemma take_insert_drop {A} (l : list A) i x y : l !! i = Some x → take (S i) (<[i:=y]> l) = take i l ++ [y].
Proof.
  intros Hl. pose proof (lookup_lt_Some _ _ _ Hl) as Hlt.
  rewrite (take_S_r _ i y) by (by apply list_lookup_insert_eq). by rewrite take_insert_ge.
Qed.

Lemma expire_loop_spec k fuel i t env E :
  table_ok k (m_cookies t) E → map_wf (m_dirty_cookies t) → should_grow (m_cookies t) = false → length E = (i + fuel)%nat →
  ∃ t' env', expire_loop fuel i t env since = Returned (Some (t', env'))
    ∧ table_ok k (m_cookies t') (take i E ++ (expire_slot <$> drop i E))
    ∧ map_wf (m_dirty_cookies t') ∧ dirty t' = mark_expired (dirty t) (omap (M := list) id (drop i E)).
Proof.
  revert i t env E. induction fuel as [|fuel IH]; intros i t env E Hok Hd Hg Hlen.
  { exists t, env. rewrite take_ge, drop_ge, app_nil_r by lia. by split_and!. }
  destruct (lookup_lt_is_Some_2 E i ltac:(lia)) as [o Ho]. rewrite (drop_S _ _ _ Ho).
  destruct (matches_lookup k None _ E i _ (ok_matches k _ _ Hok) Ho ltac:(done)) as (b & Hb & Hbl & Hbok).
  assert (take i E ++ (expire_slot <$> o :: drop (S i) E)
    = take (S i) (<[i:=expire_slot o]> E) ++ (expire_slot <$> drop (S i) (<[i:=expire_slot o]> E))) as ->.
  { rewrite (take_insert_drop _ _ _ _ Ho), drop_insert_lt by lia. by rewrite <-app_assoc. }
  cbn [expire_loop]. rewrite Hb, bind_value. destruct o as [e|]; cbn [expire_slot option_map].
  - rewrite (bucket_used k i b e Hbok). destruct Hbok as (_ & Hslot & _). rewrite Hslot. cbn [must]. rewrite bind_value.
    cbn [omap list_omap id mark_expired foldl]. unfold expire_entry at 1 2, expire_accessed at 1 2. fold (accessed_since (value e)).
    destruct (accessed_since (value e)) eqn:Ea.
    + rewrite set_index_lt, bind_value by (by eapply lookup_lt_Some). fold (expired (value e)).
      destruct (expire_step k t E i b e env Hok Hd Hg Ho Hbl) as (t1 & env1 & -> & _ & Hok1 & Hs1 & Hd1 & Hm1). rewrite bind_value.
      destruct (table_length k _ _ Hok) as (_ & Hcap & _). destruct (table_length k _ _ Hok1) as (_ & Hcap1 & _).
      assert (capacity (mk_hash_table (<[i:=mk_bucket (state b) (stored_hash b) (Some (mk_entry (key e) (expired (value e))))]>
         (m_buckets (m_cookies t))) (m_size (m_cookies t)) (m_mask (m_cookies t))) = capacity (m_cookies t)) as Hc0.
      { unfold capacity. cbn. destruct (m_buckets (m_cookies t)), i; done. }
      rewrite Hc0, Hcap1, Hcap, Nat.eqb_refl. cbn [negb andb].
      destruct (IH (S i) t1 env1 _ Hok1 Hd1) as (t2 & env2 & Hr & Hok2 & Hd2 & Hm2).
      { unfold should_grow in *. by rewrite Hs1, Hcap1, <-Hcap. } { rewrite length_insert. lia. }
      exists t2, env2. split_and!; [done..|]. rewrite Hm2, Hm1, drop_insert_lt by lia. done.
    + destruct e as [ke c]. cbn [key value] in *. rewrite list_insert_id by done. apply IH; [done..|lia].
  - cbn in Hbok. rewrite Hbok. cbn [Z.eqb]. rewrite list_insert_id by done. cbn [omap list_omap id]. apply IH; [done..|lia].
Qed.

Lemma mark_expired_lookup d l k :
  NoDup (key <$> l) →
  mark_expired d l !! k =
    match (list_to_map (pair_of <$> l) : gmap CookieStorageKey Cookie) !! k with
    | Some c => if accessed_since c then Some (expired c) else d !! k
    | None => d !! k
    end.
Proof.
  revert d. induction l as [|e l IH]; intros d Hnd; [done|]. cbn in Hnd. apply NoDup_cons in Hnd as [Hnin Hnd].
  cbn [mark_expired foldl fmap list_fmap list_to_map foldr]. fold (mark_expired (if accessed_since (value e)
    then <[key e := expired (value e)]> d else d) l). rewrite IH by done. cbn [pair_of list_to_map uncurry fst snd].
  destruct (decide (k = key e)) as [->|Hne].
  - rewrite lookup_insert_eq, (not_elem_of_list_to_map_1 (pair_of <$> l)) by (by rewrite <-list_fmap_compose).
    by destruct (accessed_since (value e)); rewrite ?lookup_insert_eq.
  - rewrite (lookup_insert_ne _ (key e)) by done. by destruct (accessed_since (value e)); rewrite ?lookup_insert_ne by done.
Qed.

Lemma expire_values (E : list (option entry)) : omap id (expire_slot <$> E) = expire_entry <$> omap id E.
Proof. induction E as [|[e|] E IH]; cbn; [done|by f_equal|done]. Qed.

(** The loop over a map with room, and the purge after it. *)
Lemma expire_and_purge_spec t env :
  transient_wf t → should_grow (m_cookies t) = false →
  ∃ t' env' n, expire_and_purge_cookies_accessed_since t env since = Returned (Some (t', env')) ∧ transient_wf t'
    ∧ live t' = unexpired (clock n) (expire_accessed <$> live t)
    ∧ ∀ k, dirty t' !! k = match live t !! k with
                           | Some c => if accessed_since c then Some (expired c) else dirty t !! k
                           | None => dirty t !! k
                           end.
Proof.
  intros [Hc Hd] Hg. unfold expire_and_purge_cookies_accessed_since.
  destruct Hc as [[Hb Hs]|(k & E & Hok)]; [unfold should_grow, capacity in Hg; by rewrite Hb, Hs in Hg|].
  destruct (table_wf k _ E Hok) as [Hwf Hv]. destruct (table_length k _ E Hok) as (Hlen & _ & _).
  destruct (expire_loop_spec k (length (m_buckets (m_cookies t))) 0 t env E Hok Hd Hg) as (t1 & env1 & -> & Hok1 & Hd1 & Hm1).
  { by rewrite (me_length k _ _ _ (ok_matches k _ _ Hok)). }
  rewrite bind_value. rewrite drop_0 in Hm1, Hok1. rewrite take_0, app_nil_l in Hok1.
  destruct (table_wf k _ _ Hok1) as [Hwf1 Hv1].
  destruct (purge_spec t1 env1) as (t2 & env2 & -> & _ & Hwf2 & Hl2 & Hd2); [by split|]. rewrite bind_value.
  exists t2, env2, (readings env1). split; [done|]. split; [done|]. split.
  - rewrite Hl2. f_equal. apply contents_fmap. by rewrite Hv1, expire_values, Hv.
  - intros q. rewrite Hd2, Hm1. unfold contents at 2. rewrite Hv. apply mark_expired_lookup.
    exact (ok_unique k _ _ Hok).
Qed.

(** Two cookies that were accessed: one of them is not in the last bucket. *)
Lemma accessed_before_last k t E k1 k2 c1 c2 :
  table_ok k (m_cookies t) E → k1 ≠ k2 → live t !! k1 = Some c1 → live t !! k2 = Some c2 →
  accessed_since c1 = true → accessed_since c2 = true →
  ∃ i e, (S i < length E)%nat ∧ E !! i = Some (Some e) ∧ accessed_since (value e) = true.
Proof.
  intros Hok Hne H1' H2' Ha1 Ha2. destruct (table_wf k _ E Hok) as [Hwf Hv].
  assert (∀ q c, live t !! q = Some c → ∃ i, E !! i = Some (Some (mk_entry q c))) as Hin.
  { intros q c Hq. apply elem_of_map_to_list in Hq. rewrite <-(values_map_to_list _ Hwf), Hv in Hq.
    apply list_elem_of_fmap in Hq as (e & [= -> ->] & He). apply elements_elem in He as [i Hi]. exists i. by destruct e. }
  destruct (Hin _ _ H1') as [i1 Hi1], (Hin _ _ H2') as [i2 Hi2].
  pose proof (lookup_lt_Some _ _ _ Hi1). pose proof (lookup_lt_Some _ _ _ Hi2).
  destruct (Nat.lt_trichotomy i1 i2) as [|[->|]]; [by exists i1; eexists; split_and!; [lia|..]|congruence|].
  by exists i2; eexists; split_and!; [lia|..].
Qed.

Lemma expire_loop_dangles k fuel i t env E j e :
  table_ok k (m_cookies t) E → map_wf (m_dirty_cookies t) → should_grow (m_cookies t) = true → length E = (i + fuel)%nat →
  (i ≤ j)%nat → (S j < length E)%nat → E !! j = Some (Some e) → accessed_since (value e) = true →
  expire_loop fuel i t env since = Returned None.
Proof.
  intros Hok Hd Hg. revert i. induction fuel as [|fuel IH]; intros i Hlen Hij Hj He Ha; [lia|].
  destruct (lookup_lt_is_Some_2 E i ltac:(lia)) as [o Ho].
  destruct (matches_lookup k None _ E i _ (ok_matches k _ _ Hok) Ho ltac:(done)) as (b & Hb & Hbl & Hbok).
  assert ((o = None ∨ ∃ e', o = Some e' ∧ accessed_since (value e') = false) → (S i ≤ j)%nat) as Hstep.
  { intros Ho'. destruct (decide (i = j)) as [->|]; [|lia]. rewrite Ho in He. injection He as ->.
    destruct Ho' as [|(e' & [= <-] & ?)]; congruence. }
  cbn [expire_loop]. rewrite Hb, bind_value. destruct o as [e1|].
  2:{ cbn in Hbok. rewrite Hbok. cbn [Z.eqb]. apply IH; [lia|apply Hstep; by left|done..]. }
  rewrite (bucket_used k i b e1 Hbok). pose proof Hbok as (_ & Hslot & _). rewrite Hslot. cbn [must]. rewrite bind_value.
  fold (accessed_since (value e1)). destruct (accessed_since (value e1)) eqn:Ea; [|apply IH; [lia|apply Hstep; eauto|done..]].
  rewrite set_index_lt, bind_value by (by eapply lookup_lt_Some). fold (expired (value e1)).
  set (e' := mk_entry (key e1) (expired (value e1))). set (cookies := mk_hash_table _ _ _).
  pose proof (replace_ok k (m_cookies t) E e' e1 i b Hok Ho eq_refl Hbok) as Hok0. fold cookies in Hok0.
  destruct (table_wf k cookies _ Hok0) as [Hwf0 _].
  destruct (map_set_spec cookies (key e1) (expired (value e1)) Replace Hwf0) as (m1 & r1 & Hset & _ & _ & _).
  destruct (transient_set_present (mk_transient cookies (m_dirty_cookies t)) env (key e1) (expired (value e1)) m1 r1)
    as (m2 & env' & -> & _); [by split|..|done|].
  { pose proof (live_of_element k (mk_transient cookies (m_dirty_cookies t)) _ i e' Hok0) as Hlive. eexists. apply Hlive.
    apply list_lookup_insert_eq. by eapply lookup_lt_Some. }
  rewrite bind_value. destruct (table_length k _ _ Hok) as (_ & Hcap & _). destruct (table_length k _ _ Hok0) as (_ & Hcap0 & _).
  pose proof (try_set_grows cookies (mk_entry (key e1) (expired (value e1))) Replace m1 r1 Hwf0) as Hgrow.
  assert (capacity cookies < capacity m1)%nat as Hlt.
  { apply Hgrow; [|done]. unfold should_grow in *. rewrite Hcap0. by rewrite Hcap in Hg. }
  cbn [m_cookies]. rewrite (proj2 (Nat.eqb_neq (capacity m1) (capacity cookies))) by lia.
  rewrite (proj2 (Nat.eqb_neq fuel 0)) by lia. done.
Qed.

(** ** Every case of the loop *)
Lemma not_accessed_slots (l : list (option entry)) :
  (∀ j e, l !! j = Some (Some e) → accessed_since (value e) = false) → expire_slot <$> l = l.
Proof.
  intros Hl. rewrite <-(list_fmap_id l) at 2. apply list_fmap_ext. intros j o Ho. destruct o as [e|]; [|done]. cbn.
  unfold expire_entry, expire_accessed. rewrite (Hl j e Ho). by destruct e.
Qed.

Lemma not_accessed_marks (l : list (option entry)) d :
  (∀ j e, l !! j = Some (Some e) → accessed_since (value e) = false) → mark_expired d (omap id l) = d.
Proof.
  intros Hl. assert (Forall (λ e, accessed_since (value e) = false) (omap id l)) as Hall.
  { apply Forall_forall. intros e [j Hj]%elements_elem. by apply (Hl j). }
  unfold mark_expired. induction Hall as [|e l' He _ IH]; [done|]. cbn. by rewrite He.
Qed.

(** The last bucket's cookie, set in a map that is due to grow. *)
Lemma expire_last_bucket k t E i b e env :
  table_ok k (m_cookies t) E → map_wf (m_dirty_cookies t) → E !! i = Some (Some e) → m_buckets (m_cookies t) !! i = Some b →
  length E = S i → accessed_since (value e) = true →
  (∀ j e, (j < i)%nat → E !! j = Some (Some e) → accessed_since (value e) = false) →
  ∃ t' env', transient_set_cookie
      (mk_transient (mk_hash_table (<[i:=mk_bucket (state b) (stored_hash b) (Some (mk_entry (key e) (expired (value e))))]>
         (m_buckets (m_cookies t))) (m_size (m_cookies t)) (m_mask (m_cookies t))) (m_dirty_cookies t))
      env (key e) (expired (value e)) = Returned (t', env')
    ∧ transient_wf t' ∧ live t' = expire_accessed <$> live t ∧ dirty t' = mark_expired (dirty t) (omap id E).
Proof.
  intros Hok Hd He Hb Hlen Ha Hbefore. set (e' := mk_entry (key e) (expired (value e))).
  destruct (matches_lookup k None _ E i _ (ok_matches k _ _ Hok) He ltac:(done)) as (b' & _ & Hb' & Hbok).
  rewrite Hb in Hb'. injection Hb' as <-.
  pose proof (replace_ok k (m_cookies t) E e' e i b Hok He eq_refl Hbok) as Hok0.
  set (t0 := mk_transient (mk_hash_table _ _ _) (m_dirty_cookies t)).
  destruct (table_wf k (m_cookies t) E Hok) as [_ Hv]. destruct (table_wf k (m_cookies t0) _ Hok0) as [Hwf0 Hv0].
  assert (∀ j e0, take i E !! j = Some (Some e0) → accessed_since (value e0) = false) as Htake.
  { intros j e0 Hj. apply lookup_take_Some in Hj as [Hj Hlt]. by apply (Hbefore j). }
  assert (E = take i E ++ [Some e]) as HE by (rewrite <-(take_S_r _ _ _ He); by rewrite take_ge by lia).
  assert (<[i:=Some e']> E = expire_slot <$> E) as Hslots.
  { rewrite HE at 2. rewrite fmap_app, not_accessed_slots by done. cbn. unfold expire_entry, expire_accessed. rewrite Ha.
    transitivity (take (S i) (<[i:=Some e']> E)); [by rewrite take_ge by (rewrite length_insert; lia)|].
    by rewrite (take_insert_drop _ _ _ _ He). }
  assert (live t0 = expire_accessed <$> live t) as Hlive.
  { apply contents_fmap. by rewrite Hv0, Hslots, expire_values, Hv. }
  assert (live t0 !! key e = Some (expired (value e))) as Hke.
  { apply (live_of_element k t0 _ i e' Hok0). apply list_lookup_insert_eq. lia. }
  destruct (transient_set_spec t0 env (key e) (expired (value e))) as (t' & env' & -> & _ & Hwf' & Ht'); [by split|].
  rewrite Hke, (bool_decide_eq_true_2 (is_Some _)), andb_false_r in Ht' by (by eexists). injection Ht' as Hl' Hd'.
  exists t', env'. split_and!; [done..|rewrite Hl', (insert_id _ _ _ Hke); exact Hlive|]. rewrite Hd'. cbn [m_dirty_cookies t0].
  rewrite HE at 1. rewrite omap_app. pose proof (not_accessed_marks (take i E) (dirty t) Htake) as Hm.
  unfold mark_expired in *. rewrite foldl_app, Hm. cbn. by rewrite Ha.
Qed.

Lemma expire_loop_growing k fuel i t env E :
  table_ok k (m_cookies t) E → map_wf (m_dirty_cookies t) → should_grow (m_cookies t) = true → length E = (i + fuel)%nat →
  (∀ j e, (j < i)%nat → E !! j = Some (Some e) → accessed_since (value e) = false) →
  expire_loop fuel i t env since = Returned None
  ∨ ∃ t' env', expire_loop fuel i t env since = Returned (Some (t', env')) ∧ transient_wf t'
      ∧ live t' = expire_accessed <$> live t ∧ dirty t' = mark_expired (dirty t) (omap id E).
Proof.
  intros Hok Hd Hg. revert i. induction fuel as [|fuel IH]; intros i Hlen Hbefore.
  { right. exists t, env. destruct (table_wf k _ E Hok) as [Hwf Hv].
    assert (∀ j e, E !! j = Some (Some e) → accessed_since (value e) = false) as Hall.
    { intros j e Hj. apply (Hbefore j e); [|done]. apply lookup_lt_Some in Hj. lia. }
    split_and!; [done|by split| |by rewrite not_accessed_marks].
    symmetry. rewrite <-(map_fmap_id (live t)) at 2. apply map_fmap_ext. intros q c Hq. unfold expire_accessed.
    apply elem_of_map_to_list in Hq. rewrite <-(values_map_to_list _ Hwf), Hv in Hq.
    apply list_elem_of_fmap in Hq as (e & [= -> ->] & [j Hj]%elements_elem). by rewrite (Hall j e Hj). }
  destruct (lookup_lt_is_Some_2 E i ltac:(lia)) as [o Ho].
  destruct (matches_lookup k None _ E i _ (ok_matches k _ _ Hok) Ho ltac:(done)) as (b & Hb & Hbl & Hbok).
  assert ((∀ e, o = Some e → accessed_since (value e) = false) →
    ∀ j e, (j < S i)%nat → E !! j = Some (Some e) → accessed_since (value e) = false) as Hnext.
  { intros Ho' j e Hj He. destruct (decide (j = i)) as [->|]; [|apply (Hbefore j e); [lia|done]].
    rewrite Ho in He. injection He as ->. by apply Ho'. }
  destruct o as [e|]; [destruct (accessed_since (value e)) eqn:Ea|].
  - destruct (decide (fuel = 0%nat)) as [->|Hf].
    + right. cbn [expire_loop]. rewrite Hb, bind_value, (bucket_used k i b e Hbok).
      pose proof Hbok as (_ & Hslot & _). rewrite Hslot. cbn [must]. rewrite bind_value. fold (accessed_since (value e)). rewrite Ea.
      rewrite set_index_lt, bind_value by (by eapply lookup_lt_Some). fold (expired (value e)).
      destruct (expire_last_bucket k t E i b e env Hok Hd Ho Hbl ltac:(lia) Ea Hbefore) as (t' & env' & -> & Hrest).
      rewrite bind_value, andb_false_r. by exists t', env'.
    + left. apply (expire_loop_dangles k (S fuel) i t env E i e); try done; lia.
  - cbn [expire_loop]. rewrite Hb, bind_value, (bucket_used k i b e Hbok). pose proof Hbok as (_ & Hslot & _). rewrite Hslot.
    cbn [must]. rewrite bind_value. fold (accessed_since (value e)). rewrite Ea. apply IH; [lia|]. apply Hnext. by intros ? [= <-].
  - cbn [expire_loop]. rewrite Hb, bind_value. cbn in Hbok. rewrite Hbok. cbn [Z.eqb]. apply IH; [lia|]. by apply Hnext.
Qed.

(** Whatever the state of the map, the operation reads freed memory or does what it
    should. *)
Lemma expire_and_purge_cases t env :
  transient_wf t →
  expire_and_purge_cookies_accessed_since t env since = Returned None
  ∨ ∃ t' env' n, expire_and_purge_cookies_accessed_since t env since = Returned (Some (t', env')) ∧ transient_wf t'
    ∧ live t' = unexpired (clock n) (expire_accessed <$> live t)
    ∧ ∀ k, dirty t' !! k = match live t !! k with
                           | Some c => if accessed_since c then Some (expired c) else dirty t !! k
                           | None => dirty t !! k
                           end.
Proof.
  intros Hwf. destruct (should_grow (m_cookies t)) eqn:Hg; [|right; by apply expire_and_purge_spec].
  unfold expire_and_purge_cookies_accessed_since. pose proof Hwf as [[[Hb Hs]|(k & E & Hok)] Hd].
  - right. rewrite Hb. cbn [length expire_loop]. rewrite bind_value.
    destruct (purge_spec t env Hwf) as (t2 & env2 & -> & _ & Hwf2 & Hl2 & Hd2). rewrite bind_value.
    assert (live t = ∅) as Hempty by (unfold contents, values; by rewrite Hb).
    exists t2, env2, (readings env). split_and!; [done..|by rewrite Hl2, Hempty, fmap_empty|]. intros q. by rewrite Hempty, Hd2.
  - destruct (table_wf k _ E Hok) as [_ Hv].
    destruct (expire_loop_growing k (length (m_buckets (m_cookies t))) 0 t env E Hok Hd Hg)
      as [->|(t1 & env1 & -> & Hwf1 & Hl1 & Hd1)]; [by rewrite (me_length k _ _ _ (ok_matches k _ _ Hok))|lia|by left|].
    right. rewrite bind_value. destruct (purge_spec t1 env1 Hwf1) as (t2 & env2 & -> & _ & Hwf2 & Hl2 & Hd2). rewrite bind_value.
    exists t2, env2, (readings env1). split_and!; [done..|by rewrite Hl2, Hl1|]. intros q. rewrite Hd2, Hd1.
    unfold contents at 2. rewrite Hv. apply mark_expired_lookup. exact (ok_unique k _ _ Hok).
Qed.

(** Expiring the cookies accessed since a time.  In a map that has room for one
    more entry, exactly those cookies are expired and leave the jar, each is marked
    as changed so that the database forgets it too, and the others stay.  But when
    the map is due to grow and two of its cookies were accessed, setting the first
    one inside the loop reallocates the buckets, and the loop goes on to read the
    freed ones. *)
Theorem expire_accessed_since_spec t env :
  transient_wf t →
  (should_grow (m_cookies t) = false →
     ∃ t' env' n, expire_and_purge_cookies_accessed_since t env since = Returned (Some (t', env')) ∧ transient_wf t'
       ∧ live t' = unexpired (clock n) (expire_accessed <$> live t)
       ∧ ∀ k, dirty t' !! k = match live t !! k with
                              | Some c => if accessed_since c then Some (expired c) else dirty t !! k
                              | None => dirty t !! k
                              end)
  ∧ (∀ k1 k2 c1 c2, should_grow (m_cookies t) = true → k1 ≠ k2 → live t !! k1 = Some c1 → live t !! k2 = Some c2 →
       accessed_since c1 = true → accessed_since c2 = true →
       expire_and_purge_cookies_accessed_since t env since = Returned None).
Proof.
  intros Hwf. split; [by apply expire_and_purge_spec|]. intros k1 k2 c1 c2 Hg Hne H1' H2' Ha1 Ha2.
  destruct Hwf as [[[Hb _]|(k & E & Hok)] Hd].
  { exfalso. assert (live t = ∅) as Hempty by (unfold contents, values; by rewrite Hb). by rewrite Hempty in H1'. }
  destruct (accessed_before_last k t E k1 k2 c1 c2 Hok Hne H1' H2' Ha1 Ha2) as (i & e & Hi & He & Ha).
  unfold expire_and_purge_cookies_accessed_since.
  rewrite (expire_loop_dangles k (length (m_buckets (m_cookies t))) 0 t env E i e); try done; [|lia].
  by rewrite (me_length k _ _ _ (ok_matches k _ _ Hok)).
Qed.

End Expire.

(** ** An example: five cookies in a map of eight buckets *)
#[local] Existing Instances simdutf_example simdutf_example_ok fast_float_example public_suffix_example icu_case_map_example
  clock_example clock_example_ok.

Definition views_example : Views := {| open_views _ := [] |}.
#[local] Existing Instance views_example.

Lemma views_example_ok : ViewsOk.
Proof. split. intros n url Hin. by apply not_elem_of_nil in Hin. Qed.
#[local] Existing Instance views_example_ok.

Definition example_jar_cookie (name : string) : Cookie :=
  mk_cookie (sv name) (sv "1") SameSiteLax duration_zero duration_zero duration_max (sv "example.com") (sv "/") false false true true.

Definition example_entries : list (Entry CookieStorageKey Cookie) :=
  (λ name, mk_entry (key_of (example_jar_cookie name)) (example_jar_cookie name)) <$> ["a"; "b"; "c"; "d"; "e"]%string.

Lemma set_entries_wf (m : Cookies) l : map_wf m → ∃ m', set_entries m l = Returned m' ∧ map_wf m'.
Proof.
  revert m. induction l as [|e l IH]; intros m Hm; [by eexists|]. cbn [set_entries].
  destruct (map_set_spec m (key e) (value e) Replace Hm) as (m' & r & -> & Hm' & _). rewrite bind_value. by apply IH.
Qed.

Lemma expire_accessed_since_spec_witness :
  ∃ m, set_entries empty_table example_entries = Returned m
    ∧ expire_and_purge_cookies_accessed_since (mk_transient m empty_table) (mk_env 0 []) duration_zero = Returned None.
Proof.
  destruct (set_entries_wf empty_table example_entries wf_empty) as (m & Hr & Hwf). exists m. split; [done|].
  assert (transient_wf (mk_transient m empty_table)) as Ht by (split; [done|apply wf_empty]).
  apply (proj2 (expire_accessed_since_spec duration_zero _ (mk_env 0 []) Ht)
    (key_of (example_jar_cookie "a")) (key_of (example_jar_cookie "b")) (example_jar_cookie "a") (example_jar_cookie "b"));
    vm_compute in Hr; injection Hr as <-; by vm_compute.
Defined.
