(* ===== verification/CookieJarPersistence.v ===== *)
(** * The persistent cookie jar

    What the synchronization timer writes, and what a jar created from the same
    database reads.  The times of a row are in milliseconds. *)
From stdpp Require Import gmap.
From S2P Require Import Prelude CharacterTypes Externals Utf8 StringView Utf8View Format PercentEncoding Ipv4 Host PublicSuffix Url Time GenericLexer Http IpAddress HashFunctions HashTable HashTableCorrect HashMap Cookie ParsedCookie ParsedCookieCorrect CookieJar CookieJarCorrect CookieJarExpire.

(** ** Milliseconds *)
Definition clamp_i64 (z : Z) : Z := Z.max i64_min (Z.min i64_max z).

(** The milliseconds of a time: rounded up, but down before the epoch. *)
Definition ms (t : UnixDateTime) : Z :=
  if m_seconds t <? 0 then m_seconds t * 1000 + m_nanoseconds t / 1000000
  else m_seconds t * 1000 + (m_nanoseconds t + 999999) / 1000000.

Ltac checked_cases :=
  unfold checked_mul, checked_add, checked_sub, checked_i64, fits_i64; cbn [mbind option_bind];
  repeat match goal with
  | |- context [if (?a <=? ?b) && (?c <=? ?d) then _ else _] =>
      destruct (Z.leb_spec a b), (Z.leb_spec c d); cbn [andb mbind option_bind]
  end.

Lemma to_milliseconds_value t : duration_valid t → to_milliseconds t = Returned (clamp_i64 (ms t)).
Proof.
  destruct t as [s n]. unfold duration_valid. cbn [m_seconds m_nanoseconds]. intros [Hs Hn].
  unfold to_milliseconds, to_units, ms. cbn [m_seconds m_nanoseconds].
  rewrite verify_true by (apply Z.ltb_lt; lia). f_equal. unfold clamp_i64.
  assert (0 ≤ n / 1000000 < 1000) by div_lia.
  destruct (Z.ltb_spec s 0); cbn [negb andb].
  - checked_cases; unfold i64_min, i64_max in *; lia.
  - assert ((n + 999999) / 1000000 = n / 1000000 + if n mod 1000000 =? 0 then 0 else 1) as ->.
    { destruct (Z.eqb_spec (n mod 1000000) 0); div_lia. }
    destruct (n mod 1000000 =? 0); cbn [negb]; checked_cases; unfold i64_min, i64_max in *; lia.
Qed.

(** The time a column of milliseconds is read as. *)
Definition time_of_ms (n : Z) : UnixDateTime := mk_duration (n / 1000) (n mod 1000 * 1000000).

Lemma from_milliseconds_value n : from_milliseconds_since_epoch n = Returned (time_of_ms n).
Proof.
  unfold from_milliseconds_since_epoch, from_milliseconds, sane_mod, time_of_ms. cbn [Z.leb Z.compare Pos.compare Pos.compare_cont andb verify].
  destruct (Z.ltb_spec (Z.rem n 1000) 0); cbn [mbind outcome_bind]; do 2 f_equal; div_lia.
Qed.

Lemma time_of_ms_valid n : i64_min ≤ n ≤ i64_max → duration_valid (time_of_ms n).
Proof. unfold duration_valid, time_of_ms, i64_min, i64_max. cbn [m_seconds m_nanoseconds]. intros. div_lia. Qed.

Lemma ms_time_of_ms n : ms (time_of_ms n) = n.
Proof.
  unfold ms, time_of_ms. cbn [m_seconds m_nanoseconds].
  assert ((n mod 1000 * 1000000) / 1000000 = n mod 1000) by div_lia.
  assert ((n mod 1000 * 1000000 + 999999) / 1000000 = n mod 1000) by div_lia.
  destruct (_ <? 0); div_lia.
Qed.

Lemma clamp_range z : i64_min ≤ clamp_i64 z ≤ i64_max.
Proof. unfold clamp_i64, i64_min, i64_max. lia. Qed.

Lemma clamp_id z : i64_min ≤ z ≤ i64_max → clamp_i64 z = z.
Proof. unfold clamp_i64. lia. Qed.

(** A time that is not before another has no fewer milliseconds. *)
Lemma ms_monotone a b : duration_valid a → duration_valid b → duration_lt a b = false → clamp_i64 (ms b) ≤ clamp_i64 (ms a).
Proof.
  intros [Ha Hna] [Hb Hnb] Hlt. rewrite <-not_true_iff_false, duration_lt_spec in Hlt.
  enough (ms b ≤ ms a) by (unfold clamp_i64; lia). unfold ms.
  destruct (Z.ltb_spec (m_seconds a) 0), (Z.ltb_spec (m_seconds b) 0); div_lia.
Qed.

(** ** Rows *)
Definition row_key (r : CookieRow) : CookieStorageKey := mk_storage_key (row_name r) (row_domain r) (row_path r).

Definition row_of (c : Cookie) : CookieRow :=
  mk_row (cookie_name c) (cookie_value c) (same_site_number (same_site c)) (clamp_i64 (ms (creation_time c)))
    (clamp_i64 (ms (last_access_time c))) (clamp_i64 (ms (expiry_time c))) (cookie_domain c) (cookie_path c)
    (Z.b2z (cookie_secure c)) (Z.b2z (cookie_http_only c)) (Z.b2z (cookie_host_only c)) (Z.b2z (cookie_persistent c)).

Definition cookie_of_row (r : CookieRow) : Cookie :=
  mk_cookie (row_name r) (row_value r) (default SameSiteDefault (same_site_of_number (row_same_site r)))
    (time_of_ms (row_creation_time r)) (time_of_ms (row_last_access_time r)) (time_of_ms (row_expiry_time r)) (row_domain r)
    (row_path r) (bool_column (row_secure r)) (bool_column (row_http_only r)) (bool_column (row_host_only r))
    (bool_column (row_persistent r)).

(** The rows the table's types and its CHECK allow. *)
Record row_ok (r : CookieRow) : Prop := {
  rok_name : text_ok (row_name r);
  rok_value : text_ok (row_value r);
  rok_domain : text_ok (row_domain r);
  rok_path : text_ok (row_path r);
  rok_same_site : 0 ≤ row_same_site r ≤ 3;
  rok_creation : i64_min ≤ row_creation_time r ≤ i64_max;
  rok_access : i64_min ≤ row_last_access_time r ≤ i64_max;
  rok_expiry : i64_min ≤ row_expiry_time r ≤ i64_max;
  rok_flags : Forall (λ n, 0 ≤ n ≤ 1) [row_secure r; row_http_only r; row_host_only r; row_persistent r];
}.

(** What SQLite promises of the three statements: the table is a map from its
    primary key to rows, [INSERT OR REPLACE] sets the row of its key, [DELETE]
    removes the rows of its condition, and [SELECT] lists the rows in some order. *)
Class CookieDatabaseOk (D : Type) `{CookieDatabase D} := {
  rows : D → gmap CookieStorageKey CookieRow;
  rows_keyed : ∀ d k r, rows d !! k = Some r → row_key r = k;
  insert_rows : ∀ d r, row_ok r → rows (execute_insert_cookie d r) = <[row_key r := r]> (rows d);
  expire_rows : ∀ d t, rows (execute_expire_cookie d t) = filter (λ kr, t ≤ row_expiry_time kr.2) (rows d);
  select_rows : ∀ d, execute_select_all_cookies d ≡ₚ (map_to_list (rows d)).*2;
}.

Lemma row_of_ok c : cookie_ok c → row_ok (row_of c).
Proof.
  intros Hc. split; cbn; try apply Hc; try apply clamp_range; [destruct (same_site c); cbn; lia|].
  repeat constructor; destruct (cookie_secure c), (cookie_http_only c), (cookie_host_only c), (cookie_persistent c); cbn; lia.
Qed.

Lemma bind_row_returns c : cookie_ok c → bind_row c = Returned (row_of c).
Proof. intros Hc. unfold bind_row. by rewrite !to_milliseconds_value, !bind_value by apply Hc. Qed.

Section Rows.
Context `{SimdutfOk}.

Lemma text_column_returns s : text_ok s → text_column s = Returned s.
Proof. intros [Hv _]. unfold text_column. by rewrite from_utf8_valid. Qed.

Lemma row_cookie_returns r : row_ok r → row_cookie r = Returned (cookie_of_row r).
Proof.
  intros Hr. unfold row_cookie. rewrite !text_column_returns, !bind_value by apply Hr. rewrite !from_milliseconds_value.
  assert (must (same_site_of_number (row_same_site r))
    = Returned (default SameSiteDefault (same_site_of_number (row_same_site r)))) as ->; [|done].
  pose proof (rok_same_site r Hr) as Hn. unfold same_site_of_number.
  assert (row_same_site r = 0 ∨ row_same_site r = 1 ∨ row_same_site r = 2 ∨ row_same_site r = 3) as [->|[->|[->| ->]]] by lia; done.
Qed.

Lemma cookie_of_row_ok r : row_ok r → cookie_ok (cookie_of_row r) ∧ key_of (cookie_of_row r) = row_key r.
Proof. intros Hr. split; [|done]. split; cbn; try apply Hr; apply time_of_ms_valid, Hr. Qed.

(** A row that was read is written back as it was. *)
Lemma row_of_cookie_of_row r : row_ok r → row_of (cookie_of_row r) = r.
Proof.
  intros Hr. destruct r as [n v ss ct at' et d p s h o q]. destruct Hr as [_ _ _ _ Hss Hct Hat Het Hfl]. cbn in *.
  unfold row_of, cookie_of_row. cbn. rewrite !ms_time_of_ms, !clamp_id by done.
  assert (same_site_number (default SameSiteDefault (same_site_of_number ss)) = ss) as ->.
  { assert (ss = 0 ∨ ss = 1 ∨ ss = 2 ∨ ss = 3) as [->|[->|[->| ->]]] by lia; done. }
  assert (∀ n, 0 ≤ n ≤ 1 → Z.b2z (bool_column n) = n) as Hb.
  { intros b Hb. unfold bool_column. destruct (Z.eqb_spec b 0); cbn; lia. }
  repeat match goal with H' : Forall _ (_ :: _) |- _ => apply Forall_cons in H' as [? H'] end. by rewrite !Hb.
Qed.

Lemma load_rows_spec l (m : Cookies) :
  map_wf m → Forall row_ok l → NoDup (row_key <$> l) →
  ∃ m', load_rows l m = Returned m' ∧ map_wf m'
    ∧ contents m' = list_to_map ((λ r, (row_key r, cookie_of_row r)) <$> l) ∪ contents m.
Proof.
  revert m. induction l as [|r l IH]; intros m Hm Hl Hnd; [exists m; split_and!; [done..|]; cbn; by rewrite map_empty_union|].
  apply Forall_cons in Hl as [Hr Hl]. cbn in Hnd. apply NoDup_cons in Hnd as [Hnin Hnd]. cbn [load_rows].
  rewrite row_cookie_returns, bind_value by done. destruct (cookie_of_row_ok r Hr) as [_ Hk]. rewrite Hk.
  destruct (map_set_spec m (row_key r) (cookie_of_row r) Replace Hm) as (m1 & r1 & -> & Hm1 & Hc1 & _). rewrite bind_value.
  destruct (IH m1 Hm1 Hl Hnd) as (m' & -> & Hm' & Hc'). exists m'. split_and!; [done..|]. rewrite Hc', Hc1. cbn.
  assert ((list_to_map ((λ r, (row_key r, cookie_of_row r)) <$> l) : gmap CookieStorageKey Cookie) !! row_key r = None) as Hnone.
  { apply not_elem_of_list_to_map_1. by rewrite <-list_fmap_compose. }
  by destruct (contents m !! row_key r); rewrite <-insert_union_r, insert_union_l by done.
Qed.

Context {D : Type} `{CookieDatabaseOk D}.

Definition db_ok (d : D) : Prop := map_Forall (λ _ r, row_ok r) (rows d).

Lemma selected_rows d :
  db_ok d → Forall row_ok (execute_select_all_cookies d) ∧ NoDup (row_key <$> execute_select_all_cookies d)
    ∧ list_to_map ((λ r, (row_key r, cookie_of_row r)) <$> execute_select_all_cookies d) = cookie_of_row <$> rows d.
Proof.
  intros Hd. assert (row_key <$> (map_to_list (rows d)).*2 = (map_to_list (rows d)).*1) as Hkeys.
  { rewrite <-list_fmap_compose. apply list_fmap_ext. intros i [k r] Hi. cbn.
    apply (rows_keyed d). apply elem_of_map_to_list. by eapply list_elem_of_lookup_2. }
  split_and!.
  - rewrite select_rows. apply Forall_fmap, Forall_forall. intros [k r] Hin%elem_of_map_to_list. by apply (Hd k).
  - rewrite select_rows, Hkeys. apply NoDup_fst_map_to_list.
  - rewrite <-(list_to_map_to_list (cookie_of_row <$> rows d)), map_to_list_fmap.
    rewrite (list_to_map_proper ((λ r, (row_key r, cookie_of_row r)) <$> execute_select_all_cookies d)
      ((λ r, (row_key r, cookie_of_row r)) <$> (map_to_list (rows d)).*2)).
    + f_equal. rewrite <-list_fmap_compose. apply list_fmap_ext. intros i [k r] Hi. cbn. f_equal.
      apply (rows_keyed d). apply elem_of_map_to_list. by eapply list_elem_of_lookup_2.
    + rewrite <-list_fmap_compose. change (compose fst _) with row_key. rewrite select_rows, Hkeys. apply NoDup_fst_map_to_list.
    + by rewrite select_rows.
Qed.

Lemma select_all_spec d :
  db_ok d → ∃ m, select_all_cookies d = Returned m ∧ map_wf m ∧ contents m = cookie_of_row <$> rows d.
Proof.
  intros Hd. destruct (selected_rows d Hd) as (Hok & Hnd & Hm). unfold select_all_cookies.
  destruct (load_rows_spec _ empty_table wf_empty Hok Hnd) as (m & -> & Hwf & Hc). exists m. split_and!; [done..|].
  rewrite Hc, Hm. apply map_union_empty.
Qed.

Lemma insert_cookies_spec d l :
  db_ok d → Forall cookie_ok l → NoDup (key_of <$> l) →
  ∃ d', insert_cookies d l = Returned d' ∧ db_ok d'
    ∧ rows d' = (row_of <$> list_to_map ((λ c, (key_of c, c)) <$> l)) ∪ rows d.
Proof.
  revert d. induction l as [|c l IH]; intros d Hd Hl Hnd.
  { exists d. split_and!; [done..|]. cbn. by rewrite fmap_empty, map_empty_union. }
  apply Forall_cons in Hl as [Hc Hl]. cbn in Hnd. apply NoDup_cons in Hnd as [Hnin Hnd]. cbn [insert_cookies].
  unfold insert_cookie. rewrite bind_row_returns, !bind_value by done.
  pose proof (insert_rows d (row_of c) (row_of_ok c Hc)) as Hins. change (row_key (row_of c)) with (key_of c) in Hins.
  destruct (IH (execute_insert_cookie d (row_of c))) as (d' & -> & Hd' & Hr'); [|done..|].
  { unfold db_ok. rewrite Hins. by apply map_Forall_insert_2; [apply row_of_ok|]. }
  exists d'. split_and!; [done..|]. rewrite Hr', Hins. cbn. rewrite fmap_insert.
  rewrite <-insert_union_r, insert_union_l; [done|]. rewrite lookup_fmap, not_elem_of_list_to_map_1; [done|].
  by rewrite <-list_fmap_compose.
Qed.

End Rows.

Section Sync.
Context `{SimdutfOk} `{FastFloat} `{PublicSuffixData} `{IcuCaseMap} `{ClockOk} `{Views} `{!ViewsOk} {D : Type} `{CookieDatabaseOk D}.
Notation jar_live jar := (contents (m_cookies (m_transient_storage jar))).
Notation jar_dirty jar := (contents (m_dirty_cookies (m_transient_storage jar))).

(** The cookies of a keyed map, in the order of its buckets. *)
Lemma keyed_values (m : Cookies) :
  map_wf m → store_ok (contents m) →
  Forall cookie_ok (value <$> values m) ∧ NoDup (key_of <$> (value <$> values m))
  ∧ list_to_map ((λ c, (key_of c, c)) <$> (value <$> values m)) = contents m.
Proof.
  intros Hwf Hok.
  assert (∀ e, e ∈ values m → key_of (value e) = key e ∧ cookie_ok (value e)) as He.
  { intros e Hin. apply (Hok (key e) (value e)). by apply contents_elem. }
  assert (key_of <$> (value <$> values m) = key <$> values m) as Hk.
  { rewrite <-list_fmap_compose. apply list_fmap_ext. intros i e Hi. apply He. by eapply list_elem_of_lookup_2. }
  split_and!.
  - apply Forall_fmap, Forall_forall. intros e Hin. by apply He.
  - rewrite Hk. apply (wf_values m Hwf).
  - unfold contents. f_equal. rewrite <-list_fmap_compose. apply list_fmap_ext. intros i e Hi. unfold pair_of. cbn. f_equal.
    apply He. by eapply list_elem_of_lookup_2.
Qed.

(** The rows of the database once the changed cookies are written. *)
Definition pending (jar : CookieJar D) (d : D) : gmap CookieStorageKey CookieRow := (row_of <$> jar_dirty jar) ∪ rows d.

Lemma on_timeout_spec (jar : CookieJar D) env d :
  jar_ok jar → m_persisted_storage jar = Some d → db_ok d →
  ∃ jar' env' d', on_timeout jar env = Returned (jar', env') ∧ readings env' = S (readings env) ∧ jar_ok jar'
    ∧ m_persisted_storage jar' = Some d' ∧ db_ok d'
    ∧ jar_live jar' = unexpired (clock (readings env)) (jar_live jar) ∧ jar_dirty jar' = ∅
    ∧ rows d' = filter (λ kr, clamp_i64 (ms (clock (readings env))) ≤ row_expiry_time kr.2) (pending jar d).
Proof.
  intros [[Hwc Hwd] Hl Hd] Hp Hdb. unfold on_timeout. rewrite Hp. cbn [take_dirty_cookies].
  destruct (keyed_values _ Hwd Hd) as (Hok & Hnd & Hm). destruct (insert_cookies_spec d _ Hdb Hok Hnd) as (d1 & -> & Hdb1 & Hr1).
  rewrite bind_value. set (t := mk_transient _ empty_table). assert (transient_wf t) as Ht by (split; [done|apply wf_empty]).
  destruct (purge_spec t env Ht) as (t' & env' & -> & Hr & Ht' & Hl' & Hd'). rewrite bind_value.
  rewrite to_milliseconds_value, bind_value by apply clock_valid. eexists _, env', _. split; [done|]. split; [done|].
  rewrite Hm in Hr1. fold (pending jar d) in Hr1.
  assert (jar_dirty (mk_jar (Some (execute_expire_cookie d1 (clamp_i64 (ms (clock (readings env)))))) t') = ∅) as Hempty.
  { cbn. by rewrite Hd'. }
  split_and!; try done.
  - split; [done|cbn; rewrite Hl'; by apply store_ok_unexpired|]. rewrite Hempty. apply map_Forall_empty.
  - unfold db_ok. rewrite expire_rows. intros k r [Hk _]%map_lookup_filter_Some. by apply (Hdb1 k).
  - by rewrite expire_rows, Hr1.
Qed.

(** C13: One timeout of the synchronization timer completes and leaves nothing to do:
    no cookie is marked as changed, no cookie that had expired by the time of the
    timeout is left in memory, and the table holds the row of every changed cookie
    and every row it held before, the newer ones in place of the older, except those
    that have expired by then. *)
Theorem synchronization_completes (jar : CookieJar D) env d :
  jar_ok jar → m_persisted_storage jar = Some d → db_ok d →
  ∃ jar' env' d', on_timeout jar env = Returned (jar', env') ∧ jar_ok jar' ∧ m_persisted_storage jar' = Some d' ∧ db_ok d'
    ∧ (∀ k c, jar_live jar' !! k = Some c ↔ jar_live jar !! k = Some c ∧ is_expired (clock (readings env)) c = false)
    ∧ jar_dirty jar' = ∅
    ∧ (∀ k c, jar_dirty jar !! k = Some c → is_expired (clock (readings env)) c = false → rows d' !! k = Some (row_of c))
    ∧ (∀ k r, rows d' !! k = Some r →
         (∃ c, jar_dirty jar !! k = Some c ∧ r = row_of c) ∨ jar_dirty jar !! k = None ∧ rows d !! k = Some r).
Proof.
  intros Hok Hp Hdb. destruct (on_timeout_spec jar env d Hok Hp Hdb) as (jar' & env' & d' & Hr & _ & Hok' & Hp' & Hdb' & Hl & Hd & Hrows).
  exists jar', env', d'. split_and!; try done.
  - intros k c. rewrite Hl. apply unexpired_lookup.
  - intros k c Hc Hexp. rewrite Hrows. apply map_lookup_filter_Some. split.
    + unfold pending. apply lookup_union_Some_raw. left. by rewrite lookup_fmap, Hc.
    + cbn. apply ms_monotone; [|apply clock_valid|done]. apply (jar_ok_dirty jar Hok k c Hc).
  - intros k r Hk. rewrite Hrows in Hk. apply map_lookup_filter_Some in Hk as [Hk _].
    apply lookup_union_Some_raw in Hk as [Hk|[Hk1 Hk2]].
    + rewrite lookup_fmap in Hk. apply fmap_Some in Hk as (c & Hc & ->). left. by exists c.
    + right. split; [|done]. by rewrite lookup_fmap, fmap_None in Hk1.
Qed.

End Sync.
