(* ===== verification/CookieJarHistory.v ===== *)
(** * Histories of a cookie jar

    The operations of a jar as steps, the invariant every sequence of them keeps, and
    what a jar that is destroyed and created again from its database holds.
    [expire_cookies_with_time_offset] shifts the changed cookies that are yet to be
    written but not the ones in memory: from then on the jar is well-formed but its
    cookies and rows need not agree. *)
From stdpp Require Import gmap.
From S2P Require Import Prelude CharacterTypes Externals Utf8 StringView Utf8View Format PercentEncoding Ipv4 Host PublicSuffix Url Time GenericLexer Http IpAddress HashFunctions HashTable HashTableCorrect HashMap Cookie ParsedCookie ParsedCookieCorrect CookieJar CookieJarCorrect CookieJarExpire CookieJarPersistence.

(** A row but for its last access time, which is not written when it changes. *)
Definition forget_access (r : CookieRow) : CookieRow :=
  mk_row (row_name r) (row_value r) (row_same_site r) (row_creation_time r) 0 (row_expiry_time r) (row_domain r) (row_path r)
    (row_secure r) (row_http_only r) (row_host_only r) (row_persistent r).

Definition agrees (r : CookieRow) (c : Cookie) : Prop := forget_access r = forget_access (row_of c).

Inductive jar_operation :=
| SetCookie (url : URL) (parsed_cookie : ParsedCookie) (source : Source)
| UpdateCookie (cookie : Cookie)
| GetCookie (url : URL) (source : Source)
| GetAllCookiesWebdriver (url : URL)
| GetAllCookiesCookiestore (url : URL)
| GetNamedCookie (url : URL) (name : bytes)
| ExpireWithTimeOffset (offset : Duration)
| ExpireAccessedSince (since : UnixDateTime)
| OnTimeout.

Section History.
Context `{SimdutfOk} `{FastFloat} `{PublicSuffixData} `{IcuCaseMap} `{ClockOk} `{Views} `{!ViewsOk} {D : Type} `{CookieDatabaseOk D}.
Notation jar_live jar := (contents (m_cookies (m_transient_storage jar))).
Notation jar_dirty jar := (contents (m_dirty_cookies (m_transient_storage jar))).

(** One operation: [None] where it reads freed memory. *)
Definition run_jar_operation (jar : CookieJar D) (env : Env) (op : jar_operation) : outcome (option (CookieJar D * Env)) :=
  match op with
  | SetCookie url parsed_cookie source => '(jar, env) ← set_cookie jar env url parsed_cookie source; Returned (Some (jar, env))
  | UpdateCookie cookie => '(jar, env) ← update_cookie jar env cookie; Returned (Some (jar, env))
  | GetCookie url source => '(jar, env, _) ← get_cookie jar env url source; Returned (Some (jar, env))
  | GetAllCookiesWebdriver url => '(jar, env, _) ← get_all_cookies_webdriver jar env url; Returned (Some (jar, env))
  | GetAllCookiesCookiestore url => '(jar, env, _) ← get_all_cookies_cookiestore jar env url; Returned (Some (jar, env))
  | GetNamedCookie url name => '(jar, env, _) ← get_named_cookie jar env url name; Returned (Some (jar, env))
  | ExpireWithTimeOffset offset => '(jar, env) ← expire_cookies_with_time_offset jar env offset; Returned (Some (jar, env))
  | ExpireAccessedSince since => expire_cookies_accessed_since jar env since
  | OnTimeout => '(jar, env) ← on_timeout jar env; Returned (Some (jar, env))
  end.

Fixpoint run_jar_operations (jar : CookieJar D) (env : Env) (ops : list jar_operation) : outcome (option (CookieJar D * Env)) :=
  match ops with
  | [] => Returned (Some (jar, env))
  | op :: ops =>
      r ← run_jar_operation jar env op;
      match r with Some (jar, env) => run_jar_operations jar env ops | None => Returned None end
  end.

(** Arguments the operations are called with. *)
Definition jar_operation_ok (op : jar_operation) : Prop :=
  match op with
  | SetCookie url p _ => url_ready url ∧ parsed_ok p
  | UpdateCookie c => cookie_ok c
  | GetCookie url _ | GetAllCookiesWebdriver url | GetAllCookiesCookiestore url | GetNamedCookie url _ => url_ready url
  | ExpireWithTimeOffset offset => duration_valid offset
  | ExpireAccessedSince _ | OnTimeout => True
  end.

(** What is stored in memory is in the database or about to be written to it. *)
Definition synced (jar : CookieJar D) : Prop :=
  ∀ d, m_persisted_storage jar = Some d →
    db_ok d ∧ ∀ k c, jar_live jar !! k = Some c → ∃ r, pending jar d !! k = Some r ∧ agrees r c.

(** The same, claimed of the cookies only where [exact] holds. *)
Definition tracked (exact : Prop) (jar : CookieJar D) : Prop :=
  ∀ d, m_persisted_storage jar = Some d →
    db_ok d ∧ (exact → ∀ k c, jar_live jar !! k = Some c → ∃ r, pending jar d !! k = Some r ∧ agrees r c).

Lemma tracked_synced (exact : Prop) jar : exact → tracked exact jar → synced jar.
Proof. intros He Ht d Hd. destruct (Ht d Hd) as [Hdb Hs]. by split; [|apply Hs]. Qed.

Lemma synced_tracked (exact : Prop) jar : synced jar → tracked exact jar.
Proof. intros Hs d Hd. destruct (Hs d Hd) as [Hdb Hsync]. by split. Qed.

Record jar_inv (exact : Prop) (jar : CookieJar D) : Prop := { inv_ok : jar_ok jar; inv_tracked : tracked exact jar }.

Lemma pending_lookup (jar : CookieJar D) d k :
  pending jar d !! k = match jar_dirty jar !! k with Some c => Some (row_of c) | None => rows d !! k end.
Proof.
  unfold pending. destruct (jar_dirty jar !! k) as [c|] eqn:E.
  - apply lookup_union_Some_l. by rewrite lookup_fmap, E.
  - apply lookup_union_r. by rewrite lookup_fmap, E.
Qed.

(** A step that changes a stored cookie beyond its last access marks it. *)
Lemma tracked_step (exact : Prop) (jar jar' : CookieJar D) :
  m_persisted_storage jar' = m_persisted_storage jar → tracked exact jar →
  (∀ k c', jar_live jar' !! k = Some c' → jar_dirty jar' !! k = Some c'
     ∨ ∃ c, jar_live jar !! k = Some c ∧ forget_access (row_of c') = forget_access (row_of c) ∧ jar_dirty jar' !! k = jar_dirty jar !! k) →
  tracked exact jar'.
Proof.
  intros Hp Hs Hstep d Hd. rewrite Hp in Hd. destruct (Hs d Hd) as [Hdb Hsync]. split; [done|]. intros He k c' Hc'. specialize (Hsync He).
  rewrite pending_lookup. destruct (Hstep k c' Hc') as [->|(c & Hc & Hf & ->)]; [by exists (row_of c')|].
  destruct (Hsync k c Hc) as (r & Hr & Ha). rewrite pending_lookup in Hr. exists r. split; [done|]. unfold agrees. by rewrite Hf.
Qed.

Section Steps.
Variable exact : Prop.

Lemma store_inv (jar : CookieJar D) env c non_http :
  jar_inv exact jar → cookie_ok c → ∃ jar' env', store_cookie jar env c non_http = Returned (jar', env') ∧ jar_inv exact jar'.
Proof.
  intros [Hok Hs] Hc. destruct (store_cookie_ok jar env c non_http Hok Hc) as (jar' & env' & Hr & Hok').
  destruct (store_cookie_spec jar env c non_http (jar_ok_wf jar Hok)) as (j & e & Hr' & _ & Hp & Hm).
  rewrite Hr in Hr'. injection Hr' as <- <-. exists jar', env'. split; [done|]. split; [done|].
  case_match; [by destruct Hm as [-> _]|]. destruct Hm as [_ Hm]. apply (tracked_step exact jar jar' Hp Hs). intros k c' Hc'.
  unfold abstract_store in Hm. destruct (is_expired _ _ && _); injection Hm as Hl Hd; rewrite Hl in Hc'; rewrite Hd;
    apply unexpired_lookup in Hc' as [Hc' _]; [right; by exists c'|].
  apply lookup_insert_Some in Hc' as [[<- <-]|[Hne Hc']]; [left; apply lookup_insert_eq|].
  right. exists c'. split_and!; [done..|by apply lookup_insert_ne].
Qed.

Lemma set_cookie_inv (jar : CookieJar D) env url p source :
  jar_inv exact jar → url_ready url → parsed_ok p → ∃ jar' env', set_cookie jar env url p source = Returned (jar', env') ∧ jar_inv exact jar'.
Proof.
  intros Hinv Hurl Hp. unfold set_cookie. case_goal; [by exists jar, env|].
  destruct (new_cookie_spec (m_transient_storage jar) url p source (clock (readings env)) Hurl Hp (clock_valid _)) as (r & -> & Hr).
  rewrite bind_value. destruct r as [c|]; [|by exists jar, (next_reading env)]. apply store_inv; [done|by apply Hr].
Qed.

Lemma purge_inv (jar : CookieJar D) env :
  jar_inv exact jar → ∃ t env' now, purge_expired_cookies (m_transient_storage jar) env None = Returned (t, env', now)
    ∧ jar_inv exact (with_transient jar t).
Proof.
  intros [[Hwf Hl Hd] Hs]. destruct (purge_spec _ env Hwf) as (t & env' & Hr & _ & Hwf' & Hl' & Hd').
  eexists t, env', _. split; [done|]. split.
  - split; cbn; [done|rewrite Hl'; by apply store_ok_unexpired|by rewrite Hd'].
  - apply (tracked_step exact jar); [done..|]. intros k c Hc. cbn in Hc |- *. rewrite Hl' in Hc. apply unexpired_lookup in Hc as [Hc _].
    rewrite Hd'. right. by exists c.
Qed.

Lemma touch_agrees url host source now c :
  forget_access (row_of (touch url host source now c)) = forget_access (row_of c).
Proof. unfold touch. by case_decide. Qed.

Lemma get_matching_inv (jar : CookieJar D) env url source mode :
  jar_inv exact jar → url_ready url →
  ∃ jar' env' l, get_matching_cookies jar env url source mode = Returned (jar', env', l) ∧ jar_inv exact jar' ∧ Forall cookie_ok l.
Proof.
  intros [Hok Hs] Hurl. destruct (ready_host url Hurl) as (h & Hh & _). pose proof (ready_path url Hurl) as Hp.
  destruct h as [host|].
  2:{ exists jar, (next_reading env), []. split_and!; [|by split|constructor]. unfold get_matching_cookies. by rewrite Hh. }
  assert (∀ m : gmap CookieStorageKey Cookie, store_ok m → Forall cookie_ok (map_to_list m).*2) as Hall.
  { intros m Hm. apply Forall_fmap, Forall_forall. intros [k c] Hin%elem_of_map_to_list. by apply (Hm k). }
  specialize (Hall _ (jar_ok_live jar Hok)). destruct mode.
  - destruct (get_matching_rfc url host source Hp jar env Hok Hh) as (jar' & env' & l & Hr & Hok' & Hper & _ & _ & Hl & Hlive & Hd).
    exists jar', env', l. split_and!; [done|split; [done|]|].
    + apply (tracked_step exact jar jar' Hper Hs). intros k c' Hc'. rewrite Hlive in Hc'. apply unexpired_lookup in Hc' as [Hc' _].
      rewrite lookup_fmap in Hc'. apply fmap_Some in Hc' as (c & Hc & ->). right. exists c. rewrite Hd.
      split_and!; [done|apply touch_agrees|done].
    + rewrite Hl. apply Forall_fmap, Forall_forall. intros c [_ Hc]%list_elem_of_filter. cbn. apply touch_ok; [apply clock_valid|].
      by apply (proj1 (Forall_forall _ _) Hall).
  - destruct (get_matching_webdriver url host source Hp jar env Hok Hh) as (jar' & env' & l & Hr & Hok' & Hper & _ & Hl & Hlive & Hd).
    exists jar', env', l. split_and!; [done|split; [done|]|].
    + apply (tracked_step exact jar jar' Hper Hs). intros k c' Hc'. rewrite Hlive in Hc'. right. exists c'. by rewrite Hd.
    + rewrite Hl. apply Forall_forall. intros c [_ Hc]%list_elem_of_filter. by apply (proj1 (Forall_forall _ _) Hall).
Qed.

Lemma serialize_cookies_valid l builder :
  valid_utf8 builder → Forall cookie_ok l → valid_utf8 (serialize_cookies l builder).
Proof.
  intros Hb Hl. revert builder Hb. induction Hl as [|c l Hc _ IH]; intros b Hb; [done|]. rewrite serialize_step. apply IH.
  apply valid_utf8_app; [|by apply cookie_pair_valid]. case_bool_decide; [apply valid_utf8_nil|].
  apply valid_utf8_app; [done|]. apply ascii_text_valid. by repeat constructor.
Qed.

Lemma get_cookie_inv (jar : CookieJar D) env url source :
  jar_inv exact jar → url_ready url → ∃ jar' env' s, get_cookie jar env url source = Returned (jar', env', s) ∧ jar_inv exact jar'.
Proof.
  intros Hinv Hurl. unfold get_cookie. destruct (purge_inv jar env Hinv) as (t & env1 & now & -> & Hinv1). rewrite bind_value.
  destruct (get_matching_inv _ env1 url source RFC6265 Hinv1 Hurl) as (jar' & env' & l & -> & Hinv' & Hl). rewrite bind_value.
  rewrite from_utf8_valid, bind_value by (apply serialize_cookies_valid; [apply valid_utf8_nil|done]). cbn [must].
  rewrite bind_value. by eexists _, _, _.
Qed.

Lemma expire_inv (jar : CookieJar D) env since :
  jar_inv exact jar →
  ∃ r, expire_cookies_accessed_since jar env since = Returned r ∧ ∀ jar' env', r = Some (jar', env') → jar_inv exact jar'.
Proof.
  intros [[Hwf Hl Hd] Hs]. unfold expire_cookies_accessed_since.
  destruct (expire_and_purge_cases since _ env Hwf) as [->|(t & env' & n & -> & Hwf' & Hl' & Hd')]; rewrite bind_value;
    [by exists None|]. eexists. split; [done|]. intros jar' e [= <- <-].
  assert (store_ok (expire_accessed since <$> jar_live jar)) as Hle.
  { intros k c Hc. rewrite lookup_fmap in Hc. apply fmap_Some in Hc as (c0 & Hc0 & ->). destruct (Hl k c0 Hc0) as [Hk [? ? ? ? ? ? ?]].
    unfold expire_accessed, expired. case_goal; [|done]. split; [done|]. by split; [..|apply earliest_valid]. }
  split.
  - split; cbn; [done|rewrite Hl'; by apply store_ok_unexpired|]. intros k c Hc. rewrite Hd' in Hc.
    destruct (jar_live jar !! k) as [c0|] eqn:E; [|by apply Hd]. destruct (accessed_since since c0) eqn:Ea; [|by apply Hd].
    injection Hc as <-. specialize (Hle k (expired c0)). apply Hle. rewrite lookup_fmap, E. cbn. unfold expire_accessed. by rewrite Ea.
  - apply (tracked_step exact jar); [done..|]. intros k c' Hc'. cbn in Hc' |- *. rewrite Hl' in Hc'. apply unexpired_lookup in Hc' as [Hc' _].
    rewrite lookup_fmap in Hc'. apply fmap_Some in Hc' as (c & Hc & ->). rewrite Hd', Hc. unfold expire_accessed.
    destruct (accessed_since since c); [by left|]. right. by exists c.
Qed.

Lemma on_timeout_inv (jar : CookieJar D) env :
  jar_inv exact jar → ∃ jar' env', on_timeout jar env = Returned (jar', env') ∧ jar_inv exact jar'.
Proof.
  intros [Hok Hs]. destruct (m_persisted_storage jar) as [d|] eqn:Hp.
  2:{ exists jar, env. unfold on_timeout. rewrite Hp. by split. }
  destruct (Hs d Hp) as [Hdb Hsync].
  destruct (on_timeout_spec jar env d Hok Hp Hdb) as (jar' & env' & d' & Hr & _ & Hok' & Hp' & Hdb' & Hl & Hd & Hrows).
  exists jar', env'. split; [done|]. split; [done|]. intros d0 Hd0. rewrite Hp' in Hd0. injection Hd0 as <-. split; [done|].
  intros He k c Hc. specialize (Hsync He). rewrite Hl in Hc. apply unexpired_lookup in Hc as [Hc Hexp]. destruct (Hsync k c Hc) as (r & Hk & Ha).
  exists r. split; [|done]. rewrite pending_lookup, Hd, lookup_empty, Hrows. apply map_lookup_filter_Some. split; [done|]. cbn.
  injection Ha as _ _ _ _ -> _ _ _ _ _ _. apply ms_monotone; [|apply clock_valid|done]. apply (jar_ok_live jar Hok k c Hc).
Qed.

Lemma time_offset_inv (jar : CookieJar D) env offset :
  ¬ exact → jar_inv exact jar → duration_valid offset →
  ∃ jar' env', expire_cookies_with_time_offset jar env offset = Returned (jar', env') ∧ jar_inv exact jar'.
Proof.
  intros He [Hok Ht] Ho. destruct (expire_with_time_offset_spec jar env offset Hok Ho) as (jar' & env' & now & Hr & Hok' & Hp & _).
  exists jar', env'. split; [done|]. split; [done|]. intros d Hd. rewrite Hp in Hd. by split; [apply (Ht d)|].
Qed.

Lemma run_jar_operation_inv (jar : CookieJar D) env op :
  jar_inv exact jar → jar_operation_ok op → (exact → ∀ offset, op ≠ ExpireWithTimeOffset offset) →
  ∃ r, run_jar_operation jar env op = Returned r
    ∧ match r with Some (jar', env') => jar_inv exact jar' | None => ∃ since, op = ExpireAccessedSince since end.
Proof.
  intros Hinv Hop Hexact. destruct op as [url p source|c|url source|url|url|url name|offset|since|]; cbn [run_jar_operation jar_operation_ok] in *.
  - destruct Hop as [Hurl Hp]. destruct (set_cookie_inv jar env url p source Hinv Hurl Hp) as (j & e & -> & Hj). rewrite bind_value. by eexists.
  - unfold update_cookie. destruct (store_inv jar env c false Hinv Hop) as (j & e & -> & Hj). rewrite bind_value. by eexists.
  - destruct (get_cookie_inv jar env url source Hinv Hop) as (j & e & s & -> & Hj). rewrite bind_value. by eexists.
  - unfold get_all_cookies_webdriver.
    destruct (get_matching_inv jar env url Http WebDriver Hinv Hop) as (j & e & l & -> & Hj & _). rewrite bind_value. by eexists.
  - unfold get_all_cookies_cookiestore.
    destruct (get_matching_inv jar env url NonHttp RFC6265 Hinv Hop) as (j & e & l & -> & Hj & _). rewrite bind_value. by eexists.
  - unfold get_named_cookie.
    destruct (get_matching_inv jar env url Http WebDriver Hinv Hop) as (j & e & l & -> & Hj & _). rewrite !bind_value. by eexists.
  - destruct (time_offset_inv jar env offset) as (j & e & -> & Hj); [|done..|rewrite bind_value; by eexists].
    intros He. by apply (Hexact He offset).
  - destruct (expire_inv jar env since Hinv) as (r & -> & Hr). exists r. split; [done|]. destruct r as [[j e]|]; [by eapply Hr|by exists since].
  - destruct (on_timeout_inv jar env Hinv) as (j & e & -> & Hj). rewrite bind_value. by eexists.
Qed.

End Steps.

(** ** Creation *)
Lemma create_jar_spec (d : D) env :
  db_ok d → ∃ jar env', create_jar (Some d) env = Returned (jar, env') ∧ readings env' = S (readings env) ∧ jar_ok jar ∧ synced jar
    ∧ m_persisted_storage jar = Some d
    ∧ jar_live jar = unexpired (clock (readings env)) (cookie_of_row <$> rows d) ∧ jar_dirty jar = ∅.
Proof.
  intros Hd. unfold create_jar. destruct (select_all_spec d Hd) as (m & -> & Hwf & Hm). rewrite bind_value. unfold set_cookies.
  cbn [m_dirty_cookies]. set (t := mk_transient m empty_table). assert (transient_wf t) as Ht by (split; [done|apply wf_empty]).
  destruct (purge_spec t env Ht) as (t' & env' & -> & Hr & Ht' & Hl & Hd'). rewrite !bind_value. eexists _, env'. split; [done|].
  cbn in Hl. rewrite Hm in Hl. assert (contents (m_dirty_cookies t') = ∅) as Hempty by (by rewrite Hd').
  assert (store_ok (cookie_of_row <$> rows d)) as Hrows.
  { intros k c Hc. rewrite lookup_fmap in Hc. apply fmap_Some in Hc as (r & Hk & ->). destruct (cookie_of_row_ok r (Hd k r Hk)) as [Hc Hkey].
    split; [|done]. rewrite Hkey. by apply (rows_keyed d). }
  split_and!; try done.
  - split; cbn; [done|rewrite Hl; by apply store_ok_unexpired|]. rewrite Hempty. apply map_Forall_empty.
  - intros d0 [= <-]. split; [done|]. cbn. intros k c Hc. rewrite Hl in Hc. apply unexpired_lookup in Hc as [Hc _].
    rewrite lookup_fmap in Hc. apply fmap_Some in Hc as (r & Hk & ->). exists r. rewrite pending_lookup. cbn.
    rewrite Hempty, lookup_empty. split; [done|]. unfold agrees. by rewrite row_of_cookie_of_row by (by apply (Hd k)).
Qed.

Lemma run_jar_operations_inv (exact : Prop) (jar : CookieJar D) env ops :
  jar_inv exact jar → Forall jar_operation_ok ops → (exact → ∀ offset, ExpireWithTimeOffset offset ∉ ops) →
  ∃ r, run_jar_operations jar env ops = Returned r
    ∧ match r with Some (jar', env') => jar_inv exact jar' | None => ∃ since, ExpireAccessedSince since ∈ ops end.
Proof.
  intros Hinv Hops. revert jar env Hinv. induction Hops as [|op ops Hop _ IH]; intros jar env Hinv Hexact; [by eexists|].
  cbn [run_jar_operations]. destruct (run_jar_operation_inv exact jar env op Hinv Hop) as (r & -> & Hr).
  { intros He offset ->. apply (Hexact He offset). by left. }
  rewrite bind_value.
  destruct r as [[j e]|]; [|exists None; split; [done|]; destruct Hr as [since ->]; exists since; by left].
  destruct (IH j e Hr) as (r & -> & Hr'); [intros He offset Hin; apply (Hexact He offset); by right|]. exists r. split; [done|]. destruct r as [[j' e']|]; [done|].
  destruct Hr' as [since Hin]. exists since. by right.
Qed.

(** C3: Every history of a jar, from its creation on a database: for URLs whose host can be
    put in lower case and whose percent-decoded path is UTF-8 text without a NUL, and for
    cookies of such text with valid times, no operation aborts or loops, and each leaves a
    jar whose maps are well-formed hash maps keyed by the cookies' own names, domains and
    paths.  Unless cookies were expired with a time offset, which shifts what is to be
    written and not what is stored, every cookie in memory is, but for its last access time
    and fractions of a millisecond, in the database or marked to be written to it.  The
    only other end is the expiry of the recently accessed cookies reading freed memory. *)
Theorem jar_history (d : D) env ops :
  db_ok d → Forall jar_operation_ok ops →
  ∃ jar env', create_jar (Some d) env = Returned (jar, env') ∧
  ∃ r, run_jar_operations jar env' ops = Returned r
    ∧ match r with
      | Some (jar', _) => jar_ok jar' ∧ ((∀ offset, ExpireWithTimeOffset offset ∉ ops) → synced jar')
      | None => ∃ since, ExpireAccessedSince since ∈ ops
      end.
Proof.
  intros Hd Hops. destruct (create_jar_spec d env Hd) as (jar & env' & Hc & _ & Hok & Hs & _). exists jar, env'. split; [done|].
  destruct (run_jar_operations_inv (∀ offset, ExpireWithTimeOffset offset ∉ ops) jar env' ops) as (r & Hr & Hm);
    [by split; [|apply synced_tracked]|done..|].
  exists r. split; [done|]. destruct r as [[j e]|]; [|done]. destruct Hm as [Hok' Ht]. split; [done|]. intros Hno. by eapply tracked_synced.
Qed.

(** ** Restart *)

(** The clock shows times of this era and does not go back. *)
Class SteadyClock := {
  clock_era : ∀ n, 0 ≤ m_seconds (clock n) ≤ 10 ^ 15;
  clock_steady : ∀ n, duration_lt (clock (S n)) (clock n) = false;
}.

(** What is written of a cookie and read back. *)
Definition persisted (c : Cookie) : Cookie := cookie_of_row (row_of c).

Lemma persisted_expiry t now :
  duration_valid t → duration_valid now → 0 ≤ m_seconds now ≤ 10 ^ 15 → duration_lt t now = false →
  duration_lt (time_of_ms (clamp_i64 (ms t))) now = false.
Proof.
  intros [Ht Htn] [Hn Hnn] Hera. rewrite <-!not_true_iff_false, !duration_lt_spec. intros Hlt Hlt'. apply Hlt. clear Hlt.
  unfold time_of_ms, clamp_i64, ms, i64_min, i64_max in *. cbn [m_seconds m_nanoseconds] in *.
  destruct (Z.ltb_spec (m_seconds t) 0); [left; lia|]. div_lia.
Qed.

Lemma agrees_persisted r c :
  agrees r c → with_last_access_time (cookie_of_row r) (last_access_time (persisted c)) = persisted c.
Proof. unfold agrees, forget_access, persisted, cookie_of_row, row_of, with_last_access_time. cbn. by intros [= -> -> -> -> -> -> -> -> -> -> ->]. Qed.

(** C8: Cookies survive a restart.  When a jar is destroyed and a new one is created
    from its database, every cookie that has not expired by then is in the new jar
    under the same key, the same cookie but for its last access time and for times
    rounded to milliseconds; and every cookie of the new jar is a row of the database or
    was marked to be written (a cookie that was purged from memory only may come back).
    The clock is assumed to show times after 1970 and not to go back, and the jar to be
    well-formed with its cookies in the database or marked to be written. *)
Theorem restart_keeps_cookies `{!SteadyClock} (jar : CookieJar D) env d :
  jar_ok jar → synced jar → m_persisted_storage jar = Some d →
  ∃ d' env' jar' env'', destroy_jar jar env = Returned (Some d', env') ∧ create_jar (Some d') env' = Returned (jar', env'')
    ∧ jar_ok jar' ∧ synced jar'
    ∧ (∀ k c, jar_live jar !! k = Some c → is_expired (clock (S (readings env))) c = false →
         ∃ c', jar_live jar' !! k = Some c' ∧ with_last_access_time c' (last_access_time (persisted c)) = persisted c)
    ∧ (∀ k c', jar_live jar' !! k = Some c' → ∃ r, pending jar d !! k = Some r ∧ c' = cookie_of_row r).
Proof.
  intros Hok Hs Hp. destruct (Hs d Hp) as [Hdb Hsync].
  destruct (on_timeout_spec jar env d Hok Hp Hdb) as (jar1 & env1 & d' & Hr1 & Hread & _ & Hp1 & Hdb' & _ & _ & Hrows).
  destruct (create_jar_spec d' env1 Hdb') as (jar' & env'' & Hc & _ & Hok' & Hs' & _ & Hl' & _).
  exists d', env1, jar', env''. split; [unfold destroy_jar; by rewrite Hr1, bind_value, Hp1|]. split_and!; try done.
  - intros k c Hk Hexp. destruct (Hsync k c Hk) as (r & Hr & Ha). exists (cookie_of_row r). split; [|by apply agrees_persisted].
    pose proof (ok_expiry c (proj2 (jar_ok_live jar Hok k c Hk))) as Hv.
    assert (row_expiry_time r = clamp_i64 (ms (expiry_time c))) as He by (by injection Ha as _ _ _ _ -> _).
    rewrite Hl'. apply unexpired_lookup. split.
    + rewrite lookup_fmap, Hrows. apply fmap_Some. exists r. split; [|done]. apply map_lookup_filter_Some. split; [done|].
      cbn. rewrite He. transitivity (clamp_i64 (ms (clock (S (readings env))))); apply ms_monotone; auto using clock_valid, clock_steady.
    + unfold is_expired. rewrite Hread. cbn. rewrite He. apply persisted_expiry; auto using clock_valid, clock_era.
  - intros k c' Hk. rewrite Hl' in Hk. apply unexpired_lookup in Hk as [Hk _]. rewrite lookup_fmap in Hk.
    apply fmap_Some in Hk as (r & Hk & ->). rewrite Hrows in Hk. apply map_lookup_filter_Some in Hk as [Hk _]. by exists r.
Qed.

End History.
