(* ===== verification/CookieJarExamples.v ===== *)
(** * A cookie jar on an example database

    The hypotheses of the theorems about the jar hold of a jar with one cookie, on a
    database that is a finite map. *)
From stdpp Require Import gmap.
From S2P Require Import Prelude CharacterTypes Externals Utf8 StringView Utf8View Format PercentEncoding Ipv4 Host PublicSuffix Url Time GenericLexer Http IpAddress HashFunctions HashTable HashTableCorrect HashMap Cookie ParsedCookie ParsedCookieCorrect CookieJar CookieJarCorrect CookieJarExpire CookieJarPersistence CookieJarHistory.

#[local] Existing Instances simdutf_example simdutf_example_ok fast_float_example public_suffix_example icu_case_map_example
  clock_example clock_example_ok views_example views_example_ok.

(** ** The database *)
Notation table := (gmap CookieStorageKey CookieRow).

#[local] Instance cookie_database_example : CookieDatabase table := {
  execute_insert_cookie d r := <[row_key r := r]> d;
  execute_expire_cookie d t := filter (λ kr, t ≤ row_expiry_time kr.2) d;
  execute_select_all_cookies d := (map_to_list (filter (λ kr, row_key kr.2 = kr.1) d)).*2;
}.

#[local] Instance cookie_database_example_ok : CookieDatabaseOk table.
Proof.
  refine {| rows := λ d : table, filter (λ kr, row_key kr.2 = kr.1) d |}.
  - by intros d k r [_ Hk]%map_lookup_filter_Some.
  - intros d r _. by apply map_filter_insert_True.
  - intros d t. cbn. rewrite !map_filter_filter. apply map_filter_ext. intros k r _. cbn. tauto.
  - done.
Defined.

#[local] Instance clock_example_steady : SteadyClock.
Proof.
  split; intros n; unfold clock, clock_example; [cbn [m_seconds]; lia|].
  rewrite <-not_true_iff_false, duration_lt_spec. cbn [m_seconds m_nanoseconds]. lia.
Qed.

(** ** A jar with one cookie *)
Definition session_cookie : Cookie :=
  mk_cookie (sv "sid") (sv "secret") SameSiteLax duration_zero duration_zero duration_max (sv "example.com") (sv "/")
    false true true true.

Definition example_jar_url : URL :=
  mk_url (sv "https") [] [] (Some (HostString (sv "example.com"))) None [[]] None None false None.

Lemma one_cookie_map :
  ∃ m, map_set empty_table (key_of session_cookie) session_cookie Replace = Returned (m, InsertedNewEntry)
    ∧ map_wf m ∧ contents m = {[key_of session_cookie := session_cookie]}.
Proof.
  destruct (map_set_spec empty_table (key_of session_cookie) session_cookie Replace wf_empty) as (m & r & Hr & Hwf & Hc & Hres).
  exists m. cbn in Hres. subst r. by split_and!.
Qed.

Ltac text := split; [apply ascii_text_valid|]; decide_by_compute.

Lemma session_cookie_ok : cookie_ok session_cookie.
Proof. split; try text; unfold duration_valid; decide_by_compute. Qed.

Lemma example_jar_url_ready : url_ready example_jar_url.
Proof.
  split.
  - exists (Some (sv "example.com")). split; [by vm_compute|]. intros d [= <-]. text.
  - exists (sv "/"). split; [by vm_compute|text].
Qed.

(** The jar, with the cookie stored and marked as changed. *)
Lemma one_cookie_jar :
  ∃ m, contents m = {[key_of session_cookie := session_cookie]} ∧
    let jar := mk_jar (Some (∅ : table)) (mk_transient m m) in jar_ok jar ∧ synced jar.
Proof.
  destruct one_cookie_map as (m & _ & Hwf & Hc). exists m. split; [done|].
  assert (store_ok (contents m)) as Hok.
  { rewrite Hc. apply map_Forall_singleton. split; [done|apply session_cookie_ok]. }
  split; [by split; [split| |]|]. intros d [= <-]. split; [intros k r [Hr _]%map_lookup_filter_Some; by rewrite lookup_empty in Hr|].
  cbn. intros k c Hk. exists (row_of c). rewrite pending_lookup. cbn. by rewrite Hk.
Qed.

(** ** The theorems at the example *)
Definition example_env : Env := mk_env 0 [].

Definition script_cookie : ParsedCookie :=
  mk_parsed_cookie (sv "sid") (sv "evil") SameSiteDefault None None (Some (sv "example.com")) None false false.

Lemma script_cookie_ok : parsed_ok script_cookie.
Proof. split; try text; try (intros d [= <-]; text); try done. Qed.

Lemma set_cookie_safe_witness :
  ∃ m, let jar := mk_jar (Some (∅ : table)) (mk_transient m m) in
  ∃ jar' env', set_cookie jar example_env example_jar_url script_cookie Http = Returned (jar', env') ∧ jar_ok jar'.
Proof.
  destruct one_cookie_jar as (m & _ & Hok & _). exists m.
  destruct (set_cookie_safe _ example_env example_jar_url script_cookie Http Hok example_jar_url_ready script_cookie_ok)
    as (jar' & env' & Hr & Hok' & _). exists jar', env'. split; assumption.
Defined.


(** The script's cookie takes the place of the HttpOnly one. *)
Lemma http_only_cookie_overwritten_witness :
  ∃ m, contents m = {[key_of session_cookie := session_cookie]} ∧
  ∃ c jar' env',
    set_cookie (mk_jar (Some (∅ : table)) (mk_transient m m)) example_env example_jar_url script_cookie NonHttp = Returned (jar', env')
    ∧ contents (m_cookies (m_transient_storage jar')) !! key_of session_cookie = Some c
    ∧ cookie_http_only c = false ∧ cookie_value c = sv "evil".
Proof.
  destruct one_cookie_jar as (m & Hm & Hok & _). exists m. split; [done|].
  assert (∃ c, new_cookie (mk_transient m m) example_jar_url script_cookie NonHttp (clock 0) = Returned (Some c)
    ∧ key_of c = key_of session_cookie ∧ cookie_host_only c = false ∧ is_expired (clock 2) c = false
    ∧ cookie_http_only c = false ∧ cookie_value c = sv "evil") as (c & Hnew & Hkey & Hho & Hexp & Hhttp & Hval).
  { eexists. split; [by vm_compute|]. by vm_compute. }
  destruct (http_only_cookie_overwritten _ example_env example_jar_url script_cookie c session_cookie Hok)
    as (jar' & env' & Hr & Hl); [by vm_compute|exact Hnew| |reflexivity|by rewrite Hho|exact Hexp|].
  - cbn [m_transient_storage m_cookies]. rewrite Hm, Hkey. apply lookup_singleton_eq.
  - exists c, jar', env'. rewrite <-Hkey. split_and!; assumption.
Defined.

Lemma synchronization_completes_witness :
  ∃ m, let jar := mk_jar (Some (∅ : table)) (mk_transient m m) in
  ∃ jar' env' d', on_timeout jar example_env = Returned (jar', env') ∧ m_persisted_storage jar' = Some d'
    ∧ rows d' !! key_of session_cookie = Some (row_of session_cookie).
Proof.
  destruct one_cookie_jar as (m & Hm & Hok & Hs). exists m. destruct (Hs ∅ eq_refl) as [Hdb _].
  destruct (synchronization_completes _ example_env ∅ Hok eq_refl Hdb) as (jar' & env' & d' & Hr & _ & Hp & _ & _ & _ & Hrow & _).
  exists jar', env', d'. split_and!; [done..|]. apply Hrow; [cbn; rewrite Hm; apply lookup_singleton_eq|by vm_compute].
Defined.

Lemma empty_table_ok : db_ok (∅ : table).
Proof. intros k r [Hr _]%map_lookup_filter_Some. by rewrite lookup_empty in Hr. Qed.

Definition example_operations : list jar_operation :=
  [SetCookie example_jar_url script_cookie Http; GetCookie example_jar_url Http; OnTimeout].

Lemma example_operations_ok offset :
  duration_valid offset → Forall jar_operation_ok (ExpireWithTimeOffset offset :: example_operations).
Proof. intros Ho. repeat (apply Forall_cons; split; [cbn; auto using example_jar_url_ready, script_cookie_ok|]). by apply Forall_nil. Qed.

(** With and without a time offset of one day. *)
Lemma jar_history_witness :
  (∃ jar env', create_jar (Some (∅ : table)) example_env = Returned (jar, env') ∧
   ∃ jar' env'', run_jar_operations jar env' example_operations = Returned (Some (jar', env'')) ∧ jar_ok jar' ∧ synced jar')
  ∧ (∃ jar env', create_jar (Some (∅ : table)) example_env = Returned (jar, env') ∧
     ∃ jar' env'', run_jar_operations jar env' (ExpireWithTimeOffset (mk_duration 86400 0) :: example_operations)
       = Returned (Some (jar', env'')) ∧ jar_ok jar').
Proof.
  assert (duration_valid (mk_duration 86400 0)) as Ho by (by repeat split).
  pose proof (example_operations_ok _ Ho) as Hall. pose proof Hall as [_ Hops]%Forall_cons.
  split.
  - destruct (jar_history (∅ : table) example_env example_operations empty_table_ok Hops) as (jar & env' & Hc & r & Hr & Hm).
    exists jar, env'. split; [done|]. destruct r as [[j e]|].
    + exists j, e. destruct Hm as [Hok Hs]. split_and!; [done..|]. apply Hs. unfold example_operations. set_solver.
    + exfalso. destruct Hm as [since Hin]. unfold example_operations in Hin. set_solver.
  - destruct (jar_history (∅ : table) example_env _ empty_table_ok Hall) as (jar & env' & Hc & r & Hr & Hm).
    exists jar, env'. split; [done|]. destruct r as [[j e]|]; [exists j, e; by destruct Hm|].
    exfalso. destruct Hm as [since Hin]. unfold example_operations in Hin. set_solver.
Defined.

Lemma restart_keeps_cookies_witness :
  ∃ m, let jar := mk_jar (Some (∅ : table)) (mk_transient m m) in
  ∃ d' env' jar' env'' c', destroy_jar jar example_env = Returned (Some d', env') ∧ create_jar (Some d') env' = Returned (jar', env'')
    ∧ contents (m_cookies (m_transient_storage jar')) !! key_of session_cookie = Some c'.
Proof.
  destruct one_cookie_jar as (m & Hm & Hok & Hs). exists m.
  destruct (restart_keeps_cookies _ example_env ∅ Hok Hs eq_refl) as (d' & env' & jar' & env'' & H1 & H2 & _ & _ & Hkeep & _).
  destruct (Hkeep (key_of session_cookie) session_cookie) as (c' & Hc' & _);
    [cbn; rewrite Hm; apply lookup_singleton_eq|by vm_compute|]. by exists d', env', jar', env'', c'.
Defined.
